(* ===== verification/_CoqProject ===== *)
-Q . S2P
Prelude.v
FairnessModel.v
FairnessPressure.v
FairnessScheduler.v
FairnessInvariant.v
FairnessContract.v
FairnessReach.v
FairnessProgress.v
FairnessProps.v
Net.v
Aes.v
RpcWire.v
RpcReader.v
RpcStream.v
Reader.v
ReaderOrder.v
MiddleProxyProps.v
Random.v
Tls.v
TlsServer.v
TlsHello.v
FrontProps.v
Replay.v
ReplayRun.v
AuthProbe.v
TrafficLimiter.v
Limiter.v
LimiterInv.v
LimiterRate.v
AtomicBucket.v
GuardProps.v
Stream.v
TlsStream.v
TlsStreamInv.v
CryptoStream.v
CryptoStreamInv.v
StreamLive.v
StreamRun.v
StreamProps.v
RelayIdle.v
RelayIdleRun.v
Desync.v
ClientFrames.v
ClientFramesSpec.v
ClientWrite.v
ClientWriteSpec.v
ClientRun.v
RouteMode.v
ClientProps.v
ConnRegistry.v
ConnRegistryInv.v
ConnRoute.v
RegistryProps.v
QuotaProg.v
QuotaIo.v
QuotaIoSpec.v
QuotaMiddle.v
MeWriterTask.v
MeWriterSpec.v
RelaySession.v
C2me.v
UserQuota.v
QuotaStore.v
QuotaProps.v
AuthScan.v
Obfuscation.v
MtprotoAuth.v
ProxyProtocol.v
TlsEmulator.v
TlsResponse.v
TlsAuth.v
TlsAuthSpec.v
TlsFlowSpec.v
HandshakeProps.v
IpTracker.v
IpTrackerInv.v
IpTrackerRun.v
IpLimits.v
IpProps.v
ProxyProps.v
