(* ===== verification/Prelude.v ===== *)
(** * Verification of tupoproxy

    tupoproxy is a Telegram proxy.  A client connects with what looks like TLS 1.3
    (src/src/protocol/tls.rs), is authenticated by a digest in its ClientHello, and
    then speaks an encrypted stream inside TLS records
    (src/src/stream/tls_stream.rs, src/src/stream/crypto_stream.rs).  The proxy
    relays it to Telegram directly or through a middle proxy, whose connections
    many clients share: their requests are framed by RpcWriter
    (src/src/transport/middle_proxy/codec.rs, wire.rs), the answers are decrypted,
    split and dispatched by reader_loop (reader.rs) under a fair scheduler
    (fairness/), and a relay session per client (src/src/proxy/middle_relay/) reads
    the client's frames and writes the answers back.  Around this stand the guards:
    replay cache, authentication throttle, traffic limiter, and a quota per user that
    all sessions of the user debit at once (src/src/stats/quota_store.rs,
    src/src/proxy/relay/io.rs), and limits on the connections and addresses of a user
    (src/src/ip_tracker.rs).

    This library models these parts as Rocq functions on explicit states and proves
    what makes them correct.  Every definition is executable and carries the name of
    the function it translates (or that name with the type's as a prefix).

    ** Conventions

    Integers of a width are values of [Z] with saturation and wrap-around written
    out ([sat_add], [wrap_signed], ...); bytes are values of [Z], buffers [list Z],
    hash maps [gmap]; time is a number of nanoseconds that the caller passes.
    Fallible code returns [result] or, where it indexes slices, the outcome monad
    below, whose [Panic] the totality theorems exclude.  Locks make a method one
    transition; where the code is lock-free and interleavings matter, the accesses
    to the atomics are steps of their own (AtomicBucket, RelayIdleRun), or operations
    of a free monad with a program logic and an interleaved execution (QuotaProg).  Third-party
    code is a class with laws: the block cipher and its CTR key stream (Aes), the
    generator (Random), HMAC and key exchange (Tls, TlsServer), the LRU map
    (Replay), hashing and map iteration order (AuthProbe, IpTracker).  The classes are
    instantiated in the examples that go with the theorems.

    ** Files

    - Prelude: machine integers, bytes, outcomes, sums over maps.
    - FairnessModel, FairnessPressure, FairnessScheduler: the data of model.rs,
      PressureEvaluator, and WorkerFairnessState with every operation.
      FairnessInvariant: the invariant of the scheduler (counters equal to sums over
      the flows, the ring equal to the active flows).  FairnessContract: its
      refinement of one queue per connection.  FairnessReach, FairnessProgress:
      reachable states, and how far a waiting flow is from the head of the ring.
      FairnessProps: exact accounting, ring consistency, refinement to queues, no
      starvation, hysteresis of the pressure state.
    - Net, Aes, RpcWire: addresses, CTR and CBC modes, frames and payloads of the
      middle-proxy protocol.  RpcReader, RpcStream: the frame splitter of
      reader_loop, and a writer's stream through it.  Reader, ReaderOrder: the whole
      loop with routing, fair sharing and retries.  MiddleProxyProps: what one side
      sends the other receives, in any segmentation; answers keep their order and
      none is lost; errors come only from mismatches.
    - Random, Tls, TlsServer, TlsHello: the generator, ClientHello parsers and
      selectors, authentication and ServerHello, and a reference layout of a
      ClientHello.  FrontProps: acceptance is exact, the answer proves the secret,
      parsers are total on any bytes and read a well-formed hello back.
    - Replay, ReplayRun: ReplayShard and ReplayChecker, and runs of calls.
      AuthProbe: the throttle of failing peers.  TrafficLimiter, Limiter:
      buckets and shares, and TrafficLimiter with its leases and policies.
      LimiterInv, LimiterRate: its invariants; AtomicBucket: the lock-free bucket.
      GuardProps: replays are detected and not invented, the throttle is exact and
      bounded, leases are accounted for, rates hold, the lock-free bucket is
      linearizable within an epoch.
    - Stream: AsyncRead and AsyncWrite as classes, what a reader or writer promises
      as records of laws ([ReaderSpec], [WriterSpec], [SourceSpec]), sockets that
      follow a script.  TlsStream, CryptoStream: the two layers over any stream.
      TlsStreamInv, CryptoStreamInv, StreamLive: each layer keeps the promise if the
      layer below does.  StreamRun, StreamProps: the stack of both layers delivers
      what was written, never invents bytes, always answers a poll, and holds a
      bounded amount.
    - RelayIdle, RelayIdleRun: the registry of idle sessions and their eviction under
      pressure, also as racing atomic accesses.  Desync: the cache that limits
      reports of desynchronised clients.  ClientFrames, ClientFramesSpec: reading a
      client's frame under the idle policy, against a parser of whole byte strings.
      ClientWrite, ClientWriteSpec: framing of answers.  ClientRun: batches of both.
      RouteMode: switching between routes.  ClientProps: answers arrive unchanged
      through framing, encryption and records; frames are exact; idle sessions are
      closed in time and not early; eviction is first come first served; one report
      per client and window; a switch affects exactly the sessions on the wrong
      route.
    - ConnRegistry, ConnRegistryInv: the registry of connections and writers, and its
      refinement of one map of bindings.  ConnRoute: answers routed to a connection's
      channel with permits of its byte budget.  RegistryProps: the refinement over
      all operations, and that routing queues what it says and leaks no permit.
    - QuotaProg: programs that share a user's quota counter, the accounts of what they
      take ([wp]), and their interleaved execution ([run_system]) with its soundness.
      QuotaIo, QuotaIoSpec: StatsIo, the debiting stream of a direct session.
      RelaySession: any polls of it.  QuotaMiddle: reservation with back-off and waits
      for the lease.  MeWriterTask, MeWriterSpec: the task that writes answers in
      batches.  C2me: payloads on their way to the middle proxy, their byte budget and
      channel.  UserQuota: all of a user's sessions at once.  QuotaStore: the counters
      of all users and their file.  QuotaProps: the limit holds under any
      interleaving, sessions are charged for exactly what they moved, answers are
      written in order and flushed, the queue is lossless and bounded, the quota
      survives a restart.
    - Authentication of clients.  AuthScan: the snapshot of the configured users
      (config/load/runtime_auth.rs), the hints of earlier successes and the bounded
      search over them (proxy/handshake/auth_candidates.rs, shared_state.rs).
      Obfuscation: keys and tags of the 64 bytes a client or the proxy opens with
      (protocol/obfuscation.rs, handshake/nonce.rs).  MtprotoAuth: the handler of
      handshake/mtproto.rs, from the throttle to the session.  TlsEmulator: the
      flight that looks like a cached front's (tls_front/emulator.rs, types.rs), the
      lookup of a front and the budget of full certificates (tls_front/cache.rs).  TlsResponse: the write of the answer, in one piece or
      in fragments (transport/socket/fragmented_send.rs).  TlsAuth: the handler
      of the TLS front (handshake/tls_auth.rs, tls_validation.rs, tls_handshake.rs),
      from the hello to the answer and the record stream above it; TlsAuthSpec says
      which hellos are authentic and TlsFlowSpec how a run can end.
      HandshakeProps: exactly the configured secrets are accepted while the proxy
      is not overloaded, and both ways to look users up agree where one user signed
      and the name suggests few; client, proxy and datacenter agree on
      framing, datacenter and ciphers; nothing is admitted twice within the window
      and the room of the replay cache; the work per stranger is bounded and known
      addresses are served under saturation; every run of the front is accounted
      for, errors of the socket and waiting included.
    - Limits of a user.  IpTracker: the tracker of addresses (ip_tracker.rs and
      ip_tracker/), the counter of connections (stats/users.rs) and the reservation
      a session holds (proxy/client.rs).  IpTrackerInv, IpTrackerRun: the sections
      under its locks keep the counts of open sessions, in any interleaving, for the
      users whose addresses are not cleared on the way.  IpLimits: whole calls
      against a list of open sessions.  IpProps: counts are exact, the limit of
      addresses holds, calls are answered like by the list.
    - ProxyProtocol: parser and builders of transport/proxy_protocol.rs with the text
      form of addresses.  ProxyProps: headers read back and leave the traffic behind
      them alone; on any bytes the parser stays within its bounds.

    ** Bounds and fuel

    Loops that are not structural take a number of rounds, and a theorem or lemma
    says that the number given is enough: next_decision visits each flow of the ring
    at most once per call ([next_loop_spec]); the frame splitter consumes a byte or
    more per round; a poll of the reading stack needs three rounds per byte and
    three more ([stack_polls_return]); a write loop advances a byte per round
    ([write_all_poll], [flush_rounds]); empty frames end within 64 frames of a call
    ([empty_frames_bounded]); a consumption of the bucket ends within six accesses
    ([bucket_call_returns]).  The waits of the quota code end unless timers keep
    firing: a poll or a wait that runs out of rounds has seen a number of timers in
    proportion to them ([out_of_rounds], [budget_post]); a reservation backs off 16
    times at most ([wp_reserve_user_quota]).

    ** Departures found

    The theorems [fairshare_switch_reorders], [unaligned_payload_desyncs],
    [epoch_switch_overshoots], [replay_window_wraps], [pressure_spent_twice],
    [dedup_exceeds_max], [dropped_read_desyncs], [hot_binding_leaks],
    [write_wake_lost], [quota_false_alarm], [batch_lost_at_close],
    [crowded_initial_refused], [tls_digest_race], [window_limit_exceeded],
    [cleared_user_undercounts], [telemetry_off_unlimited] and
    [v1_long_line_accepted] show runs in which the code does not do what it means to
    do or what its documentation says.

    ** Not modelled

    Sockets, name resolution, tasks, channels and timers themselves (maestro,
    listeners, upstreams, the middle-proxy pool with its health checks, the
    select loops of the relays): the model takes what they deliver as inputs of
    its steps, in any order.  Configuration decoding and reload, the HTTP interfaces,
    metrics, logging, daemon and service code, system tools (conntrack, SYN limits),
    network probes: input and output without computation of its own, or third-party
    code.  Fetching the profile of a front and masking: third-party TLS code and
    forwarding; the cache files and the updating of the cache. *)

From stdpp Require Import base list gmap numbers.
Local Open Scope Z_scope.

(** * Machine integers

    Unsigned [w]-bit integers are values of [Z] in [[0, 2^w)].  The saturating
    operations are those of Rust's [uN::saturating_*] and [i64::saturating_*]. *)

Definition umax (w : Z) : Z := 2 ^ w - 1.
Definition in_u (w z : Z) : Prop := 0 <= z <= umax w.
Definition i64_max : Z := 2 ^ 63 - 1.
Definition i64_min : Z := - 2 ^ 63.

Definition sat_add (w a b : Z) : Z := Z.min (a + b) (umax w).
Definition sat_sub (a b : Z) : Z := Z.max (a - b) 0.
Definition sat_mul (w a b : Z) : Z := Z.min (a * b) (umax w).
Definition i64_sat (z : Z) : Z := Z.max i64_min (Z.min z i64_max).
Definition i64_sat_add (a b : Z) : Z := i64_sat (a + b).
Definition i64_sat_sub (a b : Z) : Z := i64_sat (a - b).

(** [x as i64] for a [u64] value [x]. *)
Definition u64_as_i64 (x : Z) : Z := if x <=? i64_max then x else x - 2 ^ 64.

(** [x.clamp(lo, hi)]. *)
Definition clamp (lo hi x : Z) : Z := Z.min (Z.max x lo) hi.

(** * Time

    [Instant] and [Duration] are nanosecond counts. *)

Definition Instant : Type := Z.
Definition Duration : Type := Z.
Definition from_millis (ms : Z) : Duration := ms * 1000000.
Definition from_secs (s : Z) : Duration := s * 1000000000.
Definition saturating_duration_since (now ts : Instant) : Duration := Z.max 0 (now - ts).

Create HintDb machine.
#[export] Hint Unfold umax in_u sat_add sat_sub sat_mul i64_sat i64_sat_add i64_sat_sub
  i64_max i64_min u64_as_i64 clamp : machine.

(** Decide linear facts about saturating arithmetic. *)
Ltac machine_lia :=
  unfold sat_add, sat_sub, sat_mul, i64_sat_add, i64_sat_sub, i64_sat, u64_as_i64,
    clamp, in_u, umax, i64_max, i64_min in *;
  repeat match goal with
  | |- context [if ?b then _ else _] => destruct b eqn:?
  | H : context [if ?b then _ else _] |- _ => destruct b eqn:?
  end; lia.

Lemma sat_add_exact w a b : a + b <= umax w -> sat_add w a b = a + b.
Proof. machine_lia. Qed.

Lemma sat_sub_exact a b : b <= a -> sat_sub a b = a - b.
Proof. machine_lia. Qed.

Lemma sat_add_guard w a b cap :
  cap < umax w -> sat_add w a b <= cap -> sat_add w a b = a + b.
Proof. machine_lia. Qed.

Lemma u64_as_i64_exact x : x <= i64_max -> u64_as_i64 x = x.
Proof. machine_lia. Qed.

Lemma clamp_bounds lo hi x : lo <= hi -> lo <= clamp lo hi x <= hi.
Proof. machine_lia. Qed.

(** * Bytes and byte strings

    A byte is a [Z] in [[0, 256)]; byte strings are lists of bytes. *)

Definition is_byte (b : Z) : Prop := 0 <= b < 256.
Definition bytes_ok (l : list Z) : Prop := Forall is_byte l.

(** Evaluates [bytes_ok] on concrete strings. *)
Lemma bytes_ok_dec l : forallb (fun b => (0 <=? b) && (b <? 256)) l = true -> bytes_ok l.
Proof.
  induction l as [|b l IH]; cbn; [constructor|].
  intros [Hb Hl]%andb_prop. constructor; [unfold is_byte; lia | by apply IH].
Qed.

(** [uN::from_le_bytes] / [from_be_bytes] on any width. *)
Fixpoint of_le (l : list Z) : Z :=
  match l with
  | [] => 0
  | b :: l => b + 256 * of_le l
  end.
Definition of_be (l : list Z) : Z := of_le (reverse l).

(** [to_le_bytes] / [to_be_bytes], [n] bytes wide. *)
Fixpoint to_le (n : nat) (z : Z) : list Z :=
  match n with
  | O => []
  | S n => z mod 256 :: to_le n (z / 256)
  end.
Definition to_be (n : nat) (z : Z) : list Z := reverse (to_le n z).

Lemma length_to_le n z : length (to_le n z) = n.
Proof. revert z; induction n; intros; simpl; auto. Qed.

Lemma length_to_be n z : length (to_be n z) = n.
Proof. unfold to_be. by rewrite length_reverse, length_to_le. Qed.

Lemma to_le_bytes_ok n z : bytes_ok (to_le n z).
Proof.
  revert z; induction n as [|n IH]; intros z; simpl; [constructor|].
  constructor; [unfold is_byte; by apply Z.mod_pos_bound | apply IH].
Qed.

Lemma to_be_bytes_ok n z : bytes_ok (to_be n z).
Proof. apply Forall_reverse, to_le_bytes_ok. Qed.

Lemma of_le_to_le n z : 0 <= z < 256 ^ Z.of_nat n -> of_le (to_le n z) = z.
Proof.
  revert z; induction n as [|n IH]; intros z Hz.
  - change (256 ^ Z.of_nat 0) with 1 in Hz. simpl. lia.
  - rewrite Nat2Z.inj_succ, Z.pow_succ_r in Hz by lia. simpl. rewrite IH.
    + pose proof (Z.div_mod z 256). lia.
    + split; [apply Z.div_pos; lia|]. apply Z.div_lt_upper_bound; lia.
Qed.

Lemma of_be_to_be n z : 0 <= z < 256 ^ Z.of_nat n -> of_be (to_be n z) = z.
Proof. intros. unfold of_be, to_be. rewrite reverse_involutive. by apply of_le_to_le. Qed.

Lemma of_le_bounds l : bytes_ok l -> 0 <= of_le l < 256 ^ Z.of_nat (length l).
Proof.
  induction 1 as [|b l Hb _ IH]; simpl; [lia|].
  rewrite Nat2Z.inj_succ, Z.pow_succ_r by lia. unfold is_byte in Hb. lia.
Qed.

Lemma of_be_bounds l : bytes_ok l -> 0 <= of_be l < 256 ^ Z.of_nat (length l).
Proof.
  intros. unfold of_be. rewrite <- (length_reverse l).
  by apply of_le_bounds, Forall_reverse.
Qed.

Lemma to_le_of_le l : bytes_ok l -> to_le (length l) (of_le l) = l.
Proof.
  induction 1 as [|b l Hb _ IH]; simpl; [done|]. unfold is_byte in Hb.
  rewrite (Z.mul_comm 256), Z.mod_add, Z.mod_small by lia.
  rewrite Z.div_add, (Z.div_small b) by lia. by rewrite Z.add_0_l, IH.
Qed.

(** * Code that indexes slices

    [parse A] is the outcome of a Rust function body returning
    [Option<A>]: a value, an early [return None], an out-of-bounds panic, or
    (for a loop run with fuel) exhaustion of the fuel. *)

Inductive parse (A : Type) : Type :=
| Got (a : A)
| Reject
| Panic
| OutOfFuel.
Arguments Got {A} a.
Arguments Reject {A}.
Arguments Panic {A}.
Arguments OutOfFuel {A}.

Definition parse_bind {A B} (m : parse A) (k : A -> parse B) : parse B :=
  match m with
  | Got a => k a
  | Reject => Reject
  | Panic => Panic
  | OutOfFuel => OutOfFuel
  end.

(** [if !b { return None }]. *)
Definition guard_ok {B} (b : bool) (k : parse B) : parse B := if b then k else Reject.

Declare Scope parse_scope.
Delimit Scope parse_scope with parse.
Notation "x <~ m ;; k" := (parse_bind m (fun x => k))
  (at level 100, m at next level, right associativity) : parse_scope.
Notation "'require' b ;; k" := (guard_ok b k)
  (at level 100, b at next level, right associativity) : parse_scope.

(** [h[i]]: panics out of bounds. *)
Definition ix (h : list Z) (i : nat) : parse Z :=
  match h !! i with Some b => Got b | None => Panic end.

(** [h.get(i)?] / [h.get(i).copied()?]: returns [None] out of bounds. *)
Definition get (h : list Z) (i : nat) : parse Z :=
  match h !! i with Some b => Got b | None => Reject end.

(** [&h[a..b]]: panics when [a > b] or [b > h.len()]. *)
Definition slice (h : list Z) (a b : nat) : parse (list Z) :=
  if decide (a <= b /\ b <= length h)%nat then Got (take (b - a) (drop a h)) else Panic.

(** [u16::from_be_bytes([h[i], h[i + 1]])]. *)
Definition be16_at (h : list Z) (i : nat) : parse Z :=
  parse_bind (ix h i) (fun a => parse_bind (ix h (i + 1)) (fun b => Got (of_be [a; b]))).

(** A run is safe when it neither panics nor runs out of fuel. *)
Definition safe {A} (m : parse A) : Prop :=
  match m with Got _ | Reject => True | Panic | OutOfFuel => False end.

Lemma safe_bind {A B} (m : parse A) (k : A -> parse B) :
  safe m -> (forall a, m = Got a -> safe (k a)) -> safe (parse_bind m k).
Proof. destruct m; simpl; auto. Qed.

Lemma safe_guard {B} (b : bool) (k : parse B) :
  (b = true -> safe k) -> safe (guard_ok b k).
Proof. destruct b; simpl; auto. Qed.

Lemma safe_get h i : safe (get h i).
Proof. unfold get. by destruct (h !! i). Qed.

Lemma ix_in h i : (i < length h)%nat -> exists b, h !! i = Some b /\ ix h i = Got b.
Proof. intros Hi. destruct (lookup_lt_is_Some_2 h i Hi) as [b Hb]. exists b. unfold ix. by rewrite Hb. Qed.

Lemma safe_ix h i : (i < length h)%nat -> safe (ix h i).
Proof. intros Hi. destruct (ix_in h i Hi) as (b & _ & ->). done. Qed.

Lemma safe_be16_at h i : (i + 1 < length h)%nat -> safe (be16_at h i).
Proof.
  intros Hi. unfold be16_at.
  apply safe_bind; [apply safe_ix; lia|]. intros a _.
  apply safe_bind; [apply safe_ix; lia|]. done.
Qed.

Lemma safe_slice h a b : (a <= b)%nat -> (b <= length h)%nat -> safe (slice h a b).
Proof. intros. unfold slice. rewrite decide_True by lia. done. Qed.

Lemma ix_Got h i b : ix h i = Got b -> h !! i = Some b.
Proof. unfold ix. destruct (h !! i); congruence. Qed.

Lemma get_Got h i b : get h i = Got b -> h !! i = Some b.
Proof. unfold get. destruct (h !! i); congruence. Qed.

Lemma slice_Got h a b l :
  slice h a b = Got l -> (a <= b <= length h)%nat /\ l = take (b - a) (drop a h).
Proof. unfold slice. case_decide; [intros [= <-]; split; [lia|done] | done]. Qed.

Lemma be16_at_Got h i v :
  be16_at h i = Got v -> exists a b, h !! i = Some a /\ h !! (i + 1)%nat = Some b /\ v = of_be [a; b].
Proof.
  unfold be16_at, ix.
  destruct (h !! i) as [a|]; [|done]. destruct (h !! (i + 1)%nat) as [b|]; simpl; [|done].
  intros [= <-]. eauto.
Qed.

Lemma of_be_2 a b : of_be [a; b] = 256 * a + b.
Proof. unfold of_be. rewrite reverse_cons. simpl. lia. Qed.

Lemma be16_at_range h i v : bytes_ok h -> be16_at h i = Got v -> 0 <= v < 65536.
Proof.
  intros Hok (a & b & Ha & Hb & ->)%be16_at_Got.
  pose proof (Forall_lookup_1 _ _ _ _ Hok Ha) as Ba.
  pose proof (Forall_lookup_1 _ _ _ _ Hok Hb) as Bb.
  unfold is_byte in *. rewrite of_be_2. lia.
Qed.

(** Prove [safe] goals of straight-line parsing code; the arithmetic that keeps
    an index in bounds is left to [lia]. *)
Ltac solve_safe :=
  repeat match goal with
  | |- safe (parse_bind _ _) => apply safe_bind; [|intros ? ?]
  | |- safe (guard_ok _ _) => apply safe_guard; intros ?
  | |- safe (get _ _) => apply safe_get
  | |- safe (Got _) => exact I
  | |- safe Reject => exact I
  | H : bool_decide _ = true |- _ => apply bool_decide_eq_true_1 in H
  | |- safe (ix _ _) => apply safe_ix; lia
  | |- safe (be16_at _ _) => apply safe_be16_at; lia
  | |- safe (slice _ _ _) => apply safe_slice; lia
  end.

(** * Sums over finite maps *)

Section map_sum.
Context {K : Type} `{Countable K} {A : Type}.
Implicit Types (f : K -> A -> Z) (m : gmap K A).

(** The sum of [f k x] over the entries of [m]. *)
Definition map_sum f m : Z := map_fold (fun k x acc => f k x + acc) 0 m.

Lemma map_sum_empty f : map_sum f ∅ = 0.
Proof. apply map_fold_empty. Qed.

Lemma map_sum_insert_new f m k x :
  m !! k = None -> map_sum f (<[k:=x]> m) = f k x + map_sum f m.
Proof. intros. unfold map_sum. rewrite map_fold_insert_L; [done| |done]. intros; lia. Qed.

Lemma map_sum_delete f m k x :
  m !! k = Some x -> map_sum f (delete k m) = map_sum f m - f k x.
Proof.
  intros Hk. unfold map_sum. rewrite (map_fold_delete_L _ _ k x m); [lia| |done].
  intros; lia.
Qed.

Lemma map_sum_insert f m k x y :
  m !! k = Some y -> map_sum f (<[k:=x]> m) = map_sum f m - f k y + f k x.
Proof.
  intros Hk. rewrite <- insert_delete_eq, map_sum_insert_new by apply lookup_delete_eq.
  rewrite (map_sum_delete _ _ _ _ Hk). lia.
Qed.

Lemma map_sum_nonneg f m :
  (forall k x, m !! k = Some x -> 0 <= f k x) -> 0 <= map_sum f m.
Proof.
  induction m as [|k x m Hk IH] using map_ind; intros Hf; [by rewrite map_sum_empty|].
  rewrite map_sum_insert_new by done.
  assert (0 <= f k x) by (apply Hf, lookup_insert_eq).
  enough (0 <= map_sum f m) by lia. apply IH. intros k' x' Hk'. apply Hf.
  rewrite lookup_insert_ne; [done | congruence].
Qed.

Lemma map_sum_lookup_le f m k x :
  (forall k x, m !! k = Some x -> 0 <= f k x) -> m !! k = Some x -> f k x <= map_sum f m.
Proof.
  intros Hf Hk. pose proof (map_sum_delete f m k x Hk).
  enough (0 <= map_sum f (delete k m)) by lia.
  apply map_sum_nonneg. intros k' x' [? ?]%lookup_delete_Some. by apply Hf.
Qed.

Lemma map_sum_le_size f m :
  (forall k x, m !! k = Some x -> f k x <= 1) -> map_sum f m <= Z.of_nat (size m).
Proof.
  induction m as [|k x m Hk IH] using map_ind; intros Hf.
  { rewrite map_sum_empty. lia. }
  rewrite map_sum_insert_new, map_size_insert_None by done.
  assert (f k x <= 1) by (apply Hf, lookup_insert_eq).
  enough (map_sum f m <= Z.of_nat (size m)) by lia. apply IH. intros k' x' Hk'. apply Hf.
  rewrite lookup_insert_ne; [done | congruence].
Qed.

Lemma map_sum_ext f g m :
  (forall k x, m !! k = Some x -> f k x = g k x) -> map_sum f m = map_sum g m.
Proof.
  induction m as [|k x m Hk IH] using map_ind; intros Hf; [by rewrite !map_sum_empty|].
  rewrite !map_sum_insert_new by done. f_equal; [apply Hf, lookup_insert_eq|].
  apply IH. intros k' x' Hk'. apply Hf. rewrite lookup_insert_ne; [done | congruence].
Qed.

Lemma map_sum_le f g m :
  (forall k x, m !! k = Some x -> f k x <= g k x) -> map_sum f m <= map_sum g m.
Proof.
  induction m as [|k x m Hk IH] using map_ind; intros Hf; [by rewrite !map_sum_empty|].
  rewrite !map_sum_insert_new by done.
  assert (f k x <= g k x) by apply Hf, lookup_insert_eq.
  enough (map_sum f m <= map_sum g m) by lia.
  apply IH. intros k' x' Hk'. apply Hf. rewrite lookup_insert_ne; [done | congruence].
Qed.
End map_sum.

(** The number a boolean contributes to a count. *)
Definition b2z (b : bool) : Z := if b then 1 else 0.

Lemma b2z_range b : 0 <= b2z b <= 1.
Proof. destruct b; simpl; lia. Qed.

(** [Vec<u64>] cells: a read, and an update in place.  Out-of-range indices
    panic in the source; the components prove their indices in range. *)
Definition cell (l : list Z) (i : nat) : Z := default 0 (l !! i).

Lemma cell_insert_eq l i v : (i < length l)%nat -> cell (<[i:=v]> l) i = v.
Proof. intros. unfold cell. by rewrite list_lookup_insert_eq. Qed.

Lemma cell_insert_ne l i j v : i <> j -> cell (<[i:=v]> l) j = cell l j.
Proof. intros. unfold cell. by rewrite list_lookup_insert_ne. Qed.

Lemma cell_replicate n v i : (i < n)%nat -> cell (replicate n v) i = v.
Proof. intros. unfold cell. by rewrite lookup_replicate_2. Qed.

(** * Results of fallible functions *)

Inductive result (E A : Type) : Type :=
| Ok (a : A)
| Err (e : E).
Arguments Ok {E A} a.
Arguments Err {E A} e.

Definition result_bind {E A B} (m : result E A) (k : A -> result E B) : result E B :=
  match m with Ok a => k a | Err e => Err e end.

Declare Scope result_scope.
Delimit Scope result_scope with result.
Notation "x <! m ;; k" := (result_bind m (fun x => k))
  (at level 100, m at next level, right associativity) : result_scope.

(** * Signed reading of little-endian words *)

(** [i32::from_le_bytes], [i64::from_le_bytes]. *)
Definition as_signed (w z : Z) : Z := if z <? 2 ^ (w - 1) then z else z - 2 ^ w.

(** [wrapping_add] on a signed type of width [w]. *)
Definition wrap_signed (w z : Z) : Z := as_signed w (z mod 2 ^ w).

Lemma of_le_to_le_mod n z : of_le (to_le n z) = z mod 256 ^ Z.of_nat n.
Proof.
  revert z; induction n as [|n IH]; intros z.
  - change (256 ^ Z.of_nat 0) with 1. by rewrite Z.mod_1_r.
  - rewrite Nat2Z.inj_succ, Z.pow_succ_r by lia. simpl. rewrite IH.
    rewrite Z.rem_mul_r by lia. done.
Qed.

Lemma as_signed_mod w z : 0 < w -> - 2 ^ (w - 1) <= z < 2 ^ (w - 1) -> as_signed w (z mod 2 ^ w) = z.
Proof.
  intros Hw Hz. assert (H2 : 2 ^ w = 2 * 2 ^ (w - 1)) by (rewrite <- Z.pow_succ_r by lia; f_equal; lia).
  unfold as_signed. destruct (Z.neg_nonneg_cases z) as [Hn|Hn].
  - rewrite <- (Z.mod_add z 1) by lia. rewrite Z.mod_small by lia.
    destruct (Z.ltb_spec (z + 1 * 2 ^ w) (2 ^ (w - 1))); lia.
  - rewrite Z.mod_small by lia. destruct (Z.ltb_spec z (2 ^ (w - 1))); lia.
Qed.

Lemma wrap_signed_range w z : 0 < w -> - 2 ^ (w - 1) <= wrap_signed w z < 2 ^ (w - 1).
Proof.
  intros Hw. assert (H2 : 2 ^ w = 2 * 2 ^ (w - 1)) by (rewrite <- Z.pow_succ_r by lia; f_equal; lia).
  unfold wrap_signed, as_signed. pose proof (Z.mod_pos_bound z (2 ^ w) ltac:(lia)).
  destruct (Z.ltb_spec (z mod 2 ^ w) (2 ^ (w - 1))); lia.
Qed.

(** * Byte fields at fixed offsets *)

(** The [n] bytes at offset [off]. *)
Definition sub (off n : nat) (l : list Z) : list Z := take n (drop off l).

Lemma sub_skip off n a l : (length a <= off)%nat -> sub off n (a ++ l) = sub (off - length a) n l.
Proof. intros. unfold sub. by rewrite drop_app_ge. Qed.

Lemma sub_hit n a l : n = length a -> sub 0 n (a ++ l) = a.
Proof. intros ->. unfold sub. rewrite drop_0. by rewrite take_app_length. Qed.

Lemma sub_all n a : n = length a -> sub 0 n a = a.
Proof. intros ->. unfold sub. rewrite drop_0. by rewrite firstn_all. Qed.

Lemma length_sub off n l : (off + n <= length l)%nat -> length (sub off n l) = n.
Proof. intros. unfold sub. rewrite length_take, length_drop. lia. Qed.

(** Evaluates fields of a concatenation whose parts have known lengths. *)
Ltac fields :=
  repeat first
    [ rewrite sub_hit by (rewrite ?length_to_le, ?length_to_be; first [reflexivity | lia])
    | rewrite sub_all by (rewrite ?length_to_le, ?length_to_be; first [reflexivity | lia])
    | rewrite sub_skip by (rewrite ?length_to_le, ?length_to_be; lia);
      rewrite ?length_to_le, ?length_to_be; cbn [Nat.sub] ].
