(* ===== verification/FairnessModel.v ===== *)
(** The data model of the fair queueing scheduler of the middle-proxy reader
    ([transport/middle_proxy/fairness/model.rs]). *)

From stdpp Require Import base list gmap numbers.
From S2P Require Import Prelude.
Local Open Scope Z_scope.

Inductive PressureState : Set := PsNormal | PsPressured | PsShedding | PsSaturated.

(** The [repr(u8)] discriminant, which also is the derived order. *)
Definition pressure_as_u8 (p : PressureState) : Z :=
  match p with PsNormal => 0 | PsPressured => 1 | PsShedding => 2 | PsSaturated => 3 end.

(** [a >= b] for the derived order. *)
Definition pressure_ge (a b : PressureState) : bool := pressure_as_u8 b <=? pressure_as_u8 a.

Inductive FlowPressureClass : Set := FpcHealthy | FpcBursty | FpcBackpressured | FpcStanding.
Inductive StandingQueueState : Set := SqTransient | SqStanding.
Inductive FlowSchedulerState : Set :=
  FsIdle | FsActive | FsBackpressured | FsPenalized | FsSheddingCandidate.

#[export] Instance PressureState_eq_dec : EqDecision PressureState.
Proof. solve_decision. Defined.
#[export] Instance FlowPressureClass_eq_dec : EqDecision FlowPressureClass.
Proof. solve_decision. Defined.
#[export] Instance StandingQueueState_eq_dec : EqDecision StandingQueueState.
Proof. solve_decision. Defined.
#[export] Instance FlowSchedulerState_eq_dec : EqDecision FlowSchedulerState.
Proof. solve_decision. Defined.

Record QueuedFrame := mkQueuedFrame {
  qf_conn_id : Z;
  qf_flags : Z;
  qf_data : list Z;
  qf_enqueued_at : Instant;
}.

Definition queued_bytes (f : QueuedFrame) : Z := Z.of_nat (length (qf_data f)).

Record FlowFairnessState := mkFlowFairness {
  ff_flow_id : Z;
  ff_worker_id : Z;
  pending_bytes : Z;
  deficit_bytes : Z;
  queue_started_at : option Instant;
  last_drain_at : option Instant;
  recent_drain_bytes : Z;
  consecutive_stalls : Z;
  consecutive_skips : Z;
  penalty_score : Z;
  pressure_class : FlowPressureClass;
  standing_state : StandingQueueState;
  scheduler_state : FlowSchedulerState;
  bucket_id : nat;
  weight_quanta : Z;
  in_active_ring : bool;
}.

(** [FlowFairnessState::new]. *)
Definition flow_fairness_new (flow_id worker_id : Z) (bucket : nat) (weight : Z)
    : FlowFairnessState :=
  mkFlowFairness flow_id worker_id 0 0 None None 0 0 0 0 FpcHealthy SqTransient FsIdle
    bucket (Z.max weight 1) false.

(** Assignments to one field of [fairness]. *)
Definition set_pending_bytes (v : Z) (s : FlowFairnessState) : FlowFairnessState :=
  mkFlowFairness (s.(ff_flow_id)) (s.(ff_worker_id)) v (s.(deficit_bytes))
    (s.(queue_started_at)) (s.(last_drain_at)) (s.(recent_drain_bytes)) (s.(consecutive_stalls))
    (s.(consecutive_skips)) (s.(penalty_score)) (s.(pressure_class)) (s.(standing_state))
    (s.(scheduler_state)) (s.(bucket_id)) (s.(weight_quanta)) (s.(in_active_ring)).
Definition set_deficit_bytes (v : Z) (s : FlowFairnessState) : FlowFairnessState :=
  mkFlowFairness (s.(ff_flow_id)) (s.(ff_worker_id)) (s.(pending_bytes)) v
    (s.(queue_started_at)) (s.(last_drain_at)) (s.(recent_drain_bytes)) (s.(consecutive_stalls))
    (s.(consecutive_skips)) (s.(penalty_score)) (s.(pressure_class)) (s.(standing_state))
    (s.(scheduler_state)) (s.(bucket_id)) (s.(weight_quanta)) (s.(in_active_ring)).
Definition set_queue_started_at (v : option Instant) (s : FlowFairnessState) : FlowFairnessState :=
  mkFlowFairness (s.(ff_flow_id)) (s.(ff_worker_id)) (s.(pending_bytes)) (s.(deficit_bytes)) v
    (s.(last_drain_at)) (s.(recent_drain_bytes)) (s.(consecutive_stalls))
    (s.(consecutive_skips)) (s.(penalty_score)) (s.(pressure_class)) (s.(standing_state))
    (s.(scheduler_state)) (s.(bucket_id)) (s.(weight_quanta)) (s.(in_active_ring)).
Definition set_last_drain_at (v : option Instant) (s : FlowFairnessState) : FlowFairnessState :=
  mkFlowFairness (s.(ff_flow_id)) (s.(ff_worker_id)) (s.(pending_bytes)) (s.(deficit_bytes))
    (s.(queue_started_at)) v (s.(recent_drain_bytes)) (s.(consecutive_stalls))
    (s.(consecutive_skips)) (s.(penalty_score)) (s.(pressure_class)) (s.(standing_state))
    (s.(scheduler_state)) (s.(bucket_id)) (s.(weight_quanta)) (s.(in_active_ring)).
Definition set_recent_drain_bytes (v : Z) (s : FlowFairnessState) : FlowFairnessState :=
  mkFlowFairness (s.(ff_flow_id)) (s.(ff_worker_id)) (s.(pending_bytes)) (s.(deficit_bytes))
    (s.(queue_started_at)) (s.(last_drain_at)) v (s.(consecutive_stalls))
    (s.(consecutive_skips)) (s.(penalty_score)) (s.(pressure_class)) (s.(standing_state))
    (s.(scheduler_state)) (s.(bucket_id)) (s.(weight_quanta)) (s.(in_active_ring)).
Definition set_consecutive_stalls (v : Z) (s : FlowFairnessState) : FlowFairnessState :=
  mkFlowFairness (s.(ff_flow_id)) (s.(ff_worker_id)) (s.(pending_bytes)) (s.(deficit_bytes))
    (s.(queue_started_at)) (s.(last_drain_at)) (s.(recent_drain_bytes)) v
    (s.(consecutive_skips)) (s.(penalty_score)) (s.(pressure_class)) (s.(standing_state))
    (s.(scheduler_state)) (s.(bucket_id)) (s.(weight_quanta)) (s.(in_active_ring)).
Definition set_consecutive_skips (v : Z) (s : FlowFairnessState) : FlowFairnessState :=
  mkFlowFairness (s.(ff_flow_id)) (s.(ff_worker_id)) (s.(pending_bytes)) (s.(deficit_bytes))
    (s.(queue_started_at)) (s.(last_drain_at)) (s.(recent_drain_bytes)) (s.(consecutive_stalls))
    v (s.(penalty_score)) (s.(pressure_class)) (s.(standing_state)) (s.(scheduler_state))
    (s.(bucket_id)) (s.(weight_quanta)) (s.(in_active_ring)).
Definition set_penalty_score (v : Z) (s : FlowFairnessState) : FlowFairnessState :=
  mkFlowFairness (s.(ff_flow_id)) (s.(ff_worker_id)) (s.(pending_bytes)) (s.(deficit_bytes))
    (s.(queue_started_at)) (s.(last_drain_at)) (s.(recent_drain_bytes)) (s.(consecutive_stalls))
    (s.(consecutive_skips)) v (s.(pressure_class)) (s.(standing_state)) (s.(scheduler_state))
    (s.(bucket_id)) (s.(weight_quanta)) (s.(in_active_ring)).
Definition set_pressure_class (v : FlowPressureClass) (s : FlowFairnessState) : FlowFairnessState :=
  mkFlowFairness (s.(ff_flow_id)) (s.(ff_worker_id)) (s.(pending_bytes)) (s.(deficit_bytes))
    (s.(queue_started_at)) (s.(last_drain_at)) (s.(recent_drain_bytes)) (s.(consecutive_stalls))
    (s.(consecutive_skips)) (s.(penalty_score)) v (s.(standing_state)) (s.(scheduler_state))
    (s.(bucket_id)) (s.(weight_quanta)) (s.(in_active_ring)).
Definition set_standing_state (v : StandingQueueState) (s : FlowFairnessState) : FlowFairnessState :=
  mkFlowFairness (s.(ff_flow_id)) (s.(ff_worker_id)) (s.(pending_bytes)) (s.(deficit_bytes))
    (s.(queue_started_at)) (s.(last_drain_at)) (s.(recent_drain_bytes)) (s.(consecutive_stalls))
    (s.(consecutive_skips)) (s.(penalty_score)) (s.(pressure_class)) v (s.(scheduler_state))
    (s.(bucket_id)) (s.(weight_quanta)) (s.(in_active_ring)).
Definition set_scheduler_state (v : FlowSchedulerState) (s : FlowFairnessState) : FlowFairnessState :=
  mkFlowFairness (s.(ff_flow_id)) (s.(ff_worker_id)) (s.(pending_bytes)) (s.(deficit_bytes))
    (s.(queue_started_at)) (s.(last_drain_at)) (s.(recent_drain_bytes)) (s.(consecutive_stalls))
    (s.(consecutive_skips)) (s.(penalty_score)) (s.(pressure_class)) (s.(standing_state)) v
    (s.(bucket_id)) (s.(weight_quanta)) (s.(in_active_ring)).
Definition set_weight_quanta (v : Z) (s : FlowFairnessState) : FlowFairnessState :=
  mkFlowFairness (s.(ff_flow_id)) (s.(ff_worker_id)) (s.(pending_bytes)) (s.(deficit_bytes))
    (s.(queue_started_at)) (s.(last_drain_at)) (s.(recent_drain_bytes)) (s.(consecutive_stalls))
    (s.(consecutive_skips)) (s.(penalty_score)) (s.(pressure_class)) (s.(standing_state))
    (s.(scheduler_state)) (s.(bucket_id)) v (s.(in_active_ring)).
Definition set_in_active_ring (v : bool) (s : FlowFairnessState) : FlowFairnessState :=
  mkFlowFairness (s.(ff_flow_id)) (s.(ff_worker_id)) (s.(pending_bytes)) (s.(deficit_bytes))
    (s.(queue_started_at)) (s.(last_drain_at)) (s.(recent_drain_bytes)) (s.(consecutive_stalls))
    (s.(consecutive_skips)) (s.(penalty_score)) (s.(pressure_class)) (s.(standing_state))
    (s.(scheduler_state)) (s.(bucket_id)) (s.(weight_quanta)) v.

Inductive AdmissionDecision : Set :=
  Admit | RejectWorkerCap | RejectFlowCap | RejectBucketCap | RejectSaturated | RejectStandingFlow.
#[export] Instance AdmissionDecision_eq_dec : EqDecision AdmissionDecision.
Proof. solve_decision. Defined.

Record DispatchCandidate := mkCandidate {
  dc_frame : QueuedFrame;
  dc_pressure_state : PressureState;
  dc_flow_class : FlowPressureClass;
}.

Inductive SchedulerDecision : Type := SdIdle | SdDispatch (c : DispatchCandidate).
Inductive DispatchFeedback : Set := FbRouted | FbQueueFull | FbChannelClosed | FbNoConn.
Inductive DispatchAction : Set := ActContinue | ActCloseFlow.
#[export] Instance DispatchAction_eq_dec : EqDecision DispatchAction.
Proof. solve_decision. Defined.

Lemma pressure_as_u8_inj a b : pressure_as_u8 a = pressure_as_u8 b -> a = b.
Proof. by destruct a, b. Qed.

Lemma queued_bytes_nonneg f : 0 <= queued_bytes f.
Proof. unfold queued_bytes. lia. Qed.

(** The bytes of a queue of frames. *)
Fixpoint frames_bytes (q : list QueuedFrame) : Z :=
  match q with
  | [] => 0
  | f :: q => queued_bytes f + frames_bytes q
  end.

Lemma frames_bytes_app q1 q2 : frames_bytes (q1 ++ q2) = frames_bytes q1 + frames_bytes q2.
Proof. induction q1; simpl; lia. Qed.

Lemma frames_bytes_nonneg q : 0 <= frames_bytes q.
Proof. induction q as [|f q IH]; simpl; [lia|]. pose proof (queued_bytes_nonneg f). lia. Qed.

#[export] Hint Resolve queued_bytes_nonneg frames_bytes_nonneg : machine.
