(* ===== verification/FairnessPressure.v ===== *)
(** The pressure evaluator of the fair scheduler
    ([transport/middle_proxy/fairness/pressure.rs]): a windowed count of
    rejects and stalls plus queue and flow ratios give a target state, and the
    published state follows the target with hysteresis. *)

From stdpp Require Import base list gmap numbers.
From S2P Require Import Prelude FairnessModel.
Local Open Scope Z_scope.

Record PressureSignals := mkSignals {
  sig_active_flows : Z;
  sig_total_queued_bytes : Z;
  sig_standing_flows : Z;
  sig_backpressured_flows : Z;
}.

Record PressureConfig := mkPressureConfig {
  pc_backpressure_enabled : bool;
  evaluate_every_rounds : Z;
  transition_hysteresis_rounds : Z;
  standing_ratio_pressured_pct : Z;
  standing_ratio_shedding_pct : Z;
  standing_ratio_saturated_pct : Z;
  queue_ratio_pressured_pct : Z;
  queue_ratio_shedding_pct : Z;
  queue_ratio_saturated_pct : Z;
  reject_window : Duration;
  rejects_pressured : Z;
  rejects_shedding : Z;
  rejects_saturated : Z;
  stalls_pressured : Z;
  stalls_shedding : Z;
  stalls_saturated : Z;
}.

(** [PressureConfig::default]. *)
Definition pressure_config_default : PressureConfig :=
  mkPressureConfig true 8 3 20 35 50 65 82 94 (from_secs 2) 32 96 256 32 96 256.

Definition set_pc_backpressure_enabled (v : bool) (c : PressureConfig) : PressureConfig :=
  mkPressureConfig v c.(evaluate_every_rounds) c.(transition_hysteresis_rounds)
    c.(standing_ratio_pressured_pct) c.(standing_ratio_shedding_pct)
    c.(standing_ratio_saturated_pct) c.(queue_ratio_pressured_pct) c.(queue_ratio_shedding_pct)
    c.(queue_ratio_saturated_pct) c.(reject_window) c.(rejects_pressured) c.(rejects_shedding)
    c.(rejects_saturated) c.(stalls_pressured) c.(stalls_shedding) c.(stalls_saturated).

Record PressureEvaluator := mkEvaluator {
  pe_state : PressureState;
  candidate_state : PressureState;
  candidate_hits : Z;
  rounds_since_eval : Z;
  window_started_at : Instant;
  admission_rejects_window : Z;
  route_stalls_window : Z;
}.

(** [PressureEvaluator::new]. *)
Definition evaluator_new (now : Instant) : PressureEvaluator :=
  mkEvaluator PsNormal PsNormal 0 0 now 0 0.

Definition rotate_window_if_needed (now : Instant) (cfg : PressureConfig) (pe : PressureEvaluator)
    : PressureEvaluator :=
  if saturating_duration_since now pe.(window_started_at) <? cfg.(reject_window) then pe
  else mkEvaluator pe.(pe_state) pe.(candidate_state) pe.(candidate_hits)
         pe.(rounds_since_eval) now 0 0.

Definition note_admission_reject (now : Instant) (cfg : PressureConfig) (pe : PressureEvaluator)
    : PressureEvaluator :=
  let pe := rotate_window_if_needed now cfg pe in
  mkEvaluator pe.(pe_state) pe.(candidate_state) pe.(candidate_hits) pe.(rounds_since_eval)
    pe.(window_started_at) (sat_add 32 pe.(admission_rejects_window) 1) pe.(route_stalls_window).

Definition note_route_stall (now : Instant) (cfg : PressureConfig) (pe : PressureEvaluator)
    : PressureEvaluator :=
  let pe := rotate_window_if_needed now cfg pe in
  mkEvaluator pe.(pe_state) pe.(candidate_state) pe.(candidate_hits) pe.(rounds_since_eval)
    pe.(window_started_at) pe.(admission_rejects_window) (sat_add 32 pe.(route_stalls_window) 1).

(** [if x >= threshold { score = score.max(level) }]. *)
Definition bump (x threshold level score : Z) : Z :=
  if threshold <=? x then Z.max score level else score.

Definition queue_ratio_pct (max_total total : Z) : Z :=
  if max_total =? 0 then 100 else Z.min (sat_mul 64 total 100 / max_total) 100.

Definition standing_ratio_pct (active standing : Z) : Z :=
  if active =? 0 then 0 else Z.min (sat_mul 64 standing 100 / active) 100.

(** The score accumulated by [derive_target_state] before the final [match]. *)
Definition pressure_score (cfg : PressureConfig) (max_total : Z) (sg : PressureSignals)
    (pe : PressureEvaluator) : Z :=
  let q := queue_ratio_pct max_total sg.(sig_total_queued_bytes) in
  let st := standing_ratio_pct sg.(sig_active_flows) sg.(sig_standing_flows) in
  let score := 0 in
  let score := bump q cfg.(queue_ratio_pressured_pct) 1 score in
  let score := bump q cfg.(queue_ratio_shedding_pct) 2 score in
  let score := bump q cfg.(queue_ratio_saturated_pct) 3 score in
  let score := bump st cfg.(standing_ratio_pressured_pct) 1 score in
  let score := bump st cfg.(standing_ratio_shedding_pct) 2 score in
  let score := bump st cfg.(standing_ratio_saturated_pct) 3 score in
  let score := bump pe.(admission_rejects_window) cfg.(rejects_pressured) 1 score in
  let score := bump pe.(admission_rejects_window) cfg.(rejects_shedding) 2 score in
  let score := bump pe.(admission_rejects_window) cfg.(rejects_saturated) 3 score in
  let score := bump pe.(route_stalls_window) cfg.(stalls_pressured) 1 score in
  let score := bump pe.(route_stalls_window) cfg.(stalls_shedding) 2 score in
  let score := bump pe.(route_stalls_window) cfg.(stalls_saturated) 3 score in
  if (sg.(sig_active_flows) / 2 <? sg.(sig_backpressured_flows)) && (0 <? sg.(sig_active_flows))
  then Z.max score 2 else score.

Definition state_of_score (score : Z) : PressureState :=
  if score =? 0 then PsNormal
  else if score =? 1 then PsPressured
  else if score =? 2 then PsShedding
  else PsSaturated.

Definition derive_target_state (cfg : PressureConfig) (max_total : Z) (sg : PressureSignals)
    (pe : PressureEvaluator) : PressureState :=
  if negb cfg.(pc_backpressure_enabled) then PsNormal
  else state_of_score (pressure_score cfg max_total sg pe).

(** The part of [maybe_evaluate] after the target has been derived. *)
Definition follow_target (cfg : PressureConfig) (target : PressureState) (pe : PressureEvaluator)
    : PressureEvaluator :=
  if bool_decide (target = pe.(pe_state)) then
    mkEvaluator pe.(pe_state) target 0 pe.(rounds_since_eval) pe.(window_started_at)
      pe.(admission_rejects_window) pe.(route_stalls_window)
  else
    let hits := if bool_decide (pe.(candidate_state) = target)
                then sat_add 8 pe.(candidate_hits) 1 else 1 in
    if Z.max cfg.(transition_hysteresis_rounds) 1 <=? hits then
      mkEvaluator target target 0 pe.(rounds_since_eval) pe.(window_started_at)
        pe.(admission_rejects_window) pe.(route_stalls_window)
    else
      mkEvaluator pe.(pe_state) target hits pe.(rounds_since_eval) pe.(window_started_at)
        pe.(admission_rejects_window) pe.(route_stalls_window).

Definition maybe_evaluate (now : Instant) (cfg : PressureConfig) (max_total : Z)
    (sg : PressureSignals) (force : bool) (pe : PressureEvaluator) : PressureEvaluator :=
  let pe := rotate_window_if_needed now cfg pe in
  if negb cfg.(pc_backpressure_enabled) then
    mkEvaluator PsNormal PsNormal 0 0 pe.(window_started_at)
      pe.(admission_rejects_window) pe.(route_stalls_window)
  else
    let rounds := sat_add 32 pe.(rounds_since_eval) 1 in
    if negb force && (rounds <? Z.max cfg.(evaluate_every_rounds) 1) then
      mkEvaluator pe.(pe_state) pe.(candidate_state) pe.(candidate_hits) rounds
        pe.(window_started_at) pe.(admission_rejects_window) pe.(route_stalls_window)
    else
      let pe := mkEvaluator pe.(pe_state) pe.(candidate_state) pe.(candidate_hits) 0
                  pe.(window_started_at) pe.(admission_rejects_window)
                  pe.(route_stalls_window) in
      follow_target cfg (derive_target_state cfg max_total sg pe) pe.

(** * Runs of the evaluator *)

Inductive PressureOp :=
  | OpReject (now : Instant)
  | OpStall (now : Instant)
  | OpEvaluate (now : Instant) (max_total : Z) (sg : PressureSignals) (force : bool).

(** The target an evaluation derives; [None] when the round is not due. *)
Definition evaluation_target (now : Instant) (cfg : PressureConfig) (max_total : Z)
    (sg : PressureSignals) (force : bool) (pe : PressureEvaluator) : option PressureState :=
  let pe := rotate_window_if_needed now cfg pe in
  let rounds := sat_add 32 pe.(rounds_since_eval) 1 in
  if negb force && (rounds <? Z.max cfg.(evaluate_every_rounds) 1) then None
  else Some (derive_target_state cfg max_total sg pe).

(** The evaluator after an operation, and the targets derived so far, the
    newest first. *)
Definition pressure_step (cfg : PressureConfig) (op : PressureOp)
    (st : PressureEvaluator * list PressureState) : PressureEvaluator * list PressureState :=
  let '(pe, targets) := st in
  match op with
  | OpReject now => (note_admission_reject now cfg pe, targets)
  | OpStall now => (note_route_stall now cfg pe, targets)
  | OpEvaluate now mt sg force =>
      (maybe_evaluate now cfg mt sg force pe,
       match evaluation_target now cfg mt sg force pe with
       | Some t => t :: targets
       | None => targets
       end)
  end.

Definition pressure_run (cfg : PressureConfig) (ops : list PressureOp) (now : Instant)
    : PressureEvaluator * list PressureState :=
  foldl (fun st op => pressure_step cfg op st) (evaluator_new now, []) ops.

(** [transition_hysteresis_rounds.max(1)]. *)
Definition hysteresis (cfg : PressureConfig) : nat :=
  Z.to_nat (Z.max cfg.(transition_hysteresis_rounds) 1).

(** The hits counted for the candidate are its latest consecutive targets. *)
Definition hits_counted (st : PressureEvaluator * list PressureState) : Prop :=
  let '(pe, targets) := st in
  0 <= pe.(candidate_hits) /\
  exists older, targets = replicate (Z.to_nat pe.(candidate_hits)) pe.(candidate_state) ++ older.

(** Only a due evaluation touches the published state and the candidate. *)
Lemma maybe_evaluate_follow now cfg mt sg force pe :
  cfg.(pc_backpressure_enabled) = true ->
  let pe' := maybe_evaluate now cfg mt sg force pe in
  match evaluation_target now cfg mt sg force pe with
  | None => pe'.(pe_state) = pe.(pe_state) /\ pe'.(candidate_state) = pe.(candidate_state) /\
            pe'.(candidate_hits) = pe.(candidate_hits)
  | Some t =>
      let pf := follow_target cfg t pe in
      pe'.(pe_state) = pf.(pe_state) /\ pe'.(candidate_state) = pf.(candidate_state) /\
      pe'.(candidate_hits) = pf.(candidate_hits)
  end.
Proof.
  intros He. unfold maybe_evaluate, evaluation_target. rewrite He. cbn [negb]. cbv zeta.
  set (pe1 := rotate_window_if_needed now cfg pe).
  assert (H1 : pe_state pe1 = pe_state pe /\ candidate_state pe1 = candidate_state pe /\
               candidate_hits pe1 = candidate_hits pe)
    by (unfold pe1, rotate_window_if_needed; by case_match).
  destruct H1 as (Hs & Hc & Hh). destruct (negb force && _); cbn; [done|].
  unfold follow_target. cbn. rewrite Hs, Hc, Hh.
  change (derive_target_state cfg mt sg (mkEvaluator (pe_state pe) (candidate_state pe)
    (candidate_hits pe) 0 (window_started_at pe1) (admission_rejects_window pe1)
    (route_stalls_window pe1))) with (derive_target_state cfg mt sg pe1).
  case_bool_decide; [done|]. by destruct (_ <=? _).
Qed.

(** What one target does to the counted hits and to the published state. *)
Lemma follow_target_hits cfg t pe targets :
  0 <= cfg.(transition_hysteresis_rounds) <= umax 8 -> hits_counted (pe, targets) ->
  let pe' := follow_target cfg t pe in
  hits_counted (pe', t :: targets) /\
  (pe'.(pe_state) <> pe.(pe_state) ->
   pe'.(pe_state) = t /\ take (hysteresis cfg) (t :: targets) = replicate (hysteresis cfg) t).
Proof.
  intros Hcfg [H0 [older Hold]]. unfold follow_target, hysteresis in *.
  case_bool_decide as Ht; [split; [|done]; cbn; split; [lia | by exists (t :: targets)]|].
  set (hits := if bool_decide _ then _ else _).
  assert (Hhits : exists k older', hits <= Z.of_nat (S k) /\ 1 <= hits /\
    t :: targets = replicate (S k) t ++ older').
  { unfold hits. case_bool_decide as Hc.
    - exists (Z.to_nat (candidate_hits pe)), older. unfold sat_add, umax.
      split; [lia|]. split; [lia|]. by rewrite Hold, Hc.
    - exists 0%nat, targets. done. }
  destruct Hhits as (k & older' & Hk & H1 & Heq).
  destruct (Z.leb_spec (Z.max (transition_hysteresis_rounds cfg) 1) hits); cbn.
  - split; [split; [lia | by exists (t :: targets)]|]. intros _. split; [done|].
    rewrite Heq, take_app_le by (rewrite length_replicate; lia).
    rewrite take_replicate, Nat.min_l by lia. done.
  - split; [|done]. split; [lia|]. rewrite Heq.
    exists (replicate (S k - Z.to_nat hits) t ++ older').
    rewrite app_assoc, <- replicate_add. do 2 f_equal. lia.
Qed.

Lemma pressure_step_hits cfg op st :
  cfg.(pc_backpressure_enabled) = true -> 0 <= cfg.(transition_hysteresis_rounds) <= umax 8 ->
  hits_counted st ->
  let st' := pressure_step cfg op st in
  hits_counted st' /\
  (st'.1.(pe_state) <> st.1.(pe_state) ->
   take (hysteresis cfg) st'.2 = replicate (hysteresis cfg) st'.1.(pe_state)).
Proof.
  intros He Hcfg Hh. destruct st as [pe targets], op as [now|now|now mt sg force]; cbn [pressure_step].
  - unfold note_admission_reject, rotate_window_if_needed. by destruct (_ <? _).
  - unfold note_route_stall, rotate_window_if_needed. by destruct (_ <? _).
  - pose proof (maybe_evaluate_follow now cfg mt sg force pe He) as Hf.
    destruct (evaluation_target now cfg mt sg force pe) as [t|]; destruct Hf as (Hs & Hc & Hhits).
    + destruct (follow_target_hits cfg t pe targets Hcfg Hh) as [Hh' Hch].
      unfold hits_counted in *. cbn. rewrite Hs, Hc, Hhits. split; [done|].
      intros Hne. destruct (Hch Hne) as [-> ?]. done.
    + unfold hits_counted in *. cbn. by rewrite Hs, Hc, Hhits.
Qed.

Lemma pressure_run_hits cfg ops now :
  cfg.(pc_backpressure_enabled) = true -> 0 <= cfg.(transition_hysteresis_rounds) <= umax 8 ->
  hits_counted (pressure_run cfg ops now).
Proof.
  intros He Hcfg. unfold pressure_run. induction ops as [|op ops IH] using rev_ind.
  - split; [done|]. by exists [].
  - rewrite foldl_snoc. by apply pressure_step_hits.
Qed.

(** * Monotonicity of the target *)

Lemma bump_mono x x' threshold level score score' :
  x <= x' -> score <= score' -> bump x threshold level score <= bump x' threshold level score'.
Proof.
  intros. unfold bump.
  destruct (Z.leb_spec threshold x), (Z.leb_spec threshold x'); lia.
Qed.

Lemma sat_mul_mono w a b c : 0 <= c -> a <= b -> sat_mul w a c <= sat_mul w b c.
Proof. intros. unfold sat_mul. nia. Qed.

Lemma ratio_mono d a b : 0 < d -> a <= b -> Z.min (sat_mul 64 a 100 / d) 100 <= Z.min (sat_mul 64 b 100 / d) 100.
Proof.
  intros Hd Hab. pose proof (sat_mul_mono 64 a b 100 ltac:(lia) Hab).
  pose proof (Z.div_le_mono (sat_mul 64 a 100) (sat_mul 64 b 100) d Hd ltac:(done)). lia.
Qed.

Lemma pressure_score_mono cfg mt active q q' st st' bp bp' pe pe' :
  0 <= mt -> 0 <= active -> q <= q' -> st <= st' -> bp <= bp' ->
  pe.(admission_rejects_window) <= pe'.(admission_rejects_window) ->
  pe.(route_stalls_window) <= pe'.(route_stalls_window) ->
  pressure_score cfg mt (mkSignals active q st bp) pe <=
  pressure_score cfg mt (mkSignals active q' st' bp') pe'.
Proof.
  intros Hmt Hac Hq Hst Hbp Hr Hs. unfold pressure_score. cbn.
  assert (Hqr : queue_ratio_pct mt q <= queue_ratio_pct mt q').
  { unfold queue_ratio_pct. destruct (Z.eqb_spec mt 0); [lia|]. apply ratio_mono; lia. }
  assert (Hsr : standing_ratio_pct active st <= standing_ratio_pct active st').
  { unfold standing_ratio_pct. destruct (Z.eqb_spec active 0); [lia|]. apply ratio_mono; lia. }
  match goal with |- (if ?b then Z.max ?x 2 else _) <= (if ?c then Z.max ?y 2 else _) =>
    assert (Hxy : x <= y) by (repeat apply bump_mono; lia) end.
  destruct (Z.ltb_spec (active / 2) bp), (Z.ltb_spec (active / 2) bp'); try lia;
    destruct (0 <? active); cbn [andb]; lia.
Qed.

Lemma state_of_score_mono a b :
  0 <= a <= b -> b <= 3 -> pressure_as_u8 (state_of_score a) <= pressure_as_u8 (state_of_score b).
Proof.
  intros Ha Hb. unfold state_of_score.
  destruct (Z.eqb_spec a 0), (Z.eqb_spec a 1), (Z.eqb_spec a 2), (Z.eqb_spec b 0), (Z.eqb_spec b 1),
    (Z.eqb_spec b 2); subst; cbn; lia.
Qed.

Lemma pressure_score_range cfg mt sg pe : 0 <= pressure_score cfg mt sg pe <= 3.
Proof.
  assert (Hb : forall x t l s, 0 <= s <= 3 -> 0 <= l <= 3 -> 0 <= bump x t l s <= 3)
    by (intros; unfold bump; case_match; lia).
  unfold pressure_score. cbv zeta.
  match goal with |- _ <= (if _ then Z.max ?x 2 else _) <= _ => assert (Hx : 0 <= x <= 3) end.
  { repeat (apply Hb; [|lia]). lia. }
  case_match; lia.
Qed.
