(* ===== verification/FairnessScheduler.v ===== *)
(** The deficit-round-robin scheduler of the middle-proxy reader
    ([transport/middle_proxy/fairness/scheduler.rs]) and the way the reader
    loop drives it ([transport/middle_proxy/reader.rs]).  The state is the
    struct of the source; every operation is a function from state to state. *)

From stdpp Require Import base list gmap numbers.
From S2P Require Import Prelude FairnessModel FairnessPressure.
Local Open Scope Z_scope.

(** [RPC_FLAG_QUICKACK] of [protocol/constants.rs]. *)
Definition RPC_FLAG_QUICKACK : Z := 0x80000000.

Record WorkerFairnessConfig := mkFairnessConfig {
  worker_id : Z;
  backpressure_enabled : bool;
  max_active_flows : Z;
  max_total_queued_bytes : Z;
  max_flow_queued_bytes : Z;
  base_quantum_bytes : Z;
  pressured_quantum_bytes : Z;
  penalized_quantum_bytes : Z;
  standing_queue_min_age : Duration;
  standing_queue_min_backlog_bytes : Z;
  standing_stall_threshold : Z;
  max_consecutive_stalls_before_shed : Z;
  max_consecutive_stalls_before_close : Z;
  soft_bucket_count : nat;
  soft_bucket_share_pct : Z;
  default_flow_weight : Z;
  quickack_flow_weight : Z;
  cfg_pressure : PressureConfig;
}.

(** [WorkerFairnessConfig::default]. *)
Definition fairness_config_default : WorkerFairnessConfig :=
  mkFairnessConfig 0 true 4096 (16 * 1024 * 1024) (512 * 1024) (32 * 1024) (16 * 1024) (8 * 1024)
    (from_millis 250) (64 * 1024) 3 4 16 64 25 1 4 pressure_config_default.

Record FlowEntry := mkFlowEntry {
  fairness : FlowFairnessState;
  queue : list QueuedFrame;
}.

(** [FlowEntry::new]. *)
Definition flow_entry_new (flow_id worker : Z) (bucket : nat) (weight : Z) : FlowEntry :=
  mkFlowEntry (flow_fairness_new flow_id worker bucket weight) [].

Record WorkerFairnessState := mkWorker {
  config : WorkerFairnessConfig;
  pressure : PressureEvaluator;
  flows : gmap Z FlowEntry;
  active_ring : list Z;
  active_ring_members : gset Z;
  total_queued_bytes : Z;
  bucket_queued_bytes : list Z;
  bucket_active_flows : list Z;
  standing_flow_count : Z;
  backpressured_flow_count : Z;
  scheduler_rounds : Z;
  deficit_grants : Z;
  deficit_skips : Z;
  enqueue_rejects : Z;
  shed_drops : Z;
  fairness_penalties : Z;
  downstream_stalls : Z;
}.

(** Assignments to one field of [self]. *)
Definition with_config (v : WorkerFairnessConfig) (s : WorkerFairnessState) : WorkerFairnessState :=
  mkWorker v (s.(pressure)) (s.(flows)) (s.(active_ring)) (s.(active_ring_members))
    (s.(total_queued_bytes)) (s.(bucket_queued_bytes)) (s.(bucket_active_flows))
    (s.(standing_flow_count)) (s.(backpressured_flow_count)) (s.(scheduler_rounds))
    (s.(deficit_grants)) (s.(deficit_skips)) (s.(enqueue_rejects)) (s.(shed_drops))
    (s.(fairness_penalties)) (s.(downstream_stalls)).
Definition with_pressure (v : PressureEvaluator) (s : WorkerFairnessState) : WorkerFairnessState :=
  mkWorker (s.(config)) v (s.(flows)) (s.(active_ring)) (s.(active_ring_members))
    (s.(total_queued_bytes)) (s.(bucket_queued_bytes)) (s.(bucket_active_flows))
    (s.(standing_flow_count)) (s.(backpressured_flow_count)) (s.(scheduler_rounds))
    (s.(deficit_grants)) (s.(deficit_skips)) (s.(enqueue_rejects)) (s.(shed_drops))
    (s.(fairness_penalties)) (s.(downstream_stalls)).
Definition with_flows (v : gmap Z FlowEntry) (s : WorkerFairnessState) : WorkerFairnessState :=
  mkWorker (s.(config)) (s.(pressure)) v (s.(active_ring)) (s.(active_ring_members))
    (s.(total_queued_bytes)) (s.(bucket_queued_bytes)) (s.(bucket_active_flows))
    (s.(standing_flow_count)) (s.(backpressured_flow_count)) (s.(scheduler_rounds))
    (s.(deficit_grants)) (s.(deficit_skips)) (s.(enqueue_rejects)) (s.(shed_drops))
    (s.(fairness_penalties)) (s.(downstream_stalls)).
Definition with_active_ring (v : list Z) (s : WorkerFairnessState) : WorkerFairnessState :=
  mkWorker (s.(config)) (s.(pressure)) (s.(flows)) v (s.(active_ring_members))
    (s.(total_queued_bytes)) (s.(bucket_queued_bytes)) (s.(bucket_active_flows))
    (s.(standing_flow_count)) (s.(backpressured_flow_count)) (s.(scheduler_rounds))
    (s.(deficit_grants)) (s.(deficit_skips)) (s.(enqueue_rejects)) (s.(shed_drops))
    (s.(fairness_penalties)) (s.(downstream_stalls)).
Definition with_active_ring_members (v : gset Z) (s : WorkerFairnessState) : WorkerFairnessState :=
  mkWorker (s.(config)) (s.(pressure)) (s.(flows)) (s.(active_ring)) v (s.(total_queued_bytes))
    (s.(bucket_queued_bytes)) (s.(bucket_active_flows)) (s.(standing_flow_count))
    (s.(backpressured_flow_count)) (s.(scheduler_rounds)) (s.(deficit_grants))
    (s.(deficit_skips)) (s.(enqueue_rejects)) (s.(shed_drops)) (s.(fairness_penalties))
    (s.(downstream_stalls)).
Definition with_total_queued_bytes (v : Z) (s : WorkerFairnessState) : WorkerFairnessState :=
  mkWorker (s.(config)) (s.(pressure)) (s.(flows)) (s.(active_ring)) (s.(active_ring_members)) v
    (s.(bucket_queued_bytes)) (s.(bucket_active_flows)) (s.(standing_flow_count))
    (s.(backpressured_flow_count)) (s.(scheduler_rounds)) (s.(deficit_grants))
    (s.(deficit_skips)) (s.(enqueue_rejects)) (s.(shed_drops)) (s.(fairness_penalties))
    (s.(downstream_stalls)).
Definition with_bucket_queued_bytes (v : list Z) (s : WorkerFairnessState) : WorkerFairnessState :=
  mkWorker (s.(config)) (s.(pressure)) (s.(flows)) (s.(active_ring)) (s.(active_ring_members))
    (s.(total_queued_bytes)) v (s.(bucket_active_flows)) (s.(standing_flow_count))
    (s.(backpressured_flow_count)) (s.(scheduler_rounds)) (s.(deficit_grants))
    (s.(deficit_skips)) (s.(enqueue_rejects)) (s.(shed_drops)) (s.(fairness_penalties))
    (s.(downstream_stalls)).
Definition with_bucket_active_flows (v : list Z) (s : WorkerFairnessState) : WorkerFairnessState :=
  mkWorker (s.(config)) (s.(pressure)) (s.(flows)) (s.(active_ring)) (s.(active_ring_members))
    (s.(total_queued_bytes)) (s.(bucket_queued_bytes)) v (s.(standing_flow_count))
    (s.(backpressured_flow_count)) (s.(scheduler_rounds)) (s.(deficit_grants))
    (s.(deficit_skips)) (s.(enqueue_rejects)) (s.(shed_drops)) (s.(fairness_penalties))
    (s.(downstream_stalls)).
Definition with_standing_flow_count (v : Z) (s : WorkerFairnessState) : WorkerFairnessState :=
  mkWorker (s.(config)) (s.(pressure)) (s.(flows)) (s.(active_ring)) (s.(active_ring_members))
    (s.(total_queued_bytes)) (s.(bucket_queued_bytes)) (s.(bucket_active_flows)) v
    (s.(backpressured_flow_count)) (s.(scheduler_rounds)) (s.(deficit_grants))
    (s.(deficit_skips)) (s.(enqueue_rejects)) (s.(shed_drops)) (s.(fairness_penalties))
    (s.(downstream_stalls)).
Definition with_backpressured_flow_count (v : Z) (s : WorkerFairnessState) : WorkerFairnessState :=
  mkWorker (s.(config)) (s.(pressure)) (s.(flows)) (s.(active_ring)) (s.(active_ring_members))
    (s.(total_queued_bytes)) (s.(bucket_queued_bytes)) (s.(bucket_active_flows))
    (s.(standing_flow_count)) v (s.(scheduler_rounds)) (s.(deficit_grants)) (s.(deficit_skips))
    (s.(enqueue_rejects)) (s.(shed_drops)) (s.(fairness_penalties)) (s.(downstream_stalls)).
Definition with_scheduler_rounds (v : Z) (s : WorkerFairnessState) : WorkerFairnessState :=
  mkWorker (s.(config)) (s.(pressure)) (s.(flows)) (s.(active_ring)) (s.(active_ring_members))
    (s.(total_queued_bytes)) (s.(bucket_queued_bytes)) (s.(bucket_active_flows))
    (s.(standing_flow_count)) (s.(backpressured_flow_count)) v (s.(deficit_grants))
    (s.(deficit_skips)) (s.(enqueue_rejects)) (s.(shed_drops)) (s.(fairness_penalties))
    (s.(downstream_stalls)).
Definition with_deficit_grants (v : Z) (s : WorkerFairnessState) : WorkerFairnessState :=
  mkWorker (s.(config)) (s.(pressure)) (s.(flows)) (s.(active_ring)) (s.(active_ring_members))
    (s.(total_queued_bytes)) (s.(bucket_queued_bytes)) (s.(bucket_active_flows))
    (s.(standing_flow_count)) (s.(backpressured_flow_count)) (s.(scheduler_rounds)) v
    (s.(deficit_skips)) (s.(enqueue_rejects)) (s.(shed_drops)) (s.(fairness_penalties))
    (s.(downstream_stalls)).
Definition with_deficit_skips (v : Z) (s : WorkerFairnessState) : WorkerFairnessState :=
  mkWorker (s.(config)) (s.(pressure)) (s.(flows)) (s.(active_ring)) (s.(active_ring_members))
    (s.(total_queued_bytes)) (s.(bucket_queued_bytes)) (s.(bucket_active_flows))
    (s.(standing_flow_count)) (s.(backpressured_flow_count)) (s.(scheduler_rounds))
    (s.(deficit_grants)) v (s.(enqueue_rejects)) (s.(shed_drops)) (s.(fairness_penalties))
    (s.(downstream_stalls)).
Definition with_enqueue_rejects (v : Z) (s : WorkerFairnessState) : WorkerFairnessState :=
  mkWorker (s.(config)) (s.(pressure)) (s.(flows)) (s.(active_ring)) (s.(active_ring_members))
    (s.(total_queued_bytes)) (s.(bucket_queued_bytes)) (s.(bucket_active_flows))
    (s.(standing_flow_count)) (s.(backpressured_flow_count)) (s.(scheduler_rounds))
    (s.(deficit_grants)) (s.(deficit_skips)) v (s.(shed_drops)) (s.(fairness_penalties))
    (s.(downstream_stalls)).
Definition with_shed_drops (v : Z) (s : WorkerFairnessState) : WorkerFairnessState :=
  mkWorker (s.(config)) (s.(pressure)) (s.(flows)) (s.(active_ring)) (s.(active_ring_members))
    (s.(total_queued_bytes)) (s.(bucket_queued_bytes)) (s.(bucket_active_flows))
    (s.(standing_flow_count)) (s.(backpressured_flow_count)) (s.(scheduler_rounds))
    (s.(deficit_grants)) (s.(deficit_skips)) (s.(enqueue_rejects)) v (s.(fairness_penalties))
    (s.(downstream_stalls)).
Definition with_fairness_penalties (v : Z) (s : WorkerFairnessState) : WorkerFairnessState :=
  mkWorker (s.(config)) (s.(pressure)) (s.(flows)) (s.(active_ring)) (s.(active_ring_members))
    (s.(total_queued_bytes)) (s.(bucket_queued_bytes)) (s.(bucket_active_flows))
    (s.(standing_flow_count)) (s.(backpressured_flow_count)) (s.(scheduler_rounds))
    (s.(deficit_grants)) (s.(deficit_skips)) (s.(enqueue_rejects)) (s.(shed_drops)) v
    (s.(downstream_stalls)).
Definition with_downstream_stalls (v : Z) (s : WorkerFairnessState) : WorkerFairnessState :=
  mkWorker (s.(config)) (s.(pressure)) (s.(flows)) (s.(active_ring)) (s.(active_ring_members))
    (s.(total_queued_bytes)) (s.(bucket_queued_bytes)) (s.(bucket_active_flows))
    (s.(standing_flow_count)) (s.(backpressured_flow_count)) (s.(scheduler_rounds))
    (s.(deficit_grants)) (s.(deficit_skips)) (s.(enqueue_rejects)) (s.(shed_drops))
    (s.(fairness_penalties)) v.

(** [self.config.backpressure_enabled = enabled] and the copy in the nested
    pressure configuration. *)
Definition cfg_set_backpressure (enabled : bool) (c : WorkerFairnessConfig)
    : WorkerFairnessConfig :=
  mkFairnessConfig c.(worker_id) enabled c.(max_active_flows) c.(max_total_queued_bytes)
    c.(max_flow_queued_bytes) c.(base_quantum_bytes) c.(pressured_quantum_bytes)
    c.(penalized_quantum_bytes) c.(standing_queue_min_age)
    c.(standing_queue_min_backlog_bytes) c.(standing_stall_threshold)
    c.(max_consecutive_stalls_before_shed) c.(max_consecutive_stalls_before_close)
    c.(soft_bucket_count) c.(soft_bucket_share_pct) c.(default_flow_weight)
    c.(quickack_flow_weight) (set_pc_backpressure_enabled enabled c.(cfg_pressure)).

(** [WorkerFairnessState::new]. *)
Definition worker_new (c : WorkerFairnessConfig) (now : Instant) : WorkerFairnessState :=
  let c := cfg_set_backpressure c.(backpressure_enabled) c in
  let bucket_count := Nat.max c.(soft_bucket_count) 1 in
  mkWorker c (evaluator_new now) ∅ [] ∅ 0 (replicate bucket_count 0) (replicate bucket_count 0)
    0 0 0 0 0 0 0 0 0.

Definition pressure_state (s : WorkerFairnessState) : PressureState := s.(pressure).(pe_state).

Definition evaluate_pressure (now : Instant) (force : bool) (s : WorkerFairnessState)
    : WorkerFairnessState :=
  with_pressure
    (maybe_evaluate now s.(config).(cfg_pressure) s.(config).(max_total_queued_bytes)
       (mkSignals (Z.of_nat (size s.(flows))) s.(total_queued_bytes) s.(standing_flow_count)
          s.(backpressured_flow_count)) force s.(pressure)) s.

(** [now] is the value of the [Instant::now()] call in the body. *)
Definition set_backpressure_enabled (enabled : bool) (now : Instant) (s : WorkerFairnessState)
    : WorkerFairnessState :=
  if Bool.eqb s.(config).(backpressure_enabled) enabled then s
  else evaluate_pressure now true (with_config (cfg_set_backpressure enabled s.(config)) s).

Definition scheduler_state_is_backpressured (st : FlowSchedulerState) : bool :=
  match st with
  | FsBackpressured | FsPenalized | FsSheddingCandidate => true
  | FsIdle | FsActive => false
  end.

Definition flow_membership (f : FlowFairnessState) : bool * bool :=
  (bool_decide (f.(standing_state) = SqStanding),
   scheduler_state_is_backpressured f.(scheduler_state)).

Definition derive_flow_classification (c : WorkerFairnessConfig) (ps : PressureState)
    (now : Instant) (f : FlowFairnessState)
    : FlowPressureClass * StandingQueueState * FlowSchedulerState * bool :=
  if f.(pending_bytes) =? 0 then (FpcHealthy, SqTransient, FsIdle, false)
  else
    let queue_age := match f.(queue_started_at) with
                     | Some ts => saturating_duration_since now ts
                     | None => 0
                     end in
    let drain_stalled := match f.(last_drain_at) with
                         | Some ts => c.(standing_queue_min_age) <=? saturating_duration_since now ts
                         | None => true
                         end in
    let standing := (c.(standing_queue_min_backlog_bytes) <=? f.(pending_bytes))
                    && (c.(standing_queue_min_age) <=? queue_age)
                    && ((c.(standing_stall_threshold) <=? f.(consecutive_stalls)) || drain_stalled) in
    if standing then
      (FpcStanding, SqStanding,
       if pressure_ge ps PsShedding then FsSheddingCandidate else FsPenalized, true)
    else if 0 <? f.(consecutive_stalls) then (FpcBackpressured, SqTransient, FsBackpressured, false)
    else if c.(standing_queue_min_backlog_bytes) <=? f.(pending_bytes)
    then (FpcBursty, SqTransient, FsActive, false)
    else (FpcHealthy, SqTransient, FsActive, false).

Definition classify_flow (c : WorkerFairnessConfig) (ps : PressureState) (now : Instant)
    (f : FlowFairnessState) : FlowFairnessState :=
  let '(pc, sq, fs, standing) := derive_flow_classification c ps now f in
  let f := set_scheduler_state fs (set_standing_state sq (set_pressure_class pc f)) in
  let f := if bool_decide (fs = FsIdle) then set_deficit_bytes 0 f else f in
  set_penalty_score
    (if standing then sat_add 16 f.(penalty_score) 1 else sat_sub f.(penalty_score) 1) f.

Definition apply_count_delta (before after : bool) (n : Z) : Z :=
  if Bool.eqb before after then n else if after then sat_add 64 n 1 else sat_sub n 1.

Definition apply_flow_membership_delta (before after : bool * bool) (s : WorkerFairnessState)
    : WorkerFairnessState :=
  with_backpressured_flow_count
    (apply_count_delta before.2 after.2 s.(backpressured_flow_count))
    (with_standing_flow_count (apply_count_delta before.1 after.1 s.(standing_flow_count)) s).

Definition max_deficit (c : WorkerFairnessConfig) : Z := Z.min c.(max_flow_queued_bytes) i64_max.

Definition clamp_deficit_bytes (c : WorkerFairnessConfig) (f : FlowFairnessState)
    : FlowFairnessState :=
  set_deficit_bytes (clamp 0 (max_deficit c) f.(deficit_bytes)) f.

Definition enqueue_active_conn (conn_id : Z) (s : WorkerFairnessState) : WorkerFairnessState :=
  if bool_decide (conn_id ∈ s.(active_ring_members)) then s
  else with_active_ring (s.(active_ring) ++ [conn_id])
         (with_active_ring_members ({[conn_id]} ∪ s.(active_ring_members)) s).

Definition weight_for_flags (c : WorkerFairnessConfig) (flags : Z) : Z :=
  if negb (Z.land flags RPC_FLAG_QUICKACK =? 0) then Z.max c.(quickack_flow_weight) 1
  else Z.max c.(default_flow_weight) 1.

Definition effective_quantum_bytes (c : WorkerFairnessConfig) (ps : PressureState)
    (f : FlowFairnessState) : Z :=
  match f.(scheduler_state) with
  | FsPenalized | FsSheddingCandidate => Z.max c.(penalized_quantum_bytes) 1
  | _ =>
      let base_quantum :=
        match ps with
        | PsNormal => Z.max c.(base_quantum_bytes) 1
        | PsPressured => Z.max c.(pressured_quantum_bytes) 1
        | PsShedding => Z.max c.(pressured_quantum_bytes) 1
        | PsSaturated => Z.max c.(penalized_quantum_bytes) 1
        end in
      Z.max (sat_mul 32 base_quantum (Z.max f.(weight_quanta) 1)) 1
  end.

Definition bucket_for (s : WorkerFairnessState) (conn_id : Z) : nat :=
  Z.to_nat (conn_id mod Z.of_nat (Nat.max (length s.(bucket_queued_bytes)) 1)).

Definition bucket_cap (c : WorkerFairnessConfig) : Z :=
  Z.max (sat_mul 64 c.(max_total_queued_bytes) (Z.max c.(soft_bucket_share_pct) 1) / 100)
    c.(max_flow_queued_bytes).

(** [self.bucket_queued_bytes[b] = v] and [self.bucket_active_flows[b] = v]. *)
Definition set_bucket_bytes (b : nat) (v : Z) (s : WorkerFairnessState) : WorkerFairnessState :=
  with_bucket_queued_bytes (<[b:=v]> s.(bucket_queued_bytes)) s.
Definition set_bucket_active (b : nat) (v : Z) (s : WorkerFairnessState) : WorkerFairnessState :=
  with_bucket_active_flows (<[b:=v]> s.(bucket_active_flows)) s.

(** [self.flows.insert(conn_id, e)], also the write-back of a [get_mut] borrow. *)
Definition put_flow (conn_id : Z) (e : FlowEntry) (s : WorkerFairnessState)
    : WorkerFairnessState :=
  with_flows (<[conn_id:=e]> s.(flows)) s.

(** The statements shared by every rejecting return of [enqueue_data]. *)
Definition count_reject (now : Instant) (s : WorkerFairnessState) : WorkerFairnessState :=
  with_enqueue_rejects (sat_add 64 s.(enqueue_rejects) 1)
    (with_pressure (note_admission_reject now s.(config).(cfg_pressure) s.(pressure)) s).

(** The tail of [enqueue_data] once the flow entry exists (lines 234-286):
    [e] is the borrowed entry, [s] the state that contains it. *)
Definition enqueue_into (conn_id : Z) (bucket : nat) (frame_weight : Z) (frame : QueuedFrame)
    (now : Instant) (e : FlowEntry) (s : WorkerFairnessState)
    : WorkerFairnessState * AdmissionDecision :=
  let c := s.(config) in
  let frame_bytes := queued_bytes frame in
  let f := set_weight_quanta (Z.max e.(fairness).(weight_quanta) frame_weight) e.(fairness) in
  if c.(max_flow_queued_bytes) <? sat_add 64 f.(pending_bytes) frame_bytes then
    (evaluate_pressure now true
       (count_reject now (put_flow conn_id (mkFlowEntry f e.(queue)) s)), RejectFlowCap)
  else if c.(backpressure_enabled) && pressure_ge (pressure_state s) PsShedding
          && bool_decide (f.(standing_state) = SqStanding) then
    (evaluate_pressure now true
       (count_reject now (put_flow conn_id (mkFlowEntry f e.(queue)) s)), RejectStandingFlow)
  else
    let f := set_pending_bytes (sat_add 64 f.(pending_bytes) frame_bytes) f in
    let f := match f.(queue_started_at) with
             | None => set_queue_started_at (Some now) f
             | Some _ => f
             end in
    let q := e.(queue) ++ [frame] in
    let s := with_total_queued_bytes (sat_add 64 s.(total_queued_bytes) frame_bytes) s in
    let s := set_bucket_bytes bucket
               (sat_add 64 (cell s.(bucket_queued_bytes) bucket) frame_bytes) s in
    let enqueue_active := negb f.(in_active_ring) in
    let f := if enqueue_active then set_in_active_ring true f else f in
    let before := flow_membership f in
    let f := classify_flow c (pressure_state s) now f in
    let after := flow_membership f in
    let s := put_flow conn_id (mkFlowEntry f q) s in
    let s := if enqueue_active then enqueue_active_conn conn_id s else s in
    let s := apply_flow_membership_delta before after s in
    (evaluate_pressure now true s, Admit).

Definition enqueue_data (conn_id flags : Z) (data : list Z) (now : Instant)
    (s : WorkerFairnessState) : WorkerFairnessState * AdmissionDecision :=
  let frame := mkQueuedFrame conn_id flags data now in
  let frame_bytes := queued_bytes frame in
  let c := s.(config) in
  if c.(backpressure_enabled) && bool_decide (pressure_state s = PsSaturated) then
    (count_reject now s, RejectSaturated)
  else if c.(max_total_queued_bytes) <? sat_add 64 s.(total_queued_bytes) frame_bytes then
    (evaluate_pressure now true (count_reject now s), RejectWorkerCap)
  else if bool_decide (s.(flows) !! conn_id = None :> option FlowEntry)
          && (c.(max_active_flows) <=? Z.of_nat (size s.(flows))) then
    (evaluate_pressure now true (count_reject now s), RejectWorkerCap)
  else
    let bucket := bucket_for s conn_id in
    let frame_weight := weight_for_flags c flags in
    if bucket_cap c <? sat_add 64 (cell s.(bucket_queued_bytes) bucket) frame_bytes then
      (evaluate_pressure now true (count_reject now s), RejectBucketCap)
    else
      match s.(flows) !! conn_id with
      | Some e => enqueue_into conn_id bucket frame_weight frame now e s
      | None =>
          let e := flow_entry_new conn_id c.(worker_id) bucket frame_weight in
          let s := set_bucket_active bucket (sat_add 64 (cell s.(bucket_active_flows) bucket) 1) s in
          enqueue_into conn_id bucket frame_weight frame now e (put_flow conn_id e s)
      end.

(** What one visit of [next_decision] to a flow produces (lines 311-373). *)
Record FlowVisit := mkVisit {
  fv_entry : FlowEntry;
  fv_continue : bool;
  fv_granted : bool;
  fv_skipped : bool;
  fv_drained : Z;
  fv_requeue : bool;
  fv_candidate : option DispatchCandidate;
}.

Definition visit_flow (c : WorkerFairnessConfig) (ps : PressureState) (now : Instant)
    (e : FlowEntry) : FlowVisit :=
  let f := set_in_active_ring false e.(fairness) in
  match e.(queue) with
  | [] =>
      let f := set_queue_started_at None (set_deficit_bytes 0 (set_pending_bytes 0
                 (set_scheduler_state FsIdle (set_in_active_ring false f)))) in
      mkVisit (mkFlowEntry f []) true false false 0 false None
  | front :: rest =>
      let f := classify_flow c ps now f in
      let quantum := effective_quantum_bytes c ps f in
      let f := set_deficit_bytes (i64_sat_add f.(deficit_bytes) quantum) f in
      let f := clamp_deficit_bytes c f in
      let front_len := queued_bytes front in
      if f.(deficit_bytes) <? u64_as_i64 front_len then
        let f := set_consecutive_skips (sat_add 8 f.(consecutive_skips) 1) f in
        let f := set_in_active_ring true f in
        mkVisit (mkFlowEntry f (front :: rest)) false true true 0 true None
      else
        let drained := queued_bytes front in
        let f := set_pending_bytes (sat_sub f.(pending_bytes) drained) f in
        let f := set_deficit_bytes (i64_sat_sub f.(deficit_bytes) (u64_as_i64 drained)) f in
        let f := clamp_deficit_bytes c f in
        let f := set_consecutive_skips 0 f in
        let f := set_queue_started_at (qf_enqueued_at <$> head rest) f in
        let requeue := negb (bool_decide (rest = [])) in
        let f := if requeue then set_in_active_ring true f
                 else set_deficit_bytes 0 (set_in_active_ring false (set_scheduler_state FsIdle f)) in
        mkVisit (mkFlowEntry f rest) false true false drained requeue
          (Some (mkCandidate front ps f.(pressure_class)))
  end.

(** The loop body of [next_decision] for a popped ring member whose flow is
    [e] (lines 302-395), up to the decision whether to go on. *)
Definition after_visit (conn_id : Z) (e : FlowEntry) (v : FlowVisit) (s : WorkerFairnessState)
    : WorkerFairnessState :=
  let f' := (fv_entry v).(fairness) in
  let bucket := e.(fairness).(bucket_id) in
  let s := put_flow conn_id (fv_entry v) s in
  let s := if fv_granted v then with_deficit_grants (sat_add 64 s.(deficit_grants) 1) s else s in
  let s := if fv_skipped v then with_deficit_skips (sat_add 64 s.(deficit_skips) 1) s else s in
  let s := apply_flow_membership_delta
             (flow_membership (set_in_active_ring false e.(fairness))) (flow_membership f') s in
  if fv_continue v then s
  else
    let s := if 0 <? fv_drained v then
               set_bucket_bytes bucket
                 (sat_sub (cell s.(bucket_queued_bytes) bucket) (fv_drained v))
                 (with_total_queued_bytes (sat_sub s.(total_queued_bytes) (fv_drained v)) s)
             else s in
    if fv_requeue v then enqueue_active_conn conn_id s else s.

Fixpoint next_decision_loop (n : nat) (now : Instant) (s : WorkerFairnessState)
    : WorkerFairnessState * SchedulerDecision :=
  match n with
  | O => (s, SdIdle)
  | S n =>
      match s.(active_ring) with
      | [] => (s, SdIdle)
      | conn_id :: ring =>
          let s := with_active_ring ring s in
          if bool_decide (conn_id ∈ s.(active_ring_members)) then
            let s := with_active_ring_members (s.(active_ring_members) ∖ {[conn_id]}) s in
            match s.(flows) !! conn_id with
            | None => next_decision_loop n now s
            | Some e =>
                let v := visit_flow s.(config) (pressure_state s) now e in
                let s := after_visit conn_id e v s in
                match fv_candidate v with
                | Some cand => (s, SdDispatch cand)
                | None => next_decision_loop n now s
                end
            end
          else next_decision_loop n now s
      end
  end.

Definition next_decision (now : Instant) (s : WorkerFairnessState)
    : WorkerFairnessState * SchedulerDecision :=
  let s := with_scheduler_rounds (sat_add 64 s.(scheduler_rounds) 1) s in
  let s := evaluate_pressure now false s in
  next_decision_loop (length s.(active_ring)) now s.

Definition reclaimed_bytes (q : list QueuedFrame) : Z :=
  foldl (fun acc f => sat_add 64 acc (queued_bytes f)) 0 q.

Definition remove_flow (conn_id : Z) (s : WorkerFairnessState) : WorkerFairnessState :=
  match s.(flows) !! conn_id with
  | None => s
  | Some e =>
      let bucket := e.(fairness).(bucket_id) in
      let s := with_flows (delete conn_id s.(flows)) s in
      let s := with_active_ring_members (s.(active_ring_members) ∖ {[conn_id]}) s in
      let s := with_active_ring (filter (fun c => c <> conn_id) s.(active_ring)) s in
      let '(was_standing, was_backpressured) := flow_membership e.(fairness) in
      let s := if (was_standing : bool)
               then with_standing_flow_count (sat_sub s.(standing_flow_count) 1) s else s in
      let s := if (was_backpressured : bool)
               then with_backpressured_flow_count (sat_sub s.(backpressured_flow_count) 1) s
               else s in
      let s := set_bucket_active bucket (sat_sub (cell s.(bucket_active_flows) bucket) 1) s in
      let reclaimed := reclaimed_bytes e.(queue) in
      let s := with_total_queued_bytes (sat_sub s.(total_queued_bytes) reclaimed) s in
      set_bucket_bytes bucket (sat_sub (cell s.(bucket_queued_bytes) bucket) reclaimed) s
  end.

(** [apply_dispatch_feedback], [DispatchFeedback::Routed] arm. *)
Definition feedback_routed (conn_id : Z) (cand : DispatchCandidate) (now : Instant)
    (s : WorkerFairnessState) : WorkerFairnessState * DispatchAction :=
  let s :=
    match s.(flows) !! conn_id with
    | None => s
    | Some e =>
        let f := e.(fairness) in
        let before := flow_membership f in
        let f := set_last_drain_at (Some now) f in
        let f := set_recent_drain_bytes
                   (sat_add 64 f.(recent_drain_bytes) (queued_bytes (dc_frame cand))) f in
        let f := set_consecutive_stalls 0 f in
        let f := if bool_decide (f.(scheduler_state) = FsIdle) then f
                 else set_scheduler_state FsActive f in
        let f := classify_flow s.(config) (pressure_state s) now f in
        apply_flow_membership_delta before (flow_membership f)
          (put_flow conn_id (mkFlowEntry f e.(queue)) s)
    end in
  (evaluate_pressure now false s, ActContinue).

(** [apply_dispatch_feedback], [DispatchFeedback::QueueFull] arm. *)
Definition feedback_queue_full (conn_id : Z) (cand : DispatchCandidate) (now : Instant)
    (s : WorkerFairnessState) : WorkerFairnessState * DispatchAction :=
  let c := s.(config) in
  let bp := c.(backpressure_enabled) in
  let s := if bp then
             with_downstream_stalls (sat_add 64 s.(downstream_stalls) 1)
               (with_pressure (note_route_stall now c.(cfg_pressure) s.(pressure)) s)
           else s in
  let state := pressure_state s in
  match s.(flows) !! conn_id with
  | None => (evaluate_pressure now true s, ActContinue)
  | Some e =>
      let f := e.(fairness) in
      let before := flow_membership f in
      let f := if bp then
                 set_pressure_class FpcBackpressured (set_scheduler_state FsBackpressured
                   (set_consecutive_stalls (sat_add 8 f.(consecutive_stalls) 1) f))
               else f in
      let should_shed :=
        bp && (bool_decide (state = PsSaturated)
               || (bool_decide (state = PsShedding)
                   && bool_decide (f.(standing_state) = SqStanding)
                   && (c.(max_consecutive_stalls_before_shed) <=? f.(consecutive_stalls)))) in
      let '(f, q, s, enqueue_active) :=
        if should_shed then
          (f, e.(queue),
           with_fairness_penalties (sat_add 64 s.(fairness_penalties) 1)
             (with_shed_drops (sat_add 64 s.(shed_drops) 1) s), false)
        else
          let frame_bytes := queued_bytes (dc_frame cand) in
          let q := dc_frame cand :: e.(queue) in
          let f := set_pending_bytes (sat_add 64 f.(pending_bytes) frame_bytes) f in
          let f := set_queue_started_at (Some (qf_enqueued_at (dc_frame cand))) f in
          let s := with_total_queued_bytes (sat_add 64 s.(total_queued_bytes) frame_bytes) s in
          let s := set_bucket_bytes f.(bucket_id)
                     (sat_add 64 (cell s.(bucket_queued_bytes) f.(bucket_id)) frame_bytes) s in
          if f.(in_active_ring) then (f, q, s, false)
          else (set_in_active_ring true f, q, s, true) in
      let f := classify_flow c state now f in
      let should_close := bp && (c.(max_consecutive_stalls_before_close) <=? f.(consecutive_stalls))
                          && bool_decide (state = PsSaturated) in
      let s := put_flow conn_id (mkFlowEntry f q) s in
      let s := if (enqueue_active : bool) then enqueue_active_conn conn_id s else s in
      let s := apply_flow_membership_delta before (flow_membership f) s in
      if should_close then (evaluate_pressure now true (remove_flow conn_id s), ActCloseFlow)
      else (evaluate_pressure now true s, ActContinue)
  end.

Definition apply_dispatch_feedback (conn_id : Z) (cand : DispatchCandidate)
    (fb : DispatchFeedback) (now : Instant) (s : WorkerFairnessState)
    : WorkerFairnessState * DispatchAction :=
  match fb with
  | FbRouted => feedback_routed conn_id cand now s
  | FbQueueFull => feedback_queue_full conn_id cand now s
  | FbChannelClosed | FbNoConn =>
      (evaluate_pressure now true (remove_flow conn_id s), ActCloseFlow)
  end.

(** The consistency check of the scheduler's tests
    ([debug_check_active_ring_consistency]). *)
Fixpoint ring_scan (seen : gset Z) (s : WorkerFairnessState) (ring : list Z) : bool :=
  match ring with
  | [] => true
  | conn_id :: ring =>
      if bool_decide (conn_id ∈ seen) then false
      else if negb (bool_decide (conn_id ∈ s.(active_ring_members))) then false
      else match s.(flows) !! conn_id with
           | None => false
           | Some e =>
               if negb e.(fairness).(in_active_ring) || bool_decide (e.(queue) = []) then false
               else ring_scan ({[conn_id]} ∪ seen) s ring
           end
  end.

Definition flow_ring_consistent (s : WorkerFairnessState) (conn_id : Z) (e : FlowEntry) : bool :=
  let in_ring := bool_decide (conn_id ∈ s.(active_ring_members)) in
  Bool.eqb e.(fairness).(in_active_ring) in_ring && negb (in_ring && bool_decide (e.(queue) = [])).

Definition debug_check_active_ring_consistency (s : WorkerFairnessState) : bool :=
  bool_decide (length s.(active_ring) = size s.(active_ring_members))
  && ring_scan ∅ s s.(active_ring)
  && map_fold (fun conn_id e acc => flow_ring_consistent s conn_id e && acc) true s.(flows).

(** [WorkerFairnessSnapshot] and [snapshot]. *)
Record WorkerFairnessSnapshot := mkSnapshot {
  snap_pressure_state : PressureState;
  snap_active_flows : Z;
  snap_total_queued_bytes : Z;
  snap_standing_flows : Z;
  snap_backpressured_flows : Z;
  snap_scheduler_rounds : Z;
  snap_deficit_grants : Z;
  snap_deficit_skips : Z;
  snap_enqueue_rejects : Z;
  snap_shed_drops : Z;
  snap_fairness_penalties : Z;
  snap_downstream_stalls : Z;
}.

Definition snapshot (s : WorkerFairnessState) : WorkerFairnessSnapshot :=
  mkSnapshot (pressure_state s) (Z.of_nat (size s.(flows))) s.(total_queued_bytes)
    s.(standing_flow_count) s.(backpressured_flow_count) s.(scheduler_rounds)
    s.(deficit_grants) s.(deficit_skips) s.(enqueue_rejects) s.(shed_drops)
    s.(fairness_penalties) s.(downstream_stalls).
