(* ===== verification/FairnessInvariant.v ===== *)
(** The global invariant of the fair scheduler: byte accounting, ring
    membership and flow counters agree with the contents of the queues in
    every state the reader can reach. *)

From stdpp Require Import base list gmap numbers.
From S2P Require Import Prelude FairnessModel FairnessPressure FairnessScheduler.
Local Open Scope Z_scope.

(** * The invariant *)

(** The configuration leaves head-room below the integer widths, so that no
    counter of queued bytes ever saturates. *)
Record cfg_ok (c : WorkerFairnessConfig) : Prop := {
  co_total : 0 <= c.(max_total_queued_bytes) < umax 64;
  co_flow : 0 <= c.(max_flow_queued_bytes) <= i64_max;
  co_active : 0 <= c.(max_active_flows) <= umax 64;
}.

Definition bucket_count (c : WorkerFairnessConfig) : nat := Nat.max c.(soft_bucket_count) 1.
Definition home_bucket (c : WorkerFairnessConfig) (id : Z) : nat :=
  Z.to_nat (id mod Z.of_nat (bucket_count c)).

Record flow_ok (c : WorkerFairnessConfig) (id : Z) (e : FlowEntry) : Prop := {
  fo_pending : e.(fairness).(pending_bytes) = frames_bytes e.(queue);
  fo_pending_cap : e.(fairness).(pending_bytes) <= c.(max_flow_queued_bytes);
  fo_ring : e.(fairness).(in_active_ring) = negb (bool_decide (e.(queue) = []));
  fo_bucket : e.(fairness).(bucket_id) = home_bucket c id;
  fo_deficit : 0 <= e.(fairness).(deficit_bytes) <= max_deficit c;
  fo_frames : Forall (fun fr => qf_conn_id fr = id) e.(queue);
}.

Definition entry_bytes (_ : Z) (e : FlowEntry) : Z := frames_bytes e.(queue).
Definition entry_bytes_in (b : nat) (_ : Z) (e : FlowEntry) : Z :=
  if decide (e.(fairness).(bucket_id) = b) then frames_bytes e.(queue) else 0.
Definition entry_in (b : nat) (_ : Z) (e : FlowEntry) : Z :=
  if decide (e.(fairness).(bucket_id) = b) then 1 else 0.
Definition entry_standing (_ : Z) (e : FlowEntry) : Z := b2z (flow_membership e.(fairness)).1.
Definition entry_backpressured (_ : Z) (e : FlowEntry) : Z := b2z (flow_membership e.(fairness)).2.

(** The invariant over the components it mentions. *)
Record InvC (c : WorkerFairnessConfig) (fl : gmap Z FlowEntry) (ring : list Z)
    (members : gset Z) (total : Z) (bq ba : list Z) (standing backp : Z) : Prop := {
  inv_cfg : cfg_ok c;
  inv_ring_nodup : NoDup ring;
  inv_ring_members : forall id, id ∈ ring <-> id ∈ members;
  inv_members : forall id,
    id ∈ members <-> exists e, fl !! id = Some e /\ e.(fairness).(in_active_ring) = true;
  inv_flow : forall id e, fl !! id = Some e -> flow_ok c id e;
  inv_size : Z.of_nat (size fl) <= c.(max_active_flows);
  inv_total : total = map_sum entry_bytes fl;
  inv_total_cap : total <= c.(max_total_queued_bytes);
  inv_bq_len : length bq = bucket_count c;
  inv_ba_len : length ba = bucket_count c;
  inv_bq : forall b, (b < bucket_count c)%nat -> cell bq b = map_sum (entry_bytes_in b) fl;
  inv_ba : forall b, (b < bucket_count c)%nat -> cell ba b = map_sum (entry_in b) fl;
  inv_standing : standing = map_sum entry_standing fl;
  inv_backp : backp = map_sum entry_backpressured fl;
}.

Arguments inv_cfg {_ _ _ _ _ _ _ _ _} _.
Arguments inv_ring_nodup {_ _ _ _ _ _ _ _ _} _.
Arguments inv_ring_members {_ _ _ _ _ _ _ _ _} _.
Arguments inv_members {_ _ _ _ _ _ _ _ _} _.
Arguments inv_flow {_ _ _ _ _ _ _ _ _} _.
Arguments inv_size {_ _ _ _ _ _ _ _ _} _.
Arguments inv_total {_ _ _ _ _ _ _ _ _} _.
Arguments inv_total_cap {_ _ _ _ _ _ _ _ _} _.
Arguments inv_bq_len {_ _ _ _ _ _ _ _ _} _.
Arguments inv_ba_len {_ _ _ _ _ _ _ _ _} _.
Arguments inv_bq {_ _ _ _ _ _ _ _ _} _.
Arguments inv_ba {_ _ _ _ _ _ _ _ _} _.
Arguments inv_standing {_ _ _ _ _ _ _ _ _} _.
Arguments inv_backp {_ _ _ _ _ _ _ _ _} _.
Arguments fo_pending {_ _ _} _.
Arguments fo_pending_cap {_ _ _} _.
Arguments fo_ring {_ _ _} _.
Arguments fo_bucket {_ _ _} _.
Arguments fo_deficit {_ _ _} _.
Arguments fo_frames {_ _ _} _.
Arguments co_total {_} _.
Arguments co_flow {_} _.
Arguments co_active {_} _.

Definition Inv (s : WorkerFairnessState) : Prop :=
  InvC s.(config) s.(flows) s.(active_ring) s.(active_ring_members) s.(total_queued_bytes)
    s.(bucket_queued_bytes) s.(bucket_active_flows) s.(standing_flow_count)
    s.(backpressured_flow_count).

(** * Facts about the components of the invariant *)

Lemma home_bucket_lt c id : (home_bucket c id < bucket_count c)%nat.
Proof.
  unfold home_bucket, bucket_count.
  pose proof (Z.mod_pos_bound id (Z.of_nat (Nat.max c.(soft_bucket_count) 1))). lia.
Qed.

Lemma entry_bytes_nonneg id e : 0 <= entry_bytes id e.
Proof. apply frames_bytes_nonneg. Qed.

Lemma entry_bytes_in_nonneg b id e : 0 <= entry_bytes_in b id e.
Proof. unfold entry_bytes_in. case_decide; [apply frames_bytes_nonneg | lia]. Qed.

Lemma entry_bytes_in_le b id e : entry_bytes_in b id e <= entry_bytes id e.
Proof.
  unfold entry_bytes_in, entry_bytes. case_decide; [lia | apply frames_bytes_nonneg].
Qed.

Lemma entry_standing_range id e : 0 <= entry_standing id e <= 1.
Proof. apply b2z_range. Qed.

Lemma entry_backpressured_range id e : 0 <= entry_backpressured id e <= 1.
Proof. apply b2z_range. Qed.

Lemma entry_in_range b id e : 0 <= entry_in b id e <= 1.
Proof. unfold entry_in. case_decide; lia. Qed.

#[export] Hint Resolve entry_bytes_nonneg entry_bytes_in_nonneg entry_bytes_in_le : machine.

Section derived.
Context (c : WorkerFairnessConfig) (fl : gmap Z FlowEntry) (ring : list Z) (members : gset Z)
  (total : Z) (bq ba : list Z) (standing backp : Z).
Hypothesis (I : InvC c fl ring members total bq ba standing backp).

Lemma inv_total_nonneg : 0 <= total.
Proof. rewrite (inv_total I). apply map_sum_nonneg; auto with machine. Qed.

Lemma inv_total_ge id e : fl !! id = Some e -> frames_bytes e.(queue) <= total.
Proof.
  intros He. rewrite (inv_total I).
  apply (map_sum_lookup_le entry_bytes fl id e); auto with machine.
Qed.

Lemma inv_bq_bounds b :
  (b < bucket_count c)%nat -> 0 <= cell bq b <= total.
Proof.
  intros Hb. rewrite (inv_bq I b Hb), (inv_total I). split.
  - apply map_sum_nonneg; auto with machine.
  - apply map_sum_le; auto with machine.
Qed.

Lemma inv_bq_ge id e :
  fl !! id = Some e -> frames_bytes e.(queue) <= cell bq e.(fairness).(bucket_id).
Proof.
  intros He. pose proof (inv_flow I id e He) as Hf.
  rewrite (inv_bq I).
  - replace (frames_bytes (queue e)) with (entry_bytes_in (bucket_id (fairness e)) id e)
      by (unfold entry_bytes_in; by rewrite decide_True).
    apply map_sum_lookup_le; auto with machine.
  - rewrite (fo_bucket Hf). apply home_bucket_lt.
Qed.

Lemma inv_standing_bounds : 0 <= standing <= Z.of_nat (size fl).
Proof.
  rewrite (inv_standing I). split.
  - apply map_sum_nonneg. intros; apply entry_standing_range.
  - apply map_sum_le_size. intros; apply entry_standing_range.
Qed.

Lemma inv_backp_bounds : 0 <= backp <= Z.of_nat (size fl).
Proof.
  rewrite (inv_backp I). split.
  - apply map_sum_nonneg. intros; apply entry_backpressured_range.
  - apply map_sum_le_size. intros; apply entry_backpressured_range.
Qed.
End derived.
Arguments inv_total_nonneg {_ _ _ _ _ _ _ _ _} _.
Arguments inv_total_ge {_ _ _ _ _ _ _ _ _} _.
Arguments inv_bq_bounds {_ _ _ _ _ _ _ _ _} _.
Arguments inv_bq_ge {_ _ _ _ _ _ _ _ _} _.
Arguments inv_standing_bounds {_ _ _ _ _ _ _ _ _} _.
Arguments inv_backp_bounds {_ _ _ _ _ _ _ _ _} _.

(** A counter of a per-flow flag moves by the change of the flag. *)
Lemma apply_count_delta_sum (get : FlowFairnessState -> bool) (fl : gmap Z FlowEntry) id e e' :
  Z.of_nat (size fl) <= umax 64 -> fl !! id = Some e ->
  apply_count_delta (get e.(fairness)) (get e'.(fairness))
    (map_sum (fun _ e => b2z (get e.(fairness))) fl)
  = map_sum (fun _ e => b2z (get e.(fairness))) (<[id:=e']> fl).
Proof.
  intros Hsz He.
  set (g := fun (_ : Z) e => b2z (get (fairness e))).
  assert (Hb : forall k x, 0 <= g k x <= 1) by (intros; apply b2z_range).
  assert (Hge : g id e <= map_sum g fl)
    by (apply map_sum_lookup_le; [intros; apply Hb | done]).
  assert (Hle : map_sum g (<[id:=e']> fl) <= Z.of_nat (size (<[id:=e']> fl)))
    by (apply map_sum_le_size; intros; apply Hb).
  rewrite map_size_insert_Some in Hle by eauto.
  rewrite (map_sum_insert g fl id e' e He) in Hle |- *.
  unfold apply_count_delta, g in *.
  destruct (get (fairness e)), (get (fairness e')); simpl in *; machine_lia.
Qed.

(** * Updating, adding and removing one flow *)

Lemma InvC_update c fl ring members total bq ba st bk id e e' ring' members' total' bq' :
  InvC c fl ring members total bq ba st bk ->
  fl !! id = Some e -> flow_ok c id e' ->
  NoDup ring' -> (forall j, j ∈ ring' <-> j ∈ members') ->
  (forall j, j ∈ members' <->
     if decide (j = id) then e'.(fairness).(in_active_ring) = true else j ∈ members) ->
  total' = total - frames_bytes e.(queue) + frames_bytes e'.(queue) ->
  total' <= c.(max_total_queued_bytes) -> length bq' = length bq ->
  (forall b, (b < bucket_count c)%nat -> cell bq' b = cell bq b +
     if decide (b = home_bucket c id) then frames_bytes e'.(queue) - frames_bytes e.(queue) else 0) ->
  InvC c (<[id:=e']> fl) ring' members' total' bq' ba
    (apply_count_delta (flow_membership e.(fairness)).1 (flow_membership e'.(fairness)).1 st)
    (apply_count_delta (flow_membership e.(fairness)).2 (flow_membership e'.(fairness)).2 bk).
Proof.
  intros I He Hf' Hnd Hrm Hmem Ht Htcap Hlen Hbq.
  pose proof (inv_flow I id e He) as Hf.
  pose proof (fo_bucket Hf) as Hb. pose proof (fo_bucket Hf') as Hb'.
  assert (Hsz : Z.of_nat (size fl) <= umax 64)
    by (pose proof (inv_size I);
        pose proof (co_active (inv_cfg I)); lia).
  split; try done.
  - apply I.
  - intros j. rewrite Hmem. case_decide as Hj.
    + subst j. rewrite lookup_insert_eq. split; [eauto | by intros (x & [= <-] & ?)].
    + rewrite lookup_insert_ne by done. apply I.
  - intros j x. destruct (decide (id = j)) as [<-|Hj].
    + rewrite lookup_insert_eq. by intros [= <-].
    + rewrite lookup_insert_ne by done. apply I.
  - rewrite map_size_insert_Some by eauto. apply I.
  - rewrite (map_sum_insert _ _ _ _ _ He), <- (inv_total I). done.
  - rewrite Hlen. apply I.
  - apply I.
  - intros b Hlt. rewrite Hbq, (map_sum_insert _ _ _ _ _ He), (inv_bq I b Hlt)
      by done.
    unfold entry_bytes_in. rewrite Hb, Hb'. repeat case_decide; congruence || lia.
  - intros b Hlt. rewrite (map_sum_insert _ _ _ _ _ He), (inv_ba I b Hlt).
    unfold entry_in. rewrite Hb, Hb'. repeat case_decide; congruence || lia.
  - rewrite (inv_standing I).
    apply (apply_count_delta_sum (fun f => (flow_membership f).1)); done.
  - rewrite (inv_backp I).
    apply (apply_count_delta_sum (fun f => (flow_membership f).2)); done.
Qed.

Lemma InvC_add_flow c fl ring members total bq ba st bk id worker weight :
  InvC c fl ring members total bq ba st bk ->
  fl !! id = None -> Z.of_nat (size fl) < c.(max_active_flows) ->
  InvC c (<[id:=flow_entry_new id worker (home_bucket c id) weight]> fl) ring members total bq
    (<[home_bucket c id:=sat_add 64 (cell ba (home_bucket c id)) 1]> ba) st bk.
Proof.
  intros I Hn Hlt.
  pose proof (home_bucket_lt c id) as Hhb.
  assert (Hba : 0 <= cell ba (home_bucket c id) <= Z.of_nat (size fl)).
  { rewrite (inv_ba I _ Hhb). split.
    - apply map_sum_nonneg; intros; apply entry_in_range.
    - apply map_sum_le_size; intros; apply entry_in_range. }
  pose proof (co_active (inv_cfg I)) as Hact.
  pose proof (inv_cfg I) as Hcfg.
  split; try apply I.
  - intros j. rewrite (inv_members I). split.
    + intros (x & Hx & ?). exists x. rewrite lookup_insert_ne by congruence. done.
    + intros (x & [[<- <-]|[? ?]]%lookup_insert_Some & Hin); [done|]. eauto.
  - intros j x [[<- <-]|[? ?]]%lookup_insert_Some; [|by apply I].
    split; simpl; try done; try (destruct Hcfg; lia).
    destruct Hcfg. unfold max_deficit. machine_lia.
  - rewrite map_size_insert_None by done. lia.
  - rewrite map_sum_insert_new, <- (inv_total I) by done. done.
  - rewrite length_insert. apply I.
  - intros b Hb. rewrite map_sum_insert_new, (inv_bq I b Hb) by done.
    unfold entry_bytes_in; simpl. case_decide; lia.
  - intros b Hb. rewrite map_sum_insert_new by done. unfold entry_in at 1; simpl.
    case_decide as Hd.
    + subst b. rewrite cell_insert_eq by (rewrite (inv_ba_len I); done).
      rewrite <- (inv_ba I _ Hhb). machine_lia.
    + rewrite cell_insert_ne, (inv_ba I b Hb) by done. done.
  - rewrite map_sum_insert_new, <- (inv_standing I) by done. done.
  - rewrite map_sum_insert_new, <- (inv_backp I) by done. done.
Qed.

Lemma reclaimed_bytes_exact q : frames_bytes q <= umax 64 -> reclaimed_bytes q = frames_bytes q.
Proof.
  unfold reclaimed_bytes. intros Hq.
  enough (forall acc, 0 <= acc -> acc + frames_bytes q <= umax 64 ->
    foldl (fun acc f => sat_add 64 acc (queued_bytes f)) acc q = acc + frames_bytes q) as H
    by (apply (H 0); lia).
  clear Hq. induction q as [|f q IH]; intros acc Ha Hs; simpl in *; [lia|].
  pose proof (queued_bytes_nonneg f). pose proof (frames_bytes_nonneg q).
  rewrite sat_add_exact by lia. rewrite IH; lia.
Qed.

Lemma remove_flow_Inv id s : Inv s -> Inv (remove_flow id s).
Proof.
  unfold Inv. intros I. unfold remove_flow.
  destruct (flows s !! id) as [e|] eqn:He; [|done].
  pose proof (inv_flow I id e He) as Hf.
  pose proof (fo_bucket Hf) as Hb.
  pose proof (home_bucket_lt s.(config) id) as Hhb.
  pose proof (inv_cfg I) as Hcfg.
  pose proof (inv_total_ge I id e He) as Htot.
  pose proof (inv_bq_ge I id e He) as Hbq.
  pose proof (inv_total_cap I) as Hcap.
  assert (Hba : entry_in (home_bucket (config s) id) id e
                <= cell (bucket_active_flows s) (home_bucket (config s) id)).
  { rewrite (inv_ba I _ Hhb).
    apply map_sum_lookup_le; [intros; apply entry_in_range | done]. }
  assert (Hst : entry_standing id e <= standing_flow_count s).
  { rewrite (inv_standing I).
    apply map_sum_lookup_le; [intros; apply entry_standing_range | done]. }
  assert (Hbk : entry_backpressured id e <= backpressured_flow_count s).
  { rewrite (inv_backp I).
    apply map_sum_lookup_le; [intros; apply entry_backpressured_range | done]. }
  unfold entry_in in Hba. rewrite decide_True in Hba by done.
  rewrite Hb in *.
  rewrite reclaimed_bytes_exact by (destruct Hcfg; lia).
  unfold entry_standing in Hst. unfold entry_backpressured in Hbk.
  destruct (flow_membership (fairness e)) as [ws wb] eqn:Hm.
  assert (Hsum : forall g, map_sum g (delete id (flows s)) = map_sum g (flows s) - g id e)
    by (intros; by apply map_sum_delete).
  enough (InvC (config s) (delete id (flows s)) (filter (fun c => c <> id) (active_ring s))
    (active_ring_members s ∖ {[id]})
    (sat_sub (total_queued_bytes s) (frames_bytes (queue e)))
    (<[home_bucket (config s) id:=
       sat_sub (cell (bucket_queued_bytes s) (home_bucket (config s) id)) (frames_bytes (queue e))]>
       (bucket_queued_bytes s))
    (<[home_bucket (config s) id:=
       sat_sub (cell (bucket_active_flows s) (home_bucket (config s) id)) 1]>
       (bucket_active_flows s))
    (standing_flow_count s - b2z ws) (backpressured_flow_count s - b2z wb)) as H.
  { destruct ws, wb; simpl in *; rewrite ?Z.sub_0_r in H;
      rewrite <- ?(sat_sub_exact (standing_flow_count s) 1) in H by done;
      rewrite <- ?(sat_sub_exact (backpressured_flow_count s) 1) in H by done; exact H. }
  split; try apply I.
  - apply list.NoDup_filter, I.
  - intros j. rewrite list_elem_of_filter, (inv_ring_members I). set_solver.
  - intros j. rewrite elem_of_difference, (inv_members I), elem_of_singleton.
    split.
    + intros ((x & Hx & ?) & ?). exists x. by rewrite lookup_delete_ne.
    + intros (x & [? ?]%lookup_delete_Some & ?). eauto.
  - intros j x [? ?]%lookup_delete_Some. by apply I.
  - rewrite map_size_delete_Some by eauto.
    pose proof (inv_size I). lia.
  - rewrite Hsum, <- (inv_total I). by rewrite sat_sub_exact.
  - pose proof (frames_bytes_nonneg (queue e)). machine_lia.
  - rewrite length_insert. apply I.
  - rewrite length_insert. apply I.
  - intros b Hlt. rewrite Hsum. unfold entry_bytes_in at 2. rewrite Hb.
    case_decide as Hd.
    + subst b. rewrite cell_insert_eq by (rewrite (inv_bq_len I); done).
      rewrite sat_sub_exact by done. by rewrite (inv_bq I _ Hhb).
    + rewrite cell_insert_ne, (inv_bq I b Hlt) by done. lia.
  - intros b Hlt. rewrite Hsum. unfold entry_in at 2. rewrite Hb.
    case_decide as Hd.
    + subst b. rewrite cell_insert_eq by (rewrite (inv_ba_len I); done).
      rewrite sat_sub_exact by done. by rewrite (inv_ba I _ Hhb).
    + rewrite cell_insert_ne, (inv_ba I b Hlt) by done. lia.
  - rewrite Hsum, <- (inv_standing I). unfold entry_standing. by rewrite Hm.
  - rewrite Hsum, <- (inv_backp I). unfold entry_backpressured. by rewrite Hm.
Qed.

(** * Classification touches only the classification fields and the deficit *)

Section classify.
Context (c : WorkerFairnessConfig) (ps : PressureState) (now : Instant) (f : FlowFairnessState).

Lemma classify_pending : (classify_flow c ps now f).(pending_bytes) = f.(pending_bytes).
Proof.
  unfold classify_flow. destruct (derive_flow_classification _ _ _ _) as [[[? ?] fs] ?].
  by case_bool_decide.
Qed.

Lemma classify_ring : (classify_flow c ps now f).(in_active_ring) = f.(in_active_ring).
Proof.
  unfold classify_flow. destruct (derive_flow_classification _ _ _ _) as [[[? ?] fs] ?].
  by case_bool_decide.
Qed.

Lemma classify_bucket : (classify_flow c ps now f).(bucket_id) = f.(bucket_id).
Proof.
  unfold classify_flow. destruct (derive_flow_classification _ _ _ _) as [[[? ?] fs] ?].
  by case_bool_decide.
Qed.

Lemma classify_deficit :
  (classify_flow c ps now f).(deficit_bytes) =
  if f.(pending_bytes) =? 0 then 0 else f.(deficit_bytes).
Proof.
  unfold classify_flow, derive_flow_classification.
  destruct (pending_bytes f =? 0); [done|].
  repeat match goal with |- context [if ?b then _ else _] => destruct b eqn:? end;
    simpl in *; try done; by case_bool_decide.
Qed.
End classify.

Create Rewrite HintDb fairness.
#[export] Hint Rewrite classify_pending classify_ring classify_bucket classify_deficit : fairness.

Lemma flow_ok_deficit_range c d : 0 <= c.(max_flow_queued_bytes) -> 0 <= clamp 0 (max_deficit c) d <= max_deficit c.
Proof. intros. apply clamp_bounds. unfold max_deficit. machine_lia. Qed.

(** Appending a member to the ring. *)
Lemma ring_append id ring members :
  NoDup ring -> (forall j, j ∈ ring <-> j ∈ (members : gset Z)) -> id ∉ members ->
  NoDup (ring ++ [id]) /\ forall j, j ∈ ring ++ [id] <-> j ∈ {[id]} ∪ members.
Proof.
  intros Hnd Hrm Hid. split.
  - apply list.NoDup_app. split; [done|]. split; [|apply NoDup_singleton].
    intros x Hx ->%list_elem_of_singleton. by apply Hid, Hrm.
  - intros j. rewrite elem_of_app, list_elem_of_singleton, Hrm. set_solver.
Qed.

(** * Two shapes of update shared by the operations *)

(** The flow is rewritten without changing its queue or its ring membership. *)
Lemma Inv_touch s id e f :
  Inv s -> s.(flows) !! id = Some e -> flow_ok s.(config) id (mkFlowEntry f e.(queue)) ->
  Inv (apply_flow_membership_delta (flow_membership e.(fairness)) (flow_membership f)
         (put_flow id (mkFlowEntry f e.(queue)) s)).
Proof.
  intros I He Hf'. pose proof (inv_flow I id e He) as Hf.
  apply (InvC_update _ _ _ _ _ _ _ _ _ id e (mkFlowEntry f (queue e)) _ _ _ _ I He Hf');
    try apply I; simpl; try done; try lia.
  - intros j. case_decide as Hj; [|done]. subst j.
    rewrite (inv_members I). pose proof (fo_ring Hf) as R1. pose proof (fo_ring Hf') as R2.
    simpl in R2. rewrite R2, <- R1. split; [intros (x & Hx & ?); congruence | eauto].
  - intros. case_decide; lia.
Qed.

(** The flow gains [n] bytes of frames and is put in the ring if it is not there. *)
Definition grow_flow (id n : Z) (e : FlowEntry) (f : FlowFairnessState) (q : list QueuedFrame)
    (s : WorkerFairnessState) : WorkerFairnessState :=
  let b := home_bucket s.(config) id in
  let s := set_bucket_bytes b (sat_add 64 (cell s.(bucket_queued_bytes) b) n)
             (with_total_queued_bytes (sat_add 64 s.(total_queued_bytes) n) s) in
  let s := put_flow id (mkFlowEntry f q) s in
  apply_flow_membership_delta (flow_membership e.(fairness)) (flow_membership f)
    (if negb e.(fairness).(in_active_ring) then enqueue_active_conn id s else s).

Lemma grown_cells s hb n d :
  Inv s -> (hb < bucket_count s.(config))%nat ->
  let bq := <[hb:=cell s.(bucket_queued_bytes) hb + n]> s.(bucket_queued_bytes) in
  n = d ->
  length bq = length s.(bucket_queued_bytes) /\
  forall b, (b < bucket_count s.(config))%nat ->
    cell bq b = cell s.(bucket_queued_bytes) b + if decide (b = hb) then d else 0.
Proof.
  intros I Hhb bq <-. unfold bq. rewrite length_insert. split; [done|].
  intros b Hlt. case_decide as Hd.
  - subst b. rewrite cell_insert_eq by (rewrite (inv_bq_len I); done). lia.
  - rewrite cell_insert_ne by done. lia.
Qed.

Lemma add_member s id e (x : bool) :
  Inv s -> s.(flows) !! id = Some e -> x = true ->
  let b := e.(fairness).(in_active_ring) in
  let ring := if b then s.(active_ring) else s.(active_ring) ++ [id] in
  let members := if b then s.(active_ring_members) else {[id]} ∪ s.(active_ring_members) in
  bool_decide (id ∈ s.(active_ring_members)) = b /\
  NoDup ring /\ (forall j, j ∈ ring <-> j ∈ members) /\
  (forall j, j ∈ members <-> if decide (j = id) then x = true else j ∈ s.(active_ring_members)).
Proof.
  intros I He -> b. assert (Hmem : id ∈ active_ring_members s <-> b = true).
  { rewrite (inv_members I). naive_solver. }
  destruct b eqn:Hb; cbn.
  - split; [by apply bool_decide_eq_true_2, Hmem|]. split; [apply I|]. split; [apply I|].
    intros j. case_decide; naive_solver.
  - assert (Hni : id ∉ active_ring_members s) by (by rewrite Hmem).
    destruct (ring_append id (active_ring s) (active_ring_members s)) as [Hnd Hrm];
      [apply I | apply I | done |].
    split; [by apply bool_decide_eq_false_2|]. split; [done|]. split; [done|].
    intros j. rewrite elem_of_union, elem_of_singleton. case_decide; naive_solver.
Qed.

Lemma Inv_grow s id n e f q :
  Inv s -> s.(flows) !! id = Some e -> flow_ok s.(config) id (mkFlowEntry f q) ->
  0 <= n -> frames_bytes q = frames_bytes e.(queue) + n -> f.(in_active_ring) = true ->
  s.(total_queued_bytes) + n <= s.(config).(max_total_queued_bytes) ->
  Inv (grow_flow id n e f q s).
Proof.
  intros I He Hf' Hn Hq Hring Htot. unfold grow_flow.
  pose proof (co_total (inv_cfg I)) as HcT. pose proof (inv_total_nonneg I) as Ht0.
  pose proof (home_bucket_lt (config s) id) as Hhb. pose proof (inv_bq_bounds I _ Hhb) as Hbq.
  rewrite (sat_add_exact 64 (total_queued_bytes s)) by lia.
  rewrite (sat_add_exact 64 (cell _ _)) by (cbn; lia).
  destruct (add_member s id e _ I He Hring) as (Hdec & Hnd & Hrm & Hmem).
  destruct (grown_cells s (home_bucket (config s) id) n
    (frames_bytes q - frames_bytes (queue e)) I Hhb) as [Hlen Hcells]; [lia|].
  assert (Ht : total_queued_bytes s + n =
    total_queued_bytes s - frames_bytes (queue e) + frames_bytes q) by lia.
  assert (J := InvC_update _ _ _ _ _ _ _ _ _ id e (mkFlowEntry f q) _ _ _ _
    I He Hf' Hnd Hrm Hmem Ht Htot Hlen Hcells).
  unfold Inv, enqueue_active_conn. cbn -[sat_add Z.add]. rewrite Hdec.
  destruct (in_active_ring (fairness e)); exact J.
Qed.

(** * Enqueueing *)

(** The fairness state [enqueue_into] stores for an admitted frame. *)
Definition admitted_fairness (w : Z) (fr : QueuedFrame) (now : Instant) (e : FlowEntry)
    (s : WorkerFairnessState) : FlowFairnessState :=
  let f := set_weight_quanta (Z.max e.(fairness).(weight_quanta) w) e.(fairness) in
  let f := set_pending_bytes (sat_add 64 f.(pending_bytes) (queued_bytes fr)) f in
  let f := match f.(queue_started_at) with
           | None => set_queue_started_at (Some now) f
           | Some _ => f
           end in
  classify_flow s.(config) (pressure_state s) now
    (if negb f.(in_active_ring) then set_in_active_ring true f else f).

Lemma admitted_fairness_fields w fr now e s :
  let f := admitted_fairness w fr now e s in
  f.(pending_bytes) = sat_add 64 e.(fairness).(pending_bytes) (queued_bytes fr) /\
  f.(in_active_ring) = true /\ f.(bucket_id) = e.(fairness).(bucket_id) /\
  f.(deficit_bytes) =
    if sat_add 64 e.(fairness).(pending_bytes) (queued_bytes fr) =? 0 then 0
    else e.(fairness).(deficit_bytes).
Proof.
  cbv zeta. unfold admitted_fairness. autorewrite with fairness.
  destruct e as [[? ? ? ? started ? ? ? ? ? ? ? ? ? ? ring] q]; cbn.
  by destruct started, ring.
Qed.

(** [enqueue_into] either rejects, changing at most the weight of the flow, or
    appends the frame. *)
Lemma enqueue_into_cases id w fr now e s :
  e.(fairness).(bucket_id) = home_bucket s.(config) id ->
  let touched := put_flow id (mkFlowEntry
    (set_weight_quanta (Z.max e.(fairness).(weight_quanta) w) e.(fairness)) e.(queue)) s in
  let r := enqueue_into id (home_bucket s.(config) id) w fr now e s in
  (r.2 <> Admit /\ r.1 = evaluate_pressure now true (count_reject now touched)) \/
  (sat_add 64 e.(fairness).(pending_bytes) (queued_bytes fr) <= s.(config).(max_flow_queued_bytes) /\
   r = (evaluate_pressure now true
          (grow_flow id (queued_bytes fr) e (admitted_fairness w fr now e s) (e.(queue) ++ [fr]) s),
        Admit)).
Proof.
  intros Hb. cbv zeta. unfold enqueue_into.
  case_match eqn:Hcap; [left; split; done|].
  case_match eqn:Hst; [left; split; done|].
  right. split; [apply Z.ltb_ge in Hcap; exact Hcap|].
  unfold grow_flow, admitted_fairness.
  destruct e as [[? ? ? ? started ? ? ? ? ? ? ? ? ? ? ring] q]. by destruct started, ring.
Qed.

Lemma enqueue_into_Inv id w fr now e s :
  Inv s -> s.(flows) !! id = Some e -> qf_conn_id fr = id ->
  sat_add 64 s.(total_queued_bytes) (queued_bytes fr) <= s.(config).(max_total_queued_bytes) ->
  Inv (enqueue_into id (home_bucket s.(config) id) w fr now e s).1.
Proof.
  intros I He Hid Htot.
  pose proof (inv_flow I id e He) as Hf. pose proof (inv_cfg I) as Hcfg.
  destruct (enqueue_into_cases id w fr now e s (fo_bucket Hf)) as [[_ ->]|[Hcap ->]].
  - assert (J := Inv_touch s id e
      (set_weight_quanta (Z.max e.(fairness).(weight_quanta) w) e.(fairness)) I He).
    unfold apply_flow_membership_delta, apply_count_delta in J. simpl in J.
    rewrite !Bool.eqb_reflx in J. apply J. destruct Hf. by split.
  - pose proof (queued_bytes_nonneg fr) as Hfr. pose proof (co_flow Hcfg) as HcF.
    rewrite (sat_add_guard 64 _ _ i64_max) in Hcap by (machine_lia || lia).
    destruct (admitted_fairness_fields w fr now e s) as (Hp & Hr & Hb & Hd).
    rewrite sat_add_exact in Hp by machine_lia.
    apply (Inv_grow s id _ e); try done.
    + destruct Hf as [? ? ? ? ? ?]. split; simpl; try congruence.
      * rewrite Hp, frames_bytes_app; simpl. lia.
      * rewrite Hr. symmetry. apply negb_true_iff, bool_decide_eq_false_2. by destruct (queue e).
      * rewrite Hd. case_match; [unfold max_deficit; machine_lia | done].
      * apply Forall_app. split; [done|]. by constructor.
    + rewrite frames_bytes_app. simpl. lia.
    + rewrite <- (sat_add_guard 64 _ _ _ (proj2 (co_total Hcfg)) Htot). done.
Qed.

Lemma bucket_for_home s id : Inv s -> bucket_for s id = home_bucket s.(config) id.
Proof.
  intros I. unfold bucket_for, home_bucket. rewrite (inv_bq_len I).
  unfold bucket_count. do 3 f_equal. lia.
Qed.

Lemma enqueue_data_Inv id flags data now s : Inv s -> Inv (enqueue_data id flags data now s).1.
Proof.
  intros I. unfold enqueue_data. rewrite (bucket_for_home s id I).
  set (fr := mkQueuedFrame id flags data now).
  case_match; [exact I|]. case_match eqn:Htot; [exact I|]. case_match eqn:Hact; [exact I|].
  case_match; [exact I|].
  apply Z.ltb_ge in Htot.
  destruct (flows s !! id) as [e|] eqn:He.
  - by apply enqueue_into_Inv.
  - rewrite bool_decide_eq_true_2 in Hact by done. simpl in Hact. apply Z.leb_gt in Hact.
    set (s0 := put_flow id _ _).
    assert (I0 : Inv s0) by (by apply InvC_add_flow).
    change (config s) with (config s0).
    apply (enqueue_into_Inv id (weight_for_flags (config s) flags) fr now _ s0 I0); try done.
    unfold s0. simpl. by rewrite lookup_insert_eq.
Qed.

(** * Visiting the head of the ring *)

(** The deficit a visited flow has once its quantum has been granted. *)
Definition granted_deficit (c : WorkerFairnessConfig) (ps : PressureState) (now : Instant)
    (e : FlowEntry) : Z :=
  let f := classify_flow c ps now (set_in_active_ring false e.(fairness)) in
  clamp 0 (max_deficit c) (i64_sat_add f.(deficit_bytes) (effective_quantum_bytes c ps f)).

(** A visit to a backlogged flow either skips it, keeping its queue and the
    granted deficit, or takes the head of its queue. *)
Lemma visit_flow_cases c ps now id e front rest :
  cfg_ok c -> flow_ok c id e -> e.(queue) = front :: rest ->
  let v := visit_flow c ps now e in
  flow_ok c id (fv_entry v) /\ fv_continue v = false /\
  ((granted_deficit c ps now e < queued_bytes front /\
    (fv_entry v).(queue) = front :: rest /\ fv_requeue v = true /\ fv_drained v = 0 /\
    fv_candidate v = None /\
    (fv_entry v).(fairness).(deficit_bytes) = granted_deficit c ps now e) \/
   (queued_bytes front <= granted_deficit c ps now e /\
    (fv_entry v).(queue) = rest /\ fv_requeue v = negb (bool_decide (rest = [])) /\
    fv_drained v = queued_bytes front /\
    exists cls, fv_candidate v = Some (mkCandidate front ps cls))).
Proof.
  intros Hc Hf Hq. cbv zeta. unfold visit_flow. rewrite Hq.
  pose proof (co_flow Hc) as HcF.
  pose proof (frames_bytes_nonneg rest) as Hrest. pose proof (queued_bytes_nonneg front) as Hfr.
  assert (Hp : pending_bytes (fairness e) = queued_bytes front + frames_bytes rest)
    by (rewrite (fo_pending Hf), Hq; done).
  pose proof (fo_pending_cap Hf) as Hcap.
  rewrite (u64_as_i64_exact (queued_bytes front)) by lia.
  set (f0 := classify_flow _ _ _ _).
  assert (H0 : pending_bytes f0 = pending_bytes (fairness e) /\
               bucket_id f0 = bucket_id (fairness e))
    by (unfold f0; autorewrite with fairness; done).
  destruct H0 as (Hp0 & Hb0).
  assert (Hd : forall d, 0 <= clamp 0 (max_deficit c) d <= max_deficit c)
    by (intros; apply flow_ok_deficit_range; lia).
  pose proof (fo_frames Hf) as Hfrs. rewrite Hq in Hfrs.
  case_match eqn:Hskip.
  - apply Z.ltb_lt in Hskip. split; [|split; [done|]].
    + destruct Hf as [? ? ? ? ? ?].
      split; cbn; rewrite ?Hp0, ?Hb0; try congruence; try apply Hd; by rewrite <- Hq.
    + left. done.
  - apply Z.ltb_ge in Hskip. apply Forall_cons_1 in Hfrs as [_ Hfrs].
    split; [|split; [done|]].
    + pose proof (fo_bucket Hf) as Hb.
      rewrite bool_decide_decide. destruct (decide (rest = [])) as [->|Hne]; cbn.
      * split; cbn; rewrite ?Hp0, ?Hb0; cbn in *; try done; unfold max_deficit; machine_lia.
      * split; cbn; rewrite ?Hp0, ?Hb0, ?bool_decide_eq_false_2; try done; try apply Hd;
          machine_lia.
    + right. cbn. repeat split; eauto.
Qed.

(** The state in which the popped ring member [id] is processed. *)
Definition popped (id : Z) (ring : list Z) (s : WorkerFairnessState) : WorkerFairnessState :=
  with_active_ring_members (s.(active_ring_members) ∖ {[id]}) (with_active_ring ring s).

Lemma head_of_ring s id ring :
  Inv s -> s.(active_ring) = id :: ring ->
  id ∈ s.(active_ring_members) /\ (id ∉ ring) /\ NoDup ring /\
  (forall j, j ∈ ring <-> j ∈ (s.(active_ring_members) ∖ {[id]})) /\
  exists e front rest, s.(flows) !! id = Some e /\ e.(queue) = front :: rest.
Proof.
  intros I Hring. pose proof (inv_ring_nodup I) as Hnd. rewrite Hring in Hnd.
  apply list.NoDup_cons in Hnd as [Hni Hnd].
  pose proof (inv_ring_members I) as Hrm. rewrite Hring in Hrm.
  assert (Hid : id ∈ active_ring_members s) by (apply Hrm; left).
  split; [done|]. split; [done|]. split; [done|]. split.
  - intros j. rewrite elem_of_difference, elem_of_singleton, <- Hrm, elem_of_cons.
    naive_solver.
  - apply (inv_members I) in Hid as (e & He & Hin).
    pose proof (fo_ring (inv_flow I id e He)) as Hr. rewrite Hin in Hr.
    destruct (queue e) as [|front rest] eqn:Hq; [done|]. by exists e, front, rest.
Qed.

(** The flow [e] of the popped ring member [id] becomes [e'], which has [n]
    bytes less, and returns to the ring if its flag says so. *)
Definition drain_flow (id n : Z) (e e' : FlowEntry) (s : WorkerFairnessState)
    : WorkerFairnessState :=
  let b := e.(fairness).(bucket_id) in
  let s := apply_flow_membership_delta (flow_membership e.(fairness))
             (flow_membership e'.(fairness)) (put_flow id e' s) in
  let s := if 0 <? n then
             set_bucket_bytes b (sat_sub (cell s.(bucket_queued_bytes) b) n)
               (with_total_queued_bytes (sat_sub s.(total_queued_bytes) n) s)
           else s in
  if e'.(fairness).(in_active_ring) then enqueue_active_conn id s else s.

Lemma drained_cells s id e n :
  Inv s -> s.(flows) !! id = Some e -> 0 <= n <= frames_bytes e.(queue) ->
  let hb := home_bucket s.(config) id in
  let bq := if 0 <? n then <[hb:=sat_sub (cell s.(bucket_queued_bytes) hb) n]>
              s.(bucket_queued_bytes) else s.(bucket_queued_bytes) in
  length bq = length s.(bucket_queued_bytes) /\
  forall b, (b < bucket_count s.(config))%nat ->
    cell bq b = cell s.(bucket_queued_bytes) b + if decide (b = hb) then - n else 0.
Proof.
  intros I He Hn. cbv zeta. pose proof (inv_bq_ge I id e He) as Hbq.
  rewrite (fo_bucket (inv_flow I id e He)) in Hbq.
  pose proof (home_bucket_lt (config s) id) as Hhb.
  destruct (Z.ltb_spec 0 n); [|split; [done|]; intros; case_decide; lia].
  rewrite length_insert. split; [done|]. intros b Hlt. case_decide as Hd.
  - subst b. rewrite cell_insert_eq by (rewrite (inv_bq_len I); done). machine_lia.
  - rewrite cell_insert_ne by done. lia.
Qed.

Lemma not_in_removed (m : gset Z) id : id ∉ m ∖ {[id]}.
Proof. set_solver. Qed.

Lemma readd_member (m : gset Z) id (b : bool) j :
  j ∈ (if b then {[id]} ∪ m ∖ {[id]} else m ∖ {[id]}) <->
  if decide (j = id) then b = true else j ∈ m.
Proof. destruct b, (decide (j = id)); set_solver. Qed.

Lemma Inv_drain s id ring e e' n :
  Inv s -> s.(active_ring) = id :: ring -> s.(flows) !! id = Some e ->
  flow_ok s.(config) id e' -> 0 <= n -> frames_bytes e'.(queue) = frames_bytes e.(queue) - n ->
  Inv (drain_flow id n e e' (popped id ring s)).
Proof.
  intros I Hring He Hf' Hn Hbytes.
  destruct (head_of_ring s id ring I Hring) as (Hid & Hni & Hnd & Hrm & _).
  pose proof (frames_bytes_nonneg (queue e')) as H0.
  destruct (drained_cells s id e n I He) as [Hlen Hcell]; [lia|].
  pose proof (inv_total_ge I id e He) as Htot. pose proof (inv_total_cap I) as Hcap.
  unfold drain_flow. rewrite (fo_bucket (inv_flow I id e He)).
  destruct (ring_append id ring (active_ring_members s ∖ {[id]}) Hnd Hrm
    (not_in_removed _ _)) as [Hnd' Hrm'].
  assert (J := fun ring' members' total' H1 H2 H3 H4 H5 => InvC_update _ _ _ _ _ _ _ _ _ id e e'
    ring' members' total' _ I He Hf' H1 H2 H3 H4 H5 Hlen).
  assert (Ht : forall t, t = (if 0 <? n then sat_sub (total_queued_bytes s) n else total_queued_bytes s) ->
    t = total_queued_bytes s - frames_bytes (queue e) + frames_bytes (queue e') /\
    t <= max_total_queued_bytes (config s)).
  { intros t ->. destruct (Z.ltb_spec 0 n); machine_lia. }
  assert (Hc : forall b, (b < bucket_count (config s))%nat ->
    (if decide (b = home_bucket (config s) id) then - n else 0) =
    if decide (b = home_bucket (config s) id)
    then frames_bytes (queue e') - frames_bytes (queue e) else 0)
    by (intros; case_decide; lia).
  assert (Hcell' := fun b Hb => eq_trans (Hcell b Hb)
    (f_equal (Z.add (cell (bucket_queued_bytes s) b)) (Hc b Hb))).
  specialize (J (if in_active_ring (fairness e') then ring ++ [id] else ring)
    (if in_active_ring (fairness e') then {[id]} ∪ active_ring_members s ∖ {[id]}
     else active_ring_members s ∖ {[id]})).
  specialize (fun H1 H2 => J _ H1 H2 (readd_member _ _ _) (proj1 (Ht _ eq_refl))
    (proj2 (Ht _ eq_refl)) Hcell').
  unfold Inv, enqueue_active_conn.
  destruct (in_active_ring (fairness e')), (0 <? n); cbn;
    rewrite ?bool_decide_eq_false_2 by apply not_in_removed; cbn; by apply J.
Qed.

Lemma after_visit_drain id e v s :
  fv_continue v = false -> fv_requeue v = (fv_entry v).(fairness).(in_active_ring) ->
  Inv (drain_flow id (fv_drained v) e (fv_entry v) s) -> Inv (after_visit id e v s).
Proof.
  intros Hc Hr. unfold after_visit, drain_flow, enqueue_active_conn. rewrite Hc, Hr.
  destruct (fv_granted v), (fv_skipped v), (in_active_ring _), (0 <? fv_drained v);
    cbn; try case_bool_decide; exact (fun J => J).
Qed.

(** * Scheduling rounds *)

(** The frames queued for a connection. *)
Definition backlog (s : WorkerFairnessState) (id : Z) : list QueuedFrame :=
  default [] (queue <$> s.(flows) !! id).

(** There is room to put the dispatched frame back. *)
Definition can_return (s : WorkerFairnessState) (cand : DispatchCandidate) : Prop :=
  let n := queued_bytes (dc_frame cand) in
  exists e, s.(flows) !! qf_conn_id (dc_frame cand) = Some e /\
    e.(fairness).(pending_bytes) + n <= s.(config).(max_flow_queued_bytes) /\
    s.(total_queued_bytes) + n <= s.(config).(max_total_queued_bytes).

(** What a round does to the queues, for either decision. *)
Definition round_effect (s s' : WorkerFairnessState) (d : SchedulerDecision) : Prop :=
  match d with
  | SdIdle => forall id, backlog s' id = backlog s id
  | SdDispatch cand =>
      let id := qf_conn_id (dc_frame cand) in
      backlog s id = dc_frame cand :: backlog s' id /\
      (forall j, j <> id -> backlog s' j = backlog s j) /\ can_return s' cand
  end.

Lemma backlog_put id e s j :
  backlog (put_flow id e s) j = if decide (j = id) then e.(queue) else backlog s j.
Proof.
  unfold backlog, put_flow. simpl. case_decide as Hj.
  - subst j. by rewrite lookup_insert_eq.
  - by rewrite lookup_insert_ne.
Qed.

Lemma after_visit_frame id e v s :
  (after_visit id e v s).(flows) = <[id:=fv_entry v]> s.(flows) /\
  (after_visit id e v s).(config) = s.(config) /\
  (after_visit id e v s).(pressure) = s.(pressure) /\
  (fv_continue v = false ->
   (after_visit id e v s).(total_queued_bytes) =
   if 0 <? fv_drained v then sat_sub s.(total_queued_bytes) (fv_drained v)
   else s.(total_queued_bytes)).
Proof.
  unfold after_visit, enqueue_active_conn.
  destruct (fv_granted v), (fv_skipped v), (fv_continue v), (fv_requeue v), (0 <? fv_drained v);
    cbn; try case_bool_decide; done.
Qed.

(** One iteration of the loop from a consistent state with a non-empty ring. *)
Lemma loop_unfold n now s id ring :
  Inv s -> s.(active_ring) = id :: ring ->
  exists e front rest,
    s.(flows) !! id = Some e /\ e.(queue) = front :: rest /\
    let v := visit_flow s.(config) (pressure_state s) now e in
    let s1 := after_visit id e v (popped id ring s) in
    Inv s1 /\
    next_decision_loop (S n) now s =
      match fv_candidate v with
      | Some cand => (s1, SdDispatch cand)
      | None => next_decision_loop n now s1
      end.
Proof.
  intros I Hring.
  destruct (head_of_ring s id ring I Hring) as (Hid & _ & _ & _ & e & front & rest & He & Hq).
  exists e, front, rest. split; [done|]. split; [done|]. cbv zeta.
  pose proof (inv_flow I id e He) as Hf.
  destruct (visit_flow_cases _ (pressure_state s) now id e front rest (inv_cfg I) Hf Hq)
    as (Hf' & Hcont & Hcase).
  split.
  - apply after_visit_drain; [done| |].
    + rewrite (fo_ring Hf').
      destruct Hcase as [(_ & -> & -> & _)|(_ & -> & -> & _)]; done.
    + apply Inv_drain; try done.
      * pose proof (queued_bytes_nonneg front).
        destruct Hcase as [(_ & _ & _ & -> & _)|(_ & _ & _ & -> & _)]; lia.
      * rewrite Hq. destruct Hcase as [(_ & -> & _ & -> & _)|(_ & -> & _ & -> & _)]; cbn; lia.
  - cbn [next_decision_loop]. rewrite Hring. cbn.
    rewrite bool_decide_eq_true_2 by done. by rewrite He.
Qed.

Lemma next_loop_spec n now s :
  Inv s ->
  let r := next_decision_loop n now s in
  Inv r.1 /\ r.1.(config) = s.(config) /\ r.1.(pressure) = s.(pressure) /\ round_effect s r.1 r.2.
Proof.
  revert s; induction n as [|n IH]; intros s I; cbv zeta; [done|].
  destruct (active_ring s) as [|id ring] eqn:Hring.
  { cbn [next_decision_loop]. rewrite Hring. done. }
  destruct (loop_unfold n now s id ring I Hring) as (e & front & rest & He & Hq & I1 & ->).
  pose proof (inv_flow I id e He) as Hf.
  destruct (visit_flow_cases _ (pressure_state s) now id e front rest (inv_cfg I) Hf Hq)
    as (Hf' & Hcont & Hcase).
  set (v := visit_flow _ _ _ _) in *.
  destruct (after_visit_frame id e v (popped id ring s)) as (Hfl & Hcfg & Hpr & Htot).
  specialize (Htot Hcont).
  set (s1 := after_visit id e v (popped id ring s)) in *.
  assert (Hback : forall j, backlog s1 j = if decide (j = id) then (fv_entry v).(queue) else backlog s j).
  { intros j. rewrite <- (backlog_put id (fv_entry v) s). unfold backlog. by rewrite Hfl. }
  assert (Hback0 : backlog s id = front :: rest) by (unfold backlog; by rewrite He).
  destruct Hcase as [(_ & Hq' & _ & _ & -> & _)|(_ & Hq' & _ & Hdr & cls & ->)].
  - destruct (IH s1 I1) as (IR & Hc & Hp & Heff). rewrite Hcfg in Hc. rewrite Hpr in Hp.
    split; [done|]. split; [done|]. split; [done|].
    assert (Hsame : forall j, backlog s1 j = backlog s j)
      by (intros j; rewrite Hback; case_decide; [subst j; congruence | done]).
    unfold round_effect in *. destruct (next_decision_loop n now s1).2 as [|cand].
    + intros j. by rewrite Heff, Hsame.
    + rewrite <- Hsame. destruct Heff as (? & Hoth & ?). split; [done|]. split; [|done].
      intros j Hj. by rewrite Hoth, Hsame.
  - cbn. split; [done|]. split; [done|]. split; [done|].
    assert (Hconn : qf_conn_id front = id)
      by (pose proof (fo_frames Hf) as F; rewrite Hq in F; by inversion F).
    rewrite Hconn. split; [|split].
    + rewrite Hback, decide_True, Hback0, Hq' by done. done.
    + intros j Hj. by rewrite Hback, decide_False.
    + exists (fv_entry v). cbn. rewrite Hconn, Hfl, lookup_insert_eq, Hcfg, (fo_pending Hf'), Hq', Htot, Hdr.
      split; [done|].
      pose proof (fo_pending_cap Hf) as Hcap. rewrite (fo_pending Hf), Hq in Hcap.
      pose proof (inv_total_cap I). pose proof (inv_total_ge I id e He) as Hge.
      rewrite Hq in Hge. cbn in *. pose proof (queued_bytes_nonneg front).
      pose proof (frames_bytes_nonneg rest).
      split; [lia|]. destruct (Z.ltb_spec 0 (queued_bytes front)); machine_lia.
Qed.

Lemma next_decision_spec now s :
  Inv s ->
  let r := next_decision now s in
  Inv r.1 /\ r.1.(config) = s.(config) /\ round_effect s r.1 r.2.
Proof.
  intros I. cbv zeta. unfold next_decision.
  set (s0 := evaluate_pressure _ _ _).
  assert (I0 : Inv s0) by exact I.
  destruct (next_loop_spec (length s0.(active_ring)) now s0 I0) as (? & ? & _ & ?). done.
Qed.

(** * Feedback *)

(** A flow whose queue is kept stays well formed under any change of its
    statistics and classification. *)
Lemma flow_ok_same_queue c id e f :
  cfg_ok c -> flow_ok c id e ->
  f.(pending_bytes) = e.(fairness).(pending_bytes) ->
  f.(in_active_ring) = e.(fairness).(in_active_ring) ->
  f.(bucket_id) = e.(fairness).(bucket_id) ->
  f.(deficit_bytes) = 0 \/ f.(deficit_bytes) = e.(fairness).(deficit_bytes) ->
  flow_ok c id (mkFlowEntry f e.(queue)).
Proof.
  intros Hc [? ? ? ? ? ?] Hp Hr Hb Hd. split; simpl; try congruence.
  destruct Hd as [->| ->]; [|done]. pose proof (co_flow Hc). unfold max_deficit. machine_lia.
Qed.

Lemma feedback_routed_Inv id cand now s : Inv s -> Inv (feedback_routed id cand now s).1.
Proof.
  intros I. unfold feedback_routed. destruct (flows s !! id) as [e|] eqn:He; [|exact I].
  apply (Inv_touch s id e _ I He).
  apply flow_ok_same_queue; [apply I | by apply (inv_flow I) | ..];
    autorewrite with fairness; case_bool_decide; simpl; try done; case_match; auto.
Qed.

(** The fairness state of a flow that refused a frame, before classification. *)
Definition stalled_fairness (bp : bool) (f : FlowFairnessState) : FlowFairnessState :=
  if bp then
    set_pressure_class FpcBackpressured (set_scheduler_state FsBackpressured
      (set_consecutive_stalls (sat_add 8 f.(consecutive_stalls) 1) f))
  else f.

(** The fairness state of a flow that gets its frame back. *)
Definition returned_fairness (fr : QueuedFrame) (bp : bool) (f : FlowFairnessState)
    : FlowFairnessState :=
  let f := stalled_fairness bp f in
  let f := set_pending_bytes (sat_add 64 f.(pending_bytes) (queued_bytes fr)) f in
  let f := set_queue_started_at (Some (qf_enqueued_at fr)) f in
  if f.(in_active_ring) then f else set_in_active_ring true f.

(** The state after the bookkeeping of a stall, before the flow is rewritten. *)
Definition stall_counted (now : Instant) (s : WorkerFairnessState) : WorkerFairnessState :=
  if s.(config).(backpressure_enabled) then
    with_downstream_stalls (sat_add 64 s.(downstream_stalls) 1)
      (with_pressure (note_route_stall now s.(config).(cfg_pressure) s.(pressure)) s)
  else s.

Definition shed_counted (s : WorkerFairnessState) : WorkerFairnessState :=
  with_fairness_penalties (sat_add 64 s.(fairness_penalties) 1)
    (with_shed_drops (sat_add 64 s.(shed_drops) 1) s).

(** The two states a full queue leads to: the frame is shed, or it is put back
    at the head of its flow. *)
Definition shed_state (id : Z) (now : Instant) (e : FlowEntry) (s : WorkerFairnessState)
    : WorkerFairnessState :=
  let f := classify_flow s.(config) (pressure_state (stall_counted now s)) now
             (stalled_fairness s.(config).(backpressure_enabled) e.(fairness)) in
  apply_flow_membership_delta (flow_membership e.(fairness)) (flow_membership f)
    (put_flow id (mkFlowEntry f e.(queue)) (shed_counted (stall_counted now s))).

Definition returned_state (id : Z) (fr : QueuedFrame) (now : Instant) (e : FlowEntry)
    (s : WorkerFairnessState) : WorkerFairnessState :=
  let f := classify_flow s.(config) (pressure_state (stall_counted now s)) now
             (returned_fairness fr s.(config).(backpressure_enabled) e.(fairness)) in
  grow_flow id (queued_bytes fr) e f (fr :: e.(queue)) (stall_counted now s).

Lemma stall_counted_fields now s :
  let s' := stall_counted now s in
  s'.(config) = s.(config) /\ s'.(flows) = s.(flows) /\
  s'.(total_queued_bytes) = s.(total_queued_bytes) /\ (Inv s -> Inv s').
Proof. unfold stall_counted. by destruct (backpressure_enabled (config s)). Qed.

Lemma feedback_queue_full_cases id cand now s e :
  s.(flows) !! id = Some e -> e.(fairness).(bucket_id) = home_bucket s.(config) id ->
  exists s' close,
    ((s' = shed_state id now e s /\ s.(config).(backpressure_enabled) = true) \/
     s' = returned_state id (dc_frame cand) now e s) /\
    (close = true -> s.(config).(backpressure_enabled) = true) /\
    feedback_queue_full id cand now s =
      (if (close : bool) then (evaluate_pressure now true (remove_flow id s'), ActCloseFlow)
       else (evaluate_pressure now true s', ActContinue)).
Proof.
  intros He Hb. destruct (stall_counted_fields now s) as (Hc & Hfl & _ & _).
  unfold feedback_queue_full, shed_state, returned_state, returned_fairness.
  fold (stall_counted now s). cbv zeta. rewrite Hfl, He.
  fold (stalled_fairness (backpressure_enabled (config s)) (fairness e)).
  set (f0 := stalled_fairness _ (fairness e)) in *.
  assert (Hr0 : in_active_ring f0 = in_active_ring (fairness e))
    by (unfold f0, stalled_fairness; by case_match).
  assert (Hb0 : bucket_id f0 = home_bucket (config s) id)
    by (rewrite <- Hb; unfold f0, stalled_fairness; by case_match).
  match goal with |- context [if ?b && (?x || ?y) then _ else _] =>
    destruct (b && (x || y)) eqn:Hshed end.
  - assert (Hbp : backpressure_enabled (config s) = true) by exact (proj1 (andb_prop _ _ Hshed)).
    eexists _, _. split; [left; split; [reflexivity | done]|]. split; [done|]. reflexivity.
  - unfold grow_flow. rewrite Hc, <- Hr0, <- Hb0. cbn -[sat_add classify_flow f0].
    destruct (in_active_ring f0); (eexists _, _; split; [right; reflexivity|];
      split; [|reflexivity]); intros [[? _]%andb_prop _]%andb_prop; done.
Qed.

Lemma returned_fairness_fields fr bp f :
  let f' := returned_fairness fr bp f in
  f'.(pending_bytes) = sat_add 64 f.(pending_bytes) (queued_bytes fr) /\
  f'.(in_active_ring) = true /\ f'.(bucket_id) = f.(bucket_id) /\
  f'.(deficit_bytes) = f.(deficit_bytes).
Proof.
  unfold returned_fairness, stalled_fairness.
  destruct f as [? ? ? ? ? ? ? ? ? ? ? ? ? ? ? ring]. by destruct bp, ring.
Qed.

Lemma returned_state_Inv id fr now e s :
  Inv s -> s.(flows) !! id = Some e -> qf_conn_id fr = id ->
  e.(fairness).(pending_bytes) + queued_bytes fr <= s.(config).(max_flow_queued_bytes) ->
  s.(total_queued_bytes) + queued_bytes fr <= s.(config).(max_total_queued_bytes) ->
  Inv (returned_state id fr now e s).
Proof.
  intros I He Hid Hcap Htot.
  pose proof (inv_flow I id e He) as [Hp ? ? ? ? ?]. pose proof (co_flow (inv_cfg I)).
  pose proof (queued_bytes_nonneg fr). pose proof (frames_bytes_nonneg (queue e)).
  destruct (stall_counted_fields now s) as (Hc & Hfl & Ht & Hinv).
  destruct (returned_fairness_fields fr (backpressure_enabled (config s)) (fairness e))
    as (Hp' & Hr' & Hb' & Hd').
  rewrite sat_add_exact in Hp' by machine_lia.
  apply Inv_grow; rewrite ?Ht, ?Hc, ?Hfl; try done; [by apply Hinv | | cbn; lia | by rewrite classify_ring].
  split; cbn; autorewrite with fairness; rewrite ?Hp', ?Hr', ?Hb', ?Hd'; try done; try lia.
  - case_match; [unfold max_deficit; machine_lia | done].
  - by constructor.
Qed.

Lemma shed_state_Inv id now e s : Inv s -> s.(flows) !! id = Some e -> Inv (shed_state id now e s).
Proof.
  intros I He. destruct (stall_counted_fields now s) as (Hc & Hfl & _ & Hinv).
  apply (Inv_touch (shed_counted (stall_counted now s)) id e).
  - exact (Hinv I).
  - cbn. by rewrite Hfl.
  - cbn. rewrite Hc. apply flow_ok_same_queue; [apply I | by apply (inv_flow I) | ..];
      autorewrite with fairness; unfold stalled_fairness; case_match; cbn; try done;
      case_match; auto.
Qed.

Lemma feedback_queue_full_Inv id cand now s :
  Inv s -> qf_conn_id (dc_frame cand) = id -> can_return s cand ->
  Inv (feedback_queue_full id cand now s).1.
Proof.
  intros I Hid (e & He & Hcap & Htot). rewrite Hid in He.
  destruct (feedback_queue_full_cases id cand now s e He (fo_bucket (inv_flow I id e He)))
    as (s' & close & Hs' & _ & ->).
  assert (I' : Inv s').
  { destruct Hs' as [[-> _]| ->]; [by apply shed_state_Inv | by apply returned_state_Inv]. }
  destruct close; cbn; [by apply (remove_flow_Inv id s') | exact I'].
Qed.

(** A connection that has disappeared is left alone. *)
Lemma feedback_queue_full_missing id cand now s :
  Inv s -> s.(flows) !! id = None -> Inv (feedback_queue_full id cand now s).1.
Proof.
  intros I He. destruct (stall_counted_fields now s) as (_ & Hfl & _ & Hinv).
  unfold feedback_queue_full. fold (stall_counted now s). rewrite Hfl, He. exact (Hinv I).
Qed.

Lemma apply_dispatch_feedback_Inv id cand fb now s :
  Inv s -> qf_conn_id (dc_frame cand) = id -> can_return s cand ->
  Inv (apply_dispatch_feedback id cand fb now s).1.
Proof.
  intros I Hid Hret. destruct fb; cbn [apply_dispatch_feedback].
  - by apply feedback_routed_Inv.
  - by apply feedback_queue_full_Inv.
  - by apply (remove_flow_Inv id s).
  - by apply (remove_flow_Inv id s).
Qed.

Lemma set_backpressure_Inv b now s : Inv s -> Inv (set_backpressure_enabled b now s).
Proof.
  intros I. unfold set_backpressure_enabled. case_match; [exact I|].
  destruct I as [[] ? ? ? Hf]. split; try done. intros id e He. by destruct (Hf id e He).
Qed.

Lemma worker_new_Inv c now : cfg_ok c -> Inv (worker_new c now).
Proof.
  intros Hc. split; cbn; rewrite ?map_sum_empty; try done.
  - by destruct Hc.
  - constructor.
  - intros id. split; [by intros ?%elem_of_nil | set_solver].
  - intros id. split; [set_solver | intros (e & He & _); by rewrite lookup_empty in He].
  - apply Hc.
  - apply Hc.
  - by rewrite length_replicate.
  - by rewrite length_replicate.
  - intros. by rewrite cell_replicate, map_sum_empty.
  - intros. by rewrite cell_replicate, map_sum_empty.
Qed.
