(* ===== verification/FairnessContract.v ===== *)
(** What the fair scheduler promises to the reader loop that drives it.

    The contract is a type class over an abstract scheduler state: every
    connection has a FIFO backlog, and each operation changes the backlogs as
    an ordinary queue would.  The instance at the end shows that the scheduler
    of [FairnessScheduler] meets it; [Reader] is proved against the class. *)

From stdpp Require Import base list gmap numbers.
From S2P Require Import Prelude FairnessModel FairnessPressure FairnessScheduler FairnessInvariant.
Local Open Scope Z_scope.

(** * The interface *)

Class FairSchedulerOps (S : Type) := {
  op_enqueue : Z -> Z -> list Z -> Instant -> S -> S * AdmissionDecision;
  op_next : Instant -> S -> S * SchedulerDecision;
  op_feedback : Z -> DispatchCandidate -> DispatchFeedback -> Instant -> S -> S * DispatchAction;
  op_remove : Z -> S -> S;
  op_set_backpressure : bool -> Instant -> S -> S;
  op_pressure : S -> PressureState;
  op_snapshot : S -> WorkerFairnessSnapshot;
}.

(** Only the backlog of [id] may differ between the two states. *)
Definition others_kept {S} (bl : S -> Z -> list QueuedFrame) (id : Z) (s s' : S) : Prop :=
  forall j, j <> id -> bl s' j = bl s j.

Class FairScheduler (S : Type) `{FairSchedulerOps S} := {
  sched_ok : S -> Prop;
  sched_backlog : S -> Z -> list QueuedFrame;
  sched_holds : S -> DispatchCandidate -> Prop;

  enqueue_law s id flags data now :
    sched_ok s ->
    let r := op_enqueue id flags data now s in
    sched_ok r.1 /\ others_kept sched_backlog id s r.1 /\
    sched_backlog r.1 id =
      sched_backlog s id ++
      (if bool_decide (r.2 = Admit) then [mkQueuedFrame id flags data now] else []);

  next_law s now :
    sched_ok s ->
    let r := op_next now s in
    sched_ok r.1 /\
    match r.2 with
    | SdIdle => forall id, sched_backlog r.1 id = sched_backlog s id
    | SdDispatch cand =>
        let id := qf_conn_id (dc_frame cand) in
        sched_backlog s id = dc_frame cand :: sched_backlog r.1 id /\
        others_kept sched_backlog id s r.1 /\ sched_holds r.1 cand
    end;

  feedback_law s cand fb now :
    let id := qf_conn_id (dc_frame cand) in
    sched_ok s -> sched_holds s cand ->
    let r := op_feedback id cand fb now s in
    sched_ok r.1 /\ others_kept sched_backlog id s r.1 /\
    match fb, r.2 with
    | FbRouted, a => a = ActContinue /\ sched_backlog r.1 id = sched_backlog s id
    | FbQueueFull, ActContinue =>
        sched_backlog r.1 id = dc_frame cand :: sched_backlog s id \/
        sched_backlog r.1 id = sched_backlog s id
    | _, a => a = ActCloseFlow /\ sched_backlog r.1 id = []
    end;

  remove_law s id :
    sched_ok s ->
    sched_ok (op_remove id s) /\ others_kept sched_backlog id s (op_remove id s) /\
    sched_backlog (op_remove id s) id = [];

  set_backpressure_law s b now :
    sched_ok s ->
    sched_ok (op_set_backpressure b now s) /\
    forall id, sched_backlog (op_set_backpressure b now s) id = sched_backlog s id;

  snapshot_law s :
    sched_ok s ->
    (forall id, frames_bytes (sched_backlog s id) <= snap_total_queued_bytes (op_snapshot s));
}.

(** * The scheduler meets it *)

#[export] Instance worker_ops : FairSchedulerOps WorkerFairnessState := {
  op_enqueue := enqueue_data;
  op_next := next_decision;
  op_feedback := apply_dispatch_feedback;
  op_remove := remove_flow;
  op_set_backpressure := set_backpressure_enabled;
  op_pressure := pressure_state;
  op_snapshot := snapshot;
}.

(** ** Effect of each operation on the flow table *)

Lemma backlog_flows s s' id : s'.(flows) = s.(flows) -> backlog s' id = backlog s id.
Proof. unfold backlog. by intros ->. Qed.

(** Every backlog after a write of [e] for [id]. *)
Lemma backlog_insert s s' id f q :
  s'.(flows) = <[id:=mkFlowEntry f q]> s.(flows) ->
  others_kept backlog id s s' /\ backlog s' id = q.
Proof.
  intros Hfl. split.
  - intros j Hj. unfold backlog. by rewrite Hfl, lookup_insert_ne.
  - unfold backlog. by rewrite Hfl, lookup_insert_eq.
Qed.

Lemma grow_flow_flows id n e f q s :
  (grow_flow id n e f q s).(flows) = <[id:=mkFlowEntry f q]> s.(flows).
Proof. unfold grow_flow, enqueue_active_conn. case_match; [case_match|]; done. Qed.

Lemma remove_flow_backlog id s :
  backlog (remove_flow id s) id = [] /\ others_kept backlog id s (remove_flow id s).
Proof.
  unfold remove_flow. destruct (flows s !! id) as [e|] eqn:He.
  - destruct (flow_membership (fairness e)) as [[] []]; split; unfold backlog, others_kept; cbn;
      try (by rewrite lookup_delete_eq); intros; by rewrite lookup_delete_ne.
  - split; [|done]. unfold backlog. by rewrite He.
Qed.

Lemma enqueue_into_backlog id w fr now e s :
  e.(fairness).(bucket_id) = home_bucket s.(config) id -> s.(flows) !! id = Some e ->
  let r := enqueue_into id (home_bucket s.(config) id) w fr now e s in
  others_kept backlog id s r.1 /\
  backlog r.1 id = backlog s id ++ (if bool_decide (r.2 = Admit) then [fr] else []).
Proof.
  intros Hb He r. assert (Hq : backlog s id = queue e) by (unfold backlog; by rewrite He).
  unfold r. destruct (enqueue_into_cases id w fr now e s Hb) as [[Hrej Heq]|[_ ->]].
  - rewrite bool_decide_eq_false_2, app_nil_r, Heq, Hq by done.
    eapply backlog_insert. reflexivity.
  - cbn. rewrite Hq. eapply backlog_insert, grow_flow_flows.
Qed.

Lemma enqueue_data_backlog id flags data now s :
  Inv s ->
  let r := enqueue_data id flags data now s in
  others_kept backlog id s r.1 /\
  backlog r.1 id =
    backlog s id ++ (if bool_decide (r.2 = Admit) then [mkQueuedFrame id flags data now] else []).
Proof.
  intros I r. unfold r, enqueue_data. rewrite (bucket_for_home s id I).
  set (fr := mkQueuedFrame id flags data now).
  do 4 (case_match; [cbn; by rewrite app_nil_r|]).
  destruct (flows s !! id) as [e|] eqn:He.
  - by apply enqueue_into_backlog; [apply (fo_bucket (inv_flow I id e He))|].
  - set (s0 := put_flow id _ _).
    destruct (enqueue_into_backlog id (weight_for_flags (config s) flags) fr now
      (flow_entry_new id (worker_id (config s)) (home_bucket (config s) id)
         (weight_for_flags (config s) flags)) s0) as [Hoth Hid].
    + done.
    + cbn. by rewrite lookup_insert_eq.
    + split.
      * intros j Hj. etrans; [exact (Hoth j Hj)|]. unfold backlog. cbn. by rewrite lookup_insert_ne.
      * etrans; [exact Hid|]. apply (f_equal2 app); [|done].
        unfold backlog. cbn. by rewrite lookup_insert_eq, He.
Qed.

Lemma feedback_backlog cand fb now s :
  let id := qf_conn_id (dc_frame cand) in
  Inv s -> can_return s cand ->
  let r := apply_dispatch_feedback id cand fb now s in
  others_kept backlog id s r.1 /\
  match fb, r.2 with
  | FbRouted, a => a = ActContinue /\ backlog r.1 id = backlog s id
  | FbQueueFull, ActContinue =>
      backlog r.1 id = dc_frame cand :: backlog s id \/ backlog r.1 id = backlog s id
  | _, a => a = ActCloseFlow /\ backlog r.1 id = []
  end.
Proof.
  intros id I (e & He & _ & _) r. fold id in He.
  assert (Hq : backlog s id = queue e) by (unfold backlog; by rewrite He).
  destruct fb; cbn [apply_dispatch_feedback] in r.
  - subst r. unfold feedback_routed. rewrite He.
    rewrite Hq. edestruct (backlog_insert s) as [H1 H2]; cycle 1.
    + split; [exact H1 | split; [done | exact H2]].
    + reflexivity.
  - destruct (feedback_queue_full_cases id cand now s e He (fo_bucket (inv_flow I id e He)))
      as (s' & close & Hs' & _ & Heq). unfold r. rewrite Heq.
    assert (Hfl : exists f q, (q = queue e \/ q = dc_frame cand :: queue e) /\
      flows s' = <[id:=mkFlowEntry f q]> (flows s)).
    { destruct (stall_counted_fields now s) as (_ & Hst & _).
      destruct Hs' as [[-> _]| ->].
      - eexists _, (queue e). split; [by left|]. rewrite <- Hst. reflexivity.
      - eexists _, (_ :: queue e). split; [by right|]. rewrite <- Hst. apply grow_flow_flows. }
    destruct Hfl as (f & q & Hqs & Hfl).
    destruct (backlog_insert s s' id _ _ Hfl) as [Hoth Hid].
    destruct close; cbn.
    + destruct (remove_flow_backlog id s') as [Hr1 Hr2].
      split; [|done]. intros j Hj. rewrite <- (Hoth j Hj). exact (Hr2 j Hj).
    + split; [exact Hoth|]. rewrite Hq. destruct Hqs as [->| ->]; auto.
  - destruct (remove_flow_backlog id s). done.
  - destruct (remove_flow_backlog id s). done.
Qed.

#[export] Program Instance worker_fair : FairScheduler WorkerFairnessState := {
  sched_ok := Inv;
  sched_backlog := backlog;
  sched_holds := can_return;
}.
Next Obligation.
  intros s id flags data now I. split; [by apply enqueue_data_Inv|]. by apply enqueue_data_backlog.
Qed.
Next Obligation. intros s now I. by destruct (next_decision_spec now s I) as (? & _ & ?). Qed.
Next Obligation.
  intros s cand fb now id I H. split; [by apply apply_dispatch_feedback_Inv|].
  by apply feedback_backlog.
Qed.
Next Obligation.
  intros s id I. split; [by apply remove_flow_Inv|]. by destruct (remove_flow_backlog id s).
Qed.
Next Obligation.
  intros s b now I. split; [by apply set_backpressure_Inv|].
  intros id. apply backlog_flows. cbn. unfold set_backpressure_enabled. by case_match.
Qed.
Next Obligation.
  intros s I id. unfold backlog. destruct (flows s !! id) as [e|] eqn:He; cbn.
  - by apply (inv_total_ge I id).
  - apply (inv_total_nonneg I).
Qed.
