(* ===== verification/FairnessReach.v ===== *)
(** Executions of the fair scheduler under an arbitrary environment, and the
    properties of every state they reach. *)

From stdpp Require Import base list gmap numbers.
From S2P Require Import Prelude FairnessModel FairnessPressure FairnessScheduler FairnessInvariant FairnessContract.
Local Open Scope Z_scope.

(** * Executions *)

(** What the reader loop can ask of its scheduler.  A round is a call of
    [next_decision] followed, when a frame is dispatched, by the feedback of
    the route. *)
Inductive SchedInput :=
  | InEnqueue (conn_id flags : Z) (data : list Z) (now : Instant)
  | InRound (now : Instant) (fb : DispatchFeedback)
  | InRemove (conn_id : Z)
  | InBackpressure (enabled : bool) (now : Instant).

(** One input; the result carries the frame the round has dispatched. *)
Definition exec_input (i : SchedInput) (s : WorkerFairnessState)
    : WorkerFairnessState * option QueuedFrame :=
  match i with
  | InEnqueue id flags data now => ((enqueue_data id flags data now s).1, None)
  | InRound now fb =>
      match next_decision now s with
      | (s, SdIdle) => (s, None)
      | (s, SdDispatch cand) =>
          ((apply_dispatch_feedback (qf_conn_id (dc_frame cand)) cand fb now s).1,
           Some (dc_frame cand))
      end
  | InRemove id => (remove_flow id s, None)
  | InBackpressure b now => (set_backpressure_enabled b now s, None)
  end.

Fixpoint exec_inputs (l : list SchedInput) (s : WorkerFairnessState)
    : WorkerFairnessState * list QueuedFrame :=
  match l with
  | [] => (s, [])
  | i :: l =>
      let '(s, o) := exec_input i s in
      let '(s, out) := exec_inputs l s in
      (s, match o with Some fr => fr :: out | None => out end)
  end.

Inductive reachable (c : WorkerFairnessConfig) : WorkerFairnessState -> Prop :=
  | reach_new now : reachable c (worker_new c now)
  | reach_step i s : reachable c s -> reachable c (exec_input i s).1.

Lemma exec_input_Inv i s : Inv s -> Inv (exec_input i s).1.
Proof.
  intros I. destruct i as [id flags data now|now fb|id|b now]; cbn [exec_input fst].
  - by apply enqueue_data_Inv.
  - destruct (next_decision_spec now s I) as (I1 & _ & Heff).
    destruct (next_decision now s) as [s1 [|cand]]; cbn [fst snd] in *; [done|].
    destruct Heff as (_ & _ & Hret). by apply apply_dispatch_feedback_Inv.
  - by apply remove_flow_Inv.
  - by apply set_backpressure_Inv.
Qed.

Lemma reachable_invariant c s : cfg_ok c -> reachable c s -> Inv s.
Proof.
  intros Hc. induction 1 as [now|i s _ IH].
  - by apply worker_new_Inv.
  - by apply exec_input_Inv.
Qed.

Lemma exec_inputs_reachable c l s : reachable c s -> reachable c (exec_inputs l s).1.
Proof.
  revert s. induction l as [|i l IH]; intros s Hs; cbn [exec_inputs]; [done|].
  pose proof (reach_step c i s Hs) as H1. destruct (exec_input i s) as [s1 o].
  specialize (IH s1 H1). by destruct (exec_inputs l s1).
Qed.

(** * The ring check of the scheduler's tests *)

Lemma ring_scan_ok s seen ring :
  Inv s -> NoDup ring -> (forall id, id ∈ ring -> id ∈ s.(active_ring) /\ id ∉ seen) ->
  ring_scan seen s ring = true.
Proof.
  intros I. revert seen. induction ring as [|id ring IH]; intros seen Hnd Hin; [done|].
  apply list.NoDup_cons in Hnd as [Hni Hnd].
  destruct (Hin id ltac:(left)) as [Hr Hns].
  assert (Hm : id ∈ active_ring_members s) by (by apply (inv_ring_members I)).
  destruct (proj1 (inv_members I id) Hm) as (e & He & Hring).
  cbn. rewrite bool_decide_eq_false_2, bool_decide_eq_true_2, He, Hring by done. cbn.
  pose proof (fo_ring (inv_flow I id e He)) as Hq. rewrite Hring in Hq.
  destruct (bool_decide (queue e = [])); [done|].
  apply IH; [done|]. intros j Hj. split; [apply Hin; by right|].
  rewrite not_elem_of_union, not_elem_of_singleton. split; [by intros ->|]. apply Hin. by right.
Qed.

Lemma flow_ring_ok s id e : Inv s -> s.(flows) !! id = Some e -> flow_ring_consistent s id e = true.
Proof.
  intros I He. unfold flow_ring_consistent.
  assert (Hm : id ∈ active_ring_members s <-> in_active_ring (fairness e) = true).
  { rewrite (inv_members I). naive_solver. }
  pose proof (fo_ring (inv_flow I id e He)) as Hq.
  destruct (in_active_ring (fairness e)).
  - rewrite bool_decide_eq_true_2 by (by apply Hm). by destruct (bool_decide (queue e = [])).
  - rewrite bool_decide_eq_false_2; [done|]. by intros ?%Hm.
Qed.

Lemma ring_size s : Inv s -> length s.(active_ring) = size s.(active_ring_members).
Proof.
  intros I. rewrite <- (size_list_to_set (C:=gset Z)) by apply I. f_equal.
  apply set_eq. intros id. rewrite elem_of_list_to_set. apply I.
Qed.

Lemma map_fold_all (fl : gmap Z FlowEntry) (P : Z -> FlowEntry -> bool) :
  (forall id e, fl !! id = Some e -> P id e = true) ->
  map_fold (fun id e acc => P id e && acc) true fl = true.
Proof.
  apply (map_fold_weak_ind (fun b m => (forall id e, m !! id = Some e -> P id e = true) -> b = true));
    [done|].
  intros id e m b Hnew IH HP. rewrite (HP id e), IH; [done| |by rewrite lookup_insert_eq].
  intros j x Hj. apply HP. rewrite lookup_insert_ne; [done|]. by intros ->; rewrite Hnew in Hj.
Qed.

Lemma ring_check_ok s : Inv s -> debug_check_active_ring_consistency s = true.
Proof.
  intros I. unfold debug_check_active_ring_consistency.
  rewrite bool_decide_eq_true_2 by (by apply ring_size).
  rewrite ring_scan_ok; [|done|apply I|intros; split; [done | apply not_elem_of_empty]].
  apply map_fold_all. intros. by apply flow_ring_ok.
Qed.
