(* ===== verification/FairnessProgress.v ===== *)
(** Absence of starvation: a connection with a backlog is served after a number
    of scheduling rounds bounded by its first frame, the quantum and the number
    of flows, whatever the environment does in between. *)

From stdpp Require Import base list gmap numbers.
From S2P Require Import Prelude FairnessModel FairnessPressure FairnessScheduler FairnessInvariant FairnessContract FairnessReach.
Local Open Scope Z_scope.

(** * What a waiting connection is owed *)

(** The least quantum a visit grants, in any pressure state. *)
Definition quantum_floor (c : WorkerFairnessConfig) : Z :=
  Z.max 1 (Z.min (umax 32) (Z.min c.(penalized_quantum_bytes)
    (Z.min c.(pressured_quantum_bytes) c.(base_quantum_bytes)))).

(** [id] waits with [fr] in front of its queue, behind at most [p] other ring
    members, and the [v + 1]-st visit from now is sure to dispatch [fr]. *)
Definition waits (s : WorkerFairnessState) (id : Z) (fr : QueuedFrame) (v p : nat) : Prop :=
  exists e rest pre post,
    s.(flows) !! id = Some e /\ e.(queue) = fr :: rest /\
    s.(active_ring) = pre ++ id :: post /\ (length pre <= p)%nat /\
    queued_bytes fr <= e.(fairness).(deficit_bytes) + (Z.of_nat v + 1) * quantum_floor s.(config).

Lemma quantum_floor_pos c : 1 <= quantum_floor c.
Proof. unfold quantum_floor. lia. Qed.

Lemma quantum_floor_le c ps f : quantum_floor c <= effective_quantum_bytes c ps f.
Proof.
  unfold quantum_floor, effective_quantum_bytes.
  assert (Hmul : forall b, Z.min (umax 32) b <= Z.max (sat_mul 32 (Z.max b 1) (Z.max (weight_quanta f) 1)) 1).
  { intros b. unfold sat_mul. pose proof (Z.le_max_l b 1). nia. }
  pose proof (Hmul (base_quantum_bytes c)). pose proof (Hmul (pressured_quantum_bytes c)).
  pose proof (Hmul (penalized_quantum_bytes c)).
  destruct (scheduler_state f), ps; lia.
Qed.

(** A skipped visit has granted at least the floor. *)
Lemma granted_deficit_ge c ps now id e front rest :
  cfg_ok c -> flow_ok c id e -> e.(queue) = front :: rest ->
  granted_deficit c ps now e < queued_bytes front ->
  e.(fairness).(deficit_bytes) + quantum_floor c <= granted_deficit c ps now e.
Proof.
  intros Hc [Hp Hcap _ _ Hd _] Hq. unfold granted_deficit.
  set (f := classify_flow _ _ _ _). pose proof (quantum_floor_le c ps f) as Hfl.
  pose proof (quantum_floor_pos c). pose proof (co_flow Hc).
  pose proof (queued_bytes_nonneg front). pose proof (frames_bytes_nonneg rest).
  assert (Hdef : deficit_bytes f = if pending_bytes (fairness e) =? 0 then 0 else deficit_bytes (fairness e))
    by (unfold f; by rewrite classify_deficit).
  rewrite Hq in Hp. cbn in Hp. rewrite Hdef.
  unfold clamp, i64_sat_add, max_deficit in *.
  destruct (Z.eqb_spec (pending_bytes (fairness e)) 0); unfold i64_sat, clamp; machine_lia.
Qed.

(** * Movements in the ring *)

(** [id] does not lose its place. *)
Definition keeps_place (id : Z) (r r' : list Z) : Prop :=
  forall pre post, r = pre ++ id :: post ->
  exists pre' post', r' = pre' ++ id :: post' /\ (length pre' <= length pre)%nat.

Lemma keeps_place_refl id r : keeps_place id r r.
Proof. intros pre post ->. eauto. Qed.

Lemma keeps_place_trans id r1 r2 r3 : keeps_place id r1 r2 -> keeps_place id r2 r3 -> keeps_place id r1 r3.
Proof.
  intros H1 H2 pre post E. destruct (H1 pre post E) as (p2 & q2 & E2 & ?).
  destruct (H2 p2 q2 E2) as (p3 & q3 & E3 & ?). exists p3, q3. split; [done | lia].
Qed.

Lemma keeps_place_snoc id j r : keeps_place id r (r ++ [j]).
Proof. intros pre post ->. exists pre, (post ++ [j]). by rewrite <- app_assoc. Qed.

Lemma keeps_place_filter id j r : j <> id -> keeps_place id r (filter (fun c => c <> j) r).
Proof.
  intros Hj pre post ->. rewrite list.filter_app, list.filter_cons_True by done.
  eexists _, _. split; [done|]. apply list.length_filter.
Qed.

Create HintDb places.
#[export] Hint Resolve keeps_place_refl keeps_place_snoc keeps_place_filter : places.

(** The flow of [id] is untouched and [id] keeps its place. *)
Definition undisturbed (id : Z) (s s' : WorkerFairnessState) : Prop :=
  s'.(flows) !! id = s.(flows) !! id /\ keeps_place id s.(active_ring) s'.(active_ring).

Lemma waits_undisturbed s s' id fr v p :
  undisturbed id s s' -> quantum_floor s'.(config) = quantum_floor s.(config) ->
  waits s id fr v p -> waits s' id fr v p.
Proof.
  intros [Hfl Hkp] Hqf (e & rest & pre & post & He & Hq & Hr & Hp & Hd).
  destruct (Hkp pre post Hr) as (pre' & post' & ? & ?).
  exists e, rest, pre', post'. rewrite Hfl, Hqf. repeat split; try done. lia.
Qed.

(** * Each operation *)

Lemma enqueue_active_conn_keeps id j s :
  keeps_place id s.(active_ring) (enqueue_active_conn j s).(active_ring).
Proof. unfold enqueue_active_conn. case_match; cbn; auto with places. Qed.

Lemma remove_flow_undisturbed id j s : j <> id -> undisturbed id s (remove_flow j s).
Proof.
  intros Hj. unfold remove_flow. destruct (flows s !! j) as [e|]; [|split; auto with places].
  destruct (flow_membership (fairness e)) as [[] []]; split; cbn;
    rewrite ?lookup_delete_ne by done; auto with places.
Qed.

Lemma grow_flow_ring id n e f q s j :
  keeps_place j s.(active_ring) (grow_flow id n e f q s).(active_ring).
Proof.
  unfold grow_flow. case_match; cbn; [|auto with places].
  apply (enqueue_active_conn_keeps j id
    (put_flow id (mkFlowEntry f q) (set_bucket_bytes _ _ (with_total_queued_bytes _ s)))).
Qed.

Lemma feedback_undisturbed id cand fb now s :
  Inv s -> can_return s cand -> qf_conn_id (dc_frame cand) <> id ->
  undisturbed id s (apply_dispatch_feedback (qf_conn_id (dc_frame cand)) cand fb now s).1.
Proof.
  intros I (e & He & _ & _). set (j := qf_conn_id _) in *. intros Hj.
  assert (Hlook : forall x fl, (<[j:=x]> fl : gmap Z FlowEntry) !! id = fl !! id)
    by (intros; by rewrite lookup_insert_ne).
  destruct fb; cbn [apply_dispatch_feedback].
  - unfold feedback_routed. rewrite He. split; cbn; auto with places.
  - destruct (feedback_queue_full_cases j cand now s e He (fo_bucket (inv_flow I j e He)))
      as (s' & close & Hs' & _ & ->).
    assert (U : undisturbed id s s').
    { destruct (stall_counted_fields now s) as (_ & Hst & _).
      assert (Hring : active_ring (stall_counted now s) = active_ring s)
        by (unfold stall_counted; by case_match).
      destruct Hs' as [[-> _]| ->]; split.
      - cbn. by rewrite Hlook, Hst.
      - cbn. rewrite Hring. auto with places.
      - unfold returned_state. by rewrite grow_flow_flows, Hlook, Hst.
      - rewrite <- Hring. apply grow_flow_ring. }
    destruct close; cbn; [|exact U].
    destruct U as [U1 U2], (remove_flow_undisturbed id j s' Hj) as [R1 R2].
    split; cbn; [congruence | by eapply keeps_place_trans].
  - exact (remove_flow_undisturbed id j s Hj).
  - exact (remove_flow_undisturbed id j s Hj).
Qed.

Lemma grow_flow_config id n e f q s : (grow_flow id n e f q s).(config) = s.(config).
Proof. unfold grow_flow, enqueue_active_conn. cbn. by repeat case_match. Qed.

(** Enqueueing for another connection. *)
Lemma enqueue_into_undisturbed id j w fr now e s :
  j <> id -> e.(fairness).(bucket_id) = home_bucket s.(config) j ->
  let r := enqueue_into j (home_bucket s.(config) j) w fr now e s in
  undisturbed id s r.1 /\ r.1.(config) = s.(config).
Proof.
  intros Hj Hb r. unfold r.
  destruct (enqueue_into_cases j w fr now e s Hb) as [[_ ->]|[_ ->]]; cbn [fst].
  - split; [split|done]; cbn; [by rewrite lookup_insert_ne | auto with places].
  - set (s' := grow_flow _ _ _ _ _ _). change (undisturbed id s s' /\ config s' = config s).
    split; [split|]; unfold s'.
    + by rewrite grow_flow_flows, lookup_insert_ne.
    + apply grow_flow_ring.
    + apply grow_flow_config.
Qed.

(** Enqueueing for the waiting connection itself. *)
Lemma enqueue_into_waits id w fr now e s fr0 v p :
  Inv s -> s.(flows) !! id = Some e -> waits s id fr0 v p ->
  let r := enqueue_into id (home_bucket s.(config) id) w fr now e s in
  waits r.1 id fr0 v p /\ r.1.(config) = s.(config).
Proof.
  intros I He (e' & rest & pre & post & He' & Hq & Hr & Hp & Hd) r. unfold r.
  assert (e' = e) as -> by congruence.
  pose proof (inv_flow I id e He) as Hf.
  destruct (enqueue_into_cases id w fr now e s (fo_bucket Hf)) as [[_ ->]|[_ ->]]; cbn [fst].
  - split; [|done]. eexists _, rest, pre, post. cbn. by rewrite lookup_insert_eq.
  - set (f := admitted_fairness w fr now e s).
    set (s' := grow_flow _ _ _ _ _ _). change (waits s' id fr0 v p /\ config s' = config s).
    assert (Hc : config s' = config s) by apply grow_flow_config. split; [|done].
    assert (Hfl : flows s' = _) by apply grow_flow_flows.
    assert (Hkp : keeps_place id (active_ring s) (active_ring s')) by apply grow_flow_ring.
    clearbody s'. destruct (Hkp pre post Hr) as (pre' & post' & Hr' & Hp').
    exists (mkFlowEntry f (queue e ++ [fr])), (rest ++ [fr]), pre', post'.
    rewrite Hfl, lookup_insert_eq, Hc. cbn. rewrite Hq.
    split; [done|]. split; [done|]. split; [exact Hr'|]. split; [lia|].
    destruct (admitted_fairness_fields w fr now e s) as (_ & _ & _ & Hdef). fold f in Hdef.
    pose proof (fo_pending Hf) as Hpend. rewrite Hq in Hpend. cbn in Hpend.
    pose proof (queued_bytes_nonneg fr0). pose proof (queued_bytes_nonneg fr).
    pose proof (frames_bytes_nonneg rest). pose proof (quantum_floor_pos (config s)).
    rewrite Hdef. destruct (Z.eqb_spec (sat_add 64 (pending_bytes (fairness e)) (queued_bytes fr)) 0);
      [|done]. unfold sat_add, umax in *. nia.
Qed.

Lemma enqueue_data_waits id j flags data now s fr v p :
  Inv s -> waits s id fr v p ->
  let r := enqueue_data j flags data now s in
  waits r.1 id fr v p /\ r.1.(config) = s.(config).
Proof.
  intros I W r. unfold r, enqueue_data. rewrite (bucket_for_home s j I).
  do 4 (case_match; [done|]).
  destruct (decide (j = id)) as [->|Hj].
  - destruct (flows s !! id) as [e|] eqn:He; [by apply enqueue_into_waits|].
    destruct W as (e & _ & _ & _ & He' & _). congruence.
  - assert (Hund : forall e s0, undisturbed id s s0 -> config s0 = config s ->
      bucket_id (fairness e) = home_bucket (config s) j -> forall w fr',
      let r := enqueue_into j (home_bucket (config s) j) w fr' now e s0 in
      waits r.1 id fr v p /\ config r.1 = config s).
    { intros e s0 [U1 U2] Hc Hb w fr'. rewrite <- Hc in Hb.
      destruct (enqueue_into_undisturbed id j w fr' now e s0 Hj Hb) as [[V1 V2] Hc'].
      rewrite Hc in *. split; [|done].
      apply (waits_undisturbed s); [|by rewrite Hc'|done].
      split; [congruence | by eapply keeps_place_trans]. }
    destruct (flows s !! j) as [e|] eqn:He.
    + apply Hund; [split; auto with places|done|apply (fo_bucket (inv_flow I j e He))].
    + apply Hund; [split|done..]; cbn; [by rewrite lookup_insert_ne | auto with places].
Qed.

(** * A round *)

(** The head of the ring is skipped: it keeps its frame and has been granted a
    quantum, and it now waits at the end of the ring. *)
Lemma visit_other id j e v s :
  j <> id -> fv_continue v = false -> undisturbed id s (after_visit j e v s).
Proof.
  intros Hj Hc. destruct (after_visit_frame j e v s) as (Hfl & _). split.
  - by rewrite Hfl, lookup_insert_ne.
  - unfold after_visit, enqueue_active_conn. rewrite Hc.
    destruct (fv_granted v), (fv_skipped v), (fv_requeue v), (0 <? fv_drained v);
      cbn; try case_bool_decide; cbn; auto with places.
Qed.

Lemma after_visit_requeued j e v s :
  fv_continue v = false -> fv_requeue v = true -> j ∉ s.(active_ring_members) ->
  (after_visit j e v s).(active_ring) = s.(active_ring) ++ [j].
Proof.
  intros Hc Hr Hj. unfold after_visit, enqueue_active_conn. rewrite Hc, Hr.
  destruct (fv_granted v), (fv_skipped v), (0 <? fv_drained v);
    cbn; rewrite bool_decide_eq_false_2; done.
Qed.

Lemma ring_length s : Inv s -> Z.of_nat (length s.(active_ring)) <= s.(config).(max_active_flows).
Proof.
  intros I. rewrite (ring_size s I). pose proof (inv_size I) as Hs.
  rewrite <- (size_dom (D:=gset Z)) in Hs.
  assert (size (active_ring_members s) <= size (dom (flows s)))%nat; [|lia].
  apply subseteq_size. intros id Hid. apply (inv_members I) in Hid as (e & He & _).
  by apply elem_of_dom.
Qed.

(** The number of rounds after which a waiting connection must have been served. *)
Definition debt (s : WorkerFairnessState) (v p : nat) : nat :=
  (v * Z.to_nat s.(config).(max_active_flows) + p)%nat.

Definition dispatches (d : SchedulerDecision) (id : Z) : Prop :=
  match d with SdIdle => False | SdDispatch cand => qf_conn_id (dc_frame cand) = id end.

(** The visit of the waiting connection itself. *)
Lemma visit_self now s id ring e fr rest v p :
  Inv s -> s.(active_ring) = id :: ring -> s.(flows) !! id = Some e -> e.(queue) = fr :: rest ->
  queued_bytes fr <= e.(fairness).(deficit_bytes) + (Z.of_nat v + 1) * quantum_floor s.(config) ->
  let vis := visit_flow s.(config) (pressure_state s) now e in
  let s1 := after_visit id e vis (popped id ring s) in
  (exists cand, fv_candidate vis = Some cand) \/
  (fv_candidate vis = None /\
   exists v' p', waits s1 id fr v' p' /\ (debt s1 v' p' < debt s v p)%nat).
Proof.
  intros I Hr He Hq Hd. cbv zeta. pose proof (inv_flow I id e He) as Hf.
  destruct (visit_flow_cases _ (pressure_state s) now id e fr rest (inv_cfg I) Hf Hq)
    as (Hf' & Hcont & [(Hlt & Hq' & Hreq & _ & Hcand & Hdef)|(_ & _ & _ & _ & cls & Hcand)]);
    set (vis := visit_flow _ _ _ _) in *; set (s1 := after_visit _ _ _ _); [right|left; eauto].
  split; [done|].
  pose proof (granted_deficit_ge _ (pressure_state s) now id e fr rest (inv_cfg I) Hf Hq Hlt) as Hge.
  pose proof (quantum_floor_pos (config s)).
  destruct v as [|v]; [lia|]. exists v, (length ring).
  destruct (after_visit_frame id e vis (popped id ring s)) as (Hfl & Hcfg & _). fold s1 in Hfl, Hcfg.
  split.
  - exists (fv_entry vis), rest, ring, [].
    rewrite Hfl, lookup_insert_eq, Hcfg. split; [done|]. split; [done|].
    split; [|split; [done | cbn; nia]].
    apply (after_visit_requeued id e vis (popped id ring s)); [done|done|apply not_in_removed].
  - pose proof (ring_length s I) as Hlen. rewrite Hr in Hlen. cbn in Hlen.
    unfold debt. rewrite Hcfg. cbn. nia.
Qed.

Lemma visit_waits now s j ring id fr v p e front rest :
  Inv s -> s.(active_ring) = j :: ring -> s.(flows) !! j = Some e -> e.(queue) = front :: rest ->
  waits s id fr v p ->
  let vis := visit_flow s.(config) (pressure_state s) now e in
  let s1 := after_visit j e vis (popped j ring s) in
  (j = id /\ exists cand, fv_candidate vis = Some cand) \/
  ((j = id -> fv_candidate vis = None) /\
   exists v' p', waits s1 id fr v' p' /\ (debt s1 v' p' < debt s v p)%nat).
Proof.
  intros I Hr He Hq (e' & rest' & pre & post & He' & Hq' & Hr' & Hp & Hd) vis s1.
  pose proof (inv_ring_nodup I) as Hnd.
  destruct (decide (j = id)) as [->|Hj].
  - assert (e' = e) as -> by congruence.
    destruct (visit_self now s id ring e fr rest' v p I Hr He Hq' Hd) as [?|[? ?]]; auto.
  - right. split; [done|]. destruct pre as [|x pre]; [cbn in *; congruence|].
    rewrite Hr in Hr'. cbn in Hr'. injection Hr' as <- ->.
    destruct (visit_flow_cases _ (pressure_state s) now j e front rest (inv_cfg I)
      (inv_flow I j e He) Hq) as (_ & Hcont & _). fold vis in Hcont.
    destruct (after_visit_frame j e vis (popped j (pre ++ id :: post) s)) as (_ & Hcfg & _).
    fold s1 in Hcfg. exists v, (length pre). split.
    + apply (waits_undisturbed (popped j (pre ++ id :: post) s)).
      * by apply visit_other.
      * by rewrite Hcfg.
      * exists e', rest', pre, post. done.
    + unfold debt. rewrite Hcfg. cbn in *. lia.
Qed.

(** A run of the loop that does not dispatch [id] brings it closer to the head. *)
Lemma loop_waits n now s id fr v p :
  Inv s -> waits s id fr v p ->
  let r := next_decision_loop n now s in
  dispatches r.2 id \/
  exists v' p', waits r.1 id fr v' p' /\ (debt r.1 v' p' + Nat.min n 1 <= debt s v p)%nat.
Proof.
  revert s v p. induction n as [|n IH]; intros s v p I W; cbv zeta.
  { right. exists v, p. cbn. split; [done | lia]. }
  destruct (active_ring s) as [|j ring] eqn:Hr.
  { destruct W as (? & ? & pre & ? & _ & _ & Hr' & _). rewrite Hr in Hr'. by destruct pre. }
  destruct (loop_unfold n now s j ring I Hr) as (e & front & rest & He & Hq & I1 & ->).
  destruct (visit_flow_cases _ (pressure_state s) now j e front rest (inv_cfg I)
    (inv_flow I j e He) Hq) as (_ & _ & Hcase).
  destruct (visit_waits now s j ring id fr v p e front rest I Hr He Hq W)
    as [[-> [cand Hc]]|[Hnone (v' & p' & W' & Hlt)]]; set (vis := visit_flow _ _ _ _) in *.
  - left. rewrite Hc. cbn.
    destruct Hcase as [(_ & _ & _ & _ & Hc' & _)|(_ & _ & _ & _ & cls & Hc')]; [congruence|].
    rewrite Hc in Hc'. injection Hc' as ->. cbn.
    pose proof (fo_frames (inv_flow I id e He)) as F. rewrite Hq in F. by inversion F.
  - destruct (fv_candidate vis) as [cand|] eqn:Hc.
    + right. exists v', p'. split; [done|]. cbn. lia.
    + destruct (IH _ v' p' I1 W') as [?|(v2 & p2 & W2 & Hle)]; [by left|].
      right. exists v2, p2. split; [done|]. lia.
Qed.

Lemma remove_flow_config id s : (remove_flow id s).(config) = s.(config).
Proof. unfold remove_flow. by repeat case_match. Qed.

Lemma feedback_config cand fb now s :
  Inv s -> can_return s cand ->
  (apply_dispatch_feedback (qf_conn_id (dc_frame cand)) cand fb now s).1.(config) = s.(config).
Proof.
  intros I (e & He & _ & _). set (j := qf_conn_id _) in *.
  destruct fb; cbn [apply_dispatch_feedback].
  - unfold feedback_routed. by rewrite He.
  - destruct (feedback_queue_full_cases j cand now s e He (fo_bucket (inv_flow I j e He)))
      as (s' & close & Hs' & _ & ->).
    assert (Hc : config s' = config s).
    { destruct (stall_counted_fields now s) as (Hst & _).
      destruct Hs' as [[-> _]| ->]; [done|]. unfold returned_state. by rewrite grow_flow_config. }
    destruct close; cbn; [|done]. by rewrite remove_flow_config.
  - cbn. by rewrite remove_flow_config.
  - cbn. by rewrite remove_flow_config.
Qed.

(** * Traces *)

Definition is_round (i : SchedInput) : bool := match i with InRound _ _ => true | _ => false end.

(** The input has served [id]: its frame was dispatched, or it was removed. *)
Definition served (id : Z) (i : SchedInput) (o : option QueuedFrame) : bool :=
  match i, o with
  | InRemove j, _ => bool_decide (j = id)
  | _, Some fr => bool_decide (qf_conn_id fr = id)
  | _, None => false
  end.

Fixpoint unserved (id : Z) (l : list SchedInput) (s : WorkerFairnessState) : bool :=
  match l with
  | [] => true
  | i :: l => let '(s', o) := exec_input i s in negb (served id i o) && unserved id l s'
  end.

Definition rounds (l : list SchedInput) : nat := length (filter (fun i => is_round i = true) l).

Lemma round_waits now fb s id fr v p :
  Inv s -> waits s id fr v p -> served id (InRound now fb) (exec_input (InRound now fb) s).2 = false ->
  exists v' p', waits (exec_input (InRound now fb) s).1 id fr v' p' /\
    (debt (exec_input (InRound now fb) s).1 v' p' + 1 <= debt s v p)%nat.
Proof.
  intros I W. cbn. destruct (next_decision_spec now s I) as (I1 & _ & Heff).
  unfold next_decision in *. set (s0 := evaluate_pressure _ _ _) in *.
  assert (I0 : Inv s0) by exact I. assert (W0 : waits s0 id fr v p) by exact W.
  assert (Hlen : (1 <= length (active_ring s0))%nat).
  { destruct W0 as (_ & _ & pre & post & _ & _ & -> & _). rewrite length_app. cbn. lia. }
  destruct (loop_waits (length (active_ring s0)) now s0 id fr v p I0 W0) as [Hd|(v' & p' & W1 & Hle)];
    destruct (next_decision_loop _ _ _) as [s1 [|cand]]; cbn [fst snd dispatches] in *.
  - done.
  - rewrite bool_decide_eq_true_2 by done. done.
  - intros _. exists v', p'. split; [done|]. change (debt s v p) with (debt s0 v p). lia.
  - intros Hne%bool_decide_eq_false. destruct Heff as (_ & _ & Hret).
    assert (Hc := feedback_config cand fb now s1 I1 Hret).
    exists v', p'. split.
    + apply (waits_undisturbed s1); [by apply feedback_undisturbed | by rewrite Hc | done].
    + unfold debt at 1. rewrite Hc. change (debt s v p) with (debt s0 v p).
      unfold debt in *. lia.
Qed.

Lemma exec_waits i s id fr v p :
  Inv s -> waits s id fr v p -> served id i (exec_input i s).2 = false ->
  exists v' p', waits (exec_input i s).1 id fr v' p' /\
    (debt (exec_input i s).1 v' p' + (if is_round i then 1 else 0) <= debt s v p)%nat.
Proof.
  intros I W Hs. destruct i as [j flags data now|now fb|j|b now]; [| by apply round_waits | |].
  - destruct (enqueue_data_waits id j flags data now s fr v p I W) as [W' Hc].
    exists v, p. split; [done|]. unfold debt. cbn. rewrite Hc. lia.
  - cbn in Hs. apply bool_decide_eq_false in Hs. exists v, p. cbn. unfold debt.
    rewrite remove_flow_config. split; [|lia].
    apply (waits_undisturbed s); [by apply remove_flow_undisturbed | by rewrite remove_flow_config | done].
  - exists v, p. cbn. unfold set_backpressure_enabled. case_match; (split; [exact W|]); unfold debt; cbn; lia.
Qed.

Lemma run_waits l s id fr v p :
  Inv s -> waits s id fr v p -> unserved id l s = true -> (rounds l <= debt s v p)%nat.
Proof.
  revert s v p. induction l as [|i l IH]; intros s v p I W Hu; [cbn; lia|].
  cbn in Hu. destruct (exec_input i s) as [s' o] eqn:Hx.
  apply andb_prop in Hu as [Hs Hu]. apply negb_true_iff in Hs.
  assert (I' : Inv (exec_input i s).1) by (by apply exec_input_Inv).
  destruct (exec_waits i s id fr v p I W) as (v' & p' & W' & Hd); rewrite Hx in *; [done|].
  cbn [fst] in *. specialize (IH s' v' p' I' W' Hu).
  unfold rounds in *. rewrite list.filter_cons.
  destruct (is_round i); [rewrite decide_True by done | rewrite decide_False by done]; cbn; lia.
Qed.

Lemma backlog_waits s id fr rest :
  Inv s -> backlog s id = fr :: rest ->
  exists p, waits s id fr (Z.to_nat (queued_bytes fr / quantum_floor s.(config))) p /\
    Z.of_nat p < s.(config).(max_active_flows).
Proof.
  intros I Hb. unfold backlog in Hb. destruct (flows s !! id) as [e|] eqn:He; [|done].
  cbn in Hb. pose proof (inv_flow I id e He) as Hf.
  assert (Hin : id ∈ active_ring s).
  { apply (inv_ring_members I), (inv_members I). exists e. split; [done|].
    rewrite (fo_ring Hf), Hb. done. }
  apply list_elem_of_split in Hin as (pre & post & Hr). exists (length pre). split.
  - exists e, rest, pre, post. repeat split; try done.
    pose proof (fo_deficit Hf). pose proof (quantum_floor_pos (config s)).
    pose proof (queued_bytes_nonneg fr).
    pose proof (Z.mul_succ_div_gt (queued_bytes fr) (quantum_floor (config s)) ltac:(lia)).
    rewrite Z2Nat.id by (apply Z.div_pos; lia). nia.
  - pose proof (ring_length s I) as Hl. rewrite Hr, length_app in Hl. cbn in Hl. lia.
Qed.

Lemma bounded_wait s id fr rest l :
  Inv s -> backlog s id = fr :: rest -> unserved id l s = true ->
  Z.of_nat (rounds l) <
    (queued_bytes fr / quantum_floor s.(config) + 1) * s.(config).(max_active_flows).
Proof.
  intros I Hb Hu. destruct (backlog_waits s id fr rest I Hb) as (p & W & Hp).
  pose proof (run_waits l s id fr _ p I W Hu) as Hd. unfold debt in Hd.
  pose proof (co_active (inv_cfg I)). pose proof (quantum_floor_pos (config s)).
  assert (0 <= queued_bytes fr / quantum_floor (config s))
    by (apply Z.div_pos; [apply queued_bytes_nonneg | lia]).
  nia.
Qed.
