(* ===== verification/FairnessProps.v ===== *)
(** What the fair scheduler guarantees in every execution: exact accounting,
    ring consistency, FIFO refinement, absence of starvation, and the
    behaviour of the pressure evaluator. *)

From stdpp Require Import base list gmap numbers.
From S2P Require Import Prelude FairnessModel FairnessPressure FairnessScheduler FairnessInvariant FairnessContract FairnessReach FairnessProgress.
Local Open Scope Z_scope.

(** * An abstract FIFO *)

(** One queue per connection.  The relation says what an input may do to the
    queues and what it outputs. *)
Definition queues : Type := Z -> list QueuedFrame.

Definition only_changes (id : Z) (q q' : queues) (l : list QueuedFrame) : Prop :=
  q' id = l /\ forall j, j <> id -> q' j = q j.

Inductive fifo_step (q : queues) : SchedInput -> option QueuedFrame -> queues -> Prop :=
  | fifo_admit id flags data now q' :
      only_changes id q q' (q id ++ [mkQueuedFrame id flags data now]) ->
      fifo_step q (InEnqueue id flags data now) None q'
  | fifo_reject id flags data now q' :
      (forall j, q' j = q j) -> fifo_step q (InEnqueue id flags data now) None q'
  | fifo_idle now fb q' :
      (forall j, q' j = q j) -> fifo_step q (InRound now fb) None q'
  | fifo_dispatch now fb fr rest q' :
      q (qf_conn_id fr) = fr :: rest -> fb = FbRouted ->
      only_changes (qf_conn_id fr) q q' rest ->
      fifo_step q (InRound now fb) (Some fr) q'
  | fifo_full now fb fr rest l q' :
      q (qf_conn_id fr) = fr :: rest -> fb = FbQueueFull ->
      l = fr :: rest \/ l = rest \/ l = [] ->
      only_changes (qf_conn_id fr) q q' l ->
      fifo_step q (InRound now fb) (Some fr) q'
  | fifo_gone now fb fr rest q' :
      q (qf_conn_id fr) = fr :: rest -> fb = FbChannelClosed \/ fb = FbNoConn ->
      only_changes (qf_conn_id fr) q q' [] ->
      fifo_step q (InRound now fb) (Some fr) q'
  | fifo_remove id q' : only_changes id q q' [] -> fifo_step q (InRemove id) None q'
  | fifo_switch b now q' : (forall j, q' j = q j) -> fifo_step q (InBackpressure b now) None q'.

Lemma round_refines now fb s :
  Inv s ->
  fifo_step (backlog s) (InRound now fb) (exec_input (InRound now fb) s).2
    (backlog (exec_input (InRound now fb) s).1).
Proof.
  intros I. cbn [exec_input]. destruct (next_decision_spec now s I) as (I1 & _ & Heff).
  destruct (next_decision now s) as [s1 [|cand]]; cbn [fst snd] in *; [by constructor|].
  destruct Heff as (Hid & Hoth & Hret).
  destruct (feedback_backlog cand fb now s1 I1 Hret) as (Hoth' & Hb).
  set (r := apply_dispatch_feedback _ _ _ _ _) in *. set (id := qf_conn_id (dc_frame cand)) in *.
  assert (Hj : forall j, j <> id -> backlog r.1 j = backlog s j)
    by (intros j Hne; rewrite (Hoth' j Hne); by apply Hoth).
  destruct fb; [| | destruct r.2; destruct Hb as [_ Hb]..].
  - destruct Hb as [_ Hb]. eapply fifo_dispatch; [exact Hid | done | by split].
  - eapply fifo_full; [exact Hid | done | | by split].
    destruct r.2; [|destruct Hb]; naive_solver.
  - eapply fifo_gone; [exact Hid | by left | by split].
  - eapply fifo_gone; [exact Hid | by left | by split].
  - eapply fifo_gone; [exact Hid | by right | by split].
  - eapply fifo_gone; [exact Hid | by right | by split].
Qed.

Lemma enqueue_refines id flags data now s :
  Inv s ->
  fifo_step (backlog s) (InEnqueue id flags data now) None
    (backlog (enqueue_data id flags data now s).1).
Proof.
  intros I. destruct (enqueue_data_backlog id flags data now s I) as [Hoth Hid].
  set (r := enqueue_data id flags data now s) in *. clearbody r.
  case_bool_decide; [by apply fifo_admit|]. apply fifo_reject. intros j.
  rewrite app_nil_r in Hid. destruct (decide (j = id)) as [->|Hj]; [done | by apply Hoth].
Qed.

Lemma exec_refines i s :
  Inv s -> fifo_step (backlog s) i (exec_input i s).2 (backlog (exec_input i s).1).
Proof.
  intros I. destruct i as [id flags data now|now fb|id|b now]; [|by apply round_refines| |].
  - by apply enqueue_refines.
  - destruct (remove_flow_backlog id s) as [Hid Hoth]. apply fifo_remove. split; [exact Hid | exact Hoth].
  - apply fifo_switch. intros j. apply backlog_flows. cbn [exec_input fst].
    unfold set_backpressure_enabled. by case_match.
Qed.

(** A concrete configuration and execution for the examples below. *)
Definition demo_config : WorkerFairnessConfig := fairness_config_default.
Definition demo_state : WorkerFairnessState :=
  (exec_inputs [InEnqueue 7 0 [1; 2; 3] 10; InEnqueue 9 0 [4] 11; InEnqueue 7 0 [5; 6] 12;
                InRound 13 FbQueueFull] (worker_new demo_config 0)).1.

Lemma demo_config_ok : cfg_ok demo_config.
Proof. split; cbn; unfold umax, i64_max; lia. Qed.

Lemma demo_reachable : reachable demo_config demo_state.
Proof. apply exec_inputs_reachable, reach_new. Qed.

(** * Accounting *)

(** C18: in every state the reader can bring the scheduler to, the byte counters
    are exact and within their caps: the total is the sum of the queued frames
    and at most [max_total_queued_bytes], every flow's [pending_bytes] is the
    size of its queue and at most [max_flow_queued_bytes], every bucket counter
    is the sum over the flows hashed to it, and there are at most
    [max_active_flows] flows. *)
Theorem accounting_exact c s :
  cfg_ok c -> reachable c s ->
  s.(total_queued_bytes) = map_sum (fun _ e => frames_bytes e.(queue)) s.(flows) /\
  s.(total_queued_bytes) <= s.(config).(max_total_queued_bytes) /\
  Z.of_nat (size s.(flows)) <= s.(config).(max_active_flows) /\
  (forall id e, s.(flows) !! id = Some e ->
     e.(fairness).(pending_bytes) = frames_bytes e.(queue) /\
     e.(fairness).(pending_bytes) <= s.(config).(max_flow_queued_bytes)) /\
  (forall b, (b < length s.(bucket_queued_bytes))%nat ->
     cell s.(bucket_queued_bytes) b =
     map_sum (fun id e => if decide (home_bucket s.(config) id = b)
                          then frames_bytes e.(queue) else 0) s.(flows)).
Proof.
  intros Hc Hr. pose proof (reachable_invariant c s Hc Hr) as I.
  split; [apply (inv_total I)|]. split; [apply (inv_total_cap I)|]. split; [apply (inv_size I)|]. split.
  - intros id e He. pose proof (inv_flow I id e He) as Hf.
    split; [apply (fo_pending Hf) | apply (fo_pending_cap Hf)].
  - intros b Hb. rewrite (inv_bq_len I) in Hb. rewrite (inv_bq I b Hb).
    apply map_sum_ext. intros id e He. unfold entry_bytes_in.
    by rewrite (fo_bucket (inv_flow I id e He)).
Qed.

Lemma accounting_exact_witness :
  demo_state.(total_queued_bytes) =
    map_sum (fun _ e => frames_bytes e.(queue)) demo_state.(flows) /\
  demo_state.(total_queued_bytes) = 6.
Proof.
  split; [exact (proj1 (accounting_exact demo_config demo_state demo_config_ok demo_reachable))|].
  vm_compute. reflexivity.
Defined.

(** The consistency check the scheduler's tests run
    ([debug_check_active_ring_consistency]) succeeds in every reachable state:
    the active ring lists exactly the flows with a backlog, each once. *)
Theorem ring_always_consistent c s :
  cfg_ok c -> reachable c s -> debug_check_active_ring_consistency s = true.
Proof. intros Hc Hr. by apply ring_check_ok, (reachable_invariant c). Qed.

Lemma ring_always_consistent_witness : debug_check_active_ring_consistency demo_state = true.
Proof. exact (ring_always_consistent demo_config demo_state demo_config_ok demo_reachable). Defined.

(** The flow counters that drive the pressure state are exact: the numbers
    of standing and of back-pressured flows are the numbers of flows so
    classified, and every deficit stays between zero and the per-flow cap. *)
Theorem flow_counters_exact c s :
  cfg_ok c -> reachable c s ->
  s.(standing_flow_count) = map_sum (fun _ e => b2z (flow_membership e.(fairness)).1) s.(flows) /\
  s.(backpressured_flow_count) = map_sum (fun _ e => b2z (flow_membership e.(fairness)).2) s.(flows) /\
  forall id e, s.(flows) !! id = Some e ->
    0 <= e.(fairness).(deficit_bytes) <= s.(config).(max_flow_queued_bytes).
Proof.
  intros Hc Hr. pose proof (reachable_invariant c s Hc Hr) as I.
  split; [apply (inv_standing I)|]. split; [apply (inv_backp I)|].
  intros id e He. pose proof (fo_deficit (inv_flow I id e He)). unfold max_deficit in *. lia.
Qed.

Lemma flow_counters_exact_witness :
  demo_state.(backpressured_flow_count) =
    map_sum (fun _ e => b2z (flow_membership e.(fairness)).2) demo_state.(flows).
Proof.
  exact (proj1 (proj2 (flow_counters_exact demo_config demo_state demo_config_ok demo_reachable))).
Defined.

(** * Queues *)

(** C17: the scheduler implements one FIFO queue per connection: every input
    changes the queues as the abstract FIFO allows (frames enter at the tail,
    leave from the head in order, return to the head when a connection is full,
    and no input touches the queue of another connection). *)
Theorem scheduler_refines_fifo c s i :
  cfg_ok c -> reachable c s ->
  fifo_step (backlog s) i (exec_input i s).2 (backlog (exec_input i s).1).
Proof. intros Hc Hr. by apply exec_refines, (reachable_invariant c). Qed.

Lemma scheduler_refines_fifo_witness :
  fifo_step (backlog demo_state) (InRound 20 FbRouted) (exec_input (InRound 20 FbRouted) demo_state).2
    (backlog (exec_input (InRound 20 FbRouted) demo_state).1) /\
  (exec_input (InRound 20 FbRouted) demo_state).2 = Some (mkQueuedFrame 9 0 [4] 11).
Proof.
  split; [exact (scheduler_refines_fifo demo_config demo_state (InRound 20 FbRouted)
                   demo_config_ok demo_reachable)|].
  vm_compute. reflexivity.
Defined.

(** C16: no starvation.  However enqueues, removals of other connections and
    switches of back-pressure are interleaved with scheduling rounds, a
    connection whose first frame is [fr] is served (or removed) before
    [(bytes(fr) / quantum + 1) * max_active_flows] rounds have passed, where
    the quantum is the least one of the configuration. *)
Theorem no_starvation c s id fr rest l :
  cfg_ok c -> reachable c s -> backlog s id = fr :: rest -> unserved id l s = true ->
  Z.of_nat (rounds l) <
    (queued_bytes fr / quantum_floor s.(config) + 1) * s.(config).(max_active_flows).
Proof. intros Hc Hr. by apply bounded_wait, (reachable_invariant c). Qed.

Lemma no_starvation_witness :
  unserved 7 [InRound 20 FbRouted] demo_state = true /\
  Z.of_nat (rounds [InRound 20 FbRouted]) <
    (queued_bytes (mkQueuedFrame 7 0 [1; 2; 3] 10) / quantum_floor demo_state.(config) + 1) *
    demo_state.(config).(max_active_flows).
Proof.
  split; [vm_compute; reflexivity|].
  apply (no_starvation demo_config demo_state 7 (mkQueuedFrame 7 0 [1; 2; 3] 10)
    [mkQueuedFrame 7 0 [5; 6] 12] _ demo_config_ok demo_reachable); vm_compute; reflexivity.
Defined.

(** With back-pressure switched off a frame that its connection cannot take
    is never lost: the feedback puts it back at the head of its queue, the flow
    stays, and no shed is counted. *)
Theorem no_shed_without_backpressure cand now s :
  Inv s -> can_return s cand -> s.(config).(backpressure_enabled) = false ->
  let id := qf_conn_id (dc_frame cand) in
  let r := apply_dispatch_feedback id cand FbQueueFull now s in
  r.2 = ActContinue /\ backlog r.1 id = dc_frame cand :: backlog s id /\
  r.1.(shed_drops) = s.(shed_drops).
Proof.
  intros I (e & He & _ & _) Hbp. set (id := qf_conn_id _) in *. cbn [apply_dispatch_feedback].
  destruct (feedback_queue_full_cases id cand now s e He (fo_bucket (inv_flow I id e He)))
    as (s' & close & Hs' & Hcl & ->).
  destruct Hs' as [[_ Hs']| ->]; [congruence|]. destruct close; [rewrite Hcl in Hbp; done|].
  cbn [fst snd]. split; [done|]. split.
  - unfold backlog at 2. rewrite He. unfold returned_state.
    destruct (stall_counted_fields now s) as (_ & Hst & _).
    eapply (backlog_insert s). rewrite <- Hst. apply grow_flow_flows.
  - change (shed_drops (evaluate_pressure now true (returned_state id (dc_frame cand) now e s)))
      with (shed_drops (returned_state id (dc_frame cand) now e s)).
    unfold returned_state, grow_flow, stall_counted, enqueue_active_conn. rewrite Hbp.
    cbn -[sat_add classify_flow]. by repeat case_match.
Qed.

Definition demo_calm : WorkerFairnessState := set_backpressure_enabled false 15 demo_state.
Definition demo_cand : DispatchCandidate :=
  mkCandidate (mkQueuedFrame 9 0 [8] 14) PsNormal FpcHealthy.

Lemma demo_calm_Inv : Inv demo_calm.
Proof. exact (set_backpressure_Inv _ _ _ (reachable_invariant _ _ demo_config_ok demo_reachable)). Qed.

Lemma no_shed_without_backpressure_witness :
  backlog (apply_dispatch_feedback 9 demo_cand FbQueueFull 16 demo_calm).1 9 =
    dc_frame demo_cand :: backlog demo_calm 9.
Proof.
  refine (proj1 (proj2 (no_shed_without_backpressure demo_cand 16 demo_calm demo_calm_Inv _ _))).
  - eexists. split; [vm_compute; reflexivity|]. split; vm_compute; discriminate.
  - vm_compute. reflexivity.
Defined.

(** * Pressure *)

(** Hysteresis of the pressure state.  In any sequence of rejects, stalls
    and evaluations, the published state changes only to a state that the last
    [transition_hysteresis_rounds] evaluations have all derived as target. *)
Theorem pressure_hysteresis cfg ops op now :
  cfg.(pc_backpressure_enabled) = true -> 0 <= cfg.(transition_hysteresis_rounds) <= umax 8 ->
  let st := pressure_run cfg ops now in
  let st' := pressure_run cfg (ops ++ [op]) now in
  st'.1.(pe_state) <> st.1.(pe_state) ->
  take (hysteresis cfg) st'.2 = replicate (hysteresis cfg) st'.1.(pe_state).
Proof.
  intros He Hcfg. cbv zeta. unfold pressure_run at 1 3 4. rewrite foldl_snoc.
  fold (pressure_run cfg ops now). apply pressure_step_hits; [done..|]. by apply pressure_run_hits.
Qed.

Definition full_signals : PressureSignals := mkSignals 1 100 0 0.
Lemma pressure_hysteresis_witness :
  let ops := [OpEvaluate 1 100 full_signals true; OpEvaluate 2 100 full_signals true] in
  let st' := pressure_run pressure_config_default (ops ++ [OpEvaluate 3 100 full_signals true]) 0 in
  st'.1.(pe_state) = PsSaturated /\
  take (hysteresis pressure_config_default) st'.2 =
    replicate (hysteresis pressure_config_default) PsSaturated.
Proof.
  cbv zeta. split; [vm_compute; reflexivity|].
  apply (pressure_hysteresis pressure_config_default
    [OpEvaluate 1 100 full_signals true; OpEvaluate 2 100 full_signals true]
    (OpEvaluate 3 100 full_signals true) 0).
  - reflexivity.
  - unfold umax. cbn. lia.
  - vm_compute. discriminate.
Defined.

(** The target pressure grows with every signal: more queued bytes, more
    standing flows, more back-pressured flows, more rejects or more stalls
    never derive a milder state. *)
Theorem pressure_target_monotone cfg mt active q q' st st' bp bp' pe pe' :
  0 <= mt -> 0 <= active -> q <= q' -> st <= st' -> bp <= bp' ->
  pe.(admission_rejects_window) <= pe'.(admission_rejects_window) ->
  pe.(route_stalls_window) <= pe'.(route_stalls_window) ->
  pressure_as_u8 (derive_target_state cfg mt (mkSignals active q st bp) pe) <=
  pressure_as_u8 (derive_target_state cfg mt (mkSignals active q' st' bp') pe').
Proof.
  intros. unfold derive_target_state. destruct (negb _); [done|]. apply state_of_score_mono.
  - split; [apply pressure_score_range | by apply pressure_score_mono].
  - apply pressure_score_range.
Qed.

Lemma pressure_target_monotone_witness :
  pressure_as_u8 (derive_target_state pressure_config_default 100 (mkSignals 4 70 0 0) (evaluator_new 0)) <=
  pressure_as_u8 (derive_target_state pressure_config_default 100 (mkSignals 4 99 2 3) (evaluator_new 0)).
Proof. apply pressure_target_monotone; cbn; lia. Defined.
