(* ===== verification/Net.v ===== *)
(** Socket addresses as the standard library has them. *)

From stdpp Require Import base list countable numbers.
From S2P Require Import Prelude.
Local Open Scope Z_scope.

Inductive IpAddr :=
  | IpV4 (octets : list Z)
  | IpV6 (octets : list Z).

(** Address and port; the flow label and the scope of an IPv6 socket address are
    left out. *)
Record SocketAddr := mkSocketAddr { sa_ip : IpAddr; sa_port : Z }.

Definition ip_ok (a : IpAddr) : Prop :=
  match a with
  | IpV4 o => length o = 4%nat /\ bytes_ok o
  | IpV6 o => length o = 16%nat /\ bytes_ok o
  end.

Definition addr_ok (a : SocketAddr) : Prop := ip_ok (sa_ip a) /\ 0 <= sa_port a < 2 ^ 16.

#[export] Instance IpAddr_eq_dec : EqDecision IpAddr.
Proof. solve_decision. Defined.
#[export] Instance SocketAddr_eq_dec : EqDecision SocketAddr.
Proof. solve_decision. Defined.

(** [Ipv6Addr::to_ipv4_mapped]: [::ffff:a.b.c.d]. *)
Definition to_ipv4_mapped (o : list Z) : option (list Z) :=
  if bool_decide (take 12 o = replicate 10 0 ++ [255; 255]) then Some (drop 12 o) else None.

#[export] Instance IpAddr_countable : Countable IpAddr.
Proof.
  apply (inj_countable' (fun a => match a with IpV4 o => inl o | IpV6 o => inr o end)
    (fun s => match s with inl o => IpV4 o | inr o => IpV6 o end)).
  by intros [].
Defined.
