(* ===== verification/Aes.v ===== *)
(** Block and stream modes of [crypto/aes.rs].

    The AES block function and the CTR keystream come from third-party crates;
    they are the operations of two type classes whose laws are what the crates
    document.  The CBC chaining, written twice in the source (into a new vector
    and in place), is modelled as it is written. *)

From stdpp Require Import base list numbers.
From S2P Require Import Prelude.
Local Open Scope Z_scope.

(** * Byte-wise exclusive or *)

Definition xor_bytes (a b : list Z) : list Z := zip_with Z.lxor a b.

Lemma lxor_byte a b : is_byte a -> is_byte b -> is_byte (Z.lxor a b).
Proof.
  unfold is_byte. intros Ha Hb. split.
  - apply Z.lxor_nonneg. lia.
  - destruct (Z.eq_dec (Z.lxor a b) 0) as [->|Hne]; [lia|].
    assert (0 <= Z.lxor a b) by (apply Z.lxor_nonneg; lia).
    change 256 with (2 ^ 8). apply Z.log2_lt_pow2; [lia|].
    pose proof (Z.log2_lxor a b ltac:(lia) ltac:(lia)).
    assert (forall x, 0 <= x < 256 -> Z.log2 x < 8) as Hl.
    { intros x Hx. destruct (Z.eq_dec x 0) as [->|]; [cbn; lia|]. apply Z.log2_lt_pow2; lia. }
    pose proof (Hl a Ha). pose proof (Hl b Hb). lia.
Qed.

Lemma xor_bytes_ok a b : bytes_ok a -> bytes_ok b -> bytes_ok (xor_bytes a b).
Proof.
  intros Ha. revert b. induction Ha as [|x a Hx _ IH]; intros b Hb; [constructor|].
  destruct Hb as [|y b Hy Hb]; constructor; [by apply lxor_byte | by apply IH].
Qed.

Lemma length_xor_bytes a b : length (xor_bytes a b) = Nat.min (length a) (length b).
Proof. unfold xor_bytes. apply length_zip_with. Qed.

Lemma xor_bytes_cancel a b : (length a <= length b)%nat -> xor_bytes (xor_bytes a b) b = a.
Proof.
  revert b. induction a as [|x a IH]; intros [|y b] Hl; cbn in *; try done; [lia|].
  fold (xor_bytes a b). change (zip_with Z.lxor) with xor_bytes.
  rewrite IH by lia. by rewrite Z.lxor_assoc, Z.lxor_nilpotent, Z.lxor_0_r.
Qed.

(** * Interfaces of the ciphers *)

Class BlockCipher := {
  encrypt_block : list Z -> list Z -> list Z;
  decrypt_block : list Z -> list Z -> list Z;
}.

Definition block_ok (b : list Z) : Prop := length b = 16%nat /\ bytes_ok b.

Class BlockCipherLaws `{BlockCipher} := {
  encrypt_block_ok key b : block_ok b -> block_ok (encrypt_block key b);
  decrypt_block_len key b : length b = 16%nat -> length (decrypt_block key b) = 16%nat;
  decrypt_encrypt_block key b : block_ok b -> decrypt_block key (encrypt_block key b) = b;
}.

(** The keystream byte at a position, for a key and an initial counter. *)
Class StreamKey := keystream : list Z -> Z -> nat -> Z.

(** * AES-256-CTR *)

Record AesCtr := mkAesCtr { ctr_key : list Z; ctr_iv : Z; ctr_pos : nat }.

Inductive CipherError := InvalidKeyLength (expected got : nat) | CryptoUnaligned (got : nat).

Definition aes_ctr_new (key : list Z) (iv : Z) : AesCtr := mkAesCtr key iv 0.

Definition ctr_from_key_iv (key iv : list Z) : result CipherError AesCtr :=
  if negb (length key =? 32)%nat then Err (InvalidKeyLength 32 (length key))
  else if negb (length iv =? 16)%nat then Err (InvalidKeyLength 16 (length iv))
  else Ok (aes_ctr_new key (of_be iv)).

(** [apply]: the data in place and the cipher advanced. *)
Definition ctr_apply `{StreamKey} (data : list Z) (c : AesCtr) : list Z * AesCtr :=
  (xor_bytes data (keystream (ctr_key c) (ctr_iv c) <$> seq (ctr_pos c) (length data)),
   mkAesCtr (ctr_key c) (ctr_iv c) (ctr_pos c + length data)).

Definition ctr_encrypt `{StreamKey} (data : list Z) (c : AesCtr) : list Z * AesCtr := ctr_apply data c.
Definition ctr_decrypt `{StreamKey} (data : list Z) (c : AesCtr) : list Z * AesCtr := ctr_encrypt data c.

(** * AES-256-CBC *)

Section cbc.
Context `{BlockCipher}.

(** [encrypt] and [decrypt]: [n] chunks of 16 bytes into a new vector. *)
Fixpoint cbc_encrypt_chunks (n : nat) (key prev data : list Z) : list Z :=
  match n with
  | O => []
  | S n =>
      let ciphertext := encrypt_block key (xor_bytes (take 16 data) prev) in
      ciphertext ++ cbc_encrypt_chunks n key ciphertext (drop 16 data)
  end.

Fixpoint cbc_decrypt_chunks (n : nat) (key prev data : list Z) : list Z :=
  match n with
  | O => []
  | S n =>
      let ciphertext := take 16 data in
      xor_bytes (decrypt_block key ciphertext) prev ++
      cbc_decrypt_chunks n key ciphertext (drop 16 data)
  end.

(** [data[i..i + block.len()] = block]. *)
Definition write_block (i : nat) (block data : list Z) : list Z :=
  take i data ++ block ++ drop (i + length block) data.

(** [encrypt_in_place] and [decrypt_in_place]: [n] steps from offset [i]. *)
Fixpoint cbc_encrypt_from (n i : nat) (key prev data : list Z) : list Z :=
  match n with
  | O => data
  | S n =>
      let block := encrypt_block key (xor_bytes (sub i 16 data) prev) in
      cbc_encrypt_from n (i + 16) key block (write_block i block data)
  end.

Fixpoint cbc_decrypt_from (n i : nat) (key prev data : list Z) : list Z :=
  match n with
  | O => data
  | S n =>
      let current_ciphertext := sub i 16 data in
      let block := xor_bytes (decrypt_block key current_ciphertext) prev in
      cbc_decrypt_from n (i + 16) key current_ciphertext (write_block i block data)
  end.

Definition unaligned (data : list Z) : bool := negb (length data mod 16 =? 0)%nat.

Definition cbc_encrypt (key iv data : list Z) : result CipherError (list Z) :=
  if unaligned data then Err (CryptoUnaligned (length data))
  else if bool_decide (data = []) then Ok []
  else Ok (cbc_encrypt_chunks (length data / 16) key iv data).

Definition cbc_decrypt (key iv data : list Z) : result CipherError (list Z) :=
  if unaligned data then Err (CryptoUnaligned (length data))
  else if bool_decide (data = []) then Ok []
  else Ok (cbc_decrypt_chunks (length data / 16) key iv data).

Definition encrypt_in_place (key iv data : list Z) : result CipherError (list Z) :=
  if unaligned data then Err (CryptoUnaligned (length data))
  else if bool_decide (data = []) then Ok data
  else Ok (cbc_encrypt_from (length data / 16) 0 key iv data).

Definition decrypt_in_place (key iv data : list Z) : result CipherError (list Z) :=
  if unaligned data then Err (CryptoUnaligned (length data))
  else if bool_decide (data = []) then Ok data
  else Ok (cbc_decrypt_from (length data / 16) 0 key iv data).

End cbc.

(** The chaining value after [out] has been written or read: its last block. *)
Definition next_iv (prev out : list Z) : list Z :=
  if (16 <=? length out)%nat then drop (length out - 16) out else prev.

(** * CTR: the position alone decides the keystream *)

Section ctr_facts.
Context `{StreamKey}.

(** Splitting the data over two calls gives the same stream. *)
Lemma ctr_apply_app a b c :
  ctr_apply (a ++ b) c =
  ((ctr_apply a c).1 ++ (ctr_apply b (ctr_apply a c).2).1, (ctr_apply b (ctr_apply a c).2).2).
Proof.
  unfold ctr_apply. cbn. rewrite !length_app, seq_app, fmap_app. f_equal; [|f_equal; lia].
  unfold xor_bytes. rewrite zip_with_app; [done|]. by rewrite length_fmap, length_seq.
Qed.

Lemma ctr_apply_twice data c : (ctr_apply (ctr_apply data c).1 c).1 = data.
Proof.
  unfold ctr_apply. cbn.
  rewrite length_xor_bytes, length_fmap, length_seq, Nat.min_id.
  apply xor_bytes_cancel. by rewrite length_fmap, length_seq.
Qed.

Lemma length_ctr_apply data c : length (ctr_apply data c).1 = length data.
Proof. unfold ctr_apply. cbn. rewrite length_xor_bytes, length_fmap, length_seq. lia. Qed.
End ctr_facts.

(** * CBC: the in-place loops agree with the vector versions *)

Section cbc_facts.
Context `{BlockCipherLaws}.

Lemma write_block_at i block data :
  (i + length block <= length data)%nat ->
  take (i + length block) (write_block i block data) = take i data ++ block /\
  drop (i + length block) (write_block i block data) = drop (i + length block) data /\
  length (write_block i block data) = length data.
Proof.
  intros Hl. unfold write_block. rewrite app_assoc.
  assert (Hp : length (take i data ++ block) = (i + length block)%nat)
    by (rewrite length_app, length_take; lia).
  split; [by rewrite take_app_length'|]. split; [by rewrite drop_app_length'|].
  rewrite length_app, Hp, length_drop. lia.
Qed.

Lemma xor_block_ok a b : block_ok a -> block_ok b -> block_ok (xor_bytes a b).
Proof.
  intros [Ha ?] [Hb ?]. split; [rewrite length_xor_bytes; lia | by apply xor_bytes_ok].
Qed.

Lemma take_block_ok n data :
  length data = (16 * S n)%nat -> bytes_ok data ->
  block_ok (take 16 data) /\ length (drop 16 data) = (16 * n)%nat /\ bytes_ok (drop 16 data).
Proof.
  intros Hl Hd. repeat split.
  - rewrite length_take. lia.
  - by apply Forall_take.
  - rewrite length_drop. lia.
  - by apply Forall_drop.
Qed.

Lemma cbc_encrypt_from_chunks n i key prev data :
  length data = (i + 16 * n)%nat -> bytes_ok data -> block_ok prev ->
  cbc_encrypt_from n i key prev data =
  take i data ++ cbc_encrypt_chunks n key prev (drop i data).
Proof.
  revert i prev data. induction n as [|n IH]; intros i prev data Hl Hd Hp; cbn.
  { by rewrite app_nil_r, firstn_all2 by lia. }
  destruct (take_block_ok n (drop i data)) as (Hb & _); [rewrite length_drop; lia | by apply Forall_drop|].
  set (c := encrypt_block key (xor_bytes (take 16 (drop i data)) prev)).
  assert (Hc : block_ok c) by (by apply encrypt_block_ok, xor_block_ok).
  change (sub i 16 data) with (take 16 (drop i data)). fold c.
  destruct (write_block_at i c data) as (Ht & Hdr & Hlen); [destruct Hc; lia|].
  destruct Hc as [Hc1 Hc2]. rewrite Hc1 in *.
  rewrite IH.
  - by rewrite Ht, Hdr, drop_drop, <- app_assoc.
  - rewrite Hlen. lia.
  - unfold write_block. repeat apply Forall_app_2; [by apply Forall_take | done | by apply Forall_drop].
  - by split.
Qed.

Lemma cbc_decrypt_from_chunks n i key prev data :
  length data = (i + 16 * n)%nat -> length prev = 16%nat ->
  cbc_decrypt_from n i key prev data =
  take i data ++ cbc_decrypt_chunks n key prev (drop i data).
Proof.
  revert i prev data. induction n as [|n IH]; intros i prev data Hl Hp; cbn.
  { by rewrite app_nil_r, firstn_all2 by lia. }
  change (sub i 16 data) with (take 16 (drop i data)).
  set (ct := take 16 (drop i data)).
  assert (Hct : length ct = 16%nat) by (unfold ct; rewrite length_take, length_drop; lia).
  set (b := xor_bytes (decrypt_block key ct) prev).
  assert (Hb : length b = 16%nat) by (unfold b; rewrite length_xor_bytes, decrypt_block_len; lia).
  destruct (write_block_at i b data) as (Ht & Hdr & Hwl); [lia|]. rewrite Hb in *.
  rewrite IH by lia. by rewrite Ht, Hdr, drop_drop, <- app_assoc.
Qed.

Lemma length_cbc_encrypt_chunks n key prev data :
  length data = (16 * n)%nat -> bytes_ok data -> block_ok prev ->
  length (cbc_encrypt_chunks n key prev data) = (16 * n)%nat /\
  bytes_ok (cbc_encrypt_chunks n key prev data).
Proof.
  revert prev data. induction n as [|n IH]; intros prev data Hl Hd Hp; cbn; [split; [done|constructor]|].
  destruct (take_block_ok n data Hl Hd) as (Hb & Hl' & Hd').
  set (c := encrypt_block _ _).
  assert (Hc : block_ok c) by (by apply encrypt_block_ok, xor_block_ok).
  destruct (IH c (drop 16 data) Hl' Hd' Hc) as [IH1 IH2]. destruct Hc as [Hc1 Hc2].
  split; [rewrite length_app; lia | by apply Forall_app_2].
Qed.

Lemma cbc_chunks_roundtrip n key prev data :
  length data = (16 * n)%nat -> bytes_ok data -> block_ok prev ->
  cbc_decrypt_chunks n key prev (cbc_encrypt_chunks n key prev data) = data.
Proof.
  revert prev data. induction n as [|n IH]; intros prev data Hl Hd Hp; cbn.
  { by destruct data. }
  destruct (take_block_ok n data Hl Hd) as (Hb & Hl' & Hd').
  set (x := xor_bytes (take 16 data) prev). set (c := encrypt_block key x).
  assert (Hx : block_ok x) by (by apply xor_block_ok).
  assert (Hc : block_ok c) by (by apply encrypt_block_ok).
  rewrite take_app_length', drop_app_length' by (destruct Hc; lia).
  unfold c at 1. rewrite decrypt_encrypt_block, IH by done.
  unfold x. rewrite xor_bytes_cancel by (destruct Hb, Hp; lia). apply take_drop.
Qed.

Lemma next_iv_app prev c out :
  length c = 16%nat -> (length out = 0 \/ 16 <= length out)%nat ->
  next_iv prev (c ++ out) = next_iv c out.
Proof.
  intros Hc Hout. unfold next_iv. rewrite length_app.
  destruct (Nat.leb_spec 16 (length c + length out)); [|lia].
  destruct (Nat.leb_spec 16 (length out)).
  - rewrite drop_app_ge by lia. f_equal. lia.
  - destruct out; [|cbn in *; lia]. rewrite app_nil_r. cbn. by rewrite Hc.
Qed.

(** Chaining across calls: a stream may be cut at any block boundary. *)
Lemma cbc_encrypt_chunks_app n m key prev a b :
  length a = (16 * n)%nat -> bytes_ok a -> block_ok prev ->
  let out := cbc_encrypt_chunks n key prev a in
  cbc_encrypt_chunks (n + m) key prev (a ++ b) =
  out ++ cbc_encrypt_chunks m key (next_iv prev out) b.
Proof.
  revert prev a. induction n as [|n IH]; intros prev a Hl Ha Hp; cbn.
  { by destruct a. }
  destruct (take_block_ok n a Hl Ha) as (Hb & Hl' & Ha').
  rewrite take_app_le, drop_app_le by lia.
  set (c := encrypt_block _ _).
  assert (Hc : block_ok c) by (by apply encrypt_block_ok, xor_block_ok).
  destruct (length_cbc_encrypt_chunks n key c (drop 16 a) Hl' Ha' Hc) as [Hlen _].
  rewrite IH, next_iv_app, <- app_assoc by (done || (destruct Hc; lia)). done.
Qed.

Lemma cbc_decrypt_chunks_app n m key prev a b :
  length a = (16 * n)%nat ->
  cbc_decrypt_chunks (n + m) key prev (a ++ b) =
  cbc_decrypt_chunks n key prev a ++ cbc_decrypt_chunks m key (next_iv prev a) b.
Proof.
  revert prev a. induction n as [|n IH]; intros prev a Hl; cbn.
  { by destruct a. }
  rewrite take_app_le, drop_app_le by lia.
  assert (Hd : length (drop 16 a) = (16 * n)%nat) by (rewrite length_drop; lia).
  rewrite IH, <- app_assoc by done. do 3 f_equal.
  rewrite <- (next_iv_app prev) by (rewrite ?length_take; lia). by rewrite take_drop.
Qed.

(** What the library functions return on whole blocks. *)
Lemma encrypt_in_place_ok key iv data :
  (length data mod 16 = 0)%nat -> bytes_ok data -> block_ok iv ->
  encrypt_in_place key iv data = Ok (cbc_encrypt_chunks (length data / 16) key iv data).
Proof.
  intros Hm Hd Hiv. unfold encrypt_in_place, unaligned. rewrite Hm. cbn [negb Nat.eqb].
  case_bool_decide as Hn; [by rewrite Hn|]. f_equal.
  rewrite cbc_encrypt_from_chunks; [by rewrite drop_0 | | done | done].
  pose proof (Nat.div_mod_eq (length data) 16). lia.
Qed.

Lemma decrypt_in_place_ok key iv data :
  (length data mod 16 = 0)%nat -> length iv = 16%nat ->
  decrypt_in_place key iv data = Ok (cbc_decrypt_chunks (length data / 16) key iv data).
Proof.
  intros Hm Hiv. unfold decrypt_in_place, unaligned. rewrite Hm. cbn [negb Nat.eqb].
  case_bool_decide as Hn; [by rewrite Hn|]. f_equal.
  rewrite cbc_decrypt_from_chunks; [by rewrite drop_0 | | done].
  pose proof (Nat.div_mod_eq (length data) 16). lia.
Qed.
End cbc_facts.
