(* ===== verification/RpcWire.v ===== *)
(** The middle-proxy RPC wire format: [transport/middle_proxy/codec.rs] (frames,
    handshake payloads, CBC records, the writer) and
    [transport/middle_proxy/wire.rs] (proxy requests). *)

From stdpp Require Import base list numbers.
From S2P Require Import Prelude Net Aes.
Local Open Scope Z_scope.

(** * Constants of [protocol/constants.rs] *)

Definition RPC_FLAG_HAS_AD_TAG : Z := 0x8.
Definition RPC_FLAG_MAGIC : Z := 0x1000.
Definition RPC_FLAG_EXTMODE2 : Z := 0x20000.
Definition RPC_FLAG_PAD : Z := 0x8000000.
Definition RPC_FLAG_INTERMEDIATE : Z := 0x20000000.
Definition RPC_FLAG_ABRIDGED : Z := 0x40000000.
Definition USE_CRC32C : Z := 0x800.

Definition RPC_NONCE_U32 : Z := 0x7acb87aa.
Definition RPC_HANDSHAKE_U32 : Z := 0x7682eef5.
Definition TL_PROXY_TAG_U32 : Z := 0xdb1e26ae.
Definition RPC_PROXY_REQ_U32 : Z := 0x36cef1ee.
Definition RPC_PROXY_ANS_U32 : Z := 0x4403da0d.
Definition RPC_CLOSE_CONN_U32 : Z := 0x1fcf425d.
Definition RPC_CLOSE_EXT_U32 : Z := 0x5eb634a2.
Definition RPC_SIMPLE_ACK_U32 : Z := 0x3bac409b.
Definition RPC_PING_U32 : Z := 0x5730a2df.
Definition RPC_PONG_U32 : Z := 0x8430eaa7.
Definition RPC_CRYPTO_AES_U32 : Z := 1.

Inductive ProtoTag := Abridged | Intermediate | Secure.

(** The variants of [ProxyError] these functions return. *)
Inductive RpcError :=
  | RpcIo
  | RpcInvalidHandshake
  | RpcCrypto.

(** * Checksums *)

Inductive RpcChecksumMode := Crc32 | Crc32c.
#[export] Instance RpcChecksumMode_eq_dec : EqDecision RpcChecksumMode.
Proof. solve_decision. Defined.

Definition from_handshake_flags (flags : Z) : RpcChecksumMode :=
  if negb (Z.land flags USE_CRC32C =? 0) then Crc32c else Crc32.

Definition advertised_flags (m : RpcChecksumMode) : Z :=
  match m with Crc32 => 0 | Crc32c => USE_CRC32C end.

(** [build_control_payload]. *)
Definition build_control_payload (tag value : Z) : list Z := to_le 4 tag ++ to_le 8 value.

(** * Nonce and handshake payloads *)

Definition build_nonce_payload (key_selector crypto_ts : Z) (nonce : list Z) : list Z :=
  to_le 4 RPC_NONCE_U32 ++ to_le 4 key_selector ++ to_le 4 RPC_CRYPTO_AES_U32 ++
  to_le 4 crypto_ts ++ nonce.

Definition parse_nonce_payload (d : list Z) : result RpcError (Z * Z * Z * list Z) :=
  if (length d <? 32)%nat then Err RpcInvalidHandshake
  else
    let t := of_le (sub 0 4 d) in
    if negb (t =? RPC_NONCE_U32) then Err RpcInvalidHandshake
    else Ok (of_le (sub 4 4 d), of_le (sub 8 4 d), of_le (sub 12 4 d), sub 16 16 d).

(** [pid16] and [utime] are the values of [process_pid16()] and [process_utime()]. *)
Definition build_handshake_payload (pid16 utime : Z) (our_ip : list Z) (our_port : Z)
    (peer_ip : list Z) (peer_port flags : Z) : list Z :=
  to_le 4 RPC_HANDSHAKE_U32 ++ to_le 4 flags ++
  our_ip ++ to_le 2 our_port ++ to_le 2 pid16 ++ to_le 4 utime ++
  peer_ip ++ to_le 2 peer_port ++ to_le 2 0 ++ to_le 4 0.

Definition parse_handshake_flags (payload : list Z) : result RpcError Z :=
  if negb (length payload =? 32)%nat then Err RpcInvalidHandshake
  else
    let hs_type := of_le (sub 0 4 payload) in
    if negb (hs_type =? RPC_HANDSHAKE_U32) then Err RpcInvalidHandshake
    else Ok (of_le (sub 4 4 payload)).

(** * Proxy requests ([wire.rs]) *)

Inductive IpMaterial := MatV4 (o : list Z) | MatV6 (o : list Z).

Definition extract_ip_material (addr : SocketAddr) : IpMaterial :=
  match sa_ip addr with
  | IpV4 o => MatV4 o
  | IpV6 o => match to_ipv4_mapped o with Some v4 => MatV4 v4 | None => MatV6 o end
  end.

Definition ipv4_to_mapped_v6_c_compat (ip : list Z) : list Z :=
  replicate 8 0 ++ to_le 4 (-0x10000) ++ ip.

Definition append_mapped_addr_and_port (buf : list Z) (addr : SocketAddr) : list Z :=
  buf ++
  match sa_ip addr with IpV4 o => ipv4_to_mapped_v6_c_compat o | IpV6 o => o end ++
  to_le 4 (sa_port addr).

Definition proxy_tag_wire_len (tag : list Z) : nat :=
  if (length tag <? 254)%nat then
    (4 + 1 + length tag + (4 - (1 + length tag) mod 4) mod 4)%nat
  else (4 + 4 + length tag + (4 - length tag mod 4) mod 4)%nat.

Definition has_ad_tag (proto_flags : Z) : bool :=
  negb (Z.land proto_flags RPC_FLAG_HAS_AD_TAG =? 0).

Definition proxy_req_payload_len (data_len : nat) (proxy_tag : option (list Z)) (proto_flags : Z)
    : nat :=
  let base_len := (4 + 4 + 8 + 20 + 20)%nat in
  let extra_len :=
    if has_ad_tag proto_flags then (4 + default 0 (proxy_tag_wire_len <$> proxy_tag))%nat
    else 0%nat in
  (base_len + extra_len + data_len)%nat.

(** [b[at..at + len(patch)].copy_from_slice(patch)]. *)
Definition patch_at (off : nat) (patch b : list Z) : list Z :=
  take off b ++ patch ++ drop (off + length patch) b.

Definition append_proxy_req_payload_into (b : list Z) (conn_id : Z)
    (client_addr our_addr : SocketAddr) (data : list Z) (proxy_tag : option (list Z))
    (proto_flags : Z) : list Z :=
  let b := b ++ to_le 4 RPC_PROXY_REQ_U32 in
  let b := b ++ to_le 4 proto_flags in
  let b := b ++ to_le 8 conn_id in
  let b := append_mapped_addr_and_port b client_addr in
  let b := append_mapped_addr_and_port b our_addr in
  let b :=
    if has_ad_tag proto_flags then
      let extra_start := length b in
      let b := b ++ to_le 4 0 in
      let b :=
        match proxy_tag with
        | None => b
        | Some tag =>
            let b := b ++ to_le 4 TL_PROXY_TAG_U32 in
            if (length tag <? 254)%nat then
              let b := b ++ [Z.of_nat (length tag) mod 256] in
              let b := b ++ tag in
              b ++ replicate ((4 - (1 + length tag) mod 4) mod 4) 0
            else
              let b := b ++ [0xfe] in
              let b := b ++ take 3 (to_le 4 (Z.of_nat (length tag))) in
              let b := b ++ tag in
              b ++ replicate ((4 - length tag mod 4) mod 4) 0
        end in
      let extra_bytes := Z.of_nat (length b - extra_start - 4) in
      patch_at extra_start (to_le 4 extra_bytes) b
    else b in
  b ++ data.

Definition build_proxy_req_payload (conn_id : Z) (client_addr our_addr : SocketAddr)
    (data : list Z) (proxy_tag : option (list Z)) (proto_flags : Z) : list Z :=
  append_proxy_req_payload_into [] conn_id client_addr our_addr data proxy_tag proto_flags.

Definition proto_flags_for_tag (tag : ProtoTag) (has_proxy_tag : bool) : Z :=
  let flags := Z.lor RPC_FLAG_MAGIC RPC_FLAG_EXTMODE2 in
  let flags := if has_proxy_tag then Z.lor flags RPC_FLAG_HAS_AD_TAG else flags in
  match tag with
  | Abridged => Z.lor flags RPC_FLAG_ABRIDGED
  | Intermediate => Z.lor flags RPC_FLAG_INTERMEDIATE
  | Secure => Z.lor (Z.lor flags RPC_FLAG_PAD) RPC_FLAG_INTERMEDIATE
  end.

(** * Frames and the writer *)

(** The checksums of the third-party crates [crc32fast] and [crc32c]. *)
Class Checksums := {
  crc32 : list Z -> Z;
  crc32c : list Z -> Z;
}.

Class ChecksumsLaws `{Checksums} := {
  crc32_u32 l : 0 <= crc32 l < 2 ^ 32;
  crc32c_u32 l : 0 <= crc32c l < 2 ^ 32;
}.

Section codec.
Context `{Checksums} `{BlockCipher}.

Definition rpc_crc (mode : RpcChecksumMode) (data : list Z) : Z :=
  match mode with Crc32 => crc32 data | Crc32c => crc32c data end.

Definition build_rpc_frame (seq_no : Z) (payload : list Z) (crc_mode : RpcChecksumMode) : list Z :=
  let total_len := (4 + 4 + length payload + 4)%nat in
  let frame := to_le 4 (Z.of_nat total_len) in
  let frame := frame ++ to_le 4 seq_no in
  let frame := frame ++ payload in
  let c := rpc_crc crc_mode frame in
  frame ++ to_le 4 c.

Definition frame_len_ok (n : Z) : bool := (12 <=? n) && (n <=? 2 ^ 24).

(** [read_rpc_frame_plaintext] on a stream that ends after [rd]; also returns
    what is left of the stream. *)
Definition read_rpc_frame_plaintext (rd : list Z) : result RpcError (Z * list Z * list Z) :=
  if (length rd <? 4)%nat then Err RpcIo
  else
    let len_buf := take 4 rd in
    let total_len := of_le len_buf in
    if negb (frame_len_ok total_len) then Err RpcInvalidHandshake
    else
      let n := (Z.to_nat total_len - 4)%nat in
      if (length (drop 4 rd) <? n)%nat then Err RpcIo
      else
        let full := len_buf ++ take n (drop 4 rd) in
        let crc_offset := (Z.to_nat total_len - 4)%nat in
        let expected_crc := of_le (sub crc_offset 4 full) in
        let actual_crc := rpc_crc Crc32 (take crc_offset full) in
        if negb (expected_crc =? actual_crc) then Err RpcInvalidHandshake
        else
          let seq_no := as_signed 32 (of_le (sub 4 4 full)) in
          let payload := sub 8 (crc_offset - 8) full in
          Ok (seq_no, payload, drop n (drop 4 rd)).

(** [pad_pattern[i % 4]] for [i] in [0..pad]. *)
Definition pad_bytes (n : nat) : list Z :=
  let pad := ((16 - n mod 16) mod 16)%nat in
  (fun i => if (i mod 4 =? 0)%nat then 4 else 0) <$> seq 0 pad.

Definition cbc_encrypt_padded (key iv plaintext : list Z)
    : result RpcError (list Z * list Z) :=
  let buf := plaintext ++ pad_bytes (length plaintext) in
  match encrypt_in_place key iv buf with
  | Err _ => Err RpcCrypto
  | Ok buf => Ok (buf, next_iv (replicate 16 0) buf)
  end.

(** Returns the next IV and the decrypted buffer. *)
Definition cbc_decrypt_inplace (key iv data : list Z) : result RpcError (list Z * list Z) :=
  let new_iv := next_iv (replicate 16 0) data in
  match decrypt_in_place key iv data with
  | Err _ => Err RpcCrypto
  | Ok data => Ok (new_iv, data)
  end.

Record RpcWriter := mkRpcWriter {
  rw_key : list Z;
  rw_iv : list Z;
  rw_seq_no : Z;
  rw_crc_mode : RpcChecksumMode;
}.

(** [encrypt_and_write_frame]: the bytes written to the socket and the writer
    whose IV has moved on. *)
Definition encrypt_and_write_frame (frame_buf : list Z) (w : RpcWriter)
    : result RpcError (list Z * RpcWriter) :=
  let frame_buf := frame_buf ++ pad_bytes (length frame_buf) in
  match encrypt_in_place (rw_key w) (rw_iv w) frame_buf with
  | Err _ => Err RpcCrypto
  | Ok buf =>
      Ok (buf, mkRpcWriter (rw_key w) (next_iv (rw_iv w) buf) (rw_seq_no w) (rw_crc_mode w))
  end.

Definition bump_seq (w : RpcWriter) : RpcWriter :=
  mkRpcWriter (rw_key w) (rw_iv w) (wrap_signed 32 (rw_seq_no w + 1)) (rw_crc_mode w).

Definition writer_send (payload : list Z) (w : RpcWriter) : result RpcError (list Z * RpcWriter) :=
  let frame_buf := build_rpc_frame (rw_seq_no w) payload (rw_crc_mode w) in
  encrypt_and_write_frame frame_buf (bump_seq w).

Record ProxyReqCommand := mkProxyReq {
  pr_conn_id : Z;
  pr_client_addr : SocketAddr;
  pr_our_addr : SocketAddr;
  pr_proto_flags : Z;
  pr_proxy_tag : option (list Z);
  pr_payload : list Z;
}.

(** [send_proxy_req]: the frame is encoded in place, its length computed beforehand. *)
Definition proxy_req_frame (c : ProxyReqCommand) (w : RpcWriter) : list Z :=
  let payload_len := proxy_req_payload_len (length (pr_payload c)) (pr_proxy_tag c) (pr_proto_flags c) in
  let total_len := (4 + 4 + payload_len + 4)%nat in
  let frame_buf := to_le 4 (Z.of_nat total_len) in
  let frame_buf := frame_buf ++ to_le 4 (rw_seq_no w) in
  let frame_buf := append_proxy_req_payload_into frame_buf (pr_conn_id c) (pr_client_addr c)
                     (pr_our_addr c) (pr_payload c) (pr_proxy_tag c) (pr_proto_flags c) in
  frame_buf ++ to_le 4 (rpc_crc (rw_crc_mode w) frame_buf).

Definition send_proxy_req (c : ProxyReqCommand) (w : RpcWriter)
    : result RpcError (list Z * RpcWriter) :=
  encrypt_and_write_frame (proxy_req_frame c w) (bump_seq w).

End codec.
