(* ===== verification/RpcReader.v ===== *)
(** The receive path of the middle-proxy reader up to the message handler
    ([transport/middle_proxy/reader.rs], the byte part of [reader_loop]):
    CBC records are decrypted as they complete, frames are cut from the
    decrypted stream, checked and handed over one by one. *)

From stdpp Require Import base list numbers.
From S2P Require Import Prelude Net Aes RpcWire.
Local Open Scope Z_scope.

(** * Definitions *)

Section reader.
Context `{Checksums} `{BlockCipher}.

(** The outcome of looking at the front of the decrypted buffer. *)
Inductive FrameStep :=
  | StNeedMore
  | StFiller (rest : list Z)
  | StBadLength
  | StCrcMismatch
  | StSeqMismatch (expected got : Z)
  | StFrame (payload rest : list Z).

(** One iteration of [while dec.len() >= 12] up to the payload. *)
Definition frame_step (mode : RpcChecksumMode) (expected_seq : Z) (dec : list Z) : FrameStep :=
  if (length dec <? 12)%nat then StNeedMore
  else
    let fl := of_le (sub 0 4 dec) in
    if fl =? 4 then StFiller (drop 4 dec)
    else if negb (frame_len_ok fl) then StBadLength
    else if (length dec <? Z.to_nat fl)%nat then StNeedMore
    else
      let frame := take (Z.to_nat fl) dec in
      let rest := drop (Z.to_nat fl) dec in
      let pe := (Z.to_nat fl - 4)%nat in
      let ec := of_le (sub pe 4 frame) in
      let actual_crc := rpc_crc mode (take pe frame) in
      if negb (actual_crc =? ec) then StCrcMismatch
      else
        let seq_no := as_signed 32 (of_le (sub 4 4 frame)) in
        if negb (seq_no =? expected_seq) then StSeqMismatch expected_seq seq_no
        else StFrame (sub 8 (pe - 8) frame) rest.

(** Why the loop has stopped. *)
Inductive LoopEnd :=
  | LeNeedMore
  | LeCleared
  | LeBreak
  | LeCrcMismatch
  | LeSeqMismatch (expected got : Z)
  | LeOutOfFuel.

(** The message handler: the new state of the reader's tables, and whether the
    handler leaves the loop. *)
Context {St : Type} (handle : list Z -> St -> St * bool).

Fixpoint frame_loop (fuel : nat) (mode : RpcChecksumMode) (expected_seq : Z) (dec : list Z)
    (st : St) : LoopEnd * (Z * list Z * St) :=
  match fuel with
  | O => (LeOutOfFuel, (expected_seq, dec, st))
  | S fuel =>
      match frame_step mode expected_seq dec with
      | StNeedMore => (LeNeedMore, (expected_seq, dec, st))
      | StFiller rest => frame_loop fuel mode expected_seq rest st
      | StBadLength => (LeCleared, (expected_seq, [], st))
      | StCrcMismatch => (LeCrcMismatch, (expected_seq, dec, st))
      | StSeqMismatch e g => (LeSeqMismatch e g, (expected_seq, dec, st))
      | StFrame payload rest =>
          let expected_seq := wrap_signed 32 (expected_seq + 1) in
          if (length payload <? 4)%nat then frame_loop fuel mode expected_seq rest st
          else
            let '(st, brk) := handle payload st in
            if (brk : bool) then (LeBreak, (expected_seq, rest, st))
            else frame_loop fuel mode expected_seq rest st
      end
  end.

(** Every iteration consumes at least four bytes. *)
Definition run_frames (mode : RpcChecksumMode) (expected_seq : Z) (dec : list Z) (st : St)
    : LoopEnd * (Z * list Z * St) :=
  frame_loop (S (length dec)) mode expected_seq dec st.

(** The byte-level state of [reader_loop]. *)
Record ReaderBytes := mkReaderBytes {
  rb_raw : list Z;
  rb_div : list Z;
  rb_dec : list Z;
  rb_expected_seq : Z;
  rb_state : St;
}.

Inductive ReaderError := RdCrypto | RdCrcMismatch | RdSeqNoMismatch (expected got : Z) | RdFuel.

(** Complete blocks of [raw] are decrypted and appended to [dec]. *)
Definition absorb (dk : list Z) (tmp : list Z) (rb : ReaderBytes) : result ReaderError ReaderBytes :=
  let raw := rb_raw rb ++ tmp in
  let blocks := (length raw / 16 * 16)%nat in
  if (0 <? blocks)%nat then
    let chunk := take blocks raw in
    let new_iv := sub (blocks - 16) 16 chunk in
    match decrypt_in_place dk (rb_div rb) chunk with
    | Err _ => Err RdCrypto
    | Ok chunk =>
        Ok (mkReaderBytes (drop blocks raw) new_iv (rb_dec rb ++ chunk) (rb_expected_seq rb)
              (rb_state rb))
    end
  else Ok (mkReaderBytes raw (rb_div rb) (rb_dec rb) (rb_expected_seq rb) (rb_state rb)).

(** One successful [rd.read]: decrypt, then cut frames. *)
Definition read_segment (dk : list Z) (mode : RpcChecksumMode) (tmp : list Z) (rb : ReaderBytes)
    : result ReaderError ReaderBytes :=
  match absorb dk tmp rb with
  | Err e => Err e
  | Ok rb =>
      match run_frames mode (rb_expected_seq rb) (rb_dec rb) (rb_state rb) with
      | (LeNeedMore, (sq, dec, st)) | (LeCleared, (sq, dec, st)) | (LeBreak, (sq, dec, st)) =>
          Ok (mkReaderBytes (rb_raw rb) (rb_div rb) dec sq st)
      | (LeCrcMismatch, _) => Err RdCrcMismatch
      | (LeSeqMismatch e g, _) => Err (RdSeqNoMismatch e g)
      | (LeOutOfFuel, _) => Err RdFuel
      end
  end.

Fixpoint read_segments (dk : list Z) (mode : RpcChecksumMode) (segs : list (list Z))
    (rb : ReaderBytes) : result ReaderError ReaderBytes :=
  match segs with
  | [] => Ok rb
  | tmp :: segs =>
      match read_segment dk mode tmp rb with
      | Err e => Err e
      | Ok rb => read_segments dk mode segs rb
      end
  end.

(** * Fuel *)

Lemma frame_len_ok_spec n : frame_len_ok n = true <-> 12 <= n <= 2 ^ 24.
Proof. unfold frame_len_ok. rewrite andb_true_iff, !Z.leb_le. lia. Qed.

(** Steps that go on leave a shorter buffer. *)
Lemma frame_step_shorter mode sq dec :
  match frame_step mode sq dec with
  | StFiller rest | StFrame _ rest => (length rest < length dec)%nat
  | _ => True
  end.
Proof.
  unfold frame_step. destruct (Nat.ltb_spec (length dec) 12); [done|].
  destruct (of_le _ =? 4) eqn:E4; [rewrite length_drop; lia|].
  destruct (frame_len_ok _) eqn:Hok; [|done]. apply frame_len_ok_spec in Hok. cbn [negb].
  destruct (_ <? _)%nat; [done|]. destruct (negb _); [done|]. destruct (negb _); [done|].
  rewrite length_drop. lia.
Qed.

Lemma frame_loop_fuel fuel mode sq dec st :
  (length dec < fuel)%nat -> frame_loop fuel mode sq dec st = run_frames mode sq dec st.
Proof.
  unfold run_frames.
  assert (Hgen : forall f1 f2 sq dec st, (length dec < f1)%nat -> (length dec < f2)%nat ->
    frame_loop f1 mode sq dec st = frame_loop f2 mode sq dec st).
  { clear. induction f1 as [|f1 IH]; intros [|f2] sq dec st H1 H2; try lia. cbn.
    pose proof (frame_step_shorter mode sq dec) as Hs.
    destruct (frame_step mode sq dec) as [|rest| | | |payload rest]; try done.
    - apply IH; lia.
    - case_match; [apply IH; lia|]. destruct (handle payload st) as [st' []]; [done|]. apply IH; lia. }
  intros. apply Hgen; lia.
Qed.

(** The loop without fuel. *)
Lemma run_frames_unfold mode sq dec st :
  run_frames mode sq dec st =
  match frame_step mode sq dec with
  | StNeedMore => (LeNeedMore, (sq, dec, st))
  | StFiller rest => run_frames mode sq rest st
  | StBadLength => (LeCleared, (sq, [], st))
  | StCrcMismatch => (LeCrcMismatch, (sq, dec, st))
  | StSeqMismatch e g => (LeSeqMismatch e g, (sq, dec, st))
  | StFrame payload rest =>
      let sq := wrap_signed 32 (sq + 1) in
      if (length payload <? 4)%nat then run_frames mode sq rest st
      else
        let '(st, brk) := handle payload st in
        if (brk : bool) then (LeBreak, (sq, rest, st)) else run_frames mode sq rest st
  end.
Proof.
  unfold run_frames at 1. cbn [frame_loop].
  pose proof (frame_step_shorter mode sq dec) as Hs.
  destruct (frame_step mode sq dec) as [|rest| | | |payload rest]; try done.
  - by apply frame_loop_fuel.
  - cbv zeta. case_match; [by apply frame_loop_fuel|].
    destruct (handle payload st) as [st' []]; [done|]. by apply frame_loop_fuel.
Qed.

(** Induction on the length of the buffer. *)
Lemma run_frames_ind (P : Z -> list Z -> St -> Prop) :
  (forall sq dec st,
     (forall sq' rest st', (length rest < length dec)%nat -> P sq' rest st') -> P sq dec st) ->
  forall sq dec st, P sq dec st.
Proof.
  intros Hstep sq dec. remember (length dec) as n eqn:Hn. revert sq dec Hn.
  induction n as [n IH] using lt_wf_ind. intros sq dec -> st. apply Hstep.
  intros sq' rest st' Hlt. by apply (IH (length rest)).
Qed.

Lemma run_frames_no_fuel mode sq dec st : (run_frames mode sq dec st).1 <> LeOutOfFuel.
Proof.
  revert sq dec st. apply run_frames_ind. intros sq dec st IH.
  rewrite run_frames_unfold. pose proof (frame_step_shorter mode sq dec) as Hs.
  destruct (frame_step mode sq dec) as [|rest| | | |payload rest]; try done.
  - by apply IH.
  - cbv zeta. case_match; [by apply IH|].
    destruct (handle payload st) as [st' []]; [done|]. by apply IH.
Qed.

(** What the handler preserves, the loop preserves. *)
Lemma run_frames_state (P : St -> Prop) mode sq dec st :
  (forall p st, P st -> P (handle p st).1) -> P st -> P (run_frames mode sq dec st).2.2.
Proof.
  intros Hh. revert sq dec st.
  apply (run_frames_ind (fun sq dec st => P st -> P (run_frames mode sq dec st).2.2)).
  intros sq dec st IH HP. rewrite run_frames_unfold.
  pose proof (frame_step_shorter mode sq dec) as Hs.
  destruct (frame_step mode sq dec) as [|rest| | | |payload rest]; try done.
  - by apply IH.
  - cbv zeta. case_match; [by apply IH|]. pose proof (Hh payload st HP) as HP'.
    destruct (handle payload st) as [st' []]; [done|]. by apply IH.
Qed.

Lemma absorb_state dk tmp rb rb' : absorb dk tmp rb = Ok rb' -> rb_state rb' = rb_state rb.
Proof. unfold absorb. cbv zeta. case_match; [case_match|]; intros [= <-]; done. Qed.

Lemma read_segment_state (P : St -> Prop) dk mode tmp rb rb' :
  (forall p st, P st -> P (handle p st).1) -> P (rb_state rb) ->
  read_segment dk mode tmp rb = Ok rb' -> P (rb_state rb').
Proof.
  intros Hh HP. unfold read_segment. destruct (absorb dk tmp rb) as [rb1|] eqn:Ha; [|done].
  rewrite <- (absorb_state _ _ _ _ Ha) in HP.
  pose proof (run_frames_state P mode (rb_expected_seq rb1) (rb_dec rb1) (rb_state rb1) Hh HP) as HP'.
  destruct (run_frames mode (rb_expected_seq rb1) (rb_dec rb1) (rb_state rb1)) as [[] [[sq dec] st]];
    intros [= <-]; exact HP'.
Qed.

(** The only errors are the two mismatches. *)
Lemma absorb_total dk tmp rb : exists rb', absorb dk tmp rb = Ok rb'.
Proof.
  unfold absorb. cbv zeta. set (l := rb_raw rb ++ tmp).
  destruct (Nat.ltb_spec 0 (length l / 16 * 16)); [|eauto].
  unfold decrypt_in_place, unaligned.
  assert (Hle : (length l / 16 * 16 <= length l)%nat)
    by (pose proof (Nat.div_mod_eq (length l) 16); lia).
  rewrite length_take, Nat.min_l, Nat.Div0.mod_mul by done. cbn [negb Nat.eqb].
  case_bool_decide; eauto.
Qed.

Lemma read_segment_errors dk mode tmp rb e :
  read_segment dk mode tmp rb = Err e ->
  e = RdCrcMismatch \/ exists exp got, e = RdSeqNoMismatch exp got.
Proof.
  unfold read_segment. destruct (absorb_total dk tmp rb) as [rb1 ->].
  pose proof (run_frames_no_fuel mode (rb_expected_seq rb1) (rb_dec rb1) (rb_state rb1)) as Hf.
  destruct (run_frames mode _ _ _) as [[] [[sq dec] st]]; intros [= <-]; eauto. done.
Qed.

(** * Segmentation *)

(** A step that does not need more bytes does not look at the bytes after it. *)
Lemma frame_step_app mode sq a b :
  match frame_step mode sq a with
  | StNeedMore => True
  | StFiller rest => frame_step mode sq (a ++ b) = StFiller (rest ++ b)
  | StFrame payload rest => frame_step mode sq (a ++ b) = StFrame payload (rest ++ b)
  | s => frame_step mode sq (a ++ b) = s
  end.
Proof.
  unfold frame_step. destruct (Nat.ltb_spec (length a) 12); [done|].
  rewrite length_app. destruct (Nat.ltb_spec (length a + length b) 12); [lia|].
  assert (Hs : sub 0 4 (a ++ b) = sub 0 4 a) by (unfold sub; rewrite !drop_0, take_app_le by lia; done).
  rewrite Hs. set (fl := of_le (sub 0 4 a)).
  destruct (fl =? 4). { by rewrite drop_app_le by lia. }
  destruct (frame_len_ok fl); cbn [negb]; [|done].
  destruct (Nat.ltb_spec (length a) (Z.to_nat fl)); [done|].
  destruct (Nat.ltb_spec (length a + length b) (Z.to_nat fl)); [lia|].
  rewrite take_app_le, drop_app_le by lia.
  destruct (negb _); [done|]. destruct (negb _); done.
Qed.

(** Running on a prefix, then on what it leaves followed by the rest, is
    running on the whole; a prefix that stops for another reason stops the
    whole for that reason. *)
Lemma run_frames_app mode b sq a st :
  let '(e, (sq', r, st')) := run_frames mode sq a st in
  match e with
  | LeNeedMore => run_frames mode sq (a ++ b) st = run_frames mode sq' (r ++ b) st'
  | _ => (run_frames mode sq (a ++ b) st).1 = e
  end.
Proof.
  revert sq a st. apply run_frames_ind. intros sq a st IH.
  rewrite (run_frames_unfold mode sq a).
  pose proof (frame_step_shorter mode sq a) as Hs. pose proof (frame_step_app mode sq a b) as Happ.
  destruct (frame_step mode sq a) as [|rest| | |e g|payload rest].
  - done.
  - rewrite (run_frames_unfold mode sq (a ++ b)), Happ. by apply IH.
  - by rewrite (run_frames_unfold mode sq (a ++ b)), Happ.
  - by rewrite (run_frames_unfold mode sq (a ++ b)), Happ.
  - by rewrite (run_frames_unfold mode sq (a ++ b)), Happ.
  - rewrite (run_frames_unfold mode sq (a ++ b)), Happ. cbv zeta.
    destruct (length payload <? 4)%nat; [by apply IH|].
    destruct (handle payload st) as [st' []]; [done|]. by apply IH.
Qed.

Context `{!BlockCipherLaws}.
Context (dk : list Z) (mode : RpcChecksumMode) (iv0 : list Z) (sq0 : Z) (st0 : St).
Hypothesis (Hiv0 : length iv0 = 16%nat).

(** The reader after the ciphertext [X], as long as no frame has stopped it. *)
Definition caught_up (X : list Z) (rb : ReaderBytes) : Prop :=
  exists n A r, X = A ++ r /\ length A = (16 * n)%nat /\ (length r < 16)%nat /\
    rb_raw rb = r /\ rb_div rb = next_iv iv0 A /\
    run_frames mode sq0 (cbc_decrypt_chunks n dk iv0 A) st0 =
      (LeNeedMore, (rb_expected_seq rb, rb_dec rb, rb_state rb)).

(** The plaintext of the complete blocks of [X]. *)
Definition plaintext_of (X : list Z) : list Z :=
  cbc_decrypt_chunks (length X / 16) dk iv0 (take (16 * (length X / 16)) X).

Lemma split_blocks (l : list Z) :
  let m := (length l / 16)%nat in
  l = take (16 * m) l ++ drop (16 * m) l /\ length (take (16 * m) l) = (16 * m)%nat /\
  (length (drop (16 * m) l) < 16)%nat.
Proof.
  intros m. pose proof (Nat.div_mod_eq (length l) 16).
  pose proof (Nat.mod_upper_bound (length l) 16 ltac:(lia)).
  rewrite take_drop, length_take, length_drop. unfold m. repeat split; lia.
Qed.

Lemma plaintext_of_blocks n A r :
  length A = (16 * n)%nat -> (length r < 16)%nat ->
  plaintext_of (A ++ r) = cbc_decrypt_chunks n dk iv0 A.
Proof.
  intros HA Hr. unfold plaintext_of.
  assert (length (A ++ r) / 16 = n)%nat as ->.
  { rewrite length_app, HA, (Nat.mul_comm 16). rewrite Nat.div_add_l, Nat.div_small by lia. lia. }
  by rewrite take_app_length' by lia.
Qed.

Lemma next_iv_length prev out : length prev = 16%nat -> length (next_iv prev out) = 16%nat.
Proof.
  intros Hp. unfold next_iv. destruct (Nat.leb_spec 16 (length out)); [rewrite length_drop; lia | done].
Qed.

Lemma next_iv_last prev prev' A out :
  (16 <= length out)%nat -> next_iv prev (A ++ out) = next_iv prev' out.
Proof.
  intros Ho. unfold next_iv. rewrite length_app.
  destruct (Nat.leb_spec 16 (length A + length out)); [|lia].
  destruct (Nat.leb_spec 16 (length out)); [|lia]. rewrite drop_app_ge by lia. f_equal. lia.
Qed.

(** What [absorb] does to a reader that has consumed [A]. *)
Lemma absorb_blocks n A r tmp dec sq st :
  length A = (16 * n)%nat ->
  exists m B r', r ++ tmp = B ++ r' /\ length B = (16 * m)%nat /\ (length r' < 16)%nat /\
    absorb dk tmp (mkReaderBytes r (next_iv iv0 A) dec sq st) =
      Ok (mkReaderBytes r' (next_iv iv0 (A ++ B))
            (dec ++ cbc_decrypt_chunks m dk (next_iv iv0 A) B) sq st).
Proof.
  intros HA. set (l := r ++ tmp). destruct (split_blocks l) as (Hl & HB & Hr').
  set (m := (length l / 16)%nat) in *.
  exists m, (take (16 * m) l), (drop (16 * m) l). split; [done|]. split; [done|]. split; [done|].
  unfold absorb. cbn [rb_raw rb_div rb_dec rb_expected_seq rb_state]. fold l. fold m.
  rewrite (Nat.mul_comm m 16). destruct (Nat.ltb_spec 0 (16 * m)) as [Hpos|Hz].
  - rewrite decrypt_in_place_ok; [|by rewrite HB, Nat.mul_comm, Nat.Div0.mod_mul
      |by apply next_iv_length].
    rewrite HB, (Nat.mul_comm 16 m), Nat.div_mul, (Nat.mul_comm m 16) by lia.
    rewrite (next_iv_last iv0 iv0) by lia.
    assert (Hlast : sub (16 * m - 16) 16 (take (16 * m) l) = next_iv iv0 (take (16 * m) l)).
    { unfold next_iv. rewrite HB. destruct (Nat.leb_spec 16 (16 * m)); [|lia].
      unfold sub. rewrite firstn_all2; [done|]. rewrite length_drop. lia. }
    by rewrite Hlast.
  - assert (m = 0%nat) as -> by lia. cbn. by rewrite !app_nil_r, drop_0.
Qed.

Lemma caught_up_step X tmp rb :
  caught_up X rb -> (run_frames mode sq0 (plaintext_of (X ++ tmp)) st0).1 = LeNeedMore ->
  exists rb', read_segment dk mode tmp rb = Ok rb' /\ caught_up (X ++ tmp) rb'.
Proof.
  intros (n & A & r & -> & HA & Hr & Hraw & Hdiv & Hrun) Hend.
  destruct rb as [raw div dec sq st].
  cbn [rb_raw rb_div rb_dec rb_expected_seq rb_state] in *. subst raw div.
  destruct (absorb_blocks n A r tmp dec sq st HA) as (m & B & r' & Hsplit & HB & Hr' & Habs).
  assert (HX : (A ++ r) ++ tmp = (A ++ B) ++ r') by (rewrite <- !app_assoc; by f_equal).
  assert (HAB : length (A ++ B) = (16 * (n + m))%nat) by (rewrite length_app; lia).
  rewrite HX, (plaintext_of_blocks (n + m)) in Hend by done.
  rewrite cbc_decrypt_chunks_app in Hend by done.
  pose proof (run_frames_app mode (cbc_decrypt_chunks m dk (next_iv iv0 A) B) sq0
    (cbc_decrypt_chunks n dk iv0 A) st0) as Happ. rewrite Hrun in Happ.
  unfold read_segment. rewrite Habs. cbn [rb_raw rb_div rb_dec rb_expected_seq rb_state].
  rewrite Happ in Hend.
  destruct (run_frames mode sq _ st) as [e [[sq' dec'] st']] eqn:Hrun'. cbn in Hend. subst e.
  eexists. split; [reflexivity|]. exists (n + m)%nat, (A ++ B), r'.
  repeat split; try done. by rewrite cbc_decrypt_chunks_app, Happ.
Qed.

(** A prefix of a stream that needs more bytes needs more bytes. *)
Lemma need_more_prefix X Y :
  (run_frames mode sq0 (plaintext_of (X ++ Y)) st0).1 = LeNeedMore ->
  (run_frames mode sq0 (plaintext_of X) st0).1 = LeNeedMore.
Proof.
  destruct (split_blocks X) as (HX & HA & Hr). set (n := (length X / 16)%nat) in *.
  set (A := take (16 * n) X) in *. set (r := drop (16 * n) X) in *.
  destruct (split_blocks (r ++ Y)) as (HY & HB & Hr'). set (m := (length (r ++ Y) / 16)%nat) in *.
  set (B := take (16 * m) (r ++ Y)) in *. set (r' := drop (16 * m) (r ++ Y)) in *.
  assert (HXY : X ++ Y = (A ++ B) ++ r') by (rewrite HX, <- !app_assoc, HY; done).
  rewrite HXY, (plaintext_of_blocks (n + m)) by (rewrite ?length_app; lia).
  rewrite HX, (plaintext_of_blocks n), cbc_decrypt_chunks_app by done.
  pose proof (run_frames_app mode (cbc_decrypt_chunks m dk (next_iv iv0 A) B) sq0
    (cbc_decrypt_chunks n dk iv0 A) st0) as Happ.
  destruct (run_frames mode sq0 (cbc_decrypt_chunks n dk iv0 A) st0) as [e [[? ?] ?]].
  cbn [fst]. destruct e; [done|..]; rewrite Happ; done.
Qed.

Lemma read_segments_caught_up segs X rb :
  caught_up X rb -> (run_frames mode sq0 (plaintext_of (X ++ concat segs)) st0).1 = LeNeedMore ->
  exists rb', read_segments dk mode segs rb = Ok rb' /\ caught_up (X ++ concat segs) rb'.
Proof.
  revert X rb. induction segs as [|tmp segs IH]; intros X rb Hcu Hend;
    cbn [concat read_segments] in *.
  { rewrite app_nil_r. eauto. }
  rewrite app_assoc in Hend.
  destruct (caught_up_step X tmp rb Hcu (need_more_prefix _ _ Hend)) as (rb1 & Hrd & Hcu1).
  rewrite Hrd, app_assoc. by apply IH.
Qed.
End reader.
