(* ===== verification/RpcStream.v ===== *)
(** The middle-proxy RPC stream end to end: what [RpcWriter] writes is what the
    reader hands to its message handler, however the network cuts the bytes. *)

From stdpp Require Import base list numbers.
From S2P Require Import Prelude Net Aes RpcWire RpcReader.
Local Open Scope Z_scope.

(** * Proxy requests *)

(** The request as a concatenation of its fields. *)
Definition addr_field (a : SocketAddr) : list Z :=
  match sa_ip a with IpV4 o => ipv4_to_mapped_v6_c_compat o | IpV6 o => o end ++
  to_le 4 (sa_port a).

Definition tag_field (tag : list Z) : list Z :=
  to_le 4 TL_PROXY_TAG_U32 ++
  (if (length tag <? 254)%nat then
     [Z.of_nat (length tag) mod 256] ++ tag ++ replicate ((4 - (1 + length tag) mod 4) mod 4) 0
   else
     [0xfe] ++ take 3 (to_le 4 (Z.of_nat (length tag))) ++ tag ++
     replicate ((4 - length tag mod 4) mod 4) 0).

Definition extra_field (tag : option (list Z)) (flags : Z) : list Z :=
  if has_ad_tag flags then
    let body := default [] (tag_field <$> tag) in
    to_le 4 (Z.of_nat (length body)) ++ body
  else [].

Definition proxy_req_fields (id : Z) (ca oa : SocketAddr) (data : list Z) (tag : option (list Z))
    (flags : Z) : list Z :=
  to_le 4 RPC_PROXY_REQ_U32 ++ to_le 4 flags ++ to_le 8 id ++ addr_field ca ++ addr_field oa ++
  extra_field tag flags ++ data.

Lemma patch_word x z w y :
  length z = length w -> patch_at (length x) w (x ++ z ++ y) = x ++ w ++ y.
Proof.
  intros Hz. unfold patch_at. rewrite take_app_length, drop_app_add, <- Hz, drop_app_length. done.
Qed.

Lemma append_proxy_req_fields b id ca oa data tag flags :
  append_proxy_req_payload_into b id ca oa data tag flags =
  b ++ proxy_req_fields id ca oa data tag flags.
Proof.
  unfold append_proxy_req_payload_into, proxy_req_fields, extra_field.
  set (x := append_mapped_addr_and_port _ oa).
  assert (Hx : x = b ++ to_le 4 RPC_PROXY_REQ_U32 ++ to_le 4 flags ++ to_le 8 id ++
                   addr_field ca ++ addr_field oa).
  { unfold x, append_mapped_addr_and_port, addr_field. by rewrite <- !app_assoc. }
  destruct (has_ad_tag flags); [|by rewrite Hx, <- !app_assoc].
  match goal with |- context [patch_at _ _ ?z] => set (y := z) end.
  set (body := default [] (tag_field <$> tag)).
  assert (Hy : y = x ++ to_le 4 0 ++ body).
  { unfold y, body. destruct tag as [tag|]; [|by rewrite app_nil_r]. cbn [fmap option_fmap option_map default].
    unfold tag_field. destruct (length tag <? 254)%nat; by rewrite <- !app_assoc. }
  rewrite Hy. rewrite patch_word by done.
  replace (length (x ++ to_le 4 0 ++ body) - length x - 4)%nat with (length body)
    by (rewrite !length_app, length_to_le; lia).
  rewrite Hx. by rewrite <- !app_assoc.
Qed.

Lemma length_addr_field a : addr_ok a -> length (addr_field a) = 20%nat.
Proof.
  intros [Hip _]. unfold addr_field.
  destruct (sa_ip a) as [o|o]; destruct Hip as [Ho _]; unfold ipv4_to_mapped_v6_c_compat;
    rewrite !length_app, ?length_replicate, !length_to_le; lia.
Qed.

Lemma length_tag_field tag : length (tag_field tag) = proxy_tag_wire_len tag.
Proof.
  unfold tag_field, proxy_tag_wire_len. destruct (length tag <? 254)%nat;
    rewrite !length_app, ?length_replicate, ?length_take, !length_to_le; cbn [length]; lia.
Qed.

(** A tag occupies a whole number of words. *)
Lemma tag_wire_len_aligned tag : (proxy_tag_wire_len tag mod 4 = 0)%nat.
Proof.
  unfold proxy_tag_wire_len. assert (Hw : forall k, ((k + (4 - k mod 4) mod 4) mod 4 = 0)%nat).
  { intros k. pose proof (Nat.div_mod_eq k 4). pose proof (Nat.mod_upper_bound k 4 ltac:(lia)).
    rewrite Nat.Div0.add_mod_idemp_r.
    replace (k + (4 - k mod 4))%nat with ((k / 4 + 1) * 4)%nat by lia. apply Nat.Div0.mod_mul. }
  assert (H4 : forall a b, (a mod 4 = 0 -> b mod 4 = 0 -> (a + b) mod 4 = 0)%nat).
  { intros a b Ha Hb. by rewrite Nat.Div0.add_mod, Ha, Hb. }
  destruct (length tag <? 254)%nat.
  - replace (4 + 1 + length tag + (4 - (1 + length tag) mod 4) mod 4)%nat
      with (4 + ((1 + length tag) + (4 - (1 + length tag) mod 4) mod 4))%nat by lia.
    by apply H4.
  - replace (4 + 4 + length tag + (4 - length tag mod 4) mod 4)%nat
      with (8 + (length tag + (4 - length tag mod 4) mod 4))%nat by lia.
    by apply H4.
Qed.

Lemma length_proxy_req_fields id ca oa data tag flags :
  addr_ok ca -> addr_ok oa ->
  length (proxy_req_fields id ca oa data tag flags) = proxy_req_payload_len (length data) tag flags.
Proof.
  intros Hca Hoa. unfold proxy_req_fields, extra_field, proxy_req_payload_len.
  rewrite !length_app, !length_to_le, !length_addr_field by done.
  destruct (has_ad_tag flags); [|cbn [length]; lia].
  rewrite length_app, length_to_le. destruct tag as [tag|].
  - change (default [] (tag_field <$> Some tag)) with (tag_field tag).
    change (default 0%nat (proxy_tag_wire_len <$> Some tag)) with (proxy_tag_wire_len tag).
    rewrite length_tag_field. lia.
  - cbn. lia.
Qed.

(** * Frames *)

(** Payloads as the proxy sends them: whole words, within the frame limit. *)
Record payload_ok (p : list Z) : Prop := {
  po_words : (length p mod 4 = 0)%nat;
  po_min : (4 <= length p)%nat;
  po_max : Z.of_nat (length p) + 12 <= 2 ^ 24;
  po_bytes : bytes_ok p;
}.

Section stream.
Context `{Checksums} `{!ChecksumsLaws}.

Definition i32_ok (z : Z) : Prop := - 2 ^ 31 <= z < 2 ^ 31.

Lemma rpc_crc_u32 m l : 0 <= rpc_crc m l < 2 ^ 32.
Proof. destruct m; [apply crc32_u32 | apply crc32c_u32]. Qed.

Lemma length_build_rpc_frame sq p m : length (build_rpc_frame sq p m) = (length p + 12)%nat.
Proof. unfold build_rpc_frame. rewrite !length_app, !length_to_le. lia. Qed.

Lemma build_rpc_frame_bytes sq p m : bytes_ok p -> bytes_ok (build_rpc_frame sq p m).
Proof.
  intros Hp. unfold build_rpc_frame. repeat apply Forall_app_2; try apply to_le_bytes_ok. done.
Qed.

(** The fields of a frame followed by anything. *)
Lemma frame_fields sq p m tail :
  i32_ok sq -> Z.of_nat (length p) + 12 <= 2 ^ 24 ->
  let f := build_rpc_frame sq p m in
  let n := (length p + 12)%nat in
  of_le (sub 0 4 (f ++ tail)) = Z.of_nat n /\
  take n (f ++ tail) = f /\ drop n (f ++ tail) = tail /\
  of_le (sub (n - 4) 4 f) = rpc_crc m (take (n - 4) f) /\
  as_signed 32 (of_le (sub 4 4 f)) = sq /\ sub 8 (n - 4 - 8) f = p.
Proof.
  intros Hsq Hlen f n. pose proof (length_build_rpc_frame sq p m) as Hf. fold f in Hf.
  set (head := (to_le 4 (Z.of_nat n) ++ to_le 4 sq) ++ p).
  assert (Hfe : f = head ++ to_le 4 (rpc_crc m head)).
  { unfold f, build_rpc_frame, head.
    by replace (4 + 4 + length p + 4)%nat with n by (unfold n; lia). }
  assert (Hh : length head = (n - 4)%nat)
    by (unfold head, n; rewrite !length_app, !length_to_le; lia).
  split.
  { rewrite Hfe. unfold head. rewrite <- !app_assoc. rewrite sub_hit by (by rewrite length_to_le).
    apply of_le_to_le. change (256 ^ Z.of_nat 4) with (2 ^ 32). lia. }
  split; [by rewrite take_app_length' by lia|]. split; [by rewrite drop_app_length' by lia|].
  split.
  { rewrite Hfe. rewrite take_app_length' by done. rewrite sub_skip, Hh, Nat.sub_diag by lia.
    rewrite sub_all by (by rewrite length_to_le).
    apply of_le_to_le, rpc_crc_u32. }
  split.
  - rewrite Hfe. unfold head. rewrite <- !app_assoc, sub_skip, length_to_le by (by rewrite length_to_le).
    rewrite sub_hit by (by rewrite length_to_le). rewrite of_le_to_le_mod.
    by apply (as_signed_mod 32).
  - rewrite Hfe. unfold head. rewrite <- !app_assoc, !sub_skip by (rewrite !length_to_le; lia).
    rewrite !length_to_le. change (8 - 4 - 4)%nat with 0%nat. rewrite sub_hit; [done|]. unfold n. lia.
Qed.

Lemma frame_len_in_range n : 12 <= n <= 2 ^ 24 -> frame_len_ok n = true.
Proof. apply frame_len_ok_spec. Qed.

Lemma frame_step_frame m sq p tail :
  i32_ok sq -> Z.of_nat (length p) + 12 <= 2 ^ 24 ->
  frame_step m sq (build_rpc_frame sq p m ++ tail) = StFrame p tail.
Proof.
  intros Hsq Hlen. destruct (frame_fields sq p m tail Hsq Hlen) as (H1 & H2 & H3 & H4 & H5 & H6).
  unfold frame_step. rewrite length_app, length_build_rpc_frame.
  destruct (Nat.ltb_spec (length p + 12 + length tail) 12); [lia|]. rewrite H1.
  destruct (Z.eqb_spec (Z.of_nat (length p + 12)) 4); [lia|].
  rewrite frame_len_in_range by lia. cbn [negb]. rewrite Nat2Z.id.
  destruct (Nat.ltb_spec (length p + 12 + length tail) (length p + 12)); [lia|].
  by rewrite H2, H3, H4, H5, H6, !Z.eqb_refl.
Qed.

(** ** Filler words *)

Definition filler : list Z := [4; 0; 0; 0].
Definition fillers (k : nat) : list Z := concat (replicate k filler).

Lemma length_fillers k : length (fillers k) = (4 * k)%nat.
Proof. induction k as [|k IH]; [done|]. unfold fillers in *. cbn. rewrite IH. lia. Qed.

Lemma pad_bytes_fillers n : (n mod 4 = 0)%nat -> exists k, pad_bytes n = fillers k.
Proof.
  intros Hn. unfold pad_bytes.
  assert (Hr : (n mod 16 = 0 \/ n mod 16 = 4 \/ n mod 16 = 8 \/ n mod 16 = 12)%nat).
  { pose proof (Nat.mod_upper_bound n 16 ltac:(lia)).
    pose proof (Nat.div_mod_eq n 16). pose proof (Nat.div_mod_eq n 4). lia. }
  destruct Hr as [-> |[-> |[-> | ->]]]; [exists 0%nat|exists 3%nat|exists 2%nat|exists 1%nat]; done.
Qed.

Lemma length_padded n : ((n + length (pad_bytes n)) mod 16 = 0)%nat.
Proof.
  unfold pad_bytes. rewrite length_fmap, length_seq.
  pose proof (Nat.div_mod_eq n 16). pose proof (Nat.mod_upper_bound n 16 ltac:(lia)).
  rewrite Nat.Div0.add_mod_idemp_r.
  replace (n + (16 - n mod 16))%nat with ((n / 16 + 1) * 16)%nat by lia. apply Nat.Div0.mod_mul.
Qed.

Lemma fillers_bytes k : bytes_ok (fillers k).
Proof.
  induction k as [|k IH]; [constructor|]. unfold fillers in *. cbn.
  repeat (constructor; [unfold is_byte; lia|]). done.
Qed.

Context {St : Type} (handle : list Z -> St -> St * bool).

(** Fillers are skipped as soon as twelve bytes are there. *)
Lemma run_frames_fillers m sq k tail st :
  (12 <= length tail)%nat ->
  run_frames handle m sq (fillers k ++ tail) st = run_frames handle m sq tail st.
Proof.
  intros Ht. induction k as [|k IH]; [done|].
  change (fillers (S k)) with (filler ++ fillers k). rewrite <- app_assoc.
  rewrite run_frames_unfold. unfold frame_step. rewrite !length_app, length_fillers.
  destruct (Nat.ltb_spec (length filler + (4 * k + length tail)) 12); [cbn in *; lia|].
  rewrite sub_hit by done. change (of_le filler =? 4) with true. cbv iota.
  by rewrite drop_app_length'.
Qed.

Lemma run_frames_trailing m sq k st :
  exists k', run_frames handle m sq (fillers k) st = (LeNeedMore, (sq, fillers k', st)).
Proof.
  induction k as [|k [k' IH]]; [by exists 0%nat|].
  rewrite run_frames_unfold. unfold frame_step. rewrite length_fillers.
  destruct (Nat.ltb_spec (4 * S k) 12); [by exists (S k)|].
  change (fillers (S k)) with (filler ++ fillers k).
  rewrite sub_hit by done. change (of_le filler =? 4) with true. cbv iota.
  rewrite drop_app_length' by done. eauto.
Qed.
End stream.

(** * The writer and the reader together *)

Section delivery.
Context `{Checksums} `{!ChecksumsLaws} `{BlockCipher} `{!BlockCipherLaws}.

Fixpoint writer_sends (ps : list (list Z)) (w : RpcWriter) : result RpcError (list Z * RpcWriter) :=
  match ps with
  | [] => Ok ([], w)
  | p :: ps =>
      match writer_send p w with
      | Err e => Err e
      | Ok (out, w) =>
          match writer_sends ps w with
          | Err e => Err e
          | Ok (out', w) => Ok (out ++ out', w)
          end
      end
  end.

(** A handler that records the payloads it is given. *)
Definition collect (p : list Z) (st : list (list Z)) : list (list Z) * bool := (st ++ [p], false).

(** The plaintext of one record, and of a sequence of records. *)
Definition record_plain (sq : Z) (m : RpcChecksumMode) (p : list Z) : list Z :=
  let f := build_rpc_frame sq p m in f ++ pad_bytes (length f).

Fixpoint stream_plain (sq : Z) (m : RpcChecksumMode) (ps : list (list Z)) : list Z :=
  match ps with
  | [] => []
  | p :: ps => record_plain sq m p ++ stream_plain (wrap_signed 32 (sq + 1)) m ps
  end.

Lemma record_plain_ok sq m p :
  payload_ok p ->
  (length (record_plain sq m p) mod 16 = 0)%nat /\ bytes_ok (record_plain sq m p) /\
  exists k, record_plain sq m p = build_rpc_frame sq p m ++ fillers k.
Proof.
  intros [Hw _ _ Hb]. unfold record_plain. set (f := build_rpc_frame sq p m).
  assert (Hf : (length f mod 4 = 0)%nat).
  { unfold f. rewrite length_build_rpc_frame, Nat.Div0.add_mod, Hw. done. }
  destruct (pad_bytes_fillers (length f) Hf) as [k Hk]. split; [|split; [|by exists k; rewrite Hk]].
  - rewrite length_app. apply length_padded.
  - apply Forall_app_2; [by apply build_rpc_frame_bytes | rewrite Hk; apply fillers_bytes].
Qed.

Lemma length_stream_plain sq m ps :
  Forall payload_ok ps ->
  (length (stream_plain sq m ps) mod 16 = 0)%nat /\ bytes_ok (stream_plain sq m ps).
Proof.
  intros Hps. revert sq. induction Hps as [|p ps Hp _ IH]; intros sq; cbn [stream_plain]; [split; [done|constructor]|].
  destruct (record_plain_ok sq m p Hp) as (Hl & Hb & _). destruct (IH (wrap_signed 32 (sq + 1))) as [Hl' Hb'].
  split; [rewrite length_app, Nat.Div0.add_mod, Hl, Hl'; done | by apply Forall_app_2].
Qed.

Lemma run_stream m ps sq st :
  i32_ok sq -> Forall payload_ok ps ->
  exists sq' r, run_frames collect m sq (stream_plain sq m ps) st = (LeNeedMore, (sq', r, st ++ ps)).
Proof.
  intros Hsq Hps. revert sq st Hsq. induction Hps as [|p ps Hp Hps IH]; intros sq st Hsq; cbn [stream_plain].
  { rewrite app_nil_r. by exists sq, []. }
  destruct (record_plain_ok sq m p Hp) as (_ & _ & k & ->). destruct Hp as [_ Hmin Hmax _].
  rewrite <- app_assoc, run_frames_unfold, frame_step_frame by done. cbv zeta.
  destruct (Nat.ltb_spec (length p) 4); [lia|]. cbn [collect].
  set (sq1 := wrap_signed 32 (sq + 1)).
  assert (Hsq1 : i32_ok sq1) by (apply (wrap_signed_range 32); lia).
  destruct ps as [|p' ps].
  - cbn [stream_plain]. rewrite app_nil_r. destruct (run_frames_trailing collect m sq1 k (st ++ [p])) as [k' ->]. eauto.
  - rewrite run_frames_fillers.
    + destruct (IH sq1 (st ++ [p]) Hsq1) as (sq' & r & Hr). exists sq', r.
      rewrite Hr. by rewrite <- app_assoc.
    + cbn [stream_plain]. unfold record_plain. rewrite !length_app, length_build_rpc_frame. lia.
Qed.

Lemma writer_sends_ok ps w :
  block_ok (rw_iv w) -> Forall payload_ok ps ->
  let P := stream_plain (rw_seq_no w) (rw_crc_mode w) ps in
  exists w', writer_sends ps w = Ok (cbc_encrypt_chunks (length P / 16) (rw_key w) (rw_iv w) P, w').
Proof.
  intros Hiv Hps. revert w Hiv. induction Hps as [|p ps Hp Hps IH]; intros w Hiv; cbn [writer_sends stream_plain]; [by exists w|].
  set (F := record_plain (rw_seq_no w) (rw_crc_mode w) p).
  set (sq1 := wrap_signed 32 (rw_seq_no w + 1)).
  destruct (record_plain_ok (rw_seq_no w) (rw_crc_mode w) p Hp) as (HF & HFb & _). fold F in HF, HFb.
  unfold writer_send, encrypt_and_write_frame. fold (record_plain (rw_seq_no w) (rw_crc_mode w) p).
  fold F. cbn [bump_seq rw_key rw_iv rw_seq_no rw_crc_mode]. rewrite encrypt_in_place_ok by done.
  fold sq1.
  set (n := (length F / 16)%nat). assert (Hn : length F = (16 * n)%nat) by (by apply Nat.Div0.div_exact).
  set (out := cbc_encrypt_chunks n (rw_key w) (rw_iv w) F).
  destruct (length_cbc_encrypt_chunks n (rw_key w) (rw_iv w) F Hn HFb Hiv) as [Hout Houtb]. fold out in Hout, Houtb.
  assert (Hiv' : block_ok (next_iv (rw_iv w) out)).
  { unfold next_iv. destruct (Nat.leb_spec 16 (length out)); [|done].
    split; [rewrite length_drop; lia | by apply Forall_drop]. }
  destruct (IH (mkRpcWriter (rw_key w) (next_iv (rw_iv w) out) sq1 (rw_crc_mode w)) Hiv') as [w' Hw'].
  cbn [rw_key rw_iv rw_seq_no rw_crc_mode] in *. rewrite Hw'. exists w'. do 2 f_equal.
  set (P := stream_plain sq1 (rw_crc_mode w) ps).
  rewrite length_app, Hn, (Nat.mul_comm 16 n), Nat.div_add_l by lia.
  by rewrite cbc_encrypt_chunks_app.
Qed.

Lemma stream_delivery ps w :
  block_ok (rw_iv w) -> i32_ok (rw_seq_no w) -> Forall payload_ok ps ->
  exists C w', writer_sends ps w = Ok (C, w') /\
  forall segs, concat segs = C ->
  exists rb, read_segments collect (rw_key w) (rw_crc_mode w) segs
               (mkReaderBytes [] (rw_iv w) [] (rw_seq_no w) []) = Ok rb /\
    rb_state rb = ps /\ rb_raw rb = [].
Proof.
  intros Hiv Hsq Hps. destruct (writer_sends_ok ps w Hiv Hps) as [w' Hw].
  destruct (length_stream_plain (rw_seq_no w) (rw_crc_mode w) ps Hps) as [HP HPb].
  set (P := stream_plain _ _ ps) in *. set (n := (length P / 16)%nat) in *.
  assert (Hn : length P = (16 * n)%nat) by (by apply Nat.Div0.div_exact).
  eexists _, w'. split; [exact Hw|]. intros segs Hsegs.
  destruct (length_cbc_encrypt_chunks n (rw_key w) (rw_iv w) P Hn HPb Hiv) as [HC _].
  set (C := cbc_encrypt_chunks n (rw_key w) (rw_iv w) P) in *.
  assert (Hplain : plaintext_of (rw_key w) (rw_iv w) C = P).
  { rewrite <- (app_nil_r C). rewrite (plaintext_of_blocks _ _ (proj1 Hiv) n) by (done || cbn; lia).
    by apply cbc_chunks_roundtrip. }
  destruct (run_stream (rw_crc_mode w) ps (rw_seq_no w) [] Hsq Hps) as (sq' & r & Hrun). fold P in Hrun.
  destruct (read_segments_caught_up collect (rw_key w) (rw_crc_mode w) (rw_iv w) (rw_seq_no w) []
    (proj1 Hiv) segs [] (mkReaderBytes [] (rw_iv w) [] (rw_seq_no w) [])) as (rb & Hrd & Hcu).
  - exists 0%nat, [], []. repeat split; cbn; lia.
  - cbn [app]. rewrite Hsegs, Hplain, Hrun. done.
  - exists rb. split; [done|]. cbn [app] in Hcu. rewrite Hsegs in Hcu.
    destruct Hcu as (n' & A & r' & HA & HlA & Hr' & Hraw & _ & Hrun').
    rewrite <- (plaintext_of_blocks _ _ (proj1 Hiv) n' A r'), <- HA, Hplain, Hrun in Hrun' by done.
    injection Hrun' as _ _ <-. split; [done|]. rewrite Hraw.
    apply (f_equal length) in HA. rewrite length_app, HC, HlA in HA.
    destruct r'; [done|]. cbn in *. lia.
Qed.
End delivery.
