(* ===== verification/Reader.v ===== *)
(** The message handler of the middle-proxy reader
    ([transport/middle_proxy/reader.rs]): RPC messages, the data path through
    the fair scheduler, the drain loop, and the outer loop that feeds it.

    The scheduler is any implementation of the contract of [FairnessContract].
    The answers of the connection registry, the results of channel sends and
    the clock are inputs: the [k]-th call receives the [k]-th answer. *)

From stdpp Require Import base list gmap numbers.
From S2P Require Import Prelude FairnessModel FairnessPressure FairnessScheduler FairnessInvariant FairnessContract Net Aes RpcWire RpcReader.
Local Open Scope Z_scope.

(** * Messages *)

(** [RouteResult] of [registry.rs]. *)
Inductive RouteResult := RrRouted | RrNoConn | RrChannelClosed | RrQueueFullBase | RrQueueFullHigh.
#[export] Instance RouteResult_eq_dec : EqDecision RouteResult.
Proof. solve_decision. Defined.

Inductive TrySend := SendOk | SendFull | SendClosed.

Inductive RpcMessage :=
  | MsgProxyAns (flags cid : Z) (data : list Z)
  | MsgSimpleAck (cid cfm : Z)
  | MsgCloseExt (cid : Z)
  | MsgCloseConn (cid : Z)
  | MsgPing (ping_id : Z)
  | MsgPong (ping_id : Z)
  | MsgUnknown (pt : Z) (body : list Z).

(** The dispatch of [reader_loop] on the payload type and the body length. *)
Definition decode_message (payload : list Z) : RpcMessage :=
  let pt := of_le (sub 0 4 payload) in
  let body := drop 4 payload in
  if (pt =? RPC_PROXY_ANS_U32) && (12 <=? length body)%nat then
    MsgProxyAns (of_le (sub 0 4 body)) (of_le (sub 4 8 body)) (drop 12 body)
  else if (pt =? RPC_SIMPLE_ACK_U32) && (12 <=? length body)%nat then
    MsgSimpleAck (of_le (sub 0 8 body)) (of_le (sub 8 4 body))
  else if (pt =? RPC_CLOSE_EXT_U32) && (8 <=? length body)%nat then
    MsgCloseExt (of_le (sub 0 8 body))
  else if (pt =? RPC_CLOSE_CONN_U32) && (8 <=? length body)%nat then
    MsgCloseConn (of_le (sub 0 8 body))
  else if (pt =? RPC_PING_U32) && (8 <=? length body)%nat then
    MsgPing (as_signed 64 (of_le (sub 0 8 body)))
  else if (pt =? RPC_PONG_U32) && (8 <=? length body)%nat then
    MsgPong (as_signed 64 (of_le (sub 0 8 body)))
  else MsgUnknown pt body.

(** What the reader does to the rest of the program, in order. *)
Inductive Effect :=
  | EfAnswer (cid flags : Z) (data : list Z)
  | EfRoute (cid flags : Z) (data : list Z) (r : RouteResult)
  | EfRouteAck (cid cfm : Z) (r : RouteResult)
  | EfRouteClose (cid : Z)
  | EfRouteDrop (r : RouteResult)
  | EfAdmissionDrop (cid : Z) (d : AdmissionDecision)
  | EfUnregister (cid : Z)
  | EfSendCloseConn (cid : Z)
  | EfSendPong (payload : list Z)
  | EfKeepalivePong (ping_id : Z).

(** * Policies *)

Definition DATA_ROUTE_MAX_ATTEMPTS : nat := 3.
Definition DATA_ROUTE_QUEUE_FULL_STARVATION_THRESHOLD : Z := 3.
Definition FAIRNESS_DRAIN_BUDGET_PER_LOOP : nat := 128.

Definition should_close_on_route_result_for_data (r : RouteResult) : bool :=
  match r with RrNoConn | RrChannelClosed => true | _ => false end.
Definition should_close_on_route_result_for_ack (r : RouteResult) : bool :=
  match r with RrNoConn | RrChannelClosed => true | _ => false end.
Definition is_data_route_queue_full (r : RouteResult) : bool :=
  match r with RrQueueFullBase | RrQueueFullHigh => true | _ => false end.

Definition should_close_on_queue_full_streak_with_policy (streak : Z) (ps : PressureState)
    (backpressure_enabled : bool) : bool :=
  if negb backpressure_enabled then false
  else if negb (pressure_ge ps PsShedding) then false
  else DATA_ROUTE_QUEUE_FULL_STARVATION_THRESHOLD <=? streak.

Definition should_schedule_fairness_retry (s : WorkerFairnessSnapshot) : bool :=
  0 <? snap_total_queued_bytes s.

Definition fairness_retry_delay (route_wait_ms : Z) : Duration := from_millis (Z.max route_wait_ms 1).

Definition route_feedback (r : RouteResult) : DispatchFeedback :=
  match r with
  | RrRouted => FbRouted
  | RrNoConn => FbNoConn
  | RrChannelClosed => FbChannelClosed
  | RrQueueFullBase | RrQueueFullHigh => FbQueueFull
  end.

(** The configuration [reader_loop] gives its scheduler. *)
Definition reader_config (writer_id channel_capacity : Z) (backpressure : bool) : WorkerFairnessConfig :=
  let d := fairness_config_default in
  mkFairnessConfig
    (sat_add 16 (writer_id mod 2 ^ 16) 1) backpressure
    (Z.max (sat_mul 64 channel_capacity 4) 256)
    (Z.max (sat_mul 64 channel_capacity (16 * 1024)) (4 * 1024 * 1024))
    (clamp (64 * 1024) (2 * 1024 * 1024) (sat_mul 64 channel_capacity (2 * 1024)))
    d.(base_quantum_bytes) d.(pressured_quantum_bytes) d.(penalized_quantum_bytes)
    d.(standing_queue_min_age) d.(standing_queue_min_backlog_bytes) d.(standing_stall_threshold)
    d.(max_consecutive_stalls_before_shed) d.(max_consecutive_stalls_before_close)
    d.(soft_bucket_count) d.(soft_bucket_share_pct) d.(default_flow_weight) d.(quickack_flow_weight)
    d.(cfg_pressure).

(** * The handler *)

(** The answers of the environment. *)
Record ReaderEnv := mkEnv {
  env_route : nat -> RouteResult;
  env_send : nat -> TrySend;
  env_now : nat -> Instant;
}.

Section handler.
Context {S : Type} `{FairSchedulerOps S} (env : ReaderEnv).

(** The tables of [reader_loop], with the calls made so far. *)
Record ReaderTables := mkTables {
  rt_fairness : S;
  rt_streak : gmap Z Z;
  rt_snapshot : WorkerFairnessSnapshot;
  rt_calls : nat;
  rt_sends : nat;
  rt_ticks : nat;
  rt_log : list Effect;
}.

Definition set_fairness (s : S) (t : ReaderTables) : ReaderTables :=
  mkTables s (rt_streak t) (rt_snapshot t) (rt_calls t) (rt_sends t) (rt_ticks t) (rt_log t).
Definition set_streak (m : gmap Z Z) (t : ReaderTables) : ReaderTables :=
  mkTables (rt_fairness t) m (rt_snapshot t) (rt_calls t) (rt_sends t) (rt_ticks t) (rt_log t).
Definition set_snapshot (sn : WorkerFairnessSnapshot) (t : ReaderTables) : ReaderTables :=
  mkTables (rt_fairness t) (rt_streak t) sn (rt_calls t) (rt_sends t) (rt_ticks t) (rt_log t).
Definition emit (e : Effect) (t : ReaderTables) : ReaderTables :=
  mkTables (rt_fairness t) (rt_streak t) (rt_snapshot t) (rt_calls t) (rt_sends t) (rt_ticks t)
    (rt_log t ++ [e]).

(** [Instant::now()]. *)
Definition tick (t : ReaderTables) : Instant * ReaderTables :=
  (env_now env (rt_ticks t),
   mkTables (rt_fairness t) (rt_streak t) (rt_snapshot t) (rt_calls t) (rt_sends t)
     (Datatypes.S (rt_ticks t)) (rt_log t)).

(** A call of the registry: the answer, and the call as an effect. *)
Definition route_call (ef : RouteResult -> Effect) (t : ReaderTables) : RouteResult * ReaderTables :=
  let r := env_route env (rt_calls t) in
  (r, mkTables (rt_fairness t) (rt_streak t) (rt_snapshot t) (Datatypes.S (rt_calls t)) (rt_sends t)
        (rt_ticks t) (rt_log t ++ [ef r])).

(** [tx.try_send]. *)
Definition send_call (ef : Effect) (t : ReaderTables) : TrySend * ReaderTables :=
  (env_send env (rt_sends t),
   mkTables (rt_fairness t) (rt_streak t) (rt_snapshot t) (rt_calls t) (Datatypes.S (rt_sends t))
     (rt_ticks t) (rt_log t ++ [ef])).

(** [route_data_with_retry]: after the first attempt, [more] retries. *)
Fixpoint route_attempts (more : nat) (cid flags : Z) (data : list Z) (t : ReaderTables)
    : RouteResult * ReaderTables :=
  let '(routed, t) := route_call (EfRoute cid flags data) t in
  if is_data_route_queue_full routed then
    match more with
    | O => (routed, t)
    | Datatypes.S more => route_attempts more cid flags data t
    end
  else (routed, t).

Definition route_data_with_retry (cid flags : Z) (data : list Z) (t : ReaderTables)
    : RouteResult * ReaderTables :=
  route_attempts (DATA_ROUTE_MAX_ATTEMPTS - 1) cid flags data t.

(** [fairness.remove_flow], [streak.remove], [reg.unregister], [send_close_conn]. *)
Definition close_connection (cid : Z) (t : ReaderTables) : ReaderTables :=
  let t := set_fairness (op_remove cid (rt_fairness t)) t in
  let t := set_streak (delete cid (rt_streak t)) t in
  let t := emit (EfUnregister cid) t in
  (send_call (EfSendCloseConn cid) t).2.

(** [streak.entry(cid).or_insert(0)] incremented. *)
Definition bump_streak (cid : Z) (t : ReaderTables) : Z * ReaderTables :=
  let streak := sat_add 8 (default 0 (rt_streak t !! cid)) 1 in
  (streak, set_streak (<[cid:=streak]> (rt_streak t)) t).

(** One iteration of [drain_fairness_scheduler], and whether the loop goes on. *)
Definition drain_once (backpressure_enabled : bool) (t : ReaderTables) : ReaderTables * bool :=
  let '(now, t) := tick t in
  match op_next now (rt_fairness t) with
  | (s, SdIdle) => (set_fairness s t, false)
  | (s, SdDispatch candidate) =>
      let t := set_fairness s t in
      let fr := dc_frame candidate in
      let cid := qf_conn_id fr in
      let pressure_state := dc_pressure_state candidate in
      let '(routed, t) := route_data_with_retry cid (qf_flags fr) (qf_data fr) t in
      let t := if bool_decide (routed = RrRouted) then set_streak (delete cid (rt_streak t)) t
               else emit (EfRouteDrop routed) t in
      let '(s, action) := op_feedback cid candidate (route_feedback routed) now (rt_fairness t) in
      let t := set_fairness s t in
      let '(closed, t) :=
        if is_data_route_queue_full routed then
          let '(streak, t) := bump_streak cid t in
          if should_close_on_queue_full_streak_with_policy streak pressure_state backpressure_enabled
          then (true, close_connection cid t)
          else (false, t)
        else (false, t) in
      if (closed : bool) then (t, true)
      else
        let t := if bool_decide (action = ActCloseFlow) || should_close_on_route_result_for_data routed
                 then close_connection cid t else t in
        (t, true)
  end.

Fixpoint drain_loop (budget : nat) (backpressure_enabled : bool) (t : ReaderTables) : ReaderTables :=
  match budget with
  | O => t
  | Datatypes.S budget =>
      let '(t, more) := drain_once backpressure_enabled t in
      if (more : bool) then drain_loop budget backpressure_enabled t else t
  end.

Definition drain_fairness_scheduler (backpressure_enabled : bool) (t : ReaderTables) : ReaderTables :=
  drain_loop FAIRNESS_DRAIN_BUDGET_PER_LOOP backpressure_enabled t.

(** How a message leaves the body of the frame loop. *)
Inductive Flow := FlContinue | FlDrain | FlBreak.

(** [RPC_PROXY_ANS] with fair sharing. *)
Definition handle_answer_fair (bp : bool) (cid flags : Z) (data : list Z) (t : ReaderTables)
    : ReaderTables :=
  let '(now, t) := tick t in
  let '(s, admission) := op_enqueue cid flags data now (rt_fairness t) in
  let t := set_fairness s t in
  if bool_decide (admission = Admit) then t
  else
    let t := emit (EfAdmissionDrop cid admission) t in
    let '(streak, t) := bump_streak cid t in
    let ps := op_pressure (rt_fairness t) in
    if should_close_on_queue_full_streak_with_policy streak ps bp
       || (bp && bool_decide (admission = RejectSaturated))
    then close_connection cid t else t.

(** [RPC_PROXY_ANS] without: the data goes straight to the connection. *)
Definition handle_answer_direct (bp : bool) (cid flags : Z) (data : list Z) (t : ReaderTables)
    : ReaderTables * Flow :=
  let '(routed, t) := route_data_with_retry cid flags data t in
  if bool_decide (routed = RrRouted) then (set_streak (delete cid (rt_streak t)) t, FlContinue)
  else
    let t := emit (EfRouteDrop routed) t in
    if should_close_on_route_result_for_data routed then (close_connection cid t, FlContinue)
    else if is_data_route_queue_full routed then
      let '(streak, t) := bump_streak cid t in
      if should_close_on_queue_full_streak_with_policy streak PsShedding bp
      then (close_connection cid t, FlDrain) else (t, FlDrain)
    else (t, FlDrain).

Definition handle_message (bp fairshare : bool) (m : RpcMessage) (t : ReaderTables)
    : ReaderTables * Flow :=
  match m with
  | MsgProxyAns flags cid data =>
      let t := emit (EfAnswer cid flags data) t in
      if fairshare then (handle_answer_fair bp cid flags data t, FlDrain)
      else handle_answer_direct bp cid flags data t
  | MsgSimpleAck cid cfm =>
      let '(routed, t) := route_call (EfRouteAck cid cfm) t in
      if bool_decide (routed = RrRouted) then (t, FlDrain)
      else
        let t := emit (EfRouteDrop routed) t in
        if should_close_on_route_result_for_ack routed then
          ((send_call (EfSendCloseConn cid) (emit (EfUnregister cid) t)).2, FlDrain)
        else (t, FlDrain)
  | MsgCloseExt cid | MsgCloseConn cid =>
      let '(_, t) := route_call (fun _ => EfRouteClose cid) t in
      let t := emit (EfUnregister cid) t in
      let t := set_streak (delete cid (rt_streak t)) t in
      (set_fairness (op_remove cid (rt_fairness t)) t, FlDrain)
  | MsgPing ping_id =>
      let '(r, t) := send_call (EfSendPong (build_control_payload RPC_PONG_U32 ping_id)) t in
      (t, match r with SendClosed => FlBreak | _ => FlDrain end)
  | MsgPong ping_id => (emit (EfKeepalivePong ping_id) t, FlDrain)
  | MsgUnknown _ _ => (t, FlDrain)
  end.

(** The body of the frame loop for a payload of at least four bytes. *)
Definition handle_payload (bp fairshare : bool) (payload : list Z) (t : ReaderTables)
    : ReaderTables * bool :=
  let '(t, flow) := handle_message bp fairshare (decode_message payload) t in
  match flow with
  | FlContinue => (t, false)
  | FlBreak => (t, true)
  | FlDrain =>
      let t := drain_fairness_scheduler bp t in
      (set_snapshot (op_snapshot (rt_fairness t)) t, false)
  end.

(** * The outer loop *)

(** What wakes the reader: bytes from the socket, or the back-log timer.  The
    two switches are the values loaded at the top of the iteration. *)
Inductive ReaderInput :=
  | RiBytes (bp fairshare : bool) (tmp : list Z)
  | RiRetry (bp : bool).

Context `{Checksums} `{BlockCipher}.

Definition refresh_backpressure (bp : bool) (t : ReaderTables) : ReaderTables :=
  let '(now, t) := tick t in
  set_fairness (op_set_backpressure bp now (rt_fairness t)) t.

Definition on_state (f : ReaderTables -> ReaderTables) (rb : ReaderBytes (St:=ReaderTables))
    : ReaderBytes (St:=ReaderTables) :=
  mkReaderBytes (rb_raw rb) (rb_div rb) (rb_dec rb) (rb_expected_seq rb) (f (rb_state rb)).

(** One iteration of [reader_loop].  The timer arm is only armed when the last
    snapshot has queued bytes. *)
Definition reader_iteration (dk : list Z) (mode : RpcChecksumMode) (i : ReaderInput)
    (rb : ReaderBytes (St:=ReaderTables)) : result ReaderError (ReaderBytes (St:=ReaderTables)) :=
  match i with
  | RiBytes bp fairshare tmp =>
      read_segment (handle_payload bp fairshare) dk mode tmp (on_state (refresh_backpressure bp) rb)
  | RiRetry bp =>
      let rb := on_state (refresh_backpressure bp) rb in
      if should_schedule_fairness_retry (rt_snapshot (rb_state rb)) then
        Ok (on_state (fun t =>
              let t := drain_fairness_scheduler bp t in
              set_snapshot (op_snapshot (rt_fairness t)) t) rb)
      else Ok rb
  end.

Fixpoint reader_run (dk : list Z) (mode : RpcChecksumMode) (l : list ReaderInput)
    (rb : ReaderBytes (St:=ReaderTables)) : result ReaderError (ReaderBytes (St:=ReaderTables)) :=
  match l with
  | [] => Ok rb
  | i :: l =>
      match reader_iteration dk mode i rb with
      | Err e => Err e
      | Ok rb => reader_run dk mode l rb
      end
  end.
End handler.
