(* ===== verification/ReaderOrder.v ===== *)
(** Ordering of the data the reader delivers: with fair sharing every
    connection receives a subsequence of what the middle proxy sent it, in
    order and without duplicates, and all of it unless a drop is reported. *)

From stdpp Require Import base list gmap numbers.
From S2P Require Import Prelude FairnessModel FairnessPressure FairnessScheduler FairnessInvariant FairnessContract Net Aes RpcWire RpcReader Reader.
Local Open Scope Z_scope.

(** * Views of the log *)

Definition payload_of (fr : QueuedFrame) : Z * list Z := (qf_flags fr, qf_data fr).

(** The data handed to connection [cid], and the data received for it. *)
Definition delivered (cid : Z) (log : list Effect) : list (Z * list Z) :=
  omap (fun e => match e with
                 | EfRoute c flags data RrRouted => if decide (c = cid) then Some (flags, data) else None
                 | _ => None
                 end) log.
Definition received (cid : Z) (log : list Effect) : list (Z * list Z) :=
  omap (fun e => match e with
                 | EfAnswer c flags data => if decide (c = cid) then Some (flags, data) else None
                 | _ => None
                 end) log.

(** Effects that report a loss or end a connection. *)
Definition is_loss (e : Effect) : bool :=
  match e with
  | EfRouteDrop _ | EfAdmissionDrop _ _ | EfUnregister _ => true
  | _ => false
  end.
Definition lossless (log : list Effect) : Prop := Forall (fun e => is_loss e = false) log.

Lemma delivered_app cid a b : delivered cid (a ++ b) = delivered cid a ++ delivered cid b.
Proof. apply omap_app. Qed.
Lemma received_app cid a b : received cid (a ++ b) = received cid a ++ received cid b.
Proof. apply omap_app. Qed.

(** The effects [evs] neither deliver nor receive data. *)
Definition quiet (evs : list Effect) : Prop :=
  forall cid, delivered cid evs = [] /\ received cid evs = [].

Lemma quiet_nil : quiet [].
Proof. done. Qed.
Lemma quiet_app a b : quiet a -> quiet b -> quiet (a ++ b).
Proof.
  intros Ha Hb cid. destruct (Ha cid) as [Ha1 Ha2], (Hb cid) as [Hb1 Hb2].
  by rewrite delivered_app, received_app, Ha1, Ha2, Hb1, Hb2.
Qed.

(** * The invariant *)

Section order.
Context {S : Type} `{FairScheduler S} (env : ReaderEnv).
Local Abbreviation Tables := (ReaderTables (S:=S)).

Definition backlog_of (t : Tables) (cid : Z) : list (Z * list Z) :=
  payload_of <$> sched_backlog (rt_fairness t) cid.

(** [extra cid] is in the hands of the drain loop, between the deliveries and
    the queue. *)
Definition tracked_with (extra : Z -> list (Z * list Z)) (t : Tables) : Prop :=
  sched_ok (rt_fairness t) /\
  forall cid,
    let out := delivered cid (rt_log t) ++ extra cid ++ backlog_of t cid in
    out `sublist_of` received cid (rt_log t) /\
    (lossless (rt_log t) -> out = received cid (rt_log t)).

Definition tracked : Tables -> Prop := tracked_with (fun _ => []).

(** A transition that keeps the queues, up to quiet effects. *)
Lemma tracked_quiet extra t t' evs :
  tracked_with extra t -> rt_log t' = rt_log t ++ evs -> quiet evs ->
  sched_ok (rt_fairness t') -> (forall cid, backlog_of t' cid = backlog_of t cid) ->
  tracked_with extra t'.
Proof.
  intros [_ Ht] Hlog Hq Hok Hb. split; [done|]. intros cid. destruct (Ht cid) as [H1 H2].
  destruct (Hq cid) as [Hd Hr]. rewrite Hlog, delivered_app, received_app, Hd, Hr, !app_nil_r, Hb.
  split; [done|]. intros [Hl _]%Forall_app. by apply H2.
Qed.

(** A transition that shortens the queues and reports it. *)
Lemma tracked_loss extra extra' t t' evs :
  tracked_with extra t -> rt_log t' = rt_log t ++ evs -> quiet evs -> ~ lossless evs ->
  sched_ok (rt_fairness t') ->
  (forall cid, extra' cid ++ backlog_of t' cid `sublist_of` extra cid ++ backlog_of t cid) ->
  tracked_with extra' t'.
Proof.
  intros [_ Ht] Hlog Hq Hloss Hok Hb. split; [done|]. intros cid. destruct (Ht cid) as [H1 _].
  destruct (Hq cid) as [Hd Hr]. rewrite Hlog, delivered_app, received_app, Hd, Hr, !app_nil_r. split.
  - etrans; [|exact H1]. by apply sublist_app.
  - by intros [_ Hl]%Forall_app.
Qed.

(** * Pieces of the handler *)

Lemma route_attempts_effect more cid flags data (t : Tables) :
  let r := route_attempts env more cid flags data t in
  rt_fairness r.2 = rt_fairness t /\ rt_streak r.2 = rt_streak t /\
  exists evs, rt_log r.2 = rt_log t ++ evs /\ lossless evs /\
    forall c, received c evs = [] /\
      delivered c evs = if decide (r.1 = RrRouted /\ c = cid) then [(flags, data)] else [].
Proof.
  revert t. induction more as [|more IH]; intros t; cbn.
  - destruct (env_route env (rt_calls t)) eqn:Er; cbn; (split; [done|]; split; [done|]; eexists;
      split; [reflexivity|]; split; [by repeat constructor|]; intros c; split; [done|]; cbn;
      repeat case_decide; try done; naive_solver).
  - destruct (is_data_route_queue_full (env_route env (rt_calls t))) eqn:Ef.
    + set (t1 := mkTables _ _ _ _ _ _ _). destruct (IH t1) as (Hf & Hs & evs & Hl & Hll & Hd).
      split; [done|]. split; [done|]. eexists. split; [rewrite Hl; cbn; by rewrite <- app_assoc|].
      split; [by constructor|]. intros c. destruct (Hd c) as [Hr Hd']. cbn in *.
      destruct (env_route env (rt_calls t)); done.
    + cbn. split; [done|]. split; [done|]. eexists. split; [reflexivity|].
      split; [by repeat constructor|]. intros c. split; [done|]. cbn.
      destruct (env_route env (rt_calls t)); cbn; repeat case_decide; try done; naive_solver.
Qed.

Lemma backlog_of_remove cid (t : Tables) :
  sched_ok (rt_fairness t) ->
  sched_ok (op_remove cid (rt_fairness t)) /\
  forall c, payload_of <$> sched_backlog (op_remove cid (rt_fairness t)) c
            `sublist_of` backlog_of t c.
Proof.
  intros Hok. destruct (remove_law _ cid Hok) as (Hok' & Hoth & Hid). split; [done|].
  intros c. unfold backlog_of. destruct (decide (c = cid)) as [->|Hc].
  - rewrite Hid. apply sublist_nil_l.
  - by rewrite (Hoth c Hc).
Qed.

Lemma close_connection_tracked extra cid (t : Tables) :
  tracked_with extra t -> tracked_with extra (close_connection env cid t).
Proof.
  intros Ht. destruct (backlog_of_remove cid t (proj1 Ht)) as [Hok Hb].
  apply (tracked_loss extra extra t _ [EfUnregister cid; EfSendCloseConn cid]); try done.
  - cbn. by rewrite <- app_assoc.
  - intros Hl. by inversion Hl.
  - intros c. apply sublist_app; [done|]. apply Hb.
Qed.

(** * The drain loop *)

(** The payload of the candidate, for its own connection. *)
Definition in_hand (fr : QueuedFrame) (cid : Z) : list (Z * list Z) :=
  if decide (cid = qf_conn_id fr) then [payload_of fr] else [].

Lemma next_tracked now (t : Tables) :
  tracked t ->
  match op_next now (rt_fairness t) with
  | (s, SdIdle) => tracked (set_fairness s t)
  | (s, SdDispatch cand) =>
      tracked_with (in_hand (dc_frame cand)) (set_fairness s t) /\ sched_holds s cand
  end.
Proof.
  intros [Hok Ht]. pose proof (next_law (rt_fairness t) now Hok) as Hn.
  destruct (op_next now (rt_fairness t)) as [s [|cand]]; cbn in Hn; destruct Hn as [Hok' Hn].
  - split; [done|]. intros cid. destruct (Ht cid) as [H1 H2]. unfold backlog_of in *. cbn. by rewrite Hn.
  - destruct Hn as (Hid & Hoth & Hh). split; [|done]. split; [done|]. intros cid.
    assert (Hb : in_hand (dc_frame cand) cid ++ backlog_of (set_fairness s t) cid = backlog_of t cid).
    { unfold in_hand, backlog_of. cbn. case_decide as Hc; [by subst cid; rewrite Hid|]. by rewrite Hoth. }
    rewrite Hb. apply Ht.
Qed.

(** The feedback of a frame that was not routed only shortens the queues. *)
Lemma feedback_shortens cand r now s :
  sched_ok s -> sched_holds s cand -> r <> RrRouted ->
  let id := qf_conn_id (dc_frame cand) in
  let s' := (op_feedback id cand (route_feedback r) now s).1 in
  sched_ok s' /\
  forall c, payload_of <$> sched_backlog s' c `sublist_of`
            in_hand (dc_frame cand) c ++ (payload_of <$> sched_backlog s c).
Proof.
  intros Hok Hh Hr id s'. destruct (feedback_law s cand (route_feedback r) now Hok Hh) as (Hok' & Hoth & Hb).
  fold id in Hok', Hoth, Hb. fold s' in Hok', Hoth, Hb. split; [done|]. intros c. unfold in_hand.
  case_decide as Hc; [|by rewrite (Hoth c Hc)]. subst c. fold id.
  assert (Hcase : sched_backlog s' id = dc_frame cand :: sched_backlog s id \/
    sched_backlog s' id = sched_backlog s id \/ sched_backlog s' id = []).
  { unfold s'. destruct r; cbn in *; try done;
      destruct (op_feedback id cand _ now s) as [? []]; cbn in *; naive_solver. }
  destruct Hcase as [-> |[-> | ->]]; cbn; [done | by apply sublist_cons | apply sublist_nil_l].
Qed.

Lemma feedback_tracked cand r now evs (t t' : Tables) :
  tracked_with (in_hand (dc_frame cand)) t -> sched_holds (rt_fairness t) cand ->
  rt_fairness t' = rt_fairness t -> rt_log t' = rt_log t ++ evs ->
  (forall c, received c evs = [] /\ delivered c evs =
     if decide (r = RrRouted /\ c = qf_conn_id (dc_frame cand)) then [payload_of (dc_frame cand)] else []) ->
  (r <> RrRouted -> ~ lossless evs) ->
  tracked (set_fairness (op_feedback (qf_conn_id (dc_frame cand)) cand (route_feedback r) now
                           (rt_fairness t')).1 t').
Proof.
  intros Htr Hh Hf Hlog Hev Hloss. rewrite Hf. destruct (decide (r = RrRouted)) as [->|Hr].
  - destruct (feedback_law (rt_fairness t) cand FbRouted now (proj1 Htr) Hh) as (Hok & Hoth & _ & Hid).
    split; [done|]. intros c. destruct (proj2 Htr c) as [H1 H2], (Hev c) as [Hr Hd].
    assert (Hb : backlog_of (set_fairness (op_feedback (qf_conn_id (dc_frame cand)) cand FbRouted now
      (rt_fairness t)).1 t') c = backlog_of t c).
    { unfold backlog_of. cbn. destruct (decide (c = qf_conn_id (dc_frame cand))) as [->|Hc];
        [by rewrite Hid | by rewrite (Hoth c Hc)]. }
    cbn [rt_log set_fairness route_feedback] in *. rewrite Hb, Hlog, delivered_app, received_app, Hr, Hd, app_nil_r.
    assert (He : (if decide (RrRouted = RrRouted /\ c = qf_conn_id (dc_frame cand))
      then [payload_of (dc_frame cand)] else []) = in_hand (dc_frame cand) c).
    { unfold in_hand. repeat case_decide; naive_solver. }
    rewrite He, <- !app_assoc. split; [done|]. intros [Hl _]%Forall_app. by apply H2.
  - destruct (feedback_shortens cand r now (rt_fairness t) (proj1 Htr) Hh Hr) as [Hok Hb].
    apply (tracked_loss (in_hand (dc_frame cand)) (fun _ => []) t _ evs); try done; [|by apply Hloss].
    intros c. destruct (Hev c) as [Hrc Hd]. by rewrite decide_False in Hd by naive_solver.
Qed.

Lemma drain_once_tracked bp (t : Tables) : tracked t -> tracked (drain_once env bp t).1.
Proof.
  intros Ht. unfold drain_once, tick. set (now := env_now env (rt_ticks t)).
  set (t0 := mkTables _ _ _ _ _ _ _). assert (Ht0 : tracked t0) by exact Ht.
  pose proof (next_tracked now t0 Ht0) as Hn.
  destruct (op_next now (rt_fairness t0)) as [s [|cand]]; [exact Hn|]. destruct Hn as [Htr Hh].
  set (fr := dc_frame cand) in *. set (t1 := set_fairness s t0) in *.
  pose proof (route_attempts_effect (DATA_ROUTE_MAX_ATTEMPTS - 1) (qf_conn_id fr) (qf_flags fr)
    (qf_data fr) t1) as Hr. unfold route_data_with_retry.
  destruct (route_attempts env _ _ _ _ t1) as [r t2]. cbn [fst snd] in Hr.
  destruct Hr as (Hf2 & _ & evs & Hlog & Hll & Hev).
  set (t3 := if bool_decide (r = RrRouted) then _ else _).
  assert (H3 : tracked (set_fairness (op_feedback (qf_conn_id fr) cand (route_feedback r) now
                          (rt_fairness t3)).1 t3)).
  { unfold t3. case_bool_decide as Hr.
    - by apply (feedback_tracked cand r now evs t1).
    - apply (feedback_tracked cand r now (evs ++ [EfRouteDrop r]) t1); try done.
      + cbn. by rewrite Hlog, app_assoc.
      + intros c. rewrite received_app, delivered_app. destruct (Hev c) as [-> ->].
        split; [done | apply app_nil_r].
      + intros _ [_ Hl]%Forall_app. by inversion Hl. }
  clearbody t3. destruct (op_feedback _ _ _ _ (rt_fairness t3)) as [s' action]. cbn [fst] in H3.
  destruct (is_data_route_queue_full r).
  - unfold bump_streak. destruct (should_close_on_queue_full_streak_with_policy _ _ _); cbn [fst].
    + by apply close_connection_tracked.
    + destruct (_ || _); [by apply close_connection_tracked | exact H3].
  - cbn [fst]. destruct (_ || _); [by apply close_connection_tracked | exact H3].
Qed.

Lemma drain_tracked bp (t : Tables) : tracked t -> tracked (drain_fairness_scheduler env bp t).
Proof.
  unfold drain_fairness_scheduler. generalize FAIRNESS_DRAIN_BUDGET_PER_LOOP as n.
  intros n. revert t. induction n as [|n IH]; intros t Ht; cbn [drain_loop]; [done|].
  pose proof (drain_once_tracked bp t Ht) as H1.
  destruct (drain_once env bp t) as [t' []]; [by apply IH | done].
Qed.

(** * Messages *)

Lemma handle_answer_tracked bp cid flags data (t : Tables) :
  tracked t -> tracked (handle_answer_fair env bp cid flags data (emit (EfAnswer cid flags data) t)).
Proof.
  intros Ht. unfold handle_answer_fair, tick. set (now := env_now env _).
  set (t0 := mkTables _ _ _ _ _ _ _).
  destruct (enqueue_law (rt_fairness t) cid flags data now (proj1 Ht)) as (Hok & Hoth & Hid).
  change (rt_fairness t0) with (rt_fairness t).
  destruct (op_enqueue cid flags data now (rt_fairness t)) as [s adm]. cbn [fst snd] in *.
  assert (Hans : forall c, delivered c [EfAnswer cid flags data] = [] /\
    received c [EfAnswer cid flags data] = if decide (cid = c) then [(flags, data)] else []).
  { intros c. split; [done|]. cbn. by destruct (decide (cid = c)). }
  case_bool_decide as Hadm.
  - split; [done|]. intros c. destruct (proj2 Ht c) as [H1 H2], (Hans c) as [Hd Hr].
    assert (Hb : backlog_of (set_fairness s t0) c =
      backlog_of t c ++ if decide (cid = c) then [(flags, data)] else []).
    { unfold backlog_of. cbn. destruct (decide (cid = c)) as [->|Hc].
      - by rewrite Hid, fmap_app.
      - by rewrite Hoth, app_nil_r. }
    rewrite Hb. cbn [rt_log set_fairness t0 emit]. rewrite delivered_app, received_app, Hd, Hr.
    cbn [app] in *. rewrite app_nil_r, app_assoc. split; [by apply sublist_app|].
    intros [Hl _]%Forall_app. by rewrite H2.
  - assert (Htr : tracked (emit (EfAdmissionDrop cid adm) (set_fairness s t0))).
    { split; [done|]. intros c. destruct (proj2 Ht c) as [H1 _], (Hans c) as [Hd Hr].
      assert (Hb : backlog_of (emit (EfAdmissionDrop cid adm) (set_fairness s t0)) c = backlog_of t c).
      { unfold backlog_of. cbn. destruct (decide (c = cid)) as [->|Hc];
          [by rewrite Hid, app_nil_r | by rewrite Hoth]. }
      rewrite Hb. cbn [rt_log set_fairness t0 emit].
      rewrite !delivered_app, !received_app, Hd, Hr, !app_nil_r. split; [by apply sublist_inserts_r|].
      intros [_ Hl]%Forall_app. by inversion Hl. }
    unfold bump_streak. destruct (_ || _); [by apply close_connection_tracked | exact Htr].
Qed.

Lemma handle_message_tracked bp m (t : Tables) :
  tracked t -> tracked (handle_message env bp true m t).1.
Proof.
  intros Ht. destruct m as [flags cid data|cid cfm|cid|cid|p|p|pt body].
  - by apply handle_answer_tracked.
  - cbn. case_bool_decide.
    + by apply (tracked_quiet _ t _ [EfRouteAck cid cfm (env_route env (rt_calls t))]); try apply Ht.
    + case_match; cbn.
      * by apply (tracked_quiet _ t _ [EfRouteAck cid cfm (env_route env (rt_calls t));
          EfRouteDrop (env_route env (rt_calls t)); EfUnregister cid; EfSendCloseConn cid]);
          [| cbn; rewrite <- !app_assoc | | apply Ht |].
      * by apply (tracked_quiet _ t _ [EfRouteAck cid cfm (env_route env (rt_calls t));
          EfRouteDrop (env_route env (rt_calls t))]); [| cbn; rewrite <- !app_assoc | | apply Ht |].
  - destruct (backlog_of_remove cid t (proj1 Ht)) as [Hok Hb].
    apply (tracked_loss _ _ t _ [EfRouteClose cid; EfUnregister cid] Ht); try done.
    + cbn. by rewrite <- app_assoc.
    + intros Hl. inversion_clear Hl as [|? ? _ Hl']. by inversion Hl'.
  - destruct (backlog_of_remove cid t (proj1 Ht)) as [Hok Hb].
    apply (tracked_loss _ _ t _ [EfRouteClose cid; EfUnregister cid] Ht); try done.
    + cbn. by rewrite <- app_assoc.
    + intros Hl. inversion_clear Hl as [|? ? _ Hl']. by inversion Hl'.
  - by apply (tracked_quiet _ t _ [EfSendPong (build_control_payload RPC_PONG_U32 p)]); try apply Ht.
  - by apply (tracked_quiet _ t _ [EfKeepalivePong p]); try apply Ht.
  - exact Ht.
Qed.

Lemma handle_payload_tracked bp payload (t : Tables) :
  tracked t -> tracked (handle_payload env bp true payload t).1.
Proof.
  intros Ht. unfold handle_payload.
  pose proof (handle_message_tracked bp (decode_message payload) t Ht) as Hm.
  destruct (handle_message env bp true _ t) as [t' []]; cbn in *; [done| |done].
  by apply (drain_tracked bp t').
Qed.

(** * The whole loop *)

Lemma refresh_tracked bp (t : Tables) : tracked t -> tracked (refresh_backpressure env bp t).
Proof.
  intros [Hok Ht]. destruct (set_backpressure_law (rt_fairness t) bp (env_now env (rt_ticks t)) Hok)
    as [Hok' Hb]. split; [done|]. intros cid. destruct (Ht cid) as [H1 H2].
  unfold backlog_of in *. cbn. by rewrite Hb.
Qed.

Context `{Checksums} `{BlockCipher}.

(** Fair sharing is on whenever bytes are handled. *)
Definition fair_input (i : ReaderInput) : bool :=
  match i with RiBytes _ fairshare _ => fairshare | RiRetry _ => true end.

Lemma reader_iteration_tracked dk mode i rb rb' :
  fair_input i = true -> tracked (rb_state rb) ->
  reader_iteration env dk mode i rb = Ok rb' -> tracked (rb_state rb').
Proof.
  intros Hi Ht. destruct i as [bp fs tmp|bp]; cbn in Hi; subst; cbn [reader_iteration].
  - apply read_segment_state; [intros; by apply handle_payload_tracked | by apply refresh_tracked].
  - pose proof (refresh_tracked bp _ Ht) as Ht'. case_match; intros [= <-]; [|exact Ht'].
    by apply (drain_tracked bp (refresh_backpressure env bp (rb_state rb))).
Qed.

Lemma reader_run_tracked dk mode l rb rb' :
  forallb fair_input l = true -> tracked (rb_state rb) ->
  reader_run env dk mode l rb = Ok rb' -> tracked (rb_state rb').
Proof.
  revert rb. induction l as [|i l IH]; intros rb Hl Ht; cbn [reader_run].
  - by intros [= <-].
  - cbn in Hl. apply andb_prop in Hl as [Hi Hl].
    destruct (reader_iteration env dk mode i rb) as [rb1|] eqn:E; [|done].
    apply IH; [done|]. by apply (reader_iteration_tracked dk mode i rb).
Qed.

Lemma reader_run_errors dk mode l rb e :
  reader_run env dk mode l rb = Err e ->
  e = RdCrcMismatch \/ exists exp got, e = RdSeqNoMismatch exp got.
Proof.
  revert rb. induction l as [|i l IH]; intros rb; cbn [reader_run]; [done|].
  destruct (reader_iteration env dk mode i rb) as [rb1|e'] eqn:E; [by apply IH|].
  intros [= <-]. destruct i as [bp fs tmp|bp]; cbn [reader_iteration] in E.
  - by apply read_segment_errors in E.
  - by case_match.
Qed.
End order.

(** * The reader of a writer connection *)

(** The state in which [reader_loop] starts. *)
Definition reader_init (writer_id channel_capacity : Z) (backpressure : bool) (now : Instant)
    (raw div dec : list Z) : ReaderBytes (St:=ReaderTables (S:=WorkerFairnessState)) :=
  let fairness := worker_new (reader_config writer_id channel_capacity backpressure) now in
  mkReaderBytes raw div dec 0 (mkTables fairness ∅ (snapshot fairness) 0 0 0 []).

Lemma reader_config_cfg_ok writer_id channel_capacity backpressure :
  0 <= channel_capacity < 2 ^ 50 -> cfg_ok (reader_config writer_id channel_capacity backpressure).
Proof.
  intros Hc. split; cbn [reader_config max_total_queued_bytes max_flow_queued_bytes max_active_flows].
  - unfold sat_mul, umax. lia.
  - pose proof (clamp_bounds (64 * 1024) (2 * 1024 * 1024) (sat_mul 64 channel_capacity (2 * 1024))
      ltac:(lia)). unfold i64_max. lia.
  - unfold sat_mul, umax. lia.
Qed.

Lemma reader_init_tracked writer_id channel_capacity backpressure now raw div dec :
  0 <= channel_capacity < 2 ^ 50 ->
  tracked (rb_state (reader_init writer_id channel_capacity backpressure now raw div dec)).
Proof.
  intros Hc. split.
  - by apply worker_new_Inv, reader_config_cfg_ok.
  - intros cid. split; [by apply sublist_nil_l|done].
Qed.
