(* ===== verification/MiddleProxyProps.v ===== *)
(** What the middle-proxy transport guarantees: ciphers, wire formats, the RPC
    stream, and the order and completeness of delivery by the reader. *)

From stdpp Require Import base list gmap numbers.
From S2P Require Import Prelude FairnessModel FairnessPressure FairnessScheduler FairnessInvariant FairnessContract Net Aes RpcWire RpcReader RpcStream Reader ReaderOrder.
Local Open Scope Z_scope.

(** * Instances used by the examples *)

#[local] Instance demo_cipher : BlockCipher := {
  encrypt_block _ b := reverse b;
  decrypt_block _ b := reverse b;
}.

#[local] Instance demo_cipher_laws : BlockCipherLaws.
Proof.
  split; cbn.
  - intros _ b [Hl Hb]. split; [by rewrite length_reverse | by apply Forall_reverse].
  - intros _ b Hl. by rewrite length_reverse.
  - intros _ b _. apply reverse_involutive.
Defined.

#[local] Instance demo_checksums : Checksums := {
  crc32 l := foldr Z.add 7 l mod 2 ^ 32;
  crc32c l := foldr Z.add 11 l mod 2 ^ 32;
}.

#[local] Instance demo_checksums_laws : ChecksumsLaws.
Proof. split; intros l; apply Z.mod_pos_bound; lia. Defined.

#[local] Instance demo_stream : StreamKey := fun key iv n => (iv + Z.of_nat n * 37) mod 256.

Definition demo_iv : list Z := replicate 16 9.
Definition demo_key : list Z := replicate 32 1.

Lemma demo_iv_ok : block_ok demo_iv.
Proof. split; [done|]. unfold demo_iv. repeat (constructor; [unfold is_byte; lia|]). constructor. Qed.

(** * Ciphers *)

Section ciphers.
Context `{BlockCipherLaws}.

Lemma cbc_aligned n (data : list Z) : length data = (16 * n)%nat -> (length data mod 16 = 0)%nat /\ (length data / 16 = n)%nat.
Proof.
  intros ->. rewrite Nat.mul_comm. split; [apply Nat.Div0.mod_mul | by apply Nat.div_mul].
Qed.

(** AES-CBC is inverted exactly by the decryption in place, for every key,
    IV and block-aligned buffer, and the in-place loops produce the same bytes
    as the versions that build a new vector. *)
Theorem cbc_roundtrip key iv data n :
  length data = (16 * n)%nat -> bytes_ok data -> block_ok iv ->
  encrypt_in_place key iv data = cbc_encrypt key iv data /\
  exists out, encrypt_in_place key iv data = Ok out /\ length out = length data /\
    decrypt_in_place key iv out = Ok data /\ cbc_decrypt key iv out = Ok data.
Proof.
  intros Hl Hd Hiv. destruct (cbc_aligned n data Hl) as [Hm Hn].
  rewrite encrypt_in_place_ok, Hn by done.
  assert (Hvec : forall l, length l = (16 * n)%nat ->
    (if unaligned l then Err (CryptoUnaligned (length l)) else if bool_decide (l = []) then Ok []
     else Ok (cbc_decrypt_chunks (length l / 16) key iv l)) = Ok (cbc_decrypt_chunks n key iv l) /\
    (if unaligned l then Err (CryptoUnaligned (length l)) else if bool_decide (l = []) then Ok []
     else Ok (cbc_encrypt_chunks (length l / 16) key iv l)) = Ok (cbc_encrypt_chunks n key iv l)).
  { intros l Hll. destruct (cbc_aligned n l Hll) as [Hlm Hln]. unfold unaligned. rewrite Hlm, Hln.
    cbn [negb Nat.eqb]. case_bool_decide as He; [|done].
    assert (n = 0%nat) as -> by (subst l; cbn in Hll; lia). done. }
  destruct (length_cbc_encrypt_chunks n key iv data Hl Hd Hiv) as [Hol Hob].
  set (out := cbc_encrypt_chunks n key iv data) in *.
  split; [symmetry; apply (Hvec data Hl)|]. exists out. split; [done|]. split; [lia|].
  destruct (cbc_aligned n out Hol) as [Hom Hon].
  rewrite decrypt_in_place_ok, Hon by (done || apply Hiv).
  unfold cbc_decrypt. rewrite (proj1 (Hvec out Hol)).
  unfold out. by rewrite cbc_chunks_roundtrip.
Qed.
End ciphers.

Lemma cbc_roundtrip_witness :
  exists out, encrypt_in_place demo_key demo_iv (replicate 32 5) = Ok out /\ length out = 32%nat /\
    decrypt_in_place demo_key demo_iv out = Ok (replicate 32 5) /\
    cbc_decrypt demo_key demo_iv out = Ok (replicate 32 5).
Proof.
  apply (cbc_roundtrip demo_key demo_iv (replicate 32 5) 2); [done | by apply bytes_ok_dec | apply demo_iv_ok].
Defined.

Section ctr.
Context `{StreamKey}.

(** [apply] over successive buffers with one cipher. *)
Fixpoint ctr_apply_all (bufs : list (list Z)) (c : AesCtr) : list Z :=
  match bufs with
  | [] => []
  | b :: bufs => let '(o, c) := ctr_apply b c in o ++ ctr_apply_all bufs c
  end.

Lemma ctr_apply_all_concat bufs c : ctr_apply_all bufs c = (ctr_apply (concat bufs) c).1.
Proof.
  revert c. induction bufs as [|b bufs IH]; intros c; [done|]. cbn [ctr_apply_all concat].
  rewrite ctr_apply_app. destruct (ctr_apply b c) as [o c'] eqn:E. by rewrite IH.
Qed.

(** AES-CTR is a stream cipher independent of buffering: whatever way the
    sender cuts its data into [apply] calls and the receiver cuts what it
    receives, a receiver with the same key and IV recovers the data. *)
Theorem ctr_streams_agree sent got key iv :
  concat got = ctr_apply_all sent (aes_ctr_new key iv) ->
  ctr_apply_all got (aes_ctr_new key iv) = concat sent.
Proof. intros Hg. by rewrite !ctr_apply_all_concat, Hg, ctr_apply_all_concat, ctr_apply_twice. Qed.
End ctr.

Lemma ctr_streams_agree_witness :
  ctr_apply_all [[3]; [37; 79]] (aes_ctr_new demo_key 2) = [1; 2; 3].
Proof.
  apply (ctr_streams_agree [[1; 2]; [3]] [[3]; [37; 79]] demo_key 2). vm_compute. reflexivity.
Defined.

(** * Wire formats *)

(** The checksum mode announced in a handshake is the one the peer reads. *)
Theorem checksum_mode_roundtrip m : from_handshake_flags (advertised_flags m) = m.
Proof. by destruct m. Qed.

(** A nonce payload is read back exactly, whatever follows it. *)
Theorem nonce_payload_roundtrip key_selector crypto_ts nonce tail :
  0 <= key_selector < 2 ^ 32 -> 0 <= crypto_ts < 2 ^ 32 -> length nonce = 16%nat ->
  parse_nonce_payload (build_nonce_payload key_selector crypto_ts nonce ++ tail) =
  Ok (key_selector, RPC_CRYPTO_AES_U32, crypto_ts, nonce).
Proof.
  intros Hk Ht Hn. unfold parse_nonce_payload, build_nonce_payload. rewrite <- !app_assoc. fields.
  rewrite !length_app, !length_to_le, Hn. cbn [Nat.add Nat.ltb Nat.leb].
  rewrite !of_le_to_le by (unfold RPC_CRYPTO_AES_U32, RPC_NONCE_U32; cbn; lia).
  by rewrite Z.eqb_refl.
Qed.

Lemma nonce_payload_roundtrip_witness :
  parse_nonce_payload (build_nonce_payload 0xaabbccdd 77 demo_iv ++ [1; 2]) =
  Ok (0xaabbccdd, RPC_CRYPTO_AES_U32, 77, demo_iv).
Proof. apply nonce_payload_roundtrip; [lia | lia | done]. Defined.

(** The flags of a handshake payload are read back, for any addresses,
    ports and process identifiers. *)
Theorem handshake_flags_roundtrip pid16 utime our_ip our_port peer_ip peer_port flags :
  length our_ip = 4%nat -> length peer_ip = 4%nat -> 0 <= flags < 2 ^ 32 ->
  parse_handshake_flags
    (build_handshake_payload pid16 utime our_ip our_port peer_ip peer_port flags) = Ok flags.
Proof.
  intros Ho Hp Hf. unfold parse_handshake_flags, build_handshake_payload. fields.
  rewrite !length_app, !length_to_le, Ho, Hp. cbn [Nat.add Nat.eqb negb].
  rewrite !of_le_to_le by (unfold RPC_HANDSHAKE_U32; cbn; lia). by rewrite Z.eqb_refl.
Qed.

Lemma handshake_flags_roundtrip_witness :
  parse_handshake_flags (build_handshake_payload 1 2 [127; 0; 0; 1] 443 [10; 0; 0; 1] 8888 USE_CRC32C)
  = Ok USE_CRC32C.
Proof. apply handshake_flags_roundtrip; [done | done | unfold USE_CRC32C; lia]. Defined.

Definition demo_client : SocketAddr := mkSocketAddr (IpV4 [192; 0; 2; 1]) 50000.
Definition demo_our : SocketAddr := mkSocketAddr (IpV6 (replicate 15 0 ++ [1])) 443.
Lemma demo_client_ok : addr_ok demo_client.
Proof. split; [split; [done | by apply bytes_ok_dec] | cbn; lia]. Qed.
Lemma demo_our_ok : addr_ok demo_our.
Proof. split; [split; [done | by apply bytes_ok_dec] | cbn; lia]. Qed.

Section requests.
Context `{Checksums} `{BlockCipher}.

(** The allocation-free request path is the reference path: encoding a proxy
    request straight into the frame buffer, with the length computed up front by
    [proxy_req_payload_len], writes the same bytes as building the payload and
    sending it as an ordinary frame; that length is the real one. *)
Theorem proxy_req_in_place c w :
  addr_ok (pr_client_addr c) -> addr_ok (pr_our_addr c) ->
  let payload := build_proxy_req_payload (pr_conn_id c) (pr_client_addr c) (pr_our_addr c)
                   (pr_payload c) (pr_proxy_tag c) (pr_proto_flags c) in
  send_proxy_req c w = writer_send payload w /\
  length payload = proxy_req_payload_len (length (pr_payload c)) (pr_proxy_tag c) (pr_proto_flags c).
Proof.
  intros Hc Ho payload.
  assert (Hp : payload = proxy_req_fields (pr_conn_id c) (pr_client_addr c) (pr_our_addr c)
    (pr_payload c) (pr_proxy_tag c) (pr_proto_flags c))
    by (unfold payload, build_proxy_req_payload; apply append_proxy_req_fields).
  assert (Hl : length payload = proxy_req_payload_len (length (pr_payload c)) (pr_proxy_tag c)
    (pr_proto_flags c)) by (rewrite Hp; by apply length_proxy_req_fields).
  split; [|done]. unfold send_proxy_req, writer_send. f_equal.
  unfold proxy_req_frame, build_rpc_frame. rewrite append_proxy_req_fields, <- Hp, <- Hl. done.
Qed.
End requests.

Lemma proxy_req_in_place_witness :
  length (build_proxy_req_payload 5 demo_client demo_our [1; 2; 3; 4] (Some (replicate 16 0xab))
    RPC_FLAG_HAS_AD_TAG) = 88%nat.
Proof.
  exact (proj2 (proxy_req_in_place
    (mkProxyReq 5 demo_client demo_our RPC_FLAG_HAS_AD_TAG (Some (replicate 16 0xab)) [1; 2; 3; 4])
    (mkRpcWriter demo_key demo_iv 0 Crc32) demo_client_ok demo_our_ok)).
Defined.

(** * The RPC stream *)

Section frames.
Context `{Checksums} `{!ChecksumsLaws} `{BlockCipher} `{!BlockCipherLaws}.

(** A plaintext frame is read back with its sequence number and payload,
    and the reader stops exactly at its end. *)
Theorem plaintext_frame_roundtrip sq p tail :
  i32_ok sq -> Z.of_nat (length p) + 12 <= 2 ^ 24 ->
  read_rpc_frame_plaintext (build_rpc_frame sq p Crc32 ++ tail) = Ok (sq, p, tail).
Proof.
  intros Hsq Hlen. destruct (frame_fields sq p Crc32 tail Hsq Hlen) as (E1 & E2 & E3 & E4 & E5 & E6).
  unfold sub in E1. rewrite drop_0 in E1. unfold read_rpc_frame_plaintext.
  set (f := build_rpc_frame sq p Crc32) in *.
  assert (Hf : length f = (length p + 12)%nat) by apply length_build_rpc_frame.
  rewrite E1, length_app, length_drop, length_app, Hf.
  destruct (Nat.ltb_spec (length p + 12 + length tail) 4); [lia|].
  rewrite (frame_len_in_range (Z.of_nat (length p + 12))) by lia. cbn [negb].
  replace (Z.to_nat (Z.of_nat (length p + 12)) - 4)%nat with (length p + 12 - 4)%nat by lia.
  destruct (Nat.ltb_spec (length p + 12 + length tail - 4) (length p + 12 - 4)); [lia|].
  assert (Hfull : take 4 (f ++ tail) ++ take (length p + 12 - 4) (drop 4 (f ++ tail)) = f).
  { rewrite <- E2 at 3. rewrite take_take_drop. f_equal. lia. }
  rewrite Hfull, E4, Z.eqb_refl, E5, E6. cbn [negb]. rewrite drop_drop.
  replace (4 + (length p + 12 - 4))%nat with (length p + 12)%nat by lia. by rewrite E3.
Qed.

(** C1: end-to-end delivery.  Whatever sequence of whole-word payloads the
    writer sends, and however the network cuts the resulting ciphertext into
    segments, the reader with the same key, IV, sequence number and checksum
    mode hands exactly those payloads, in order, to its handler, without error
    and with no bytes left undecrypted. *)
Theorem rpc_stream_delivered ps w :
  block_ok (rw_iv w) -> i32_ok (rw_seq_no w) -> Forall payload_ok ps ->
  exists C w', writer_sends ps w = Ok (C, w') /\
  forall segs, concat segs = C ->
  exists rb, read_segments collect (rw_key w) (rw_crc_mode w) segs
               (mkReaderBytes [] (rw_iv w) [] (rw_seq_no w) []) = Ok rb /\
    rb_state rb = ps /\ rb_raw rb = [].
Proof. apply stream_delivery. Qed.

(** Segmentation does not matter.  If the frames of a ciphertext received at
    once are handled without error, then any other segmentation of the same
    bytes leads the handler to the same state, sequence number and buffered
    remainder, for every handler. *)
Theorem segmentation_irrelevant {St} (handle : list Z -> St -> St * bool) dk mode iv sq st segs rb :
  length iv = 16%nat -> (run_frames handle mode sq (plaintext_of dk iv (concat segs)) st).1 = LeNeedMore ->
  read_segments handle dk mode [concat segs] (mkReaderBytes [] iv [] sq st) = Ok rb ->
  read_segments handle dk mode segs (mkReaderBytes [] iv [] sq st) = Ok rb.
Proof.
  intros Hiv Hend Hone.
  assert (Hinit : caught_up handle dk mode iv sq st [] (mkReaderBytes [] iv [] sq st)).
  { exists 0%nat, [], []. repeat split; cbn; lia. }
  destruct (read_segments_caught_up handle dk mode iv sq st Hiv segs [] _ Hinit Hend) as (rb' & Hrd & Hcu).
  destruct (read_segments_caught_up handle dk mode iv sq st Hiv [concat segs] [] _ Hinit) as (rb1 & Hrd1 & Hcu1).
  { cbn [concat app]. by rewrite app_nil_r. }
  rewrite Hrd. f_equal. rewrite Hone in Hrd1. injection Hrd1 as <-.
  cbn [concat app] in Hcu, Hcu1. rewrite app_nil_r in Hcu1.
  destruct Hcu as (n & A & r & HX & HA & Hr & E1 & E2 & E3).
  destruct Hcu1 as (n1 & A1 & r1 & HX1 & HA1 & Hr1 & F1 & F2 & F3).
  assert (n = n1) as <-.
  { pose proof (f_equal length HX) as L. pose proof (f_equal length HX1) as L1.
    rewrite length_app in L, L1. lia. }
  rewrite HX1 in HX. apply app_inj_1 in HX as [<- <-]; [|lia].
  rewrite E3 in F3. injection F3 as G1 G2 G3.
  destruct rb, rb'. cbn in *. congruence.
Qed.
End frames.

Definition demo_writer : RpcWriter := mkRpcWriter demo_key demo_iv 5 Crc32c.
Definition demo_payloads : list (list Z) := [[1; 2; 3; 4]; [5; 6; 7; 8; 9; 10; 11; 12]].

Lemma demo_payloads_ok : Forall payload_ok demo_payloads.
Proof. repeat constructor; cbn; try lia; unfold is_byte; lia. Qed.

Lemma plaintext_frame_roundtrip_witness :
  read_rpc_frame_plaintext (build_rpc_frame (-3) [9; 9; 9; 9; 9] Crc32 ++ [1]) = Ok (-3, [9; 9; 9; 9; 9], [1]).
Proof. apply plaintext_frame_roundtrip; [unfold i32_ok; lia | cbn; lia]. Defined.

Lemma rpc_stream_delivered_witness :
  exists C w', writer_sends demo_payloads demo_writer = Ok (C, w') /\
  forall segs, concat segs = C ->
  exists rb, read_segments collect demo_key Crc32c segs (mkReaderBytes [] demo_iv [] 5 []) = Ok rb /\
    rb_state rb = demo_payloads /\ rb_raw rb = [].
Proof.
  apply (rpc_stream_delivered demo_payloads demo_writer);
    [apply demo_iv_ok | unfold i32_ok; cbn; lia | apply demo_payloads_ok].
Defined.

(** Ciphertext of the first demo payload, as computed by the writer. *)
Definition demo_cipher_bytes : list Z :=
  match writer_sends [[1; 2; 3; 4]] demo_writer with Ok (c, _) => c | Err _ => [] end.

Lemma segmentation_irrelevant_witness :
  let segs := [take 5 demo_cipher_bytes; drop 5 demo_cipher_bytes] in
  exists rb, rb_state rb = [[1; 2; 3; 4]] /\
  read_segments collect demo_key Crc32c segs (mkReaderBytes [] demo_iv [] 5 []) = Ok rb.
Proof.
  cbv zeta. eexists (mkReaderBytes _ _ _ _ _). split; [reflexivity|].
  apply (segmentation_irrelevant collect demo_key Crc32c demo_iv 5 []
    [take 5 demo_cipher_bytes; drop 5 demo_cipher_bytes]); vm_compute; reflexivity.
Defined.

(** * Delivery by the reader *)

Section delivery.
Context `{Checksums} `{BlockCipher}.
Context (env : ReaderEnv) (dk : list Z) (mode : RpcChecksumMode).
Context (writer_id capacity : Z) (bp : bool) (now : Instant) (raw div dec : list Z).
Local Abbreviation start := (reader_init writer_id capacity bp now raw div dec).

(** C8: with fair sharing, whatever the registry answers and the timers do, each
    connection is handed a subsequence of the answers received for it, in the
    order received and none twice; what is still queued comes after what has
    been handed over. *)
Theorem reader_in_order inputs rb cid :
  0 <= capacity < 2 ^ 50 -> forallb fair_input inputs = true ->
  reader_run env dk mode inputs start = Ok rb ->
  delivered cid (rt_log (rb_state rb)) ++
    (payload_of <$> backlog (rt_fairness (rb_state rb)) cid)
  `sublist_of` received cid (rt_log (rb_state rb)).
Proof.
  intros Hc Hf Hr.
  pose proof (reader_run_tracked env dk mode inputs start rb Hf
    (reader_init_tracked writer_id capacity bp now raw div dec Hc) Hr) as [_ Ht].
  exact (proj1 (Ht cid)).
Qed.

(** C30: no silent loss.  With fair sharing, unless the reader has reported a
    drop (a refused admission or a failed route) or unregistered a connection,
    everything received for a connection has been handed over or is still
    queued for it. *)
Theorem reader_lossless inputs rb cid :
  0 <= capacity < 2 ^ 50 -> forallb fair_input inputs = true ->
  reader_run env dk mode inputs start = Ok rb -> lossless (rt_log (rb_state rb)) ->
  delivered cid (rt_log (rb_state rb)) ++
    (payload_of <$> backlog (rt_fairness (rb_state rb)) cid) = received cid (rt_log (rb_state rb)).
Proof.
  intros Hc Hf Hr Hl.
  pose proof (reader_run_tracked env dk mode inputs start rb Hf
    (reader_init_tracked writer_id capacity bp now raw div dec Hc) Hr) as [_ Ht].
  exact (proj2 (Ht cid) Hl).
Qed.

(** The reader stops only for a reason of the protocol: the only errors of
    the receive loop are a checksum mismatch and a sequence-number mismatch;
    decryption never sees a partial block and the frame loop always ends. *)
Theorem reader_errors_are_mismatches inputs rb0 e :
  reader_run (S:=WorkerFairnessState) env dk mode inputs rb0 = Err e ->
  e = RdCrcMismatch \/ exists expected got, e = RdSeqNoMismatch expected got.
Proof. apply reader_run_errors. Qed.
End delivery.

Section attempts.
Context {S : Type} (env : ReaderEnv).

(** A data frame is offered to the registry at most three times, it is
    reported as not taken only after three refusals, and the retries touch
    neither the scheduler nor the streak table. *)
Theorem route_retries_bounded cid flags data (t : ReaderTables (S:=S)) :
  let r := route_data_with_retry env cid flags data t in
  (rt_calls t < rt_calls r.2 <= rt_calls t + DATA_ROUTE_MAX_ATTEMPTS)%nat /\
  (is_data_route_queue_full r.1 = true -> rt_calls r.2 = (rt_calls t + DATA_ROUTE_MAX_ATTEMPTS)%nat) /\
  r.1 = env_route env (rt_calls r.2 - 1) /\
  rt_fairness r.2 = rt_fairness t /\ rt_streak r.2 = rt_streak t.
Proof.
  cbv zeta. unfold route_data_with_retry, DATA_ROUTE_MAX_ATTEMPTS. cbn [Nat.sub route_attempts route_call].
  assert (Hpred : forall n, (Datatypes.S n - 1 = n)%nat) by (intros; lia).
  destruct (is_data_route_queue_full (env_route env (rt_calls t))) eqn:E0; cbn;
    [destruct (is_data_route_queue_full (env_route env (Datatypes.S (rt_calls t)))) eqn:E1; cbn;
     [destruct (is_data_route_queue_full (env_route env (Datatypes.S (Datatypes.S (rt_calls t))))) eqn:E2; cbn|]|];
    rewrite ?Nat.sub_0_r; repeat split; try lia; congruence.
Qed.
End attempts.

(** ** A run with a full client *)

(** An answer of the middle proxy, as a payload. *)
Definition answer_payload (cid : Z) (data : list Z) : list Z :=
  to_le 4 RPC_PROXY_ANS_U32 ++ to_le 4 0 ++ to_le 8 cid ++ data.

Definition answer_bytes (answers : list (list Z)) : list Z :=
  match writer_sends answers (mkRpcWriter demo_key demo_iv 0 Crc32) with
  | Ok (c, _) => c
  | Err _ => []
  end.

(** The registry accepts everything from its [k]-th call on. *)
Definition busy_until (k : nat) : ReaderEnv :=
  mkEnv (fun n => if (n <? k)%nat then RrQueueFullBase else RrRouted) (fun _ => SendOk)
    (fun n => Z.of_nat n * 1000).

Definition demo_start := reader_init 1 64 false 0 [] demo_iv [].
Definition demo_fair_inputs : list ReaderInput :=
  [RiBytes false true (answer_bytes [answer_payload 7 [1; 1; 1; 1]; answer_payload 8 [2; 2; 2; 2]])].

Definition demo_rb (env : ReaderEnv) (inputs : list ReaderInput) :=
  match reader_run env demo_key Crc32 inputs demo_start with Ok rb => rb | Err _ => demo_start end.

Lemma reader_in_order_witness :
  delivered 7 (rt_log (rb_state (demo_rb (busy_until 2) demo_fair_inputs))) ++
    (payload_of <$> backlog (rt_fairness (rb_state (demo_rb (busy_until 2) demo_fair_inputs))) 7)
  `sublist_of` received 7 (rt_log (rb_state (demo_rb (busy_until 2) demo_fair_inputs))).
Proof.
  apply (reader_in_order (busy_until 2) demo_key Crc32 1 64 false 0 [] demo_iv [] demo_fair_inputs);
    [lia | reflexivity | vm_compute; reflexivity].
Defined.

Lemma reader_lossless_witness :
  delivered 8 (rt_log (rb_state (demo_rb (busy_until 0) demo_fair_inputs))) ++
    (payload_of <$> backlog (rt_fairness (rb_state (demo_rb (busy_until 0) demo_fair_inputs))) 8)
  = received 8 (rt_log (rb_state (demo_rb (busy_until 0) demo_fair_inputs))) /\
  received 8 (rt_log (rb_state (demo_rb (busy_until 0) demo_fair_inputs))) = [(0, [2; 2; 2; 2])].
Proof.
  split; [|vm_compute; reflexivity].
  apply (reader_lossless (busy_until 0) demo_key Crc32 1 64 false 0 [] demo_iv [] demo_fair_inputs);
    [lia | reflexivity | vm_compute; reflexivity | vm_compute; repeat constructor].
Defined.

Lemma reader_errors_are_mismatches_witness :
  let e := RdSeqNoMismatch 0 5 in
  e = RdCrcMismatch \/ exists expected got, e = RdSeqNoMismatch expected got.
Proof.
  apply (reader_errors_are_mismatches (busy_until 0) demo_key Crc32
    [RiBytes false true
       (match writer_sends [answer_payload 7 [1; 1; 1; 1]] (mkRpcWriter demo_key demo_iv 5 Crc32) with
        | Ok (c, _) => c | Err _ => [] end)] demo_start).
  vm_compute. reflexivity.
Defined.

(** The order guarantee is lost when fair sharing is switched off while a
    connection has a backlog: the next answer is routed directly and overtakes
    the queued one.  The client of connection 7 receives the second answer
    first. *)
Theorem fairshare_switch_reorders :
  exists inputs rb,
    reader_run (busy_until 384) demo_key Crc32 inputs demo_start = Ok rb /\
    received 7 (rt_log (rb_state rb)) = [(0, [1; 1; 1; 1]); (0, [2; 2; 2; 2])] /\
    delivered 7 (rt_log (rb_state rb)) = [(0, [2; 2; 2; 2]); (0, [1; 1; 1; 1])].
Proof.
  set (l := answer_bytes [answer_payload 7 [1; 1; 1; 1]; answer_payload 7 [2; 2; 2; 2]]).
  exists [RiBytes false true (take 32 l); RiBytes false false (drop 32 l); RiRetry false].
  eexists. split; [vm_compute; reflexivity|]. split; vm_compute; reflexivity.
Qed.

(** The whole-word condition of the delivery theorem is needed.  A record
    whose payload is not a whole number of words is padded with a cut filler
    word, after which the stream is out of step: the reader hands over the
    unaligned payload and loses the valid one that follows it. *)
Theorem unaligned_payload_desyncs :
  exists C w' rb,
    writer_sends [[1; 2; 3; 4; 5]; [6; 7; 8; 9]] demo_writer = Ok (C, w') /\
    read_segments collect demo_key Crc32c [C] (mkReaderBytes [] demo_iv [] 5 []) = Ok rb /\
    rb_state rb = [[1; 2; 3; 4; 5]] /\ rb_dec rb = [].
Proof. eexists _, _, _. split; [vm_compute; reflexivity|]. split; [vm_compute; reflexivity|]. done. Qed.
