(* ===== verification/Random.v ===== *)
(** The random generator of [crypto/random.rs]: a buffer of 512-byte chunks of
    the third-party [StdRng], whitened by an AES-CTR stream.  The generator is
    the parameter; the buffering, the bit extraction, the choice and the shuffle
    are modelled as they are written, with the generator's state passed along. *)

From stdpp Require Import base list numbers.
From S2P Require Import Prelude Aes.
Local Open Scope nat_scope.

(** * The third-party generator *)

Class StdRng (R : Type) := {
  rng_fill_bytes : nat -> R -> list Z * R;
  (** [random_range(0..max)] and [random_range(0..=max)]. *)
  rng_random_range : nat -> R -> nat * R;
  rng_random_range_incl : nat -> R -> nat * R;
}.

Class StdRngLaws (R : Type) `{StdRng R} := {
  rng_fill_bytes_ok n r : length (rng_fill_bytes n r).1 = n /\ bytes_ok (rng_fill_bytes n r).1;
  rng_random_range_lt max r : 0 < max -> (rng_random_range max r).1 < max;
  rng_random_range_le max r : (rng_random_range_incl max r).1 <= max;
}.

Section random.
Context {R : Type} `{StdRng R} `{StreamKey}.

(** [inner.lock()] makes each call one atomic transition of this record. *)
Record SecureRandomInner := mkRandom {
  rand_rng : R;
  rand_cipher : AesCtr;
  rand_buffer : list Z;
  rand_buffer_start : nat;
}.

Definition CHUNK_SIZE : nat := 512.

(** [if buffer_start >= buffer.len() { buffer.clear(); buffer_start = 0 }]. *)
Definition drop_spent (s : SecureRandomInner) : SecureRandomInner :=
  if length (rand_buffer s) <=? rand_buffer_start s
  then mkRandom (rand_rng s) (rand_cipher s) [] 0 else s.

Definition refill (s : SecureRandomInner) : SecureRandomInner :=
  if bool_decide (rand_buffer s = []) then
    let '(chunk, rng) := rng_fill_bytes CHUNK_SIZE (rand_rng s) in
    let '(chunk, cipher) := ctr_apply chunk (rand_cipher s) in
    mkRandom rng cipher chunk 0
  else s.

(** [while written < out.len()], [need = out.len() - written]. *)
Fixpoint fill_loop (fuel need : nat) (s : SecureRandomInner) : list Z * SecureRandomInner :=
  match fuel with
  | O => ([], s)
  | S fuel =>
      if need =? 0 then ([], s)
      else
        let s := refill (drop_spent s) in
        let available := length (rand_buffer s) - rand_buffer_start s in
        let n := Nat.min need available in
        let out := sub (rand_buffer_start s) n (rand_buffer s) in
        let s := drop_spent (mkRandom (rand_rng s) (rand_cipher s) (rand_buffer s)
                               (rand_buffer_start s + n)) in
        let '(rest, s) := fill_loop fuel (need - n) s in
        (out ++ rest, s)
  end.

(** [fill] on a buffer of [len] bytes, and [bytes]: each round of the loop takes
    at least one byte, so [len] rounds suffice. *)
Definition rand_bytes (len : nat) (s : SecureRandomInner) : list Z * SecureRandomInner :=
  fill_loop len len s.

Definition rand_range (max : nat) (s : SecureRandomInner) : nat * SecureRandomInner :=
  if max =? 0 then (0, s)
  else
    let '(v, rng) := rng_random_range max (rand_rng s) in
    (v, mkRandom rng (rand_cipher s) (rand_buffer s) (rand_buffer_start s)).

(** [for (i, &b) in bytes.iter().enumerate() { result |= (b as u64) << (i * 8) }]. *)
Fixpoint or_bytes (i : nat) (bytes : list Z) (result : Z) : Z :=
  match bytes with
  | [] => result
  | b :: bytes =>
      if 8 <=? i then result
      else or_bytes (S i) bytes (Z.lor result (Z.shiftl b (Z.of_nat (i * 8)) mod 2 ^ 64)%Z)
  end.

Definition rand_bits (k : nat) (s : SecureRandomInner) : Z * SecureRandomInner :=
  if k =? 0 then (0%Z, s)
  else
    let bytes_needed := (k + 7) / 8 in
    let '(bytes, s) := rand_bytes (Nat.min bytes_needed 8) s in
    let result := or_bytes 0 bytes 0 in
    (if k <? 64 then Z.land result (Z.shiftl 1 (Z.of_nat k) - 1)%Z else result, s).

Definition rand_choose {T} (slice : list T) (s : SecureRandomInner) : option T * SecureRandomInner :=
  match slice with
  | [] => (None, s)
  | _ => let '(i, s) := rand_range (length slice) s in (slice !! i, s)
  end.

(** [slice.swap(i, j)]; both indices are in range where it is called. *)
Definition swap {T} (i j : nat) (slice : list T) : list T :=
  match slice !! i, slice !! j with
  | Some x, Some y => <[i := y]> (<[j := x]> slice)
  | _, _ => slice
  end.

(** [for i in (1..slice.len()).rev()]: [i] runs from [n] down to 1. *)
Fixpoint shuffle_down {T} (n : nat) (slice : list T) (rng : R) : list T * R :=
  match n with
  | O => (slice, rng)
  | S n' =>
      let '(j, rng) := rng_random_range_incl n rng in
      shuffle_down n' (swap n j slice) rng
  end.

Definition rand_shuffle {T} (slice : list T) (s : SecureRandomInner) : list T * SecureRandomInner :=
  let '(slice, rng) := shuffle_down (length slice - 1) slice (rand_rng s) in
  (slice, mkRandom rng (rand_cipher s) (rand_buffer s) (rand_buffer_start s)).

End random.

Arguments SecureRandomInner : clear implicits.
Arguments mkRandom {_} _ _ _ _.

(** * Lemmas *)

Section lemmas.
Context {R : Type} `{StdRngLaws R} `{StreamKey}.
Implicit Types s : SecureRandomInner R.

(** After the refill there is at least one unread byte. *)
Lemma refill_available s :
  let s' := refill (drop_spent s) in rand_buffer_start s' < length (rand_buffer s').
Proof.
  unfold refill, drop_spent. destruct (Nat.leb_spec (length (rand_buffer s)) (rand_buffer_start s));
    cbn [rand_buffer rand_rng rand_cipher].
  - rewrite bool_decide_true by done.
    pose proof (rng_fill_bytes_ok CHUNK_SIZE (rand_rng s)) as [Hl _].
    destruct (rng_fill_bytes _ _) as [chunk r]. unfold ctr_apply. cbn [rand_buffer rand_buffer_start fst] in *.
    rewrite length_xor_bytes, length_fmap, length_seq, Hl. unfold CHUNK_SIZE. lia.
  - rewrite bool_decide_false; [lia|]. intros Hnil. rewrite Hnil in *. cbn in *. lia.
Qed.

(** An unspent buffer is left alone. *)
Lemma refill_unspent s :
  rand_buffer_start s < length (rand_buffer s) -> refill (drop_spent s) = s.
Proof.
  intros Hlt. unfold drop_spent. destruct (Nat.leb_spec (length (rand_buffer s)) (rand_buffer_start s)); [lia|].
  unfold refill. rewrite bool_decide_false; [done|]. intros Hnil. rewrite Hnil in *. cbn in *. lia.
Qed.

Lemma fill_loop_zero fuel s : fill_loop fuel 0 s = ([], s).
Proof. by destruct fuel. Qed.

(** One round of the loop, on a state whose buffer has unread bytes. *)
Definition take_bytes (n : nat) (s : SecureRandomInner R) : SecureRandomInner R :=
  drop_spent (mkRandom (rand_rng s) (rand_cipher s) (rand_buffer s) (rand_buffer_start s + n)).

Lemma fill_loop_round fuel need s :
  0 < need ->
  let s' := refill (drop_spent s) in
  let n := Nat.min need (length (rand_buffer s') - rand_buffer_start s') in
  fill_loop (S fuel) need s =
  let r := fill_loop fuel (need - n) (take_bytes n s') in
  (sub (rand_buffer_start s') n (rand_buffer s') ++ r.1, r.2).
Proof.
  intros Hn s' n. cbn [fill_loop]. rewrite (proj2 (Nat.eqb_neq need 0)) by lia.
  fold s'. fold n. unfold take_bytes. by destruct (fill_loop fuel _ _).
Qed.

Lemma fill_loop_length fuel need s : need <= fuel -> length (fill_loop fuel need s).1 = need.
Proof.
  revert need s. induction fuel as [|fuel IH]; intros need s Hf; [cbn; lia|].
  destruct (decide (need = 0)) as [->|Hne]; [done|].
  pose proof (refill_available s) as Ha. cbn zeta in Ha.
  rewrite fill_loop_round by lia. cbn zeta. cbn [fst].
  rewrite length_app, IH, length_sub; lia.
Qed.

(** More fuel than bytes needed changes nothing. *)
Lemma fill_loop_fuel f g need s : need <= f -> need <= g -> fill_loop f need s = fill_loop g need s.
Proof.
  revert g need s. induction f as [|f IH]; intros g need s Hf Hg.
  { assert (need = 0) as -> by lia. by rewrite !fill_loop_zero. }
  destruct (decide (need = 0)) as [->|Hne]; [by rewrite !fill_loop_zero|].
  destruct g as [|g]; [lia|].
  pose proof (refill_available s) as Ha. cbn zeta in Ha.
  rewrite !fill_loop_round by lia. cbn zeta. rewrite (IH g) by lia. done.
Qed.

Lemma sub_split (i a b : nat) (l : list Z) : sub i (a + b) l = sub i a l ++ sub (i + a) b l.
Proof.
  unfold sub. rewrite <- drop_drop. generalize (drop i l). intros m.
  revert m. induction a as [|a IH]; intros [|x m]; cbn; try done.
  - by rewrite take_nil.
  - by rewrite IH.
Qed.

(** Two requests in a row get the bytes one request of both sizes gets, and
    leave the generator in the same state. *)
Lemma fill_loop_split fuel a b s :
  a + b <= fuel ->
  fill_loop fuel (a + b) s =
  let r1 := fill_loop fuel a s in
  let r2 := fill_loop fuel b r1.2 in
  (r1.1 ++ r2.1, r2.2).
Proof.
  revert a b s. induction fuel as [|fuel IH]; intros a b s Hf; [done|]. cbn zeta.
  destruct (decide (a = 0)) as [->|Ha].
  { rewrite Nat.add_0_l, (fill_loop_zero (S fuel) s). cbn [fst snd app]. by destruct (fill_loop _ b s). }
  destruct (decide (b = 0)) as [->|Hb].
  { rewrite Nat.add_0_r, fill_loop_zero. cbn [fst snd]. rewrite app_nil_r. by destruct (fill_loop _ a s). }
  pose proof (refill_available s) as Hav. cbn zeta in Hav.
  rewrite (fill_loop_round fuel (a + b)), (fill_loop_round fuel a) by lia. cbn zeta.
  set (s' := refill (drop_spent s)) in *.
  set (av := length (rand_buffer s') - rand_buffer_start s').
  destruct (decide (a < av)) as [Hlt|Hge].
  - rewrite (Nat.min_l a), Nat.sub_diag, fill_loop_zero by lia. cbn [fst snd]. rewrite app_nil_r.
    assert (take_bytes a s' = mkRandom (rand_rng s') (rand_cipher s') (rand_buffer s')
              (rand_buffer_start s' + a)) as ->.
    { unfold take_bytes, drop_spent. cbn [rand_buffer rand_buffer_start].
      rewrite (proj2 (Nat.leb_gt _ _)); [done|]. unfold av in Hlt. lia. }
    rewrite (fill_loop_round fuel b) by lia. cbn zeta.
    rewrite refill_unspent by (cbn [rand_buffer rand_buffer_start]; unfold av in Hlt; lia).
    unfold take_bytes. cbn [rand_buffer rand_buffer_start rand_rng rand_cipher fst snd].
    replace (length (rand_buffer s') - (rand_buffer_start s' + a)) with (av - a) by (unfold av; lia).
    replace (Nat.min (a + b) av) with (a + Nat.min b (av - a)) by lia.
    rewrite sub_split, <- app_assoc, Nat.add_assoc.
    by replace (a + b - (a + Nat.min b (av - a))) with (b - Nat.min b (av - a)) by lia.
  - rewrite !(Nat.min_r _ av) by lia.
    replace (a + b - av) with (a - av + b) by lia. rewrite IH by lia. cbn zeta. cbn [fst snd].
    rewrite <- app_assoc. by rewrite (fill_loop_fuel fuel (S fuel) b) by lia.
Qed.

Lemma rand_bytes_length n s : length (rand_bytes n s).1 = n.
Proof. by apply fill_loop_length. Qed.

Lemma rand_range_lt max s : 0 < max -> (rand_range max s).1 < max.
Proof.
  intros Hm. unfold rand_range. rewrite (proj2 (Nat.eqb_neq max 0)) by lia.
  pose proof (rng_random_range_lt max (rand_rng s) Hm). by destruct (rng_random_range _ _).
Qed.

Lemma swap_perm {T} i j (l : list T) : swap i j l ≡ₚ l.
Proof.
  unfold swap. destruct (l !! i) as [x|] eqn:Hi, (l !! j) as [y|] eqn:Hj; try done.
  by apply Permutation_insert_swap.
Qed.

Lemma shuffle_down_perm {T} n (l : list T) (r : R) : (shuffle_down n l r).1 ≡ₚ l.
Proof.
  revert l r. induction n as [|n IH]; intros l r; [done|]. cbn [shuffle_down].
  destruct (rng_random_range_incl _ _) as [j r']. rewrite IH. apply swap_perm.
Qed.

End lemmas.
