(* ===== verification/Tls.v ===== *)
(** The fake TLS 1.3 handshake of [protocol/tls.rs]: ClientHello parsers,
    authentication by HMAC, selection of the ServerHello parameters, and the
    ServerHello response.

    The parsers index the received bytes; they are written in the [parse] monad
    so that an index out of range would be a [Panic] and a loop that does not
    end would be [OutOfFuel].  HMAC-SHA-256, the random generator and X25519 are
    parameters. *)

From stdpp Require Import base list sets numbers.
From S2P Require Import Prelude Aes.
Local Open Scope nat_scope.
Local Open Scope parse_scope.

(** * Constants *)

Definition TLS_DIGEST_LEN : nat := 32.
Definition TLS_DIGEST_POS : nat := 11.
Definition TIME_SKEW_MIN : Z := (-2 * 60)%Z.
Definition TIME_SKEW_MAX : Z := (2 * 60)%Z.
Definition BOOT_TIME_MAX_SECS : Z := (7 * 24 * 60 * 60)%Z.
Definition BOOT_TIME_COMPAT_MAX_SECS : Z := (2 * 60)%Z.

Definition EXT_KEY_SHARE : Z := 0x0033%Z.
Definition EXT_SUPPORTED_VERSIONS : Z := 0x002b%Z.
Definition EXT_ALPN : Z := 0x0010%Z.

Definition TLS_AES_128_GCM_SHA256 : list Z := [0x13; 0x01]%Z.
Definition TLS_AES_256_GCM_SHA384 : list Z := [0x13; 0x02]%Z.
Definition TLS_CHACHA20_POLY1305_SHA256 : list Z := [0x13; 0x03]%Z.

Definition X25519 : Z := 0x001d%Z.
Definition X25519MLKEM768 : Z := 0x11ec%Z.
Definition X25519_KEY_SHARE_LEN : nat := 32.
Definition X25519MLKEM768_CLIENT_KEY_SHARE_LEN : nat := 1216.
Definition X25519MLKEM768_SERVER_KEY_SHARE_LEN : nat := 1120.
Definition MLKEM768_SERVER_CIPHERTEXT_LEN : nat := 1088.

Definition TLS_VERSION : list Z := [0x03; 0x03]%Z.
Definition TLS_RECORD_HANDSHAKE : Z := 0x16%Z.
Definition TLS_RECORD_CHANGE_CIPHER : Z := 0x14%Z.
Definition TLS_RECORD_APPLICATION : Z := 0x17%Z.
Definition MAX_TLS_CIPHERTEXT_SIZE : nat := 16384 + 256.

(** * Reading lengths *)

(** [*h.get(pos)? as usize], [u16::from_be_bytes([h[pos], h[pos + 1]]) as usize]
    and the three-byte length of a handshake message. *)
Definition len8 (h : list Z) (pos : nat) : parse nat := b <~ get h pos ;; Got (Z.to_nat b).
Definition len16 (h : list Z) (pos : nat) : parse nat := v <~ be16_at h pos ;; Got (Z.to_nat v).
Definition len24 (h : list Z) (pos : nat) : parse nat :=
  a <~ ix h pos ;; b <~ ix h (pos + 1) ;; c <~ ix h (pos + 2) ;; Got (Z.to_nat (of_be [a; b; c])).

(** * Host names *)

Definition is_digit (b : Z) : bool := ((48 <=? b) && (b <=? 57))%Z.
Definition is_ascii_alphanumeric (b : Z) : bool :=
  (is_digit b || ((65 <=? b) && (b <=? 90)) || ((97 <=? b) && (b <=? 122)))%Z.
Definition DOT : Z := 46%Z.
Definition DASH : Z := 45%Z.

(** [host.split(c)]: always at least one piece. *)
Fixpoint split_on (c : Z) (l : list Z) : list (list Z) :=
  match l with
  | [] => [[]]
  | b :: l =>
      if (b =? c)%Z then [] :: split_on c l
      else match split_on c l with
           | [] => [[b]]
           | w :: ws => (b :: w) :: ws
           end
  end.

(** A decimal octet as the standard library parses it: one to three digits,
    no leading zero, at most 255. *)
Definition is_octet (w : list Z) : bool :=
  bool_decide (1 <= length w <= 3) && forallb is_digit w &&
  (bool_decide (length w = 1) || negb (bool_decide (head w = Some 48%Z))) &&
  (foldl (fun acc b => acc * 10 + (b - 48)) 0 w <=? 255)%Z.

(** [host.parse::<IpAddr>().is_ok()] on the strings that can still pass the
    label check: an IPv6 literal contains a colon, which no label may. *)
Definition is_ip_literal (host : list Z) : bool :=
  let ws := split_on DOT host in
  bool_decide (length ws = 4) && forallb is_octet ws.

Definition label_ok (label : list Z) : bool :=
  negb (bool_decide (label = [])) && (length label <=? 63) &&
  negb (bool_decide (head label = Some DASH)) && negb (bool_decide (list.last label = Some DASH)) &&
  forallb (fun b => is_ascii_alphanumeric b || (b =? DASH)%Z) label.

Definition is_valid_sni_hostname (host : list Z) : bool :=
  if bool_decide (host = []) || (253 <? length host) then false
  else if bool_decide (head host = Some DOT) || bool_decide (list.last host = Some DOT) then false
  else if is_ip_literal host then false
  else forallb label_ok (split_on DOT host).

(** * Server name *)

Fixpoint sni_names (fuel : nat) (h : list Z) (sn_end sn_pos : nat) : parse (option (list Z)) :=
  match fuel with
  | O => OutOfFuel
  | S fuel =>
      if sn_pos + 3 <=? sn_end then
        name_type <~ ix h sn_pos ;;
        name_len <~ len16 h (sn_pos + 1) ;;
        let sn_pos := sn_pos + 3 in
        if sn_end <? sn_pos + name_len then Got None
        else if (name_type =? 0)%Z && (0 <? name_len) then
          host <~ slice h sn_pos (sn_pos + name_len) ;;
          if is_valid_sni_hostname host then Got (Some host)
          else sni_names fuel h sn_end (sn_pos + name_len)
        else sni_names fuel h sn_end (sn_pos + name_len)
      else Got None
  end.

Fixpoint sni_extensions (fuel : nat) (h : list Z) (ext_end pos : nat) (saw : bool)
    (found : option (list Z)) : parse (option (list Z)) :=
  match fuel with
  | O => OutOfFuel
  | S fuel =>
      if pos + 4 <=? ext_end then
        etype <~ be16_at h pos ;;
        elen <~ len16 h (pos + 2) ;;
        let pos := pos + 4 in
        if ext_end <? pos + elen then Got found
        else if (etype =? 0)%Z && saw then Reject
        else
          let saw := saw || (etype =? 0)%Z in
          if (etype =? 0)%Z && (5 <=? elen) then
            list_len <~ len16 h pos ;;
            let sn_pos := pos + 2 in
            let sn_end := Nat.min (sn_pos + list_len) (pos + elen) in
            name <~ sni_names (S (length h)) h sn_end sn_pos ;;
            let found := match name with Some host => Some host | None => found end in
            sni_extensions fuel h ext_end (pos + elen) saw found
          else sni_extensions fuel h ext_end (pos + elen) saw found
      else Got found
  end.

Definition extract_sni_from_client_hello (h : list Z) : parse (list Z) :=
  require (43 <=? length h) ;;
  b0 <~ ix h 0 ;;
  require (b0 =? TLS_RECORD_HANDSHAKE)%Z ;;
  record_len <~ len16 h 3 ;;
  require (5 + record_len <=? length h) ;;
  let pos := 5 in
  ty <~ get h pos ;;
  require (ty =? 1)%Z ;;
  let pos := pos + 4 + (2 + 32) in
  require (pos + 1 <=? length h) ;;
  session_id_len <~ len8 h pos ;;
  let pos := pos + (1 + session_id_len) in
  require (pos + 2 <=? length h) ;;
  cipher_suites_len <~ len16 h pos ;;
  let pos := pos + (2 + cipher_suites_len) in
  require (pos + 1 <=? length h) ;;
  comp_len <~ len8 h pos ;;
  let pos := pos + (1 + comp_len) in
  require (pos + 2 <=? length h) ;;
  ext_len <~ len16 h pos ;;
  let pos := pos + 2 in
  let ext_end := pos + ext_len in
  require (ext_end <=? length h) ;;
  found <~ sni_extensions (S (length h)) h ext_end pos false None ;;
  match found with Some host => Got host | None => Reject end.

(** * ALPN *)

Fixpoint alpn_protocols (fuel : nat) (h : list Z) (list_end lp : nat) (out : list (list Z))
    : parse (list (list Z)) :=
  match fuel with
  | O => OutOfFuel
  | S fuel =>
      if lp <? list_end then
        b <~ ix h lp ;;
        let plen := Z.to_nat b in
        let lp := lp + 1 in
        if list_end <? lp + plen then Got out
        else
          p <~ slice h lp (lp + plen) ;;
          alpn_protocols fuel h list_end (lp + plen) (out ++ [p])
      else Got out
  end.

Fixpoint alpn_extensions (fuel : nat) (h : list Z) (ext_end pos : nat) : parse (list (list Z)) :=
  match fuel with
  | O => OutOfFuel
  | S fuel =>
      if pos + 4 <=? ext_end then
        etype <~ be16_at h pos ;;
        elen <~ len16 h (pos + 2) ;;
        let pos := pos + 4 in
        if ext_end <? pos + elen then Got []
        else if (etype =? EXT_ALPN)%Z && (3 <=? elen) then
          list_len <~ len16 h pos ;;
          let list_end := Nat.min (pos + 2 + list_len) (pos + elen) in
          alpn_protocols (S (length h)) h list_end (pos + 2) []
        else alpn_extensions fuel h ext_end (pos + elen)
      else Got []
  end.

(** [Reject] stands for the early [return Vec::new()]. *)
Definition extract_alpn_from_client_hello (h : list Z) : parse (list (list Z)) :=
  require (5 <=? length h) ;;
  b0 <~ ix h 0 ;;
  require (b0 =? TLS_RECORD_HANDSHAKE)%Z ;;
  record_len <~ len16 h 3 ;;
  require (5 + record_len <=? length h) ;;
  let pos := 5 in
  ty <~ get h pos ;;
  require (ty =? 1)%Z ;;
  let pos := pos + 4 + (2 + 32) in
  require (pos <? length h) ;;
  session_id_len <~ len8 h pos ;;
  let pos := pos + (1 + session_id_len) in
  require (pos + 2 <=? length h) ;;
  cipher_len <~ len16 h pos ;;
  let pos := pos + (2 + cipher_len) in
  require (pos <? length h) ;;
  comp_len <~ len8 h pos ;;
  let pos := pos + (1 + comp_len) in
  require (pos + 2 <=? length h) ;;
  ext_len <~ len16 h pos ;;
  let pos := pos + 2 in
  let ext_end := pos + ext_len in
  require (ext_end <=? length h) ;;
  alpn_extensions (S (length h)) h ext_end pos.

(** * TLS version *)

Inductive ClientHelloTlsVersion := Tls12 | Tls13.

Fixpoint scan_versions (fuel : nat) (h : list Z) (ver_end ver_pos : nat) (has_tls12 : bool)
    : parse ClientHelloTlsVersion :=
  match fuel with
  | O => OutOfFuel
  | S fuel =>
      if ver_pos + 1 <? ver_end then
        version <~ be16_at h ver_pos ;;
        if (version =? 0x0304)%Z then Got Tls13
        else
          let has_tls12 :=
            has_tls12 || (version =? 0x0303)%Z || (version =? 0x0302)%Z || (version =? 0x0301)%Z in
          scan_versions fuel h ver_end (ver_pos + 2) has_tls12
      else if has_tls12 then Got Tls12 else Reject
  end.

(** [Got None] when no [supported_versions] extension was met. *)
Fixpoint version_extensions (fuel : nat) (h : list Z) (ext_end pos : nat)
    : parse (option ClientHelloTlsVersion) :=
  match fuel with
  | O => OutOfFuel
  | S fuel =>
      if pos + 4 <=? ext_end then
        etype <~ be16_at h pos ;;
        elen <~ len16 h (pos + 2) ;;
        let pos := pos + 4 in
        require (pos + elen <=? ext_end) ;;
        if (etype =? EXT_SUPPORTED_VERSIONS)%Z then
          require (1 <=? elen) ;;
          b <~ ix h pos ;;
          let list_len := Z.to_nat b in
          require (negb ((list_len =? 0) || negb (list_len mod 2 =? 0) || (elen <? 1 + list_len))) ;;
          v <~ scan_versions (S (length h)) h (pos + 1 + list_len) (pos + 1) false ;;
          Got (Some v)
        else version_extensions fuel h ext_end (pos + elen)
      else Got None
  end.

Definition detect_client_hello_tls_version (h : list Z) : parse ClientHelloTlsVersion :=
  require (5 <=? length h) ;;
  b0 <~ ix h 0 ;;
  require (b0 =? TLS_RECORD_HANDSHAKE)%Z ;;
  record_len <~ len16 h 3 ;;
  require (5 + record_len <=? length h) ;;
  let pos := 5 in
  ty <~ get h pos ;;
  require (ty =? 1)%Z ;;
  let pos := pos + 1 in
  require (pos + 3 <=? length h) ;;
  handshake_len <~ len24 h pos ;;
  let pos := pos + 3 in
  require (pos + handshake_len <=? 5 + record_len) ;;
  require (pos + 2 + 32 <=? length h) ;;
  legacy_version <~ be16_at h pos ;;
  let pos := pos + (2 + 32) in
  session_id_len <~ len8 h pos ;;
  let pos := pos + (1 + session_id_len) in
  require (pos + 2 <=? length h) ;;
  cipher_len <~ len16 h pos ;;
  let pos := pos + (2 + cipher_len) in
  require (pos <? length h) ;;
  comp_len <~ len8 h pos ;;
  let pos := pos + (1 + comp_len) in
  require (pos + 2 <=? length h) ;;
  ext_len <~ len16 h pos ;;
  let pos := pos + 2 in
  let ext_end := pos + ext_len in
  require (ext_end <=? length h) ;;
  found <~ version_extensions (S (length h)) h ext_end pos ;;
  match found with
  | Some v => Got v
  | None => if (0x0303 <=? legacy_version)%Z then Got Tls12 else Reject
  end.

(** * Ranges of the cipher suites and of the extensions *)

(** The common head of the two range functions: the position of the
    cipher-suite length and the end of the handshake message. *)
Definition client_hello_to_ciphers (h : list Z) : parse (nat * nat) :=
  require (5 <=? length h) ;;
  b0 <~ ix h 0 ;;
  require (b0 =? TLS_RECORD_HANDSHAKE)%Z ;;
  record_len <~ len16 h 3 ;;
  let record_end := 5 + record_len in
  require (record_end <=? length h) ;;
  let pos := 5 in
  ty <~ get h pos ;;
  require (ty =? 1)%Z ;;
  let pos := pos + 1 in
  require (pos + 3 <=? record_end) ;;
  handshake_len <~ len24 h pos ;;
  let pos := pos + 3 in
  let handshake_end := pos + handshake_len in
  require (handshake_end <=? record_end) ;;
  require (pos + 2 + 32 <=? handshake_end) ;;
  let pos := pos + (2 + 32) in
  session_id_len <~ len8 h pos ;;
  let pos := pos + 1 + session_id_len in
  require (pos + 2 <=? handshake_end) ;;
  Got (pos, handshake_end).

Definition client_hello_cipher_suites_range (h : list Z) : parse (nat * nat) :=
  r <~ client_hello_to_ciphers h ;;
  let '(pos, handshake_end) := r in
  cipher_len <~ len16 h pos ;;
  require (negb ((cipher_len =? 0) || negb (cipher_len mod 2 =? 0))) ;;
  let pos := pos + 2 in
  let cipher_end := pos + cipher_len in
  require (cipher_end <=? handshake_end) ;;
  Got (pos, cipher_end).

Definition client_hello_extensions_range (h : list Z) : parse (nat * nat) :=
  r <~ client_hello_to_ciphers h ;;
  let '(pos, handshake_end) := r in
  cipher_len <~ len16 h pos ;;
  require (negb ((cipher_len =? 0) || negb (cipher_len mod 2 =? 0))) ;;
  let pos := pos + 2 + cipher_len in
  require (pos + 1 <=? handshake_end) ;;
  compression_len <~ len8 h pos ;;
  let pos := pos + 1 + compression_len in
  if pos =? handshake_end then Got (handshake_end, handshake_end)
  else
    require (pos + 2 <=? handshake_end) ;;
    extensions_len <~ len16 h pos ;;
    let pos := pos + 2 in
    let extensions_end := pos + extensions_len in
    require (extensions_end <=? handshake_end) ;;
    Got (pos, extensions_end).

(** * Key shares *)

Fixpoint key_share_entries (fuel : nat) (data : list Z) (group : Z) (expected : nat)
    (shares_end pos : nat) (found : option (list Z)) : parse (list Z) :=
  match fuel with
  | O => OutOfFuel
  | S fuel =>
      if pos + 4 <=? shares_end then
        entry_group <~ be16_at data pos ;;
        key_exchange_len <~ len16 data (pos + 2) ;;
        let pos := pos + 4 in
        let key_exchange_end := pos + key_exchange_len in
        require (key_exchange_end <=? shares_end) ;;
        if (entry_group =? group)%Z then
          require (negb (negb (key_exchange_len =? expected) || bool_decide (is_Some found))) ;;
          k <~ slice data pos key_exchange_end ;;
          key_share_entries fuel data group expected shares_end key_exchange_end (Some k)
        else key_share_entries fuel data group expected shares_end key_exchange_end found
      else if pos =? shares_end then
        match found with Some k => Got k | None => Reject end
      else Reject
  end.

Definition key_share_extension_group_entry (data : list Z) (group : Z) (expected : nat)
    : parse (list Z) :=
  require (2 <=? length data) ;;
  shares_len <~ len16 data 0 ;;
  require (shares_len =? length data - 2) ;;
  key_share_entries (S (length data)) data group expected (2 + shares_len) 2 None.

Fixpoint key_share_extension (fuel : nat) (h : list Z) (group : Z) (expected : nat)
    (extensions_end pos : nat) : parse (list Z) :=
  match fuel with
  | O => OutOfFuel
  | S fuel =>
      if pos + 4 <=? extensions_end then
        ext_type <~ be16_at h pos ;;
        ext_len <~ len16 h (pos + 2) ;;
        let pos := pos + 4 in
        let ext_end := pos + ext_len in
        require (ext_end <=? extensions_end) ;;
        if (ext_type =? EXT_KEY_SHARE)%Z then
          data <~ slice h pos ext_end ;;
          key_share_extension_group_entry data group expected
        else key_share_extension fuel h group expected extensions_end ext_end
      else Reject
  end.

Definition client_hello_key_share_group_entry (h : list Z) (group : Z) (expected : nat)
    : parse (list Z) :=
  r <~ client_hello_extensions_range h ;;
  let '(pos, extensions_end) := r in
  key_share_extension (S (length h)) h group expected extensions_end pos.

Definition server_hello_key_share_candidate_order (preferred_group : option Z) : list Z :=
  if bool_decide (preferred_group = Some X25519) then [X25519; X25519MLKEM768]
  else [X25519MLKEM768; X25519].

Definition client_hello_key_share_group_len (group : Z) : option nat :=
  if (group =? X25519MLKEM768)%Z then Some X25519MLKEM768_CLIENT_KEY_SHARE_LEN
  else if (group =? X25519)%Z then Some X25519_KEY_SHARE_LEN
  else None.

(** [entry.is_some()]. *)
Definition parsed {A} (m : parse A) : parse bool :=
  match m with
  | Got _ => Got true
  | Reject => Got false
  | Panic => Panic
  | OutOfFuel => OutOfFuel
  end.

Fixpoint select_group (h : list Z) (groups : list Z) : parse Z :=
  match groups with
  | [] => Reject
  | group :: groups =>
      match client_hello_key_share_group_len group with
      | None => Reject
      | Some expected =>
          offered <~ parsed (client_hello_key_share_group_entry h group expected) ;;
          if (offered : bool) then Got group else select_group h groups
      end
  end.

Definition select_server_hello_key_share_group_with_preference (h : list Z)
    (preferred_group : option Z) : parse Z :=
  select_group h (server_hello_key_share_candidate_order preferred_group).

(** * Cipher suites *)

Fixpoint offers_from (fuel : nat) (h : list Z) (suite : list Z) (range_end pos : nat) : parse bool :=
  match fuel with
  | O => OutOfFuel
  | S fuel =>
      if pos + 1 <? range_end then
        a <~ ix h pos ;;
        b <~ ix h (pos + 1) ;;
        if bool_decide ([a; b] = suite) then Got true
        else offers_from fuel h suite range_end (pos + 2)
      else Got false
  end.

Definition client_hello_offers_cipher_suite (h : list Z) (range : nat * nat) (suite : list Z)
    : parse bool :=
  offers_from (S (length h)) h suite range.2 range.1.

Definition is_tls13_cipher_suite (suite : list Z) : bool :=
  bool_decide (suite = TLS_AES_128_GCM_SHA256) || bool_decide (suite = TLS_AES_256_GCM_SHA384)
  || bool_decide (suite = TLS_CHACHA20_POLY1305_SHA256).

Fixpoint first_offered (h : list Z) (range : nat * nat) (suites : list (list Z)) : parse (list Z) :=
  match suites with
  | [] => Reject
  | suite :: suites =>
      offered <~ client_hello_offers_cipher_suite h range suite ;;
      if (offered : bool) then Got suite else first_offered h range suites
  end.

Definition select_server_hello_cipher_suite (h : list Z) (preferred : list Z) : parse (list Z) :=
  let preferred := if is_tls13_cipher_suite preferred then preferred else TLS_AES_128_GCM_SHA256 in
  range <~ client_hello_cipher_suites_range h ;;
  first_offered h range
    [preferred; TLS_AES_128_GCM_SHA256; TLS_CHACHA20_POLY1305_SHA256; TLS_AES_256_GCM_SHA384].

(** * Record headers *)

Definition is_tls_handshake (first_bytes : list Z) : bool :=
  match first_bytes with
  | a :: b :: c :: _ =>
      ((a =? TLS_RECORD_HANDSHAKE) && (b =? 0x03) && ((c =? 0x01) || (c =? 0x03)))%Z
  | _ => false
  end.

(** [header] has five bytes. *)
Definition parse_tls_record_header (header : list Z) : parse (Z * Z) :=
  record_type <~ ix header 0 ;;
  a <~ ix header 1 ;;
  b <~ ix header 2 ;;
  require (bool_decide ([a; b] = [0x03; 0x01]%Z) || bool_decide ([a; b] = TLS_VERSION)) ;;
  length <~ be16_at header 3 ;;
  Got (record_type, length).

(** * The parsers neither panic nor run out of fuel *)

Lemma safe_len8 h pos : safe (len8 h pos).
Proof. unfold len8. solve_safe. Qed.

Lemma safe_len16 h pos : pos + 1 < length h -> safe (len16 h pos).
Proof. intros. unfold len16. solve_safe. Qed.

Lemma safe_len24 h pos : pos + 2 < length h -> safe (len24 h pos).
Proof. intros. unfold len24. solve_safe. Qed.

(** Turns the boolean guards in the context into facts for [lia]. *)
Ltac bools :=
  repeat match goal with
  | H : andb _ _ = true |- _ => apply andb_prop in H as [? ?]
  | H : (_ <=? _) = true |- _ => apply Nat.leb_le in H
  | H : (_ <? _) = true |- _ => apply Nat.ltb_lt in H
  | H : (_ <=? _) = false |- _ => apply Nat.leb_gt in H
  | H : (_ <? _) = false |- _ => apply Nat.ltb_ge in H
  | H : (_ =? _) = true |- _ => apply Nat.eqb_eq in H
  | H : (_ =? _) = false |- _ => apply Nat.eqb_neq in H
  end.

(** Straight-line parser code: the guards become hypotheses of [lia]. *)
Ltac parser_safe :=
  repeat match goal with
  | _ => progress bools
  | |- safe (len8 _ _) => apply safe_len8
  | |- safe (len16 _ _) => apply safe_len16; lia
  | |- safe (len24 _ _) => apply safe_len24; lia
  | |- safe (if ?b then _ else _) => destruct b eqn:?
  | |- safe (match ?o with Some _ => _ | None => _ end) => destruct o eqn:?
  | |- safe (let '(_, _) := ?p in _) => destruct p eqn:?
  | _ => progress solve_safe
  | _ => progress cbv zeta
  end.

Lemma sni_names_safe fuel h sn_end sn_pos :
  sn_end <= length h -> sn_end - sn_pos < fuel -> safe (sni_names fuel h sn_end sn_pos).
Proof.
  revert sn_pos. induction fuel as [|fuel IH]; intros sn_pos He Hf; [lia|]. cbn [sni_names].
  parser_safe; apply IH; lia.
Qed.

Lemma sni_extensions_safe fuel h ext_end pos saw found :
  ext_end <= length h -> ext_end - pos < fuel -> safe (sni_extensions fuel h ext_end pos saw found).
Proof.
  revert pos saw found. induction fuel as [|fuel IH]; intros pos saw found He Hf; [lia|].
  cbn [sni_extensions]. parser_safe; try (apply IH; lia). apply sni_names_safe; lia.
Qed.

Lemma extract_sni_safe h : safe (extract_sni_from_client_hello h).
Proof. unfold extract_sni_from_client_hello. parser_safe. apply sni_extensions_safe; lia. Qed.

Lemma alpn_protocols_safe fuel h list_end lp out :
  list_end <= length h -> list_end - lp < fuel -> safe (alpn_protocols fuel h list_end lp out).
Proof.
  revert lp out. induction fuel as [|fuel IH]; intros lp out He Hf; [lia|]. cbn [alpn_protocols].
  parser_safe; apply IH; lia.
Qed.

Lemma alpn_extensions_safe fuel h ext_end pos :
  ext_end <= length h -> ext_end - pos < fuel -> safe (alpn_extensions fuel h ext_end pos).
Proof.
  revert pos. induction fuel as [|fuel IH]; intros pos He Hf; [lia|]. cbn [alpn_extensions].
  parser_safe; [apply alpn_protocols_safe; lia | apply IH; lia].
Qed.

Lemma extract_alpn_safe h : safe (extract_alpn_from_client_hello h).
Proof. unfold extract_alpn_from_client_hello. parser_safe. apply alpn_extensions_safe; lia. Qed.

Lemma scan_versions_safe fuel h ver_end ver_pos b :
  ver_end <= length h -> ver_end - ver_pos < fuel -> safe (scan_versions fuel h ver_end ver_pos b).
Proof.
  revert ver_pos b. induction fuel as [|fuel IH]; intros ver_pos b He Hf; [lia|]. cbn [scan_versions].
  parser_safe; apply IH; lia.
Qed.

Lemma version_extensions_safe fuel h ext_end pos :
  ext_end <= length h -> ext_end - pos < fuel -> safe (version_extensions fuel h ext_end pos).
Proof.
  revert pos. induction fuel as [|fuel IH]; intros pos He Hf; [lia|]. cbn [version_extensions].
  parser_safe; [|apply IH; lia].
  match goal with H : negb (_ || _) = true |- _ =>
    apply negb_true_iff, orb_false_iff in H as [_ Hlen%Nat.ltb_ge] end.
  apply scan_versions_safe; lia.
Qed.

Lemma detect_version_safe h : safe (detect_client_hello_tls_version h).
Proof. unfold detect_client_hello_tls_version. parser_safe. apply version_extensions_safe; lia. Qed.

(** The two ranges lie inside the received bytes. *)
Lemma client_hello_to_ciphers_safe h : safe (client_hello_to_ciphers h).
Proof. unfold client_hello_to_ciphers. parser_safe. Qed.

Lemma parse_bind_Got {A B} (m : parse A) (k : A -> parse B) (y : B) :
  parse_bind m k = Got y -> exists x, m = Got x /\ k x = Got y.
Proof. destruct m; cbn; try done. eauto. Qed.

Lemma guard_ok_Got {B} (b : bool) (k : parse B) (y : B) :
  guard_ok b k = Got y -> b = true /\ k = Got y.
Proof. by destruct b. Qed.

(** Inverts a run of straight-line parser code that returned a value. *)
Ltac parser_inv H :=
  cbv zeta in H;
  repeat match type of H with
  | parse_bind _ _ = Got _ =>
      apply parse_bind_Got in H; let x := fresh "v" in let Hx := fresh "Hv" in destruct H as (x & Hx & H);
      cbv zeta in H
  | guard_ok _ _ = Got _ =>
      apply guard_ok_Got in H; let Hx := fresh "Hg" in destruct H as [Hx H]; cbv zeta in H
  end.

Lemma client_hello_to_ciphers_bound h pos e :
  client_hello_to_ciphers h = Got (pos, e) -> pos + 2 <= e <= length h.
Proof. unfold client_hello_to_ciphers. intros Hp. parser_inv Hp. bools. simplify_eq. lia. Qed.

Lemma cipher_range_safe h : safe (client_hello_cipher_suites_range h).
Proof.
  unfold client_hello_cipher_suites_range.
  apply safe_bind; [apply client_hello_to_ciphers_safe|]. intros [pos e] Hr%client_hello_to_ciphers_bound.
  parser_safe.
Qed.

Lemma cipher_range_bound h a b : client_hello_cipher_suites_range h = Got (a, b) -> a <= b <= length h.
Proof.
  unfold client_hello_cipher_suites_range. intros Hp. parser_inv Hp.
  destruct v as [pos e]. apply client_hello_to_ciphers_bound in Hv. parser_inv Hp. bools. simplify_eq. lia.
Qed.

Lemma extensions_range_safe h : safe (client_hello_extensions_range h).
Proof.
  unfold client_hello_extensions_range.
  apply safe_bind; [apply client_hello_to_ciphers_safe|]. intros [pos e] Hr%client_hello_to_ciphers_bound.
  parser_safe.
Qed.

Lemma extensions_range_bound h a b : client_hello_extensions_range h = Got (a, b) -> a <= b <= length h.
Proof.
  unfold client_hello_extensions_range. intros Hp. parser_inv Hp.
  destruct v as [pos e]. apply client_hello_to_ciphers_bound in Hv. parser_inv Hp.
  destruct (_ =? e) eqn:?; [|parser_inv Hp]; bools; simplify_eq; lia.
Qed.

Lemma key_share_entries_safe fuel data group expected shares_end pos found :
  shares_end <= length data -> shares_end - pos < fuel ->
  safe (key_share_entries fuel data group expected shares_end pos found).
Proof.
  revert pos found. induction fuel as [|fuel IH]; intros pos found He Hf; [lia|].
  cbn [key_share_entries]. parser_safe; apply IH; lia.
Qed.

Lemma key_share_entry_safe data group expected : safe (key_share_extension_group_entry data group expected).
Proof. unfold key_share_extension_group_entry. parser_safe. apply key_share_entries_safe; lia. Qed.

Lemma key_share_extension_safe fuel h group expected e pos :
  e <= length h -> e - pos < fuel -> safe (key_share_extension fuel h group expected e pos).
Proof.
  revert pos. induction fuel as [|fuel IH]; intros pos He Hf; [lia|]. cbn [key_share_extension].
  parser_safe; [apply key_share_entry_safe | apply IH; lia].
Qed.

Lemma key_share_group_entry_safe h group expected : safe (client_hello_key_share_group_entry h group expected).
Proof.
  unfold client_hello_key_share_group_entry.
  apply safe_bind; [apply extensions_range_safe|]. intros [pos e] Hr%extensions_range_bound.
  apply key_share_extension_safe; lia.
Qed.

Lemma select_group_safe h groups : safe (select_group h groups).
Proof.
  induction groups as [|g groups IH]; [done|]. cbn [select_group].
  destruct (client_hello_key_share_group_len g); [|done].
  apply safe_bind; [|intros [|] _; done].
  pose proof (key_share_group_entry_safe h g n). by destruct (client_hello_key_share_group_entry _ _ _).
Qed.

Lemma offers_from_safe fuel h suite e pos :
  e <= length h -> e - pos < fuel -> safe (offers_from fuel h suite e pos).
Proof.
  revert pos. induction fuel as [|fuel IH]; intros pos He Hf; [lia|]. cbn [offers_from].
  parser_safe; apply IH; lia.
Qed.

Lemma select_cipher_safe h preferred : safe (select_server_hello_cipher_suite h preferred).
Proof.
  unfold select_server_hello_cipher_suite. apply safe_bind; [apply cipher_range_safe|].
  intros [a b] Hr%cipher_range_bound.
  generalize ([if is_tls13_cipher_suite preferred then preferred else TLS_AES_128_GCM_SHA256;
    TLS_AES_128_GCM_SHA256; TLS_CHACHA20_POLY1305_SHA256; TLS_AES_256_GCM_SHA384]).
  intros suites. induction suites as [|x suites IH]; [done|]. cbn [first_offered].
  apply safe_bind; [apply offers_from_safe; cbn; lia|]. intros [|] _; done.
Qed.

(** * What a successful parse guarantees, on any bytes *)

Ltac split_if H := match type of H with (if ?b then _ else _) = _ => destruct b eqn:? end.

Lemma sni_names_valid fuel h sn_end sn_pos host :
  sni_names fuel h sn_end sn_pos = Got (Some host) -> is_valid_sni_hostname host = true.
Proof.
  revert sn_pos. induction fuel as [|fuel IH]; intros sn_pos Hp; [done|]. cbn [sni_names] in Hp.
  destruct (_ <=? _); [|done]. parser_inv Hp. destruct (_ <? _); [done|].
  destruct (_ && _); [|by eapply IH]. parser_inv Hp.
  split_if Hp; [by simplify_eq | by eapply IH].
Qed.

Lemma sni_extensions_valid fuel h ext_end pos saw found host :
  (forall x, found = Some x -> is_valid_sni_hostname x = true) ->
  sni_extensions fuel h ext_end pos saw found = Got (Some host) -> is_valid_sni_hostname host = true.
Proof.
  revert pos saw found. induction fuel as [|fuel IH]; intros pos saw found Hf Hp; [done|].
  cbn [sni_extensions] in Hp. destruct (_ <=? ext_end); [|by apply Hf; simplify_eq].
  parser_inv Hp. destruct (_ <? _); [by apply Hf; simplify_eq|]. destruct (_ && saw); [done|].
  destruct (_ && _); [|by eapply IH in Hp]. parser_inv Hp. eapply IH in Hp; [done|].
  intros x Hx. match goal with H : sni_names _ _ _ _ = Got ?o |- _ => destruct o as [y|] end; [|by apply Hf].
  simplify_eq. by eapply sni_names_valid.
Qed.

Lemma extract_sni_valid h host :
  extract_sni_from_client_hello h = Got host -> is_valid_sni_hostname host = true.
Proof.
  unfold extract_sni_from_client_hello. intros Hp. parser_inv Hp.
  match type of Hp with match ?o with _ => _ end = _ => destruct o as [x|] eqn:? end; [|done]. simplify_eq.
  by eapply sni_extensions_valid; [|eassumption].
Qed.

Lemma key_share_entries_length fuel data group expected shares_end pos found k :
  (forall x, found = Some x -> length x = expected) ->
  key_share_entries fuel data group expected shares_end pos found = Got k -> length k = expected.
Proof.
  revert pos found. induction fuel as [|fuel IH]; intros pos found Hf Hp; [done|].
  cbn [key_share_entries] in Hp. destruct (_ <=? shares_end).
  - parser_inv Hp. destruct (_ =? group)%Z; [|by eapply IH in Hp]. parser_inv Hp. eapply IH in Hp; [done|].
    intros x [= <-].
    match goal with H : slice _ _ _ = Got _ |- _ => apply slice_Got in H as [Hr ->] end.
    rewrite length_take, length_drop.
    match goal with H : negb (negb (?a =? ?b) || _) = true |- _ =>
      destruct (Nat.eqb_spec a b); [|done] end. lia.
  - destruct (_ =? _); [|done]. destruct found; simplify_eq. by apply Hf.
Qed.

Lemma key_share_group_entry_length h group expected k :
  client_hello_key_share_group_entry h group expected = Got k -> length k = expected.
Proof.
  unfold client_hello_key_share_group_entry. intros Hp. parser_inv Hp.
  match type of Hp with (let '(_, _) := ?p in _) = _ => destruct p as [pos e] end.
  clear Hv. revert pos Hp. generalize (S (length h)).
  intros fuel. induction fuel as [|fuel IH]; intros pos Hp; [done|].
  cbn [key_share_extension] in Hp. destruct (_ <=? _); [|done]. parser_inv Hp.
  destruct (_ =? _)%Z; [|by eapply IH].
  parser_inv Hp. unfold key_share_extension_group_entry in Hp. parser_inv Hp.
  by eapply key_share_entries_length in Hp.
Qed.

Lemma select_group_offered h groups g :
  select_group h groups = Got g ->
  g ∈ groups /\ exists n k, client_hello_key_share_group_len g = Some n /\
    client_hello_key_share_group_entry h g n = Got k /\ length k = n.
Proof.
  induction groups as [|x groups IH]; [done|]. cbn [select_group].
  destruct (client_hello_key_share_group_len x) as [n|] eqn:Hn; [|done].
  destruct (client_hello_key_share_group_entry h x n) as [k| | |] eqn:Hk; cbn [parsed parse_bind]; try done.
  - intros [= <-]. split; [apply list_elem_of_here|]. exists n, k.
    split_and!; [done | done | by eapply key_share_group_entry_length].
  - intros [Hin Hrest]%IH. split; [by apply list_elem_of_further | done].
Qed.

Lemma first_offered_in h range suites s : first_offered h range suites = Got s -> s ∈ suites.
Proof.
  induction suites as [|x suites IH]; [done|]. cbn [first_offered]. intros Hp. parser_inv Hp.
  match type of Hp with (if ?b then _ else _) = _ => destruct b end; simplify_eq.
  - apply list_elem_of_here.
  - apply list_elem_of_further. by apply IH.
Qed.

Lemma select_cipher_tls13 h preferred s :
  select_server_hello_cipher_suite h preferred = Got s -> is_tls13_cipher_suite s = true.
Proof.
  unfold select_server_hello_cipher_suite. intros Hp. parser_inv Hp. apply first_offered_in in Hp.
  destruct (is_tls13_cipher_suite preferred) eqn:Ht; set_unfold in Hp; naive_solver.
Qed.
