(* ===== verification/TlsServer.v ===== *)
(** The server side of [protocol/tls.rs]: authentication of a ClientHello by the
    users' secrets, and the ServerHello response that proves the secret back to
    the client.  HMAC-SHA-256 and X25519 are parameters with the laws the crates
    document; random bytes come from the model of [SecureRandom]. *)

From stdpp Require Import base list numbers.
From S2P Require Import Prelude Aes Random Tls.
Local Open Scope nat_scope.
Local Open Scope parse_scope.

Class HmacSha256 := sha256_hmac : list Z -> list Z -> list Z.

Class HmacSha256Laws `{HmacSha256} :=
  sha256_hmac_ok key data : length (sha256_hmac key data) = 32 /\ bytes_ok (sha256_hmac key data).

(** [x25519(scalar, point)]. *)
Class X25519Fn := x25519 : list Z -> list Z -> list Z.

Class X25519Laws `{X25519Fn} := x25519_ok scalar point : length (x25519 scalar point) = 32.

(** * Authentication *)

Record TlsValidation := mkValidation {
  tv_user : list Z;
  tv_session_id : list Z;
  tv_digest : list Z;
  tv_timestamp : Z;
}.

(** [l[off..off + data.len()].copy_from_slice(data)]. *)
Definition copy_at (off : nat) (data l : list Z) : parse (list Z) :=
  if off + length data <=? length l then Got (take off l ++ data ++ drop (off + length data) l)
  else Panic.

(** The system clock: seconds since the epoch, or [None] before it. *)
Definition system_time_to_unix_secs (clock : option Z) : option Z :=
  match clock with
  | Some d => if (d <=? 2 ^ 63 - 1)%Z then Some d else None
  | None => None
  end.

Definition MAX_U32 : Z := (2 ^ 32 - 1)%Z.

Section validate.
Context `{HmacSha256}.

(** What one iteration of the loop over the users computes: the timestamp if
    the digest is the user's and the time is accepted. *)
Definition check_secret (msg digest secret : list Z) (ignore_time_skew : bool)
    (now boot_time_cap_secs : Z) : option Z :=
  let computed := sha256_hmac secret msg in
  if negb (bool_decide (take 28 digest = take 28 computed)) then None
  else
    let timestamp := of_le (xor_bytes (drop 28 digest) (drop 28 computed)) in
    if ignore_time_skew then Some timestamp
    else
      let is_boot_time := ((0 <? boot_time_cap_secs) && (timestamp <? boot_time_cap_secs))%Z in
      if is_boot_time then Some timestamp
      else
        let time_diff := (now - timestamp)%Z in
        if ((TIME_SKEW_MIN <=? time_diff) && (time_diff <=? TIME_SKEW_MAX))%Z then Some timestamp
        else None.

(** The loop visits every user, whatever it finds, and keeps the first match. *)
Fixpoint check_secrets (msg digest : list Z) (secrets : list (list Z * list Z))
    (ignore_time_skew : bool) (now boot_time_cap_secs : Z)
    (first_match : option (list Z * Z)) : option (list Z * Z) :=
  match secrets with
  | [] => first_match
  | (user, secret) :: secrets =>
      let first_match :=
        match check_secret msg digest secret ignore_time_skew now boot_time_cap_secs with
        | None => first_match
        | Some timestamp =>
            match first_match with None => Some (user, timestamp) | Some m => Some m end
        end in
      check_secrets msg digest secrets ignore_time_skew now boot_time_cap_secs first_match
  end.

Definition validate_tls_handshake_at_time_with_boot_cap (handshake : list Z)
    (secrets : list (list Z * list Z)) (ignore_time_skew : bool) (now boot_time_cap_secs : Z)
    : parse TlsValidation :=
  require (TLS_DIGEST_POS + TLS_DIGEST_LEN + 1 <=? length handshake) ;;
  digest <~ slice handshake TLS_DIGEST_POS (TLS_DIGEST_POS + TLS_DIGEST_LEN) ;;
  let session_id_len_pos := TLS_DIGEST_POS + TLS_DIGEST_LEN in
  session_id_len <~ len8 handshake session_id_len_pos ;;
  require (session_id_len <=? 32) ;;
  let session_id_start := session_id_len_pos + 1 in
  require (session_id_start + session_id_len <=? length handshake) ;;
  session_id <~ slice handshake session_id_start (session_id_start + session_id_len) ;;
  msg <~ copy_at TLS_DIGEST_POS (replicate TLS_DIGEST_LEN 0%Z) handshake ;;
  match check_secrets msg digest secrets ignore_time_skew now boot_time_cap_secs None with
  | Some (user, timestamp) => Got (mkValidation user session_id digest timestamp)
  | None => Reject
  end.

Definition boot_time_cap (ignore_time_skew : bool) (replay_window_secs : Z) : Z :=
  let replay_window_u32 := if (replay_window_secs <=? MAX_U32)%Z then replay_window_secs else MAX_U32 in
  if ignore_time_skew then 0%Z
  else Z.min (Z.min BOOT_TIME_MAX_SECS replay_window_u32) BOOT_TIME_COMPAT_MAX_SECS.

Definition validate_tls_handshake_with_replay_window (clock : option Z) (handshake : list Z)
    (secrets : list (list Z * list Z)) (ignore_time_skew : bool) (replay_window_secs : Z)
    : parse TlsValidation :=
  let now := if ignore_time_skew then Some 0%Z else system_time_to_unix_secs clock in
  match now with
  | None => Reject
  | Some now =>
      validate_tls_handshake_at_time_with_boot_cap handshake secrets ignore_time_skew now
        (boot_time_cap ignore_time_skew replay_window_secs)
  end.

End validate.

(** * Extension and ServerHello builders *)

Definition be16 (v : Z) : list Z := to_be 2 v.

Record ServerHelloKeyShare := mkKeyShare { ks_group : Z; ks_key_exchange : list Z }.

(** [u16::try_from(len).is_ok()]. *)
Definition fits_u16 (len : nat) : bool := (Z.of_nat len <=? 65535)%Z.

Definition add_key_share (group : Z) (key_exchange : list Z) (extensions : list Z) : list Z :=
  if negb (fits_u16 (length key_exchange)) then extensions
  else
    let entry_len := length key_exchange + 4 in
    if negb (fits_u16 entry_len) then extensions
    else
      extensions ++ be16 EXT_KEY_SHARE ++ be16 (Z.of_nat entry_len) ++ be16 group ++
      be16 (Z.of_nat (length key_exchange)) ++ key_exchange.

Definition add_supported_versions (version : Z) (extensions : list Z) : list Z :=
  extensions ++ be16 EXT_SUPPORTED_VERSIONS ++ be16 2 ++ be16 version.

Record ServerHelloBuilder := mkHelloBuilder {
  sh_random : list Z;
  sh_session_id : list Z;
  sh_cipher_suite : list Z;
  sh_compression : Z;
  sh_extensions : list Z;
}.

Definition server_hello_new (session_id : list Z) : ServerHelloBuilder :=
  mkHelloBuilder (replicate 32 0%Z) session_id TLS_AES_128_GCM_SHA256 0 [].

Definition with_key_share (group : Z) (key_exchange : list Z) (b : ServerHelloBuilder) :=
  mkHelloBuilder (sh_random b) (sh_session_id b) (sh_cipher_suite b) (sh_compression b)
    (add_key_share group key_exchange (sh_extensions b)).

Definition with_tls13_version (b : ServerHelloBuilder) :=
  mkHelloBuilder (sh_random b) (sh_session_id b) (sh_cipher_suite b) (sh_compression b)
    (add_supported_versions 0x0304 (sh_extensions b)).

Definition with_cipher_suite (cipher_suite : list Z) (b : ServerHelloBuilder) :=
  if bool_decide (cipher_suite = [0; 0]%Z) then b
  else mkHelloBuilder (sh_random b) (sh_session_id b) cipher_suite (sh_compression b) (sh_extensions b).

Definition build_message (b : ServerHelloBuilder) : list Z :=
  let session_id_len := Z.of_nat (length (sh_session_id b)) in
  if (255 <? session_id_len)%Z then []
  else
    let extensions := sh_extensions b in
    if negb (fits_u16 (length extensions)) then []
    else
      let body_len := 2 + 32 + 1 + length (sh_session_id b) + 2 + 1 + 2 + length extensions in
      if (0x00ffffff <? Z.of_nat body_len)%Z then []
      else
        [0x02%Z] ++ drop 1 (to_be 4 (Z.of_nat body_len)) ++ TLS_VERSION ++ sh_random b ++
        [session_id_len] ++ sh_session_id b ++ sh_cipher_suite b ++ [sh_compression b] ++
        be16 (Z.of_nat (length extensions)) ++ extensions.

(** [[type] version length payload], as each record of the response is written. *)
Definition tls_record (ty : Z) (payload : list Z) : list Z :=
  [ty] ++ TLS_VERSION ++ be16 (Z.of_nat (length payload)) ++ payload.

Definition build_record (b : ServerHelloBuilder) : list Z :=
  let message := build_message b in
  if bool_decide (message = []) then []
  else if negb (fits_u16 (length message)) then []
  else tls_record TLS_RECORD_HANDSHAKE message.

(** * The response *)

Section response.
Context {R : Type} `{StdRng R} `{StreamKey} `{HmacSha256} `{X25519Fn}.

Definition X25519_BASEPOINT_BYTES : list Z := 9%Z :: replicate 31 0%Z.

Definition gen_x25519_key_pair (rng : SecureRandomInner R) : (list Z * list Z) * SecureRandomInner R :=
  let '(scalar, rng) := rand_bytes X25519_KEY_SHARE_LEN rng in
  ((scalar, x25519 scalar X25519_BASEPOINT_BYTES), rng).

Definition gen_fake_x25519_key (rng : SecureRandomInner R) : list Z * SecureRandomInner R :=
  let '((_, public_key), rng) := gen_x25519_key_pair rng in (public_key, rng).

Definition gen_fake_x25519mlkem768_server_key_share (rng : SecureRandomInner R) : list Z * SecureRandomInner R :=
  let '(ciphertext, rng) := rand_bytes MLKEM768_SERVER_CIPHERTEXT_LEN rng in
  let '(x25519_key, rng) := gen_fake_x25519_key rng in
  (ciphertext ++ x25519_key, rng).

Definition build_server_hello_key_share_for_group (handshake : list Z) (group : Z) (rng : SecureRandomInner R)
    : parse (ServerHelloKeyShare * SecureRandomInner R) :=
  match client_hello_key_share_group_len group with
  | None => Reject
  | Some expected =>
      _ <~ client_hello_key_share_group_entry handshake group expected ;;
      if (group =? X25519MLKEM768)%Z then
        let '(key, rng) := gen_fake_x25519mlkem768_server_key_share rng in
        Got (mkKeyShare group key, rng)
      else if (group =? X25519)%Z then
        let '(key, rng) := gen_fake_x25519_key rng in Got (mkKeyShare group key, rng)
      else Reject
  end.

(** A group that is not available draws no random bytes. *)
Fixpoint first_key_share (handshake : list Z) (groups : list Z) (rng : SecureRandomInner R)
    : parse (ServerHelloKeyShare * SecureRandomInner R) :=
  match groups with
  | [] => Reject
  | group :: groups =>
      match build_server_hello_key_share_for_group handshake group rng with
      | Reject => first_key_share handshake groups rng
      | r => r
      end
  end.

Definition build_server_hello_key_share (handshake : list Z) (preferred_group : option Z)
    (rng : SecureRandomInner R) : parse (ServerHelloKeyShare * SecureRandomInner R) :=
  first_key_share handshake (server_hello_key_share_candidate_order preferred_group) rng.

(** [for _ in 0..ticket_count]: the records of the session tickets. *)
Fixpoint ticket_records (n : nat) (rng : SecureRandomInner R) : list (list Z) * SecureRandomInner R :=
  match n with
  | O => ([], rng)
  | S n =>
      let '(extra, rng) := rand_range 48 rng in
      let '(payload, rng) := rand_bytes (extra + 48) rng in
      let '(rest, rng) := ticket_records n rng in
      (tls_record TLS_RECORD_APPLICATION payload :: rest, rng)
  end.

Definition MIN_APP_DATA : nat := 64.

Definition build_server_hello_with_cipher (secret client_digest session_id : list Z)
    (fake_cert_len : nat) (selected_cipher_suite : list Z) (server_key_share : ServerHelloKeyShare)
    (new_session_tickets : nat) (rng : SecureRandomInner R) : parse (list Z * SecureRandomInner R) :=
  let fake_cert_len := Nat.max MIN_APP_DATA (Nat.min fake_cert_len MAX_TLS_CIPHERTEXT_SIZE) in
  let server_hello :=
    build_record
      (with_tls13_version
        (with_key_share (ks_group server_key_share) (ks_key_exchange server_key_share)
          (with_cipher_suite selected_cipher_suite (server_hello_new session_id)))) in
  let change_cipher_spec := [TLS_RECORD_CHANGE_CIPHER; 0x03; 0x03; 0x00; 0x01; 0x01]%Z in
  let '(fake_cert, rng) := rand_bytes fake_cert_len rng in
  let app_data_record :=
    [TLS_RECORD_APPLICATION] ++ TLS_VERSION ++ be16 (Z.of_nat fake_cert_len) ++ fake_cert in
  let '(tickets, rng) := ticket_records (Nat.min new_session_tickets 4) rng in
  let response := server_hello ++ change_cipher_spec ++ app_data_record ++ concat tickets in
  let response_digest := sha256_hmac secret (client_digest ++ response) in
  response <~ copy_at TLS_DIGEST_POS response_digest response ;;
  Got (response, rng).

Definition build_server_hello (secret client_digest session_id : list Z) (fake_cert_len : nat)
    (new_session_tickets : nat) (rng : SecureRandomInner R) : parse (list Z * SecureRandomInner R) :=
  let '(key, rng) := gen_fake_x25519mlkem768_server_key_share rng in
  build_server_hello_with_cipher secret client_digest session_id fake_cert_len
    TLS_AES_128_GCM_SHA256 (mkKeyShare X25519MLKEM768 key) new_session_tickets rng.

End response.

(** * Specifications *)

(** The ClientHello with its digest cleared: what the digest signs. *)
Definition zeroed (h : list Z) : list Z :=
  take TLS_DIGEST_POS h ++ replicate TLS_DIGEST_LEN 0%Z ++ drop (TLS_DIGEST_POS + TLS_DIGEST_LEN) h.

Definition digest_of (h : list Z) : list Z := sub TLS_DIGEST_POS TLS_DIGEST_LEN h.

(** The mask of a timestamp: it is folded into the last four bytes. *)
Definition stamp (ts : Z) : list Z := replicate 28 0%Z ++ to_le 4 ts.

Definition time_accepted (ignore_time_skew : bool) (now cap ts : Z) : Prop :=
  ignore_time_skew = true \/ (ts < cap)%Z \/ (TIME_SKEW_MIN <= now - ts <= TIME_SKEW_MAX)%Z.

(** [h] was signed with [secret] at time [ts], and that time is accepted. *)
Definition authentic `{HmacSha256} (h secret : list Z) (ignore_time_skew : bool) (now cap ts : Z) : Prop :=
  (0 <= ts < 2 ^ 32)%Z /\
  digest_of h = xor_bytes (sha256_hmac secret (zeroed h)) (stamp ts) /\
  time_accepted ignore_time_skew now cap ts.

(** A stream of TLS records, cut with the code's own header parser. *)
Fixpoint split_records (fuel : nat) (l : list Z) : parse (list (Z * list Z)) :=
  match fuel with
  | O => OutOfFuel
  | S fuel =>
      if bool_decide (l = []) then Got []
      else
        header <~ slice l 0 5 ;;
        r <~ parse_tls_record_header header ;;
        payload <~ slice l 5 (5 + Z.to_nat r.2) ;;
        rest <~ split_records fuel (drop (5 + Z.to_nat r.2) l) ;;
        Got ((r.1, payload) :: rest)
  end.

(** * Lemmas on masks *)

Lemma xor_bytes_comm a b : xor_bytes a b = xor_bytes b a.
Proof.
  revert b. induction a as [|x a IH]; intros [|y b]; cbn; try done.
  f_equal; [apply Z.lxor_comm | apply IH].
Qed.

Lemma xor_bytes_app a b c d :
  length a = length c -> xor_bytes (a ++ b) (c ++ d) = xor_bytes a c ++ xor_bytes b d.
Proof. intros Hl. unfold xor_bytes. by apply zip_with_app. Qed.

Lemma xor_bytes_zero a n : n = length a -> xor_bytes a (replicate n 0%Z) = a.
Proof.
  intros ->. induction a as [|x a IH]; [done|]. cbn. rewrite Z.lxor_0_r. f_equal. apply IH.
Qed.

(** The digest carries the timestamp and nothing else. *)
Lemma stamp_digest digest c ts :
  length digest = 32 -> length c = 32 -> bytes_ok digest -> bytes_ok c -> (0 <= ts < 2 ^ 32)%Z ->
  digest = xor_bytes c (stamp ts) <->
  take 28 digest = take 28 c /\ of_le (xor_bytes (drop 28 digest) (drop 28 c)) = ts.
Proof.
  intros Hd Hc Bd Bc Hts.
  assert (xor_bytes c (stamp ts) = take 28 c ++ xor_bytes (drop 28 c) (to_le 4 ts)) as Hx.
  { rewrite <- (take_drop 28 c) at 1. unfold stamp.
    rewrite xor_bytes_app by (rewrite length_take, length_replicate; lia).
    by rewrite xor_bytes_zero by (rewrite length_take; lia). }
  rewrite Hx. split.
  - intros ->. rewrite take_app_length', drop_app_length' by (rewrite length_take; lia).
    split; [done|].
    rewrite (xor_bytes_comm (drop 28 c)), xor_bytes_cancel
      by (rewrite length_to_le, length_drop; lia).
    apply of_le_to_le. exact Hts.
  - intros [Ht Hv]. rewrite <- (take_drop 28 digest), Ht at 1. f_equal.
    assert (to_le 4 ts = xor_bytes (drop 28 digest) (drop 28 c)) as ->.
    { pose proof (to_le_of_le (xor_bytes (drop 28 digest) (drop 28 c))
        (xor_bytes_ok _ _ (Forall_drop _ _ _ Bd) (Forall_drop _ _ _ Bc))) as Hy.
      rewrite length_xor_bytes, !length_drop, Hd, Hc, Hv in Hy. exact Hy. }
    rewrite (xor_bytes_comm (drop 28 c)), xor_bytes_cancel; [done|]. rewrite !length_drop. lia.
Qed.

Section auth.
Context `{HmacSha256Laws}.

Lemma check_secret_spec msg digest secret ig now cap ts :
  length digest = 32 -> bytes_ok digest ->
  check_secret msg digest secret ig now cap = Some ts <->
  (0 <= ts < 2 ^ 32)%Z /\ digest = xor_bytes (sha256_hmac secret msg) (stamp ts) /\
  time_accepted ig now cap ts.
Proof.
  intros Hl Hok. destruct (sha256_hmac_ok secret msg) as [Hcl Hcok].
  unfold check_secret. set (c := sha256_hmac secret msg) in *.
  assert (0 <= of_le (xor_bytes (drop 28 digest) (drop 28 c)) < 2 ^ 32)%Z as Hr.
  { pose proof (of_le_bounds (xor_bytes (drop 28 digest) (drop 28 c))
      (xor_bytes_ok _ _ (Forall_drop _ _ _ Hok) (Forall_drop _ _ _ Hcok))) as Hb.
    rewrite length_xor_bytes, !length_drop, Hl, Hcl in Hb. exact Hb. }
  split.
  - intros Hs. case_bool_decide as Ht; [|done]. cbn [negb] in Hs.
    set (t := of_le _) in *.
    assert (t = ts /\ time_accepted ig now cap t) as [<- Htime].
    { unfold time_accepted. destruct ig; [by simplify_eq; auto|].
      destruct ((0 <? cap) && (t <? cap))%Z eqn:Hb; [simplify_eq; split; [done|]; lia|].
      destruct ((TIME_SKEW_MIN <=? now - t) && (now - t <=? TIME_SKEW_MAX))%Z eqn:Hw; [|done].
      simplify_eq. split; [done|]. lia. }
    split; [done|]. split; [|done]. by apply stamp_digest.
  - intros (Hts & Hd & Htime). apply stamp_digest in Hd as [Ht Hv]; try done.
    rewrite bool_decide_true by done. cbn [negb]. rewrite Hv. unfold time_accepted in Htime.
    destruct ig; [done|]. destruct Htime as [?|[?|?]]; [done| |].
    + by replace ((0 <? cap) && (ts <? cap))%Z with true by lia.
    + destruct ((0 <? cap) && (ts <? cap))%Z; [done|].
      by replace ((TIME_SKEW_MIN <=? now - ts) && (now - ts <=? TIME_SKEW_MAX))%Z with true by lia.
Qed.

Lemma check_secrets_found msg digest secrets ig now cap m :
  check_secrets msg digest secrets ig now cap (Some m) = Some m.
Proof.
  induction secrets as [|[u s] secrets IH]; [done|]. cbn [check_secrets].
  by destruct (check_secret _ _ _ _ _ _).
Qed.

Lemma check_secrets_spec msg digest secrets ig now cap u ts :
  check_secrets msg digest secrets ig now cap None = Some (u, ts) <->
  exists pre secret post, secrets = pre ++ (u, secret) :: post /\
    check_secret msg digest secret ig now cap = Some ts /\
    Forall (fun p => check_secret msg digest p.2 ig now cap = None) pre.
Proof.
  induction secrets as [|[u' s'] secrets IH].
  { split; [done|]. intros ([|] & ? & ? & [=] & _). }
  cbn [check_secrets]. destruct (check_secret msg digest s' ig now cap) as [t|] eqn:Hc.
  - rewrite check_secrets_found. split.
    + intros [= -> ->]. by exists [], s', secrets.
    + intros ([|p pre] & s & post & Heq & Hs & Hpre).
      * by simplify_eq/=.
      * simplify_eq/=. inversion Hpre as [|? ? Hp]; subst. cbn in Hp. congruence.
  - rewrite IH. split.
    + intros (pre & s & post & -> & Hs & Hpre). exists ((u', s') :: pre), s, post.
      split; [done|]. split; [done|]. by constructor.
    + intros ([|p pre] & s & post & Heq & Hs & Hpre).
      * simplify_eq/=.
      * simplify_eq/=. inversion Hpre; subst. by exists pre, s, post.
Qed.

Lemma zeroed_copy_at h :
  43 <= length h -> copy_at TLS_DIGEST_POS (replicate TLS_DIGEST_LEN 0%Z) h = Got (zeroed h).
Proof.
  intros Hl. unfold copy_at. rewrite length_replicate. unfold TLS_DIGEST_POS, TLS_DIGEST_LEN.
  by rewrite (proj2 (Nat.leb_le _ _)) by lia.
Qed.

(** The shape checks, before any secret is tried. *)
Definition hello_shape (h : list Z) (session_id : list Z) : Prop :=
  exists n, h !! 43 = Some (Z.of_nat n) /\ n <= 32 /\ 44 + n <= length h /\ session_id = sub 44 n h.

Lemma validate_spec h secrets ig now cap v :
  bytes_ok h ->
  validate_tls_handshake_at_time_with_boot_cap h secrets ig now cap = Got v <->
  hello_shape h (tv_session_id v) /\ tv_digest v = digest_of h /\
  check_secrets (zeroed h) (digest_of h) secrets ig now cap None = Some (tv_user v, tv_timestamp v).
Proof.
  intros Hok. unfold validate_tls_handshake_at_time_with_boot_cap, hello_shape.
  unfold digest_of, TLS_DIGEST_POS, TLS_DIGEST_LEN. cbv zeta. change (11 + 32 + 1) with 44. change (11 + 32) with 43.
  destruct (Nat.leb_spec 44 (length h)) as [Hl|Hl]; cbn [guard_ok]; [|split; [done|intros [(n & _ & _ & ? & _) _]; lia]].
  unfold slice at 1. rewrite decide_True by lia. cbn [parse_bind]. change (43 - 11) with 32.
  unfold len8, get. destruct (lookup_lt_is_Some_2 h 43 ltac:(lia)) as [b Hb]. rewrite Hb. cbn [parse_bind].
  assert (is_byte b) as Bb by (by eapply Forall_lookup_1 in Hok). unfold is_byte in Bb.
  assert (forall n, Some b = Some (Z.of_nat n) -> n = Z.to_nat b) as Hn by (intros n [= ->]; lia).
  destruct (Nat.leb_spec (Z.to_nat b) 32) as [H32|H32]; cbn [guard_ok].
  2:{ split; [done|]. intros [(n & ->%Hn & ? & _) _]. lia. }
  destruct (Nat.leb_spec (44 + Z.to_nat b) (length h)) as [Hs|Hs]; cbn [guard_ok].
  2:{ split; [done|]. intros [(n & ->%Hn & ? & ? & _) _]. lia. }
  unfold slice at 1. rewrite decide_True by lia. cbn [parse_bind].
  change 11 with TLS_DIGEST_POS at 1. change 32 with TLS_DIGEST_LEN at 1.
  rewrite zeroed_copy_at by lia. cbn [parse_bind].
  replace (44 + Z.to_nat b - 44) with (Z.to_nat b) by lia.
  fold (sub 44 (Z.to_nat b) h). fold (sub 11 32 h).
  destruct (check_secrets _ _ _ _ _ _ _) as [[u t]|]; [|split; [done|intros (_ & _ & ?); done]].
  split.
  - intros [= <-]. cbn. split; [|done]. exists (Z.to_nat b). rewrite Z2Nat.id by lia. split_and!; try done; lia.
  - intros ((n & ->%Hn & _ & _ & Hsid) & Hd & [= -> ->]). destruct v; cbn in *. by subst.
Qed.
End auth.

(** * The response as a sequence of records *)

(** The extensions of the ServerHello: key share, then the TLS 1.3 version. *)
Definition hello_extensions (ks : ServerHelloKeyShare) : list Z :=
  be16 EXT_KEY_SHARE ++ be16 (Z.of_nat (length (ks_key_exchange ks) + 4)) ++ be16 (ks_group ks) ++
  be16 (Z.of_nat (length (ks_key_exchange ks))) ++ ks_key_exchange ks ++
  be16 EXT_SUPPORTED_VERSIONS ++ be16 2 ++ be16 0x0304.

(** The ServerHello message of RFC 8446, section 4.1.3, with [random] in place. *)
Definition server_hello_message (random session_id cipher : list Z) (ks : ServerHelloKeyShare) : list Z :=
  let ext := hello_extensions ks in
  [0x02%Z] ++ drop 1 (to_be 4 (Z.of_nat (40 + length session_id + length ext))) ++ TLS_VERSION ++
  random ++ [Z.of_nat (length session_id)] ++ session_id ++ cipher ++ [0%Z] ++
  be16 (Z.of_nat (length ext)) ++ ext.

Definition key_share_fits (ks : ServerHelloKeyShare) : Prop :=
  (Z.of_nat (length (ks_key_exchange ks)) <= 60000)%Z.

Lemma length_be16 v : length (be16 v) = 2.
Proof. apply length_to_be. Qed.

Lemma length_hello_extensions ks : length (hello_extensions ks) = length (ks_key_exchange ks) + 14.
Proof. unfold hello_extensions. rewrite !length_app, !length_be16. lia. Qed.

Lemma length_server_hello_message random sid cipher ks :
  length random = 32 -> length cipher = 2 ->
  length (server_hello_message random sid cipher ks) = 58 + length sid + length (ks_key_exchange ks).
Proof.
  intros Hr Hc. unfold server_hello_message. cbv zeta. rewrite !length_app, length_be16, length_hello_extensions.
  rewrite length_drop, length_to_be, Hr, Hc. cbn [length TLS_VERSION]. lia.
Qed.

Lemma build_record_layout sid cipher ks :
  length sid <= 32 -> length cipher = 2 -> cipher <> [0; 0]%Z -> key_share_fits ks ->
  build_record (with_tls13_version (with_key_share (ks_group ks) (ks_key_exchange ks)
    (with_cipher_suite cipher (server_hello_new sid)))) =
  tls_record TLS_RECORD_HANDSHAKE (server_hello_message (replicate 32 0%Z) sid cipher ks).
Proof.
  intros Hs Hc Hne Hk. unfold key_share_fits in Hk.
  pose proof (length_server_hello_message (replicate 32 0%Z) sid cipher ks (length_replicate _ _) Hc) as Hlen.
  assert (build_message (with_tls13_version (with_key_share (ks_group ks) (ks_key_exchange ks)
    (with_cipher_suite cipher (server_hello_new sid)))) =
    server_hello_message (replicate 32 0%Z) sid cipher ks) as Hm.
  { unfold with_cipher_suite. rewrite bool_decide_false by done.
    unfold with_key_share, add_key_share, fits_u16. cbn [server_hello_new sh_extensions sh_random sh_session_id sh_cipher_suite sh_compression].
    rewrite !(proj2 (Z.leb_le _ _)) by lia. cbn [negb].
    unfold with_tls13_version, add_supported_versions. cbn [sh_extensions sh_random sh_session_id sh_cipher_suite sh_compression].
    rewrite app_nil_l, <- !app_assoc. fold (hello_extensions ks).
    unfold build_message, fits_u16. cbn [sh_extensions sh_random sh_session_id sh_cipher_suite sh_compression].
    rewrite length_hello_extensions. cbv zeta.
    rewrite (proj2 (Z.ltb_ge _ _)), (proj2 (Z.leb_le _ _)), (proj2 (Z.ltb_ge _ _)) by lia. cbn [negb].
    unfold server_hello_message. cbv zeta. rewrite !length_hello_extensions. do 3 f_equal. do 3 f_equal. lia. }
  unfold build_record, fits_u16. rewrite Hm, Hlen. rewrite bool_decide_false.
  - by rewrite (proj2 (Z.leb_le _ _)) by lia.
  - intros Hnil. rewrite Hnil in Hlen. cbn in Hlen. lia.
Qed.

Definition render_records (rs : list (Z * list Z)) : list Z :=
  concat ((fun r => tls_record r.1 r.2) <$> rs).

Lemma be16_value n : fits_u16 n = true -> of_be (be16 (Z.of_nat n)) = Z.of_nat n.
Proof. unfold fits_u16. intros Hn%Z.leb_le. apply of_be_to_be. change (256 ^ Z.of_nat 2)%Z with 65536%Z. lia. Qed.

(** Cutting a rendered record off the stream. *)
Lemma split_records_step fuel ty p rest :
  fits_u16 (length p) = true ->
  split_records (S fuel) (tls_record ty p ++ rest) =
  (rs <~ split_records fuel rest ;; Got ((ty, p) :: rs)).
Proof.
  intros Hp. pose proof (be16_value _ Hp) as Hv.
  pose proof (length_be16 (Z.of_nat (length p))) as H2.
  unfold tls_record. destruct (be16 (Z.of_nat (length p))) as [|hi [|lo [|]]]; try done.
  cbn [app TLS_VERSION]. cbn [split_records]. rewrite bool_decide_false by done.
  unfold slice at 1. rewrite decide_True by (cbn [length]; lia).
  cbn [Nat.sub drop take parse_bind]. unfold parse_tls_record_header, ix, be16_at, ix.
  cbn [lookup list_lookup Nat.add parse_bind guard_ok].
  rewrite (bool_decide_true ([3; 3]%Z = TLS_VERSION)) by done. rewrite orb_true_r. cbn [guard_ok fst snd].
  cbn [parse_bind fst snd]. rewrite Hv, Nat2Z.id. unfold slice. rewrite decide_True by (cbn [length]; rewrite length_app; lia).
  cbn [parse_bind]. replace (S (S (S (S (S (length p))))) - 5) with (length p) by lia.
  cbn [drop]. rewrite drop_0, take_app_length, drop_app_length. done.
Qed.

Lemma split_render fuel rs :
  Forall (fun r => fits_u16 (length r.2) = true) rs -> length rs < fuel ->
  split_records fuel (render_records rs) = Got rs.
Proof.
  intros Hr. revert fuel. induction Hr as [|[ty p] rs Hp _ IH]; intros fuel Hf;
    (destruct fuel as [|fuel]; [lia|]); [done|].
  unfold render_records. cbn [fmap list_fmap concat fst snd].
  rewrite split_records_step by done. fold (render_records rs). rewrite IH; [done|]. cbn in Hf. lia.
Qed.

Lemma render_length rs : length rs <= length (render_records rs).
Proof.
  induction rs as [|[ty p] rs IH]; [done|]. unfold render_records in *. cbn [fmap list_fmap concat fst snd].
  unfold tls_record at 1. rewrite !length_app. cbn [length]. lia.
Qed.

(** Overwriting the 32 bytes at offset 11, and clearing them again. *)
Lemma copy_at_mid pre mid digest post :
  length pre = 11 -> length mid = 32 -> length digest = 32 ->
  copy_at TLS_DIGEST_POS digest (pre ++ mid ++ post) = Got (pre ++ digest ++ post).
Proof.
  intros Hp Hm Hd. unfold copy_at, TLS_DIGEST_POS. rewrite !length_app.
  rewrite (proj2 (Nat.leb_le _ _)) by lia.
  rewrite take_app_length' by done. do 3 f_equal. f_equal.
  rewrite app_assoc. rewrite drop_app_length'; [done|]. rewrite length_app. lia.
Qed.

Lemma zeroed_mid pre digest post :
  length pre = 11 -> length digest = 32 ->
  zeroed (pre ++ digest ++ post) = pre ++ replicate 32 0%Z ++ post.
Proof.
  intros Hp Hd. unfold zeroed, TLS_DIGEST_POS, TLS_DIGEST_LEN.
  rewrite take_app_length' by done. do 2 f_equal.
  rewrite app_assoc, drop_app_length'; [done|]. rewrite length_app. lia.
Qed.

Lemma digest_mid pre digest post :
  length pre = 11 -> length digest = 32 -> digest_of (pre ++ digest ++ post) = digest.
Proof.
  intros Hp Hd. unfold digest_of, sub, TLS_DIGEST_POS, TLS_DIGEST_LEN.
  rewrite drop_app_length' by done. by rewrite take_app_length'.
Qed.

Section response_lemmas.
Context {R : Type} `{StdRngLaws R} `{StreamKey} `{HmacSha256Laws}.
Implicit Types rng : SecureRandomInner R.

Definition ticket_ok (p : list Z) : Prop := 48 <= length p < 96.

Lemma ticket_records_spec n rng :
  exists ps, (ticket_records n rng).1 = (fun p => tls_record TLS_RECORD_APPLICATION p) <$> ps /\
    length ps = n /\ Forall ticket_ok ps.
Proof.
  revert rng. induction n as [|n IH]; intros rng; [by exists []|]. cbn [ticket_records].
  pose proof (rand_range_lt 48 rng ltac:(lia)) as Hx. destruct (rand_range 48 rng) as [x rng1].
  pose proof (rand_bytes_length (x + 48) rng1) as Hl. destruct (rand_bytes _ rng1) as [p rng2].
  destruct (IH rng2) as (ps & Hps & Hn & Hok). destruct (ticket_records n rng2) as [rest rng3].
  cbn [fst] in *. exists (p :: ps). cbn [fmap list_fmap length]. rewrite <- Hps, Hn.
  split_and!; [done | done |]. constructor; [|done]. unfold ticket_ok. lia.
Qed.

(** The records of the response; [random] is the field the digest goes to. *)
Definition response_records (random sid cipher : list Z) (ks : ServerHelloKeyShare)
    (cert : list Z) (tickets : list (list Z)) : list (Z * list Z) :=
  (TLS_RECORD_HANDSHAKE, server_hello_message random sid cipher ks) ::
  (TLS_RECORD_CHANGE_CIPHER, [1%Z]) :: (TLS_RECORD_APPLICATION, cert) ::
  (pair TLS_RECORD_APPLICATION <$> tickets).

(** The random field sits at offset 11 of the rendered response. *)
Lemma response_mid sid cipher ks cert tickets :
  length cipher = 2 ->
  exists pre post, length pre = 11 /\ forall random, length random = 32 ->
    render_records (response_records random sid cipher ks cert tickets) = pre ++ random ++ post.
Proof.
  intros Hc.
  set (n := 58 + length sid + length (ks_key_exchange ks)).
  set (m := to_be 4 (Z.of_nat (40 + length sid + length (hello_extensions ks)))).
  exists ([TLS_RECORD_HANDSHAKE] ++ TLS_VERSION ++ be16 (Z.of_nat n) ++ [0x02%Z] ++ drop 1 m ++ TLS_VERSION).
  eexists. split.
  { rewrite !length_app, length_be16, length_drop. unfold m. rewrite length_to_be. done. }
  intros random Hr. unfold render_records, response_records. cbn [fmap list_fmap concat fst snd].
  unfold tls_record at 1. rewrite length_server_hello_message by done. fold n.
  unfold server_hello_message. cbv zeta. fold m. rewrite <- !app_assoc. reflexivity.
Qed.

Definition cert_len (fake_cert_len : nat) : nat :=
  Nat.max MIN_APP_DATA (Nat.min fake_cert_len MAX_TLS_CIPHERTEXT_SIZE).

Lemma MAX_TLS_CIPHERTEXT_SIZE_Z : Z.of_nat MAX_TLS_CIPHERTEXT_SIZE = 16640%Z.
Proof. by vm_compute. Qed.

Lemma response_fits random sid cipher ks cert tickets fake_cert_len :
  length random = 32 -> length sid <= 32 -> length cipher = 2 -> key_share_fits ks ->
  length cert = cert_len fake_cert_len -> Forall ticket_ok tickets ->
  Forall (fun r => fits_u16 (length r.2) = true) (response_records random sid cipher ks cert tickets).
Proof.
  intros Hr Hs Hc Hk Hcert Ht. pose proof MAX_TLS_CIPHERTEXT_SIZE_Z.
  unfold response_records, fits_u16, key_share_fits in *. repeat constructor; cbn [snd].
  - rewrite length_server_hello_message by done. apply Z.leb_le. lia.
  - rewrite Hcert. unfold cert_len, MIN_APP_DATA. apply Z.leb_le. lia.
  - apply Forall_fmap. eapply Forall_impl; [|exact Ht]. unfold ticket_ok. intros p Hp. apply Z.leb_le. cbn [snd]. lia.
Qed.

Lemma build_server_hello_spec secret client_digest sid fake_cert_len cipher ks n rng :
  length sid <= 32 -> length cipher = 2 -> cipher <> [0; 0]%Z -> key_share_fits ks ->
  exists response rng' cert tickets,
    build_server_hello_with_cipher secret client_digest sid fake_cert_len cipher ks n rng =
      Got (response, rng') /\
    digest_of response = sha256_hmac secret (client_digest ++ zeroed response) /\
    response = render_records (response_records (digest_of response) sid cipher ks cert tickets) /\
    length (digest_of response) = 32 /\
    length cert = cert_len fake_cert_len /\ length tickets = Nat.min n 4 /\ Forall ticket_ok tickets.
Proof.
  intros Hs Hc Hne Hk. unfold build_server_hello_with_cipher. cbv zeta.
  rewrite build_record_layout by done. fold (cert_len fake_cert_len).
  pose proof (rand_bytes_length (cert_len fake_cert_len) rng) as Hcert.
  destruct (rand_bytes _ rng) as [cert rng1]. cbn [fst] in Hcert.
  destruct (ticket_records_spec (Nat.min n 4) rng1) as (ps & Hps & Hn & Hok).
  destruct (ticket_records _ rng1) as [tickets rng2]. cbn [fst] in Hps. subst tickets.
  match goal with |- context [copy_at _ (sha256_hmac _ (_ ++ ?l)) _] => set (resp := l) end.
  assert (resp = render_records (response_records (replicate 32 0%Z) sid cipher ks cert ps)) as Hresp.
  { unfold resp, render_records, response_records. cbn [fmap list_fmap concat fst snd].
    rewrite <- Hcert. rewrite <- list_fmap_compose. reflexivity. }
  destruct (response_mid sid cipher ks cert ps Hc) as (pre & post & Hpre & Hmid).
  rewrite Hresp, Hmid by done.
  destruct (sha256_hmac_ok secret (client_digest ++ pre ++ replicate 32 0%Z ++ post)) as [Hd _].
  rewrite copy_at_mid by done. cbn [parse_bind].
  do 2 eexists. exists cert, ps. split; [reflexivity|].
  rewrite digest_mid, zeroed_mid by done. rewrite Hmid by done. done.
Qed.
End response_lemmas.
