(* ===== verification/TlsHello.v ===== *)
(** ClientHello messages as RFC 8446 writes them, and what the parsers of
    [protocol/tls.rs] read back from them: the encoder of a hello is the
    specification the parsers are proved against. *)

From stdpp Require Import base list numbers.
From S2P Require Import Prelude Aes Random Tls TlsServer.
Local Open Scope nat_scope.
Local Open Scope parse_scope.

(** * Encoding *)

(** A type, a 16-bit length and the data: extensions and key share entries. *)
Definition encode_tlv (x : Z * list Z) : list Z :=
  be16 x.1 ++ be16 (Z.of_nat (length x.2)) ++ x.2.
Definition encode_tlvs (xs : list (Z * list Z)) : list Z := concat (encode_tlv <$> xs).

Definition is_u16 (v : Z) : Prop := (0 <= v < 65536)%Z.
Definition u16_len (l : list Z) : Prop := is_u16 (Z.of_nat (length l)).
Definition u8_len (l : list Z) : Prop := (Z.of_nat (length l) < 256)%Z.
Definition tlv_ok (x : Z * list Z) : Prop := is_u16 x.1 /\ u16_len x.2.

(** A vector with a 16-bit length prefix. *)
Definition vec16 (l : list Z) : list Z := be16 (Z.of_nat (length l)) ++ l.

Record Hello := mkHello {
  hl_version : Z;
  hl_random : list Z;
  hl_session_id : list Z;
  hl_suites : list (list Z);
  hl_compression : list Z;
  hl_extensions : list (Z * list Z);
}.

Definition hello_body (m : Hello) : list Z :=
  be16 (hl_version m) ++ hl_random m ++
  [Z.of_nat (length (hl_session_id m))] ++ hl_session_id m ++
  vec16 (concat (hl_suites m)) ++
  [Z.of_nat (length (hl_compression m))] ++ hl_compression m ++
  vec16 (encode_tlvs (hl_extensions m)).

Definition encode_hello (m : Hello) : list Z :=
  [TLS_RECORD_HANDSHAKE; 0x03; 0x01]%Z ++ be16 (Z.of_nat (4 + length (hello_body m))) ++
  [0x01%Z] ++ to_be 3 (Z.of_nat (length (hello_body m))) ++ hello_body m.

Record hello_ok (m : Hello) : Prop := {
  ok_version : is_u16 (hl_version m);
  ok_random : length (hl_random m) = 32;
  ok_session : u8_len (hl_session_id m);
  ok_suites : Forall (fun s => length s = 2) (hl_suites m);
  ok_suites_nonempty : hl_suites m <> [];
  ok_compression : u8_len (hl_compression m);
  ok_extensions : Forall tlv_ok (hl_extensions m);
  ok_size : is_u16 (Z.of_nat (4 + length (hello_body m)));
}.

(** * Reading at a position *)

(** [l] starts at position [pos] of [h]. *)
Definition at_pos (h : list Z) (pos : nat) (l : list Z) : Prop := exists t, drop pos h = l ++ t.

Lemma at_pos_skip h pos a b : at_pos h pos (a ++ b) -> at_pos h (pos + length a) b.
Proof.
  intros [t Ht]. exists t. rewrite <- drop_drop, Ht, <- app_assoc. by rewrite drop_app_length.
Qed.

Lemma at_pos_head h pos a b : at_pos h pos (a ++ b) -> at_pos h pos a.
Proof. intros [t Ht]. exists (b ++ t). by rewrite Ht, app_assoc. Qed.

Lemma at_pos_lookup h pos b l : at_pos h pos (b :: l) -> h !! pos = Some b.
Proof. intros [t Ht]. rewrite <- (Nat.add_0_r pos), <- lookup_drop, Ht. done. Qed.

Lemma at_pos_ix h pos b l : at_pos h pos (b :: l) -> ix h pos = Got b.
Proof. intros Ha%at_pos_lookup. unfold ix. by rewrite Ha. Qed.

Lemma at_pos_get h pos b l : at_pos h pos (b :: l) -> get h pos = Got b.
Proof. intros Ha%at_pos_lookup. unfold get. by rewrite Ha. Qed.

Lemma at_pos_length h pos l : l <> [] -> at_pos h pos l -> pos + length l <= length h.
Proof.
  intros Hne [t Ht]. apply (f_equal length) in Ht. rewrite length_drop, length_app in Ht.
  destruct l; [done|]. cbn [length] in *. lia.
Qed.

Lemma at_pos_slice h pos l e :
  at_pos h pos l -> pos <= length h -> e = pos + length l -> slice h pos e = Got l.
Proof.
  intros [t Ht] Hp ->. unfold slice. pose proof (f_equal length Ht) as Hl.
  rewrite length_drop, length_app in Hl. rewrite decide_True by lia.
  replace (pos + length l - pos) with (length l) by lia. by rewrite Ht, take_app_length.
Qed.

Lemma be16_two v : is_u16 v -> exists hi lo, be16 v = [hi; lo] /\ of_be [hi; lo] = v.
Proof.
  intros Hv. pose proof (length_be16 v) as Hl.
  assert (of_be (be16 v) = v) as Ho by (apply of_be_to_be; exact Hv).
  destruct (be16 v) as [|hi [|lo [|]]]; try done. eauto.
Qed.

Lemma at_pos_be16 h pos v l : is_u16 v -> at_pos h pos (be16 v ++ l) -> be16_at h pos = Got v.
Proof.
  intros (hi & lo & Heq & Hv)%be16_two Ha. rewrite Heq in Ha. unfold be16_at.
  rewrite (at_pos_ix _ _ _ _ Ha). cbn [parse_bind].
  change ([hi; lo] ++ l) with ([hi] ++ lo :: l) in Ha. apply at_pos_skip in Ha. cbn [length] in Ha.
  rewrite (at_pos_ix _ _ _ _ Ha). cbn [parse_bind]. by rewrite Hv.
Qed.

Lemma at_pos_len16 h pos n l :
  is_u16 (Z.of_nat n) -> at_pos h pos (be16 (Z.of_nat n) ++ l) -> len16 h pos = Got n.
Proof.
  intros Hn Ha. unfold len16. rewrite (at_pos_be16 _ _ _ _ Hn Ha). cbn [parse_bind]. by rewrite Nat2Z.id.
Qed.

Lemma at_pos_len8 h pos n l : at_pos h pos (Z.of_nat n :: l) -> len8 h pos = Got n.
Proof. intros Ha. unfold len8. rewrite (at_pos_get _ _ _ _ Ha). cbn [parse_bind]. by rewrite Nat2Z.id. Qed.

Lemma at_pos_len24 h pos n l :
  (Z.of_nat n < 2 ^ 24)%Z -> at_pos h pos (to_be 3 (Z.of_nat n) ++ l) -> len24 h pos = Got n.
Proof.
  intros Hn Ha. pose proof (length_to_be 3 (Z.of_nat n)) as Hl.
  assert (of_be (to_be 3 (Z.of_nat n)) = Z.of_nat n) as Ho
    by (apply of_be_to_be; change (256 ^ Z.of_nat 3)%Z with (2 ^ 24)%Z; lia).
  destruct (to_be 3 (Z.of_nat n)) as [|a [|b [|c [|]]]]; try done. cbn [app] in Ha.
  unfold len24. rewrite (at_pos_ix _ _ _ _ Ha). cbn [parse_bind].
  apply (at_pos_skip _ _ [a]) in Ha as Ha1. cbn [length] in Ha1. rewrite (at_pos_ix _ _ _ _ Ha1). cbn [parse_bind].
  apply (at_pos_skip _ _ [a; b]) in Ha as Ha2. cbn [length] in Ha2. rewrite (at_pos_ix _ _ _ _ Ha2). cbn [parse_bind].
  by rewrite Ho, Nat2Z.id.
Qed.

Lemma length_encode_tlv x : length (encode_tlv x) = 4 + length x.2.
Proof. unfold encode_tlv. rewrite !length_app, !length_be16. lia. Qed.

Lemma encode_tlvs_cons x xs : encode_tlvs (x :: xs) = encode_tlv x ++ encode_tlvs xs.
Proof. done. Qed.

(** Reading one type-length-data entry. *)
Lemma at_pos_tlv h pos x l :
  tlv_ok x -> at_pos h pos (encode_tlv x ++ l) ->
  be16_at h pos = Got x.1 /\ len16 h (pos + 2) = Got (length x.2) /\
  at_pos h (pos + 4) x.2 /\ at_pos h (pos + 4 + length x.2) l /\
  slice h (pos + 4) (pos + 4 + length x.2) = Got x.2.
Proof.
  intros [Ht Hl] Ha. unfold encode_tlv in Ha. rewrite <- !app_assoc in Ha.
  pose proof (at_pos_be16 _ _ _ _ Ht Ha) as H1.
  apply at_pos_skip in Ha. rewrite length_be16 in Ha.
  pose proof (at_pos_len16 _ _ _ _ Hl Ha) as H2.
  assert (pos + 4 <= length h) as Hlen.
  { apply at_pos_head, at_pos_length in Ha; [rewrite length_be16 in Ha; lia|].
    intros Hn. apply (f_equal length) in Hn. by rewrite length_be16 in Hn. }
  apply at_pos_skip in Ha. rewrite length_be16 in Ha. replace (pos + 2 + 2) with (pos + 4) in Ha by lia.
  split_and!; [done | done | by eapply at_pos_head | by apply at_pos_skip |].
  apply at_pos_slice; [by eapply at_pos_head | lia | done].
Qed.

(** Opens the entry at the head of the list that is read at the position. *)
Ltac open_tlv Ha Hx :=
  rewrite encode_tlvs_cons in Ha;
  let H1 := fresh "Hty" in let H2 := fresh "Hln" in let H3 := fresh "Hdata" in
  let H4 := fresh "Hrest" in let H5 := fresh "Hslice" in
  destruct (at_pos_tlv _ _ _ _ Hx Ha) as (H1 & H2 & H3 & H4 & H5);
  rewrite ?H1, ?H2; cbn [parse_bind].

(** * Key shares *)

(** The one entry of [group], if it is alone and has the expected length. *)
Definition pick_share (group : Z) (n : nat) (found : option (list Z)) (es : list (Z * list Z))
    : parse (list Z) :=
  match filter (fun x => x.1 = group) es, found with
  | [], Some k => Got k
  | [x], None => if length x.2 =? n then Got x.2 else Reject
  | _, _ => Reject
  end.

Lemma key_share_entries_spec fuel data group n e pos found es :
  Forall tlv_ok es -> at_pos data pos (encode_tlvs es) -> e = pos + length (encode_tlvs es) ->
  e - pos < fuel -> key_share_entries fuel data group n e pos found = pick_share group n found es.
Proof.
  intros Hes. revert fuel pos found. induction Hes as [|x es Hx _ IH]; intros fuel pos found Ha He Hf;
    (destruct fuel as [|fuel]; [lia|]); cbn [key_share_entries]; unfold pick_share.
  - cbn in He. rewrite (proj2 (Nat.leb_gt _ _)), (proj2 (Nat.eqb_eq _ _)) by lia. done.
  - rewrite encode_tlvs_cons, length_app, length_encode_tlv in He.
    rewrite (proj2 (Nat.leb_le (pos + 4) e)) by lia. open_tlv Ha Hx. cbv zeta.
    rewrite (proj2 (Nat.leb_le _ e)) by lia. cbn [guard_ok]. rewrite list.filter_cons.
    destruct (Z.eqb_spec x.1 group) as [Hg|Hg].
    + rewrite decide_True by done.
      destruct (Nat.eqb_spec (length x.2) n) as [Hn|Hn]; cbn [negb orb guard_ok].
      2:{ by destruct (filter _ es), found. }
      destruct found as [k|]; cbn [negb orb guard_ok bool_decide].
      { rewrite bool_decide_true by eauto. by destruct (filter _ es). }
      rewrite bool_decide_false by (by intros [? ?]). cbn [negb guard_ok]. rewrite Hslice. cbn [parse_bind].
      rewrite IH by (done || lia). unfold pick_share. by destruct (filter _ es) as [|? [|]].
    + rewrite decide_False by done. rewrite IH by (done || lia). done.
Qed.

Lemma at_pos_whole (l : list Z) : at_pos l 0 l.
Proof. exists []. by rewrite app_nil_r. Qed.

Lemma length_vec16 l : length (vec16 l) = 2 + length l.
Proof. unfold vec16. by rewrite length_app, length_be16. Qed.

Lemma key_share_entry_spec es group n :
  Forall tlv_ok es -> u16_len (encode_tlvs es) ->
  key_share_extension_group_entry (vec16 (encode_tlvs es)) group n = pick_share group n None es.
Proof.
  intros Hes Hl. unfold key_share_extension_group_entry. rewrite length_vec16.
  pose proof (at_pos_whole (vec16 (encode_tlvs es))) as Ha. unfold vec16 at 2 in Ha.
  rewrite (at_pos_len16 _ _ _ _ Hl Ha). cbn [parse_bind guard_ok Nat.leb].
  replace (2 + length (encode_tlvs es) - 2) with (length (encode_tlvs es)) by lia.
  rewrite Nat.eqb_refl. cbn [guard_ok]. apply at_pos_skip in Ha. rewrite length_be16 in Ha.
  apply key_share_entries_spec; [done | exact Ha | lia | lia].
Qed.

(** * Searching the extensions *)

(** The data of the first extension of a type. *)
Fixpoint find_ext (ty : Z) (exts : list (Z * list Z)) : option (list Z) :=
  match exts with
  | [] => None
  | x :: exts => if (x.1 =? ty)%Z then Some x.2 else find_ext ty exts
  end.

Lemma key_share_extension_spec fuel h group n e pos exts :
  Forall tlv_ok exts -> at_pos h pos (encode_tlvs exts) -> e = pos + length (encode_tlvs exts) ->
  e - pos < fuel ->
  key_share_extension fuel h group n e pos =
  match find_ext EXT_KEY_SHARE exts with
  | Some d => key_share_extension_group_entry d group n
  | None => Reject
  end.
Proof.
  intros Hes. revert fuel pos. induction Hes as [|x es Hx _ IH]; intros fuel pos Ha He Hf;
    (destruct fuel as [|fuel]; [lia|]); cbn [key_share_extension find_ext].
  - cbn in He. by rewrite (proj2 (Nat.leb_gt _ _)) by lia.
  - rewrite encode_tlvs_cons, length_app, length_encode_tlv in He.
    rewrite (proj2 (Nat.leb_le (pos + 4) e)) by lia. open_tlv Ha Hx. cbv zeta.
    rewrite (proj2 (Nat.leb_le _ e)) by lia. cbn [guard_ok].
    destruct (x.1 =? EXT_KEY_SHARE)%Z; [by rewrite Hslice|]. apply IH; (done || lia).
Qed.

(** * Server names *)

Definition encode_name (x : Z * list Z) : list Z := [x.1] ++ vec16 x.2.
Definition encode_names (ns : list (Z * list Z)) : list Z := concat (encode_name <$> ns).

(** The first name of type [host_name] that is a valid host name. *)
Fixpoint first_host (ns : list (Z * list Z)) : option (list Z) :=
  match ns with
  | [] => None
  | x :: ns => if (x.1 =? 0)%Z && is_valid_sni_hostname x.2 then Some x.2 else first_host ns
  end.

Lemma sni_names_spec fuel h e pos ns :
  Forall (fun x => u16_len x.2) ns -> at_pos h pos (encode_names ns) ->
  e = pos + length (encode_names ns) -> e - pos < fuel ->
  sni_names fuel h e pos = Got (first_host ns).
Proof.
  intros Hns. revert fuel pos. induction Hns as [|x ns Hx _ IH]; intros fuel pos Ha He Hf;
    (destruct fuel as [|fuel]; [lia|]); cbn [sni_names first_host].
  { cbn in He. by rewrite (proj2 (Nat.leb_gt _ _)) by lia. }
  change (encode_names (x :: ns)) with (encode_name x ++ encode_names ns) in *.
  unfold encode_name in Ha, He. rewrite !length_app, length_vec16 in He. cbn [length] in He.
  rewrite (proj2 (Nat.leb_le (pos + 3) e)) by lia.
  rewrite <- app_assoc in Ha. rewrite (at_pos_ix _ _ _ _ Ha). cbn [parse_bind].
  apply at_pos_skip in Ha. cbn [length] in Ha. unfold vec16 in Ha. rewrite <- app_assoc in Ha.
  rewrite (at_pos_len16 _ _ _ _ Hx Ha). cbn [parse_bind]. cbv zeta.
  assert (pos + 3 <= length h) as Hlen.
  { apply at_pos_head, at_pos_length in Ha; [rewrite length_be16 in Ha; lia|].
    intros Hn. apply (f_equal length) in Hn. by rewrite length_be16 in Hn. }
  apply at_pos_skip in Ha. rewrite length_be16 in Ha. replace (pos + 1 + 2) with (pos + 3) in Ha by lia.
  rewrite (proj2 (Nat.ltb_ge e _)) by lia.
  assert (sni_names fuel h e (pos + 3 + length x.2) = Got (first_host ns)) as Hrest.
  { apply IH; [by apply at_pos_skip in Ha | lia | lia]. }
  rewrite Hrest, (at_pos_slice h (pos + 3) x.2 _ (at_pos_head _ _ _ _ Ha) ltac:(lia) eq_refl).
  destruct (x.1 =? 0)%Z; [|done]. cbn [andb parse_bind].
  destruct (Nat.ltb_spec 0 (length x.2)) as [Hp|Hp]; [by destruct (is_valid_sni_hostname x.2)|].
  by destruct x.2; [|cbn in Hp; lia].
Qed.

Definition no_sni (exts : list (Z * list Z)) : Prop := Forall (fun x => x.1 <> 0%Z) exts.

Lemma sni_extensions_skip fuel h e pos saw found exts :
  Forall tlv_ok exts -> no_sni exts -> at_pos h pos (encode_tlvs exts) ->
  e = pos + length (encode_tlvs exts) -> e - pos < fuel ->
  sni_extensions fuel h e pos saw found = Got found.
Proof.
  intros Hes. revert fuel pos saw. induction Hes as [|x es Hx _ IH]; intros fuel pos saw Hno Ha He Hf;
    (destruct fuel as [|fuel]; [lia|]); cbn [sni_extensions].
  { cbn in He. by rewrite (proj2 (Nat.leb_gt _ _)) by lia. }
  apply Forall_cons_1 in Hno as [Hx0 Hno'].
  rewrite encode_tlvs_cons, length_app, length_encode_tlv in He.
  rewrite (proj2 (Nat.leb_le (pos + 4) e)) by lia. open_tlv Ha Hx. cbv zeta.
  rewrite (proj2 (Nat.ltb_ge e _)) by lia. rewrite (proj2 (Z.eqb_neq _ _) Hx0). cbn [andb].
  apply IH; (done || lia).
Qed.

Lemma at_pos_vec16 h pos l t :
  u16_len l -> at_pos h pos (vec16 l ++ t) ->
  len16 h pos = Got (length l) /\ at_pos h (pos + 2) l /\ at_pos h (pos + 2 + length l) t.
Proof.
  intros Hl Ha. unfold vec16 in Ha. rewrite <- app_assoc in Ha.
  split; [by eapply at_pos_len16|]. apply at_pos_skip in Ha. rewrite length_be16 in Ha.
  split; [by eapply at_pos_head | by apply at_pos_skip].
Qed.

(** With one server-name extension, its first valid host name is found. *)
Lemma sni_extensions_spec fuel h e pos pre ns post :
  Forall tlv_ok (pre ++ (0%Z, vec16 (encode_names ns)) :: post) -> no_sni pre -> no_sni post ->
  Forall (fun x => u16_len x.2) ns -> u16_len (encode_names ns) ->
  let exts := pre ++ (0%Z, vec16 (encode_names ns)) :: post in
  at_pos h pos (encode_tlvs exts) -> e = pos + length (encode_tlvs exts) ->
  e <= length h -> e - pos < fuel ->
  sni_extensions fuel h e pos false None = Got (first_host ns).
Proof.
  intros Hok Hpre Hpost Hns Hl exts. unfold exts. clear exts.
  revert fuel pos. induction Hpre as [|x pre Hx0 Hpre IH]; intros fuel pos Ha He Hh Hf;
    (destruct fuel as [|fuel]; [lia|]); cbn [sni_extensions]; cbn [app] in *;
    apply Forall_cons_1 in Hok as [Hx Hok'];
    rewrite encode_tlvs_cons, length_app, length_encode_tlv in He;
    rewrite (proj2 (Nat.leb_le (pos + 4) e)) by lia; open_tlv Ha Hx; cbv zeta;
    rewrite (proj2 (Nat.ltb_ge e _)) by lia.
  2:{ rewrite (proj2 (Z.eqb_neq _ _) Hx0). cbn [andb orb]. apply IH; (done || lia). }
  cbn [fst snd Z.eqb andb orb] in *. rewrite length_vec16 in *.
  destruct ns as [|n ns].
  { change (length (encode_names [])) with 0 in *. cbn [Nat.add Nat.leb].
    rewrite sni_extensions_skip with (exts := post); (done || lia). }
  assert (3 <= length (encode_names (n :: ns))) as H3.
  { change (encode_names (n :: ns)) with (encode_name n ++ encode_names ns). unfold encode_name.
    rewrite !length_app, length_vec16. cbn [length]. lia. }
  rewrite (proj2 (Nat.leb_le 5 _)) by lia.
  rewrite <- (app_nil_r (vec16 _)) in Hdata. apply at_pos_vec16 in Hdata as (Hn & Hnames & _); [|done].
  rewrite Hn. cbn [parse_bind].
  rewrite sni_names_spec with (ns := n :: ns); [|done | done | lia | lia]. cbn [parse_bind].
  rewrite sni_extensions_skip with (exts := post); try (done || lia). by destruct (first_host _).
Qed.

(** * Application protocols *)

Definition encode_protocol (p : list Z) : list Z := Z.of_nat (length p) :: p.
Definition encode_protocols (ps : list (list Z)) : list Z := concat (encode_protocol <$> ps).

Lemma alpn_protocols_spec fuel h e pos out ps :
  at_pos h pos (encode_protocols ps) -> e = pos + length (encode_protocols ps) ->
  e <= length h -> e - pos < fuel ->
  alpn_protocols fuel h e pos out = Got (out ++ ps).
Proof.
  revert fuel pos out. induction ps as [|p ps IH]; intros fuel pos out Ha He Hh Hf;
    (destruct fuel as [|fuel]; [lia|]); cbn [alpn_protocols].
  { cbn in He. rewrite (proj2 (Nat.ltb_ge _ _)) by lia. by rewrite app_nil_r. }
  change (encode_protocols (p :: ps)) with ([Z.of_nat (length p)] ++ p ++ encode_protocols ps) in *.
  rewrite !length_app in He. cbn [length] in He.
  rewrite (proj2 (Nat.ltb_lt pos e)) by lia.
  rewrite (at_pos_ix _ _ _ _ Ha). cbn [parse_bind]. cbv zeta. rewrite Nat2Z.id.
  rewrite (proj2 (Nat.ltb_ge e _)) by lia.
  apply at_pos_skip in Ha. cbn [length] in Ha.
  rewrite (at_pos_slice h (pos + 1) p _ (at_pos_head _ _ _ _ Ha) ltac:(lia) eq_refl). cbn [parse_bind].
  apply at_pos_skip in Ha. rewrite IH; [by rewrite <- app_assoc | done | lia | done | lia].
Qed.

Lemma alpn_extensions_spec fuel h e pos exts ps :
  Forall tlv_ok exts -> find_ext EXT_ALPN exts = Some (vec16 (encode_protocols ps)) ->
  ps <> [] -> u16_len (encode_protocols ps) ->
  at_pos h pos (encode_tlvs exts) -> e = pos + length (encode_tlvs exts) ->
  e <= length h -> e - pos < fuel ->
  alpn_extensions fuel h e pos = Got ps.
Proof.
  intros Hes Hfind Hne Hl. revert fuel pos Hfind. induction Hes as [|x es Hx _ IH]; [done|].
  intros fuel pos Hfind Ha He Hh Hf. destruct fuel as [|fuel]; [lia|]. cbn [alpn_extensions find_ext] in *.
  rewrite encode_tlvs_cons, length_app, length_encode_tlv in He.
  rewrite (proj2 (Nat.leb_le (pos + 4) e)) by lia. open_tlv Ha Hx. cbv zeta.
  rewrite (proj2 (Nat.ltb_ge e _)) by lia.
  destruct (x.1 =? EXT_ALPN)%Z; [|apply IH; (done || lia)].
  injection Hfind as Hx2. rewrite Hx2 in *. rewrite length_vec16 in *.
  assert (1 <= length (encode_protocols ps)) as H1 by (destruct ps; [done | cbn; lia]).
  rewrite (proj2 (Nat.leb_le 3 _)) by lia. cbn [andb].
  rewrite <- (app_nil_r (vec16 _)) in Hdata. apply at_pos_vec16 in Hdata as (Hn & Hps & _); [|done].
  rewrite Hn. cbn [parse_bind]. rewrite (alpn_protocols_spec _ _ _ _ _ ps) by (done || lia). done.
Qed.

(** * Versions *)

Definition encode_versions (vs : list Z) : list Z := concat (be16 <$> vs).

Definition is_legacy (v : Z) : bool := ((v =? 0x0303) || (v =? 0x0302) || (v =? 0x0301))%Z.

(** TLS 1.3 if it is offered, else TLS 1.2 if an older version is. *)
Definition choose_version (has_tls12 : bool) (vs : list Z) : parse ClientHelloTlsVersion :=
  if bool_decide (0x0304%Z ∈ vs) then Got Tls13
  else if has_tls12 || existsb is_legacy vs then Got Tls12 else Reject.

Lemma length_encode_versions vs : length (encode_versions vs) = 2 * length vs.
Proof.
  induction vs as [|v vs IH]; [done|].
  change (encode_versions (v :: vs)) with (be16 v ++ encode_versions vs).
  rewrite length_app, length_be16, IH. cbn [length]. lia.
Qed.

Lemma scan_versions_spec fuel h e pos b vs :
  Forall is_u16 vs -> at_pos h pos (encode_versions vs) -> e = pos + 2 * length vs -> e - pos < fuel ->
  scan_versions fuel h e pos b = choose_version b vs.
Proof.
  intros Hvs. revert fuel pos b. induction Hvs as [|v vs Hv _ IH]; intros fuel pos b Ha He Hf;
    (destruct fuel as [|fuel]; [lia|]); cbn [scan_versions]; unfold choose_version.
  { cbn in He. rewrite (proj2 (Nat.ltb_ge _ _)) by lia.
    rewrite bool_decide_false by (by intros ?%elem_of_nil). by destruct b. }
  cbn [length] in He. rewrite (proj2 (Nat.ltb_lt _ e)) by lia.
  change (encode_versions (v :: vs)) with (be16 v ++ encode_versions vs) in Ha.
  rewrite (at_pos_be16 _ _ _ _ Hv Ha). cbn [parse_bind existsb]. cbv zeta.
  apply at_pos_skip in Ha. rewrite length_be16 in Ha.
  destruct (Z.eqb_spec v 0x0304) as [->|Hne].
  { by rewrite bool_decide_true by (apply list_elem_of_here). }
  rewrite IH by (done || lia). unfold choose_version, is_legacy. rewrite !orb_assoc.
  erewrite bool_decide_ext; [reflexivity|]. rewrite elem_of_cons. naive_solver.
Qed.

Lemma version_extensions_spec fuel h e pos exts vs :
  Forall tlv_ok exts ->
  find_ext EXT_SUPPORTED_VERSIONS exts =
    Some (Z.of_nat (2 * length vs) :: encode_versions vs) ->
  vs <> [] -> Forall is_u16 vs ->
  at_pos h pos (encode_tlvs exts) -> e = pos + length (encode_tlvs exts) ->
  e <= length h -> e - pos < fuel ->
  version_extensions fuel h e pos = (v <~ choose_version false vs ;; Got (Some v)).
Proof.
  intros Hes Hfind Hne Hvs. revert fuel pos Hfind. induction Hes as [|x es Hx _ IH]; [done|].
  intros fuel pos Hfind Ha He Hh Hf. destruct fuel as [|fuel]; [lia|]. cbn [version_extensions find_ext] in *.
  rewrite encode_tlvs_cons, length_app, length_encode_tlv in He.
  rewrite (proj2 (Nat.leb_le (pos + 4) e)) by lia. open_tlv Ha Hx. cbv zeta.
  rewrite (proj2 (Nat.leb_le _ e)) by lia. cbn [guard_ok].
  destruct (x.1 =? EXT_SUPPORTED_VERSIONS)%Z; [|apply IH; (done || lia)].
  assert (x.2 = Z.of_nat (2 * length vs) :: encode_versions vs) as Hx2 by (by injection Hfind).
  rewrite Hx2 in *.
  cbn [length] in *. rewrite length_encode_versions in *.
  cbn [Nat.leb guard_ok]. rewrite (at_pos_ix _ _ _ _ Hdata). cbn [parse_bind]. rewrite Nat2Z.id.
  assert (0 < length vs) by (destruct vs; [done | cbn; lia]).
  rewrite (proj2 (Nat.eqb_neq (2 * length vs) 0)) by lia.
  rewrite (Nat.mul_comm 2), Nat.Div0.mod_mul, Nat.mul_comm. cbn [Nat.eqb negb orb].
  rewrite (proj2 (Nat.ltb_ge _ _)) by lia. cbn [negb guard_ok].
  apply (at_pos_skip _ _ [Z.of_nat (2 * length vs)]) in Hdata. cbn [length] in Hdata.
  by rewrite (scan_versions_spec _ _ _ _ _ vs) by (done || lia).
Qed.

(** * Cipher suites *)

Lemma length_concat_suites (ss : list (list Z)) : Forall (fun s => length s = 2) ss -> length (concat ss) = 2 * length ss.
Proof. induction 1 as [|s ss Hs _ IH]; [done|]. cbn [concat]. rewrite length_app, IH, Hs. cbn [length]. lia. Qed.

Lemma offers_from_spec fuel h suite e pos (ss : list (list Z)) :
  Forall (fun s => length s = 2) ss -> at_pos h pos (concat ss) -> e = pos + 2 * length ss -> e - pos < fuel ->
  offers_from fuel h suite e pos = Got (bool_decide (suite ∈ ss)).
Proof.
  intros Hss. revert fuel pos. induction Hss as [|s ss Hs _ IH]; intros fuel pos Ha He Hf;
    (destruct fuel as [|fuel]; [lia|]); cbn [offers_from].
  { cbn in He. rewrite (proj2 (Nat.ltb_ge _ _)) by lia.
    by rewrite bool_decide_false by (by intros ?%elem_of_nil). }
  cbn [length] in He. rewrite (proj2 (Nat.ltb_lt _ e)) by lia.
  destruct s as [|a [|b [|]]]; try done. cbn [concat app] in Ha.
  rewrite (at_pos_ix _ _ _ _ Ha). cbn [parse_bind].
  apply (at_pos_skip _ _ [a]) in Ha as Ha1. cbn [length] in Ha1.
  rewrite (at_pos_ix _ _ _ _ Ha1). cbn [parse_bind].
  apply (at_pos_skip _ _ [a; b]) in Ha. cbn [length] in Ha.
  destruct (bool_decide_reflect ([a; b] = suite)) as [<-|Heq].
  { by rewrite bool_decide_true by (apply list_elem_of_here). }
  rewrite IH by (done || lia). erewrite bool_decide_ext; [reflexivity|].
  rewrite elem_of_cons. naive_solver.
Qed.

(** The first suite of a preference list that the client offers. *)
Fixpoint prefer (offered : list (list Z)) (suites : list (list Z)) : parse (list Z) :=
  match suites with
  | [] => Reject
  | s :: suites => if bool_decide (s ∈ offered) then Got s else prefer offered suites
  end.

(** * Whole messages *)

Section hello.
Variable m : Hello.
Hypothesis Hm : hello_ok m.

Let h := encode_hello m.
Let s := length (hl_session_id m).
Let c := length (concat (hl_suites m)).
Let k := length (hl_compression m).
Let e := length (encode_tlvs (hl_extensions m)).

Lemma length_hello_body : length (hello_body m) = 40 + s + c + k + e.
Proof.
  unfold hello_body. rewrite !length_app, !length_vec16, length_be16, (ok_random _ Hm). cbn [length].
  unfold s, c, k, e. lia.
Qed.

Lemma length_encode_hello : length h = 49 + s + c + k + e.
Proof.
  unfold h, encode_hello. rewrite !length_app, length_be16, length_to_be, length_hello_body. cbn [length]. lia.
Qed.

Lemma hello_sizes : (Z.of_nat (44 + s + c + k + e) < 65536)%Z.
Proof. pose proof (ok_size _ Hm) as [_ Hs]. rewrite length_hello_body in Hs. lia. Qed.

Lemma suites_len_sizes : c = 2 * length (hl_suites m) /\ c <> 0.
Proof.
  unfold c. rewrite (length_concat_suites _ (ok_suites _ Hm)). split; [done|].
  pose proof (ok_suites_nonempty _ Hm). destruct (hl_suites m); [done | cbn; lia].
Qed.

(** What every parser reads at the fixed places of the message. *)
Record hello_view : Prop := {
  view_record : ix h 0 = Got TLS_RECORD_HANDSHAKE;
  view_record_len : len16 h 3 = Got (44 + s + c + k + e);
  view_type : get h 5 = Got 1%Z;
  view_len24 : forall p, p = 6 -> len24 h p = Got (40 + s + c + k + e);
  view_version : forall p, p = 9 -> be16_at h p = Got (hl_version m);
  view_session : forall p, p = 43 -> len8 h p = Got s;
  view_suites_len : forall p, p = 44 + s -> len16 h p = Got c;
  view_suites : at_pos h (46 + s) (concat (hl_suites m));
  view_compression : forall p, p = 46 + s + c -> len8 h p = Got k;
  view_extensions_len : forall p, p = 47 + s + c + k -> len16 h p = Got e;
  view_extensions : at_pos h (49 + s + c + k) (encode_tlvs (hl_extensions m));
}.

Lemma hello_view_ok : hello_view.
Proof.
  pose proof hello_sizes as Hsz. pose proof length_hello_body as Hbody.
  pose proof (at_pos_whole h) as A0. unfold h at 2, encode_hello in A0.
  pose proof (at_pos_skip _ _ _ _ A0) as A3. cbn [length Nat.add] in A3.
  pose proof (at_pos_skip _ _ _ _ A3) as A5. rewrite length_be16 in A5. cbn [Nat.add] in A5.
  pose proof (at_pos_skip _ _ _ _ A5) as A6. cbn [length Nat.add] in A6.
  pose proof (at_pos_skip _ _ _ _ A6) as A9. rewrite length_to_be in A9. cbn [Nat.add] in A9.
  unfold hello_body in A9.
  pose proof (at_pos_skip _ _ _ _ A9) as A11. rewrite length_be16 in A11. cbn [Nat.add] in A11.
  pose proof (at_pos_skip _ _ _ _ A11) as A43. rewrite (ok_random _ Hm) in A43. cbn [Nat.add] in A43.
  pose proof (at_pos_skip _ _ _ _ A43) as A44. cbn [length Nat.add] in A44.
  pose proof (at_pos_skip _ _ _ _ A44) as As. fold s in As.
  apply at_pos_vec16 in As as (Hc & Hsuites & Ac); [|unfold u16_len, is_u16; fold c; lia].
  fold c in Hc, Ac. pose proof (at_pos_skip _ _ _ _ Ac) as Ak. cbn [length] in Ak.
  pose proof (at_pos_skip _ _ _ _ Ak) as Ae. fold k in Ae. rewrite <- (app_nil_r (vec16 _)) in Ae.
  apply at_pos_vec16 in Ae as (He & Hexts & _); [|unfold u16_len, is_u16; fold e; lia]. fold e in He.
  constructor.
  - by eapply at_pos_ix.
  - replace (44 + s + c + k + e) with (4 + length (hello_body m)) by lia.
    eapply at_pos_len16; [apply (ok_size _ Hm) | exact A3].
  - by eapply at_pos_get.
  - intros p ->. rewrite <- Hbody. eapply at_pos_len24; [lia | exact A6].
  - intros p ->. eapply at_pos_be16; [apply (ok_version _ Hm) | exact A9].
  - intros p ->. by eapply at_pos_len8.
  - intros p ->. exact Hc.
  - by replace (46 + s) with (44 + s + 2) by lia.
  - intros p ->. replace (46 + s + c) with (44 + s + 2 + c) by lia. by eapply at_pos_len8.
  - intros p ->. by replace (47 + s + c + k) with (44 + s + 2 + c + 1 + k) by lia.
  - by replace (49 + s + c + k) with (44 + s + 2 + c + 1 + k + 2) by lia.
Qed.

(** Walks a parser over the message: reads give the view, guards hold. *)
Ltac view :=
  pose proof hello_view_ok; pose proof length_encode_hello; pose proof suites_len_sizes as [? ?].
Ltac walk :=
  match goal with V : hello_view |- _ =>
  repeat first
  [ progress cbn [parse_bind guard_ok fst snd]
  | progress cbv zeta
  | rewrite (view_record V) | rewrite (view_record_len V) | rewrite (view_type V) | rewrite Z.eqb_refl
  | rewrite (proj2 (Nat.leb_le _ _)) by lia
  | rewrite (proj2 (Nat.ltb_lt _ _)) by lia
  | rewrite (view_len24 V) by lia | rewrite (view_version V) by lia | rewrite (view_session V) by lia
  | rewrite (view_suites_len V) by lia | rewrite (view_compression V) by lia
  | rewrite (view_extensions_len V) by lia ]
  end.

Lemma to_ciphers_hello : client_hello_to_ciphers h = Got (44 + s, 49 + s + c + k + e).
Proof. unfold client_hello_to_ciphers. view. walk. do 2 f_equal; lia. Qed.

Lemma even_suites : negb ((c =? 0) || negb (c mod 2 =? 0)) = true.
Proof.
  pose proof suites_len_sizes as [Hc H0]. rewrite (proj2 (Nat.eqb_neq _ _) H0). rewrite Hc.
  by rewrite (Nat.mul_comm 2), Nat.Div0.mod_mul.
Qed.

Lemma cipher_range_hello : client_hello_cipher_suites_range h = Got (46 + s, 46 + s + c).
Proof.
  unfold client_hello_cipher_suites_range. rewrite to_ciphers_hello. cbn [parse_bind].
  view. walk. rewrite even_suites. walk. do 2 f_equal; lia.
Qed.

Lemma extensions_range_hello :
  client_hello_extensions_range h = Got (49 + s + c + k, 49 + s + c + k + e).
Proof.
  unfold client_hello_extensions_range. rewrite to_ciphers_hello. cbn [parse_bind].
  view. walk. rewrite even_suites. walk.
  rewrite (proj2 (Nat.eqb_neq _ _)) by lia. walk. do 2 f_equal; lia.
Qed.

Lemma first_offered_hello suites :
  first_offered h (46 + s, 46 + s + c) suites = prefer (hl_suites m) suites.
Proof.
  pose proof hello_view_ok as V. pose proof suites_len_sizes as [Hc _]. pose proof length_encode_hello.
  induction suites as [|x suites IH]; [done|]. cbn [first_offered prefer].
  unfold client_hello_offers_cipher_suite. cbn [fst snd].
  rewrite (offers_from_spec _ _ _ _ _ (hl_suites m)); [|apply (ok_suites _ Hm) | apply (view_suites V) | lia | lia].
  cbn [parse_bind]. by rewrite IH.
Qed.

Lemma select_cipher_hello preferred :
  select_server_hello_cipher_suite h preferred =
  prefer (hl_suites m)
    [if is_tls13_cipher_suite preferred then preferred else TLS_AES_128_GCM_SHA256;
     TLS_AES_128_GCM_SHA256; TLS_CHACHA20_POLY1305_SHA256; TLS_AES_256_GCM_SHA384].
Proof.
  unfold select_server_hello_cipher_suite. rewrite cipher_range_hello. cbn [parse_bind].
  apply first_offered_hello.
Qed.

Lemma key_share_hello group n :
  client_hello_key_share_group_entry h group n =
  match find_ext EXT_KEY_SHARE (hl_extensions m) with
  | Some d => key_share_extension_group_entry d group n
  | None => Reject
  end.
Proof.
  unfold client_hello_key_share_group_entry. rewrite extensions_range_hello. cbn [parse_bind].
  pose proof length_encode_hello.
  apply key_share_extension_spec; [apply (ok_extensions _ Hm) | apply (view_extensions hello_view_ok) | done | lia].
Qed.

Lemma sni_hello pre ns post :
  hl_extensions m = pre ++ (0%Z, vec16 (encode_names ns)) :: post -> no_sni pre -> no_sni post ->
  Forall (fun x => u16_len x.2) ns -> u16_len (encode_names ns) ->
  extract_sni_from_client_hello h = match first_host ns with Some host => Got host | None => Reject end.
Proof.
  intros Hexts Hpre Hpost Hns Hl. unfold extract_sni_from_client_hello. view. walk.
  rewrite (sni_extensions_spec _ _ _ _ pre ns post); try done; try lia.
  - rewrite <- Hexts. apply (ok_extensions _ Hm).
  - rewrite <- Hexts. replace (5 + 4 + (2 + 32) + (1 + s) + (2 + c) + (1 + k) + 2) with (49 + s + c + k) by lia.
    by apply view_extensions.
  - rewrite <- Hexts. fold e. lia.
Qed.

Lemma alpn_hello ps :
  find_ext EXT_ALPN (hl_extensions m) = Some (vec16 (encode_protocols ps)) ->
  ps <> [] -> u16_len (encode_protocols ps) ->
  extract_alpn_from_client_hello h = Got ps.
Proof.
  intros Hfind Hne Hl. unfold extract_alpn_from_client_hello. view. walk.
  apply (alpn_extensions_spec _ _ _ _ (hl_extensions m)); try done; try lia.
  - apply (ok_extensions _ Hm).
  - replace (5 + 4 + (2 + 32) + (1 + s) + (2 + c) + (1 + k) + 2) with (49 + s + c + k) by lia.
    by apply view_extensions.
Qed.

Lemma version_hello vs :
  find_ext EXT_SUPPORTED_VERSIONS (hl_extensions m) =
    Some (Z.of_nat (2 * length vs) :: encode_versions vs) ->
  vs <> [] -> Forall is_u16 vs ->
  detect_client_hello_tls_version h = choose_version false vs.
Proof.
  intros Hfind Hne Hvs. unfold detect_client_hello_tls_version. view. walk.
  rewrite (version_extensions_spec _ _ _ _ (hl_extensions m) vs); try done; try lia.
  - unfold choose_version. repeat case_match; done.
  - apply (ok_extensions _ Hm).
  - replace (5 + 1 + 3 + (2 + 32) + (1 + s) + (2 + c) + (1 + k) + 2) with (49 + s + c + k) by lia.
    by apply view_extensions.
Qed.
End hello.
