(* ===== verification/FrontProps.v ===== *)
(** Properties of the client side: the random generator, the parsers of the
    ClientHello, the authentication of a client and the ServerHello response. *)

From stdpp Require Import base list sets numbers.
From S2P Require Import Prelude Aes Random Tls TlsServer TlsHello.
Local Open Scope nat_scope.
Local Open Scope parse_scope.

(** * Instances used by the examples *)

#[local] Instance demo_rng : StdRng nat := {
  rng_fill_bytes n r := ((fun i => Z.of_nat (r + i) mod 256)%Z <$> seq 0 n, r + n);
  rng_random_range max r := (r mod max, S r);
  rng_random_range_incl max r := (r mod S max, S r);
}.

#[local] Instance demo_rng_laws : StdRngLaws nat.
Proof.
  constructor.
  - intros n r. cbn. split; [by rewrite length_fmap, length_seq|].
    apply Forall_fmap, Forall_true. intros i. unfold compose, is_byte. by apply Z.mod_pos_bound.
  - intros max r Hm. cbn. apply Nat.mod_upper_bound. lia.
  - intros max r. cbn [rng_random_range_incl fst demo_rng].
    pose proof (Nat.mod_upper_bound r (S max)). lia.
Qed.

#[local] Instance demo_stream : StreamKey := fun key iv n => ((iv + Z.of_nat n * 37) mod 256)%Z.

(** A toy keyed digest: 32 bytes of the key and of the length of the data. *)
#[local] Instance demo_hmac : HmacSha256 :=
  fun key data => (fun i => (nth i key 0 + Z.of_nat (length data)) mod 256)%Z <$> seq 0 32.

#[local] Instance demo_hmac_laws : HmacSha256Laws.
Proof.
  intros key data. unfold sha256_hmac, demo_hmac. split; [by rewrite length_fmap, length_seq|].
  apply Forall_fmap, Forall_true. intros i. unfold compose, is_byte. by apply Z.mod_pos_bound.
Qed.

Definition demo_random : SecureRandomInner nat := mkRandom 5 (aes_ctr_new [1%Z] 9) [1; 2; 3]%Z 1.

(** * Random bytes *)

(** Random bytes are dealt out once: two consecutive requests to the
    generator return exactly the bytes that one request of their joint size
    would return and leave the generator in the same state, and every request
    is answered in full, across the 512-byte refills of the buffer. *)
Theorem random_bytes_split {R : Type} `{StdRngLaws R} `{StreamKey} a b (s : SecureRandomInner R) :
  rand_bytes (a + b) s =
    (let r1 := rand_bytes a s in let r2 := rand_bytes b r1.2 in (r1.1 ++ r2.1, r2.2)) /\
  length (rand_bytes a s).1 = a.
Proof.
  split; [|apply rand_bytes_length]. unfold rand_bytes. rewrite fill_loop_split by lia. cbn zeta.
  by rewrite (fill_loop_fuel (a + b) a a), (fill_loop_fuel (a + b) b b) by lia.
Qed.

Lemma random_bytes_split_witness : length (rand_bytes 3 demo_random).1 = 3.
Proof. exact (proj2 (random_bytes_split 3 4 demo_random)). Defined.

(** [shuffle] only permutes the slice, and [choose] returns an element of
    the slice unless the slice is empty. *)
Theorem shuffle_permutes_choose_member {R : Type} `{StdRngLaws R} {T} (l : list T)
    (s : SecureRandomInner R) :
  (rand_shuffle l s).1 ≡ₚ l /\
  match (rand_choose l s).1 with
  | Some x => x ∈ l
  | None => l = []
  end.
Proof.
  split.
  - unfold rand_shuffle. pose proof (shuffle_down_perm (length l - 1) l (rand_rng s)) as Hp.
    by destruct (shuffle_down _ _ _).
  - destruct l as [|x l]; [done|]. unfold rand_choose.
    pose proof (rand_range_lt (length (x :: l)) s ltac:(cbn; lia)) as Hlt.
    destruct (rand_range _ s) as [i s']. cbn [fst] in *.
    destruct (lookup_lt_is_Some_2 (x :: l) i Hlt) as [y Hy]. rewrite Hy.
    by eapply list_elem_of_lookup_2.
Qed.

Lemma shuffle_permutes_choose_member_witness : (rand_shuffle [10; 20; 30]%Z demo_random).1 ≡ₚ [10; 20; 30]%Z.
Proof. exact (proj1 (shuffle_permutes_choose_member [10; 20; 30]%Z demo_random)). Defined.

(** * ClientHello parsing *)

(** C38: On any received bytes the ClientHello parsers terminate without an
    index or slice out of range: server name, application protocols, TLS
    version, cipher suite selection and key-share group selection. *)
Theorem client_hello_parsers_total (h preferred : list Z) (group : option Z) :
  safe (extract_sni_from_client_hello h) /\
  safe (extract_alpn_from_client_hello h) /\
  safe (detect_client_hello_tls_version h) /\
  safe (select_server_hello_cipher_suite h preferred) /\
  safe (select_server_hello_key_share_group_with_preference h group).
Proof.
  split_and!; [apply extract_sni_safe | apply extract_alpn_safe | apply detect_version_safe
    | apply select_cipher_safe | apply select_group_safe].
Qed.

(** What the selection functions accept is sound on any received bytes: an
    extracted server name is a valid host name; a selected cipher suite is one
    of TLS 1.3; a selected group is one the server supports, and the hello
    carries exactly one key share for it, of that group's length. *)
Theorem client_hello_selection_sound (h preferred : list Z) (group : option Z) :
  (forall host, extract_sni_from_client_hello h = Got host -> is_valid_sni_hostname host = true) /\
  (forall s, select_server_hello_cipher_suite h preferred = Got s -> is_tls13_cipher_suite s = true) /\
  (forall g, select_server_hello_key_share_group_with_preference h group = Got g ->
     g ∈ [X25519; X25519MLKEM768] /\
     exists n k, client_hello_key_share_group_len g = Some n /\
       client_hello_key_share_group_entry h g n = Got k /\ length k = n).
Proof.
  split_and!; [apply extract_sni_valid | apply select_cipher_tls13 |].
  intros g [Hin Hk]%select_group_offered. split; [|done].
  unfold server_hello_key_share_candidate_order in Hin. case_bool_decide; set_solver.
Qed.

(** C32: A well-formed ClientHello is read back as it was written.  From the
    bytes of a hello whose extensions hold one server-name list, a protocol
    list, a version list and a key-share list, the parsers return the first
    valid host name, all protocols in order, TLS 1.3 when it is offered, the
    preferred cipher suite if the client offers it (else the first one offered
    in the server's order), and the key share of a group exactly when the list
    has one entry for it with the expected length. *)
Theorem client_hello_read_back (m : Hello) pre ns post ps vs shares preferred group n :
  hello_ok m ->
  hl_extensions m = pre ++ (0%Z, vec16 (encode_names ns)) :: post -> no_sni pre -> no_sni post ->
  Forall (fun x => u16_len x.2) ns -> u16_len (encode_names ns) ->
  find_ext EXT_ALPN (hl_extensions m) = Some (vec16 (encode_protocols ps)) ->
  ps <> [] -> u16_len (encode_protocols ps) ->
  find_ext EXT_SUPPORTED_VERSIONS (hl_extensions m) =
    Some (Z.of_nat (2 * length vs) :: encode_versions vs) ->
  vs <> [] -> Forall is_u16 vs ->
  find_ext EXT_KEY_SHARE (hl_extensions m) = Some (vec16 (encode_tlvs shares)) ->
  Forall tlv_ok shares -> u16_len (encode_tlvs shares) ->
  extract_sni_from_client_hello (encode_hello m) =
    match first_host ns with Some host => Got host | None => Reject end /\
  extract_alpn_from_client_hello (encode_hello m) = Got ps /\
  detect_client_hello_tls_version (encode_hello m) = choose_version false vs /\
  select_server_hello_cipher_suite (encode_hello m) preferred =
    prefer (hl_suites m)
      [if is_tls13_cipher_suite preferred then preferred else TLS_AES_128_GCM_SHA256;
       TLS_AES_128_GCM_SHA256; TLS_CHACHA20_POLY1305_SHA256; TLS_AES_256_GCM_SHA384] /\
  client_hello_key_share_group_entry (encode_hello m) group n = pick_share group n None shares.
Proof.
  intros Hm Hsni Hpre Hpost Hns Hnl Halpn Hps Hpl Hver Hvs Hvok Hks Hsh Hsl. split_and!.
  - by apply (sni_hello m Hm pre ns post).
  - by apply alpn_hello.
  - by apply version_hello.
  - by apply select_cipher_hello.
  - rewrite key_share_hello by done. rewrite Hks. by apply key_share_entry_spec.
Qed.

(** "a.bc", the protocol "h2", TLS 1.3 and 1.2, and one X25519 share. *)
Definition demo_names : list (Z * list Z) := [(0, [97; 46; 98; 99])]%Z.
Definition demo_shares : list (Z * list Z) := [(X25519, replicate 32 7%Z)].
Definition demo_hello : Hello := {|
  hl_version := 0x0303%Z;
  hl_random := replicate 32 0%Z;
  hl_session_id := replicate 32 5%Z;
  hl_suites := [[0x13; 0x03]; [0x13; 0x01]]%Z;
  hl_compression := [0%Z];
  hl_extensions := [(0%Z, vec16 (encode_names demo_names));
    (EXT_ALPN, vec16 (encode_protocols [[104; 50]%Z]));
    (EXT_SUPPORTED_VERSIONS, Z.of_nat (2 * length [0x0304; 0x0303]%Z) :: encode_versions [0x0304; 0x0303]%Z);
    (EXT_KEY_SHARE, vec16 (encode_tlvs demo_shares))];
|}.

Lemma demo_hello_ok : hello_ok demo_hello.
Proof.
  constructor; try done; try (unfold is_u16, u8_len; vm_compute; done).
  - repeat constructor.
  - repeat (constructor; [unfold tlv_ok, u16_len, is_u16; vm_compute; done|]). constructor.
Qed.

Lemma client_hello_read_back_witness :
  extract_sni_from_client_hello (encode_hello demo_hello) = Got [97; 46; 98; 99]%Z.
Proof.
  refine (proj1 (client_hello_read_back demo_hello [] demo_names
    (drop 1 (hl_extensions demo_hello)) [[104; 50]%Z] [0x0304; 0x0303]%Z demo_shares
    TLS_AES_128_GCM_SHA256 X25519 32 demo_hello_ok eq_refl _ _ _ _ eq_refl _ _ eq_refl _ _ eq_refl _ _));
    try done; unfold no_sni, u16_len, is_u16, tlv_ok; repeat constructor; try done; vm_compute; done.
Defined.

(** * Authentication *)

Lemma hello_shape_digest h sid : hello_shape h sid -> bytes_ok h ->
  length (digest_of h) = 32 /\ bytes_ok (digest_of h).
Proof.
  intros (n & _ & _ & Hl & _) Hok. unfold digest_of, TLS_DIGEST_POS, TLS_DIGEST_LEN.
  split; [apply length_sub; lia|]. unfold sub. by apply Forall_take, Forall_drop.
Qed.

Lemma check_secret_none `{HmacSha256Laws} h sid secret ig now cap :
  hello_shape h sid -> bytes_ok h ->
  check_secret (zeroed h) (digest_of h) secret ig now cap = None <->
  forall ts, ~ authentic h secret ig now cap ts.
Proof.
  intros Hs Hok. destruct (hello_shape_digest _ _ Hs Hok) as [Hl Hd]. split.
  - intros Hn ts Ha. apply (check_secret_spec _ _ _ _ _ _ _ Hl Hd) in Ha. congruence.
  - intros Hn. destruct (check_secret _ _ _ _ _ _) as [ts|] eqn:Hc; [|done].
    apply check_secret_spec in Hc; [|done..]. by destruct (Hn ts).
Qed.

(** C4: A ClientHello authenticates exactly the first configured user whose
    secret signed it at an accepted time.  Signing means that the 32 bytes at
    offset 11 are the HMAC of the message with those bytes cleared, with the
    timestamp folded into the last four; accepted means within two minutes of
    the clock, or below the boot-time cap, which never exceeds two minutes, or
    at any time when skew is ignored. *)
Theorem tls_auth_exact `{HmacSha256Laws} clock h secrets ig window v :
  bytes_ok h ->
  (validate_tls_handshake_with_replay_window clock h secrets ig window = Got v <->
   exists now pre secret post,
     (if ig then Some 0%Z else system_time_to_unix_secs clock) = Some now /\
     hello_shape h (tv_session_id v) /\ tv_digest v = digest_of h /\
     secrets = pre ++ (tv_user v, secret) :: post /\
     authentic h secret ig now (boot_time_cap ig window) (tv_timestamp v) /\
     Forall (fun p => forall ts, ~ authentic h p.2 ig now (boot_time_cap ig window) ts) pre) /\
  (boot_time_cap ig window <= 120)%Z.
Proof.
  intros Hok. split.
  2:{ unfold boot_time_cap, BOOT_TIME_COMPAT_MAX_SECS. destruct ig; lia. }
  unfold validate_tls_handshake_with_replay_window.
  destruct (if ig then Some 0%Z else system_time_to_unix_secs clock) as [now|].
  2:{ split; [done|]. intros (? & ? & ? & ? & [=] & _). }
  rewrite validate_spec by done. set (cap := boot_time_cap ig window).
  split.
  - intros (Hs & Hd & (pre & secret & post & Heq & Hc & Hpre)%check_secrets_spec).
    destruct (hello_shape_digest _ _ Hs Hok) as [Hl Hb].
    exists now, pre, secret, post. split_and!; try done.
    + by apply check_secret_spec in Hc.
    + eapply Forall_impl; [|exact Hpre]. cbv beta. intros p Hp. by eapply check_secret_none.
  - intros (now' & pre & secret & post & [= <-] & Hs & Hd & Heq & Ha & Hpre).
    destruct (hello_shape_digest _ _ Hs Hok) as [Hl Hb]. split_and!; try done.
    apply check_secrets_spec. exists pre, secret, post. split_and!; try done.
    + by apply check_secret_spec.
    + eapply Forall_impl; [|exact Hpre]. cbv beta. intros p Hp. by eapply check_secret_none.
Qed.

(** A hello signed at time 1000 with the secret of the second user. *)
Definition demo_unsigned : list Z := replicate 43 0%Z ++ [2; 8; 9; 1; 1]%Z.
Definition demo_signed : list Z :=
  take 11 demo_unsigned ++ xor_bytes (sha256_hmac [3; 4]%Z demo_unsigned) (stamp 1000) ++ drop 43 demo_unsigned.

Lemma tls_auth_exact_witness :
  (if false then Some 0%Z else system_time_to_unix_secs (Some 1060%Z)) = Some 1060%Z /\
  validate_tls_handshake_with_replay_window (Some 1060%Z) demo_signed
    [([97]%Z, [9; 9]%Z); ([98]%Z, [3; 4]%Z)] false 600 =
  Got (mkValidation [98]%Z [8; 9]%Z (digest_of demo_signed) 1000).
Proof.
  split; [done|].
  refine (proj2 (proj1 (tls_auth_exact (Some 1060%Z) demo_signed
    [([97]%Z, [9; 9]%Z); ([98]%Z, [3; 4]%Z)] false 600
    (mkValidation [98]%Z [8; 9]%Z (digest_of demo_signed) 1000) _)) _).
  { by apply (bool_decide_eq_true_1 (bytes_ok demo_signed)); vm_compute. }
  exists 1060%Z, [([97]%Z, [9; 9]%Z)], [3; 4]%Z, []. split_and!; try done.
  - exists 2. split_and!; try (vm_compute; done); vm_compute; lia.
  - split; [vm_compute; done|]. split; [vm_compute; done|].
    right; right. unfold TIME_SKEW_MIN, TIME_SKEW_MAX. cbn. lia.
  - constructor; [|constructor]. intros ts (_ & Hd & _). cbn [snd] in Hd.
    apply (f_equal head) in Hd. vm_compute in Hd. done.
Defined.

(** * The response *)

(** C27: The response to an authenticated client is always produced, proves
    knowledge of the user's secret and is a well-formed flight: the 32 bytes at
    offset 11 are the HMAC of the client's digest and of the response with those
    bytes cleared; cut at its record headers, the response is a ServerHello that
    carries the digest as its random, echoes the session id and states the
    selected suite and key share, a ChangeCipherSpec, a certificate-sized record
    of the clamped length, and at most four ticket records of 48 to 95 bytes. *)
Theorem server_hello_proves_secret {R : Type} `{StdRngLaws R} `{StreamKey} `{HmacSha256Laws}
    secret client_digest sid fake_cert_len cipher ks n (rng : SecureRandomInner R) :
  length sid <= 32 -> length cipher = 2 -> cipher <> [0; 0]%Z -> key_share_fits ks ->
  exists response rng' cert tickets,
    build_server_hello_with_cipher secret client_digest sid fake_cert_len cipher ks n rng =
      Got (response, rng') /\
    digest_of response = sha256_hmac secret (client_digest ++ zeroed response) /\
    split_records (S (length response)) response =
      Got (response_records (digest_of response) sid cipher ks cert tickets) /\
    length cert = Nat.max 64 (Nat.min fake_cert_len MAX_TLS_CIPHERTEXT_SIZE) /\
    length tickets = Nat.min n 4 /\ Forall ticket_ok tickets.
Proof.
  intros Hs Hc Hne Hk.
  destruct (build_server_hello_spec secret client_digest sid fake_cert_len cipher ks n rng Hs Hc Hne Hk)
    as (resp & rng' & cert & tickets & Hb & Hd & Hr & H32 & Hcert & Ht & Hok).
  exists resp, rng', cert, tickets. split_and!; try done.
  rewrite Hr at 2. apply split_render.
  - by eapply response_fits.
  - pose proof (render_length (response_records (digest_of resp) sid cipher ks cert tickets)) as Hlen.
    rewrite <- Hr in Hlen. lia.
Qed.

Lemma server_hello_proves_secret_witness :
  exists response rng' cert tickets,
    build_server_hello_with_cipher [3%Z] (replicate 32 1%Z) [8; 9]%Z 100 TLS_AES_128_GCM_SHA256
      (mkKeyShare X25519 (replicate 32 7%Z)) 2 demo_random = Got (response, rng') /\
    digest_of response = sha256_hmac [3%Z] (replicate 32 1%Z ++ zeroed response) /\
    split_records (S (length response)) response =
      Got (response_records (digest_of response) [8; 9]%Z TLS_AES_128_GCM_SHA256
        (mkKeyShare X25519 (replicate 32 7%Z)) cert tickets) /\
    length cert = Nat.max 64 (Nat.min 100 MAX_TLS_CIPHERTEXT_SIZE) /\
    length tickets = Nat.min 2 4 /\ Forall ticket_ok tickets.
Proof.
  apply (server_hello_proves_secret [3%Z] (replicate 32 1%Z) [8; 9]%Z 100 TLS_AES_128_GCM_SHA256
    (mkKeyShare X25519 (replicate 32 7%Z)) 2 demo_random); [cbn; lia | done | done |].
  unfold key_share_fits. cbn. lia.
Defined.
