(* ===== verification/Replay.v ===== *)
(** The replay checker of [stats/replay.rs]: 64 shards for handshakes and 64 for
    TLS digests, each a FIFO of keys with their insertion times beside an LRU
    cache of the same keys.

    The LRU cache is third-party code: its operations are a class, and its laws
    say what the crate documents about the key-value view; in particular an
    insertion into a full cache may evict any entry.  [Instant] is a number of
    nanoseconds, [instant_min] the smallest one the platform can represent. *)

From stdpp Require Import base list gmap numbers.
From S2P Require Import Prelude.
Local Open Scope Z_scope.

(** * Keys *)

Definition REPLAY_INLINE_KEY_CAP : nat := 48.

Inductive ReplayKey :=
  | KeyInline (len : nat) (bytes : list Z)
  | KeyHeap (bytes : list Z).

Definition key_from_slice (key : list Z) : ReplayKey :=
  if (length key <=? REPLAY_INLINE_KEY_CAP)%nat
  then KeyInline (length key) (key ++ replicate (REPLAY_INLINE_KEY_CAP - length key) 0)
  else KeyHeap key.

Definition key_as_slice (k : ReplayKey) : list Z :=
  match k with
  | KeyInline len bytes => take len bytes
  | KeyHeap bytes => bytes
  end.

Lemma key_roundtrip key : key_as_slice (key_from_slice key) = key.
Proof. unfold key_from_slice. destruct (_ <=? _)%nat; [|done]. cbn. by rewrite take_app_length. Qed.

(** * The LRU cache *)

(** Keys compare by their bytes ([PartialEq], [Hash] and [Borrow]). *)
Class LruCache (L : Type) := {
  lru_new : nat -> L;
  lru_peek : list Z -> L -> option Z;
  lru_get : list Z -> L -> option Z * L;
  lru_put : list Z -> Z -> L -> L;
  lru_pop : list Z -> L -> L;
  lru_clear : L -> L;
  lru_len : L -> nat;
}.

Class LruCacheLaws (L : Type) `{LruCache L} := {
  lru_view : L -> gmap (list Z) Z;
  lru_cap : L -> nat;
  lru_view_new n : lru_view (lru_new n) = ∅ /\ lru_cap (lru_new n) = n;
  lru_peek_view k l : lru_peek k l = lru_view l !! k;
  lru_get_view k l : (lru_get k l).1 = lru_view l !! k /\ lru_view (lru_get k l).2 = lru_view l /\
    lru_cap (lru_get k l).2 = lru_cap l;
  lru_put_view k v l : (size (lru_view l) < lru_cap l)%nat ->
    lru_view (lru_put k v l) = <[k := v]> (lru_view l) /\ lru_cap (lru_put k v l) = lru_cap l;
  lru_pop_view k l : lru_view (lru_pop k l) = delete k (lru_view l) /\ lru_cap (lru_pop k l) = lru_cap l;
  lru_clear_view l : lru_view (lru_clear l) = ∅ /\ lru_cap (lru_clear l) = lru_cap l;
  lru_len_view l : lru_len l = size (lru_view l);
}.

(** * A shard *)

Section shard.
Context {L : Type} `{LruCache L}.
Context (instant_min : Z).

Record ReplayShard := mkShard {
  rs_cache : L;
  rs_queue : list (Z * ReplayKey * Z);
  rs_seq_counter : Z;
  rs_capacity : nat;
}.

Definition shard_new (cap : nat) : ReplayShard := mkShard (lru_new cap) [] 0 cap.

(** [seq_counter += 1] on a [u64]. *)
Definition next_seq (s : ReplayShard) : Z * ReplayShard :=
  let seq := (rs_seq_counter s + 1) mod 2 ^ 64 in
  (seq, mkShard (rs_cache s) (rs_queue s) seq (rs_capacity s)).

Definition evict_queue_front (s : ReplayShard) : ReplayShard :=
  match rs_queue s with
  | [] => s
  | (_, key, queue_seq) :: queue =>
      let cache :=
        match lru_peek (key_as_slice key) (rs_cache s) with
        | Some seq => if seq =? queue_seq then lru_pop (key_as_slice key) (rs_cache s) else rs_cache s
        | None => rs_cache s
        end in
      mkShard cache queue (rs_seq_counter s) (rs_capacity s)
  end.

(** [while let Some((ts, _, _)) = queue.front()]: each round pops one entry. *)
Fixpoint cleanup_loop (fuel : nat) (cutoff : Z) (s : ReplayShard) : ReplayShard :=
  match fuel with
  | O => s
  | S fuel =>
      match rs_queue s with
      | (ts, _, _) :: _ => if cutoff <=? ts then s else cleanup_loop fuel cutoff (evict_queue_front s)
      | [] => s
      end
  end.

(** [now.checked_sub(window).unwrap_or(now)]. *)
Definition cleanup_cutoff (now window : Z) : Z :=
  if now - window <? instant_min then now else now - window.

Definition cleanup (now window : Z) (s : ReplayShard) : ReplayShard :=
  if window =? 0 then mkShard (lru_clear (rs_cache s)) [] (rs_seq_counter s) (rs_capacity s)
  else cleanup_loop (length (rs_queue s)) (cleanup_cutoff now window) s.

Definition shard_check (key : list Z) (now window : Z) (s : ReplayShard) : bool * ReplayShard :=
  if window =? 0 then (false, s)
  else
    let s := cleanup now window s in
    let '(found, cache) := lru_get key (rs_cache s) in
    (bool_decide (is_Some found), mkShard cache (rs_queue s) (rs_seq_counter s) (rs_capacity s)).

(** [while queue.len() >= capacity]. *)
Fixpoint make_room (fuel : nat) (s : ReplayShard) : ReplayShard :=
  match fuel with
  | O => s
  | S fuel =>
      if (rs_capacity s <=? length (rs_queue s))%nat then make_room fuel (evict_queue_front s) else s
  end.

Definition add_owned (key : ReplayKey) (now window : Z) (s : ReplayShard) : ReplayShard :=
  if window =? 0 then s
  else
    let s := cleanup now window s in
    if bool_decide (is_Some (lru_peek (key_as_slice key) (rs_cache s))) then s
    else
      let s := make_room (length (rs_queue s)) s in
      let '(seq, s) := next_seq s in
      mkShard (lru_put (key_as_slice key) seq (rs_cache s)) (rs_queue s ++ [(now, key, seq)])
        (rs_seq_counter s) (rs_capacity s).

Definition shard_len (s : ReplayShard) : nat := lru_len (rs_cache s).

End shard.

Arguments ReplayShard : clear implicits.
Arguments mkShard {_} _ _ _ _.

(** * The checker *)

Section checker.
Context {L : Type} `{LruCache L}.
Context (instant_min : Z) (hash : list Z -> Z).

Record ReplayChecker := mkChecker {
  rc_handshake_shards : list (ReplayShard L);
  rc_tls_shards : list (ReplayShard L);
  rc_shard_mask : Z;
  rc_window : Z;
  rc_tls_window : Z;
  rc_checks : Z;
  rc_hits : Z;
  rc_additions : Z;
  rc_cleanups : Z;
}.

Definition num_shards : nat := 64.
Definition NANOS : Z := 1000000000.
Definition MIN_TLS_REPLAY_WINDOW : Z := 120 * NANOS.

Definition shard_capacity (total_capacity : nat) : nat := Nat.max (total_capacity / num_shards) 1.

Definition checker_new (total_capacity : nat) (window : Z) : ReplayChecker :=
  let cap := shard_capacity total_capacity in
  mkChecker (replicate num_shards (shard_new cap)) (replicate num_shards (shard_new cap))
    (Z.of_nat num_shards - 1) window (Z.max window MIN_TLS_REPLAY_WINDOW) 0 0 0 0.

Definition get_shard_idx (key : list Z) (c : ReplayChecker) : nat :=
  Z.to_nat (Z.land (hash key) (rc_shard_mask c)).

(** Which of the two families of shards a call addresses. *)
Inductive ReplayKind := Handshake | TlsDigest.

Definition shards_of (kind : ReplayKind) (c : ReplayChecker) : list (ReplayShard L) :=
  match kind with Handshake => rc_handshake_shards c | TlsDigest => rc_tls_shards c end.

Definition window_of (kind : ReplayKind) (c : ReplayChecker) : Z :=
  match kind with Handshake => rc_window c | TlsDigest => rc_tls_window c end.

Definition with_shards (kind : ReplayKind) (shards : list (ReplayShard L)) (c : ReplayChecker) :=
  match kind with
  | Handshake => mkChecker shards (rc_tls_shards c) (rc_shard_mask c) (rc_window c) (rc_tls_window c)
      (rc_checks c) (rc_hits c) (rc_additions c) (rc_cleanups c)
  | TlsDigest => mkChecker (rc_handshake_shards c) shards (rc_shard_mask c) (rc_window c) (rc_tls_window c)
      (rc_checks c) (rc_hits c) (rc_additions c) (rc_cleanups c)
  end.

(** [fetch_add] on the [AtomicU64] counters. *)
Definition count (checks hits additions cleanups : Z) (c : ReplayChecker) : ReplayChecker :=
  mkChecker (rc_handshake_shards c) (rc_tls_shards c) (rc_shard_mask c) (rc_window c) (rc_tls_window c)
    ((rc_checks c + checks) mod 2 ^ 64) ((rc_hits c + hits) mod 2 ^ 64)
    ((rc_additions c + additions) mod 2 ^ 64) ((rc_cleanups c + cleanups) mod 2 ^ 64).

(** [None] is the panic of [shards[idx]]. *)
Definition check_and_add_internal (kind : ReplayKind) (data : list Z) (now : Z) (c : ReplayChecker)
    : option (bool * ReplayChecker) :=
  let c := count 1 0 0 0 c in
  let idx := get_shard_idx data c in
  match shards_of kind c !! idx with
  | None => None
  | Some shard =>
      let '(found, shard) := shard_check instant_min data now (window_of kind c) shard in
      if (found : bool) then Some (true, count 0 1 0 0 (with_shards kind (<[idx := shard]> (shards_of kind c)) c))
      else
        let shard := add_owned instant_min (key_from_slice data) now (window_of kind c) shard in
        Some (false, count 0 0 1 0 (with_shards kind (<[idx := shard]> (shards_of kind c)) c))
  end.

Definition check_only_internal (kind : ReplayKind) (data : list Z) (now : Z) (c : ReplayChecker)
    : option (bool * ReplayChecker) :=
  let c := count 1 0 0 0 c in
  let idx := get_shard_idx data c in
  match shards_of kind c !! idx with
  | None => None
  | Some shard =>
      let '(found, shard) := shard_check instant_min data now (window_of kind c) shard in
      let c := with_shards kind (<[idx := shard]> (shards_of kind c)) c in
      Some (found, if (found : bool) then count 0 1 0 0 c else c)
  end.

Definition add_only (kind : ReplayKind) (data : list Z) (now : Z) (c : ReplayChecker)
    : option ReplayChecker :=
  let c := count 0 0 1 0 c in
  let idx := get_shard_idx data c in
  match shards_of kind c !! idx with
  | None => None
  | Some shard =>
      let shard := add_owned instant_min (key_from_slice data) now (window_of kind c) shard in
      Some (with_shards kind (<[idx := shard]> (shards_of kind c)) c)
  end.

(** One pass of [run_periodic_cleanup]. *)
Definition periodic_cleanup (now : Z) (c : ReplayChecker) : ReplayChecker :=
  let c := with_shards Handshake (cleanup instant_min now (rc_window c) <$> rc_handshake_shards c) c in
  let c := with_shards TlsDigest (cleanup instant_min now (rc_tls_window c) <$> rc_tls_shards c) c in
  count 0 0 0 1 c.

(** [stats]: entries and queue lengths over all shards. *)
Definition total_entries (c : ReplayChecker) : nat :=
  foldr (fun s n => shard_len s + n)%nat O (rc_handshake_shards c ++ rc_tls_shards c).
Definition total_queue_len (c : ReplayChecker) : nat :=
  foldr (fun s n => length (rs_queue s) + n)%nat O (rc_handshake_shards c ++ rc_tls_shards c).

End checker.

Arguments ReplayChecker : clear implicits.
Arguments mkChecker {_} _ _ _ _ _ _ _ _ _.

(** * The shard refines a queue of keys *)

Section shard_lemmas.
Context {L : Type} `{LruCacheLaws L}.
Context (instant_min : Z).
Implicit Types (s : ReplayShard L) (q : list (Z * ReplayKey * Z)).

Definition entry_time (e : Z * ReplayKey * Z) : Z := e.1.1.
Definition entry_key (e : Z * ReplayKey * Z) : list Z := key_as_slice e.1.2.
Lemma entry_key_new t k n : entry_key (t, key_from_slice k, n) = k.
Proof. apply key_roundtrip. Qed.

Definition keys q : list (list Z) := entry_key <$> q.

(** What the shard remembers: times and keys, oldest first. *)
Definition remembered s : list (Z * list Z) := (fun e => (entry_time e, entry_key e)) <$> rs_queue s.

Definition shard_inv s : Prop :=
  NoDup (keys (rs_queue s)) /\
  lru_view (rs_cache s) = list_to_map ((fun e => (entry_key e, e.2)) <$> rs_queue s) /\
  (length (rs_queue s) <= rs_capacity s)%nat /\ lru_cap (rs_cache s) = rs_capacity s /\
  (1 <= rs_capacity s)%nat.

Lemma view_lookup s k :
  shard_inv s -> is_Some (lru_view (rs_cache s) !! k) <-> k ∈ keys (rs_queue s).
Proof.
  intros (Hnd & Hv & _). rewrite Hv. unfold keys. generalize (rs_queue s). intros q. clear.
  induction q as [|e q IH]; cbn [fmap list_fmap].
  - rewrite list_to_map_nil, lookup_empty. split; [by intros [? ?] | by intros ?%elem_of_nil].
  - rewrite elem_of_cons, <- IH, list_to_map_cons. destruct (decide (k = entry_key e)) as [->|Hne].
    + rewrite lookup_insert_eq. split; eauto.
    + rewrite lookup_insert_ne by done. naive_solver.
Qed.

Lemma view_size s : shard_inv s -> size (lru_view (rs_cache s)) = length (rs_queue s).
Proof.
  intros (Hnd & Hv & _). rewrite Hv. rewrite map_size_list_to_map.
  - by rewrite length_fmap.
  - rewrite <- list_fmap_compose. exact Hnd.
Qed.

Lemma shard_new_inv cap : (1 <= cap)%nat -> shard_inv (shard_new cap).
Proof.
  intros Hc. destruct (lru_view_new cap) as [Hv Hcap].
  split_and!; cbn [shard_new rs_queue rs_cache rs_capacity length]; try done; [apply NoDup_nil_2 | lia].
Qed.

Lemma evict_spec s :
  shard_inv s -> shard_inv (evict_queue_front s) /\ rs_queue (evict_queue_front s) = tail (rs_queue s) /\
  rs_capacity (evict_queue_front s) = rs_capacity s.
Proof.
  intros Hs. pose proof Hs as (Hnd & Hv & Hl & Hc & H1). unfold evict_queue_front.
  destruct (rs_queue s) as [|[[ts key] seq] q] eqn:Hq; [by rewrite Hq|].
  cbn [keys fmap list_fmap entry_key fst snd] in Hnd, Hv. apply list.NoDup_cons in Hnd as [Hni Hnd].
  rewrite list_to_map_cons in Hv.
  change (entry_key (ts, key, seq)) with (key_as_slice key) in *. cbn [snd] in Hv.
  rewrite lru_peek_view, Hv, lookup_insert_eq, Z.eqb_refl.
  destruct (lru_pop_view (key_as_slice key) (rs_cache s)) as [Hpv Hpc].
  split; [|done]. split_and!; cbn [rs_queue rs_cache rs_capacity]; try done; cbn [length] in *; try (congruence || lia).
  rewrite Hpv, Hv. apply delete_insert_id. apply not_elem_of_list_to_map_1.
  by rewrite <- list_fmap_compose.
Qed.

(** What [cleanup] leaves: the longest suffix that starts at a kept entry. *)
Fixpoint drop_old {A} (time : A -> Z) (cutoff : Z) (q : list A) : list A :=
  match q with
  | [] => []
  | e :: q' => if cutoff <=? time e then q else drop_old time cutoff q'
  end.

Lemma drop_old_fmap {A B} (f : A -> B) (tA : A -> Z) (tB : B -> Z) cutoff (q : list A) :
  (forall a, tB (f a) = tA a) -> f <$> drop_old tA cutoff q = drop_old tB cutoff (f <$> q).
Proof.
  intros Hf. induction q as [|e q IH]; [done|]. cbn [drop_old fmap list_fmap]. rewrite Hf.
  by destruct (cutoff <=? tA e).
Qed.

Lemma cleanup_loop_spec fuel cutoff s :
  shard_inv s -> (length (rs_queue s) <= fuel)%nat ->
  shard_inv (cleanup_loop fuel cutoff s) /\
  rs_queue (cleanup_loop fuel cutoff s) = drop_old entry_time cutoff (rs_queue s) /\
  rs_capacity (cleanup_loop fuel cutoff s) = rs_capacity s.
Proof.
  revert s. induction fuel as [|fuel IH]; intros s Hs Hf.
  { split; [done|]. cbn [cleanup_loop]. by destruct (rs_queue s); [|cbn in Hf; lia]. }
  cbn [cleanup_loop]. destruct (evict_spec s Hs) as (He & Hq & Hc).
  destruct (rs_queue s) as [|[[ts key] seq] q] eqn:Hqs; [by rewrite Hqs|].
  cbn [drop_old]. change (entry_time (ts, key, seq)) with ts.
  destruct (cutoff <=? ts); [by rewrite Hqs|].
  cbn [tail] in Hq. destruct (IH _ He) as (? & -> & ->); [rewrite Hq; cbn in Hf; lia|].
  by rewrite Hq.
Qed.

Lemma cleanup_spec now window s :
  shard_inv s -> window <> 0 ->
  shard_inv (cleanup instant_min now window s) /\
  rs_queue (cleanup instant_min now window s) =
    drop_old entry_time (cleanup_cutoff instant_min now window) (rs_queue s) /\
  rs_capacity (cleanup instant_min now window s) = rs_capacity s.
Proof.
  intros Hs Hw. unfold cleanup. rewrite (proj2 (Z.eqb_neq _ _) Hw). by apply cleanup_loop_spec.
Qed.

Lemma cleanup_inv now window s : shard_inv s -> shard_inv (cleanup instant_min now window s).
Proof.
  intros Hs. destruct (decide (window = 0)) as [->|Hw]; [|by apply cleanup_spec].
  destruct (lru_clear_view (rs_cache s)) as [Hv Hc]. pose proof Hs as (_ & _ & _ & Hcap & H1).
  unfold cleanup. cbn [Z.eqb].
  split_and!; cbn [rs_queue rs_cache rs_capacity length]; try (done || congruence || lia). apply NoDup_nil_2.
Qed.

Lemma make_room_spec fuel s :
  shard_inv s -> (length (rs_queue s) <= fuel)%nat ->
  shard_inv (make_room fuel s) /\
  rs_queue (make_room fuel s) = drop (S (length (rs_queue s)) - rs_capacity s) (rs_queue s) /\
  rs_capacity (make_room fuel s) = rs_capacity s.
Proof.
  revert s. induction fuel as [|fuel IH]; intros s Hs Hf; pose proof Hs as (_ & _ & Hl & _ & H1); cbn [make_room].
  { destruct (rs_queue s); [by rewrite drop_nil | cbn in Hf; lia]. }
  destruct (Nat.leb_spec (rs_capacity s) (length (rs_queue s))) as [Hle|Hgt].
  - destruct (evict_spec s Hs) as (He & Hq & Hc).
    destruct (rs_queue s) as [|e q] eqn:Hqs; [cbn in Hle; lia|]. cbn [tail length] in *.
    destruct (IH _ He) as (Hi & Hq2 & Hc2); [rewrite Hq; lia|]. split; [done|].
    rewrite Hq2, Hc2, Hc, Hq. split; [|done].
    replace (S (S (length q)) - rs_capacity s)%nat with (S (S (length q) - rs_capacity s)) by lia. done.
  - by replace (S (length (rs_queue s)) - rs_capacity s)%nat with 0%nat by lia.
Qed.

(** [check] answers whether the key is remembered after the cleanup. *)
Lemma shard_check_spec key now window s :
  shard_inv s -> window <> 0 ->
  let q := drop_old entry_time (cleanup_cutoff instant_min now window) (rs_queue s) in
  let r := shard_check instant_min key now window s in
  r.1 = bool_decide (key ∈ keys q) /\ shard_inv r.2 /\ rs_queue r.2 = q /\ rs_capacity r.2 = rs_capacity s.
Proof.
  intros Hs Hw q r. unfold r, shard_check. rewrite (proj2 (Z.eqb_neq _ _) Hw).
  destruct (cleanup_spec now window s Hs Hw) as (Hi & Hq & Hc).
  set (s' := cleanup instant_min now window s) in *.
  destruct (lru_get_view key (rs_cache s')) as (Hg & Hgv & Hgc).
  destruct (lru_get key (rs_cache s')) as [found cache]. cbn [fst snd] in *. split_and!.
  - rewrite Hg. apply bool_decide_ext. rewrite view_lookup by done. by rewrite Hq.
  - destruct Hi as (Hnd & Hv & Hl & Hcap & H1). split_and!; cbn [rs_queue rs_cache rs_capacity]; congruence.
  - done.
  - done.
Qed.

(** [add_owned] appends the key unless it is remembered, dropping the oldest
    entries only when the shard is full. *)
Definition added (cap : nat) (cutoff now : Z) (key : list Z) (r : list (Z * list Z)) : list (Z * list Z) :=
  let r := drop_old fst cutoff r in
  if bool_decide (key ∈ r.*2) then r else drop (S (length r) - cap) r ++ [(now, key)].

Lemma remembered_keys s : (remembered s).*2 = keys (rs_queue s).
Proof. unfold remembered, keys. by rewrite <- list_fmap_compose. Qed.

Lemma add_owned_spec key now window s :
  shard_inv s -> window <> 0 ->
  let s' := add_owned instant_min (key_from_slice key) now window s in
  shard_inv s' /\ rs_capacity s' = rs_capacity s /\
  remembered s' = added (rs_capacity s) (cleanup_cutoff instant_min now window) now key (remembered s).
Proof.
  intros Hs Hw s'. unfold s', add_owned. rewrite (proj2 (Z.eqb_neq _ _) Hw).
  destruct (cleanup_spec now window s Hs Hw) as (Hi & Hq & Hc).
  set (s1 := cleanup instant_min now window s) in *. rewrite key_roundtrip, lru_peek_view.
  assert (drop_old fst (cleanup_cutoff instant_min now window) (remembered s) = remembered s1) as Hr1.
  { unfold remembered. rewrite Hq. symmetry. by apply drop_old_fmap. }
  unfold added. rewrite Hr1, remembered_keys.
  rewrite (bool_decide_ext _ _ (view_lookup s1 key Hi)).
  case_bool_decide as Hin; [done|].
  destruct (make_room_spec (length (rs_queue s1)) s1 Hi (le_n _)) as (Hi2 & Hq2 & Hc2).
  set (s2 := make_room _ s1) in *. cbn [next_seq].
  pose proof Hi2 as (Hnd & Hv & Hl & Hcap & H1).
  assert (key ∉ keys (rs_queue s2)) as Hni.
  { rewrite Hq2. intros Hk. apply Hin. unfold keys in *. rewrite fmap_drop in Hk.
    by apply (elem_of_submseteq _ _ _ Hk), sublist_submseteq, sublist_drop. }
  assert (length (rs_queue s2) < rs_capacity s2)%nat as Hroom.
  { rewrite Hq2, length_drop, Hc2. pose proof Hi as (_ & _ & _ & _ & ?). lia. }
  destruct (lru_put_view key ((rs_seq_counter s2 + 1) mod 2 ^ 64) (rs_cache s2)) as [Hpv Hpc].
  { rewrite view_size by done. lia. }
  split; [|split].
  - split_and!; cbn [rs_queue rs_cache rs_capacity]; try done; try congruence.
    + unfold keys in *. rewrite fmap_app. apply list.NoDup_app. split_and!; [done | | apply NoDup_singleton].
      cbn [fmap list_fmap]. rewrite entry_key_new.
      intros x Hx ->%list_elem_of_singleton. done.
    + rewrite Hpv, Hv, fmap_app, list_to_map_app. cbn [fmap list_fmap]. rewrite list_to_map_cons, list_to_map_nil.
      rewrite entry_key_new, insert_empty.
      rewrite <- insert_union_singleton_r; [done|]. apply not_elem_of_list_to_map_1.
      by rewrite <- list_fmap_compose.
    + rewrite length_app. cbn [length]. lia.
  - cbn [rs_capacity]. congruence.
  - unfold remembered. cbn [rs_queue]. rewrite fmap_app, Hq2, fmap_drop, length_fmap, Hc.
    f_equal. cbn [fmap list_fmap]. by rewrite entry_key_new.
Qed.
End shard_lemmas.
