(* ===== verification/ReplayRun.v ===== *)
(** Runs of the replay checker: what a later check finds of an earlier addition,
    over any interleaving of calls on both families of shards. *)

From stdpp Require Import base list gmap numbers sorting.
From S2P Require Import Prelude Replay.
Local Open Scope Z_scope.

(** * Calls *)

#[export] Instance ReplayKind_eq_dec : EqDecision ReplayKind.
Proof. solve_decision. Defined.

Inductive ReplayOp :=
  | OpCheckAdd (kind : ReplayKind) (data : list Z) (now : Z)
  | OpCheck (kind : ReplayKind) (data : list Z) (now : Z)
  | OpAdd (kind : ReplayKind) (data : list Z) (now : Z)
  | OpCleanup (now : Z).

Definition op_time (op : ReplayOp) : Z :=
  match op with OpCheckAdd _ _ t | OpCheck _ _ t | OpAdd _ _ t | OpCleanup t => t end.

(** The key a call may add, with its family and time. *)
Definition op_addition (op : ReplayOp) : option (ReplayKind * list Z * Z) :=
  match op with
  | OpCheckAdd kind data now | OpAdd kind data now => Some (kind, data, now)
  | _ => None
  end.

Section run.
Context {L : Type} `{LruCacheLaws L}.
Context (instant_min : Z) (hash : list Z -> Z).
Implicit Types (c : ReplayChecker L) (s : ReplayShard L) (kind : ReplayKind).

Definition exec_op (op : ReplayOp) c : option (ReplayChecker L) :=
  match op with
  | OpCheckAdd kind data now => snd <$> check_and_add_internal instant_min hash kind data now c
  | OpCheck kind data now => snd <$> check_only_internal instant_min hash kind data now c
  | OpAdd kind data now => add_only instant_min hash kind data now c
  | OpCleanup now => Some (periodic_cleanup instant_min now c)
  end.

Fixpoint exec_ops (ops : list ReplayOp) c : option (ReplayChecker L) :=
  match ops with
  | [] => Some c
  | op :: ops => exec_op op c ≫= exec_ops ops
  end.

(** * The checker as families of shards *)

Definition family_ok (cap : nat) (shards : list (ReplayShard L)) : Prop :=
  length shards = num_shards /\ Forall (fun s => shard_inv s /\ rs_capacity s = cap) shards.

Definition checker_inv (cap : nat) c : Prop :=
  family_ok cap (rc_handshake_shards c) /\ family_ok cap (rc_tls_shards c) /\ rc_shard_mask c = 63.

Lemma checker_inv_family cap c kind : checker_inv cap c -> family_ok cap (shards_of kind c).
Proof. intros (? & ? & _). by destruct kind. Qed.

Definition idx_of (data : list Z) : nat := Z.to_nat (Z.land (hash data) 63).

Lemma idx_of_lt data : (idx_of data < num_shards)%nat.
Proof.
  unfold idx_of, num_shards. change 63 with (Z.ones 6). rewrite Z.land_ones by lia.
  pose proof (Z.mod_pos_bound (hash data) (2 ^ 6) ltac:(lia)). lia.
Qed.

Lemma family_shard cap shards data : family_ok cap shards ->
  exists s, shards !! idx_of data = Some s /\ shard_inv s /\ rs_capacity s = cap.
Proof.
  intros [Hl Hs]. destruct (lookup_lt_is_Some_2 shards (idx_of data)) as [s Hlk].
  { rewrite Hl. apply idx_of_lt. }
  exists s. split; [done|]. by apply (Forall_lookup_1 _ _ _ _ Hs Hlk).
Qed.

Lemma family_insert cap shards i s : family_ok cap shards -> shard_inv s -> rs_capacity s = cap ->
  family_ok cap (<[i := s]> shards).
Proof. intros [Hl Hs] Hi Hc. split; [by rewrite length_insert | by apply Forall_insert]. Qed.

(** * One step on one shard *)

(** The effect of a call on the shard [i] of a family: nothing, or one of the
    three shard operations at the time of the call. *)
Inductive shard_step (kind : ReplayKind) (i : nat) (w : Z) (op : ReplayOp) : ReplayShard L -> ReplayShard L -> Prop :=
  | step_none s : shard_step kind i w op s s
  | step_check data s : shard_step kind i w op s (shard_check instant_min data (op_time op) w s).2
  | step_add data s :
      op_addition op = Some (kind, data, op_time op) -> idx_of data = i ->
      shard_step kind i w op s (add_owned instant_min (key_from_slice data) (op_time op) w s)
  | step_check_add data s :
      op_addition op = Some (kind, data, op_time op) -> idx_of data = i ->
      shard_step kind i w op s
        (add_owned instant_min (key_from_slice data) (op_time op) w
          (shard_check instant_min data (op_time op) w s).2)
  | step_cleanup s : shard_step kind i w op s (cleanup instant_min (op_time op) w s).

Lemma with_shards_of kind kind' shards c :
  shards_of kind (with_shards kind' shards c) = if decide (kind = kind') then shards else shards_of kind c.
Proof. by destruct kind, kind'. Qed.

Lemma count_shards kind a b d e c : shards_of kind (count a b d e c) = shards_of kind c.
Proof. by destruct kind. Qed.

Lemma with_shards_other kind shards c :
  rc_shard_mask (with_shards kind shards c) = rc_shard_mask c /\
  (forall k, window_of k (with_shards kind shards c) = window_of k c).
Proof. destruct kind; (split; [done | by intros []]). Qed.

Lemma insert_step kind kind' i j w op shards s s' c :
  shards_of kind' c = shards -> shards !! j = Some s ->
  (kind = kind' -> i = j -> shard_step kind i w op s s') ->
  forall x, shards_of kind c !! i = Some x ->
  exists y, shards_of kind (with_shards kind' (<[j := s']> shards) c) !! i = Some y /\ shard_step kind i w op x y.
Proof.
  intros Hsh Hj Hstep x Hx. rewrite with_shards_of. case_decide as Hk; [|exists x; split; [done | constructor]].
  subst kind'. rewrite Hsh in Hx. destruct (decide (i = j)) as [->|Hne].
  - rewrite list_lookup_insert_eq by (by eapply lookup_lt_Some). exists s'. split; [done|].
    assert (x = s) as -> by congruence. by apply Hstep.
  - rewrite list_lookup_insert_ne by done. exists x. split; [done | constructor].
Qed.

Lemma shard_step_inv kind i w op s s' :
  shard_step kind i w op s s' -> shard_inv s -> shard_inv s' /\ rs_capacity s' = rs_capacity s.
Proof.
  assert (forall data t x, shard_inv x ->
    shard_inv (shard_check instant_min data t w x).2 /\
    rs_capacity (shard_check instant_min data t w x).2 = rs_capacity x) as Hcheck.
  { intros data t x Hx. destruct (decide (w = 0)) as [->|Hw]; [done|].
    by destruct (shard_check_spec instant_min data t w x Hx Hw) as (_ & ? & _ & ?). }
  assert (forall data t x, shard_inv x ->
    shard_inv (add_owned instant_min (key_from_slice data) t w x) /\
    rs_capacity (add_owned instant_min (key_from_slice data) t w x) = rs_capacity x) as Hadd.
  { intros data t x Hx. destruct (decide (w = 0)) as [->|Hw]; [done|].
    by destruct (add_owned_spec instant_min data t w x Hx Hw) as (? & ? & _). }
  destruct 1 as [s|data s|data s ? ?|data s ? ?|s]; intros Hs; [done | by apply Hcheck | by apply Hadd | |].
  - destruct (Hcheck data (op_time op) s Hs) as [Hi Hc]. destruct (Hadd data (op_time op) _ Hi) as [? Hc']. by rewrite Hc'.
  - split; [by apply cleanup_inv|]. destruct (decide (w = 0)) as [->|Hw]; [done|].
    by apply cleanup_spec.
Qed.

(** The part of the state that no call changes. *)
Definition same_config c c' : Prop :=
  rc_shard_mask c' = rc_shard_mask c /\ forall kind, window_of kind c' = window_of kind c.

(** Every call succeeds, keeps the invariant, and acts on each shard by a step. *)
Definition steps (op : ReplayOp) c c' : Prop :=
  same_config c c' /\
  forall kind, length (shards_of kind c') = length (shards_of kind c) /\
    forall i x, shards_of kind c !! i = Some x ->
      exists y, shards_of kind c' !! i = Some y /\ shard_step kind i (window_of kind c) op x y.

(** States that differ in the counters only. *)
Definition eqv c c' : Prop := same_config c c' /\ forall kind, shards_of kind c' = shards_of kind c.

Lemma eqv_refl c : eqv c c.
Proof. by split. Qed.

Lemma eqv_count a b d e c : eqv c (count a b d e c).
Proof. split; [split; [done | by intros []] | by intros []]. Qed.

Lemma steps_eqv op c c1 c1' c' : eqv c c1 -> steps op c1 c1' -> eqv c1' c' -> steps op c c'.
Proof.
  intros [[Hm Hw] Hs] [[Hm1 Hw1] Hst] [[Hm' Hw'] Hs']. split.
  - split; [congruence|]. intros k. by rewrite Hw', Hw1, Hw.
  - intros k. rewrite Hs', <- Hs, <- Hw. apply Hst.
Qed.

Lemma steps_insert op kind j s s' c :
  shards_of kind c !! j = Some s -> shard_step kind j (window_of kind c) op s s' ->
  steps op c (with_shards kind (<[j := s']> (shards_of kind c)) c).
Proof.
  intros Hj Hstep. destruct (with_shards_other kind (<[j := s']> (shards_of kind c)) c) as [Hm Hw].
  split; [done|]. intros k. split.
  - rewrite with_shards_of. case_decide as Hk; [|done]. subst. by rewrite length_insert.
  - intros i. eapply insert_step; [done | done |]. by intros <- ->.
Qed.

Lemma steps_inv cap op c c' : steps op c c' -> checker_inv cap c -> checker_inv cap c'.
Proof.
  intros [[Hm _] Hs] Hc.
  assert (forall kind, family_ok cap (shards_of kind c')) as Hf.
  { intros kind. destruct (checker_inv_family cap c kind Hc) as [Hl Hok]. destruct (Hs kind) as [Hlen Hstep].
    split; [congruence|]. apply Forall_lookup_2. intros i y Hy.
    destruct (lookup_lt_is_Some_2 (shards_of kind c) i) as [x Hx].
    { rewrite <- Hlen. by eapply lookup_lt_Some. }
    destruct (Hstep i x Hx) as (y' & Hy' & Hst). assert (y' = y) as -> by congruence.
    destruct (Forall_lookup_1 _ _ _ _ Hok Hx) as [Hi Hcap].
    destruct (shard_step_inv _ _ _ _ _ _ Hst Hi) as [? Hc']. split; [done | congruence]. }
  destruct Hc as (_ & _ & Hmask). split_and!; [apply (Hf Handshake) | apply (Hf TlsDigest) | congruence].
Qed.

Lemma eqv_idx data c c1 : eqv c c1 -> rc_shard_mask c = 63 -> get_shard_idx hash data c1 = idx_of data.
Proof. intros [[Hm _] _] Hc. unfold get_shard_idx, idx_of. by rewrite Hm, Hc. Qed.

Lemma exec_op_steps cap op c :
  checker_inv cap c -> exists c', exec_op op c = Some c' /\ steps op c c'.
Proof.
  intros Hc. pose proof Hc as (_ & _ & Hmask).
  destruct op as [kind data now|kind data now|kind data now|now]; cbn [exec_op];
    [destruct (family_shard cap _ data (checker_inv_family cap c kind Hc)) as (s & Hs & _)..|].
  - unfold check_and_add_internal. pose proof (eqv_count 1 0 0 0 c) as He.
    set (c1 := count 1 0 0 0 c) in *. rewrite (eqv_idx data c c1 He Hmask).
    assert (shards_of kind c1 !! idx_of data = Some s) as Hs1 by (by rewrite (proj2 He)). rewrite Hs1.
    rewrite (surjective_pairing (shard_check _ _ _ _ s)).
    destruct (shard_check instant_min data now (window_of kind c1) s).1; cbn [fmap option_fmap option_map snd];
      eexists; (split; [reflexivity|]); (eapply steps_eqv; [exact He | | apply eqv_count]);
      apply (steps_insert _ _ _ s); try done.
    + apply (step_check _ _ _ (OpCheckAdd kind data now)).
    + by apply (step_check_add _ _ _ (OpCheckAdd kind data now)).
  - unfold check_only_internal. pose proof (eqv_count 1 0 0 0 c) as He.
    set (c1 := count 1 0 0 0 c) in *. rewrite (eqv_idx data c c1 He Hmask).
    assert (shards_of kind c1 !! idx_of data = Some s) as Hs1 by (by rewrite (proj2 He)). rewrite Hs1.
    rewrite (surjective_pairing (shard_check _ _ _ _ s)). cbn [fmap option_fmap option_map snd].
    assert (steps (OpCheck kind data now) c1
      (with_shards kind (<[idx_of data := (shard_check instant_min data now (window_of kind c1) s).2]>
        (shards_of kind c1)) c1)) as Hst.
    { apply (steps_insert _ _ _ s); [done|]. apply (step_check _ _ _ (OpCheck kind data now)). }
    eexists. split; [reflexivity|]. eapply steps_eqv; [exact He | exact Hst |].
    destruct (shard_check instant_min data now (window_of kind c1) s).1; [apply eqv_count | apply eqv_refl].
  - unfold add_only. pose proof (eqv_count 0 0 1 0 c) as He.
    set (c1 := count 0 0 1 0 c) in *. rewrite (eqv_idx data c c1 He Hmask).
    assert (shards_of kind c1 !! idx_of data = Some s) as Hs1 by (by rewrite (proj2 He)). rewrite Hs1.
    eexists. split; [reflexivity|]. eapply steps_eqv; [exact He | | apply eqv_refl].
    apply (steps_insert _ _ _ s); [done|]. by apply (step_add _ _ _ (OpAdd kind data now)).
  - eexists. split; [reflexivity|]. unfold periodic_cleanup.
    eapply (steps_eqv _ _ c); [apply eqv_refl | | apply eqv_count]. split; [by split; [|intros []]|].
    intros []; cbn [with_shards shards_of rc_handshake_shards rc_tls_shards rc_window rc_tls_window window_of];
      (split; [apply length_fmap|]); intros i x Hx; rewrite list_lookup_fmap, Hx; cbn [fmap option_fmap option_map];
      eexists; (split; [reflexivity|]); apply (step_cleanup _ _ _ (OpCleanup now)).
Qed.

Lemma exec_ops_cons op ops c c' : exec_op op c = Some c' -> exec_ops (op :: ops) c = exec_ops ops c'.
Proof. intros Ho. cbn [exec_ops]. by rewrite Ho. Qed.

(** * What is kept *)

(** The shard remembers [key] since time [t], with at most [n] younger keys. *)
Definition holds (r : list (Z * list Z)) (t : Z) (key : list Z) (n : nat) : Prop :=
  exists pre post, r = pre ++ (t, key) :: post /\ (length post <= n)%nat.

Lemma holds_drop_old r t key n cutoff :
  cutoff <= t -> holds r t key n -> holds (drop_old fst cutoff r) t key n.
Proof.
  intros Hc (pre & post & -> & Hl). induction pre as [|[ts k] pre IH]; cbn [app drop_old fst].
  - rewrite (proj2 (Z.leb_le _ _) Hc). by exists [], post.
  - destruct (cutoff <=? ts); [by exists ((ts, k) :: pre), post | done].
Qed.

Lemma holds_added cap cutoff now k r t key n :
  cutoff <= t -> (S n < cap)%nat -> holds r t key n -> holds (added cap cutoff now k r) t key (S n).
Proof.
  intros Hc Hn Hh. unfold added. apply (holds_drop_old _ _ _ _ cutoff) in Hh; [|done].
  destruct Hh as (pre & post & -> & Hl).
  case_bool_decide; [by exists pre, post; split; [|lia]|].
  rewrite drop_app_le.
  - exists (drop (S (length (pre ++ (t, key) :: post)) - cap) pre), (post ++ [(now, k)]).
    rewrite <- app_assoc. split; [done|]. rewrite length_app. cbn [length]. lia.
  - rewrite length_app. cbn [length]. lia.
Qed.

(** Whether a call may add a key to shard [i] of a family. *)
Definition adds_to kind (i : nat) (op : ReplayOp) : nat :=
  match op_addition op with
  | Some (k, d, _) => if decide (k = kind /\ idx_of d = i) then 1%nat else 0%nat
  | None => 0%nat
  end.

Lemma adds_to_step kind i op data :
  op_addition op = Some (kind, data, op_time op) -> idx_of data = i -> adds_to kind i op = 1%nat.
Proof. intros Ho Hi. unfold adds_to. rewrite Ho. by rewrite decide_True. Qed.

Lemma remembered_check data now w s :
  shard_inv s -> w <> 0 ->
  remembered (shard_check instant_min data now w s).2 =
  drop_old fst (cleanup_cutoff instant_min now w) (remembered s).
Proof.
  intros Hs Hw. destruct (shard_check_spec instant_min data now w s Hs Hw) as (_ & _ & Hq & _).
  unfold remembered. rewrite Hq. by apply drop_old_fmap.
Qed.

Lemma remembered_cleanup now w s :
  shard_inv s -> w <> 0 ->
  remembered (cleanup instant_min now w s) = drop_old fst (cleanup_cutoff instant_min now w) (remembered s).
Proof.
  intros Hs Hw. destruct (cleanup_spec instant_min now w s Hs Hw) as (_ & Hq & _).
  unfold remembered. rewrite Hq. by apply drop_old_fmap.
Qed.

Lemma step_holds kind i w op s s' t key n :
  shard_step kind i w op s s' -> shard_inv s -> w <> 0 ->
  cleanup_cutoff instant_min (op_time op) w <= t ->
  (n + adds_to kind i op < rs_capacity s)%nat -> holds (remembered s) t key n ->
  holds (remembered s') t key (n + adds_to kind i op)%nat.
Proof.
  intros Hst Hs Hw Hc. assert (forall r a, holds r t key n -> holds r t key (n + a)) as Hmono.
  { intros r a (pre & post & -> & Hl). exists pre, post. split; [done | lia]. }
  destruct Hst as [s|data s|data s Ho Hi|data s Ho Hi|s]; intros Hn Hh.
  - by apply Hmono.
  - rewrite remembered_check by done. by apply Hmono, holds_drop_old.
  - rewrite (adds_to_step _ _ _ _ Ho Hi), Nat.add_1_r in *.
    destruct (add_owned_spec instant_min data (op_time op) w s Hs Hw) as (_ & _ & ->). by apply holds_added.
  - rewrite (adds_to_step _ _ _ _ Ho Hi), Nat.add_1_r in *.
    destruct (shard_check_spec instant_min data (op_time op) w s Hs Hw) as (_ & Hi2 & _ & Hcap).
    destruct (add_owned_spec instant_min data (op_time op) w _ Hi2 Hw) as (_ & _ & ->).
    rewrite remembered_check, Hcap by done. apply holds_added; [done | done |]. by apply holds_drop_old.
  - rewrite remembered_cleanup by done. by apply Hmono, holds_drop_old.
Qed.

(** The times at which an entry of time [t] is not yet old, far enough from the
    first instant for the window to be subtracted; closer to it the code forgets
    older keys at once. *)
Definition in_window (w t now : Z) : Prop := instant_min + w <= now <= t + w.

Lemma in_window_cutoff w t now : in_window w t now -> cleanup_cutoff instant_min now w <= t.
Proof. unfold in_window, cleanup_cutoff. intros Hw. destruct (Z.ltb_spec (now - w) instant_min); lia. Qed.

Definition additions kind (i : nat) (ops : list ReplayOp) : nat :=
  foldr (fun op n => adds_to kind i op + n)%nat 0%nat ops.

Lemma run_holds cap ops c kind i s t key n :
  checker_inv cap c -> window_of kind c <> 0 ->
  Forall (fun op => in_window (window_of kind c) t (op_time op)) ops ->
  (n + additions kind i ops < cap)%nat ->
  shards_of kind c !! i = Some s -> holds (remembered s) t key n ->
  exists c' s', exec_ops ops c = Some c' /\ checker_inv cap c' /\ window_of kind c' = window_of kind c /\
    shards_of kind c' !! i = Some s' /\ holds (remembered s') t key (n + additions kind i ops).
Proof.
  revert c s n. induction ops as [|op ops IH]; intros c s n Hc Hw Ht Hn Hs Hh.
  { exists c, s. cbn [additions foldr]. by rewrite Nat.add_0_r. }
  apply Forall_cons_1 in Ht as [Ht0 Ht]. cbn [additions foldr] in Hn. fold (additions kind i ops) in Hn.
  destruct (exec_op_steps cap op c Hc) as (c1 & Hop & Hst).
  pose proof (steps_inv _ _ _ _ Hst Hc) as Hc1. destruct Hst as [[_ Hwin] Hst].
  destruct (proj2 (Hst kind) i s Hs) as (s1 & Hs1 & Hstep).
  pose proof (checker_inv_family cap c kind Hc) as [_ Hok].
  destruct (Forall_lookup_1 _ _ _ _ Hok Hs) as [Hsi Hcap].
  assert (holds (remembered s1) t key (n + adds_to kind i op)) as Hh1.
  { eapply step_holds; try done; [by apply in_window_cutoff | lia]. }
  destruct (IH c1 s1 (n + adds_to kind i op)%nat) as (c' & s' & Hrun & Hc' & Hw' & Hs' & Hh');
    try done; try (rewrite Hwin; done); [lia|].
  exists c', s'. rewrite (exec_ops_cons _ _ _ _ Hop). split_and!; try done; [congruence|].
  cbn [additions foldr]. fold (additions kind i ops). by rewrite Nat.add_assoc.
Qed.

(** What the public calls answer. *)
Lemma check_and_add_answer cap kind data now c s :
  checker_inv cap c -> window_of kind c <> 0 -> shards_of kind c !! idx_of data = Some s ->
  let found := bool_decide (data ∈ (drop_old fst (cleanup_cutoff instant_min now (window_of kind c)) (remembered s)).*2) in
  fst <$> check_and_add_internal instant_min hash kind data now c = Some found /\
  fst <$> check_only_internal instant_min hash kind data now c = Some found.
Proof.
  intros Hc Hw Hs found. pose proof Hc as (_ & _ & Hmask).
  pose proof (checker_inv_family cap c kind Hc) as [_ Hok].
  destruct (Forall_lookup_1 _ _ _ _ Hok Hs) as [Hsi _].
  destruct (shard_check_spec instant_min data now (window_of kind c) s Hsi Hw) as (Hf & _ & Hq & _).
  assert ((shard_check instant_min data now (window_of kind c) s).1 = found) as Hfound.
  { rewrite Hf. unfold found. rewrite <- (remembered_check data) by done. by rewrite remembered_keys, Hq. }
  unfold check_and_add_internal, check_only_internal. pose proof (eqv_count 1 0 0 0 c) as He.
  set (c1 := count 1 0 0 0 c) in *. rewrite (eqv_idx data c c1 He Hmask).
  rewrite (proj2 He), Hs, (proj2 (proj1 He)).
  destruct (shard_check instant_min data now (window_of kind c) s) as [b s']. cbn [fst] in Hfound. subst b.
  by destruct found.
Qed.

Lemma holds_elem r t key n : holds r t key n -> key ∈ r.*2.
Proof. intros (pre & post & -> & _). rewrite fmap_app. apply elem_of_app. right. apply list_elem_of_here. Qed.

(** * Where remembered keys come from *)

Definition history (ops : list ReplayOp) : list (ReplayKind * list Z * Z) := omap op_addition ops.

(** Oldest first, none later than [T], each one added by a call. *)
Definition sourced kind (hist : list (ReplayKind * list Z * Z)) (T : Z) (r : list (Z * list Z)) : Prop :=
  StronglySorted Z.le r.*1 /\ Forall (fun e => e.1 <= T /\ (kind, e.2, e.1) ∈ hist) r.

Lemma sourced_weaken kind hist hist' T T' r :
  T <= T' -> hist ⊆ hist' -> sourced kind hist T r -> sourced kind hist' T' r.
Proof.
  intros HT Hh [Hs Hf]. split; [done|]. eapply Forall_impl; [exact Hf|].
  intros e [He Hin]. split; [lia | by apply Hh].
Qed.

Lemma sourced_suffix kind hist T pre r : sourced kind hist T (pre ++ r) -> sourced kind hist T r.
Proof.
  intros [Hs Hf]. apply Forall_app in Hf as [_ Hf]. split; [|done].
  induction pre as [|e pre IH]; [done|]. apply IH. cbn in Hs. by apply StronglySorted_inv in Hs as [? _].
Qed.

Lemma drop_old_suffix {A} (time : A -> Z) cutoff r : exists pre, r = pre ++ drop_old time cutoff r.
Proof.
  induction r as [|e r [pre IH]]; [by exists []|]. cbn [drop_old].
  destruct (cutoff <=? time e); [by exists [] |]. exists (e :: pre). cbn. by rewrite <- IH.
Qed.

Lemma sourced_drop_old kind hist T cutoff r :
  sourced kind hist T r ->
  sourced kind hist T (drop_old fst cutoff r) /\ Forall (fun e => cutoff <= e.1) (drop_old fst cutoff r).
Proof.
  intros Hr. split.
  { destruct (drop_old_suffix fst cutoff r) as [pre Heq]. rewrite Heq in Hr. by eapply sourced_suffix. }
  destruct Hr as [Hs _]. induction r as [|e r IH]; [constructor|]. cbn [drop_old fmap list_fmap] in *.
  apply StronglySorted_inv in Hs as [Hs He].
  destruct (Z.leb_spec cutoff e.1) as [Hle|]; [|by apply IH].
  constructor; [done|]. rewrite Forall_fmap in He. eapply Forall_impl; [exact He|]. cbn. lia.
Qed.

Lemma sourced_added kind hist cap cutoff now k r :
  sourced kind hist now r -> (kind, k, now) ∈ hist -> sourced kind hist now (added cap cutoff now k r).
Proof.
  intros Hr Hin. unfold added. destruct (sourced_drop_old kind hist now cutoff r Hr) as [Hd _].
  set (d := drop_old fst cutoff r) in *. case_bool_decide; [done|].
  rewrite <- (take_drop (S (length d) - cap) d) in Hd. apply sourced_suffix in Hd as [Hs Hf].
  split.
  - rewrite fmap_app. apply StronglySorted_app_2; [| done | repeat constructor].
    intros x y Hx ->%list_elem_of_singleton. apply list_elem_of_fmap in Hx as (e & -> & He).
    rewrite Forall_forall in Hf. cbn. apply (Hf e He).
  - apply Forall_app. split; [done|]. constructor; [|constructor]. cbn. split; [lia | done].
Qed.

Lemma step_sourced kind i w op s s' hist T :
  shard_step kind i w op s s' -> shard_inv s -> T <= op_time op ->
  (forall a, op_addition op = Some a -> a ∈ hist) ->
  sourced kind hist T (remembered s) -> sourced kind hist (op_time op) (remembered s').
Proof.
  intros Hst Hs HT Hop Hr. apply (sourced_weaken kind hist hist T (op_time op)) in Hr; [|done|set_solver].
  destruct (decide (w = 0)) as [->|Hw].
  { destruct Hst as [s|data s|data s Ho Hi|data s Ho Hi|s]; try done.
    split; [apply SSorted_nil | constructor]. }
  destruct Hst as [s|data s|data s Ho Hi|data s Ho Hi|s].
  - done.
  - rewrite remembered_check by done. by apply sourced_drop_old.
  - destruct (add_owned_spec instant_min data (op_time op) w s Hs Hw) as (_ & _ & ->).
    apply sourced_added; [done | by apply Hop].
  - destruct (shard_check_spec instant_min data (op_time op) w s Hs Hw) as (_ & Hi2 & _ & Hcap).
    destruct (add_owned_spec instant_min data (op_time op) w _ Hi2 Hw) as (_ & _ & ->).
    rewrite remembered_check by done. apply sourced_added; [by apply sourced_drop_old | by apply Hop].
  - rewrite remembered_cleanup by done. by apply sourced_drop_old.
Qed.

Definition all_sourced hist T c : Prop :=
  forall kind i s, shards_of kind c !! i = Some s -> sourced kind hist T (remembered s).

(** The calls happen in time order, from [T] on. *)
Fixpoint in_order (T : Z) (ops : list ReplayOp) : Prop :=
  match ops with
  | [] => True
  | op :: ops => T <= op_time op /\ in_order (op_time op) ops
  end.

Definition end_time (T : Z) (ops : list ReplayOp) : Z := foldl (fun _ op => op_time op) T ops.

Lemma run_sourced cap ops hist T c :
  checker_inv cap c -> in_order T ops -> all_sourced hist T c -> history ops ⊆ hist ->
  exists c', exec_ops ops c = Some c' /\ checker_inv cap c' /\ same_config c c' /\
    all_sourced hist (end_time T ops) c'.
Proof.
  revert T c. induction ops as [|op ops IH]; intros T c Hc Ho Hs Hh; [by exists c|].
  destruct Ho as [HT Ho]. destruct (exec_op_steps cap op c Hc) as (c1 & Hop & Hst).
  pose proof (steps_inv _ _ _ _ Hst Hc) as Hc1. destruct Hst as [[Hm Hw] Hst].
  assert (all_sourced hist (op_time op) c1) as Hs1.
  { intros kind i y Hy. destruct (Hst kind) as [Hlen Hstep].
    destruct (lookup_lt_is_Some_2 (shards_of kind c) i) as [x Hx].
    { rewrite <- Hlen. by eapply lookup_lt_Some. }
    destruct (Hstep i x Hx) as (y' & Hy' & Hsx). assert (y' = y) as -> by congruence.
    pose proof (checker_inv_family cap c kind Hc) as [_ Hok].
    destruct (Forall_lookup_1 _ _ _ _ Hok Hx) as [Hxi _].
    eapply step_sourced; [done | done | done | | by eapply Hs].
    intros a Ha. apply Hh. unfold history. cbn. rewrite Ha. apply list_elem_of_here. }
  destruct (IH (op_time op) c1 Hc1 Ho Hs1) as (c' & Hrun & Hc' & [Hm' Hw'] & Hs').
  { etrans; [|exact Hh]. unfold history. cbn. destruct (op_addition op); set_solver. }
  exists c'. rewrite (exec_ops_cons _ _ _ _ Hop). split_and!; try done.
  split; [congruence|]. intros k. by rewrite Hw', Hw.
Qed.

Lemma checker_new_inv total w : checker_inv (shard_capacity total) (checker_new total w).
Proof.
  assert (family_ok (shard_capacity total) (replicate num_shards (shard_new (L := L) (shard_capacity total)))) as Hf.
  { split; [apply length_replicate|]. apply Forall_replicate. split; [|done].
    apply shard_new_inv. unfold shard_capacity. lia. }
  by split_and!.
Qed.

Lemma checker_new_sourced total w T : all_sourced [] T (checker_new total w).
Proof.
  intros kind i s Hs. assert (s = shard_new (shard_capacity total)) as ->.
  { destruct kind; by apply lookup_replicate in Hs as [? _]. }
  split; [apply SSorted_nil | constructor].
Qed.

Lemma exec_ops_inv cap ops c c' :
  checker_inv cap c -> exec_ops ops c = Some c' -> checker_inv cap c' /\ same_config c c'.
Proof.
  revert c. induction ops as [|op ops IH]; intros c Hc; [intros [= <-]; by split|].
  destruct (exec_op_steps cap op c Hc) as (c1 & Hop & Hst). rewrite (exec_ops_cons _ _ _ _ Hop). intros Hrun.
  pose proof (steps_inv _ _ _ _ Hst Hc) as Hc1. destruct Hst as [[Hm Hw] _].
  destruct (IH c1 Hc1 Hrun) as [? [Hm' Hw']]. split; [done|]. split; [congruence|]. intros k. by rewrite Hw', Hw.
Qed.

(** A call that reports the key as new leaves it as the youngest of its shard. *)
Lemma check_and_add_new cap kind data t c c1 :
  checker_inv cap c -> window_of kind c <> 0 ->
  check_and_add_internal instant_min hash kind data t c = Some (false, c1) ->
  checker_inv cap c1 /\ window_of kind c1 = window_of kind c /\
  exists s, shards_of kind c1 !! idx_of data = Some s /\ holds (remembered s) t data 0.
Proof.
  intros Hc Hw Hcall. destruct (exec_op_steps cap (OpCheckAdd kind data t) c Hc) as (c1' & Hop & Hst).
  cbn [exec_op] in Hop. rewrite Hcall in Hop. cbn in Hop. injection Hop as <-.
  split; [by eapply steps_inv|]. split; [by apply Hst|].
  destruct (family_shard cap _ data (checker_inv_family cap c kind Hc)) as (s & Hs & Hsi & _).
  pose proof (proj2 (proj2 Hc)) as Hmask. pose proof (eqv_count 1 0 0 0 c) as He. revert Hcall.
  unfold check_and_add_internal. set (c2 := count 1 0 0 0 c) in *. rewrite (eqv_idx data c c2 He Hmask).
  rewrite (proj2 He), Hs, (proj2 (proj1 He)).
  destruct (shard_check_spec instant_min data t (window_of kind c) s Hsi Hw) as (Hf & Hi & Hq & _).
  destruct (shard_check _ _ _ _ s) as [[] s1]; [done|]. cbn [fst snd] in *. rewrite <- Hq in Hf. intros [= <-].
  destruct (add_owned_spec instant_min data t (window_of kind c) s1 Hi Hw) as (_ & _ & Hr).
  eexists. rewrite count_shards, with_shards_of, decide_True by done.
  split; [apply list_lookup_insert_eq; by eapply lookup_lt_Some|]. rewrite Hr. unfold added.
  rewrite bool_decide_eq_false_2.
  - by eexists _, [].
  - intros Hin. symmetry in Hf. apply bool_decide_eq_false in Hf. apply Hf.
    apply list_elem_of_fmap in Hin as (e & -> & He'). rewrite <- remembered_keys. apply list_elem_of_fmap.
    exists e. split; [done|]. destruct (drop_old_suffix fst (cleanup_cutoff instant_min t (window_of kind c)) (remembered s1)) as [pre ->].
    apply elem_of_app. by right.
Qed.

(** A zero window switches the checks off. *)
Lemma zero_window_answer cap kind data now c :
  checker_inv cap c -> window_of kind c = 0 ->
  fst <$> check_and_add_internal instant_min hash kind data now c = Some false /\
  fst <$> check_only_internal instant_min hash kind data now c = Some false.
Proof.
  intros Hc Hw. destruct (family_shard cap _ data (checker_inv_family cap c kind Hc)) as (s & Hs & _).
  pose proof (proj2 (proj2 Hc)) as Hmask. pose proof (eqv_count 1 0 0 0 c) as He.
  unfold check_and_add_internal, check_only_internal. set (c1 := count 1 0 0 0 c) in *.
  rewrite (eqv_idx data c c1 He Hmask), (proj2 He), Hs, (proj2 (proj1 He)), Hw. done.
Qed.
End run.
