(* ===== verification/AuthProbe.v ===== *)
(** Throttling of clients that fail to authenticate
    ([proxy/handshake/auth_probe.rs]): a table of failure streaks per peer
    address, a saturation state for the whole table, and the rate limit of a
    warning.

    Instants and durations are nanoseconds; [duration_since] saturates at zero.
    The table is a concurrent map whose iteration order is not specified: it is
    the parameter [iter], as is the keyed hash that picks where a scan starts.
    Calls are modelled one at a time. *)

From stdpp Require Import base list gmap numbers.
From S2P Require Import Prelude Net.
Local Open Scope Z_scope.

Definition UNKNOWN_SNI_WARN_COOLDOWN_SECS : Z := 5.
Definition AUTH_PROBE_TRACK_RETENTION_SECS : Z := 10 * 60.
Definition AUTH_PROBE_TRACK_MAX_ENTRIES : Z := 65536.
Definition AUTH_PROBE_PRUNE_SCAN_LIMIT : Z := 1024.
Definition AUTH_PROBE_BACKOFF_START_FAILS : Z := 4.
Definition AUTH_PROBE_SATURATION_GRACE_FAILS : Z := 2.
Definition EXPENSIVE_INVALID_SCAN_SATURATION_THRESHOLD : Z := 64.
Definition AUTH_PROBE_BACKOFF_BASE_MS : Z := 25.
Definition AUTH_PROBE_BACKOFF_MAX_MS : Z := 1000.

Definition secs (n : Z) : Z := n * 1000000000.
Definition millis (n : Z) : Z := n * 1000000.
Definition u32_saturating_add (a b : Z) : Z := Z.min (a + b) (2 ^ 32 - 1).

(** [AuthProbeState] and [AuthProbeSaturationState] have the same fields. *)
Record AuthProbeState := mkProbe { fail_streak : Z; blocked_until : Z; last_seen : Z }.

(** The part of [ProxySharedState::handshake] this module works on. *)
Record HandshakeShared := mkShared {
  auth_probe : gmap IpAddr AuthProbeState;
  auth_probe_saturation : option AuthProbeState;
  unknown_sni_warn_next_allowed : option Z;
}.

Definition set_probe (m : gmap IpAddr AuthProbeState) (s : HandshakeShared) : HandshakeShared :=
  mkShared m (auth_probe_saturation s) (unknown_sni_warn_next_allowed s).
Definition set_saturation (o : option AuthProbeState) (s : HandshakeShared) : HandshakeShared :=
  mkShared (auth_probe s) o (unknown_sni_warn_next_allowed s).

Definition duration_since (now earlier : Z) : Z := Z.max 0 (now - earlier).

Definition should_emit_unknown_sni_warn_in (now : Z) (s : HandshakeShared) : bool * HandshakeShared :=
  let allow := (true, mkShared (auth_probe s) (auth_probe_saturation s)
    (Some (now + secs UNKNOWN_SNI_WARN_COOLDOWN_SECS))) in
  match unknown_sni_warn_next_allowed s with
  | Some next_allowed => if now <? next_allowed then (false, s) else allow
  | None => allow
  end.

(** An IPv6 peer is tracked by its /64. *)
Definition normalize_auth_probe_ip (peer_ip : IpAddr) : IpAddr :=
  match peer_ip with
  | IpV4 ip => IpV4 ip
  | IpV6 ip => IpV6 (take 8 ip ++ replicate 8 0)
  end.

Definition auth_probe_backoff (fail_streak : Z) : Z :=
  if fail_streak <? AUTH_PROBE_BACKOFF_START_FAILS then 0
  else
    let shift := Z.min (fail_streak - AUTH_PROBE_BACKOFF_START_FAILS) 10 in
    let multiplier := Z.shiftl 1 shift in
    millis (Z.min (Z.min (AUTH_PROBE_BACKOFF_BASE_MS * multiplier) (2 ^ 64 - 1)) AUTH_PROBE_BACKOFF_MAX_MS).

Definition auth_probe_state_expired (state : AuthProbeState) (now : Z) : bool :=
  secs AUTH_PROBE_TRACK_RETENTION_SECS <? duration_since now (last_seen state).

(** The two queries drop an expired entry on the way. *)
Definition auth_probe_query (answer : AuthProbeState -> bool) (peer_ip : IpAddr) (now : Z)
    (s : HandshakeShared) : bool * HandshakeShared :=
  let peer_ip := normalize_auth_probe_ip peer_ip in
  match auth_probe s !! peer_ip with
  | None => (false, s)
  | Some entry =>
      if auth_probe_state_expired entry now then (false, set_probe (delete peer_ip (auth_probe s)) s)
      else (answer entry, s)
  end.

Definition auth_probe_is_throttled_in (peer_ip : IpAddr) (now : Z) (s : HandshakeShared) :=
  auth_probe_query (fun entry => now <? blocked_until entry) peer_ip now s.

Definition auth_probe_saturation_grace_exhausted_in (peer_ip : IpAddr) (now : Z) (s : HandshakeShared) :=
  auth_probe_query (fun entry =>
    AUTH_PROBE_BACKOFF_START_FAILS + AUTH_PROBE_SATURATION_GRACE_FAILS <=? fail_streak entry) peer_ip now s.

Definition auth_probe_saturation_is_throttled_in (now : Z) (s : HandshakeShared) : bool * HandshakeShared :=
  match auth_probe_saturation s with
  | None => (false, s)
  | Some state =>
      if secs AUTH_PROBE_TRACK_RETENTION_SECS <? duration_since now (last_seen state)
      then (false, set_saturation None s)
      else (now <? blocked_until state, s)
  end.

Definition auth_probe_should_apply_preauth_throttle_in (peer_ip : IpAddr) (now : Z) (s : HandshakeShared)
    : bool * HandshakeShared :=
  let '(throttled, s) := auth_probe_is_throttled_in peer_ip now s in
  if negb throttled then (false, s)
  else
    let '(saturated, s) := auth_probe_saturation_is_throttled_in now s in
    if negb saturated then (true, s) else auth_probe_saturation_grace_exhausted_in peer_ip now s.

Definition auth_probe_note_saturation_in (now : Z) (s : HandshakeShared) : HandshakeShared :=
  let fresh :=
    let fail_streak := AUTH_PROBE_BACKOFF_START_FAILS in
    set_saturation (Some (mkProbe fail_streak (now + auth_probe_backoff fail_streak) now)) s in
  match auth_probe_saturation s with
  | Some state =>
      if duration_since now (last_seen state) <=? secs AUTH_PROBE_TRACK_RETENTION_SECS then
        let fail_streak := u32_saturating_add (fail_streak state) 1 in
        set_saturation (Some (mkProbe fail_streak (now + auth_probe_backoff fail_streak) now)) s
      else fresh
  | None => fresh
  end.

Definition auth_probe_note_expensive_invalid_scan_in (now validation_checks : Z) (overload : bool)
    (s : HandshakeShared) : HandshakeShared :=
  if overload || (validation_checks <? EXPENSIVE_INVALID_SCAN_SATURATION_THRESHOLD) then s
  else auth_probe_note_saturation_in now s.

(** * Recording a failure *)

Definition make_new_state (now : Z) : AuthProbeState := mkProbe 1 (now + auth_probe_backoff 1) now.

Definition update_existing (now : Z) (entry : AuthProbeState) : AuthProbeState :=
  if auth_probe_state_expired entry now then make_new_state now
  else
    let streak := u32_saturating_add (fail_streak entry) 1 in
    mkProbe streak (now + auth_probe_backoff streak) now.

(** The entry chosen for eviction: the smallest streak, then the oldest. *)
Definition better_candidate (cand : option (IpAddr * Z * Z)) (key : IpAddr) (entry : AuthProbeState)
    : option (IpAddr * Z * Z) :=
  let replace := Some (key, fail_streak entry, last_seen entry) in
  match cand with
  | Some (_, current_fail, current_seen) =>
      if (current_fail <? fail_streak entry)
         || ((fail_streak entry =? current_fail) && (current_seen <=? last_seen entry))
      then cand else replace
  | None => replace
  end.

Definition scan_candidate (entries : list (IpAddr * AuthProbeState)) : option (IpAddr * Z * Z) :=
  foldl (fun cand e => better_candidate cand e.1 e.2) None entries.

Definition scan_stale (now : Z) (entries : list (IpAddr * AuthProbeState)) : list IpAddr :=
  (filter (fun e => auth_probe_state_expired e.2 now = true) entries).*1.

Section record.
Context (iter : gmap IpAddr AuthProbeState -> list (IpAddr * AuthProbeState)).
Context (eviction_hash : IpAddr -> Z -> Z).

Definition SCAN : nat := Z.to_nat AUTH_PROBE_PRUNE_SCAN_LIMIT.
Definition table_len (m : gmap IpAddr AuthProbeState) : Z := Z.of_nat (size m).

Definition auth_probe_scan_start_offset_in (peer_ip : IpAddr) (now state_len scan_limit : Z) : Z :=
  if (state_len =? 0) || (scan_limit =? 0) then 0 else eviction_hash peer_ip now mod state_len.

(** The entries one round looks at: all of them in a small table, else
    [scan_limit] of them from a hashed offset, wrapping around once. *)
Definition scanned_entries (peer_ip : IpAddr) (now : Z) (m : gmap IpAddr AuthProbeState)
    : list (IpAddr * AuthProbeState) :=
  let state_len := table_len m in
  let scan_limit := Z.min state_len AUTH_PROBE_PRUNE_SCAN_LIMIT in
  if state_len <=? AUTH_PROBE_PRUNE_SCAN_LIMIT then iter m
  else
    let start_offset := auth_probe_scan_start_offset_in peer_ip now state_len scan_limit in
    let first := take (Z.to_nat scan_limit) (drop (Z.to_nat start_offset) (iter m)) in
    first ++ take (Z.to_nat scan_limit - length first) (iter m).

(** [while state.len() >= MAX]: [rounds] more rounds before the last resort.
    [false] is the early [return]. *)
Fixpoint prune_rounds (rounds : nat) (peer_ip : IpAddr) (now : Z) (s : HandshakeShared)
    : bool * HandshakeShared :=
  if table_len (auth_probe s) <? AUTH_PROBE_TRACK_MAX_ENTRIES then (true, s)
  else
    match rounds with
    | O =>
        let s := auth_probe_note_saturation_in now s in
        match scan_candidate (take SCAN (iter (auth_probe s))) with
        | None => (false, s)
        | Some (evict_key, _, _) => (true, set_probe (delete evict_key (auth_probe s)) s)
        end
    | S rounds =>
        let entries := scanned_entries peer_ip now (auth_probe s) in
        let s := set_probe (foldl (fun m k => delete k m) (auth_probe s) (scan_stale now entries)) s in
        if table_len (auth_probe s) <? AUTH_PROBE_TRACK_MAX_ENTRIES then (true, s)
        else
          match scan_candidate entries with
          | None => (false, auth_probe_note_saturation_in now s)
          | Some (evict_key, _, _) =>
              prune_rounds rounds peer_ip now
                (auth_probe_note_saturation_in now (set_probe (delete evict_key (auth_probe s)) s))
          end
    end.

Definition auth_probe_record_failure_with_state_in (peer_ip : IpAddr) (now : Z) (s : HandshakeShared)
    : HandshakeShared :=
  match auth_probe s !! peer_ip with
  | Some entry => set_probe (<[peer_ip := update_existing now entry]> (auth_probe s)) s
  | None =>
      let '(room, s) := prune_rounds 8 peer_ip now s in
      if negb room then s
      else
        let entry :=
          match auth_probe s !! peer_ip with
          | Some entry => update_existing now entry
          | None => make_new_state now
          end in
        set_probe (<[peer_ip := entry]> (auth_probe s)) s
  end.

Definition auth_probe_record_failure_in (peer_ip : IpAddr) (now : Z) (s : HandshakeShared) : HandshakeShared :=
  auth_probe_record_failure_with_state_in (normalize_auth_probe_ip peer_ip) now s.

End record.

Definition auth_probe_record_success_in (peer_ip : IpAddr) (s : HandshakeShared) : HandshakeShared :=
  set_probe (delete (normalize_auth_probe_ip peer_ip) (auth_probe s)) s.

(** * Lemmas *)

Lemma backoff_small n : n < AUTH_PROBE_BACKOFF_START_FAILS -> auth_probe_backoff n = 0.
Proof. intros Hn%Z.ltb_lt. unfold auth_probe_backoff. by rewrite Hn. Qed.

Lemma backoff_range n : 0 <= auth_probe_backoff n <= secs 1.
Proof.
  unfold auth_probe_backoff, millis, secs, AUTH_PROBE_BACKOFF_BASE_MS, AUTH_PROBE_BACKOFF_MAX_MS.
  destruct (_ <? _); [lia|]. cbn zeta. set (m := Z.shiftl 1 _).
  assert (0 <= m) by (apply Z.shiftl_nonneg; lia). lia.
Qed.

Lemma better_candidate_some cand k e : is_Some (better_candidate cand k e).
Proof. unfold better_candidate. destruct cand as [[[? ?] ?]|]; [|eauto]. destruct (_ || _); eauto. Qed.

(** A candidate is one of the scanned entries, and none of them has a smaller
    streak, or the same streak and an older time. *)
Definition candidate_ok (entries : list (IpAddr * AuthProbeState)) (cand : option (IpAddr * Z * Z)) : Prop :=
  match cand with
  | None => entries = []
  | Some (k, f, t) =>
      (exists e, (k, e) ∈ entries /\ fail_streak e = f /\ last_seen e = t) /\
      Forall (fun x => f < fail_streak x.2 \/ (f = fail_streak x.2 /\ t <= last_seen x.2)) entries
  end.

Lemma better_candidate_ok entries cand k e :
  candidate_ok entries cand -> candidate_ok (entries ++ [(k, e)]) (better_candidate cand k e).
Proof.
  unfold better_candidate. destruct cand as [[[k0 f0] t0]|]; cbn [candidate_ok].
  - intros [(e0 & Hin & Hf & Ht) Hmin].
    destruct ((f0 <? fail_streak e) || ((fail_streak e =? f0) && (t0 <=? last_seen e))) eqn:Hb; cbn [candidate_ok].
    + split; [exists e0; split; [apply elem_of_app; by left | done]|].
      apply Forall_app. split; [done|]. constructor; [cbn; lia | constructor].
    + split; [exists e; split; [apply elem_of_app; right; apply list_elem_of_here | done]|].
      apply Forall_app. split; [|constructor; [cbn; lia | constructor]].
      eapply Forall_impl; [|exact Hmin]. cbn. intros x Hx. lia.
  - intros ->. cbn. split; [exists e; split; [apply list_elem_of_here | done]|].
    constructor; [cbn; lia | constructor].
Qed.

Lemma scan_candidate_ok entries : candidate_ok entries (scan_candidate entries).
Proof.
  unfold scan_candidate. assert (forall l pre cand, candidate_ok pre cand ->
    candidate_ok (pre ++ l) (foldl (fun c x => better_candidate c x.1 x.2) cand l)) as Hgen.
  { induction l as [|[k e] l IH]; intros pre cand Hc; [by rewrite app_nil_r|]. cbn [foldl fst snd].
    replace (pre ++ (k, e) :: l) with ((pre ++ [(k, e)]) ++ l) by (by rewrite <- app_assoc).
    by apply IH, better_candidate_ok. }
  by apply (Hgen entries [] None).
Qed.

Lemma note_saturation_table now s : auth_probe (auth_probe_note_saturation_in now s) = auth_probe s.
Proof. unfold auth_probe_note_saturation_in. destruct (auth_probe_saturation s); [|done]. by destruct (_ <=? _). Qed.

Lemma delete_all_lookup (m : gmap IpAddr AuthProbeState) ks k :
  foldl (fun m k => delete k m) m ks !! k = if decide (k ∈ ks) then None else m !! k.
Proof.
  revert m. induction ks as [|x ks IH]; intros m; cbn [foldl].
  - by rewrite decide_False by (by intros ?%elem_of_nil).
  - rewrite IH. destruct (decide (k = x)) as [->|Hne].
    + rewrite lookup_delete_eq, (decide_True (P := x ∈ x :: ks)) by apply list_elem_of_here. by destruct (decide _).
    + rewrite lookup_delete_ne by done. destruct (decide (k ∈ ks)) as [Hin|Hin].
      * by rewrite decide_True by (by apply list_elem_of_further).
      * rewrite decide_False; [done|]. rewrite elem_of_cons. naive_solver.
Qed.

Lemma size_subseteq_le (m1 m2 : gmap IpAddr AuthProbeState) : m1 ⊆ m2 -> table_len m1 <= table_len m2.
Proof. intros Hs. unfold table_len. apply inj_le. by apply map_subseteq_size. Qed.

Lemma delete_all_subseteq (m : gmap IpAddr AuthProbeState) ks : foldl (fun m k => delete k m) m ks ⊆ m.
Proof.
  apply map_subseteq_spec. intros k x. rewrite delete_all_lookup. by destruct (decide _).
Qed.

Section record_lemmas.
Context (iter : gmap IpAddr AuthProbeState -> list (IpAddr * AuthProbeState)).
Context (eviction_hash : IpAddr -> Z -> Z).
Context (iter_ok : forall m, iter m ≡ₚ map_to_list m).

Definition table_ok (s : HandshakeShared) : Prop := table_len (auth_probe s) <= AUTH_PROBE_TRACK_MAX_ENTRIES.

Lemma iter_length m : Z.of_nat (length (iter m)) = table_len m.
Proof. unfold table_len. by rewrite (Permutation_length (iter_ok m)), length_map_to_list. Qed.

Lemma iter_elem m k e : (k, e) ∈ iter m <-> m !! k = Some e.
Proof. rewrite (iter_ok m). apply elem_of_map_to_list. Qed.

Lemma scanned_in m peer now k e :
  (k, e) ∈ scanned_entries iter eviction_hash peer now m -> m !! k = Some e.
Proof.
  rewrite <- iter_elem. unfold scanned_entries. destruct (_ <=? _); [done|]. cbv zeta.
  assert (forall n (l : list (IpAddr * AuthProbeState)) x, x ∈ take n l -> x ∈ l) as Htake.
  { intros n l x Hx. by apply (elem_of_submseteq _ _ _ Hx), sublist_submseteq, sublist_take. }
  rewrite elem_of_app. intros [Hin|Hin]; apply Htake in Hin; [|done].
  by apply (elem_of_submseteq _ _ _ Hin), sublist_submseteq, sublist_drop.
Qed.

Lemma scanned_nonempty m peer now :
  0 < table_len m -> scanned_entries iter eviction_hash peer now m <> [].
Proof.
  intros Hm. pose proof (iter_length m) as Hl. unfold scanned_entries.
  assert (length (iter m) <> 0%nat) as Hne by lia.
  destruct (_ <=? _) eqn:Hle; [intros Heq; by rewrite Heq in Hne|]. cbv zeta. apply Z.leb_gt in Hle.
  intros [Hf Hrest]%app_nil. rewrite Hf in Hrest. cbn [length] in Hrest.
  apply (f_equal length) in Hrest. rewrite length_take in Hrest. cbn [length] in Hrest.
  unfold AUTH_PROBE_PRUNE_SCAN_LIMIT in *. lia.
Qed.

Lemma prune_rounds_room n peer now s :
  table_len (auth_probe s) < AUTH_PROBE_TRACK_MAX_ENTRIES ->
  prune_rounds iter eviction_hash n peer now s = (true, s).
Proof. intros Hlt%Z.ltb_lt. destruct n; cbn [prune_rounds]; by rewrite Hlt. Qed.

(** The outcome of pruning a table within its bound: room for one more entry,
    reached by removals only, and none at all unless the table was full. *)
Lemma prune_rounds_spec n peer now s :
  table_ok s ->
  exists s', prune_rounds iter eviction_hash (S n) peer now s = (true, s') /\
    table_len (auth_probe s') < AUTH_PROBE_TRACK_MAX_ENTRIES /\ auth_probe s' ⊆ auth_probe s /\
    (table_len (auth_probe s) < AUTH_PROBE_TRACK_MAX_ENTRIES -> s' = s).
Proof.
  unfold table_ok. intros Hok. cbn [prune_rounds].
  destruct (Z.ltb_spec (table_len (auth_probe s)) AUTH_PROBE_TRACK_MAX_ENTRIES) as [Hlt|Hge]; [by exists s|].
  set (entries := scanned_entries iter eviction_hash peer now (auth_probe s)).
  set (m1 := foldl (fun m k => delete k m) (auth_probe s) (scan_stale now entries)).
  assert (m1 ⊆ auth_probe s) as Hm1 by apply delete_all_subseteq.
  cbn [set_probe auth_probe].
  destruct (Z.ltb_spec (table_len m1) AUTH_PROBE_TRACK_MAX_ENTRIES) as [Hlt1|Hge1].
  { eexists. split; [reflexivity|]. cbn [set_probe auth_probe]. split_and!; [done | done | lia]. }
  assert (m1 = auth_probe s) as Heq.
  { apply map_subseteq_size_eq; [done|]. apply size_subseteq_le in Hm1. unfold table_len in *. lia. }
  pose proof (scan_candidate_ok entries) as Hc. destruct (scan_candidate entries) as [[[k f] t]|] eqn:Hcand.
  2:{ exfalso. cbn in Hc. eapply scanned_nonempty; [|exact Hc]. unfold AUTH_PROBE_TRACK_MAX_ENTRIES in *. lia. }
  destruct Hc as [(e & Hin%scanned_in & _) _].
  assert (table_len (delete k m1) < AUTH_PROBE_TRACK_MAX_ENTRIES) as Hroom.
  { unfold table_len in *. rewrite map_size_delete, Heq, Hin. cbn.
    unfold AUTH_PROBE_TRACK_MAX_ENTRIES in *. lia. }
  rewrite prune_rounds_room by (by rewrite note_saturation_table).
  eexists. split; [reflexivity|]. rewrite note_saturation_table. cbn [set_probe auth_probe].
  split_and!; [done | etrans; [apply delete_subseteq | done] | lia].
Qed.

Lemma record_failure_spec ip now s :
  table_ok s ->
  let s' := auth_probe_record_failure_in iter eviction_hash ip now s in
  let p := normalize_auth_probe_ip ip in
  table_ok s' /\
  auth_probe s' !! p =
    Some (match auth_probe s !! p with Some e => update_existing now e | None => make_new_state now end) /\
  (forall q e, q <> p -> auth_probe s' !! q = Some e -> auth_probe s !! q = Some e) /\
  (table_len (auth_probe s) < AUTH_PROBE_TRACK_MAX_ENTRIES \/ is_Some (auth_probe s !! p) ->
   forall q, q <> p -> auth_probe s' !! q = auth_probe s !! q).
Proof.
  intros Hok s' p. unfold s', auth_probe_record_failure_in. fold p. unfold auth_probe_record_failure_with_state_in.
  destruct (auth_probe s !! p) as [e|] eqn:Hp.
  - cbn [set_probe auth_probe]. unfold table_ok in *. cbn [set_probe auth_probe]. split_and!.
    + unfold table_len in *. rewrite map_size_insert, Hp. cbn. lia.
    + apply lookup_insert_eq.
    + intros q x Hq. by rewrite lookup_insert_ne.
    + intros _ q Hq. by rewrite lookup_insert_ne.
  - destruct (prune_rounds_spec 7 p now s Hok) as (s1 & -> & Hroom & Hsub & Hsame). cbn [negb].
    assert (auth_probe s1 !! p = None) as Hp1.
    { destruct (auth_probe s1 !! p) eqn:Hx; [|done]. eapply map_subseteq_spec in Hx; [|exact Hsub]. congruence. }
    rewrite Hp1. unfold table_ok. cbn [set_probe auth_probe]. split_and!.
    + unfold table_len in *. rewrite map_size_insert, Hp1. cbn. lia.
    + apply lookup_insert_eq.
    + intros q x Hq. rewrite lookup_insert_ne by done. intros Hx. by eapply map_subseteq_spec.
    + intros [Hlt|[? [=]]] q Hq. rewrite lookup_insert_ne by done. by rewrite (Hsame Hlt).
Qed.

(** A peer that fails again and again. *)
Fixpoint record_failures (ip : IpAddr) (times : list Z) (s : HandshakeShared) : HandshakeShared :=
  match times with
  | [] => s
  | now :: times => record_failures ip times (auth_probe_record_failure_in iter eviction_hash ip now s)
  end.

(** Each failure comes within the retention period of the one before. *)
Fixpoint within_retention (prev : Z) (times : list Z) : Prop :=
  match times with
  | [] => True
  | now :: times =>
      prev <= now <= prev + secs AUTH_PROBE_TRACK_RETENTION_SECS /\ within_retention now times
  end.

Definition last_time (first : Z) (times : list Z) : Z := default first (list.last times).

Lemma last_time_cons t u times : last_time t (u :: times) = last_time u times.
Proof. unfold last_time. destruct times; [done|]. rewrite last_cons. by destruct (list.last (z :: times)). Qed.

Definition streak_state (n t : Z) : AuthProbeState := mkProbe n (t + auth_probe_backoff n) t.

Lemma not_expired t now e :
  last_seen e = t -> t <= now <= t + secs AUTH_PROBE_TRACK_RETENTION_SECS -> auth_probe_state_expired e now = false.
Proof.
  intros Hl Hw. unfold auth_probe_state_expired, duration_since. rewrite Hl. apply Z.ltb_ge.
  unfold secs, AUTH_PROBE_TRACK_RETENTION_SECS in *. lia.
Qed.

Lemma streak_run ip times n t s :
  table_ok s -> auth_probe s !! normalize_auth_probe_ip ip = Some (streak_state n t) ->
  within_retention t times -> 0 < n -> n + Z.of_nat (length times) < 2 ^ 32 ->
  let s' := record_failures ip times s in
  table_ok s' /\
  auth_probe s' !! normalize_auth_probe_ip ip =
    Some (streak_state (n + Z.of_nat (length times)) (last_time t times)).
Proof.
  revert n t s. induction times as [|u times IH]; intros n t s Hok He Hw Hn Hmax.
  { cbn. by rewrite Z.add_0_r. }
  destruct Hw as [Hu Hw]. cbn [record_failures length] in *.
  destruct (record_failure_spec ip u s Hok) as (Hok1 & He1 & _). rewrite He in He1.
  unfold update_existing in He1. rewrite (not_expired t u) in He1; [|done|done].
  cbn [streak_state fail_streak] in He1.
  assert (u32_saturating_add n 1 = n + 1) as Hs by (unfold u32_saturating_add; lia). rewrite Hs in He1.
  destruct (IH (n + 1) u _ Hok1 He1 Hw) as [Hok' He']; [lia | lia |]. split; [done|].
  cbv zeta in He'. rewrite He', last_time_cons. do 2 f_equal. lia.
Qed.

(** ** Runs *)

(** The calls of the handshake path. *)
Inductive ProbeOp :=
  | ProbeFailure (peer_ip : IpAddr) (now : Z)
  | ProbeSuccess (peer_ip : IpAddr)
  | ProbePreauth (peer_ip : IpAddr) (now : Z)
  | ProbeScan (now validation_checks : Z) (overload : bool)
  | ProbeSniWarn (now : Z).

Definition exec_probe (op : ProbeOp) (s : HandshakeShared) : HandshakeShared :=
  match op with
  | ProbeFailure ip now => auth_probe_record_failure_in iter eviction_hash ip now s
  | ProbeSuccess ip => auth_probe_record_success_in ip s
  | ProbePreauth ip now => (auth_probe_should_apply_preauth_throttle_in ip now s).2
  | ProbeScan now checks overload => auth_probe_note_expensive_invalid_scan_in now checks overload s
  | ProbeSniWarn now => (should_emit_unknown_sni_warn_in now s).2
  end.

Definition run_probes (ops : list ProbeOp) (s : HandshakeShared) : HandshakeShared :=
  foldl (fun s op => exec_probe op s) s ops.

Lemma table_ok_shrink s s' : auth_probe s' ⊆ auth_probe s -> table_ok s -> table_ok s'.
Proof. unfold table_ok. intros Hsub%size_subseteq_le Hok. lia. Qed.

Lemma query_shrinks answer ip now s : auth_probe (auth_probe_query answer ip now s).2 ⊆ auth_probe s.
Proof. unfold auth_probe_query. repeat case_match; cbn; (done || apply delete_subseteq). Qed.

Lemma saturation_query_table now s : auth_probe (auth_probe_saturation_is_throttled_in now s).2 = auth_probe s.
Proof. unfold auth_probe_saturation_is_throttled_in. by repeat case_match. Qed.

Lemma preauth_shrinks ip now s : auth_probe (auth_probe_should_apply_preauth_throttle_in ip now s).2 ⊆ auth_probe s.
Proof.
  unfold auth_probe_should_apply_preauth_throttle_in.
  pose proof (query_shrinks (fun entry => now <? blocked_until entry) ip now s) as H1.
  fold (auth_probe_is_throttled_in ip now s) in H1. destruct (auth_probe_is_throttled_in ip now s) as [[] s1]; [|done].
  cbn [negb snd] in *. pose proof (saturation_query_table now s1) as H2.
  destruct (auth_probe_saturation_is_throttled_in now s1) as [[] s2]; cbn [negb snd] in *; [|by rewrite H2].
  etrans; [apply query_shrinks|]. by rewrite H2.
Qed.

Lemma exec_probe_ok op s : table_ok s -> table_ok (exec_probe op s).
Proof.
  intros Hok. destruct op as [ip now|ip|ip now|now checks overload|now]; cbn [exec_probe].
  - by apply record_failure_spec.
  - eapply table_ok_shrink; [|exact Hok]. apply delete_subseteq.
  - eapply table_ok_shrink; [|exact Hok]. apply preauth_shrinks.
  - unfold auth_probe_note_expensive_invalid_scan_in. destruct (_ || _); [done|].
    unfold table_ok. by rewrite note_saturation_table.
  - unfold should_emit_unknown_sni_warn_in. by repeat case_match.
Qed.

Lemma run_probes_ok ops s : table_ok s -> table_ok (run_probes ops s).
Proof. revert s. induction ops as [|op ops IH]; intros s Hok; [done|]. cbn. by apply IH, exec_probe_ok. Qed.

Lemma query_entry answer ip ip' now s e :
  normalize_auth_probe_ip ip' = normalize_auth_probe_ip ip ->
  auth_probe s !! normalize_auth_probe_ip ip = Some e -> auth_probe_state_expired e now = false ->
  auth_probe_query answer ip' now s = (answer e, s).
Proof. intros Hn He Hx. unfold auth_probe_query. by rewrite Hn, He, Hx. Qed.
End record_lemmas.
