(* ===== verification/TrafficLimiter.v ===== *)
(** The traffic limiter of [proxy/traffic_limiter.rs]: token buckets that refill
    every 20 ms, one per user and one per client network, shared by the leases
    of the connections.

    A call is one transition; the clock is an argument ([elapsed_ms] since the
    limiter's start, [now_secs] since the Unix epoch).  [u64] values are [Z] with
    their saturation or wrap-around written out.  Objects behind an [Arc] live in
    a heap and are compared by their identifier, as [Arc::ptr_eq] does.  The
    sharded registries are maps: a key belongs to one shard. *)

From stdpp Require Import base list gmap numbers.
From S2P Require Import Prelude Net.
Local Open Scope Z_scope.

Definition FAIR_EPOCH_MS : Z := 20.
Definition MAX_BORROW_CHUNK_BYTES : Z := 32 * 1024.
Definition CLEANUP_INTERVAL_SECS : Z := 60.

Definition U64_MAX : Z := 2 ^ 64 - 1.
Definition sat_add (a b : Z) : Z := Z.min (a + b) U64_MAX.
Definition sat_sub (a b : Z) : Z := Z.max (a - b) 0.
Definition sat_mul (a b : Z) : Z := Z.min (a * b) U64_MAX.
(** [fetch_add] on an [AtomicU64]. *)
Definition wrap_add (a b : Z) : Z := (a + b) mod 2 ^ 64.

Inductive RateDirection := Up | Down.

#[export] Instance RateDirection_eq_dec : EqDecision RateDirection.
Proof. solve_decision. Defined.

Record RateLimitBps := mkRate { up_bps : Z; down_bps : Z }.

Definition rate_get (d : RateDirection) (r : RateLimitBps) : Z :=
  match d with Up => up_bps r | Down => down_bps r end.

(** * Time *)

Definition current_epoch (elapsed_ms : Z) : Z := elapsed_ms / FAIR_EPOCH_MS.

Definition bytes_per_epoch (bps : Z) : Z :=
  if bps =? 0 then 0
  else
    let numerator := sat_mul bps FAIR_EPOCH_MS in
    let bytes := numerator / 8000 in
    Z.max bytes 1.

(** In milliseconds. *)
Definition next_refill_delay (elapsed_ms : Z) : Z :=
  let epoch_pos := elapsed_ms mod FAIR_EPOCH_MS in
  Z.max (sat_sub FAIR_EPOCH_MS epoch_pos) 1.

Definition decrement_atomic_saturating (counter by_ : Z) : Z :=
  if by_ =? 0 then counter else if counter =? 0 then counter else sat_sub counter by_.

(** * Metrics *)

Record ScopeMetrics := mkScope {
  throttle_up_total : Z;
  throttle_down_total : Z;
  wait_up_ms_total : Z;
  wait_down_ms_total : Z;
  scope_active_leases : Z;
  policy_entries : Z;
}.

Definition scope_default : ScopeMetrics := mkScope 0 0 0 0 0 0.

Definition scope_throttle (d : RateDirection) (m : ScopeMetrics) : ScopeMetrics :=
  match d with
  | Up => mkScope (wrap_add (throttle_up_total m) 1) (throttle_down_total m) (wait_up_ms_total m)
            (wait_down_ms_total m) (scope_active_leases m) (policy_entries m)
  | Down => mkScope (throttle_up_total m) (wrap_add (throttle_down_total m) 1) (wait_up_ms_total m)
            (wait_down_ms_total m) (scope_active_leases m) (policy_entries m)
  end.

Definition scope_wait_ms (d : RateDirection) (wait_ms : Z) (m : ScopeMetrics) : ScopeMetrics :=
  match d with
  | Up => mkScope (throttle_up_total m) (throttle_down_total m) (wrap_add (wait_up_ms_total m) wait_ms)
            (wait_down_ms_total m) (scope_active_leases m) (policy_entries m)
  | Down => mkScope (throttle_up_total m) (throttle_down_total m) (wait_up_ms_total m)
            (wrap_add (wait_down_ms_total m) wait_ms) (scope_active_leases m) (policy_entries m)
  end.

Definition scope_set_leases (n : Z) (m : ScopeMetrics) : ScopeMetrics :=
  mkScope (throttle_up_total m) (throttle_down_total m) (wait_up_ms_total m) (wait_down_ms_total m)
    n (policy_entries m).
Definition scope_set_policy (n : Z) (m : ScopeMetrics) : ScopeMetrics :=
  mkScope (throttle_up_total m) (throttle_down_total m) (wait_up_ms_total m) (wait_down_ms_total m)
    (scope_active_leases m) n.

(** * User buckets *)

Record DirectionBucket := mkBucket { db_epoch : Z; db_used : Z }.

Definition bucket_default : DirectionBucket := mkBucket 0 0.

Definition sync_epoch (epoch : Z) (b : DirectionBucket) : DirectionBucket :=
  if db_epoch b =? epoch then b
  else if db_epoch b <? epoch then mkBucket epoch 0
  else b.

Definition bucket_try_consume (elapsed_ms cap_bps requested : Z) (b : DirectionBucket)
    : Z * DirectionBucket :=
  if requested =? 0 then (0, b)
  else if cap_bps =? 0 then (requested, b)
  else
    let b := sync_epoch (current_epoch elapsed_ms) b in
    let cap_epoch := bytes_per_epoch cap_bps in
    if cap_epoch <=? db_used b then (0, b)
    else
      let remaining := sat_sub cap_epoch (db_used b) in
      let grant := Z.min requested remaining in
      if grant =? 0 then (0, b)
      else (grant, mkBucket (db_epoch b) (sat_add (db_used b) grant)).

Definition bucket_refund (bytes : Z) (b : DirectionBucket) : DirectionBucket :=
  if bytes =? 0 then b else mkBucket (db_epoch b) (decrement_atomic_saturating (db_used b) bytes).

Record UserBucket := mkUser {
  ub_rates : RateLimitBps;
  ub_up : DirectionBucket;
  ub_down : DirectionBucket;
  ub_active_leases : Z;
}.

Definition user_bucket_new (limits : RateLimitBps) : UserBucket := mkUser limits bucket_default bucket_default 0.

Definition user_set_rates (limits : RateLimitBps) (b : UserBucket) : UserBucket :=
  mkUser limits (ub_up b) (ub_down b) (ub_active_leases b).
Definition user_set_leases (n : Z) (b : UserBucket) : UserBucket :=
  mkUser (ub_rates b) (ub_up b) (ub_down b) n.

Definition user_dir (d : RateDirection) (b : UserBucket) : DirectionBucket :=
  match d with Up => ub_up b | Down => ub_down b end.
Definition user_set_dir (d : RateDirection) (x : DirectionBucket) (b : UserBucket) : UserBucket :=
  match d with
  | Up => mkUser (ub_rates b) x (ub_down b) (ub_active_leases b)
  | Down => mkUser (ub_rates b) (ub_up b) x (ub_active_leases b)
  end.

Definition user_try_consume (elapsed_ms : Z) (d : RateDirection) (requested : Z) (b : UserBucket)
    : Z * UserBucket :=
  let cap_bps := rate_get d (ub_rates b) in
  let '(grant, x) := bucket_try_consume elapsed_ms cap_bps requested (user_dir d b) in
  (grant, user_set_dir d x b).

Definition user_refund (d : RateDirection) (bytes : Z) (b : UserBucket) : UserBucket :=
  user_set_dir d (bucket_refund bytes (user_dir d b)) b.

(** * Network buckets *)

Record CidrDirectionBucket := mkCidrDir { cd_epoch : Z; cd_used : Z; cd_active_users : Z }.

Definition cidr_dir_default : CidrDirectionBucket := mkCidrDir 0 0 0.

Definition cidr_sync_epoch (epoch : Z) (b : CidrDirectionBucket) : CidrDirectionBucket :=
  if cd_epoch b =? epoch then b
  else if cd_epoch b <? epoch then mkCidrDir epoch 0 0
  else b.

(** The share of one user in one direction ([CidrUserDirectionState]). *)
Definition sync_epoch_and_mark_active (epoch : Z) (u : DirectionBucket) (active_users : Z)
    : DirectionBucket * Z :=
  if db_epoch u =? epoch then (u, active_users)
  else if db_epoch u <? epoch then (mkBucket epoch 0, wrap_add active_users 1)
  else (u, active_users).

Definition cidr_grant (cap_epoch fair_share requested total_used user_used : Z) : Z :=
  let total_remaining := sat_sub cap_epoch total_used in
  let guaranteed_remaining := sat_sub fair_share user_used in
  if 0 <? guaranteed_remaining then Z.min (Z.min requested guaranteed_remaining) total_remaining
  else Z.min (Z.min requested total_remaining) MAX_BORROW_CHUNK_BYTES.

Definition cidr_dir_try_consume (elapsed_ms cap_epoch requested : Z) (u : DirectionBucket)
    (b : CidrDirectionBucket) : Z * DirectionBucket * CidrDirectionBucket :=
  if (requested =? 0) || (cap_epoch =? 0) then (0, u, b)
  else
    let epoch := current_epoch elapsed_ms in
    let b := cidr_sync_epoch epoch b in
    let '(u, active) := sync_epoch_and_mark_active epoch u (cd_active_users b) in
    let b := mkCidrDir (cd_epoch b) (cd_used b) active in
    let active_users := Z.max (cd_active_users b) 1 in
    let fair_share := Z.max (cap_epoch / active_users) 1 in
    if cap_epoch <=? cd_used b then (0, u, b)
    else
      let grant := cidr_grant cap_epoch fair_share requested (cd_used b) (db_used u) in
      if grant =? 0 then (0, u, b)
      else (grant, mkBucket (db_epoch u) (wrap_add (db_used u) grant),
            mkCidrDir (cd_epoch b) (sat_add (cd_used b) grant) (cd_active_users b)).

Definition cidr_dir_refund (bytes : Z) (b : CidrDirectionBucket) : CidrDirectionBucket :=
  if bytes =? 0 then b
  else mkCidrDir (cd_epoch b) (decrement_atomic_saturating (cd_used b) bytes) (cd_active_users b).

Record CidrUserShare := mkShare {
  cs_active_conns : Z;
  cs_up : DirectionBucket;
  cs_down : DirectionBucket;
}.

Definition share_new : CidrUserShare := mkShare 0 bucket_default bucket_default.

Definition share_dir (d : RateDirection) (s : CidrUserShare) : DirectionBucket :=
  match d with Up => cs_up s | Down => cs_down s end.
Definition share_set_dir (d : RateDirection) (x : DirectionBucket) (s : CidrUserShare) : CidrUserShare :=
  match d with
  | Up => mkShare (cs_active_conns s) x (cs_down s)
  | Down => mkShare (cs_active_conns s) (cs_up s) x
  end.
Definition share_set_conns (n : Z) (s : CidrUserShare) : CidrUserShare := mkShare n (cs_up s) (cs_down s).

(** [cb_users] maps a user to the identifier of the share. *)
Record CidrBucket := mkCidr {
  cb_rates : RateLimitBps;
  cb_up : CidrDirectionBucket;
  cb_down : CidrDirectionBucket;
  cb_users : gmap (list Z) nat;
  cb_active_leases : Z;
}.

Definition cidr_bucket_new (limits : RateLimitBps) : CidrBucket :=
  mkCidr limits cidr_dir_default cidr_dir_default ∅ 0.

Definition cidr_set_rates (limits : RateLimitBps) (b : CidrBucket) : CidrBucket :=
  mkCidr limits (cb_up b) (cb_down b) (cb_users b) (cb_active_leases b).
Definition cidr_set_users (m : gmap (list Z) nat) (b : CidrBucket) : CidrBucket :=
  mkCidr (cb_rates b) (cb_up b) (cb_down b) m (cb_active_leases b).
Definition cidr_set_leases (n : Z) (b : CidrBucket) : CidrBucket :=
  mkCidr (cb_rates b) (cb_up b) (cb_down b) (cb_users b) n.
Definition cidr_dir (d : RateDirection) (b : CidrBucket) : CidrDirectionBucket :=
  match d with Up => cb_up b | Down => cb_down b end.
Definition cidr_set_dir (d : RateDirection) (x : CidrDirectionBucket) (b : CidrBucket) : CidrBucket :=
  match d with
  | Up => mkCidr (cb_rates b) x (cb_down b) (cb_users b) (cb_active_leases b)
  | Down => mkCidr (cb_rates b) (cb_up b) x (cb_users b) (cb_active_leases b)
  end.

Definition try_consume_for_user (elapsed_ms : Z) (d : RateDirection) (requested : Z)
    (share : CidrUserShare) (b : CidrBucket) : Z * CidrUserShare * CidrBucket :=
  let cap_bps := rate_get d (cb_rates b) in
  if cap_bps =? 0 then (requested, share, b)
  else
    let cap_epoch := bytes_per_epoch cap_bps in
    let '(grant, u, x) := cidr_dir_try_consume elapsed_ms cap_epoch requested (share_dir d share) (cidr_dir d b) in
    (grant, share_set_dir d u share, cidr_set_dir d x b).

Definition refund_for_user (d : RateDirection) (bytes : Z) (share : CidrUserShare) (b : CidrBucket)
    : CidrUserShare * CidrBucket :=
  (share_set_dir d (bucket_refund bytes (share_dir d share)) share,
   cidr_set_dir d (cidr_dir_refund bytes (cidr_dir d b)) b).
