(* ===== verification/Limiter.v ===== *)
(** The limiter as a whole ([proxy/traffic_limiter.rs]): the policy, the
    registries of buckets, the leases that connections hold, and the cleanup.

    Networks ([ipnetwork::IpNetwork]) are third-party: their operations are a
    class.  [HashMap] arguments arrive as the list of their entries in whatever
    order the map is iterated. *)

From stdpp Require Import base list gmap numbers.
From S2P Require Import Prelude Net TrafficLimiter.
Local Open Scope Z_scope.

(** * Networks and policy *)

Class IpNetwork (N : Type) := {
  net_new : IpAddr -> Z -> option N;
  net_network : N -> IpAddr;
  net_contains : IpAddr -> N -> bool;
  net_prefix : N -> Z;
  net_is_v4 : N -> bool;
  net_to_string : N -> list Z;
}.

Definition is_v4 (ip : IpAddr) : bool := match ip with IpV4 _ => true | IpV6 _ => false end.

Section limiter.
Context {N : Type} `{IpNetwork N}.

Inductive CidrRateLimitKey :=
  | Network (cidr : N)
  | AutoV4 (prefix_len : Z)
  | AutoV6 (prefix_len : Z)
  | AutoDual (prefix_len : Z).

Record CidrRule := mkRule { cr_key : list Z; cr_cidr : N; cr_limits : RateLimitBps; cr_prefix_len : Z }.
Record CidrAutoRule := mkAuto { ca_prefix_len : Z; ca_limits : RateLimitBps }.

Inductive CidrPolicyMatch :=
  | Explicit (rule : CidrRule)
  | Auto (key : list Z) (limits : RateLimitBps).

Record PolicySnapshot := mkPolicy {
  user_limits : gmap (list Z) RateLimitBps;
  cidr_rules_v4 : list CidrRule;
  cidr_rules_v6 : list CidrRule;
  cidr_auto_rules_v4 : list CidrAutoRule;
  cidr_auto_rules_v6 : list CidrAutoRule;
  cidr_rule_keys : gset (list Z);
}.

Definition policy_default : PolicySnapshot := mkPolicy ∅ [] [] [] [] ∅.

(** "auto:4:" and "auto:6:". *)
Definition auto_prefix (v4 : bool) : list Z :=
  [97; 117; 116; 111; 58; if v4 then 52 else 54; 58].

Definition auto_cidr_bucket_key (ip : IpAddr) (prefix_len : Z) : option (list Z) :=
  cidr ← net_new ip prefix_len;
  network ← net_new (net_network cidr) prefix_len;
  Some (auto_prefix (net_is_v4 network) ++ net_to_string network).

Definition match_auto_cidr (ip : IpAddr) (p : PolicySnapshot) : option CidrPolicyMatch :=
  rule ← head (if is_v4 ip then cidr_auto_rules_v4 p else cidr_auto_rules_v6 p);
  key ← auto_cidr_bucket_key ip (ca_prefix_len rule);
  Some (Auto key (ca_limits rule)).

Definition match_cidr (ip : IpAddr) (p : PolicySnapshot) : option CidrPolicyMatch :=
  let rules := if is_v4 ip then cidr_rules_v4 p else cidr_rules_v6 p in
  match List.find (fun rule => net_contains ip (cr_cidr rule)) rules with
  | Some rule => Some (Explicit rule)
  | None => match_auto_cidr ip p
  end.

(** [sort_by(|a, b| b.prefix_len.cmp(&a.prefix_len))]: stable, descending. *)
Fixpoint insert_desc {A} (prefix : A -> Z) (x : A) (l : list A) : list A :=
  match l with
  | [] => [x]
  | y :: l' => if prefix y <=? prefix x then x :: l else y :: insert_desc prefix x l'
  end.
Definition sort_desc {A} (prefix : A -> Z) (l : list A) : list A := foldr (insert_desc prefix) [] l.

Definition limit_set (l : RateLimitBps) : bool := (0 <? up_bps l) || (0 <? down_bps l).

(** One entry of [cidr_limits]. *)
Definition add_cidr_limit (p : PolicySnapshot) (entry : CidrRateLimitKey * RateLimitBps) : PolicySnapshot :=
  let '(key, limits) := entry in
  if (up_bps limits =? 0) && (down_bps limits =? 0) then p
  else
    match key with
    | Network cidr =>
        let rule := mkRule (net_to_string cidr) cidr limits (net_prefix cidr) in
        mkPolicy (user_limits p)
          (if net_is_v4 cidr then cidr_rules_v4 p ++ [rule] else cidr_rules_v4 p)
          (if net_is_v4 cidr then cidr_rules_v6 p else cidr_rules_v6 p ++ [rule])
          (cidr_auto_rules_v4 p) (cidr_auto_rules_v6 p) ({[net_to_string cidr]} ∪ cidr_rule_keys p)
    | AutoV4 prefix_len =>
        mkPolicy (user_limits p) (cidr_rules_v4 p) (cidr_rules_v6 p)
          (cidr_auto_rules_v4 p ++ [mkAuto prefix_len limits]) (cidr_auto_rules_v6 p) (cidr_rule_keys p)
    | AutoV6 prefix_len =>
        mkPolicy (user_limits p) (cidr_rules_v4 p) (cidr_rules_v6 p)
          (cidr_auto_rules_v4 p) (cidr_auto_rules_v6 p ++ [mkAuto prefix_len limits]) (cidr_rule_keys p)
    | AutoDual prefix_len =>
        mkPolicy (user_limits p) (cidr_rules_v4 p) (cidr_rules_v6 p)
          (cidr_auto_rules_v4 p ++ [mkAuto prefix_len limits])
          (cidr_auto_rules_v6 p ++ [mkAuto (Z.min (prefix_len * 4) 255) limits]) (cidr_rule_keys p)
    end.

Definition build_policy (users : gmap (list Z) RateLimitBps)
    (cidr_limits : list (CidrRateLimitKey * RateLimitBps)) : PolicySnapshot :=
  let filtered_users := filter (fun '(_, limit) => limit_set limit = true) users in
  let p := foldl add_cidr_limit (mkPolicy filtered_users [] [] [] [] ∅) cidr_limits in
  mkPolicy (user_limits p) (sort_desc cr_prefix_len (cidr_rules_v4 p))
    (sort_desc cr_prefix_len (cidr_rules_v6 p)) (sort_desc ca_prefix_len (cidr_auto_rules_v4 p))
    (sort_desc ca_prefix_len (cidr_auto_rules_v6 p)) (cidr_rule_keys p).

(** * State *)

Record TrafficLimiter := mkLimiter {
  tl_policy : PolicySnapshot;
  tl_user_buckets : gmap (list Z) nat;
  tl_cidr_buckets : gmap (list Z) nat;
  tl_users : gmap nat UserBucket;
  tl_cidrs : gmap nat CidrBucket;
  tl_shares : gmap nat CidrUserShare;
  tl_next : nat;
  tl_user_scope : ScopeMetrics;
  tl_cidr_scope : ScopeMetrics;
  tl_last_cleanup_epoch_secs : Z;
}.

#[local] Instance user_bucket_inhabited : Inhabited UserBucket := populate (user_bucket_new (mkRate 0 0)).
#[local] Instance cidr_bucket_inhabited : Inhabited CidrBucket := populate (cidr_bucket_new (mkRate 0 0)).
#[local] Instance share_inhabited : Inhabited CidrUserShare := populate share_new.

Definition limiter_new : TrafficLimiter := mkLimiter policy_default ∅ ∅ ∅ ∅ ∅ 0 scope_default scope_default 0.

Definition with_users (reg : gmap (list Z) nat) (h : gmap nat UserBucket) (t : TrafficLimiter) :=
  mkLimiter (tl_policy t) reg (tl_cidr_buckets t) h (tl_cidrs t) (tl_shares t) (tl_next t)
    (tl_user_scope t) (tl_cidr_scope t) (tl_last_cleanup_epoch_secs t).
Definition with_cidrs (reg : gmap (list Z) nat) (h : gmap nat CidrBucket) (t : TrafficLimiter) :=
  mkLimiter (tl_policy t) (tl_user_buckets t) reg (tl_users t) h (tl_shares t) (tl_next t)
    (tl_user_scope t) (tl_cidr_scope t) (tl_last_cleanup_epoch_secs t).
Definition with_shares (h : gmap nat CidrUserShare) (t : TrafficLimiter) :=
  mkLimiter (tl_policy t) (tl_user_buckets t) (tl_cidr_buckets t) (tl_users t) (tl_cidrs t) h (tl_next t)
    (tl_user_scope t) (tl_cidr_scope t) (tl_last_cleanup_epoch_secs t).
Definition with_scopes (u c : ScopeMetrics) (t : TrafficLimiter) :=
  mkLimiter (tl_policy t) (tl_user_buckets t) (tl_cidr_buckets t) (tl_users t) (tl_cidrs t) (tl_shares t)
    (tl_next t) u c (tl_last_cleanup_epoch_secs t).
Definition with_next (n : nat) (t : TrafficLimiter) :=
  mkLimiter (tl_policy t) (tl_user_buckets t) (tl_cidr_buckets t) (tl_users t) (tl_cidrs t) (tl_shares t)
    n (tl_user_scope t) (tl_cidr_scope t) (tl_last_cleanup_epoch_secs t).

Definition get_user (id : nat) (t : TrafficLimiter) : UserBucket := tl_users t !!! id.
Definition get_cidr (id : nat) (t : TrafficLimiter) : CidrBucket := tl_cidrs t !!! id.
Definition get_share (id : nat) (t : TrafficLimiter) : CidrUserShare := tl_shares t !!! id.
Definition put_user (id : nat) (b : UserBucket) (t : TrafficLimiter) : TrafficLimiter :=
  with_users (tl_user_buckets t) (<[id := b]> (tl_users t)) t.
Definition put_cidr (id : nat) (b : CidrBucket) (t : TrafficLimiter) : TrafficLimiter :=
  with_cidrs (tl_cidr_buckets t) (<[id := b]> (tl_cidrs t)) t.
Definition put_share (id : nat) (s : CidrUserShare) (t : TrafficLimiter) : TrafficLimiter :=
  with_shares (<[id := s]> (tl_shares t)) t.

(** [get_or_insert_with] on each of the three registries. *)
Definition get_or_insert_user (key : list Z) (limits : RateLimitBps) (t : TrafficLimiter)
    : nat * TrafficLimiter :=
  match tl_user_buckets t !! key with
  | Some id => (id, t)
  | None =>
      let id := tl_next t in
      (id, with_next (S id) (with_users (<[key := id]> (tl_user_buckets t))
             (<[id := user_bucket_new limits]> (tl_users t)) t))
  end.

Definition get_or_insert_cidr (key : list Z) (limits : RateLimitBps) (t : TrafficLimiter)
    : nat * TrafficLimiter :=
  match tl_cidr_buckets t !! key with
  | Some id => (id, t)
  | None =>
      let id := tl_next t in
      (id, with_next (S id) (with_cidrs (<[key := id]> (tl_cidr_buckets t))
             (<[id := cidr_bucket_new limits]> (tl_cidrs t)) t))
  end.

Definition acquire_user_share (user : list Z) (cid : nat) (t : TrafficLimiter) : nat * TrafficLimiter :=
  let b := get_cidr cid t in
  let '(id, t) :=
    match cb_users b !! user with
    | Some id => (id, t)
    | None =>
        let id := tl_next t in
        (id, put_share id share_new (put_cidr cid (cidr_set_users (<[user := id]> (cb_users b)) b)
               (with_next (S id) t)))
    end in
  let s := get_share id t in
  (id, put_share id (share_set_conns (wrap_add (cs_active_conns s) 1) s) t).

Definition release_user_share (user : list Z) (sid cid : nat) (t : TrafficLimiter) : TrafficLimiter :=
  let s := get_share sid t in
  let t := put_share sid (share_set_conns (decrement_atomic_saturating (cs_active_conns s) 1) s) t in
  let b := get_cidr cid t in
  match cb_users b !! user with
  | Some candidate =>
      if (candidate =? sid)%nat && (cs_active_conns (get_share candidate t) =? 0)
      then put_cidr cid (cidr_set_users (delete user (cb_users b)) b) t else t
  | None => t
  end.

(** * Cleanup *)

Definition cleanup_idle_users (t : TrafficLimiter) (b : CidrBucket) : CidrBucket :=
  cidr_set_users (filter (fun '(_, sid) => 0 < cs_active_conns (get_share sid t)) (cb_users b)) b.

Definition maybe_cleanup (now_epoch_secs : Z) (t : TrafficLimiter) : TrafficLimiter :=
  if sat_sub now_epoch_secs (tl_last_cleanup_epoch_secs t) <? CLEANUP_INTERVAL_SECS then t
  else
    let p := tl_policy t in
    let users := filter (fun '(user, id) =>
      0 < ub_active_leases (get_user id t) \/ is_Some (user_limits p !! user)) (tl_user_buckets t) in
    (* [retain] visits every registered network bucket *)
    let cidrs := foldr (fun id h => <[id := cleanup_idle_users t (h !!! id)]> h) (tl_cidrs t)
      (map_to_list (tl_cidr_buckets t)).*2 in
    let cidr_reg := filter (fun '(key, id) =>
      0 < cb_active_leases (cidrs !!! id) \/ key ∈ cidr_rule_keys p) (tl_cidr_buckets t) in
    mkLimiter p users cidr_reg (tl_users t) cidrs (tl_shares t) (tl_next t)
      (tl_user_scope t) (tl_cidr_scope t) now_epoch_secs.

Definition apply_policy (now_epoch_secs : Z) (users : gmap (list Z) RateLimitBps)
    (cidr_limits : list (CidrRateLimitKey * RateLimitBps)) (t : TrafficLimiter) : TrafficLimiter :=
  let p := build_policy users cidr_limits in
  let entries := Z.of_nat (size (cidr_rule_keys p) + length (cidr_auto_rules_v4 p) + length (cidr_auto_rules_v6 p)) in
  let t := mkLimiter p (tl_user_buckets t) (tl_cidr_buckets t) (tl_users t) (tl_cidrs t) (tl_shares t)
    (tl_next t) (scope_set_policy (Z.of_nat (size (user_limits p))) (tl_user_scope t))
    (scope_set_policy entries (tl_cidr_scope t)) (tl_last_cleanup_epoch_secs t) in
  maybe_cleanup now_epoch_secs t.

(** * Leases *)

Record TrafficLease := mkLease {
  ls_user_bucket : option nat;
  ls_cidr_bucket : option nat;
  ls_cidr_user_key : option (list Z);
  ls_cidr_user_share : option nat;
}.

Definition lease_user (user : list Z) (t : TrafficLimiter) : option nat * TrafficLimiter :=
  match user_limits (tl_policy t) !! user with
  | None => (None, t)
  | Some limit =>
      let '(id, t) := get_or_insert_user user limit t in
      let b := user_set_rates limit (get_user id t) in
      let t := put_user id (user_set_leases (wrap_add (ub_active_leases b) 1) b) t in
      let sc := tl_user_scope t in
      (Some id, with_scopes (scope_set_leases (wrap_add (scope_active_leases sc) 1) sc) (tl_cidr_scope t) t)
  end.

Definition lease_cidr (user : list Z) (client_ip : IpAddr) (p : PolicySnapshot) (t : TrafficLimiter)
    : option (nat * nat) * TrafficLimiter :=
  match match_cidr client_ip p with
  | None => (None, t)
  | Some rule_match =>
      let '(key, limits) :=
        match rule_match with
        | Explicit rule => (cr_key rule, cr_limits rule)
        | Auto key limits => (key, limits)
        end in
      let '(id, t) := get_or_insert_cidr key limits t in
      let b := cidr_set_rates limits (get_cidr id t) in
      let t := put_cidr id (cidr_set_leases (wrap_add (cb_active_leases b) 1) b) t in
      let sc := tl_cidr_scope t in
      let t := with_scopes (tl_user_scope t) (scope_set_leases (wrap_add (scope_active_leases sc) 1) sc) t in
      let '(sid, t) := acquire_user_share user id t in
      (Some (id, sid), t)
  end.

Definition acquire_lease (now_epoch_secs : Z) (user : list Z) (client_ip : IpAddr) (t : TrafficLimiter)
    : option TrafficLease * TrafficLimiter :=
  let policy := tl_policy t in
  let '(user_bucket, t) := lease_user user t in
  let '(cidr, t) := lease_cidr user client_ip policy t in
  match user_bucket, cidr with
  | None, None => (None, t)
  | _, _ =>
      let t := maybe_cleanup now_epoch_secs t in
      (Some (mkLease user_bucket (fst <$> cidr) ((fun _ => user) <$> cidr) (snd <$> cidr)), t)
  end.

Definition drop_lease (l : TrafficLease) (t : TrafficLimiter) : TrafficLimiter :=
  let t :=
    match ls_user_bucket l with
    | None => t
    | Some id =>
        let b := get_user id t in
        let t := put_user id (user_set_leases (decrement_atomic_saturating (ub_active_leases b) 1) b) t in
        let sc := tl_user_scope t in
        with_scopes (scope_set_leases (decrement_atomic_saturating (scope_active_leases sc) 1) sc) (tl_cidr_scope t) t
    end in
  match ls_cidr_bucket l with
  | None => t
  | Some id =>
      let t :=
        match ls_cidr_user_key l, ls_cidr_user_share l with
        | Some user_key, Some share => release_user_share user_key share id t
        | _, _ => t
        end in
      let b := get_cidr id t in
      let t := put_cidr id (cidr_set_leases (decrement_atomic_saturating (cb_active_leases b) 1) b) t in
      let sc := tl_cidr_scope t in
      with_scopes (tl_user_scope t) (scope_set_leases (decrement_atomic_saturating (scope_active_leases sc) 1) sc) t
  end.

(** * Consuming *)

Record TrafficConsumeResult := mkConsume { granted : Z; blocked_user : bool; blocked_cidr : bool }.

Definition observe_throttle (d : RateDirection) (user cidr : bool) (t : TrafficLimiter) : TrafficLimiter :=
  with_scopes (if user then scope_throttle d (tl_user_scope t) else tl_user_scope t)
    (if cidr then scope_throttle d (tl_cidr_scope t) else tl_cidr_scope t) t.

Definition observe_wait (d : RateDirection) (user cidr : bool) (wait_ms : Z) (t : TrafficLimiter) : TrafficLimiter :=
  with_scopes (if user then scope_wait_ms d wait_ms (tl_user_scope t) else tl_user_scope t)
    (if cidr then scope_wait_ms d wait_ms (tl_cidr_scope t) else tl_cidr_scope t) t.

Definition observe_wait_ms (d : RateDirection) (user cidr : bool) (wait_ms : Z) (t : TrafficLimiter) : TrafficLimiter :=
  if wait_ms =? 0 then t else observe_wait d user cidr wait_ms t.

(** The network part of [TrafficLease::try_consume], on what the user bucket
    granted; the excess goes back to the user bucket. *)
Definition consume_cidr (elapsed_ms : Z) (d : RateDirection) (granted : Z) (l : TrafficLease)
    (t : TrafficLimiter) : TrafficConsumeResult * TrafficLimiter :=
  match ls_cidr_bucket l, ls_cidr_user_share l with
  | Some cid, Some sid =>
      let '(cidr_granted, s, b) := try_consume_for_user elapsed_ms d granted (get_share sid t) (get_cidr cid t) in
      let t := put_cidr cid b (put_share sid s t) in
      let t :=
        match ls_user_bucket l with
        | Some uid =>
            if cidr_granted <? granted
            then put_user uid (user_refund d (sat_sub granted cidr_granted) (get_user uid t)) t else t
        | None => t
        end in
      if cidr_granted =? 0 then (mkConsume 0 false true, observe_throttle d false true t)
      else (mkConsume cidr_granted false false, t)
  | _, _ => (mkConsume granted false false, t)
  end.

Definition lease_try_consume (elapsed_ms : Z) (d : RateDirection) (requested : Z) (l : TrafficLease)
    (t : TrafficLimiter) : TrafficConsumeResult * TrafficLimiter :=
  if requested =? 0 then (mkConsume 0 false false, t)
  else
    match ls_user_bucket l with
    | Some uid =>
        let '(user_granted, b) := user_try_consume elapsed_ms d requested (get_user uid t) in
        let t := put_user uid b t in
        if user_granted =? 0 then (mkConsume 0 true false, observe_throttle d true false t)
        else consume_cidr elapsed_ms d user_granted l t
    | None => consume_cidr elapsed_ms d requested l t
    end.

Definition lease_refund (d : RateDirection) (bytes : Z) (l : TrafficLease) (t : TrafficLimiter) : TrafficLimiter :=
  if bytes =? 0 then t
  else
    let t :=
      match ls_user_bucket l with
      | Some uid => put_user uid (user_refund d bytes (get_user uid t)) t
      | None => t
      end in
    match ls_cidr_bucket l, ls_cidr_user_share l with
    | Some cid, Some sid =>
        let '(s, b) := refund_for_user d bytes (get_share sid t) (get_cidr cid t) in
        put_cidr cid b (put_share sid s t)
    | _, _ => t
    end.

End limiter.
