(* ===== verification/LimiterInv.v ===== *)
(** The lease accounting of the limiter: counters equal the number of live
    leases, and the buckets of live leases stay registered. *)

From stdpp Require Import base list gmap numbers.
From S2P Require Import Prelude Net TrafficLimiter Limiter.
Local Open Scope Z_scope.

#[export] Instance user_bucket_inhabited : Inhabited UserBucket := populate (user_bucket_new (mkRate 0 0)).
#[export] Instance cidr_bucket_inhabited : Inhabited CidrBucket := populate (cidr_bucket_new (mkRate 0 0)).
#[export] Instance share_inhabited : Inhabited CidrUserShare := populate share_new.

Section inv.
Context {N : Type} `{IpNetwork N}.
Implicit Types (t : TrafficLimiter (N := N)) (l : TrafficLease).

(** The live leases, each with the user it was acquired for. *)
Implicit Types live : list (list Z * TrafficLease).

Definition count (P : TrafficLease -> bool) live : Z := Z.of_nat (length (filter (fun x => P x.2 = true) live)).

Definition uses_user (id : nat) l : bool := bool_decide (ls_user_bucket l = Some id).
Definition uses_cidr (id : nat) l : bool := bool_decide (ls_cidr_bucket l = Some id).
Definition uses_share (id : nat) l : bool := bool_decide (ls_cidr_user_share l = Some id).
Definition has_user l : bool := bool_decide (is_Some (ls_user_bucket l)).
Definition has_cidr l : bool := bool_decide (is_Some (ls_cidr_bucket l)).

(** A lease has a network bucket, its own user key and a share, or none of them. *)
Definition lease_ok (x : list Z * TrafficLease) : Prop :=
  match ls_cidr_bucket x.2, ls_cidr_user_key x.2, ls_cidr_user_share x.2 with
  | Some _, Some k, Some _ => k = x.1
  | None, None, None => True
  | _, _, _ => False
  end.

Record Inv t live : Prop := {
  inv_leases : Forall lease_ok live;
  inv_count : Z.of_nat (length live) < 2 ^ 64;
  inv_users : forall id b, tl_users t !! id = Some b -> ub_active_leases b = count (uses_user id) live;
  inv_cidrs : forall id b, tl_cidrs t !! id = Some b -> cb_active_leases b = count (uses_cidr id) live;
  inv_shares : forall id s, tl_shares t !! id = Some s -> cs_active_conns s = count (uses_share id) live;
  inv_user_scope : scope_active_leases (tl_user_scope t) = count has_user live;
  inv_cidr_scope : scope_active_leases (tl_cidr_scope t) = count has_cidr live;
  inv_reg_user : forall u l id, (u, l) ∈ live -> ls_user_bucket l = Some id -> tl_user_buckets t !! u = Some id;
  inv_reg_cidr : forall u l id, (u, l) ∈ live -> ls_cidr_bucket l = Some id ->
    exists key, tl_cidr_buckets t !! key = Some id;
  inv_reg_share : forall u l id sid b, (u, l) ∈ live -> ls_cidr_bucket l = Some id ->
    ls_cidr_user_share l = Some sid -> tl_cidrs t !! id = Some b -> cb_users b !! u = Some sid;
  inv_heap_user : forall k id, tl_user_buckets t !! k = Some id -> is_Some (tl_users t !! id);
  inv_heap_cidr : forall k id, tl_cidr_buckets t !! k = Some id -> is_Some (tl_cidrs t !! id);
  inv_heap_share : forall id b u sid, tl_cidrs t !! id = Some b -> cb_users b !! u = Some sid ->
    is_Some (tl_shares t !! sid);
  inv_fresh : forall id, (tl_next t <= id)%nat ->
    tl_users t !! id = None /\ tl_cidrs t !! id = None /\ tl_shares t !! id = None;
}.

(** ** Counting *)

Lemma count_cons P u l live : count P ((u, l) :: live) = (if P l then 1 else 0) + count P live.
Proof.
  unfold count. rewrite list.filter_cons. cbn [snd]. destruct (P l).
  - rewrite decide_True by done. cbn [length]. rewrite Nat2Z.inj_succ. lia.
  - by rewrite decide_False.
Qed.

Lemma count_nonneg P live : 0 <= count P live <= Z.of_nat (length live).
Proof. unfold count. pose proof (list.length_filter (fun x : list Z * TrafficLease => P x.2 = true) live). lia. Qed.

Lemma count_zero P live : (forall u l, (u, l) ∈ live -> P l = false) -> count P live = 0.
Proof.
  induction live as [|[u l] live IH]; intros Hz; [done|]. rewrite count_cons, (Hz u l) by apply list_elem_of_here.
  rewrite IH; [done|]. intros u' l' Hin. apply (Hz u'). by apply list_elem_of_further.
Qed.

Lemma count_pos P u l live : (u, l) ∈ live -> P l = true -> 0 < count P live.
Proof.
  induction live as [|[u' l'] live IH]; [by intros ?%elem_of_nil|]. rewrite elem_of_cons, count_cons.
  intros [[= <- <-]|Hin] HP; [rewrite HP; pose proof (count_nonneg P live); lia|].
  specialize (IH Hin HP). destruct (P l'); lia.
Qed.

Lemma count_perm P live live' : live ≡ₚ live' -> count P live = count P live'.
Proof. intros Hp. unfold count. by rewrite Hp. Qed.

(** The order of the live leases does not matter. *)
Lemma Inv_perm t live live' : live ≡ₚ live' -> Inv t live -> Inv t live'.
Proof.
  intros Hp [H1 H2 H3 H4 H5 H6 H7 H8 H9 H10 H11 H12 H13 H14].
  constructor; try done.
  - by rewrite <- Hp.
  - by rewrite <- Hp.
  - intros id b Hb. rewrite <- (count_perm _ _ _ Hp). by apply H3.
  - intros id b Hb. rewrite <- (count_perm _ _ _ Hp). by apply H4.
  - intros id b Hb. rewrite <- (count_perm _ _ _ Hp). by apply H5.
  - by rewrite <- (count_perm _ _ _ Hp).
  - by rewrite <- (count_perm _ _ _ Hp).
  - intros u l id. rewrite <- Hp. apply H8.
  - intros u l id. rewrite <- Hp. apply H9.
  - intros u l id sid b. rewrite <- Hp. apply H10.
Qed.

(** A live lease only names objects of the heap, so a fresh identifier is unused. *)
Lemma fresh_uses t live id :
  Inv t live -> (tl_next t <= id)%nat ->
  count (uses_user id) live = 0 /\ count (uses_cidr id) live = 0 /\ count (uses_share id) live = 0.
Proof.
  intros HI Hid. destruct (inv_fresh _ _ HI id Hid) as (Hu & Hc & Hs).
  split_and!; apply count_zero; intros u l Hin; unfold uses_user, uses_cidr, uses_share; apply bool_decide_false; intros Heq.
  - pose proof (inv_reg_user _ _ HI _ _ _ Hin Heq) as Hr.
    destruct (inv_heap_user _ _ HI _ _ Hr) as [? ?]. congruence.
  - destruct (inv_reg_cidr _ _ HI _ _ _ Hin Heq) as [k Hr].
    destruct (inv_heap_cidr _ _ HI _ _ Hr) as [? ?]. congruence.
  - pose proof (inv_leases _ _ HI) as Hl. rewrite list.Forall_forall in Hl. specialize (Hl _ Hin). unfold lease_ok in Hl.
    cbn [fst snd] in Hl. rewrite Heq in Hl. destruct (ls_cidr_bucket l) as [cid|] eqn:Hcid; [|by destruct (ls_cidr_user_key l)].
    destruct (inv_reg_cidr _ _ HI _ _ _ Hin Hcid) as [k Hr].
    destruct (inv_heap_cidr _ _ HI _ _ Hr) as [b Hb].
    pose proof (inv_reg_share _ _ HI _ _ _ _ _ Hin Hcid Heq Hb) as Hsh.
    destruct (inv_heap_share _ _ HI _ _ _ _ Hb Hsh) as [? ?]. congruence.
Qed.

Lemma Inv_new : Inv limiter_new [].
Proof.
  constructor; cbn [limiter_new tl_users tl_cidrs tl_shares tl_user_buckets tl_cidr_buckets tl_user_scope tl_cidr_scope]; try done;
    try (intros; rewrite ?lookup_empty in *; done); try (intros u l id Hin; by apply elem_of_nil in Hin).
Qed.

(** ** Changes that leave the accounting alone *)

Definition cidr_account (b : CidrBucket) : Z * gmap (list Z) nat := (cb_active_leases b, cb_users b).

Record quiet t t' : Prop := {
  quiet_user_reg : tl_user_buckets t' = tl_user_buckets t;
  quiet_cidr_reg : tl_cidr_buckets t' = tl_cidr_buckets t;
  quiet_next : tl_next t' = tl_next t;
  quiet_users : forall id, ub_active_leases <$> tl_users t' !! id = ub_active_leases <$> tl_users t !! id;
  quiet_cidrs : forall id, cidr_account <$> tl_cidrs t' !! id = cidr_account <$> tl_cidrs t !! id;
  quiet_shares : forall id, cs_active_conns <$> tl_shares t' !! id = cs_active_conns <$> tl_shares t !! id;
  quiet_user_scope : scope_active_leases (tl_user_scope t') = scope_active_leases (tl_user_scope t);
  quiet_cidr_scope : scope_active_leases (tl_cidr_scope t') = scope_active_leases (tl_cidr_scope t);
}.

Lemma quiet_refl t : quiet t t.
Proof. by constructor. Qed.

Lemma quiet_trans t1 t2 t3 : quiet t1 t2 -> quiet t2 t3 -> quiet t1 t3.
Proof.
  intros [] []. constructor; try congruence; intros id; etrans; eauto.
Qed.

Lemma fmap_Some_back {A B} (f : A -> B) (o o' : option A) x :
  f <$> o' = f <$> o -> o' = Some x -> exists y, o = Some y /\ f y = f x.
Proof. intros He ->. destruct o as [y|]; [|done]. exists y. by simplify_eq/=. Qed.

Lemma Inv_quiet t t' live : quiet t t' -> Inv t live -> Inv t' live.
Proof.
  intros Hq HI. destruct Hq as [Q1 Q2 Q3 Q4 Q5 Q6 Q7 Q8]. constructor.
  - apply (inv_leases _ _ HI).
  - apply (inv_count _ _ HI).
  - intros id b Hb. destruct (fmap_Some_back _ _ _ _ (Q4 id) Hb) as (y & Hy & <-). by apply (inv_users _ _ HI).
  - intros id b Hb. destruct (fmap_Some_back _ _ _ _ (Q5 id) Hb) as (y & Hy & [= <- _]). by apply (inv_cidrs _ _ HI).
  - intros id b Hb. destruct (fmap_Some_back _ _ _ _ (Q6 id) Hb) as (y & Hy & <-). by apply (inv_shares _ _ HI).
  - rewrite Q7. apply (inv_user_scope _ _ HI).
  - rewrite Q8. apply (inv_cidr_scope _ _ HI).
  - rewrite Q1. apply (inv_reg_user _ _ HI).
  - rewrite Q2. apply (inv_reg_cidr _ _ HI).
  - intros u l id sid b Hin Hc Hs Hb. destruct (fmap_Some_back _ _ _ _ (Q5 id) Hb) as (y & Hy & [= _ <-]).
    by eapply (inv_reg_share _ _ HI).
  - rewrite Q1. intros k id Hk. apply (inv_heap_user _ _ HI) in Hk. apply (fmap_is_Some ub_active_leases).
    rewrite Q4. by apply fmap_is_Some.
  - rewrite Q2. intros k id Hk. apply (inv_heap_cidr _ _ HI) in Hk. apply (fmap_is_Some cidr_account).
    rewrite Q5. by apply fmap_is_Some.
  - intros id b u sid Hb Hu. destruct (fmap_Some_back _ _ _ _ (Q5 id) Hb) as (y & Hy & [= _ Heq]).
    rewrite <- Heq in Hu. apply (inv_heap_share _ _ HI _ _ _ _ Hy) in Hu.
    apply (fmap_is_Some cs_active_conns). rewrite Q6. by apply fmap_is_Some.
  - intros id Hid. rewrite Q3 in Hid. destruct (inv_fresh _ _ HI id Hid) as (Hu & Hc & Hs).
    rewrite <- (fmap_None ub_active_leases), <- (fmap_None cidr_account), <- (fmap_None cs_active_conns).
    by rewrite Q4, Q5, Q6, Hu, Hc, Hs.
Qed.

Lemma put_user_quiet id b t :
  is_Some (tl_users t !! id) -> ub_active_leases b = ub_active_leases (get_user id t) -> quiet t (put_user id b t).
Proof.
  intros [x Hx] Hb. unfold get_user in Hb. rewrite (lookup_total_correct _ _ _ Hx) in Hb.
  constructor; try done. intros j. cbn [put_user with_users tl_users].
  destruct (decide (j = id)) as [->|Hne]; [|by rewrite lookup_insert_ne].
  rewrite lookup_insert_eq, Hx. cbn. by rewrite Hb.
Qed.

Lemma put_cidr_quiet id b t :
  is_Some (tl_cidrs t !! id) -> cidr_account b = cidr_account (get_cidr id t) -> quiet t (put_cidr id b t).
Proof.
  intros [x Hx] Hb. unfold get_cidr in Hb. rewrite (lookup_total_correct _ _ _ Hx) in Hb.
  constructor; try done. intros j. cbn [put_cidr with_cidrs tl_cidrs].
  destruct (decide (j = id)) as [->|Hne]; [|by rewrite lookup_insert_ne].
  rewrite lookup_insert_eq, Hx. cbn [fmap option_fmap option_map]. by rewrite Hb.
Qed.

Lemma put_share_quiet id s t :
  is_Some (tl_shares t !! id) -> cs_active_conns s = cs_active_conns (get_share id t) -> quiet t (put_share id s t).
Proof.
  intros [x Hx] Hb. unfold get_share in Hb. rewrite (lookup_total_correct _ _ _ Hx) in Hb.
  constructor; try done. intros j. cbn [put_share with_shares tl_shares].
  destruct (decide (j = id)) as [->|Hne]; [|by rewrite lookup_insert_ne].
  rewrite lookup_insert_eq, Hx. cbn. by rewrite Hb.
Qed.

Lemma scopes_quiet u c t :
  scope_active_leases u = scope_active_leases (tl_user_scope t) ->
  scope_active_leases c = scope_active_leases (tl_cidr_scope t) -> quiet t (with_scopes u c t).
Proof. intros. by constructor. Qed.

(** ** Acquiring *)

Definition empty_lease : TrafficLease := mkLease None None None None.
Definition user_lease (ob : option nat) : TrafficLease := mkLease ob None None None.

Lemma Inv_empty_lease t live u :
  Z.of_nat (length live) + 1 < 2 ^ 64 -> Inv t live <-> Inv t ((u, empty_lease) :: live).
Proof.
  intros Hlen.
  split; intros HI; constructor; try apply HI.
  - constructor; [done | apply (inv_leases _ _ HI)].
  - cbn [length]. lia.
  - intros u' l id [[= -> ->]|Hin]%elem_of_cons; [done | by apply (inv_reg_user _ _ HI)].
  - intros u' l id [[= -> ->]|Hin]%elem_of_cons; [done | by apply (inv_reg_cidr _ _ HI _ _ _ Hin)].
  - intros u' l id sid b [[= -> ->]|Hin]%elem_of_cons; [done | by apply (inv_reg_share _ _ HI)].
  - pose proof (inv_leases _ _ HI) as Hl. by apply Forall_cons_1 in Hl as [_ ?].
  - lia.
  - intros u' l id Hin. apply (inv_reg_user _ _ HI). by apply list_elem_of_further.
  - intros u' l id Hin. apply (inv_reg_cidr _ _ HI u'). by apply list_elem_of_further.
  - intros u' l id sid b Hin. apply (inv_reg_share _ _ HI). by apply list_elem_of_further.
Qed.

Lemma get_or_insert_user_inv key limits t live :
  Inv t live ->
  let r := get_or_insert_user key limits t in
  Inv r.2 live /\ tl_user_buckets r.2 !! key = Some r.1.
Proof.
  intros HI. unfold get_or_insert_user. destruct (tl_user_buckets t !! key) as [id|] eqn:Hk; [done|].
  cbn [fst snd]. destruct (fresh_uses t live (tl_next t) HI (le_n _)) as (Hu0 & _).
  destruct (inv_fresh _ _ HI (tl_next t) (le_n _)) as (Hfu & _).
  split; [|apply lookup_insert_eq].
  constructor; cbn [with_next with_users tl_users tl_cidrs tl_shares tl_user_buckets tl_cidr_buckets tl_next tl_user_scope tl_cidr_scope]; try apply HI.
  - intros id b. destruct (decide (id = tl_next t)) as [->|Hne].
    + rewrite lookup_insert_eq. intros [= <-]. cbn. by rewrite Hu0.
    + rewrite lookup_insert_ne by done. apply (inv_users _ _ HI).
  - intros u l id Hin Hl. pose proof (inv_reg_user _ _ HI _ _ _ Hin Hl) as Hr.
    rewrite lookup_insert_ne by congruence. done.
  - intros k id. destruct (decide (k = key)) as [->|Hne].
    + rewrite lookup_insert_eq. intros [= <-]. rewrite lookup_insert_eq. eauto.
    + rewrite lookup_insert_ne by done. intros Hk'. destruct (inv_heap_user _ _ HI _ _ Hk') as [x Hx].
      rewrite lookup_insert_ne by congruence. eauto.
  - intros id Hid. destruct (inv_fresh _ _ HI id ltac:(lia)) as (? & ? & ?).
    rewrite lookup_insert_ne by lia. done.
Qed.

Lemma wrap_small a : 0 <= a -> a + 1 < 2 ^ 64 -> wrap_add a 1 = a + 1.
Proof. intros. unfold wrap_add. apply Z.mod_small. lia. Qed.

Lemma lease_user_inv user t live :
  Inv t live -> Z.of_nat (length live) + 1 < 2 ^ 64 ->
  let r := lease_user user t in Inv r.2 ((user, user_lease r.1) :: live).
Proof.
  intros HI Hlen. unfold lease_user. destruct (user_limits (tl_policy t) !! user) as [limit|]; [|by apply Inv_empty_lease].
  destruct (get_or_insert_user_inv user limit t live HI) as [HI1 Hreg].
  destruct (get_or_insert_user user limit t) as [id t1]. cbn [fst snd] in *.
  destruct (inv_heap_user _ _ HI1 _ _ Hreg) as [b Hb].
  unfold get_user. rewrite (lookup_total_correct _ _ _ Hb).
  pose proof (inv_users _ _ HI1 _ _ Hb) as Hact. pose proof (inv_user_scope _ _ HI1) as Hsc.
  pose proof (count_nonneg (uses_user id) live). pose proof (count_nonneg has_user live).
  constructor; cbn [put_user with_users with_scopes tl_users tl_cidrs tl_shares tl_user_buckets tl_cidr_buckets tl_next tl_user_scope tl_cidr_scope scope_set_leases scope_active_leases user_set_rates user_set_leases ub_active_leases];
    try apply HI1.
  - constructor; [done | apply (inv_leases _ _ HI1)].
  - cbn [length]. lia.
  - intros id' b'. rewrite count_cons. unfold uses_user at 1. cbn [user_lease ls_user_bucket].
    destruct (decide (id' = id)) as [->|Hne].
    + rewrite lookup_insert_eq. intros [= <-]. cbn [user_set_leases ub_active_leases user_set_rates].
      rewrite bool_decide_true by done. rewrite wrap_small by lia. lia.
    + rewrite lookup_insert_ne by done. intros Hb'. rewrite bool_decide_false by congruence.
      rewrite (inv_users _ _ HI1 _ _ Hb'). lia.
  - rewrite count_cons. unfold has_user at 1. cbn [user_lease ls_user_bucket]. rewrite bool_decide_true by eauto.
    rewrite wrap_small by lia. lia.
  - intros u l id' [[= -> ->]|Hin]%elem_of_cons; [by intros [= <-] | by apply (inv_reg_user _ _ HI1)].
  - intros u l id' [[= -> ->]|Hin]%elem_of_cons; [done | by apply (inv_reg_cidr _ _ HI1 _ _ _ Hin)].
  - intros u l id' sid b' [[= -> ->]|Hin]%elem_of_cons; [done | by apply (inv_reg_share _ _ HI1)].
  - intros k id' Hk. destruct (decide (id' = id)) as [->|Hne]; [rewrite lookup_insert_eq; eauto|].
    rewrite lookup_insert_ne by done. by apply (inv_heap_user _ _ HI1 k).
  - intros id' Hid. destruct (inv_fresh _ _ HI1 id' Hid) as (Hu & ? & ?).
    rewrite lookup_insert_ne by congruence. done.
Qed.

Lemma get_or_insert_cidr_inv key limits t live :
  Inv t live ->
  let r := get_or_insert_cidr key limits t in
  Inv r.2 live /\ tl_cidr_buckets r.2 !! key = Some r.1.
Proof.
  intros HI. unfold get_or_insert_cidr. destruct (tl_cidr_buckets t !! key) as [id|] eqn:Hk; [done|].
  cbn [fst snd]. destruct (fresh_uses t live (tl_next t) HI (le_n _)) as (_ & Hc0 & _).
  destruct (inv_fresh _ _ HI (tl_next t) (le_n _)) as (_ & Hfc & _).
  split; [|apply lookup_insert_eq].
  constructor; cbn [with_next with_cidrs tl_users tl_cidrs tl_shares tl_user_buckets tl_cidr_buckets tl_next tl_user_scope tl_cidr_scope]; try apply HI.
  - intros id b. destruct (decide (id = tl_next t)) as [->|Hne].
    + rewrite lookup_insert_eq. intros [= <-]. cbn. by rewrite Hc0.
    + rewrite lookup_insert_ne by done. apply (inv_cidrs _ _ HI).
  - intros u l id Hin Hl. destruct (inv_reg_cidr _ _ HI _ _ _ Hin Hl) as [k Hr]. exists k.
    rewrite lookup_insert_ne by congruence. done.
  - intros u l id sid b Hin Hl Hs. destruct (inv_reg_cidr _ _ HI _ _ _ Hin Hl) as [k Hr].
    destruct (inv_heap_cidr _ _ HI _ _ Hr) as [x Hx]. rewrite lookup_insert_ne by congruence.
    by eapply (inv_reg_share _ _ HI).
  - intros k id. destruct (decide (k = key)) as [->|Hne].
    + rewrite lookup_insert_eq. intros [= <-]. rewrite lookup_insert_eq. eauto.
    + rewrite lookup_insert_ne by done. intros Hk'. destruct (inv_heap_cidr _ _ HI _ _ Hk') as [x Hx].
      rewrite lookup_insert_ne by congruence. eauto.
  - intros id b u sid. destruct (decide (id = tl_next t)) as [->|Hne].
    + rewrite lookup_insert_eq. intros [= <-]. cbn. by rewrite lookup_empty.
    + rewrite lookup_insert_ne by done. apply (inv_heap_share _ _ HI).
  - intros id Hid. destruct (inv_fresh _ _ HI id ltac:(lia)) as (? & ? & ?).
    rewrite lookup_insert_ne by lia. done.
Qed.

(** Registering a new share for a user of a network bucket. *)
Lemma insert_share_inv user cid b t live :
  Inv t live -> tl_cidrs t !! cid = Some b -> cb_users b !! user = None ->
  Inv (put_share (tl_next t) share_new
        (put_cidr cid (cidr_set_users (<[user := tl_next t]> (cb_users b)) b) (with_next (S (tl_next t)) t))) live.
Proof.
  intros HI Hb Hu. destruct (fresh_uses t live (tl_next t) HI (le_n _)) as (_ & _ & Hs0).
  destruct (inv_fresh _ _ HI (tl_next t) (le_n _)) as (_ & _ & Hfs).
  constructor; cbn [put_share put_cidr with_next with_cidrs with_shares tl_users tl_cidrs tl_shares tl_user_buckets tl_cidr_buckets tl_next tl_user_scope tl_cidr_scope]; try apply HI.
  - intros id x. destruct (decide (id = cid)) as [->|Hne].
    + rewrite lookup_insert_eq. intros [= <-]. exact (inv_cidrs _ _ HI _ _ Hb).
    + rewrite lookup_insert_ne by done. apply (inv_cidrs _ _ HI).
  - intros id x. destruct (decide (id = tl_next t)) as [->|Hne].
    + rewrite lookup_insert_eq. intros [= <-]. cbn. by rewrite Hs0.
    + rewrite lookup_insert_ne by done. apply (inv_shares _ _ HI).
  - intros u l id sid x Hin Hl Hs. destruct (decide (id = cid)) as [->|Hne].
    + rewrite lookup_insert_eq. intros [= <-]. cbn.
      pose proof (inv_reg_share _ _ HI _ _ _ _ _ Hin Hl Hs Hb) as Hr.
      rewrite lookup_insert_ne by congruence. done.
    + rewrite lookup_insert_ne by done. by eapply (inv_reg_share _ _ HI).
  - intros k id Hk. destruct (inv_heap_cidr _ _ HI _ _ Hk) as [x Hx]. apply lookup_insert_is_Some'. eauto.
  - intros id x u sid. destruct (decide (id = cid)) as [->|Hne].
    + rewrite lookup_insert_eq. intros [= <-]. cbn. destruct (decide (u = user)) as [->|Hnu].
      * rewrite lookup_insert_eq. intros [= <-]. rewrite lookup_insert_eq. eauto.
      * rewrite lookup_insert_ne by done. intros Hx. destruct (inv_heap_share _ _ HI _ _ _ _ Hb Hx) as [y Hy].
        apply lookup_insert_is_Some'. eauto.
    + rewrite lookup_insert_ne by done. intros Hx Hux. destruct (inv_heap_share _ _ HI _ _ _ _ Hx Hux) as [y Hy].
      apply lookup_insert_is_Some'. eauto.
  - intros id Hid. destruct (inv_fresh _ _ HI id ltac:(lia)) as (? & ? & ?).
    rewrite !lookup_insert_ne; [done | lia | congruence].
Qed.

Lemma user_lease_uses ob id :
  uses_cidr id (user_lease ob) = false /\ uses_share id (user_lease ob) = false /\ has_cidr (user_lease ob) = false.
Proof. done. Qed.

(** Counting one more lease on a network bucket and a share. *)
Lemma bump_cidr_inv user ob cid sid key b b' s s' t t' live :
  Inv t ((user, user_lease ob) :: live) ->
  tl_cidr_buckets t !! key = Some cid -> tl_cidrs t !! cid = Some b -> cb_users b !! user = Some sid ->
  tl_shares t !! sid = Some s ->
  cidr_account b' = (wrap_add (cb_active_leases b) 1, cb_users b) ->
  cs_active_conns s' = wrap_add (cs_active_conns s) 1 ->
  scope_active_leases (tl_cidr_scope t') = wrap_add (scope_active_leases (tl_cidr_scope t)) 1 ->
  tl_cidrs t' = <[cid := b']> (tl_cidrs t) -> tl_shares t' = <[sid := s']> (tl_shares t) ->
  tl_users t' = tl_users t -> tl_user_buckets t' = tl_user_buckets t ->
  tl_cidr_buckets t' = tl_cidr_buckets t -> tl_next t' = tl_next t -> tl_user_scope t' = tl_user_scope t ->
  Inv t' ((user, mkLease ob (Some cid) (Some user) (Some sid)) :: live).
Proof.
  intros HI Hkey Hb Hu Hs [= Hb1 Hb2] Hs' Hsc Hc Hsh Hus Hur Hcr Hnx Hsu.
  set (l := mkLease ob (Some cid) (Some user) (Some sid)).
  pose proof (inv_cidrs _ _ HI _ _ Hb) as Hact. pose proof (inv_shares _ _ HI _ _ Hs) as Hconn.
  pose proof (inv_cidr_scope _ _ HI) as Hscope. pose proof (inv_count _ _ HI) as Hlen. cbn [length] in Hlen.
  rewrite count_cons in Hact, Hconn, Hscope.
  rewrite (proj1 (user_lease_uses ob cid)) in Hact. rewrite (proj1 (proj2 (user_lease_uses ob sid))) in Hconn.
  rewrite (proj2 (proj2 (user_lease_uses ob sid))) in Hscope.
  pose proof (count_nonneg (uses_cidr cid) live). pose proof (count_nonneg (uses_share sid) live).
  pose proof (count_nonneg has_cidr live).
  constructor; rewrite ?Hus, ?Hur, ?Hcr, ?Hnx, ?Hsu, ?Hc, ?Hsh.
  - pose proof (inv_leases _ _ HI) as Hl. apply Forall_cons_1 in Hl as [_ Hl]. by constructor.
  - cbn [length]. lia.
  - intros id x Hx. by rewrite (inv_users _ _ HI _ _ Hx), !count_cons.
  - intros id x. rewrite count_cons. unfold uses_cidr at 1. cbn [l ls_cidr_bucket].
    destruct (decide (id = cid)) as [->|Hne].
    + rewrite lookup_insert_eq. intros [= <-]. rewrite bool_decide_true by done. rewrite Hb1, wrap_small by lia. lia.
    + rewrite lookup_insert_ne by done. rewrite bool_decide_false by congruence. intros Hx.
      rewrite (inv_cidrs _ _ HI _ _ Hx), count_cons. done.
  - intros id x. rewrite count_cons. unfold uses_share at 1. cbn [l ls_cidr_user_share].
    destruct (decide (id = sid)) as [->|Hne].
    + rewrite lookup_insert_eq. intros [= <-]. rewrite bool_decide_true by done. rewrite Hs', wrap_small by lia. lia.
    + rewrite lookup_insert_ne by done. rewrite bool_decide_false by congruence. intros Hx.
      rewrite (inv_shares _ _ HI _ _ Hx), count_cons. done.
  - by rewrite (inv_user_scope _ _ HI), !count_cons.
  - rewrite count_cons. unfold has_cidr at 1. cbn [l ls_cidr_bucket]. rewrite bool_decide_true by eauto.
    rewrite Hsc, wrap_small by lia. lia.
  - intros u' l' id [[= -> ->]|Hin]%elem_of_cons Hl'.
    + by apply (inv_reg_user _ _ HI user (user_lease ob)); [apply list_elem_of_here|].
    + apply (inv_reg_user _ _ HI u' l'); [by apply list_elem_of_further | done].
  - intros u' l' id [[= -> ->]|Hin]%elem_of_cons Hl'; [injection Hl' as <-; eauto|].
    apply (inv_reg_cidr _ _ HI u' l'); [by apply list_elem_of_further | done].
  - assert (forall u' l' id sid' x, (u', l') ∈ live -> ls_cidr_bucket l' = Some id -> ls_cidr_user_share l' = Some sid' ->
      tl_cidrs t !! id = Some x -> cb_users x !! u' = Some sid') as Hold.
    { intros u' l' id sid' x Hin. apply (inv_reg_share _ _ HI). by apply list_elem_of_further. }
    intros u' l' id sid' x Hin Hl' Hs'' Hx. destruct (decide (id = cid)) as [->|Hne].
    + rewrite lookup_insert_eq in Hx. injection Hx as <-. rewrite Hb2.
      apply elem_of_cons in Hin as [[= -> ->]|Hin]; [by injection Hs'' as <- | by eapply Hold].
    + rewrite lookup_insert_ne in Hx by done.
      apply elem_of_cons in Hin as [[= -> ->]|Hin]; [by injection Hl' as ?; congruence | by eapply Hold].
  - apply (inv_heap_user _ _ HI).
  - intros k id Hk. destruct (inv_heap_cidr _ _ HI _ _ Hk) as [x Hx]. apply lookup_insert_is_Some'. eauto.
  - intros id x u' sid' Hx Hux. apply lookup_insert_is_Some'. right. destruct (decide (id = cid)) as [->|Hnc].
    + rewrite lookup_insert_eq in Hx. injection Hx as <-. rewrite Hb2 in Hux. by eapply (inv_heap_share _ _ HI).
    + rewrite lookup_insert_ne in Hx by done. by eapply (inv_heap_share _ _ HI).
  - intros id Hid. destruct (inv_fresh _ _ HI id Hid) as (? & ? & ?).
    rewrite !lookup_insert_ne by congruence. done.
Qed.

Definition cidr_lease (ob : option nat) (user : list Z) (c : option (nat * nat)) : TrafficLease :=
  mkLease ob (fst <$> c) ((fun _ => user) <$> c) (snd <$> c).

Lemma lease_cidr_inv user ob ip p t live :
  Inv t ((user, user_lease ob) :: live) ->
  let r := lease_cidr user ip p t in Inv r.2 ((user, cidr_lease ob user r.1) :: live).
Proof.
  intros HI. unfold lease_cidr. destruct (match_cidr ip p) as [m|]; [|done].
  destruct (match m with Explicit rule => (cr_key rule, cr_limits rule) | Auto key limits => (key, limits) end)
    as [key limits].
  destruct (get_or_insert_cidr_inv key limits t _ HI) as [HI1 Hreg].
  destruct (get_or_insert_cidr key limits t) as [cid t1]. cbn [fst snd] in *.
  destruct (inv_heap_cidr _ _ HI1 _ _ Hreg) as [b Hb].
  unfold acquire_user_share, get_cidr, get_share.
  rewrite (lookup_total_correct _ _ _ Hb).
  cbn [with_scopes put_cidr with_cidrs tl_cidrs tl_shares tl_next tl_cidr_scope tl_user_scope].
  rewrite lookup_total_insert_eq. cbn [cidr_set_leases cidr_set_rates cb_users cb_active_leases].
  destruct (cb_users b !! user) as [sid|] eqn:Hu.
  - destruct (inv_heap_share _ _ HI1 _ _ _ _ Hb Hu) as [s Hs].
    cbn [with_scopes put_cidr with_cidrs tl_shares]. rewrite (lookup_total_correct _ _ _ Hs). cbn [fst snd cidr_lease fmap option_fmap option_map].
    eapply (bump_cidr_inv user ob cid sid key b _ s _ t1 _ live HI1 Hreg Hb Hu Hs);
      [ | | | reflexivity ..]; reflexivity.
  - pose proof (insert_share_inv user cid b t1 _ HI1 Hb Hu) as HI2.
    cbn [put_share with_shares tl_shares with_next tl_next].
    rewrite lookup_total_insert_eq. cbn [fst snd cidr_lease fmap option_fmap option_map].
    set (b1 := cidr_set_leases (wrap_add (cb_active_leases b) 1) (cidr_set_rates limits b)).
    apply (bump_cidr_inv user ob cid (tl_next t1) key
      (cidr_set_users (<[user := tl_next t1]> (cb_users b)) b)
      (cidr_set_users (<[user := tl_next t1]> (cb_users b)) b1) share_new
      (share_set_conns (wrap_add (cs_active_conns share_new) 1) share_new) _ _ live HI2);
      cbn [put_share put_cidr with_next with_cidrs with_shares with_scopes tl_cidrs tl_shares cidr_set_users cb_users];
      rewrite ?lookup_insert_eq, ?insert_insert_eq; done.
Qed.

(** ** Cleanup *)

(** A network bucket before and after the visit of the cleanup. *)
Definition pruned t (b b' : CidrBucket) : Prop := b' = b \/ b' = cleanup_idle_users t b.

Lemma cleanup_idle_users_idem t b : cleanup_idle_users t (cleanup_idle_users t b) = cleanup_idle_users t b.
Proof.
  unfold cleanup_idle_users, cidr_set_users. cbn. f_equal. apply map_eq. intros u. apply option_eq. intros sid.
  rewrite !map_lookup_filter_Some. naive_solver.
Qed.

Lemma cleanup_heap t ids :
  (forall id, id ∈ ids -> is_Some (tl_cidrs t !! id)) ->
  let h := foldr (fun id h => <[id := cleanup_idle_users t (h !!! id)]> h) (tl_cidrs t) ids in
  forall id, match tl_cidrs t !! id, h !! id with
    | Some b, Some b' => pruned t b b'
    | None, None => True
    | _, _ => False
    end.
Proof.
  induction ids as [|i ids IH]; intros Hids h id.
  { unfold h. cbn [foldr]. destruct (tl_cidrs t !! id); [by left | done]. }
  unfold h. cbn [foldr]. set (h0 := foldr _ _ ids) in *.
  specialize (IH ltac:(intros x Hx; apply Hids; by apply list_elem_of_further)).
  destruct (decide (id = i)) as [->|Hne]; [|rewrite lookup_insert_ne by done; apply IH].
  rewrite lookup_insert_eq. destruct (Hids i (list_elem_of_here _ _)) as [b Hb].
  specialize (IH i). cbn zeta in IH. fold h0 in IH. rewrite Hb in *. destruct (h0 !! i) as [b0|] eqn:Hh; [|done].
  rewrite (lookup_total_correct _ _ _ Hh). right. destruct IH as [->| ->]; [done | apply cleanup_idle_users_idem].
Qed.

Lemma pruned_account t b b' : pruned t b b' -> cb_active_leases b' = cb_active_leases b /\ cb_users b' ⊆ cb_users b.
Proof. intros [->| ->]; [done|]. split; [done|]. cbn. apply map_filter_subseteq. Qed.

Lemma maybe_cleanup_inv now t live : Inv t live -> Inv (maybe_cleanup now t) live.
Proof.
  intros HI. unfold maybe_cleanup. destruct (_ <? CLEANUP_INTERVAL_SECS); [done|].
  assert (forall id, id ∈ (map_to_list (tl_cidr_buckets t)).*2 -> is_Some (tl_cidrs t !! id)) as Hids.
  { intros id Hid. apply list_elem_of_fmap in Hid as ([k id'] & -> & Hk%elem_of_map_to_list).
    by apply (inv_heap_cidr _ _ HI k). }
  pose proof (cleanup_heap t _ Hids) as Hh. cbv zeta in Hh.
  set (h := foldr _ (tl_cidrs t) _) in *.
  assert (forall id b', h !! id = Some b' -> exists b, tl_cidrs t !! id = Some b /\ pruned t b b') as Hback.
  { intros id b' Hb'. specialize (Hh id). rewrite Hb' in Hh. destruct (tl_cidrs t !! id) as [b|]; [eauto | done]. }
  assert (forall id b, tl_cidrs t !! id = Some b -> exists b', h !! id = Some b' /\ pruned t b b') as Hfwd.
  { intros id b Hb. specialize (Hh id). rewrite Hb in Hh. destruct (h !! id) as [b'|]; [eauto | done]. }
  constructor; cbn [tl_users tl_cidrs tl_shares tl_user_buckets tl_cidr_buckets tl_next tl_user_scope tl_cidr_scope]; try apply HI.
  - intros id b' Hb'. destruct (Hback id b' Hb') as (b & Hb & Hp). destruct (pruned_account _ _ _ Hp) as [-> _].
    by apply (inv_cidrs _ _ HI).
  - intros u l id Hin Hl. pose proof (inv_reg_user _ _ HI _ _ _ Hin Hl) as Hr.
    destruct (inv_heap_user _ _ HI _ _ Hr) as [b Hb].
    apply map_lookup_filter_Some. split; [done|]. left. unfold get_user. rewrite (lookup_total_correct _ _ _ Hb).
    rewrite (inv_users _ _ HI _ _ Hb). eapply count_pos; [exact Hin|]. unfold uses_user. by rewrite bool_decide_true.
  - intros u l id Hin Hl. destruct (inv_reg_cidr _ _ HI _ _ _ Hin Hl) as [k Hr]. exists k.
    destruct (inv_heap_cidr _ _ HI _ _ Hr) as [b Hb]. destruct (Hfwd _ _ Hb) as (b' & Hb' & Hp).
    apply map_lookup_filter_Some. split; [done|]. left. rewrite (lookup_total_correct _ _ _ Hb').
    destruct (pruned_account _ _ _ Hp) as [-> _]. rewrite (inv_cidrs _ _ HI _ _ Hb).
    eapply count_pos; [exact Hin|]. unfold uses_cidr. by rewrite bool_decide_true.
  - intros u l id sid b' Hin Hl Hs Hb'. destruct (Hback id b' Hb') as (b & Hb & Hp).
    pose proof (inv_reg_share _ _ HI _ _ _ _ _ Hin Hl Hs Hb) as Hu. destruct Hp as [->| ->]; [done|].
    cbn. apply map_lookup_filter_Some. split; [done|].
    destruct (inv_heap_share _ _ HI _ _ _ _ Hb Hu) as [x Hx]. unfold get_share. rewrite (lookup_total_correct _ _ _ Hx).
    rewrite (inv_shares _ _ HI _ _ Hx). eapply count_pos; [exact Hin|]. unfold uses_share. by rewrite bool_decide_true.
  - intros k id [Hk _]%map_lookup_filter_Some. by apply (inv_heap_user _ _ HI k).
  - intros k id [Hk _]%map_lookup_filter_Some. destruct (inv_heap_cidr _ _ HI _ _ Hk) as [b Hb].
    destruct (Hfwd _ _ Hb) as (b' & -> & _). eauto.
  - intros id b' u sid Hb' Hu. destruct (Hback id b' Hb') as (b & Hb & Hp). destruct (pruned_account _ _ _ Hp) as [_ Hsub].
    eapply (inv_heap_share _ _ HI); [exact Hb|]. by eapply map_subseteq_spec in Hsub.
  - intros id Hid. destruct (inv_fresh _ _ HI id Hid) as (? & Hc & ?). specialize (Hh id). rewrite Hc in Hh.
    destruct (h !! id); done.
Qed.

Lemma acquire_lease_inv now user ip t live :
  Inv t live -> Z.of_nat (length live) + 1 < 2 ^ 64 ->
  let r := acquire_lease now user ip t in
  match r.1 with
  | Some l => Inv r.2 ((user, l) :: live)
  | None => Inv r.2 live
  end.
Proof.
  intros HI Hlen. unfold acquire_lease. pose proof (lease_user_inv user t live HI Hlen) as HI1.
  destruct (lease_user user t) as [ob t1]. cbn [fst snd] in HI1.
  pose proof (lease_cidr_inv user ob ip (tl_policy t) t1 live HI1) as HI2.
  destruct (lease_cidr user ip (tl_policy t) t1) as [c t2]. cbn [fst snd] in HI2.
  destruct ob as [uid|], c as [[cid sid]|]; cbn [fst snd]; try (by apply maybe_cleanup_inv).
  by apply Inv_empty_lease in HI2.
Qed.

Lemma apply_policy_inv now users cidrs t live : Inv t live -> Inv (apply_policy now users cidrs t) live.
Proof. intros HI. unfold apply_policy. apply maybe_cleanup_inv. eapply Inv_quiet; [|exact HI]. by constructor. Qed.

(** ** Dropping *)

Lemma decrement_small a : 0 < a -> decrement_atomic_saturating a 1 = a - 1.
Proof.
  intros Ha. unfold decrement_atomic_saturating, sat_sub. cbn [Z.eqb].
  destruct (Z.eqb_spec a 0); lia.
Qed.

Definition without_user l : TrafficLease :=
  mkLease None (ls_cidr_bucket l) (ls_cidr_user_key l) (ls_cidr_user_share l).

Definition drop_user (id : nat) t : TrafficLimiter :=
  let b := get_user id t in
  let t := put_user id (user_set_leases (decrement_atomic_saturating (ub_active_leases b) 1) b) t in
  let sc := tl_user_scope t in
  with_scopes (scope_set_leases (decrement_atomic_saturating (scope_active_leases sc) 1) sc) (tl_cidr_scope t) t.

Lemma drop_user_inv u l id t live :
  Inv t ((u, l) :: live) -> ls_user_bucket l = Some id -> Inv (drop_user id t) ((u, without_user l) :: live).
Proof.
  intros HI Hl.
  pose proof (inv_reg_user _ _ HI u l id (list_elem_of_here _ _) Hl) as Hreg.
  destruct (inv_heap_user _ _ HI _ _ Hreg) as [b Hb]. unfold drop_user, get_user.
  rewrite (lookup_total_correct _ _ _ Hb).
  pose proof (inv_users _ _ HI _ _ Hb) as Hact. pose proof (inv_user_scope _ _ HI) as Hsc.
  rewrite count_cons in Hact, Hsc. unfold uses_user at 1 in Hact. unfold has_user at 1 in Hsc.
  rewrite bool_decide_true in Hact, Hsc by eauto.
  pose proof (count_nonneg (uses_user id) live). pose proof (count_nonneg has_user live).
  constructor; cbn [put_user with_users with_scopes tl_users tl_cidrs tl_shares tl_user_buckets tl_cidr_buckets tl_next tl_user_scope tl_cidr_scope scope_set_leases scope_active_leases];
    try apply HI.
  - pose proof (inv_leases _ _ HI) as Hok. apply Forall_cons_1 in Hok as [? ?]. by constructor.
  - intros id' b'. rewrite count_cons. unfold uses_user at 1. cbn [without_user ls_user_bucket].
    rewrite bool_decide_false by done. destruct (decide (id' = id)) as [->|Hne].
    + rewrite lookup_insert_eq. intros [= <-]. cbn [user_set_leases ub_active_leases]. rewrite decrement_small by lia. lia.
    + rewrite lookup_insert_ne by done. intros Hb'. rewrite (inv_users _ _ HI _ _ Hb'), count_cons.
      unfold uses_user at 1. rewrite Hl. rewrite bool_decide_false by congruence. lia.
  - intros id' b' Hb'. by rewrite (inv_cidrs _ _ HI _ _ Hb'), !count_cons.
  - intros id' b' Hb'. by rewrite (inv_shares _ _ HI _ _ Hb'), !count_cons.
  - rewrite count_cons. unfold has_user at 1. cbn [without_user ls_user_bucket].
    rewrite bool_decide_false by (by intros [? ?]). rewrite decrement_small by lia. lia.
  - by rewrite (inv_cidr_scope _ _ HI), !count_cons.
  - intros u' l' id' [[= -> ->]|Hin]%elem_of_cons; [done|].
    apply (inv_reg_user _ _ HI). by apply list_elem_of_further.
  - intros u' l' id' [[= -> ->]|Hin]%elem_of_cons Hl'.
    + by apply (inv_reg_cidr _ _ HI u l); [apply list_elem_of_here|].
    + by apply (inv_reg_cidr _ _ HI u' l'); [apply list_elem_of_further|].
  - intros u' l' id' sid b' [[= -> ->]|Hin]%elem_of_cons Hl' Hs Hb'.
    + by apply (inv_reg_share _ _ HI u l id' sid b'); [apply list_elem_of_here|..].
    + by apply (inv_reg_share _ _ HI u' l' id' sid b'); [apply list_elem_of_further|..].
  - intros k id' Hk. apply lookup_insert_is_Some'. right. by apply (inv_heap_user _ _ HI k).
  - intros id' Hid. destruct (inv_fresh _ _ HI id' Hid) as (? & ? & ?). rewrite lookup_insert_ne by congruence. done.
Qed.

Lemma drop_cidr_fields u cid sid b b' s s' t t' live :
  Inv t ((u, cidr_lease None u (Some (cid, sid))) :: live) ->
  tl_cidrs t !! cid = Some b -> tl_shares t !! sid = Some s ->
  cb_active_leases b' = cb_active_leases b - 1 ->
  cb_users b' = cb_users b \/ (cb_users b' = delete u (cb_users b) /\ count (uses_share sid) live = 0) ->
  cs_active_conns s' = cs_active_conns s - 1 ->
  scope_active_leases (tl_cidr_scope t') = scope_active_leases (tl_cidr_scope t) - 1 ->
  tl_cidrs t' = <[cid := b']> (tl_cidrs t) -> tl_shares t' = <[sid := s']> (tl_shares t) ->
  tl_users t' = tl_users t -> tl_user_buckets t' = tl_user_buckets t ->
  tl_cidr_buckets t' = tl_cidr_buckets t -> tl_next t' = tl_next t -> tl_user_scope t' = tl_user_scope t ->
  Inv t' live.
Proof.
  intros HI Hb Hs Hb1 Hb2 Hs' Hsc Hc Hsh Hus Hur Hcr Hnx Hsu.
  set (l := cidr_lease None u (Some (cid, sid))) in *.
  assert (forall u' l', (u', l') ∈ live -> (u', l') ∈ (u, l) :: live) as Hmore by (intros; by apply list_elem_of_further).
  pose proof (inv_reg_share _ _ HI u l cid sid b (list_elem_of_here _ _) eq_refl eq_refl Hb) as Hu.
  assert (cb_users b' ⊆ cb_users b) as Hsub by (destruct Hb2 as [->|[-> _]]; [done | apply delete_subseteq]).
  constructor; rewrite ?Hus, ?Hur, ?Hcr, ?Hnx, ?Hsu, ?Hc, ?Hsh.
  - pose proof (inv_leases _ _ HI) as Hl. by apply Forall_cons_1 in Hl as [_ ?].
  - pose proof (inv_count _ _ HI) as Hl. cbn [length] in Hl. lia.
  - intros id x Hx. by rewrite (inv_users _ _ HI _ _ Hx), count_cons.
  - intros id x. destruct (decide (id = cid)) as [->|Hne].
    + rewrite lookup_insert_eq. intros [= <-]. rewrite Hb1, (inv_cidrs _ _ HI _ _ Hb), count_cons.
      unfold uses_cidr at 1. rewrite bool_decide_true by done. lia.
    + rewrite lookup_insert_ne by done. intros Hx. rewrite (inv_cidrs _ _ HI _ _ Hx), count_cons.
      unfold uses_cidr at 1. cbn [l cidr_lease ls_cidr_bucket fmap option_fmap option_map fst].
      rewrite bool_decide_false by congruence. lia.
  - intros id x. destruct (decide (id = sid)) as [->|Hne].
    + rewrite lookup_insert_eq. intros [= <-]. rewrite Hs', (inv_shares _ _ HI _ _ Hs), count_cons.
      unfold uses_share at 1. rewrite bool_decide_true by done. lia.
    + rewrite lookup_insert_ne by done. intros Hx. rewrite (inv_shares _ _ HI _ _ Hx), count_cons.
      unfold uses_share at 1. cbn [l cidr_lease ls_cidr_user_share fmap option_fmap option_map snd].
      rewrite bool_decide_false by congruence. lia.
  - by rewrite (inv_user_scope _ _ HI), count_cons.
  - rewrite Hsc, (inv_cidr_scope _ _ HI), count_cons. unfold has_cidr at 1. rewrite bool_decide_true by (cbn; eauto). lia.
  - intros u' l' id Hin. apply (inv_reg_user _ _ HI). by apply Hmore.
  - intros u' l' id Hin. apply (inv_reg_cidr _ _ HI u'). by apply Hmore.
  - intros u' l' id sid' x Hin Hl' Hs'' Hx. destruct (decide (id = cid)) as [->|Hne].
    + rewrite lookup_insert_eq in Hx. injection Hx as <-.
      pose proof (inv_reg_share _ _ HI _ _ _ _ _ (Hmore _ _ Hin) Hl' Hs'' Hb) as Hr.
      destruct Hb2 as [->|[-> Hz]]; [done|]. rewrite lookup_delete_ne; [done|]. intros <-.
      assert (sid' = sid) as -> by congruence.
      assert (0 < count (uses_share sid) live); [|lia].
      eapply count_pos; [exact Hin|]. unfold uses_share. by rewrite bool_decide_true.
    + rewrite lookup_insert_ne in Hx by done. eapply (inv_reg_share _ _ HI); [by apply Hmore | done..].
  - apply (inv_heap_user _ _ HI).
  - intros k id Hk. apply lookup_insert_is_Some'. right. by apply (inv_heap_cidr _ _ HI k).
  - intros id x u' sid' Hx Hux. apply lookup_insert_is_Some'. right. destruct (decide (id = cid)) as [->|Hnc].
    + rewrite lookup_insert_eq in Hx. injection Hx as <-. eapply (inv_heap_share _ _ HI); [exact Hb|].
      by eapply map_subseteq_spec in Hsub.
    + rewrite lookup_insert_ne in Hx by done. by eapply (inv_heap_share _ _ HI).
  - intros id Hid. destruct (inv_fresh _ _ HI id Hid) as (? & ? & ?). rewrite !lookup_insert_ne by congruence. done.
Qed.

Definition drop_cidr (u : list Z) (cid sid : nat) t : TrafficLimiter :=
  let t := release_user_share u sid cid t in
  let b := get_cidr cid t in
  let t := put_cidr cid (cidr_set_leases (decrement_atomic_saturating (cb_active_leases b) 1) b) t in
  let sc := tl_cidr_scope t in
  with_scopes (tl_user_scope t) (scope_set_leases (decrement_atomic_saturating (scope_active_leases sc) 1) sc) t.

Lemma drop_cidr_inv u cid sid t live :
  Inv t ((u, cidr_lease None u (Some (cid, sid))) :: live) -> Inv (drop_cidr u cid sid t) live.
Proof.
  intros HI. set (l := cidr_lease None u (Some (cid, sid))) in *.
  destruct (inv_reg_cidr _ _ HI u l cid (list_elem_of_here _ _) eq_refl) as [key Hkey].
  destruct (inv_heap_cidr _ _ HI _ _ Hkey) as [b Hb].
  pose proof (inv_reg_share _ _ HI u l cid sid b (list_elem_of_here _ _) eq_refl eq_refl Hb) as Hu.
  destruct (inv_heap_share _ _ HI _ _ _ _ Hb Hu) as [s Hs].
  pose proof (inv_cidrs _ _ HI _ _ Hb) as Hact. pose proof (inv_shares _ _ HI _ _ Hs) as Hconn.
  pose proof (inv_cidr_scope _ _ HI) as Hsc. rewrite count_cons in Hact, Hconn, Hsc.
  unfold uses_cidr at 1 in Hact. unfold uses_share at 1 in Hconn. unfold has_cidr at 1 in Hsc.
  rewrite bool_decide_true in Hact, Hconn, Hsc by (cbn; eauto).
  pose proof (count_nonneg (uses_cidr cid) live). pose proof (count_nonneg (uses_share sid) live).
  pose proof (count_nonneg has_cidr live).
  unfold drop_cidr, release_user_share, get_share, get_cidr.
  cbn [put_share with_shares tl_cidrs tl_shares].
  rewrite (lookup_total_correct _ _ _ Hs), (lookup_total_correct _ _ _ Hb), Hu, Nat.eqb_refl, lookup_total_insert_eq.
  cbn [andb share_set_conns cs_active_conns]. rewrite (decrement_small (cs_active_conns s)) by lia.
  destruct (Z.eqb_spec (cs_active_conns s - 1) 0) as [Hz|Hnz];
    cbn [put_share put_cidr with_cidrs with_shares tl_cidrs tl_shares tl_cidr_scope tl_user_scope].
  - rewrite lookup_total_insert_eq. cbn [cidr_set_users cb_active_leases].
    rewrite (decrement_small (cb_active_leases b)), decrement_small by lia.
    apply (drop_cidr_fields u cid sid b (cidr_set_leases (cb_active_leases b - 1) (cidr_set_users (delete u (cb_users b)) b))
      s (share_set_conns (cs_active_conns s - 1) s) t _ live HI Hb Hs); try done.
    + right. split; [done | lia].
    + cbn [with_scopes put_cidr put_share with_cidrs with_shares tl_cidrs]. by rewrite insert_insert_eq.
  - rewrite (lookup_total_correct _ _ _ Hb). rewrite (decrement_small (cb_active_leases b)), decrement_small by lia.
    apply (drop_cidr_fields u cid sid b (cidr_set_leases (cb_active_leases b - 1) b)
      s (share_set_conns (cs_active_conns s - 1) s) t _ live HI Hb Hs); try done. by left.
Qed.

Lemma drop_lease_inv u l t live : Inv t ((u, l) :: live) -> Inv (drop_lease l t) live.
Proof.
  intros HI. unfold drop_lease.
  set (t1 := match ls_user_bucket l with None => t | Some id => _ end).
  assert (Inv t1 ((u, without_user l) :: live)) as HI1.
  { unfold t1. destruct (ls_user_bucket l) as [id|] eqn:Hl; [by apply drop_user_inv|].
    destruct l; cbn in *; by subst. }
  pose proof (inv_leases _ _ HI1) as Hok. apply Forall_cons_1 in Hok as [Hok _]. unfold lease_ok in Hok.
  destruct l as [ob [cid|] [k|] [sid|]]; cbn [without_user fst snd ls_cidr_bucket ls_cidr_user_key ls_cidr_user_share] in *; try done.
  - subst k. by apply drop_cidr_inv.
  - pose proof (inv_count _ _ HI1) as Hlen. cbn [length] in Hlen. apply (Inv_empty_lease _ _ u); [lia | done].
Qed.
End inv.
