(* ===== verification/LimiterRate.v ===== *)
(** Rates: what one epoch can hand out through a bucket, over any sequence of
    calls of any leases; and runs of the limiter for the lease accounting. *)

From stdpp Require Import base list gmap numbers.
From S2P Require Import Prelude Net TrafficLimiter Limiter LimiterInv.
Local Open Scope Z_scope.

(** * One bucket in one epoch *)

Lemma bytes_per_epoch_range bps : 0 < bps -> 1 <= bytes_per_epoch bps <= U64_MAX.
Proof.
  intros Hb. unfold bytes_per_epoch, sat_mul, FAIR_EPOCH_MS, U64_MAX.
  rewrite (proj2 (Z.eqb_neq bps 0)) by lia. cbv zeta.
  assert (Z.min (bps * 20) (2 ^ 64 - 1) / 8000 <= 2 ^ 64 - 1); [|lia].
  apply Z.div_le_upper_bound; lia.
Qed.

(** Bytes already handed out in epoch [E]. *)
Definition spent (E epoch used : Z) : Z := if epoch =? E then used else 0.

Definition within (E cap epoch used : Z) : Prop := epoch <= E /\ 0 <= spent E epoch used <= cap.

Lemma sync_epoch_spec E b :
  db_epoch b <= E -> db_epoch (sync_epoch E b) = E /\ db_used (sync_epoch E b) = spent E (db_epoch b) (db_used b).
Proof.
  intros He. unfold sync_epoch, spent. destruct (Z.eqb_spec (db_epoch b) E) as [|Hne]; [done|].
  by rewrite (proj2 (Z.ltb_lt (db_epoch b) E)) by lia.
Qed.

Lemma bucket_try_consume_spec ms bps requested b :
  let E := current_epoch ms in
  let cap := bytes_per_epoch bps in
  0 < bps -> 0 < requested -> within E cap (db_epoch b) (db_used b) ->
  let r := bucket_try_consume ms bps requested b in
  0 <= r.1 <= requested /\ db_epoch r.2 = E /\
  db_used r.2 = spent E (db_epoch b) (db_used b) + r.1 /\ db_used r.2 <= cap /\
  (r.1 = 0 -> db_used r.2 = cap).
Proof.
  intros E cap Hbps Hreq [He Hs]. pose proof (bytes_per_epoch_range bps Hbps) as Hcap. fold cap in Hcap.
  unfold bucket_try_consume. rewrite (proj2 (Z.eqb_neq requested 0)), (proj2 (Z.eqb_neq bps 0)) by lia.
  fold E. fold cap. destruct (sync_epoch_spec E b He) as [He' Hu]. rewrite Hu. cbv zeta.
  set (u := spent E (db_epoch b) (db_used b)) in *. unfold sat_sub, sat_add.
  destruct (Z.leb_spec cap u) as [Hle|Hlt]; cbn [fst snd]; [rewrite He', Hu; lia|].
  destruct (Z.eqb_spec (Z.min requested (Z.max (cap - u) 0)) 0); [lia|]. cbn [fst snd db_epoch db_used]. lia.
Qed.

Lemma bucket_refund_spec bytes b :
  0 <= bytes <= db_used b -> db_epoch (bucket_refund bytes b) = db_epoch b /\ db_used (bucket_refund bytes b) = db_used b - bytes.
Proof.
  intros Hb. unfold bucket_refund, decrement_atomic_saturating, sat_sub.
  destruct (Z.eqb_spec bytes 0); [by split; [|lia]|]. cbn [db_epoch db_used].
  destruct (Z.eqb_spec (db_used b) 0); lia.
Qed.

Lemma cidr_sync_epoch_spec E b :
  cd_epoch b <= E ->
  cd_epoch (cidr_sync_epoch E b) = E /\ cd_used (cidr_sync_epoch E b) = spent E (cd_epoch b) (cd_used b).
Proof.
  intros He. unfold cidr_sync_epoch, spent. destruct (Z.eqb_spec (cd_epoch b) E) as [|Hne]; [done|].
  by rewrite (proj2 (Z.ltb_lt (cd_epoch b) E)) by lia.
Qed.

Lemma cidr_grant_range cap fair requested total user :
  0 < requested -> 0 <= total < cap -> 0 < cidr_grant cap fair requested total user <= Z.min requested (cap - total).
Proof.
  intros Hr Ht. unfold cidr_grant, sat_sub, MAX_BORROW_CHUNK_BYTES.
  destruct (Z.ltb_spec 0 (Z.max (fair - user) 0)); lia.
Qed.

Lemma cidr_try_consume_spec ms cap requested u b :
  let E := current_epoch ms in
  1 <= cap <= U64_MAX -> 0 < requested -> within E cap (cd_epoch b) (cd_used b) ->
  let r := cidr_dir_try_consume ms cap requested u b in
  0 <= r.1.1 <= requested /\ cd_epoch r.2 = E /\
  cd_used r.2 = spent E (cd_epoch b) (cd_used b) + r.1.1 /\ cd_used r.2 <= cap /\
  (r.1.1 = 0 -> cd_used r.2 = cap).
Proof.
  intros E Hcap Hreq [He Hs]. unfold cidr_dir_try_consume.
  rewrite (proj2 (Z.eqb_neq requested 0)), (proj2 (Z.eqb_neq cap 0)) by lia. cbn [orb]. fold E.
  destruct (cidr_sync_epoch_spec E b He) as [He' Hu].
  destruct (sync_epoch_and_mark_active E u (cd_active_users (cidr_sync_epoch E b))) as [u' active].
  cbv zeta. cbn [cd_used cd_epoch cd_active_users]. rewrite Hu, He'.
  set (x := spent E (cd_epoch b) (cd_used b)) in *.
  destruct (Z.leb_spec cap x) as [Hle|Hlt]; cbn [fst snd cd_epoch cd_used]; [rewrite ?Hu, ?He'; lia|].
  match goal with |- context [cidr_grant cap ?f requested x ?v] => pose proof (cidr_grant_range cap f requested x v Hreq ltac:(lia)) as Hg end.
  match goal with |- context [cidr_grant ?a ?f ?c ?d ?v =? 0] => destruct (Z.eqb_spec (cidr_grant a f c d v) 0); [lia|] end.
  cbn [fst snd cd_epoch cd_used]. unfold sat_add. lia.
Qed.

(** * Calls through leases *)

Section calls.
Context {N : Type} `{IpNetwork N}.
Implicit Types (t : TrafficLimiter (N := N)) (l : TrafficLease).

Lemma get_put_user id id' b t : get_user id (put_user id' b t) = if decide (id = id') then b else get_user id t.
Proof.
  unfold get_user, put_user. cbn [with_users tl_users]. case_decide as Hd.
  - subst. apply lookup_total_insert_eq.
  - by apply lookup_total_insert_ne.
Qed.

Lemma get_put_cidr id id' b t : get_cidr id (put_cidr id' b t) = if decide (id = id') then b else get_cidr id t.
Proof.
  unfold get_cidr, put_cidr. cbn [with_cidrs tl_cidrs]. case_decide as Hd.
  - subst. apply lookup_total_insert_eq.
  - by apply lookup_total_insert_ne.
Qed.

Definition user_spent (E : Z) (uid : nat) (d : RateDirection) t : Z :=
  let b := user_dir d (get_user uid t) in spent E (db_epoch b) (db_used b).
Definition user_within (E : Z) (uid : nat) (d : RateDirection) t : Prop :=
  let b := user_dir d (get_user uid t) in
  within E (bytes_per_epoch (rate_get d (ub_rates (get_user uid t)))) (db_epoch b) (db_used b).

Definition cidr_spent (E : Z) (cid : nat) (d : RateDirection) t : Z :=
  let b := cidr_dir d (get_cidr cid t) in spent E (cd_epoch b) (cd_used b).
Definition cidr_within (E : Z) (cid : nat) (d : RateDirection) t : Prop :=
  let b := cidr_dir d (get_cidr cid t) in
  within E (bytes_per_epoch (rate_get d (cb_rates (get_cidr cid t)))) (cd_epoch b) (cd_used b).

Lemma user_set_dir_get d d' x b :
  user_dir d (user_set_dir d' x b) = (if decide (d = d') then x else user_dir d b) /\
  ub_rates (user_set_dir d' x b) = ub_rates b.
Proof. by destruct d, d'. Qed.

Lemma cidr_set_dir_get d d' x b :
  cidr_dir d (cidr_set_dir d' x b) = (if decide (d = d') then x else cidr_dir d b) /\
  cb_rates (cidr_set_dir d' x b) = cb_rates b.
Proof. by destruct d, d'. Qed.

(** Whatever the state, a grant is between zero and the request. *)
Lemma bucket_grant_le ms bps requested b : 0 <= requested -> 0 <= (bucket_try_consume ms bps requested b).1 <= requested.
Proof.
  intros Hr. unfold bucket_try_consume, sat_sub. destruct (requested =? 0); [cbn; lia|]. destruct (bps =? 0); [cbn; lia|].
  cbv zeta. destruct (_ <=? _); [cbn; lia|]. destruct (_ =? 0); cbn [fst]; lia.
Qed.

Lemma cidr_grant_le ms d requested s b :
  0 <= requested -> 0 <= (try_consume_for_user ms d requested s b).1.1 <= requested.
Proof.
  intros Hr. unfold try_consume_for_user. destruct (_ =? 0); [cbn; lia|]. cbv zeta.
  unfold cidr_dir_try_consume. destruct (_ || _); [cbn; lia|]. cbv zeta.
  destruct (sync_epoch_and_mark_active _ _ _) as [u active]. destruct (_ <=? _); [cbn; lia|].
  destruct (_ =? 0); [cbn; lia|]. cbn [fst]. unfold cidr_grant, sat_sub, MAX_BORROW_CHUNK_BYTES.
  destruct (0 <? _); lia.
Qed.

(** The network stage takes back from the user bucket what it does not grant. *)
Lemma consume_cidr_user ms d g l t :
  0 < g ->
  let r := consume_cidr ms d g l t in
  0 <= granted r.1 <= g /\
  forall uid, get_user uid r.2 =
    if decide (ls_user_bucket l = Some uid)
    then if granted r.1 <? g then user_refund d (g - granted r.1) (get_user uid t) else get_user uid t
    else get_user uid t.
Proof.
  intros Hg. unfold consume_cidr.
  destruct (ls_cidr_bucket l) as [cid|], (ls_cidr_user_share l) as [sid|]; cbn [fst snd granted];
    try (split; [lia|]; intros uid; rewrite (proj2 (Z.ltb_ge g g)) by lia; by case_decide).
  pose proof (cidr_grant_le ms d g (get_share sid t) (get_cidr cid t) ltac:(lia)) as Hle.
  destruct (try_consume_for_user ms d g (get_share sid t) (get_cidr cid t)) as [[cg s] b]. cbn [fst] in Hle.
  set (t1 := put_cidr cid b (put_share sid s t)).
  assert (forall uid, get_user uid t1 = get_user uid t) as Ht1 by done.
  set (t2 := match ls_user_bucket l with Some uid => _ | None => _ end).
  assert (forall uid, get_user uid t2 = if decide (ls_user_bucket l = Some uid)
    then if cg <? g then user_refund d (g - cg) (get_user uid t) else get_user uid t else get_user uid t) as Ht2.
  { intros uid. unfold t2. destruct (ls_user_bucket l) as [uid'|]; [|by rewrite decide_False].
    destruct (Z.ltb_spec cg g) as [Hlt|Hge].
    - rewrite get_put_user. unfold sat_sub. rewrite Z.max_l by lia. case_decide as Hd; [subst; by rewrite decide_True|].
      rewrite decide_False by congruence. done.
    - by case_decide. }
  destruct (Z.eqb_spec cg 0) as [->|Hne]; cbn [fst snd granted]; (split; [lia|]); exact Ht2.
Qed.

Lemma user_refund_dir d d' bytes b :
  user_dir d (user_refund d' bytes b) = (if decide (d = d') then bucket_refund bytes (user_dir d b) else user_dir d b) /\
  ub_rates (user_refund d' bytes b) = ub_rates b.
Proof.
  unfold user_refund. destruct (user_set_dir_get d d' (bucket_refund bytes (user_dir d' b)) b) as [-> ->].
  split; [|done]. case_decide; by subst.
Qed.

Definition in_direction (d d' : RateDirection) (o : option nat) (id : nat) (g : Z) : Z :=
  if decide (o = Some id /\ d = d') then g else 0.

(** What a call does to a user bucket. *)
Definition user_effect (d : RateDirection) (g granted : Z) (x : DirectionBucket) (b : UserBucket) : UserBucket :=
  let b := user_set_dir d x b in if granted <? g then user_refund d (g - granted) b else b.

Lemma get_user_throttle uid d u c t : get_user uid (observe_throttle d u c t) = get_user uid t.
Proof. done. Qed.

Lemma lease_try_consume_other ms d requested l uid t :
  0 <= requested -> ls_user_bucket l <> Some uid ->
  get_user uid (lease_try_consume ms d requested l t).2 = get_user uid t.
Proof.
  intros Hreq Hl. unfold lease_try_consume. destruct (Z.eqb_spec requested 0); [done|].
  assert (forall g t', 0 < g -> get_user uid (consume_cidr ms d g l t').2 = get_user uid t') as Hother.
  { intros g t' Hg. destruct (consume_cidr_user ms d g l t' Hg) as [_ ->]. by rewrite decide_False. }
  destruct (ls_user_bucket l) as [uid'|]; [|apply Hother; lia]. unfold user_try_consume.
  pose proof (bucket_grant_le ms (rate_get d (ub_rates (get_user uid' t))) requested (user_dir d (get_user uid' t)) Hreq) as Hle.
  destruct (bucket_try_consume _ _ _ _) as [g x]. cbn [fst] in Hle.
  destruct (Z.eqb_spec g 0); cbn [snd]; [rewrite get_user_throttle | rewrite Hother by lia];
    rewrite get_put_user, decide_False by congruence; done.
Qed.

Lemma lease_try_consume_own ms d requested l uid t :
  0 < requested -> ls_user_bucket l = Some uid ->
  let b := get_user uid t in
  let c := bucket_try_consume ms (rate_get d (ub_rates b)) requested (user_dir d b) in
  let r := lease_try_consume ms d requested l t in
  0 <= granted r.1 <= c.1 /\ get_user uid r.2 = user_effect d c.1 (granted r.1) c.2 b.
Proof.
  intros Hreq Hl b c. unfold lease_try_consume, user_effect. rewrite (proj2 (Z.eqb_neq requested 0)) by lia. rewrite Hl.
  unfold user_try_consume. fold b. fold c.
  pose proof (bucket_grant_le ms (rate_get d (ub_rates b)) requested (user_dir d b) ltac:(lia)) as Hle. fold c in Hle.
  destruct c as [g x]. cbn [fst snd] in *. destruct (Z.eqb_spec g 0) as [->|Hg].
  - cbn [fst snd granted]. rewrite get_user_throttle, get_put_user, decide_True by done. done.
  - destruct (consume_cidr_user ms d g l (put_user uid (user_set_dir d x b) t) ltac:(lia)) as [Hgr Hget].
    split; [done|]. rewrite Hget. by rewrite decide_True, get_put_user, decide_True by done.
Qed.

Lemma user_effect_dir d d' g granted x b :
  ub_rates (user_effect d g granted x b) = ub_rates b /\
  user_dir d' (user_effect d g granted x b) =
    if decide (d' = d) then if granted <? g then bucket_refund (g - granted) x else x else user_dir d' b.
Proof.
  unfold user_effect. cbv zeta.
  destruct (user_set_dir_get d' d x b) as [H1 H2].
  destruct (user_refund_dir d' d (g - granted) (user_set_dir d x b)) as [H3 H4].
  destruct (granted <? g); rewrite ?H4, ?H2, ?H3, H1; (split; [done|]); by case_decide.
Qed.

Lemma user_step ms d requested l uid d' t :
  let E := current_epoch ms in
  0 <= requested -> 0 < rate_get d' (ub_rates (get_user uid t)) -> user_within E uid d' t ->
  let r := lease_try_consume ms d requested l t in
  user_within E uid d' r.2 /\ ub_rates (get_user uid r.2) = ub_rates (get_user uid t) /\
  user_spent E uid d' r.2 = user_spent E uid d' t + in_direction d d' (ls_user_bucket l) uid (granted r.1).
Proof.
  intros E Hreq Hrate Hw r. unfold in_direction.
  destruct (decide (requested = 0)) as [->|Hr0]; [unfold r; split_and!; [done | done |]; cbn; case_decide; lia|].
  unfold user_within, user_spent. destruct (decide (ls_user_bucket l = Some uid)) as [Hl|Hl].
  2:{ rewrite (decide_False (P := ls_user_bucket l = Some uid /\ _)) by (by intros [? _]).
      unfold r. rewrite lease_try_consume_other by done. split_and!; (done || lia). }
  destruct (lease_try_consume_own ms d requested l uid t ltac:(lia) Hl) as [Hgr Hget].
  fold r in Hgr, Hget. rewrite Hget. clear Hget.
  set (b := get_user uid t) in *.
  match goal with |- context [user_effect d ?g _ ?x b] => set (g0 := g) in *; set (x0 := x) in * end.
  destruct (user_effect_dir d d' g0 (granted r.1) x0 b) as [-> ->]. destruct (decide (d' = d)) as [->|Hd].
  - rewrite decide_True by done.
    destruct (bucket_try_consume_spec ms (rate_get d (ub_rates b)) requested (user_dir d b) Hrate ltac:(lia) Hw)
      as (_ & Hx & Hu & Hcap & _). fold E x0 g0 in Hx, Hu, Hcap. destruct Hw as [_ Hs]. fold b in Hs.
    destruct (bucket_refund_spec (g0 - granted r.1) x0 ltac:(lia)) as [Hfe Hfu]. unfold within, spent.
    destruct (Z.ltb_spec (granted r.1) g0); rewrite ?Hfe, ?Hfu, Hx, Z.eqb_refl; (split_and!; [lia | lia | lia | done |]);
      unfold spent in *; lia.
  - rewrite (decide_False (P := _ /\ d = d')) by (intros [_ ?]; congruence). split_and!; (done || lia).
Qed.

(** * The network bucket *)

Definition bucket_spent (E : Z) (d : RateDirection) (b : CidrBucket) : Z :=
  spent E (cd_epoch (cidr_dir d b)) (cd_used (cidr_dir d b)).
Definition bucket_within (E : Z) (d : RateDirection) (b : CidrBucket) : Prop :=
  within E (bytes_per_epoch (rate_get d (cb_rates b))) (cd_epoch (cidr_dir d b)) (cd_used (cidr_dir d b)).

Lemma try_consume_for_user_spec ms d g s d' b :
  let E := current_epoch ms in
  0 < g -> 0 < rate_get d' (cb_rates b) -> bucket_within E d' b ->
  let r := try_consume_for_user ms d g s b in
  bucket_within E d' r.2 /\ cb_rates r.2 = cb_rates b /\
  bucket_spent E d' r.2 = bucket_spent E d' b + (if decide (d = d') then r.1.1 else 0).
Proof.
  intros E Hg Hrate Hw. unfold try_consume_for_user, bucket_within, bucket_spent. destruct (decide (d = d')) as [<-|Hd].
  - rewrite (proj2 (Z.eqb_neq _ 0)) by lia.
    pose proof (cidr_try_consume_spec ms _ g (share_dir d s) (cidr_dir d b) (bytes_per_epoch_range _ Hrate) Hg Hw) as Hspec.
    cbv zeta in Hspec. fold E in Hspec. destruct (cidr_dir_try_consume _ _ _ _ _) as [[gg u] x]. cbn [fst snd] in *.
    destruct Hspec as (Hgr & He & Hu & Hcap & _). destruct (cidr_set_dir_get d d x b) as [-> ->].
    rewrite decide_True by done. destruct Hw as [_ Hsp]. unfold within, spent in *. rewrite He, Z.eqb_refl. split_and!; (done || lia).
  - destruct (_ =? 0); [split_and!; (done || (cbn; lia))|].
    destruct (cidr_dir_try_consume _ _ _ _ _) as [[gg u] x]. cbn [fst snd].
    destruct (cidr_set_dir_get d' d x b) as [-> ->]. rewrite decide_False by done. split_and!; (done || lia).
Qed.

Lemma consume_cidr_cidr ms d g l cid d' t :
  let E := current_epoch ms in
  0 < g -> 0 < rate_get d' (cb_rates (get_cidr cid t)) -> cidr_within E cid d' t ->
  (is_Some (ls_cidr_bucket l) -> is_Some (ls_cidr_user_share l)) ->
  let r := consume_cidr ms d g l t in
  cidr_within E cid d' r.2 /\ cb_rates (get_cidr cid r.2) = cb_rates (get_cidr cid t) /\
  cidr_spent E cid d' r.2 = cidr_spent E cid d' t + in_direction d d' (ls_cidr_bucket l) cid (granted r.1).
Proof.
  intros E Hg Hrate Hw Hnet. unfold consume_cidr, in_direction. destruct (ls_cidr_bucket l) as [cid'|] eqn:Hl.
  2:{ cbn [fst snd granted]. rewrite decide_False by naive_solver. split_and!; (done || lia). }
  destruct (Hnet ltac:(eauto)) as [sid Hs]. rewrite Hs.
  pose proof (try_consume_for_user_spec ms d g (get_share sid t) d' (get_cidr cid t) Hg Hrate Hw) as Hspec.
  cbv zeta in Hspec. fold E in Hspec.
  destruct (try_consume_for_user ms d g (get_share sid t) (get_cidr cid' t)) as [[cg s] b] eqn:Htc.
  set (t1 := put_cidr cid' b (put_share sid s t)).
  assert (forall x, get_cidr cid (match ls_user_bucket l with
    | Some uid => if cg <? g then put_user uid (x uid) t1 else t1 | None => t1 end) =
    if decide (cid = cid') then b else get_cidr cid t) as Hget.
  { intros x. transitivity (get_cidr cid t1); [by destruct (ls_user_bucket l); [destruct (cg <? g)|]|].
    unfold t1. rewrite get_put_cidr. by case_decide. }
  assert (forall t', get_cidr cid t' = (if decide (cid = cid') then b else get_cidr cid t) ->
    cidr_within E cid d' t' /\ cb_rates (get_cidr cid t') = cb_rates (get_cidr cid t) /\
    cidr_spent E cid d' t' = cidr_spent E cid d' t + (if decide (Some cid' = Some cid /\ d = d') then cg else 0)) as Hfin.
  { intros t' Ht'. unfold cidr_within, cidr_spent in *. rewrite Ht'. case_decide as Hc.
    - subst cid'. rewrite Htc in Hspec. destruct Hspec as (? & ? & Hsp). split_and!; [done | done |].
      unfold bucket_spent in Hsp. cbn [fst snd] in Hsp. rewrite Hsp. do 2 case_decide; naive_solver.
    - rewrite decide_False by (intros [[= ?] _]; congruence). split_and!; (done || lia). }
  destruct (Z.eqb_spec cg 0) as [->|Hne]; cbn [fst snd granted]; apply Hfin, Hget.
Qed.

Lemma cidr_step ms d requested l cid d' t :
  let E := current_epoch ms in
  0 <= requested -> 0 < rate_get d' (cb_rates (get_cidr cid t)) -> cidr_within E cid d' t ->
  (is_Some (ls_cidr_bucket l) -> is_Some (ls_cidr_user_share l)) ->
  let r := lease_try_consume ms d requested l t in
  cidr_within E cid d' r.2 /\ cb_rates (get_cidr cid r.2) = cb_rates (get_cidr cid t) /\
  cidr_spent E cid d' r.2 = cidr_spent E cid d' t + in_direction d d' (ls_cidr_bucket l) cid (granted r.1).
Proof.
  intros E Hreq Hrate Hw Hnet. unfold lease_try_consume.
  destruct (Z.eqb_spec requested 0) as [->|Hne]; [split_and!; [done | done |]; unfold in_direction; cbn; case_decide; lia|].
  destruct (ls_user_bucket l) as [uid|] eqn:Hu; [|by apply consume_cidr_cidr; try done; lia].
  unfold user_try_consume.
  pose proof (bucket_grant_le ms (rate_get d (ub_rates (get_user uid t))) requested (user_dir d (get_user uid t)) Hreq) as Hle.
  destruct (bucket_try_consume _ _ _ _) as [g x]. cbn [fst] in Hle.
  destruct (Z.eqb_spec g 0); [|by apply (consume_cidr_cidr ms d g l cid d' (put_user uid _ t)); try done; lia].
  cbn [fst snd granted]. split_and!; [done | done |]. unfold in_direction. case_decide; rewrite Z.add_0_r; reflexivity.
Qed.

(** * Sequences of calls *)

Record Call := mkCall { c_ms : Z; c_dir : RateDirection; c_requested : Z; c_lease : TrafficLease }.

Definition call_ok (E : Z) (c : Call) : Prop := current_epoch (c_ms c) = E /\ 0 <= c_requested c.

(** A lease that a network limits carries the bucket and the share. *)
Definition on_network (c : Call) : Prop :=
  is_Some (ls_cidr_bucket (c_lease c)) -> is_Some (ls_cidr_user_share (c_lease c)).

Definition exec_call (c : Call) t := lease_try_consume (c_ms c) (c_dir c) (c_requested c) (c_lease c) t.

(** Bytes granted in direction [d] to the leases of a bucket. *)
Fixpoint granted_to (bucket : TrafficLease -> option nat) (id : nat) (d : RateDirection) (cs : list Call) t : Z :=
  match cs with
  | [] => 0
  | c :: cs =>
      let r := exec_call c t in
      in_direction (c_dir c) d (bucket (c_lease c)) id (granted r.1) + granted_to bucket id d cs r.2
  end.

Lemma user_granted_bound E cs uid d t :
  Forall (call_ok E) cs -> 0 < rate_get d (ub_rates (get_user uid t)) -> user_within E uid d t ->
  user_spent E uid d t + granted_to ls_user_bucket uid d cs t <= bytes_per_epoch (rate_get d (ub_rates (get_user uid t))).
Proof.
  intros Hcs. revert t. induction Hcs as [|c cs [<- Hreq] _ IH]; intros t Hrate Hw; cbn [granted_to].
  { destruct Hw as [_ Hs]. unfold user_spent. lia. }
  destruct (user_step (c_ms c) (c_dir c) (c_requested c) (c_lease c) uid d t Hreq Hrate Hw) as (Hw' & Hr & Hs).
  fold (exec_call c t) in Hw', Hr, Hs. specialize (IH (exec_call c t).2). rewrite Hr in IH. specialize (IH Hrate Hw'). lia.
Qed.

Lemma cidr_granted_bound E cs cid d t :
  Forall (call_ok E) cs -> Forall on_network cs -> 0 < rate_get d (cb_rates (get_cidr cid t)) -> cidr_within E cid d t ->
  cidr_spent E cid d t + granted_to ls_cidr_bucket cid d cs t <= bytes_per_epoch (rate_get d (cb_rates (get_cidr cid t))).
Proof.
  intros Hcs. revert t. induction Hcs as [|c cs [<- Hreq] _ IH]; intros t Hn Hrate Hw; cbn [granted_to].
  { destruct Hw as [_ Hs]. unfold cidr_spent. lia. }
  apply Forall_cons_1 in Hn as [Hnet Hn].
  destruct (cidr_step (c_ms c) (c_dir c) (c_requested c) (c_lease c) cid d t Hreq Hrate Hw Hnet) as (Hw' & Hr & Hs).
  fold (exec_call c t) in Hw', Hr, Hs. specialize (IH (exec_call c t).2 Hn). rewrite Hr in IH. specialize (IH Hrate Hw'). lia.
Qed.

(** * Runs *)

(** Consuming and refunding leave the accounting alone. *)
Definition objects_ok l t : Prop :=
  (forall id, ls_user_bucket l = Some id -> is_Some (tl_users t !! id)) /\
  (forall id, ls_cidr_bucket l = Some id -> is_Some (tl_cidrs t !! id)) /\
  (forall id, ls_cidr_user_share l = Some id -> is_Some (tl_shares t !! id)).

Lemma live_objects t live u l : Inv t live -> (u, l) ∈ live -> objects_ok l t.
Proof.
  intros HI Hin. split_and!.
  - intros id Hl. pose proof (inv_reg_user _ _ HI _ _ _ Hin Hl) as Hr. by apply (inv_heap_user _ _ HI u).
  - intros id Hl. destruct (inv_reg_cidr _ _ HI _ _ _ Hin Hl) as [k Hr]. by apply (inv_heap_cidr _ _ HI k).
  - intros id Hs. pose proof (inv_leases _ _ HI) as Hok. rewrite list.Forall_forall in Hok. specialize (Hok _ Hin).
    unfold lease_ok in Hok. cbn [fst snd] in Hok. rewrite Hs in Hok.
    destruct (ls_cidr_bucket l) as [cid|] eqn:Hc; [|by destruct (ls_cidr_user_key l)].
    destruct (inv_reg_cidr _ _ HI _ _ _ Hin Hc) as [k Hr]. destruct (inv_heap_cidr _ _ HI _ _ Hr) as [b Hb].
    pose proof (inv_reg_share _ _ HI _ _ _ _ _ Hin Hc Hs Hb) as Hu. by apply (inv_heap_share _ _ HI _ _ _ _ Hb Hu).
Qed.

Lemma quiet_objects t t' l : quiet t t' -> objects_ok l t -> objects_ok l t'.
Proof.
  intros Hq (Hu & Hc & Hs). split_and!; intros id Hl.
  - apply (fmap_is_Some ub_active_leases). rewrite (quiet_users _ _ Hq). by apply fmap_is_Some, Hu.
  - apply (fmap_is_Some cidr_account). rewrite (quiet_cidrs _ _ Hq). by apply fmap_is_Some, Hc.
  - apply (fmap_is_Some cs_active_conns). rewrite (quiet_shares _ _ Hq). by apply fmap_is_Some, Hs.
Qed.

Lemma user_set_dir_account d x (b : UserBucket) : ub_active_leases (user_set_dir d x b) = ub_active_leases b.
Proof. by destruct d. Qed.

Lemma share_set_dir_account d x (s : CidrUserShare) : cs_active_conns (share_set_dir d x s) = cs_active_conns s.
Proof. by destruct d. Qed.

Lemma cidr_set_dir_account d x (b : CidrBucket) : cidr_account (cidr_set_dir d x b) = cidr_account b.
Proof. by destruct d. Qed.

Lemma throttle_quiet d u c t : quiet t (observe_throttle d u c t).
Proof. apply scopes_quiet; [destruct u | destruct c]; try done; by destruct d. Qed.

Lemma put_network_quiet cid sid b s t :
  is_Some (tl_cidrs t !! cid) -> is_Some (tl_shares t !! sid) ->
  cidr_account b = cidr_account (get_cidr cid t) -> cs_active_conns s = cs_active_conns (get_share sid t) ->
  quiet t (put_cidr cid b (put_share sid s t)).
Proof.
  intros Hc Hs Hb Hs'. eapply quiet_trans; [by apply (put_share_quiet sid s)|]. by apply put_cidr_quiet.
Qed.

Lemma try_consume_for_user_account ms d g s b :
  let r := try_consume_for_user ms d g s b in
  cidr_account r.2 = cidr_account b /\ cs_active_conns r.1.2 = cs_active_conns s.
Proof.
  unfold try_consume_for_user. destruct (_ =? 0); [done|]. destruct (cidr_dir_try_consume _ _ _ _ _) as [[gg u] x].
  cbn [fst snd]. by rewrite cidr_set_dir_account, share_set_dir_account.
Qed.

Lemma consume_cidr_quiet ms d g l t : objects_ok l t -> quiet t (consume_cidr ms d g l t).2.
Proof.
  intros Hok. pose proof Hok as (Hu & Hc & Hs). unfold consume_cidr.
  destruct (ls_cidr_bucket l) as [cid|] eqn:Hl; [|apply quiet_refl].
  destruct (ls_cidr_user_share l) as [sid|] eqn:Hsl; [|apply quiet_refl].
  pose proof (try_consume_for_user_account ms d g (get_share sid t) (get_cidr cid t)) as [Hb Hsh].
  destruct (try_consume_for_user _ _ _ _ _) as [[cg s] b]. cbn [fst snd] in *.
  set (t1 := put_cidr cid b (put_share sid s t)).
  assert (quiet t t1) as Hq1 by (apply put_network_quiet; auto).
  set (t2 := match ls_user_bucket l with Some uid => _ | None => _ end).
  assert (quiet t t2) as Hq2.
  { unfold t2. destruct (ls_user_bucket l) as [uid|]; [|done]. destruct (cg <? g); [|done].
    eapply quiet_trans; [exact Hq1|]. apply put_user_quiet; [by apply Hu|]. apply user_set_dir_account. }
  destruct (cg =? 0); cbn [snd]; [|done]. eapply quiet_trans; [exact Hq2 | apply throttle_quiet].
Qed.

Lemma lease_try_consume_quiet ms d requested l t : objects_ok l t -> quiet t (lease_try_consume ms d requested l t).2.
Proof.
  intros Hok. unfold lease_try_consume. destruct (requested =? 0); [apply quiet_refl|].
  destruct (ls_user_bucket l) as [uid|] eqn:Hl; [|by apply consume_cidr_quiet]. unfold user_try_consume.
  destruct (bucket_try_consume _ _ _ _) as [g x].
  assert (quiet t (put_user uid (user_set_dir d x (get_user uid t)) t)) as Hq.
  { apply put_user_quiet; [by apply Hok|]. apply user_set_dir_account. }
  destruct (g =? 0); cbn [snd].
  - eapply quiet_trans; [exact Hq | apply throttle_quiet].
  - eapply quiet_trans; [exact Hq|]. apply consume_cidr_quiet. by eapply quiet_objects.
Qed.

Lemma lease_refund_quiet d bytes l t : objects_ok l t -> quiet t (lease_refund d bytes l t).
Proof.
  intros Hok. unfold lease_refund. destruct (bytes =? 0); [apply quiet_refl|].
  set (t1 := match ls_user_bucket l with Some uid => _ | None => t end).
  assert (quiet t t1) as Hq.
  { unfold t1. destruct (ls_user_bucket l) as [uid|] eqn:Hl; [|apply quiet_refl]. apply put_user_quiet; [by apply Hok|]. apply user_set_dir_account. }
  pose proof (quiet_objects _ _ _ Hq Hok) as (_ & Hc & Hs).
  destruct (ls_cidr_bucket l) as [cid|]; [|done]. destruct (ls_cidr_user_share l) as [sid|]; [|done].
  eapply quiet_trans; [exact Hq|]. unfold refund_for_user.
  apply put_network_quiet; auto using cidr_set_dir_account, share_set_dir_account.
Qed.

(** Calls of connections; a lease is named by its place among the live ones. *)
Inductive LimiterOp :=
  | DoPolicy (now : Z) (users : gmap (list Z) RateLimitBps) (cidrs : list (CidrRateLimitKey (N := N) * RateLimitBps))
  | DoAcquire (now : Z) (user : list Z) (ip : IpAddr)
  | DoConsume (ms : Z) (d : RateDirection) (requested : Z) (i : nat)
  | DoRefund (d : RateDirection) (bytes : Z) (i : nat)
  | DoWait (d : RateDirection) (user cidr : bool) (wait_ms : Z)
  | DoDrop (i : nat).

Definition World : Type := TrafficLimiter (N := N) * list (list Z * TrafficLease).

Definition exec_lop (op : LimiterOp) (w : World) : World :=
  let '(t, live) := w in
  match op with
  | DoPolicy now users cidrs => (apply_policy now users cidrs t, live)
  | DoAcquire now user ip =>
      let '(o, t) := acquire_lease now user ip t in
      match o with Some l => (t, (user, l) :: live) | None => (t, live) end
  | DoConsume ms d requested i =>
      match live !! i with Some (_, l) => ((lease_try_consume ms d requested l t).2, live) | None => w end
  | DoRefund d bytes i =>
      match live !! i with Some (_, l) => (lease_refund d bytes l t, live) | None => w end
  | DoWait d user cidr wait_ms => (observe_wait_ms d user cidr wait_ms t, live)
  | DoDrop i =>
      match live !! i with Some (_, l) => (drop_lease l t, delete i live) | None => w end
  end.

Definition run_lops (ops : list LimiterOp) (w : World) : World := foldl (fun w op => exec_lop op w) w ops.

Lemma wait_quiet d u c ms t : quiet t (observe_wait_ms d u c ms t).
Proof.
  unfold observe_wait_ms. destruct (ms =? 0); [apply quiet_refl|].
  apply scopes_quiet; [destruct u | destruct c]; try done; by destruct d.
Qed.

Lemma exec_lop_inv op t live :
  Inv t live -> Z.of_nat (length live) + 1 < 2 ^ 64 ->
  let w := exec_lop op (t, live) in Inv w.1 w.2 /\ (length w.2 <= S (length live))%nat.
Proof.
  intros HI Hlen. destruct op as [now users cidrs|now user ip|ms d req i|d bytes i|d u c ms|i]; cbn [exec_lop].
  - split; [by apply apply_policy_inv | cbn; lia].
  - pose proof (acquire_lease_inv now user ip t live HI Hlen) as HI1.
    destruct (acquire_lease now user ip t) as [[l|] t1]; cbn [fst snd] in *; split; (done || (cbn; lia)).
  - destruct (live !! i) as [[u l]|] eqn:Hi; [|split; [done | cbn; lia]]. split; [|cbn; lia].
    eapply Inv_quiet; [|exact HI]. apply lease_try_consume_quiet. eapply live_objects; [done|]. by eapply list_elem_of_lookup_2.
  - destruct (live !! i) as [[u l]|] eqn:Hi; [|split; [done | cbn; lia]]. split; [|cbn; lia].
    eapply Inv_quiet; [|exact HI]. apply lease_refund_quiet. eapply live_objects; [done|]. by eapply list_elem_of_lookup_2.
  - split; [|cbn; lia]. eapply Inv_quiet; [|exact HI]. apply wait_quiet.
  - destruct (live !! i) as [[u l]|] eqn:Hi; [|split; [done | cbn; lia]].
    pose proof (delete_Permutation _ _ _ Hi) as Hp. split.
    + cbn [fst snd]. eapply drop_lease_inv. eapply Inv_perm; [exact Hp | done].
    + cbn [snd]. apply Permutation_length in Hp. cbn [length] in Hp. lia.
Qed.

Lemma run_lops_inv ops t live :
  Inv t live -> Z.of_nat (length live + length ops) < 2 ^ 64 ->
  Inv (run_lops ops (t, live)).1 (run_lops ops (t, live)).2.
Proof.
  revert t live. induction ops as [|op ops IH]; intros t live HI Hlen; [done|].
  unfold run_lops. cbn [foldl]. cbn [length] in Hlen.
  destruct (exec_lop_inv op t live HI ltac:(lia)) as [HI1 Hl].
  destruct (exec_lop op (t, live)) as [t1 live1]. cbn [fst snd] in *. apply IH; [done | lia].
Qed.
End calls.
