(* ===== verification/AtomicBucket.v ===== *)
(** [DirectionBucket::try_consume] of proxy/traffic_limiter.rs as concurrent
    calls run it: one step per atomic access.  All accesses are [Relaxed], so a
    load may return any value its cell ever held, while a compare-exchange acts
    on the newest one; the weak compare-exchange may fail spuriously. *)

From stdpp Require Import base list numbers.
From S2P Require Import Prelude Net TrafficLimiter LimiterRate.
Local Open Scope Z_scope.

(** * Threads *)

Inductive Pc :=
  | PStart
  | PLoadEpoch
  | PCasEpoch (current : Z)
  | PStoreUsed
  | PLoadUsed
  | PCasUsed (used grant : Z)
  | PDone (grant : Z).

Record Thread := mkThread { th_ms : Z; th_cap_bps : Z; th_requested : Z; th_pc : Pc }.

Definition at_pc (pc : Pc) (th : Thread) : Thread := mkThread (th_ms th) (th_cap_bps th) (th_requested th) pc.
Definition start (ms cap_bps requested : Z) : Thread := mkThread ms cap_bps requested PStart.
Definition result (th : Thread) : option Z := match th_pc th with PDone g => Some g | _ => None end.

(** The values a cell held, the newest first. *)
Definition now (cell : list Z) : Z := default 0 (head cell).

(** One access of a thread: [rd] is the age of the value a load returns,
    [spurious] whether the weak compare-exchange fails by itself. *)
Definition thread_step (rd : nat) (spurious : bool) (th : Thread) (ep us : list Z)
    : option (Thread * list Z * list Z) :=
  let epoch := current_epoch (th_ms th) in
  let cap_epoch := bytes_per_epoch (th_cap_bps th) in
  match th_pc th with
  | PStart =>
      if th_requested th =? 0 then Some (at_pc (PDone 0) th, ep, us)
      else if th_cap_bps th =? 0 then Some (at_pc (PDone (th_requested th)) th, ep, us)
      else Some (at_pc PLoadEpoch th, ep, us)
  | PLoadEpoch =>
      current ← ep !! rd;
      if current =? epoch then Some (at_pc PLoadUsed th, ep, us)
      else if current <? epoch then Some (at_pc (PCasEpoch current) th, ep, us)
      else Some (at_pc PLoadUsed th, ep, us)
  | PCasEpoch current =>
      if now ep =? current then Some (at_pc PStoreUsed th, epoch :: ep, us)
      else Some (at_pc PLoadUsed th, ep, us)
  | PStoreUsed => Some (at_pc PLoadUsed th, ep, 0 :: us)
  | PLoadUsed =>
      used ← us !! rd;
      if cap_epoch <=? used then Some (at_pc (PDone 0) th, ep, us)
      else
        let remaining := sat_sub cap_epoch used in
        let grant := Z.min (th_requested th) remaining in
        if grant =? 0 then Some (at_pc (PDone 0) th, ep, us)
        else Some (at_pc (PCasUsed used grant) th, ep, us)
  | PCasUsed used grant =>
      if negb spurious && (now us =? used) then Some (at_pc (PDone grant) th, ep, sat_add used grant :: us)
      else Some (at_pc PLoadUsed th, ep, us)
  | PDone _ => None
  end.

(** * Interleavings *)

(** [sh_done] is the order in which the calls returned. *)
Record Shared := mkShared {
  sh_epoch : list Z;
  sh_used : list Z;
  sh_threads : list Thread;
  sh_done : list Thread
}.

Record Event := mkEvent { ev_thread : nat; ev_read : nat; ev_spurious : bool }.

Definition shared_step (ev : Event) (s : Shared) : option Shared :=
  th ← sh_threads s !! ev_thread ev;
  '(th, ep, us) ← thread_step (ev_read ev) (ev_spurious ev) th (sh_epoch s) (sh_used s);
  Some (mkShared ep us (<[ev_thread ev := th]> (sh_threads s))
    (match result th with Some _ => sh_done s ++ [th] | None => sh_done s end)).

Fixpoint run (evs : list Event) (s : Shared) : option Shared :=
  match evs with
  | [] => Some s
  | ev :: evs => shared_step ev s ≫= run evs
  end.

(** The same calls one after another, by the sequential definition. *)
Fixpoint sequential (ths : list Thread) (b : DirectionBucket) : list Z * DirectionBucket :=
  match ths with
  | [] => ([], b)
  | th :: ths =>
      let '(g, b) := bucket_try_consume (th_ms th) (th_cap_bps th) (th_requested th) b in
      let '(gs, b) := sequential ths b in
      (g :: gs, b)
  end.

Lemma sequential_snoc ths th b gs b1 g b2 :
  sequential ths b = (gs, b1) ->
  bucket_try_consume (th_ms th) (th_cap_bps th) (th_requested th) b1 = (g, b2) ->
  sequential (ths ++ [th]) b = (gs ++ [g], b2).
Proof.
  revert b gs. induction ths as [|x ths IH]; intros b gs; cbn [sequential app].
  - intros [= <- <-] ->. done.
  - destruct (bucket_try_consume (th_ms x) _ _ b) as [gx bx]. destruct (sequential ths bx) as [gs' b'] eqn:Hs.
    intros [= <- ->] Hg. by rewrite (IH _ _ Hs Hg).
Qed.

(** * Within one epoch *)

Definition call_in (E : Z) (th : Thread) : Prop := current_epoch (th_ms th) <= E /\ 0 <= th_requested th /\ 0 <= th_cap_bps th.

(** What a thread between two accesses knows. *)
Definition pc_ok (E : Z) (th : Thread) : Prop :=
  match th_pc th with
  | PStart | PDone _ => True
  | PCasEpoch current => th_requested th <> 0 /\ th_cap_bps th <> 0 /\ current < E
  | PStoreUsed => False
  | PLoadEpoch | PLoadUsed => th_requested th <> 0 /\ th_cap_bps th <> 0
  | PCasUsed used grant =>
      bucket_try_consume (th_ms th) (th_cap_bps th) (th_requested th) (mkBucket E used)
        = (grant, mkBucket E (sat_add used grant)) /\
      used <= sat_add used grant /\ th_requested th <> 0 /\ th_cap_bps th <> 0
  end.

Record InEpoch (E : Z) (b0 : DirectionBucket) (s : Shared) : Prop := mkInEpoch {
  ie_epoch : head (sh_epoch s) = Some E;
  ie_used : is_Some (head (sh_used s)) /\ Forall (fun v => 0 <= v <= now (sh_used s)) (sh_used s);
  ie_threads : Forall (fun th => call_in E th /\ pc_ok E th) (sh_threads s);
  ie_done : sequential (sh_done s) b0 = (omap result (sh_done s), mkBucket E (now (sh_used s)));
  ie_results : Forall (fun th => is_Some (result th)) (sh_done s)
}.

Lemma consume_synced E used th :
  call_in E th -> th_requested th <> 0 -> th_cap_bps th <> 0 ->
  bucket_try_consume (th_ms th) (th_cap_bps th) (th_requested th) (mkBucket E used) =
    if bytes_per_epoch (th_cap_bps th) <=? used then (0, mkBucket E used)
    else
      let grant := Z.min (th_requested th) (sat_sub (bytes_per_epoch (th_cap_bps th)) used) in
      if grant =? 0 then (0, mkBucket E used) else (grant, mkBucket E (sat_add used grant)).
Proof.
  intros (HE & _ & _) Hr Hc. unfold bucket_try_consume.
  rewrite (proj2 (Z.eqb_neq _ _) Hr), (proj2 (Z.eqb_neq _ _) Hc).
  assert (sync_epoch (current_epoch (th_ms th)) (mkBucket E used) = mkBucket E used) as ->.
  { unfold sync_epoch. cbn [db_epoch]. destruct (Z.eqb_spec E (current_epoch (th_ms th))); [done|].
    by rewrite (proj2 (Z.ltb_ge _ _)) by lia. }
  done.
Qed.

(** The effect of a step on the shared cells and on the completion. *)
Definition step_ok (E : Z) (th' : Thread) (us us' : list Z) : Prop :=
  pc_ok E th' /\
  (us' = us \/ exists v, us' = v :: us /\ now us <= v) /\
  match result th' with
  | Some g => bucket_try_consume (th_ms th') (th_cap_bps th') (th_requested th') (mkBucket E (now us))
      = (g, mkBucket E (now us'))
  | None => us' = us
  end.

Lemma load_used_ok E th rd spurious ep us th' ep' us' :
  call_in E th -> pc_ok E th -> th_pc th = PLoadUsed ->
  Forall (fun v => 0 <= v <= now us) us ->
  thread_step rd spurious th ep us = Some (th', ep', us') ->
  ep' = ep /\ step_ok E th' us us'.
Proof.
  intros Hc Hpc Hat Hus. unfold pc_ok in Hpc. unfold thread_step. rewrite Hat in *. destruct Hpc as [Hr Hcap].
  destruct (us !! rd) as [used|] eqn:Hrd; [|done]. cbn [mbind option_bind].
  pose proof (Forall_lookup_1 _ _ _ _ Hus Hrd) as Hle. cbn beta in Hle.
  pose proof (bytes_per_epoch_range (th_cap_bps th) ltac:(destruct Hc; lia)) as Hrange.
  destruct (Z.leb_spec (bytes_per_epoch (th_cap_bps th)) used) as [Hfull|Hroom].
  - intros [= <- <- <-]. split; [done|]. unfold step_ok, pc_ok. cbn [at_pc result th_pc th_ms th_cap_bps th_requested].
    split_and!; auto. rewrite (consume_synced E) by done. by rewrite (proj2 (Z.leb_le _ _)) by lia.
  - set (grant := Z.min _ _). assert (0 < grant) as Hg.
    { unfold grant, sat_sub. destruct Hc as (_ & ? & _). lia. }
    rewrite (proj2 (Z.eqb_neq grant 0)) by lia. intros [= <- <- <-]. split; [done|].
    unfold step_ok, pc_ok. cbn [at_pc result th_pc th_ms th_cap_bps th_requested].
    split_and!; auto.
    + pose proof (consume_synced E used th Hc Hr Hcap) as Heq. rewrite (proj2 (Z.leb_gt _ _)) in Heq by lia.
      cbn zeta in Heq. fold grant in Heq. by rewrite (proj2 (Z.eqb_neq grant 0)) in Heq by lia.
    + unfold grant, sat_sub, sat_add, umax, U64_MAX in *. lia.
Qed.

Lemma early_return_ok E th g us :
  th_pc th = PStart -> (th_requested th = 0 /\ g = 0 \/ th_requested th <> 0 /\ th_cap_bps th = 0 /\ g = th_requested th) ->
  step_ok E (at_pc (PDone g) th) us us.
Proof.
  intros _ Hcase. unfold step_ok, pc_ok. cbn [at_pc result th_pc th_ms th_cap_bps th_requested].
  split_and!; auto. unfold bucket_try_consume.
  destruct Hcase as [[-> ->]|(Hr & -> & ->)]; [done|]. by rewrite (proj2 (Z.eqb_neq _ _) Hr).
Qed.

Lemma continue_ok E th pc us : result (at_pc pc th) = None -> pc_ok E (at_pc pc th) -> step_ok E (at_pc pc th) us us.
Proof. intros Hr Hpc. unfold step_ok. rewrite Hr. auto. Qed.

Lemma thread_step_ok E th rd spurious ep us th' ep' us' :
  call_in E th -> pc_ok E th -> head ep = Some E ->
  Forall (fun v => 0 <= v <= now us) us ->
  thread_step rd spurious th ep us = Some (th', ep', us') ->
  ep' = ep /\ step_ok E th' us us'.
Proof.
  intros Hc Hpc Hep Hus Hstep. destruct (th_pc th) as [| |current| | |used grant|g] eqn:Hat;
    [| | | |by eapply load_used_ok| |]; unfold thread_step in Hstep; unfold pc_ok in Hpc; rewrite Hat in Hstep, Hpc.
  - destruct (Z.eqb_spec (th_requested th) 0); [simplify_eq; split; [done|]; apply early_return_ok; auto|].
    destruct (Z.eqb_spec (th_cap_bps th) 0); simplify_eq; (split; [done|]); [apply early_return_ok; auto|].
    by apply continue_ok.
  - destruct (ep !! rd) as [current|]; [|done]. cbn [mbind option_bind] in Hstep. destruct Hc as (HE & _).
    destruct (Z.eqb_spec current (current_epoch (th_ms th))); [simplify_eq; by split; [|apply continue_ok]|].
    destruct (Z.ltb_spec current (current_epoch (th_ms th))); simplify_eq; (split; [done|]); apply continue_ok; try done.
    destruct Hpc. unfold pc_ok. cbn. split_and!; (done || lia).
  - destruct Hpc as (? & ? & Hlt). assert (now ep = E) as Hnow by (unfold now; by rewrite Hep).
    rewrite Hnow, (proj2 (Z.eqb_neq E current)) in Hstep by lia. simplify_eq. by split; [|apply continue_ok].
  - done.
  - destruct Hpc as (Hcons & Hmono & ? & ?).
    destruct (negb spurious && (now us =? used)) eqn:Hcas; simplify_eq; (split; [done|]); [|by apply continue_ok].
    apply andb_true_iff in Hcas as [_ Hq%Z.eqb_eq]. subst used. unfold step_ok, pc_ok.
    cbn [at_pc result th_pc th_ms th_cap_bps th_requested]. split_and!; [done | right; eauto | done].
  - done.
Qed.

(** * Runs within one epoch *)

Lemma used_grows us us' :
  Forall (fun v => 0 <= v <= now us) us -> is_Some (head us) ->
  us' = us \/ (exists v, us' = v :: us /\ now us <= v) ->
  is_Some (head us') /\ Forall (fun v => 0 <= v <= now us') us'.
Proof.
  intros Hus [x Hx] [->|(v & -> & Hle)]; [eauto|]. split; [cbn; eauto|].
  assert (0 <= now us) as H0.
  { destruct us as [|y us]; [done|]. apply Forall_cons_1 in Hus as [? _]. cbn in *. lia. }
  constructor; [cbn; lia|]. eapply Forall_impl; [|exact Hus]. intros w Hw. cbn in *. lia.
Qed.

(** A step moves only the program counter. *)
Lemma thread_step_call rd spurious th ep us th' ep' us' :
  thread_step rd spurious th ep us = Some (th', ep', us') -> exists pc, th' = at_pc pc th.
Proof.
  unfold thread_step. destruct (th_pc th); intros Hstep; repeat case_match; simplify_eq; eauto.
  - destruct (ep !! rd); [|done]. cbn [mbind option_bind] in Hstep. repeat case_match; simplify_eq; eauto.
  - destruct (us !! rd); [|done]. cbn [mbind option_bind] in Hstep. repeat case_match; simplify_eq; eauto.
Qed.

Lemma shared_step_in_epoch E b0 ev s s' : InEpoch E b0 s -> shared_step ev s = Some s' -> InEpoch E b0 s'.
Proof.
  intros [Hep [Hh Hus] Hths Hdone Hres]. unfold shared_step.
  destruct (sh_threads s !! ev_thread ev) as [th|] eqn:Hth; [|done]. cbn [mbind option_bind].
  destruct (thread_step _ _ th _ _) as [[[th' ep'] us']|] eqn:Hstep; [|done]. cbn [mbind option_bind].
  intros [= <-]. destruct (Forall_lookup_1 _ _ _ _ Hths Hth) as [Hc Hpc].
  destruct (thread_step_ok E th _ _ _ _ _ _ _ Hc Hpc Hep Hus Hstep) as [-> (Hpc' & Hgrow & Hout)].
  assert (call_in E th') as Hc' by (by destruct (thread_step_call _ _ _ _ _ _ _ _ Hstep) as [pc ->]).
  constructor; cbn [sh_epoch sh_used sh_threads sh_done]; [done | by eapply used_grows | by apply Forall_insert | |].
  - destruct (result th') as [g|] eqn:Hr; [|by rewrite Hout].
    rewrite omap_app. cbn [omap list_omap]. rewrite Hr. by eapply sequential_snoc.
  - destruct (result th') as [g|] eqn:Hr; [|done]. apply Forall_app. split; [done|]. by constructor; [rewrite Hr|].
Qed.

Lemma run_in_epoch E b0 evs s s' : InEpoch E b0 s -> run evs s = Some s' -> InEpoch E b0 s'.
Proof.
  revert s. induction evs as [|ev evs IH]; intros s Hs; cbn [run]; [by intros [= <-]|].
  destruct (shared_step ev s) as [s1|] eqn:H1; [|done]. cbn [mbind option_bind]. intros Hrun.
  eapply IH; [|exact Hrun]. by eapply shared_step_in_epoch.
Qed.

(** * A call running alone *)

Definition alone (i n : nat) : list Event := replicate n (mkEvent i 0 false).

(** A bound on the accesses a call still makes when no other call interferes. *)
Definition accesses_left (th : Thread) (us : list Z) : nat :=
  match th_pc th with
  | PStart => 6 | PLoadEpoch => 5 | PCasEpoch _ => 4 | PStoreUsed => 3 | PLoadUsed => 2
  | PCasUsed used _ => if now us =? used then 1 else 3
  | PDone _ => 0
  end.

Lemma alone_step th ep us :
  is_Some (head ep) -> is_Some (head us) -> result th = None ->
  exists th' ep' us', thread_step 0 false th ep us = Some (th', ep', us') /\
    is_Some (head ep') /\ is_Some (head us') /\ (accesses_left th' us' < accesses_left th us)%nat.
Proof.
  intros [e He] [u Hu] Hr. destruct ep as [|e' ep]; [done|]. destruct us as [|u' us]; [done|].
  unfold thread_step, accesses_left, result in *. cbn [now head lookup list_lookup mbind option_bind].
  destruct (th_pc th); try done; repeat case_match; simplify_eq;
    do 3 eexists; (split; [reflexivity|]); cbn; (split_and!; [eauto | eauto | try lia]).
  all: try (rewrite Z.eqb_refl; lia).
Qed.

Lemma alone_returns k i s th :
  (accesses_left th (sh_used s) <= k)%nat ->
  is_Some (head (sh_epoch s)) -> is_Some (head (sh_used s)) -> sh_threads s !! i = Some th ->
  exists n s' th', (n <= k)%nat /\ run (alone i n) s = Some s' /\ sh_threads s' !! i = Some th' /\ is_Some (result th').
Proof.
  revert s th. induction k as [|k IH]; intros s th Hk Hep Hus Hth.
  all: destruct (result th) as [g|] eqn:Hr; [exists 0%nat, s, th; split_and!; [lia | done | done | by rewrite Hr]|].
  all: destruct (alone_step th _ _ Hep Hus Hr) as (th1 & ep1 & us1 & Hstep & Hep1 & Hus1 & Hlt).
  { lia. }
  set (s1 := mkShared ep1 us1 (<[i := th1]> (sh_threads s)) (match result th1 with Some _ => sh_done s ++ [th1] | None => sh_done s end)).
  assert (shared_step (mkEvent i 0 false) s = Some s1) as H1.
  { unfold shared_step. cbn [ev_thread ev_read ev_spurious]. rewrite Hth. cbn [mbind option_bind]. by rewrite Hstep. }
  destruct (IH s1 th1) as (n & s' & th' & Hn & Hrun & Hth' & Hd); [cbn; lia | done | done | |].
  { cbn. apply list_lookup_insert_eq. by eapply lookup_lt_Some. }
  exists (S n), s', th'. split_and!; [lia | | done | done]. cbn [alone replicate run]. by rewrite H1.
Qed.

Lemma accesses_left_le th us : (accesses_left th us <= 6)%nat.
Proof. unfold accesses_left. repeat case_match; lia. Qed.

(** * Across a change of epoch *)

(** The first call of the epoch has advanced it but not yet cleared the
    counter; the second call runs to completion in between. *)
Definition racing_schedule : list Event :=
  alone 0 3 ++ alone 1 4 ++ alone 0 3.

Definition total_granted (s : Shared) : Z := foldr Z.add 0 (omap result (sh_done s)).

Lemma racing_run E ms bps :
  let cap := bytes_per_epoch bps in
  0 < bps -> E < current_epoch ms ->
  exists s, run racing_schedule (mkShared [E] [0] [start ms bps cap; start ms bps cap] []) = Some s /\
    total_granted s = 2 * cap /\ now (sh_used s) = cap /\ now (sh_epoch s) = current_epoch ms.
Proof.
  intros cap Hbps HE. pose proof (bytes_per_epoch_range bps Hbps) as Hc. fold cap in Hc.
  assert (sat_sub cap 0 = cap) as Hsub by (unfold sat_sub; lia).
  assert (sat_add 0 cap = cap) as Hadd by (unfold sat_add, umax, U64_MAX in *; lia).
  assert ((cap =? 0) = false) as H0 by lia. assert ((bps =? 0) = false) as Hb0 by lia.
  assert ((E =? current_epoch ms) = false) as H1 by lia. assert ((E <? current_epoch ms) = true) as H2 by lia.
  assert ((cap <=? 0) = false) as H3 by lia.
  unfold racing_schedule, alone, start. cbn [replicate app].
  repeat (cbn [run]; unfold shared_step, thread_step, at_pc, result;
    cbn [ev_thread ev_read ev_spurious sh_threads sh_epoch sh_used sh_done th_pc th_ms th_cap_bps th_requested lookup list_lookup
      mbind option_bind now head default insert list_insert negb andb app];
    fold cap; rewrite ?H0, ?Hb0, ?H1, ?H2, ?H3, ?Hsub, ?Hadd, ?Z.min_id, ?Z.eqb_refl).
  eexists. split; [reflexivity|]. unfold total_granted. cbn. lia.
Qed.
