(* ===== verification/GuardProps.v ===== *)
(** Properties of the guards in front of the relay: the replay checker, the
    back-off of failing peers, and the traffic limiter. *)

From stdpp Require Import base list gmap numbers.
From S2P Require Import Prelude Net Replay ReplayRun AuthProbe TrafficLimiter Limiter LimiterInv LimiterRate AtomicBucket.
Local Open Scope Z_scope.

(** * Instances used by the examples *)

(** A cache that forgets everything when it is full. *)
#[local] Instance demo_lru : LruCache (nat * gmap (list Z) Z) := {
  lru_new n := (n, ∅);
  lru_peek k l := l.2 !! k;
  lru_get k l := (l.2 !! k, l);
  lru_put k v l := (l.1, <[k := v]> (if (size l.2 <? l.1)%nat then l.2 else ∅));
  lru_pop k l := (l.1, delete k l.2);
  lru_clear l := (l.1, ∅);
  lru_len l := size l.2;
}.

#[local] Instance demo_lru_laws : LruCacheLaws (nat * gmap (list Z) Z).
Proof.
  refine {| lru_view l := l.2; lru_cap l := l.1 |}; try done.
  intros k v [n m] Hlt%Nat.ltb_lt. cbn [fst snd] in Hlt. unfold lru_put, demo_lru. cbn [fst snd]. by rewrite Hlt.
Defined.

Definition demo_hash (key : list Z) : Z := foldr Z.add 0 key.

Definition demo_before : ReplayChecker (nat * gmap (list Z) Z) :=
  default (checker_new 0 0) (exec_ops 0 demo_hash [OpCheck Handshake [1] NANOS] (checker_new 128 0)).
Definition demo_added : ReplayChecker (nat * gmap (list Z) Z) :=
  default demo_before (snd <$> check_and_add_internal 0 demo_hash TlsDigest [7; 7] (200 * NANOS) demo_before).

(** * Replay *)

(** C13: No replay within the window: once a check has reported a key as new, and
    as long as fewer keys than a shard holds are added to the key's shard, the
    key is reported as a replay by every later check within the window, whatever
    other calls and cleanups of either family come in between. *)
Theorem replay_detected {L : Type} `{LruCacheLaws L} instant_min hash total w before kind data t
    (c c1 : ReplayChecker L) ops now :
  exec_ops instant_min hash before (checker_new total w) = Some c ->
  window_of kind c <> 0 ->
  check_and_add_internal instant_min hash kind data t c = Some (false, c1) ->
  Forall (fun op => in_window instant_min (window_of kind c) t (op_time op)) ops ->
  in_window instant_min (window_of kind c) t now ->
  (additions hash kind (idx_of hash data) ops < shard_capacity total)%nat ->
  exists c2, exec_ops instant_min hash ops c1 = Some c2 /\
    fst <$> check_and_add_internal instant_min hash kind data now c2 = Some true /\
    fst <$> check_only_internal instant_min hash kind data now c2 = Some true.
Proof.
  intros Hbefore Hw Hnew Hops Hnow Hroom.
  destruct (exec_ops_inv instant_min hash _ _ _ _ (checker_new_inv total w) Hbefore) as [Hc _].
  destruct (check_and_add_new instant_min hash _ _ _ _ _ _ Hc Hw Hnew) as (Hc1 & Hw1 & s & Hs & Hh).
  rewrite <- Hw1 in Hw, Hops, Hnow.
  destruct (run_holds instant_min hash _ ops c1 kind _ s t data 0 Hc1 Hw Hops Hroom Hs Hh)
    as (c2 & s2 & Hrun & Hc2 & Hw2 & Hs2 & Hh2).
  exists c2. split; [done|]. rewrite <- Hw2 in Hw, Hnow.
  destruct (check_and_add_answer instant_min hash _ kind data now c2 s2 Hc2 Hw Hs2) as [-> ->].
  rewrite bool_decide_eq_true_2; [done|]. eapply holds_elem, holds_drop_old; [by apply in_window_cutoff | done].
Qed.

Lemma replay_detected_witness :
  exists c2, exec_ops 0 demo_hash [OpAdd TlsDigest [14] (210 * NANOS); OpCleanup (220 * NANOS)] demo_added = Some c2 /\
    fst <$> check_and_add_internal 0 demo_hash TlsDigest [7; 7] (230 * NANOS) c2 = Some true.
Proof.
  destruct (replay_detected 0 demo_hash 128 0 [OpCheck Handshake [1] NANOS] TlsDigest [7; 7] (200 * NANOS)
    demo_before demo_added [OpAdd TlsDigest [14] (210 * NANOS); OpCleanup (220 * NANOS)] (230 * NANOS)) as (c2 & Hrun & Hhit & _).
  - vm_compute. reflexivity.
  - vm_compute. discriminate.
  - vm_compute. reflexivity.
  - repeat constructor; vm_compute; discriminate.
  - split; vm_compute; discriminate.
  - vm_compute. lia.
  - exists c2. exact (conj Hrun Hhit).
Defined.

(** No false alarm: whatever calls have been made in time order on a new
    checker, no call panics on a shard index, and a check that reports a replay
    names a key that one of those calls added to the same family, at a time no
    older than the window allows. *)
Theorem replay_no_false_alarm {L : Type} `{LruCacheLaws L} instant_min hash total w T ops :
  in_order T ops ->
  exists c : ReplayChecker L, exec_ops instant_min hash ops (checker_new total w) = Some c /\
  forall kind data now, exists found,
    fst <$> check_and_add_internal instant_min hash kind data now c = Some found /\
    fst <$> check_only_internal instant_min hash kind data now c = Some found /\
    (found = true -> exists ts, (kind, data, ts) ∈ history ops /\
      cleanup_cutoff instant_min now (window_of kind c) <= ts <= end_time T ops).
Proof.
  intros Hord. destruct (run_sourced instant_min hash (shard_capacity total) ops (history ops) T (checker_new total w))
    as (c & Hrun & Hc & _ & Hsrc); [apply checker_new_inv | done | | done |].
  { intros kind i s Hs. eapply sourced_weaken; [done | | by eapply checker_new_sourced]. set_solver. }
  exists c. split; [done|]. intros kind data now.
  destruct (family_shard hash _ _ data (checker_inv_family _ c kind Hc)) as (s & Hs & _).
  destruct (decide (window_of kind c = 0)) as [Hw|Hw].
  { exists false. destruct (zero_window_answer instant_min hash _ kind data now c Hc Hw) as [-> ->]. done. }
  eexists. destruct (check_and_add_answer instant_min hash _ kind data now c s Hc Hw Hs) as [-> ->].
  split_and!; [done | done |]. intros Hin%bool_decide_eq_true.
  destruct (sourced_drop_old kind (history ops) (end_time T ops) (cleanup_cutoff instant_min now (window_of kind c)) _ (Hsrc kind _ s Hs))
    as [[_ Hf] Hcut].
  apply list_elem_of_fmap in Hin as ([ts k] & -> & Hin). rewrite list.Forall_forall in Hf, Hcut.
  destruct (Hf _ Hin) as [Hle Hhist]. specialize (Hcut _ Hin). exists ts. split; [done | cbn in *; lia].
Qed.

Lemma replay_no_false_alarm_witness :
  in_order 0 [OpAdd Handshake [1; 2] 5; OpCheckAdd TlsDigest [3] 9] /\
  exists c : ReplayChecker (nat * gmap (list Z) Z),
    exec_ops 0 demo_hash [OpAdd Handshake [1; 2] 5; OpCheckAdd TlsDigest [3] 9] (checker_new 128 NANOS) = Some c.
Proof.
  assert (in_order 0 [OpAdd Handshake [1; 2] 5; OpCheckAdd TlsDigest [3] 9]) as Ho by (cbn; lia).
  split; [done|]. destruct (replay_no_false_alarm 0 demo_hash 128 NANOS 0 _ Ho) as (c & Hc & _). by exists c.
Defined.

(** When the start of the window lies before the first representable instant,
    the cutoff is [now] itself and older keys are forgotten at once. *)
Lemma replay_window_wraps :
  let first := check_and_add_internal 0 demo_hash TlsDigest [7] (50 * NANOS)
    (checker_new (L := nat * gmap (list Z) Z) 128 0) in
  fst <$> first = Some false /\
  (first ≫= fun r => fst <$> check_and_add_internal 0 demo_hash TlsDigest [7] (51 * NANOS) r.2) = Some false.
Proof. split; vm_compute; reflexivity. Qed.

(** * Failing peers *)

Definition probe_empty : HandshakeShared := AuthProbe.mkShared ∅ None None.

(** The table of failing peers never exceeds its 65,536 entries, whatever
    calls the handshake path makes and in whatever order the map is iterated;
    and yet a failure is always recorded: the peer's entry counts it, even when
    other entries had to make room, and no other entry is altered. *)
Theorem auth_probe_table_bounded iter eviction_hash ops ip now :
  (forall m, iter m ≡ₚ map_to_list m) ->
  let s := run_probes iter eviction_hash ops probe_empty in
  let s' := auth_probe_record_failure_in iter eviction_hash ip now s in
  let p := normalize_auth_probe_ip ip in
  table_len (auth_probe s) <= AUTH_PROBE_TRACK_MAX_ENTRIES /\
  table_len (auth_probe s') <= AUTH_PROBE_TRACK_MAX_ENTRIES /\
  auth_probe s' !! p =
    Some (match auth_probe s !! p with Some e => update_existing now e | None => make_new_state now end) /\
  forall q e, q <> p -> auth_probe s' !! q = Some e -> auth_probe s !! q = Some e.
Proof.
  intros Hiter s s' p. assert (table_ok s) as Hok by (by apply run_probes_ok).
  destruct (record_failure_spec iter eviction_hash Hiter ip now s Hok) as (? & ? & ? & _). by split_and!.
Qed.

Lemma auth_probe_table_bounded_witness :
  table_len (auth_probe (run_probes map_to_list (fun _ _ => 3)
    [ProbeFailure (IpV4 [1; 2; 3; 4]) 5; ProbeSuccess (IpV4 [9; 9; 9; 9])] probe_empty)) <= 65536.
Proof.
  exact (proj1 (auth_probe_table_bounded map_to_list (fun _ _ => 3)
    [ProbeFailure (IpV4 [1; 2; 3; 4]) 5; ProbeSuccess (IpV4 [9; 9; 9; 9])] (IpV4 [1; 2; 3; 4]) 7 (fun m => Permutation_refl _))).
Defined.

(** C40: A peer is throttled exactly for its back-off: after [n] failures in a
    row, each within the retention period of the one before, every address the
    peer is tracked by (the same /64 for IPv6) is refused until the back-off of
    [n] failures after the last one has passed and accepted from then on; below
    four failures it is never refused, one second after the last failure it no
    longer is, and a success clears the record. *)
Theorem auth_probe_throttle_exact iter eviction_hash ops ip ip' first times now :
  (forall m, iter m ≡ₚ map_to_list m) ->
  let s0 := run_probes iter eviction_hash ops probe_empty in
  let n := 1 + Z.of_nat (length times) in
  let last := last_time first times in
  auth_probe s0 !! normalize_auth_probe_ip ip = None ->
  within_retention first times -> n < 2 ^ 32 ->
  normalize_auth_probe_ip ip' = normalize_auth_probe_ip ip ->
  last <= now <= last + secs AUTH_PROBE_TRACK_RETENTION_SECS ->
  let s := record_failures iter eviction_hash ip (first :: times) s0 in
  auth_probe_is_throttled_in ip' now s = (now <? last + auth_probe_backoff n, s) /\
  (n < AUTH_PROBE_BACKOFF_START_FAILS \/ last + secs 1 <= now -> (auth_probe_is_throttled_in ip' now s).1 = false) /\
  (auth_probe_is_throttled_in ip now (auth_probe_record_success_in ip' s)).1 = false.
Proof.
  intros Hiter s0 n last Hnone Hret Hn Hip Hnow s.
  assert (table_ok s0) as Hok by (by apply run_probes_ok).
  destruct (record_failure_spec iter eviction_hash Hiter ip first s0 Hok) as (Hok1 & He1 & _). rewrite Hnone in He1.
  destruct (streak_run iter eviction_hash Hiter ip times 1 first _ Hok1 He1 Hret) as [_ He]; [lia | done |].
  fold n last in He. assert (auth_probe_is_throttled_in ip' now s = (now <? last + auth_probe_backoff n, s)) as Heq.
  { unfold auth_probe_is_throttled_in. by rewrite (query_entry _ ip ip' now s _ Hip He) by (by eapply not_expired). }
  split_and!; [done | |].
  - rewrite Heq. cbn [fst]. intros Hcase. apply Z.ltb_ge. pose proof (backoff_range n) as Hb.
    destruct Hcase as [Hlt|Hle]; [|lia]. rewrite (backoff_small n Hlt). lia.
  - unfold auth_probe_is_throttled_in, auth_probe_query, auth_probe_record_success_in. cbn [set_probe auth_probe].
    by rewrite Hip, lookup_delete_eq.
Qed.

Lemma auth_probe_throttle_exact_witness :
  (auth_probe_is_throttled_in (IpV4 [1; 2; 3; 4]) 30
    (record_failures map_to_list (fun _ _ => 3) (IpV4 [1; 2; 3; 4]) [5; 10; 15; 20] probe_empty)).1 = true.
Proof.
  destruct (auth_probe_throttle_exact map_to_list (fun _ _ => 3) [] (IpV4 [1; 2; 3; 4]) (IpV4 [1; 2; 3; 4]) 5 [10; 15; 20] 30)
    as (H & _).
  - intros m. reflexivity.
  - reflexivity.
  - repeat split; vm_compute; discriminate.
  - reflexivity.
  - reflexivity.
  - split; vm_compute; discriminate.
  - exact (f_equal fst H).
Defined.

(** * Leases *)

(** Networks as an address and a prefix length. *)
#[local] Instance demo_network : IpNetwork (IpAddr * Z) := {
  net_new ip prefix := Some (ip, prefix);
  net_network n := n.1;
  net_contains ip n := bool_decide (ip = n.1);
  net_prefix n := n.2;
  net_is_v4 n := is_v4 n.1;
  net_to_string n := [n.2];
}.

(** C24: Leases are accounted for exactly: after any sequence of policy changes,
    acquisitions, consumptions, refunds, waits and drops, the gauges equal the
    number of live leases, every live lease's bucket is still registered under
    its user (so all connections of a user share one bucket), and the counters
    of user bucket, network bucket and share equal the live leases on them. *)
Theorem leases_accounted {N : Type} `{IpNetwork N} (ops : list (LimiterOp (N := N))) :
  Z.of_nat (length ops) < 2 ^ 64 ->
  let '(t, live) := run_lops ops (limiter_new, []) in
  scope_active_leases (tl_user_scope t) = LimiterInv.count has_user live /\
  scope_active_leases (tl_cidr_scope t) = LimiterInv.count has_cidr live /\
  forall u l, (u, l) ∈ live ->
    (forall id, ls_user_bucket l = Some id ->
      tl_user_buckets t !! u = Some id /\ ub_active_leases (get_user id t) = LimiterInv.count (uses_user id) live) /\
    (forall id, ls_cidr_bucket l = Some id ->
      (exists key, tl_cidr_buckets t !! key = Some id) /\
      cb_active_leases (get_cidr id t) = LimiterInv.count (uses_cidr id) live) /\
    (forall id, ls_cidr_user_share l = Some id ->
      cs_active_conns (get_share id t) = LimiterInv.count (uses_share id) live).
Proof.
  intros Hlen. pose proof (run_lops_inv ops limiter_new [] Inv_new Hlen) as HI.
  destruct (run_lops ops (limiter_new, [])) as [t live]. cbn [fst snd] in HI.
  split_and!; [by apply HI | by apply HI |]. intros u l Hin.
  pose proof (live_objects t live u l HI Hin) as (Hu & Hc & Hs). split_and!; intros id Hid.
  - split; [by apply (inv_reg_user _ _ HI u l)|]. destruct (Hu id Hid) as [b Hb].
    unfold get_user. rewrite (lookup_total_correct _ _ _ Hb). by apply (inv_users _ _ HI).
  - split; [by apply (inv_reg_cidr _ _ HI u l)|]. destruct (Hc id Hid) as [b Hb].
    unfold get_cidr. rewrite (lookup_total_correct _ _ _ Hb). by apply (inv_cidrs _ _ HI).
  - destruct (Hs id Hid) as [b Hb]. unfold get_share. rewrite (lookup_total_correct _ _ _ Hb). by apply (inv_shares _ _ HI).
Qed.

Definition demo_ops : list (LimiterOp (N := IpAddr * Z)) :=
  [DoPolicy 0 {[ [65] := mkRate 8000 8000 ]} [(AutoV4 24, mkRate 80000 0)];
   DoAcquire 1 [65] (IpV4 [1; 2; 3; 4]); DoAcquire 2 [65] (IpV4 [1; 2; 3; 4]);
   DoConsume 3 Up 700 0; DoDrop 1].

Lemma leases_accounted_witness :
  length (run_lops demo_ops (limiter_new, [])).2 = 1%nat /\
  scope_active_leases (tl_user_scope (run_lops demo_ops (limiter_new, [])).1) = 1.
Proof.
  pose proof (leases_accounted demo_ops ltac:(reflexivity)) as H.
  destruct (run_lops demo_ops (limiter_new, [])) as [t live] eqn:Hrun. destruct H as [Hu _]. cbn [fst snd].
  assert (live = (run_lops demo_ops (limiter_new, [])).2) as Hl by (by rewrite Hrun).
  split; [rewrite Hl; by vm_compute|]. rewrite Hu, Hl. by vm_compute.
Defined.

(** C35: Consuming does not exceed the configured rate: over any sequence of
    consuming calls in one epoch, newer than the bucket's, that run one after the
    other with no refund and no change of policy in between, the bytes granted to
    all leases of a limited user, and to all leases of a limited network, stay
    within the bytes of one epoch of the configured rate, whatever the calls
    request and for whichever leases and directions.  Concurrent calls may
    be granted more at the change to a new epoch, see [epoch_switch_overshoots]. *)
Theorem epoch_rate_capped {N : Type} `{IpNetwork N} E cs id d (t : TrafficLimiter (N := N)) :
  Forall (call_ok E) cs -> Forall on_network cs ->
  (0 < rate_get d (ub_rates (get_user id t)) -> db_epoch (user_dir d (get_user id t)) < E ->
   granted_to ls_user_bucket id d cs t <= bytes_per_epoch (rate_get d (ub_rates (get_user id t)))) /\
  (0 < rate_get d (cb_rates (get_cidr id t)) -> cd_epoch (cidr_dir d (get_cidr id t)) < E ->
   granted_to ls_cidr_bucket id d cs t <= bytes_per_epoch (rate_get d (cb_rates (get_cidr id t)))).
Proof.
  intros Hcs Hnet. split; intros Hrate Hep.
  - assert (user_spent E id d t = 0) as Hsp by (unfold user_spent, spent; by rewrite (proj2 (Z.eqb_neq _ _)) by lia).
    pose proof (bytes_per_epoch_range _ Hrate) as Hr.
    pose proof (user_granted_bound E cs id d t Hcs Hrate) as Hb. rewrite Hsp in Hb. apply Hb.
    split; [lia|]. unfold user_spent in Hsp. rewrite Hsp. lia.
  - assert (cidr_spent E id d t = 0) as Hsp by (unfold cidr_spent, spent; by rewrite (proj2 (Z.eqb_neq _ _)) by lia).
    pose proof (bytes_per_epoch_range _ Hrate) as Hr.
    pose proof (cidr_granted_bound E cs id d t Hcs Hnet Hrate) as Hb. rewrite Hsp in Hb. apply Hb.
    split; [lia|]. unfold cidr_spent in Hsp. rewrite Hsp. lia.
Qed.

Definition demo_limiter : TrafficLimiter (N := IpAddr * Z) :=
  (run_lops [DoPolicy 0 {[ [65] := mkRate 8000 8000 ]} []; DoAcquire 1 [65] (IpV4 [1; 2; 3; 4])] (limiter_new, [])).1.
Definition demo_calls : list Call :=
  [mkCall 45 Up 15 (mkLease (Some 0%nat) None None None); mkCall 50 Up 15 (mkLease (Some 0%nat) None None None)].

Lemma epoch_rate_capped_witness :
  granted_to ls_user_bucket 0 Up demo_calls demo_limiter <= 20.
Proof.
  refine (proj1 (epoch_rate_capped (current_epoch 45) demo_calls 0 Up demo_limiter _ _) _ _).
  - repeat constructor; vm_compute; discriminate.
  - repeat constructor; intros [? H]; by vm_compute in H.
  - reflexivity.
  - reflexivity.
Defined.

(** * Concurrent calls *)

(** C23: Within an epoch the lock-free bucket is linearizable: however the atomic
    accesses of any number of concurrent calls interleave, with relaxed loads
    that may return old values and compare-exchanges that may fail spuriously,
    the calls that have returned got exactly what they would have got one after
    another in the order of their returns, and left the counter the same. *)
Theorem bucket_linearizable E used hist_epoch hist_used calls evs s :
  Forall (fun th => call_in E th /\ th_pc th = PStart) calls ->
  Forall (fun v => 0 <= v <= used) (used :: hist_used) ->
  run evs (mkShared (E :: hist_epoch) (used :: hist_used) calls []) = Some s ->
  sequential (sh_done s) (mkBucket E used) = (omap result (sh_done s), mkBucket E (now (sh_used s))) /\
  Forall (fun th => is_Some (result th)) (sh_done s).
Proof.
  intros Hcalls Hhist Hrun. assert (InEpoch E (mkBucket E used) s) as HI; [|split; apply HI].
  eapply run_in_epoch; [|exact Hrun]. constructor; try done.
  eapply Forall_impl; [|exact Hcalls]. intros th [Hc Hpc]. split; [done|]. unfold pc_ok. by rewrite Hpc.
Qed.

Definition demo_threads : list Thread := [start 45 8000 15; start 50 8000 15].
Definition demo_schedule : list Event := alone 0 3 ++ alone 1 4 ++ [mkEvent 0 0 false; mkEvent 0 1 true] ++ alone 0 3.

Lemma bucket_linearizable_witness :
  exists s, run demo_schedule (mkShared [2; 1] [0] demo_threads []) = Some s /\
    sequential (sh_done s) (mkBucket 2 0) = ([15; 5], mkBucket 2 20).
Proof.
  destruct (run demo_schedule (mkShared [2; 1] [0] demo_threads [])) as [s|] eqn:Hrun; [|by vm_compute in Hrun].
  exists s. split; [reflexivity|].
  destruct (bucket_linearizable 2 0 [1] [] demo_threads demo_schedule s) as [H _].
  - repeat constructor; vm_compute; discriminate.
  - repeat constructor; vm_compute; discriminate.
  - exact Hrun.
  - rewrite H. vm_compute in Hrun. injection Hrun as <-. reflexivity.
Defined.

(** Consuming is obstruction free: in any state of the cells, wherever a call
    was interrupted and whatever others did meanwhile, it returns within six
    accesses once it runs undisturbed. *)
Theorem bucket_call_returns i s th :
  is_Some (head (sh_epoch s)) -> is_Some (head (sh_used s)) -> sh_threads s !! i = Some th ->
  exists n s' th', (n <= 6)%nat /\ run (alone i n) s = Some s' /\ sh_threads s' !! i = Some th' /\ is_Some (result th').
Proof. intros Hep Hus Hth. eapply alone_returns; [apply accesses_left_le | done | done | exact Hth]. Qed.

Lemma bucket_call_returns_witness :
  exists n s' th', (n <= 6)%nat /\ run (alone 1 n) (mkShared [2; 1] [0] demo_threads []) = Some s' /\
    sh_threads s' !! 1%nat = Some th' /\ is_Some (result th').
Proof.
  apply (bucket_call_returns 1 (mkShared [2; 1] [0] demo_threads []) (start 50 8000 15)); [by eexists | by eexists | reflexivity].
Defined.

(** At a change of epoch the cap does not hold: the call that advances the
    epoch clears the counter in a separate store, so a call that is granted the
    whole budget in between is forgotten, and for every rate there is a schedule
    of two calls that are granted two epochs' worth of bytes in one epoch. *)
Theorem epoch_switch_overshoots E ms bps :
  0 < bps -> E < current_epoch ms ->
  let cap := bytes_per_epoch bps in
  exists s, run racing_schedule (mkShared [E] [0] [start ms bps cap; start ms bps cap] []) = Some s /\
    total_granted s = 2 * cap /\ cap < total_granted s /\ now (sh_used s) = cap /\ now (sh_epoch s) = current_epoch ms.
Proof.
  intros Hbps HE cap. destruct (racing_run E ms bps Hbps HE) as (s & Hrun & Hg & Hu & He).
  pose proof (bytes_per_epoch_range bps Hbps). fold cap in Hrun, Hg, Hu. exists s. split_and!; (done || lia).
Qed.

Lemma epoch_switch_overshoots_witness :
  exists s, run racing_schedule (mkShared [1] [0] [start 45 8000 20; start 45 8000 20] []) = Some s /\ total_granted s = 40.
Proof.
  destruct (epoch_switch_overshoots 1 45 8000) as (s & Hrun & Hg & _); [reflexivity | reflexivity |].
  exists s. split; [exact Hrun | exact Hg].
Defined.
