(* ===== verification/Stream.v ===== *)
(** Polled byte streams: the interface between the layers of a connection
    ([AsyncRead] and [AsyncWrite]), what a layer promises to the layer above it,
    the small buffers of stream/state.rs, and the sockets underneath.

    A poll is a function of the layer's state.  Reading takes fuel, because a
    layer may have to skip any number of records before it has a byte to return;
    [None] means that the fuel ran out. *)

From stdpp Require Import base list numbers.
From S2P Require Import Prelude.
Local Open Scope nat_scope.

(** * Polls *)

(** [io::Error] by its kind. *)
Inductive ErrorKind := WouldBlock | UnexpectedEof | InvalidData | WriteZero | TimedOut | Other | Kind (code : Z).

Inductive Poll (A : Type) := Pending | Ready (a : A).
Arguments Pending {A}.
Arguments Ready {A} a.

Definition IoPoll (A : Type) : Type := Poll (result ErrorKind A).

(** [poll_read fuel cap r]: the bytes put into a buffer with room for [cap];
    no bytes are the end of the stream. *)
Class AsyncRead (R : Type) := poll_read : nat -> nat -> R -> option (IoPoll (list Z) * R).

Class AsyncWrite (W : Type) := {
  poll_write : list Z -> W -> IoPoll nat * W;
  poll_flush : W -> IoPoll unit * W;
  poll_shutdown : W -> IoPoll unit * W;
}.

(** * What a layer promises *)

(** Every byte a reader returns is the next one of the stream it delivers. *)
Record ReaderSpec (R : Type) `{AsyncRead R} := mkReaderSpec {
  delivered : R -> list Z;
  reader_ok : R -> Prop;
  poll_read_spec : forall fuel cap r p r',
    reader_ok r -> poll_read fuel cap r = Some (p, r') ->
    reader_ok r' /\
    match p with
    | Ready (Ok bs) => length bs <= cap /\ delivered r' = delivered r ++ bs
    | _ => delivered r' = delivered r
    end;
}.
Arguments mkReaderSpec {R _}.
Arguments delivered {R _}.
Arguments reader_ok {R _}.
Arguments poll_read_spec {R _}.

(** A writer accepts a prefix of what it is given, and a completed flush leaves
    nothing behind in it.  Nothing is promised once a call has failed. *)
Record WriterSpec (W : Type) `{AsyncWrite W} := mkWriterSpec {
  accepted : W -> list Z;
  settled : W -> Prop;
  writer_ok : W -> Prop;
  poll_write_spec : forall buf w p w',
    writer_ok w -> poll_write buf w = (p, w') ->
    match p with
    | Pending => writer_ok w' /\ accepted w' = accepted w
    | Ready (Ok n) => writer_ok w' /\ n <= length buf /\ accepted w' = accepted w ++ take n buf
    | Ready (Err _) => True
    end;
  poll_flush_spec : forall w p w',
    writer_ok w -> poll_flush w = (p, w') ->
    match p with
    | Pending => writer_ok w' /\ accepted w' = accepted w
    | Ready (Ok _) => writer_ok w' /\ accepted w' = accepted w /\ settled w'
    | Ready (Err _) => True
    end;
}.
Arguments mkWriterSpec {W _}.
Arguments accepted {W _}.
Arguments settled {W _}.
Arguments writer_ok {W _}.
Arguments poll_write_spec {W _}.
Arguments poll_flush_spec {W _}.

(** A reader that keeps its side of the connection alive: it answers every
    poll, is pending only finitely often, and hands out the rest of its stream
    until there is no more. *)
Record SourceSpec (R : Type) `{AsyncRead R} := mkSourceSpec {
  future : R -> list Z;
  patience : R -> nat;
  fuel_need : R -> nat;
  source_ok : R -> Prop;
  source_poll : forall fuel cap r, source_ok r -> fuel_need r <= fuel -> 0 < cap ->
    exists p r', poll_read fuel cap r = Some (p, r') /\ source_ok r' /\ fuel_need r' <= fuel_need r /\
    match p with
    | Pending => future r' = future r /\ patience r' < patience r
    | Ready (Ok bs) =>
        future r = bs ++ future r' /\ length bs <= cap /\ (bs = [] -> future r = []) /\ patience r' <= patience r
    | Ready (Err _) => False
    end;
}.
Arguments mkSourceSpec {R _}.
Arguments future {R _}.
Arguments patience {R _}.
Arguments fuel_need {R _}.
Arguments source_ok {R _}.
Arguments source_poll {R _}.

(** A layer is set up when [base] bytes have already crossed the one below. *)
Section since.
Context {R W : Type} `{AsyncRead R} `{AsyncWrite W} (rs : ReaderSpec R) (ws : WriterSpec W) (base : nat).

Definition arrived (u : R) : list Z := drop base (delivered rs u).
Definition written (u : W) : list Z := drop base (accepted ws u).

Lemma arrived_app u u' new :
  base <= length (delivered rs u) -> delivered rs u' = delivered rs u ++ new ->
  arrived u' = arrived u ++ new /\ base <= length (delivered rs u').
Proof. intros Hb Hd. unfold arrived. rewrite Hd, drop_app_le, length_app by done. split; [done | lia]. Qed.

Lemma written_app u u' new :
  base <= length (accepted ws u) -> accepted ws u' = accepted ws u ++ new ->
  written u' = written u ++ new /\ base <= length (accepted ws u').
Proof. intros Hb Hd. unfold written. rewrite Hd, drop_app_le, length_app by done. split; [done | lia]. Qed.
End since.

(** * Buffers of stream/state.rs *)

(** [YieldBuffer]: data handed out in pieces. *)
Record YieldBuffer := mkYield { yb_data : list Z; yb_position : nat }.

Definition yield_new (data : list Z) : YieldBuffer := mkYield data 0.
Definition yield_is_empty (y : YieldBuffer) : bool := length (yb_data y) <=? yb_position y.
Definition yield_as_slice (y : YieldBuffer) : list Z := drop (yb_position y) (yb_data y).
Definition yield_remaining (y : YieldBuffer) : nat := length (yb_data y) - yb_position y.

(** [copy_to] into a destination of [n] bytes. *)
Definition yield_copy_to (n : nat) (y : YieldBuffer) : list Z * YieldBuffer :=
  let available := drop (yb_position y) (yb_data y) in
  let to_copy := Nat.min (length available) n in
  (take to_copy available, mkYield (yb_data y) (yb_position y + to_copy)).

Lemma yield_remaining_slice y : length (yield_as_slice y) = yield_remaining y.
Proof. unfold yield_as_slice, yield_remaining. by rewrite length_drop. Qed.

Lemma yield_copy_spec n y :
  let '(out, y') := yield_copy_to n y in
  yield_as_slice y = out ++ yield_as_slice y' /\ length out = Nat.min (yield_remaining y) n.
Proof.
  unfold yield_copy_to, yield_as_slice, yield_remaining. cbn. rewrite length_drop, length_take, length_drop. split; [|lia].
  rewrite <- drop_drop. symmetry. apply take_drop.
Qed.

Lemma yield_empty y : yield_is_empty y = true <-> yield_as_slice y = [].
Proof.
  unfold yield_is_empty. rewrite Nat.leb_le. split; [intros Hle; by apply drop_ge|].
  intros Hs. apply (f_equal length) in Hs. rewrite yield_remaining_slice in Hs. unfold yield_remaining in Hs. cbn in Hs. lia.
Qed.

(** * Sockets *)

(** A socket as a script of what its polls return; it keeps a log of the bytes
    that crossed it.  An exhausted script is the end of the stream. *)
Inductive ReadEvent := RPending | RError (e : ErrorKind) | RData (bs : list Z).
Record ReadSocket := mkReadSocket { rs_script : list ReadEvent; rs_log : list Z }.

#[export] Instance socket_read : AsyncRead ReadSocket := fun _ cap r =>
  Some
    match rs_script r with
    | [] => (Ready (Ok []), r)
    | RPending :: s => (Pending, mkReadSocket s (rs_log r))
    | RError e :: s => (Ready (Err e), mkReadSocket s (rs_log r))
    | RData bs :: s =>
        let out := take cap bs in
        let rest := drop cap bs in
        (Ready (Ok out), mkReadSocket (if bool_decide (rest = []) then s else RData rest :: s) (rs_log r ++ out))
    end.

Inductive WriteEvent := WPending | WError (e : ErrorKind) | WAccept (n : nat).
Record WriteSocket := mkWriteSocket { wr_script : list WriteEvent; wr_log : list Z }.

(** An exhausted script accepts everything. *)
#[export] Instance socket_write : AsyncWrite WriteSocket := {
  poll_write buf w :=
    match wr_script w with
    | WPending :: s => (Pending, mkWriteSocket s (wr_log w))
    | WError e :: s => (Ready (Err e), mkWriteSocket s (wr_log w))
    | WAccept n :: s => (Ready (Ok (Nat.min n (length buf))), mkWriteSocket s (wr_log w ++ take n buf))
    | [] => (Ready (Ok (length buf)), mkWriteSocket [] (wr_log w ++ buf))
    end;
  poll_flush w :=
    match wr_script w with
    | WPending :: s => (Pending, mkWriteSocket s (wr_log w))
    | WError e :: s => (Ready (Err e), mkWriteSocket s (wr_log w))
    | WAccept _ :: s => (Ready (Ok tt), mkWriteSocket s (wr_log w))
    | [] => (Ready (Ok tt), w)
    end;
  poll_shutdown w := (Ready (Ok tt), w);
}.

Lemma socket_poll_read fuel cap (r : ReadSocket) p r' :
  poll_read fuel cap r = Some (p, r') ->
  match p with
  | Ready (Ok bs) => length bs <= cap /\ rs_log r' = rs_log r ++ bs
  | _ => rs_log r' = rs_log r
  end.
Proof.
  unfold poll_read, socket_read. intros Hp.
  destruct (rs_script r) as [|[|e|bs] s]; simplify_eq/=; try done.
  - split; [lia | by rewrite app_nil_r].
  - rewrite length_take. split; [lia | done].
Qed.

Definition socket_reader_spec : ReaderSpec ReadSocket :=
  mkReaderSpec rs_log (fun _ => True) (fun fuel cap r p r' _ H => conj I (socket_poll_read fuel cap r p r' H)).

Lemma socket_poll_write buf (w : WriteSocket) p w' :
  True -> poll_write buf w = (p, w') ->
  match p with
  | Pending => True /\ wr_log w' = wr_log w
  | Ready (Ok n) => True /\ n <= length buf /\ wr_log w' = wr_log w ++ take n buf
  | Ready (Err _) => True
  end.
Proof.
  intros _ Hp. unfold poll_write, socket_write in Hp.
  destruct (wr_script w) as [|[|e|n] s]; simplify_eq/=; try done.
  - split_and!; [done | done | by rewrite firstn_all].
  - split_and!; [done | lia | f_equal]. destruct (decide (n <= length buf)); [by rewrite Nat.min_l by lia|].
    rewrite Nat.min_r, firstn_all by lia. by apply take_ge; lia.
Qed.

Lemma socket_poll_flush (w : WriteSocket) p w' :
  True -> poll_flush w = (p, w') ->
  match p with
  | Pending => True /\ wr_log w' = wr_log w
  | Ready (Ok _) => True /\ wr_log w' = wr_log w /\ True
  | Ready (Err _) => True
  end.
Proof. intros _ Hp. unfold poll_flush, socket_write in Hp. by destruct (wr_script w) as [|[|e|n] s]; simplify_eq/=. Qed.

Definition socket_writer_spec : WriterSpec WriteSocket :=
  mkWriterSpec wr_log (fun _ => True) (fun _ => True) socket_poll_write socket_poll_flush.

(** A socket that neither fails nor returns empty reads. *)
Definition live_event (e : ReadEvent) : Prop :=
  match e with RPending => True | RError _ => False | RData bs => bs <> [] end.

Definition script_data (s : list ReadEvent) : list Z :=
  concat ((fun e => match e with RData bs => bs | _ => [] end) <$> s).
Definition script_pauses (s : list ReadEvent) : nat :=
  sum_list ((fun e => match e with RPending => 1 | _ => 0 end) <$> s).

Lemma socket_source_poll fuel cap (r : ReadSocket) :
  Forall live_event (rs_script r) -> 0 <= fuel -> 0 < cap ->
  exists p r', poll_read fuel cap r = Some (p, r') /\ Forall live_event (rs_script r') /\ 0 <= 0 /\
  match p with
  | Pending => script_data (rs_script r') = script_data (rs_script r) /\ script_pauses (rs_script r') < script_pauses (rs_script r)
  | Ready (Ok bs) =>
      script_data (rs_script r) = bs ++ script_data (rs_script r') /\ length bs <= cap /\
      (bs = [] -> script_data (rs_script r) = []) /\ script_pauses (rs_script r') <= script_pauses (rs_script r)
  | Ready (Err _) => False
  end.
Proof.
  destruct r as [script log]. unfold poll_read, socket_read. cbn [rs_script rs_log]. intros Hlive _ Hcap.
  destruct script as [|[|e|bs] s]; do 2 eexists; (split; [reflexivity|]); cbn [rs_script].
  - split_and!; try done. cbn. lia.
  - apply Forall_cons_1 in Hlive as [_ Hs]. split_and!; try done. unfold script_pauses. cbn. lia.
  - by apply Forall_cons_1 in Hlive as [[] _].
  - apply Forall_cons_1 in Hlive as [Hb Hs]. cbn in Hb. destruct bs as [|b bs]; [done|]. destruct cap as [|cap]; [lia|].
    cbn [take drop]. case_bool_decide as Hd; split_and!; try done; try (by constructor);
      unfold script_data, script_pauses; cbn [fmap list_fmap concat sum_list app length]; try (rewrite length_take; lia); try lia.
    + f_equal. f_equal. rewrite <- (take_drop cap bs) at 1. by rewrite Hd, app_nil_r.
    + f_equal. by rewrite app_assoc, take_drop.
Qed.

Definition socket_source : SourceSpec ReadSocket :=
  mkSourceSpec (fun r => script_data (rs_script r)) (fun r => script_pauses (rs_script r)) (fun _ => 0)
    (fun r => Forall live_event (rs_script r)) socket_source_poll.

(** Reading until the stream ends, with [n] polls at most. *)
Fixpoint drain {R : Type} `{AsyncRead R} (n fuel cap : nat) (r : R) : option (result ErrorKind (list Z) * R) :=
  match n with
  | O => None
  | S n =>
      match poll_read fuel cap r with
      | None => None
      | Some (Pending, r) => drain n fuel cap r
      | Some (Ready (Err e), r) => Some (Err e, r)
      | Some (Ready (Ok []), r) => Some (Ok [], r)
      | Some (Ready (Ok bs), r) =>
          match drain n fuel cap r with
          | Some (Ok rest, r) => Some (Ok (bs ++ rest), r)
          | other => other
          end
      end
  end.

Lemma drain_future {R : Type} `{AsyncRead R} (src : SourceSpec R) n fuel cap r :
  source_ok src r -> fuel_need src r <= fuel -> 0 < cap -> length (future src r) + patience src r < n ->
  exists r', drain n fuel cap r = Some (Ok (future src r), r').
Proof.
  revert r. induction n as [|n IH]; intros r Hok Hf Hcap Hn; [lia|]. cbn [drain].
  destruct (source_poll src fuel cap r Hok Hf Hcap) as (p & r1 & -> & Hok1 & Hf1 & Hp). destruct p as [|[bs|e]]; [| |done].
  - destruct Hp as [Heq Hlt]. rewrite <- Heq in *. apply IH; try done; lia.
  - destruct Hp as (Heq & _ & Hend & Hpat). destruct bs as [|b bs]; [rewrite (Hend eq_refl); by eexists|].
    rewrite Heq in *. cbn [length app] in Hn. rewrite length_app in Hn. destruct (IH r1) as [r2 ->]; try done; [lia | lia |].
    by eexists.
Qed.
