(* ===== verification/TlsStream.v ===== *)
(** The FakeTLS record layer of stream/tls_stream.rs: the reader and the writer
    state machines over any stream underneath, with partial reads and writes,
    pending polls and errors at every point. *)

From stdpp Require Import base list numbers.
From S2P Require Import Prelude Tls Stream.
Local Open Scope nat_scope.

(** * Record headers *)

Definition TLS_HEADER_SIZE : nat := 5.
Definition TLS_RECORD_ALERT : Z := 0x15%Z.
Definition MAX_TLS_PLAINTEXT_SIZE : nat := 16384.
Definition MAX_TLS_PAYLOAD : nat := MAX_TLS_CIPHERTEXT_SIZE.
Definition BODY_CHUNK : nat := 8192.

Record TlsRecordHeader := mkHeader { rh_record_type : Z; rh_version : list Z; rh_length : Z }.

(** [TlsRecordHeader::parse] on exactly five bytes. *)
Definition header_parse (header : list Z) : TlsRecordHeader :=
  mkHeader (cell header 0) [cell header 1; cell header 2] (of_be [cell header 3; cell header 4]).

Definition header_validate (h : TlsRecordHeader) : result ErrorKind unit :=
  if negb (bool_decide (rh_version h = [0x03; 0x01]%Z)) && negb (bool_decide (rh_version h = TLS_VERSION))
  then Err InvalidData
  else if negb (rh_record_type h =? TLS_RECORD_HANDSHAKE)%Z && negb (bool_decide (rh_version h = TLS_VERSION))
  then Err InvalidData
  else
    let len := Z.to_nat (rh_length h) in
    if (rh_record_type h =? TLS_RECORD_APPLICATION)%Z then
      if (len =? 0) || (MAX_TLS_CIPHERTEXT_SIZE <? len) then Err InvalidData else Ok tt
    else if (rh_record_type h =? TLS_RECORD_CHANGE_CIPHER)%Z then
      if negb (len =? 1) then Err InvalidData else Ok tt
    else if (rh_record_type h =? TLS_RECORD_ALERT)%Z then
      if negb (len =? 2) then Err InvalidData else Ok tt
    else if (rh_record_type h =? TLS_RECORD_HANDSHAKE)%Z then
      if negb ((4 <=? len) && (len <=? MAX_TLS_PLAINTEXT_SIZE)) then Err InvalidData else Ok tt
    else Err InvalidData.

Definition header_to_bytes (h : TlsRecordHeader) : list Z :=
  [rh_record_type h; cell (rh_version h) 0; cell (rh_version h) 1;
   (Z.shiftr (rh_length h) 8 mod 256)%Z; (rh_length h mod 256)%Z].

(** * The reader *)

(** The header buffer is its filled part. *)
Inductive TlsReaderState :=
  | ReaderIdle
  | ReadingHeader (header : list Z)
  | ReadingBody (record_type : Z) (length : nat) (buffer : list Z)
  | Yielding (buffer : YieldBuffer)
  | ReaderPoisoned (error : option ErrorKind).

Record FakeTlsReader (R : Type) := mkTlsReader { tr_upstream : R; tr_state : TlsReaderState }.
Arguments mkTlsReader {R}.
Arguments tr_upstream {R}.
Arguments tr_state {R}.

Inductive HeaderPollResult := HPending | HEof | HComplete (h : TlsRecordHeader) | HError (e : ErrorKind).
Inductive BodyPollResult := BPending | BComplete (data : list Z) | BError (e : ErrorKind).

Section reader.
Context {R : Type} `{AsyncRead R}.

Definition tls_reader_new (upstream : R) : FakeTlsReader R := mkTlsReader upstream ReaderIdle.

(** [while !header.is_complete()]: [n] more rounds; each one adds a byte. *)
Fixpoint poll_read_header (n fuel : nat) (header : list Z) (upstream : R) : option (HeaderPollResult * list Z * R) :=
  if TLS_HEADER_SIZE <=? length header then Some (HComplete (header_parse header), header, upstream)
  else
    match n with
    | O => None
    | S n =>
        match poll_read fuel (TLS_HEADER_SIZE - length header) upstream with
        | None => None
        | Some (Pending, upstream) => Some (HPending, header, upstream)
        | Some (Ready (Err e), upstream) => Some (HError e, header, upstream)
        | Some (Ready (Ok bs), upstream) =>
            if bool_decide (bs = []) then
              Some (if bool_decide (header = []) then HEof else HError UnexpectedEof, header, upstream)
            else poll_read_header n fuel (header ++ bs) upstream
        end
    end.

(** [while buffer.len() < target_len], in chunks of at most 8192 bytes. *)
Fixpoint poll_read_body (n fuel : nat) (buffer : list Z) (target_len : nat) (upstream : R)
    : option (BodyPollResult * list Z * R) :=
  if target_len <=? length buffer then Some (BComplete buffer, [], upstream)
  else
    match n with
    | O => None
    | S n =>
        let chunk_len := Nat.min (target_len - length buffer) BODY_CHUNK in
        match poll_read fuel chunk_len upstream with
        | None => None
        | Some (Pending, upstream) => Some (BPending, buffer, upstream)
        | Some (Ready (Err e), upstream) => Some (BError e, buffer, upstream)
        | Some (Ready (Ok bs), upstream) =>
            if bool_decide (bs = []) then Some (BError UnexpectedEof, buffer, upstream)
            else poll_read_body n fuel (buffer ++ bs) target_len upstream
        end
    end.

(** [poll_read]: one round of its loop per unit of fuel; [cap] is
    [buf.remaining()]. *)
Fixpoint tls_poll_read (fuel cap : nat) (this : FakeTlsReader R) : option (IoPoll (list Z) * FakeTlsReader R) :=
  match fuel with
  | O => None
  | S fuel =>
      let upstream := tr_upstream this in
      match tr_state this with
      | ReaderPoisoned error =>
          Some (Ready (Err (default Other error)), mkTlsReader upstream (ReaderPoisoned None))
      | Yielding buffer =>
          if cap =? 0 then Some (Ready (Ok []), this)
          else
            let to_copy := Nat.min (yield_remaining buffer) cap in
            let '(out, buffer) := yield_copy_to to_copy buffer in
            Some (Ready (Ok out),
              mkTlsReader upstream (if yield_is_empty buffer then ReaderIdle else Yielding buffer))
      | ReaderIdle =>
          if cap =? 0 then Some (Ready (Ok []), this)
          else tls_poll_read fuel cap (mkTlsReader upstream (ReadingHeader []))
      | ReadingHeader header =>
          match poll_read_header TLS_HEADER_SIZE fuel header upstream with
          | None => None
          | Some (HPending, header, upstream) => Some (Pending, mkTlsReader upstream (ReadingHeader header))
          | Some (HEof, _, upstream) => Some (Ready (Ok []), mkTlsReader upstream ReaderIdle)
          | Some (HError e, _, upstream) =>
              Some (Ready (Err e), mkTlsReader upstream (ReaderPoisoned (Some e)))
          | Some (HComplete parsed, _, upstream) =>
              match header_validate parsed with
              | Err e => Some (Ready (Err e), mkTlsReader upstream (ReaderPoisoned (Some e)))
              | Ok _ =>
                  tls_poll_read fuel cap
                    (mkTlsReader upstream (ReadingBody (rh_record_type parsed) (Z.to_nat (rh_length parsed)) []))
              end
          end
      | ReadingBody record_type len buffer =>
          match poll_read_body len fuel buffer len upstream with
          | None => None
          | Some (BPending, buffer, upstream) => Some (Pending, mkTlsReader upstream (ReadingBody record_type len buffer))
          | Some (BError e, _, upstream) =>
              Some (Ready (Err e), mkTlsReader upstream (ReaderPoisoned (Some e)))
          | Some (BComplete data, _, upstream) =>
              if (record_type =? TLS_RECORD_CHANGE_CIPHER)%Z then tls_poll_read fuel cap (mkTlsReader upstream ReaderIdle)
              else if (record_type =? TLS_RECORD_APPLICATION)%Z then
                if bool_decide (data = []) then tls_poll_read fuel cap (mkTlsReader upstream ReaderIdle)
                else tls_poll_read fuel cap (mkTlsReader upstream (Yielding (yield_new data)))
              else if (record_type =? TLS_RECORD_ALERT)%Z then Some (Ready (Ok []), mkTlsReader upstream ReaderIdle)
              else Some (Ready (Err InvalidData), mkTlsReader upstream (ReaderPoisoned (Some InvalidData)))
          end
      end
  end.

#[export] Instance tls_read : AsyncRead (FakeTlsReader R) := tls_poll_read.

(** [into_inner_with_pending_plaintext]. *)
Definition into_inner_with_pending_plaintext (this : FakeTlsReader R) : R * list Z :=
  (tr_upstream this,
   match tr_state this with
   | Yielding buffer => yield_as_slice buffer
   | ReadingBody record_type _ buffer => if (record_type =? TLS_RECORD_APPLICATION)%Z then buffer else []
   | _ => []
   end).
End reader.

(** * The writer *)

Inductive TlsRecordProfile := Chrome | Firefox | Compat | Legacy.

Inductive TlsWriterState :=
  | WriterIdle
  | WritingRecord (position payload_size : nat)
  | WriterPoisoned (error : option ErrorKind).

Record FakeTlsWriter (W : Type) := mkTlsWriter {
  tw_upstream : W;
  tw_state : TlsWriterState;
  tw_record_buffer : list Z;
  tw_record_profile : TlsRecordProfile;
  tw_record_index : Z;
  tw_jitter_state : Z;
}.
Arguments mkTlsWriter {W}.
Arguments tw_upstream {W}.
Arguments tw_state {W}.
Arguments tw_record_buffer {W}.
Arguments tw_record_profile {W}.
Arguments tw_record_index {W}.
Arguments tw_jitter_state {W}.

Definition u64_shl (x n : Z) : Z := (Z.shiftl x n mod 2 ^ 64)%Z.

(** [next_jitter] on the generator's word; the offset lies within [radius]. *)
Definition next_jitter (radius jitter_state : Z) : Z * Z :=
  let j := Z.lxor jitter_state (u64_shl jitter_state 13) in
  let j := Z.lxor j (Z.shiftr j 7) in
  let j := Z.lxor j (u64_shl j 17) in
  let span := sat_add 64 (sat_mul 64 radius 2) 1 in
  ((j mod span - radius)%Z, j).

(** Base size and jitter radius of the record with the given index; [None] is
    the early return of the legacy profile. *)
Definition record_shape (profile : TlsRecordProfile) (index : Z) : option (Z * Z) :=
  (match profile with
   | Chrome => if index <? 32 then Some (1450, 120) else if index <? 48 then Some (4096, 384) else Some (15600, 640)
   | Firefox => if index <? 16 then Some (1300, 160) else if index <? 48 then Some (8192, 512) else Some (16000, 320)
   | Compat => if index <? 24 then Some (1400, 96) else Some (8192, 256)
   | Legacy => None
   end)%Z.

(** [next_record_payload_limit]: the limit, the next index and generator word. *)
Definition record_limit (profile : TlsRecordProfile) (index jitter_state : Z) : nat * Z * Z :=
  let next_index := sat_add 32 index 1 in
  match record_shape profile index with
  | None => (MAX_TLS_PAYLOAD, next_index, jitter_state)
  | Some (base, radius) =>
      let '(jitter, jitter_state) := next_jitter radius jitter_state in
      let size := clamp 0 (2 ^ 64 - 1) (base + jitter)%Z in
      (Z.to_nat (clamp 512 (Z.of_nat MAX_TLS_PAYLOAD) size), next_index, jitter_state)
  end.

(** [build_record]: [data.len() as u16]. *)
Definition tls_record_of (data : list Z) : list Z :=
  header_to_bytes (mkHeader TLS_RECORD_APPLICATION TLS_VERSION (Z.of_nat (length data) mod 2 ^ 16)) ++ data.

Inductive FlushResult := FlushComplete | FlushPending | FlushError (e : ErrorKind).

Section writer.
Context {W : Type} `{AsyncWrite W}.

Definition tls_writer_with_profile (upstream : W) (profile : TlsRecordProfile) (seed : Z) : FakeTlsWriter W :=
  mkTlsWriter upstream WriterIdle [] profile 0 (if (seed =? 0)%Z then 1%Z else seed).

Definition set_writer (upstream : W) (state : TlsWriterState) (record : list Z) (this : FakeTlsWriter W) : FakeTlsWriter W :=
  mkTlsWriter upstream state record (tw_record_profile this) (tw_record_index this) (tw_jitter_state this).

Definition tls_writer_poison (e : ErrorKind) (upstream : W) (this : FakeTlsWriter W) : FakeTlsWriter W :=
  set_writer upstream (WriterPoisoned (Some e)) [] this.

(** [poll_flush_record_inner]: [n] more rounds; each one writes a byte. *)
Fixpoint poll_flush_record (n : nat) (record : list Z) (position : nat) (upstream : W) : FlushResult * nat * W :=
  if length record <=? position then (FlushComplete, position, upstream)
  else
    match n with
    | O => (FlushPending, position, upstream)
    | S n =>
        match poll_write (drop position record) upstream with
        | (Pending, upstream) => (FlushPending, position, upstream)
        | (Ready (Err e), upstream) => (FlushError e, position, upstream)
        | (Ready (Ok O), upstream) => (FlushError WriteZero, position, upstream)
        | (Ready (Ok k), upstream) => poll_flush_record n record (position + k) upstream
        end
    end.

(** The part of [poll_write] after the previous record is out. *)
Definition write_record (buf : list Z) (this : FakeTlsWriter W) : IoPoll nat * FakeTlsWriter W :=
  if bool_decide (buf = []) then (Ready (Ok O), this)
  else
    let '(limit, index, jitter) := record_limit (tw_record_profile this) (tw_record_index this) (tw_jitter_state this) in
    let chunk_size := Nat.min (length buf) limit in
    let record := tls_record_of (take chunk_size buf) in
    let this := mkTlsWriter (tw_upstream this) (tw_state this) record (tw_record_profile this) index jitter in
    match poll_write record (tw_upstream this) with
    | (Ready (Ok n), upstream) =>
        if n =? length record then (Ready (Ok chunk_size), set_writer upstream WriterIdle [] this)
        else (Ready (Ok chunk_size), set_writer upstream (WritingRecord n chunk_size) record this)
    | (Ready (Err e), upstream) => (Ready (Err e), tls_writer_poison e upstream this)
    | (Pending, upstream) => (Ready (Ok chunk_size), set_writer upstream (WritingRecord 0 chunk_size) record this)
    end.

Definition tls_poll_write (buf : list Z) (this : FakeTlsWriter W) : IoPoll nat * FakeTlsWriter W :=
  match tw_state this with
  | WriterPoisoned error =>
      (Ready (Err (default Other error)), set_writer (tw_upstream this) (WriterPoisoned None) (tw_record_buffer this) this)
  | WritingRecord position payload_size =>
      let record := tw_record_buffer this in
      match poll_flush_record (length record) record position (tw_upstream this) with
      | (FlushPending, position, upstream) => (Pending, set_writer upstream (WritingRecord position payload_size) record this)
      | (FlushError e, _, upstream) => (Ready (Err e), tls_writer_poison e upstream this)
      | (FlushComplete, _, upstream) => write_record buf (set_writer upstream WriterIdle [] this)
      end
  | WriterIdle => write_record buf this
  end.

Definition tls_poll_flush (this : FakeTlsWriter W) : IoPoll unit * FakeTlsWriter W :=
  let finish this :=
    let '(p, upstream) := poll_flush (tw_upstream this) in
    (p, set_writer upstream WriterIdle (tw_record_buffer this) this) in
  match tw_state this with
  | WriterPoisoned error =>
      (Ready (Err (default Other error)), set_writer (tw_upstream this) (WriterPoisoned None) (tw_record_buffer this) this)
  | WritingRecord position payload_size =>
      let record := tw_record_buffer this in
      match poll_flush_record (length record) record position (tw_upstream this) with
      | (FlushPending, position, upstream) => (Pending, set_writer upstream (WritingRecord position payload_size) record this)
      | (FlushError e, _, upstream) => (Ready (Err e), tls_writer_poison e upstream this)
      | (FlushComplete, _, upstream) => finish (set_writer upstream WriterIdle [] this)
      end
  | WriterIdle => finish this
  end.

(** Best effort: whatever happens to the pending record, it is dropped. *)
Definition tls_poll_shutdown (this : FakeTlsWriter W) : IoPoll unit * FakeTlsWriter W :=
  let this :=
    match tw_state this with
    | WritingRecord position _ =>
        let '(_, _, upstream) := poll_flush_record (length (tw_record_buffer this)) (tw_record_buffer this) position (tw_upstream this) in
        set_writer upstream WriterIdle [] this
    | _ => set_writer (tw_upstream this) WriterIdle (tw_record_buffer this) this
    end in
  let '(p, upstream) := poll_shutdown (tw_upstream this) in
  (p, set_writer upstream WriterIdle (tw_record_buffer this) this).

#[export] Instance tls_write : AsyncWrite (FakeTlsWriter W) := {
  poll_write := tls_poll_write;
  poll_flush := tls_poll_flush;
  poll_shutdown := tls_poll_shutdown;
}.
End writer.

(** * The record stream *)

(** The application data of the complete records at the front of a byte stream:
    up to the first one that is cut short, invalid or a handshake record. *)
Definition record_payload (h : TlsRecordHeader) (body : list Z) : list Z :=
  if (rh_record_type h =? TLS_RECORD_APPLICATION)%Z then body else [].

Fixpoint payload_of (fuel : nat) (d : list Z) : list Z :=
  match fuel with
  | O => []
  | S fuel =>
      if length d <? TLS_HEADER_SIZE then []
      else
        let h := header_parse (take TLS_HEADER_SIZE d) in
        let body := drop TLS_HEADER_SIZE d in
        let len := Z.to_nat (rh_length h) in
        match header_validate h with
        | Err _ => []
        | Ok _ =>
            if (rh_record_type h =? TLS_RECORD_HANDSHAKE)%Z then []
            else if length body <? len then []
            else record_payload h (take len body) ++ payload_of fuel (drop len body)
        end
  end.

Definition tls_payload (d : list Z) : list Z := payload_of (length d) d.

Definition tls_rec : Type := list Z * list Z.
Definition rec_bytes (r : tls_rec) : list Z := r.1 ++ r.2.
Definition rec_header (r : tls_rec) : TlsRecordHeader := header_parse r.1.
Definition rec_payload (r : tls_rec) : list Z := record_payload (rec_header r) r.2.

(** A complete record that the reader accepts. *)
Definition rec_ok (r : tls_rec) : Prop :=
  length r.1 = TLS_HEADER_SIZE /\ header_validate (rec_header r) = Ok tt /\
  rh_record_type (rec_header r) <> TLS_RECORD_HANDSHAKE /\ length r.2 = Z.to_nat (rh_length (rec_header r)).

Definition recs_bytes (rs : list tls_rec) : list Z := concat (rec_bytes <$> rs).
Definition recs_payload (rs : list tls_rec) : list Z := concat (rec_payload <$> rs).

Lemma recs_bytes_snoc rs r : recs_bytes (rs ++ [r]) = recs_bytes rs ++ rec_bytes r.
Proof. unfold recs_bytes. rewrite fmap_app, concat_app. cbn. by rewrite app_nil_r. Qed.

Lemma recs_payload_snoc rs r : recs_payload (rs ++ [r]) = recs_payload rs ++ rec_payload r.
Proof. unfold recs_payload. rewrite fmap_app, concat_app. cbn. by rewrite app_nil_r. Qed.

Lemma payload_of_fuel f g d : length d <= f -> length d <= g -> payload_of f d = payload_of g d.
Proof.
  revert g d. induction f as [|f IH]; intros g d Hf Hg.
  { destruct d; [|cbn in Hf; lia]. by destruct g. }
  destruct g as [|g]; [destruct d; [done | cbn in Hg; lia]|]. cbn [payload_of].
  destruct (Nat.ltb_spec (length d) TLS_HEADER_SIZE) as [|Hd]; [done|].
  destruct (header_validate _); [|done]. destruct (_ =? _)%Z; [done|]. destruct (_ <? _); [done|]. f_equal.
  unfold TLS_HEADER_SIZE in Hd. apply IH; rewrite !length_drop; unfold TLS_HEADER_SIZE; lia.
Qed.

Lemma tls_payload_rec r d : rec_ok r -> tls_payload (rec_bytes r ++ d) = rec_payload r ++ tls_payload d.
Proof.
  intros (Hl & Hv & Ht & Hb). unfold tls_payload, rec_bytes, rec_header in *.
  destruct (length ((r.1 ++ r.2) ++ d)) as [|n] eqn:Hn.
  { rewrite !length_app, Hl in Hn. unfold TLS_HEADER_SIZE in Hn. lia. }
  cbn [payload_of]. rewrite <- app_assoc.
  rewrite (proj2 (Nat.ltb_ge _ _)) by (rewrite length_app; lia).
  rewrite take_app_length', drop_app_length' by done. rewrite Hv, (proj2 (Z.eqb_neq _ _) Ht).
  rewrite (proj2 (Nat.ltb_ge _ _)) by (rewrite length_app; lia).
  rewrite take_app_length', drop_app_length' by done. f_equal.
  rewrite !length_app, Hl in Hn. unfold TLS_HEADER_SIZE in Hn. apply payload_of_fuel; lia.
Qed.

Lemma tls_payload_recs rs d : Forall rec_ok rs -> tls_payload (recs_bytes rs ++ d) = recs_payload rs ++ tls_payload d.
Proof.
  unfold recs_bytes, recs_payload. induction 1 as [|r rs Hr _ IH]; [done|].
  cbn [fmap list_fmap concat]. rewrite <- app_assoc, tls_payload_rec, IH by done. by rewrite app_assoc.
Qed.

(** Bytes that do not complete a record the reader accepts. *)
Definition no_record (d : list Z) : Prop := tls_payload d = [].

Lemma no_record_short d : length d < TLS_HEADER_SIZE -> no_record d.
Proof.
  intros Hd%Nat.ltb_lt. unfold no_record, tls_payload. destruct (length d) eqn:Hl; [done|].
  cbn [payload_of]. by rewrite Hl, Hd.
Qed.

Lemma no_record_header hb body :
  length hb = TLS_HEADER_SIZE ->
  (forall u, header_validate (header_parse hb) <> Ok u) \/ rh_record_type (header_parse hb) = TLS_RECORD_HANDSHAKE \/
  length body < Z.to_nat (rh_length (header_parse hb)) ->
  no_record (hb ++ body).
Proof.
  intros Hl Hcase. unfold no_record, tls_payload. destruct (length (hb ++ body)) eqn:Hn; [done|].
  cbn [payload_of]. rewrite length_app in Hn. rewrite length_app, (proj2 (Nat.ltb_ge _ _)) by lia.
  rewrite take_app_length', drop_app_length' by done.
  destruct (header_validate _) as [u|] eqn:Hv; [|done].
  destruct (Z.eqb_spec (rh_record_type (header_parse hb)) TLS_RECORD_HANDSHAKE); [done|].
  destruct Hcase as [Hx|[Hx|Hx]]; [by destruct (Hx u) | done |]. by rewrite (proj2 (Nat.ltb_lt _ _) Hx).
Qed.
