(* ===== verification/TlsStreamInv.v ===== *)
(** The record layer keeps every byte: the reader delivers exactly the
    application data of the records it has received, the writer's output is
    exactly the records of what it has accepted. *)

From stdpp Require Import base list numbers.
From S2P Require Import Prelude Tls Stream TlsStream.
Local Open Scope nat_scope.

Lemma validate_length h u : header_validate h = Ok u -> 0 < Z.to_nat (rh_length h).
Proof.
  unfold header_validate. intros Hv. destruct (Z.to_nat (rh_length h)) as [|n]; [|lia]. exfalso. revert Hv.
  by repeat case_match.
Qed.

Lemma validate_type h u :
  header_validate h = Ok u -> rh_record_type h <> TLS_RECORD_CHANGE_CIPHER ->
  rh_record_type h <> TLS_RECORD_APPLICATION -> rh_record_type h <> TLS_RECORD_ALERT ->
  rh_record_type h = TLS_RECORD_HANDSHAKE.
Proof.
  unfold header_validate. intros Hv ? ? ?. revert Hv.
  rewrite (proj2 (Z.eqb_neq (rh_record_type h) TLS_RECORD_CHANGE_CIPHER)) by done.
  rewrite (proj2 (Z.eqb_neq (rh_record_type h) TLS_RECORD_APPLICATION)) by done.
  rewrite (proj2 (Z.eqb_neq (rh_record_type h) TLS_RECORD_ALERT)) by done.
  destruct (Z.eqb_spec (rh_record_type h) TLS_RECORD_HANDSHAKE); [done|]. by repeat case_match.
Qed.

(** * The reader *)

Section reader.
Context {R : Type} `{AsyncRead R} (below : ReaderSpec R) (base : nat).
Implicit Types (r : FakeTlsReader R) (u : R).

(** Application data received but not yet handed out. *)
Definition buffered (st : TlsReaderState) : list Z :=
  match st with Yielding y => yield_as_slice y | _ => [] end.

(** The bytes after the last complete record, as the state knows them. *)
Definition state_rest (st : TlsReaderState) (rest : list Z) : Prop :=
  match st with
  | ReaderIdle | Yielding _ => rest = []
  | ReadingHeader h => rest = h /\ length h < TLS_HEADER_SIZE
  | ReadingBody rt len buf =>
      exists hb, rest = hb ++ buf /\ length hb = TLS_HEADER_SIZE /\ header_validate (header_parse hb) = Ok tt /\
        rh_record_type (header_parse hb) = rt /\ Z.to_nat (rh_length (header_parse hb)) = len /\ length buf < len
  | ReaderPoisoned _ => no_record rest
  end.

Definition reader_inv r (out : list Z) : Prop :=
  reader_ok below (tr_upstream r) /\ base <= length (delivered below (tr_upstream r)) /\
  exists recs rest, Forall rec_ok recs /\ arrived below base (tr_upstream r) = recs_bytes recs ++ rest /\
    recs_payload recs = out ++ buffered (tr_state r) /\ state_rest (tr_state r) rest.

Definition tls_delivered r : list Z :=
  let p := tls_payload (arrived below base (tr_upstream r)) in
  take (length p - length (buffered (tr_state r))) p.

Lemma state_rest_no_record st rest : state_rest st rest -> no_record rest.
Proof.
  destruct st as [|h|rt len buf|y|e]; cbn [state_rest].
  - by intros ->.
  - intros [-> Hl]. by apply no_record_short.
  - intros (hb & -> & Hl & _ & _ & Hlen & Hlt). apply no_record_header; [done|]. right; right. lia.
  - by intros ->.
  - done.
Qed.

Lemma reader_inv_delivered r out : reader_inv r out -> tls_delivered r = out.
Proof.
  intros (_ & _ & recs & rest & Hok & Ha & Hp & Hst%state_rest_no_record). unfold tls_delivered.
  rewrite Ha, tls_payload_recs, Hst, app_nil_r, Hp by done. rewrite length_app.
  replace (length out + length (buffered (tr_state r)) - length (buffered (tr_state r))) with (length out) by lia.
  apply take_app_length.
Qed.

Lemma poll_read_header_spec n fuel h u res h' u' :
  reader_ok below u -> length h < TLS_HEADER_SIZE ->
  poll_read_header n fuel h u = Some (res, h', u') ->
  reader_ok below u' /\ exists new, h' = h ++ new /\ delivered below u' = delivered below u ++ new /\
  match res with
  | HPending | HError _ => length h' < TLS_HEADER_SIZE
  | HEof => h' = []
  | HComplete p => length h' = TLS_HEADER_SIZE /\ p = header_parse h'
  end.
Proof.
  revert h u. induction n as [|n IH]; intros h u Hu Hl; cbn [poll_read_header];
    rewrite (proj2 (Nat.leb_gt _ _) Hl); [done|].
  destruct (poll_read fuel _ u) as [[p u1]|] eqn:Hp; [|done].
  destruct (poll_read_spec below _ _ _ _ _ Hu Hp) as [Hu1 Hd].
  destruct p as [|[bs|e]].
  - intros [= <- <- <-]. split; [done|]. exists []. by rewrite !app_nil_r.
  - destruct Hd as [Hbl Hd]. case_bool_decide as Hbs.
    + subst bs. rewrite app_nil_r in Hd. intros [= <- <- <-]. split; [done|]. exists []. rewrite !app_nil_r.
      split_and!; [done | done |]. by case_bool_decide.
    + destruct (decide (length (h ++ bs) < TLS_HEADER_SIZE)) as [Hlt|Hge].
      * intros Hrun. destruct (IH _ _ Hu1 Hlt Hrun) as (? & new & -> & Hd' & Hres). split; [done|].
        exists (bs ++ new). by rewrite Hd', Hd, !app_assoc.
      * intros Hrun. assert (length (h ++ bs) = TLS_HEADER_SIZE) as Hfull by (rewrite length_app in *; lia).
        destruct n; cbn [poll_read_header] in Hrun; rewrite (proj2 (Nat.leb_le _ _)) in Hrun by lia;
          injection Hrun as <- <- <-; (split; [done|]); by exists bs.
  - intros [= <- <- <-]. split; [done|]. exists []. by rewrite !app_nil_r.
Qed.

Lemma poll_read_body_spec n fuel buf len u res buf' u' :
  reader_ok below u -> length buf < len ->
  poll_read_body n fuel buf len u = Some (res, buf', u') ->
  reader_ok below u' /\ exists new, delivered below u' = delivered below u ++ new /\
  match res with
  | BPending => buf' = buf ++ new /\ length buf' < len
  | BError _ => length (buf ++ new) < len
  | BComplete data => data = buf ++ new /\ length data = len
  end.
Proof.
  revert buf u. induction n as [|n IH]; intros buf u Hu Hl; cbn [poll_read_body];
    rewrite (proj2 (Nat.leb_gt _ _) Hl); [done|].
  destruct (poll_read fuel _ u) as [[p u1]|] eqn:Hp; [|done].
  destruct (poll_read_spec below _ _ _ _ _ Hu Hp) as [Hu1 Hd].
  destruct p as [|[bs|e]].
  - intros [= <- <- <-]. split; [done|]. exists []. by rewrite !app_nil_r.
  - destruct Hd as [Hbl Hd]. case_bool_decide as Hbs.
    + subst bs. rewrite app_nil_r in Hd. intros [= <- <- <-]. split; [done|]. exists []. by rewrite !app_nil_r.
    + destruct (decide (length (buf ++ bs) < len)) as [Hlt|Hge].
      * intros Hrun. destruct (IH _ _ Hu1 Hlt Hrun) as (? & new & Hd' & Hres). split; [done|].
        exists (bs ++ new). rewrite Hd', Hd, !app_assoc. split; [done|].
        destruct res; rewrite <- ?app_assoc in Hres |- *; done.
      * intros Hrun. assert (length (buf ++ bs) = len) as Hfull by (rewrite length_app in *; lia).
        destruct n; cbn [poll_read_body] in Hrun; rewrite (proj2 (Nat.leb_le _ _)) in Hrun by lia;
          injection Hrun as <- <- <-; (split; [done|]); by exists bs.
  - intros [= <- <- <-]. split; [done|]. exists []. by rewrite !app_nil_r.
Qed.

Lemma state_step r r' out new rest' :
  reader_inv r out -> buffered (tr_state r) = [] -> buffered (tr_state r') = [] ->
  reader_ok below (tr_upstream r') ->
  delivered below (tr_upstream r') = delivered below (tr_upstream r) ++ new ->
  (forall rest, state_rest (tr_state r) rest -> rest ++ new = rest' /\ state_rest (tr_state r') rest') ->
  reader_inv r' out.
Proof.
  intros (_ & Hb & recs & rest & Hok & Ha & Hp & Hst) Hbuf Hbuf' Hu' Hd Hrest.
  destruct (arrived_app below base _ _ _ Hb Hd) as [Ha' Hb']. destruct (Hrest rest Hst) as [Hr Hst'].
  split_and!; [done | done |]. exists recs, rest'. split_and!; [done | | by rewrite Hbuf', <- Hbuf | done].
  by rewrite Ha', Ha, <- Hr, app_assoc.
Qed.

(** A completed body makes a record. *)
Lemma body_complete rt len buf u u' new out st' :
  reader_inv (mkTlsReader u (ReadingBody rt len buf)) out ->
  reader_ok below u' -> delivered below u' = delivered below u ++ new -> length (buf ++ new) = len ->
  rt <> TLS_RECORD_HANDSHAKE -> state_rest st' [] ->
  buffered st' = (if (rt =? TLS_RECORD_APPLICATION)%Z then buf ++ new else []) ->
  reader_inv (mkTlsReader u' st') out.
Proof.
  intros (_ & Hb & recs & rest & Hok & Ha & Hp & hb & -> & Hl & Hv & Hrt & Hlen & _) Hu' Hd Hfull Hne Hst' Hbuf.
  cbn [tr_upstream tr_state buffered] in *. rewrite app_nil_r in Hp.
  destruct (arrived_app below base _ _ _ Hb Hd) as [Ha' Hb']. split_and!; [done | done |].
  exists (recs ++ [(hb, buf ++ new)]), []. cbn [tr_upstream tr_state]. split_and!; [| | | done].
  - apply Forall_app. split; [done|]. constructor; [|constructor]. unfold rec_ok, rec_header. cbn [fst snd].
    split_and!; [done | done | congruence | lia].
  - rewrite Ha', Ha, recs_bytes_snoc, app_nil_r. unfold rec_bytes. cbn [fst snd]. by rewrite <- !app_assoc.
  - rewrite recs_payload_snoc, Hp, Hbuf. unfold rec_payload, record_payload, rec_header. cbn [fst snd]. by rewrite Hrt.
Qed.

Definition poll_post (cap : nat) r' out (p : IoPoll (list Z)) : Prop :=
  match p with
  | Ready (Ok bs) => length bs <= cap /\ reader_inv r' (out ++ bs)
  | _ => reader_inv r' out
  end.

Lemma yield_inv cap y u out :
  reader_inv (mkTlsReader u (Yielding y)) out ->
  let '(bs, y') := yield_copy_to (Nat.min (yield_remaining y) cap) y in
  length bs <= cap /\ reader_inv (mkTlsReader u (if yield_is_empty y' then ReaderIdle else Yielding y')) (out ++ bs).
Proof.
  intros (Hu & Hb & recs & rest & Hok & Ha & Hp & Hst).
  pose proof (yield_copy_spec (Nat.min (yield_remaining y) cap) y) as Hc.
  destruct (yield_copy_to _ y) as [bs y']. destruct Hc as [Hsl Hlen]. split; [lia|].
  split_and!; [done | done |]. exists recs, rest. cbn [tr_upstream tr_state buffered state_rest] in *.
  rewrite Hsl in Hp. destruct (yield_is_empty y') eqn:Hemp; cbn [buffered state_rest]; split_and!; try done.
  - apply yield_empty in Hemp. by rewrite Hp, Hemp, !app_nil_r.
  - by rewrite Hp, app_assoc.
Qed.

Lemma header_step fuel cap header u out p r' :
  (forall cap r out p r', reader_inv r out -> tls_poll_read fuel cap r = Some (p, r') -> poll_post cap r' out p) ->
  reader_inv (mkTlsReader u (ReadingHeader header)) out ->
  tls_poll_read (S fuel) cap (mkTlsReader u (ReadingHeader header)) = Some (p, r') -> poll_post cap r' out p.
Proof.
  intros IH Hinv. cbn [tls_poll_read tr_state tr_upstream].
  destruct (poll_read_header _ fuel header u) as [[[res h'] u']|] eqn:Hh; [|done].
  assert (length header < TLS_HEADER_SIZE) as Hl by (destruct Hinv as (_ & _ & ? & ? & _ & _ & _ & _ & Hl); done).
  destruct (poll_read_header_spec _ _ _ _ _ _ _ (proj1 Hinv) Hl Hh) as (Hu' & new & -> & Hd & Hres).
  pose proof (fun st Hst Hbuf => state_step (mkTlsReader u (ReadingHeader header)) (mkTlsReader u' st) out new (header ++ new)
    Hinv eq_refl Hbuf Hu' Hd (fun rest Hrest => conj (f_equal (fun x => x ++ new) (proj1 Hrest)) Hst)) as Hnext.
  destruct res as [| |parsed|e].
  - intros [= <- <-]. by apply Hnext.
  - intros [= <- <-]. rewrite Hres in Hnext. split; [cbn; lia|]. rewrite app_nil_r. by apply Hnext.
  - destruct Hres as [Hfull ->]. destruct (header_validate (header_parse (header ++ new))) as [[]|e] eqn:Hv.
    + apply IH, Hnext; [|done]. exists (header ++ new). rewrite app_nil_r. split_and!; try done. by eapply validate_length.
    + intros [= <- <-]. apply Hnext; [|done]. cbn. rewrite <- (app_nil_r (header ++ new)). apply no_record_header; [done|].
      left. intros x. by rewrite Hv.
  - intros [= <- <-]. apply Hnext; [|done]. by apply no_record_short.
Qed.

(** The body has grown but makes no record. *)
Lemma body_grow rt len buf u u' new out st' :
  reader_inv (mkTlsReader u (ReadingBody rt len buf)) out ->
  reader_ok below u' -> delivered below u' = delivered below u ++ new -> buffered st' = [] ->
  (forall hb, length hb = TLS_HEADER_SIZE -> header_validate (header_parse hb) = Ok tt ->
    rh_record_type (header_parse hb) = rt -> Z.to_nat (rh_length (header_parse hb)) = len ->
    state_rest st' (hb ++ buf ++ new)) ->
  reader_inv (mkTlsReader u' st') out.
Proof.
  intros (_ & Hb & recs & rest & Hok & Ha & Hp & hb & -> & Hl & Hv & Hrt & Hlen & _) Hu' Hd Hbuf Hst'.
  destruct (arrived_app below base _ _ _ Hb Hd) as [Ha' Hb']. split_and!; [done | done |].
  exists recs, (hb ++ buf ++ new). cbn [tr_upstream tr_state buffered] in *.
  split_and!; [done | by rewrite Ha', Ha, <- !app_assoc | by rewrite Hbuf | by apply Hst'].
Qed.

Lemma body_step fuel cap rt len buf u out p r' :
  (forall cap r out p r', reader_inv r out -> tls_poll_read fuel cap r = Some (p, r') -> poll_post cap r' out p) ->
  reader_inv (mkTlsReader u (ReadingBody rt len buf)) out ->
  tls_poll_read (S fuel) cap (mkTlsReader u (ReadingBody rt len buf)) = Some (p, r') -> poll_post cap r' out p.
Proof.
  intros IH Hinv. cbn [tls_poll_read tr_state tr_upstream].
  destruct (poll_read_body len fuel buf len u) as [[[res buf'] u']|] eqn:Hb; [|done].
  assert (length buf < len) as Hlt by (destruct Hinv as (_ & _ & ? & ? & _ & _ & _ & hb & _ & _ & _ & _ & _ & ?); done).
  destruct (poll_read_body_spec _ _ _ _ _ _ _ _ (proj1 Hinv) Hlt Hb) as (Hu' & new & Hd & Hres).
  pose proof (fun st => body_grow rt len buf u u' new out st Hinv Hu' Hd) as Hgrow.
  destruct res as [|data|e].
  - destruct Hres as [-> Hl']. intros [= <- <-]. apply Hgrow; [done|]. intros hb ? ? ? ?. by exists hb.
  - destruct Hres as [-> Hl'].
    pose proof (fun st => body_complete rt len buf u u' new out st Hinv Hu' Hd Hl') as Hdone.
    destruct (Z.eqb_spec rt TLS_RECORD_CHANGE_CIPHER) as [->|Hn1]; [by apply IH, Hdone|].
    destruct (Z.eqb_spec rt TLS_RECORD_APPLICATION) as [->|Hn2].
    { case_bool_decide as He; apply IH, Hdone; try done; by rewrite He. }
    destruct (Z.eqb_spec rt TLS_RECORD_ALERT) as [->|Hn3]; intros [= <- <-].
    { split; [cbn; lia|]. rewrite app_nil_r. by apply Hdone. }
    apply Hgrow; [done|]. intros hb Hl Hv <- _. apply no_record_header; [done|]. right; left. by eapply validate_type.
  - intros [= <- <-]. apply Hgrow; [done|]. intros hb Hl Hv _ Hlen. apply no_record_header; [done|]. right; right. lia.
Qed.

Lemma tls_poll_read_inv fuel cap r out p r' :
  reader_inv r out -> tls_poll_read fuel cap r = Some (p, r') -> poll_post cap r' out p.
Proof.
  revert cap r out p r'. induction fuel as [|fuel IH]; intros cap [u st] out p r' Hinv; [done|].
  destruct st as [|header|rt len buf|y|e]; [|by apply header_step|by apply body_step| |].
  - cbn [tls_poll_read tr_state tr_upstream]. destruct (cap =? 0).
    + intros [= <- <-]. split; [cbn; lia|]. by rewrite app_nil_r.
    + apply IH. eapply (state_step (mkTlsReader u ReaderIdle) _ out [] []); try done; [apply Hinv | by rewrite app_nil_r|].
      intros rest ->. split; [done|]. split; [done | cbn; unfold TLS_HEADER_SIZE; lia].
  - cbn [tls_poll_read tr_state tr_upstream]. destruct (cap =? 0).
    + intros [= <- <-]. split; [cbn; lia|]. by rewrite app_nil_r.
    + pose proof (yield_inv cap y u out Hinv) as Hy. destruct (yield_copy_to _ y) as [bs y']. intros [= <- <-]. exact Hy.
  - cbn [tls_poll_read tr_state tr_upstream]. intros [= <- <-].
    destruct Hinv as (? & ? & recs & rest & ? & ? & ? & ?). split_and!; try done. by exists recs, rest.
Qed.

Lemma tls_poll_read_spec fuel cap r p r' :
  (exists out, reader_inv r out) -> poll_read fuel cap r = Some (p, r') ->
  (exists out, reader_inv r' out) /\
  match p with
  | Ready (Ok bs) => length bs <= cap /\ tls_delivered r' = tls_delivered r ++ bs
  | _ => tls_delivered r' = tls_delivered r
  end.
Proof.
  intros [out Hinv] Hp. pose proof (tls_poll_read_inv fuel cap r out p r' Hinv Hp) as Hpost.
  rewrite (reader_inv_delivered _ _ Hinv).
  destruct p as [|[bs|e]]; cbn [poll_post] in Hpost;
    [|destruct Hpost as [? Hpost]|]; (split; [by eexists|]); try split; try done; by apply reader_inv_delivered.
Qed.

(** What the record reader promises, over anything that is itself a reader. *)
Definition tls_reader_spec : ReaderSpec (FakeTlsReader R) :=
  mkReaderSpec tls_delivered (fun r => exists out, reader_inv r out) tls_poll_read_spec.

Lemma tls_reader_new_inv u :
  reader_ok below u -> length (delivered below u) = base -> reader_inv (tls_reader_new u) [].
Proof.
  intros Hu Hb. split_and!; [done | cbn; lia |]. exists [], []. split_and!; try done.
  unfold arrived. cbn. by rewrite drop_ge by lia.
Qed.
End reader.

(** * Termination *)

(** A reader that always answers and has at most [left] bytes to give. *)
Definition answers {R : Type} `{AsyncRead R} (left : R -> nat) : Prop :=
  forall fuel cap u, exists p u', poll_read fuel cap u = Some (p, u') /\
    match p with Ready (Ok bs) => left u' + length bs <= left u | _ => left u' <= left u end.

Section total.
Context {R : Type} `{AsyncRead R} (left : R -> nat) (Hans : answers left).
Implicit Types (u : R).

Lemma poll_read_header_total n fuel h u :
  TLS_HEADER_SIZE <= length h + n ->
  exists res h' u', poll_read_header n fuel h u = Some (res, h', u') /\ left u' <= left u /\
    match res with HComplete _ => left u' + TLS_HEADER_SIZE <= left u + length h | _ => True end.
Proof.
  revert h u. induction n as [|n IH]; intros h u Hn; cbn [poll_read_header].
  { rewrite (proj2 (Nat.leb_le _ _)) by lia. do 3 eexists. split; [reflexivity|]. cbv beta iota. lia. }
  destruct (Nat.leb_spec TLS_HEADER_SIZE (length h)); [do 3 eexists; split; [reflexivity|]; cbv beta iota; lia|].
  destruct (Hans fuel (TLS_HEADER_SIZE - length h) u) as (p & u1 & -> & Hl).
  destruct p as [|[bs|e]]; try (do 3 eexists; split; [reflexivity|]; done).
  case_bool_decide as Hbs; [do 3 eexists; split; [reflexivity|]; split; [lia|]; by case_bool_decide|].
  assert (1 <= length bs) by (destruct bs; [done | cbn; lia]).
  destruct (IH (h ++ bs) u1) as (res & h' & u' & -> & Hl' & Hres); [rewrite length_app; lia|].
  do 3 eexists. split; [reflexivity|]. rewrite length_app in Hres. destruct res; lia.
Qed.

Lemma poll_read_body_total n fuel buf len u :
  len <= length buf + n ->
  exists res buf' u', poll_read_body n fuel buf len u = Some (res, buf', u') /\ left u' <= left u /\
    match res with BComplete _ => left u' + len <= left u + length buf | _ => True end.
Proof.
  revert buf u. induction n as [|n IH]; intros buf u Hn; cbn [poll_read_body].
  { rewrite (proj2 (Nat.leb_le _ _)) by lia. do 3 eexists. split; [reflexivity|]. cbv beta iota. lia. }
  destruct (Nat.leb_spec len (length buf)); [do 3 eexists; split; [reflexivity|]; cbv beta iota; lia|].
  destruct (Hans fuel (Nat.min (len - length buf) BODY_CHUNK) u) as (p & u1 & -> & Hl).
  destruct p as [|[bs|e]]; try (do 3 eexists; split; [reflexivity|]; done).
  case_bool_decide as Hbs; [do 3 eexists; split; [reflexivity|]; cbv beta iota; lia|].
  assert (1 <= length bs) by (destruct bs; [done | cbn; lia]).
  destruct (IH (buf ++ bs) u1) as (res & buf' & u' & -> & Hl' & Hres); [rewrite length_app; lia|].
  do 3 eexists. split; [reflexivity|]. rewrite length_app in Hres. destruct res; lia.
Qed.

(** Rounds the loop may still need: three per byte that is left. *)
Definition rounds (r : FakeTlsReader R) : nat :=
  match tr_state r with
  | ReaderIdle => 3 * left (tr_upstream r) + 3
  | ReadingHeader _ => 3 * left (tr_upstream r) + 2
  | ReadingBody _ _ _ => 3 * left (tr_upstream r) + 1
  | _ => 1
  end.

Definition partial_ok (st : TlsReaderState) : Prop :=
  match st with
  | ReadingHeader h => length h < TLS_HEADER_SIZE
  | ReadingBody _ len buf => length buf < len
  | _ => True
  end.

Lemma tls_poll_read_total fuel cap (r : FakeTlsReader R) :
  rounds r <= fuel -> partial_ok (tr_state r) ->
  exists p r', tls_poll_read fuel cap r = Some (p, r').
Proof.
  revert r. induction fuel as [|fuel IH]; intros [u st] Hf Hok.
  { unfold rounds in Hf. destruct st; cbn in Hf; lia. }
  destruct st as [|h|rt len buf|y|e]; unfold rounds in Hf; cbn [tls_poll_read tr_state tr_upstream partial_ok] in *.
  - destruct (cap =? 0); [eauto|]. apply IH; [unfold rounds; cbn [tr_state tr_upstream]; lia | cbn; unfold TLS_HEADER_SIZE; lia].
  - destruct (poll_read_header_total TLS_HEADER_SIZE fuel h u ltac:(lia)) as (res & h' & u' & -> & Hl & Hres).
    destruct res as [| |parsed|e]; eauto. destruct (header_validate parsed) eqn:Hv; [|eauto].
    apply IH; [unfold rounds; cbn [tr_state tr_upstream]; lia|]. by eapply validate_length.
  - destruct (poll_read_body_total len fuel buf len u ltac:(lia)) as (res & buf' & u' & -> & Hl & Hres).
    destruct res as [|data|e]; eauto.
    assert (forall st, partial_ok st -> rounds (mkTlsReader u' st) <= 3 * left u' + 3 ->
      exists p r', tls_poll_read fuel cap (mkTlsReader u' st) = Some (p, r')) as Hgo by (intros; apply IH; [lia | done]).
    repeat case_match; eauto; apply Hgo; try done; unfold rounds; cbn; lia.
  - destruct (cap =? 0); [eauto|]. destruct (yield_copy_to _ y). eauto.
  - eauto.
Qed.
End total.

(** Bytes of a socket's script. *)
Definition socket_left (r : ReadSocket) : nat :=
  foldr (fun e n => match e with RData bs => length bs | _ => 0 end + n) 0 (rs_script r).

Lemma socket_answers : answers socket_left.
Proof.
  intros fuel cap [script log]. unfold poll_read, socket_read, socket_left. cbn [rs_script rs_log].
  destruct script as [|[|e|bs] s]; do 2 eexists; (split; [reflexivity|]); cbn [rs_script foldr length]; try lia.
  case_bool_decide as Hd; cbn [foldr]; rewrite ?length_take, ?length_drop; [|lia].
  apply (f_equal length) in Hd. rewrite length_drop in Hd. cbn in Hd. lia.
Qed.

(** * The writer *)

Lemma max_payload_value : Z.of_nat MAX_TLS_PAYLOAD = 16640%Z.
Proof. reflexivity. Qed.

Lemma record_limit_range profile index jitter :
  1 <= (record_limit profile index jitter).1.1 <= MAX_TLS_PAYLOAD.
Proof.
  pose proof max_payload_value as Hmax. unfold record_limit.
  destruct (record_shape profile index) as [[b rad]|]; [|cbn [fst]; lia].
  destruct (next_jitter rad jitter) as [j js]. cbn [fst].
  pose proof (clamp_bounds 512 (Z.of_nat MAX_TLS_PAYLOAD) (clamp 0 (2 ^ 64 - 1) (b + j)) ltac:(lia)). lia.
Qed.

(** A record of application data. *)
Definition data_rec (r : tls_rec) : Prop := rec_ok r /\ rh_record_type (rec_header r) = TLS_RECORD_APPLICATION.

Lemma record_of_ok data :
  1 <= length data <= MAX_TLS_PAYLOAD ->
  exists r, tls_record_of data = rec_bytes r /\ data_rec r /\ rec_payload r = data.
Proof.
  intros Hd. pose proof max_payload_value as Hmax. unfold tls_record_of.
  set (h := mkHeader TLS_RECORD_APPLICATION TLS_VERSION (Z.of_nat (length data) mod 2 ^ 16)).
  assert (header_parse (header_to_bytes h) = mkHeader TLS_RECORD_APPLICATION TLS_VERSION (Z.of_nat (length data))) as Hparse.
  { unfold header_parse, header_to_bytes, h. cbn [cell rh_record_type rh_version rh_length lookup list_lookup default TLS_VERSION].
    f_equal. rewrite of_be_2, Z.shiftr_div_pow2 by lia. change (2 ^ 8)%Z with 256%Z. change (2 ^ 16)%Z with 65536%Z. unfold id.
    rewrite (Z.mod_small _ 65536) by lia. set (L := Z.of_nat (length data)) in *.
    rewrite (Z.mod_small (L / 256)) by (split; [apply Z.div_pos; lia | apply Z.div_lt_upper_bound; lia]).
    symmetry. by apply Z.div_mod. }
  exists (header_to_bytes h, data). split_and!; [done | |].
  - unfold data_rec, rec_ok, rec_header. cbn [fst snd]. rewrite Hparse. cbn [rh_record_type rh_length].
    split_and!; try done; [|lia].
    change (header_validate (mkHeader TLS_RECORD_APPLICATION TLS_VERSION (Z.of_nat (length data))))
      with (if (Z.to_nat (Z.of_nat (length data)) =? 0) || (MAX_TLS_CIPHERTEXT_SIZE <? Z.to_nat (Z.of_nat (length data)))
            then Err InvalidData else Ok tt : result ErrorKind unit).
    rewrite Nat2Z.id. unfold MAX_TLS_PAYLOAD in Hd.
    destruct (Nat.eqb_spec (length data) 0); [lia|]. by rewrite (proj2 (Nat.ltb_ge _ _)) by lia.
  - unfold rec_payload, rec_header, record_payload. cbn [fst snd]. by rewrite Hparse.
Qed.

Section writer.
Context {W : Type} `{AsyncWrite W} (below : WriterSpec W) (base : nat).
Implicit Types (w : FakeTlsWriter W) (u : W).

(** The rest of the record the layer holds back. *)
Definition held w : list Z :=
  match tw_state w with WritingRecord pos _ => drop pos (tw_record_buffer w) | _ => [] end.

Definition writer_inv w (out : list Z) : Prop :=
  writer_ok below (tw_upstream w) /\ base <= length (accepted below (tw_upstream w)) /\
  match tw_state w with
  | WriterIdle => True
  | WritingRecord pos _ => pos <= length (tw_record_buffer w) <= TLS_HEADER_SIZE + MAX_TLS_PAYLOAD
  | WriterPoisoned _ => False
  end /\
  exists recs, Forall data_rec recs /\ written below base (tw_upstream w) ++ held w = recs_bytes recs /\ recs_payload recs = out.

Definition tls_accepted w : list Z := tls_payload (written below base (tw_upstream w) ++ held w).
Definition tls_settled w : Prop := tw_state w = WriterIdle /\ settled below (tw_upstream w).

Lemma writer_inv_accepted w out : writer_inv w out -> tls_accepted w = out.
Proof.
  intros (_ & _ & _ & recs & Hok & Hw & <-). unfold tls_accepted. rewrite Hw, <- (app_nil_r (recs_bytes recs)).
  rewrite tls_payload_recs, app_nil_r; [done|]. eapply Forall_impl; [|exact Hok]. by intros r [? _].
Qed.

Lemma poll_flush_record_spec n record pos u res pos' u' :
  writer_ok below u -> pos <= length record -> length record <= pos + n ->
  poll_flush_record n record pos u = (res, pos', u') ->
  match res with
  | FlushError _ => True
  | FlushPending => writer_ok below u' /\ pos' <= length record /\
      exists new, accepted below u' = accepted below u ++ new /\ drop pos record = new ++ drop pos' record
  | FlushComplete => writer_ok below u' /\ accepted below u' = accepted below u ++ drop pos record
  end.
Proof.
  revert pos u. induction n as [|n IH]; intros pos u Hu Hpos Hn; cbn [poll_flush_record].
  { rewrite (proj2 (Nat.leb_le _ _)) by lia. intros [= <- <- <-]. by rewrite drop_ge, app_nil_r by lia. }
  destruct (Nat.leb_spec (length record) pos).
  { intros [= <- <- <-]. by rewrite drop_ge, app_nil_r by lia. }
  destruct (poll_write (drop pos record) u) as [p u1] eqn:Hp. pose proof (poll_write_spec below _ _ _ _ Hu Hp) as Hs.
  destruct p as [|[k|e]].
  - intros [= <- <- <-]. destruct Hs as [? Ha]. split_and!; [done | done |]. exists []. by rewrite app_nil_r.
  - destruct Hs as (Hu1 & Hk & Ha). rewrite length_drop in Hk. destruct k as [|k]; [by intros [= <- <- <-]|].
    intros Hrun. specialize (IH (pos + S k) u1 Hu1 ltac:(lia) ltac:(lia) Hrun).
    assert (drop pos record = take (S k) (drop pos record) ++ drop (pos + S k) record) as Hcut.
    { rewrite <- drop_drop. by rewrite take_drop. }
    destruct res as [| |e]; [| |done].
    + destruct IH as [? Ha']. split; [done|]. by rewrite Ha', Ha, <- app_assoc, <- Hcut.
    + destruct IH as (? & ? & new & Ha' & Hd). split_and!; [done | done |].
      exists (take (S k) (drop pos record) ++ new). by rewrite Ha', Ha, <- !app_assoc, <- Hd, <- Hcut.
  - by intros [= <- <- <-].
Qed.

(** The step from the held record to an idle or partly flushed writer. *)
Lemma flush_inv w out pos size res pos' u' :
  writer_inv w out -> tw_state w = WritingRecord pos size ->
  poll_flush_record (length (tw_record_buffer w)) (tw_record_buffer w) pos (tw_upstream w) = (res, pos', u') ->
  match res with
  | FlushError _ => True
  | FlushPending => writer_inv (set_writer u' (WritingRecord pos' size) (tw_record_buffer w) w) out
  | FlushComplete => writer_inv (set_writer u' WriterIdle [] w) out
  end.
Proof.
  intros (Hu & Hb & Hpos & recs & Hok & Hw & Hout) Hst Hrun. unfold held in Hw. rewrite Hst in Hpos, Hw. destruct Hpos as [Hpos Hsmall].
  pose proof (poll_flush_record_spec (length (tw_record_buffer w)) _ pos _ _ _ _ Hu Hpos (Nat.le_add_l _ _) Hrun) as Hspec.
  destruct res as [| |e]; [| |done].
  - destruct Hspec as [Hu' Ha]. destruct (written_app below base _ _ _ Hb Ha) as [Hw' Hb'].
    split_and!; try done. exists recs. cbn [set_writer tw_upstream held tw_state]. by rewrite app_nil_r, Hw', Hw.
  - destruct Hspec as (Hu' & Hp & new & Ha & Hd). destruct (written_app below base _ _ _ Hb Ha) as [Hw' Hb'].
    split_and!; try done. exists recs. cbn [set_writer tw_upstream held tw_state tw_record_buffer].
    split_and!; [done | | done]. by rewrite Hw', <- app_assoc, <- Hd, Hw.
Qed.

Definition write_post w out (buf : list Z) (p : IoPoll nat) : Prop :=
  match p with
  | Pending => writer_inv w out
  | Ready (Ok n) => n <= length buf /\ writer_inv w (out ++ take n buf)
  | Ready (Err _) => True
  end.

Lemma write_record_inv w out buf p w' :
  writer_inv w out -> tw_state w = WriterIdle -> write_record buf w = (p, w') -> write_post w' out buf p.
Proof.
  intros (Hu & Hb & _ & recs & Hok & Hw & Hout) Hst. unfold held in Hw. rewrite Hst, app_nil_r in Hw. unfold write_record.
  case_bool_decide as Hbuf.
  { subst buf. intros [= <- <-]. split; [done|]. split_and!; [done | done | by rewrite Hst |]. exists recs. unfold held.
    rewrite Hst. by rewrite !app_nil_r. }
  pose proof (record_limit_range (tw_record_profile w) (tw_record_index w) (tw_jitter_state w)) as Hlim.
  destruct (record_limit _ _ _) as [[limit index] jitter]. cbn [fst] in Hlim. cbv zeta.
  set (n := Nat.min (length buf) limit). cbn [tw_upstream].
  assert (length (tls_record_of (take n buf)) <= TLS_HEADER_SIZE + MAX_TLS_PAYLOAD) as Hsmall.
  { unfold tls_record_of, header_to_bytes. rewrite length_app, length_take. cbn [length]. unfold n, TLS_HEADER_SIZE. lia. }
  destruct (record_of_ok (take n buf)) as (r & Hrec & Hr & Hpay).
  { rewrite length_take. destruct buf; [done|]. unfold n. cbn [length]. lia. }
  rewrite Hrec in *. destruct (poll_write (rec_bytes r) (tw_upstream w)) as [q u'] eqn:Hq.
  pose proof (poll_write_spec below _ _ _ _ Hu Hq) as Hs.
  assert (forall k w1, tw_upstream w1 = u' -> writer_ok below u' -> k <= length (rec_bytes r) ->
    accepted below u' = accepted below (tw_upstream w) ++ take k (rec_bytes r) ->
    (tw_state w1 = WriterIdle /\ k = length (rec_bytes r)) \/
    (exists size, tw_state w1 = WritingRecord k size /\ tw_record_buffer w1 = rec_bytes r) ->
    n <= length buf /\ writer_inv w1 (out ++ take n buf)) as Hfin.
  { intros k w1 Hu1 Hok1 Hk Ha Hcase. split; [unfold n; lia|]. destruct (written_app below base _ _ _ Hb Ha) as [Hw' Hb'].
    unfold writer_inv, held. rewrite Hu1. split_and!; [done | done | |].
    - destruct Hcase as [[-> _]|(size & -> & ->)]; [done | lia].
    - exists (recs ++ [r]). rewrite recs_bytes_snoc, recs_payload_snoc, Hpay, Hout, Hw', Hw, <- app_assoc.
      split_and!; [by apply Forall_app; split; [|constructor] | | done]. f_equal.
      destruct Hcase as [[-> ->]|(size & -> & ->)]; [by rewrite firstn_all, app_nil_r | by rewrite take_drop]. }
  destruct q as [|[k|e]].
  - intros [= <- <-]. destruct Hs as [? Ha]. apply (Hfin 0); try done; [lia | by rewrite app_nil_r | right; by eexists].
  - destruct Hs as (? & Hk & Ha). destruct (Nat.eqb_spec k (length (rec_bytes r))) as [->|Hne]; intros [= <- <-].
    + by apply (Hfin (length (rec_bytes r))); [| | | | left].
    + by apply (Hfin k); [| | | | right; eexists].
  - by intros [= <- <-].
Qed.

Lemma tls_poll_write_inv w out buf p w' :
  writer_inv w out -> tls_poll_write buf w = (p, w') -> write_post w' out buf p.
Proof.
  intros Hinv. unfold tls_poll_write. destruct (tw_state w) as [|pos size|e] eqn:Hst.
  - by apply write_record_inv.
  - destruct (poll_flush_record _ _ pos (tw_upstream w)) as [[res pos'] u'] eqn:Hf.
    pose proof (flush_inv w out pos size res pos' u' Hinv Hst Hf) as Hnext. destruct res as [| |e].
    + by apply write_record_inv.
    + by intros [= <- <-].
    + by intros [= <- <-].
  - by intros [= <- <-].
Qed.

Lemma finish_flush_inv w out p w' :
  writer_inv w out -> tw_state w = WriterIdle ->
  (let '(p, upstream) := poll_flush (tw_upstream w) in
   (p, set_writer upstream WriterIdle (tw_record_buffer w) w)) = (p, w') ->
  match p with
  | Pending => writer_inv w' out
  | Ready (Ok _) => writer_inv w' out /\ tls_settled w'
  | Ready (Err _) => True
  end.
Proof.
  intros (Hu & Hb & _ & recs & Hok & Hw & Hout) Hst. unfold held in Hw. rewrite Hst in Hw.
  destruct (poll_flush (tw_upstream w)) as [q u'] eqn:Hq. pose proof (poll_flush_spec below _ _ _ Hu Hq) as Hs.
  assert (writer_ok below u' -> accepted below u' = accepted below (tw_upstream w) ->
    writer_inv (set_writer u' WriterIdle (tw_record_buffer w) w) out) as Hfin.
  { intros Hu' Ha. unfold writer_inv, held, written in *. cbn [set_writer tw_upstream tw_state tw_record_buffer].
    rewrite Ha. split_and!; try done. by exists recs. }
  intros [= <- <-]. destruct q as [|[[]|e]]; [destruct Hs; by apply Hfin | | done]. destruct Hs as (? & ? & ?). split; [by apply Hfin|].
  by split.
Qed.

Lemma tls_poll_flush_inv w out p w' :
  writer_inv w out -> tls_poll_flush w = (p, w') ->
  match p with
  | Pending => writer_inv w' out
  | Ready (Ok _) => writer_inv w' out /\ tls_settled w'
  | Ready (Err _) => True
  end.
Proof.
  intros Hinv. unfold tls_poll_flush. destruct (tw_state w) as [|pos size|e] eqn:Hst.
  - by apply finish_flush_inv.
  - destruct (poll_flush_record _ _ pos (tw_upstream w)) as [[res pos'] u'] eqn:Hf.
    pose proof (flush_inv w out pos size res pos' u' Hinv Hst Hf) as Hnext. destruct res as [| |e].
    + by apply finish_flush_inv.
    + by intros [= <- <-].
    + by intros [= <- <-].
  - by intros [= <- <-].
Qed.

Lemma tls_poll_write_spec buf w p w' :
  (exists out, writer_inv w out) -> poll_write buf w = (p, w') ->
  match p with
  | Pending => (exists out, writer_inv w' out) /\ tls_accepted w' = tls_accepted w
  | Ready (Ok n) => (exists out, writer_inv w' out) /\ n <= length buf /\ tls_accepted w' = tls_accepted w ++ take n buf
  | Ready (Err _) => True
  end.
Proof.
  intros [out Hinv] Hp. pose proof (tls_poll_write_inv w out buf p w' Hinv Hp) as Hpost.
  rewrite (writer_inv_accepted _ _ Hinv). destruct p as [|[n|e]]; cbn [write_post] in Hpost; [| |done].
  - split; [by eexists | by apply writer_inv_accepted].
  - destruct Hpost as [? Hpost]. split_and!; [by eexists | done | by apply writer_inv_accepted].
Qed.

Lemma tls_poll_flush_spec w p w' :
  (exists out, writer_inv w out) -> poll_flush w = (p, w') ->
  match p with
  | Pending => (exists out, writer_inv w' out) /\ tls_accepted w' = tls_accepted w
  | Ready (Ok _) => (exists out, writer_inv w' out) /\ tls_accepted w' = tls_accepted w /\ tls_settled w'
  | Ready (Err _) => True
  end.
Proof.
  intros [out Hinv] Hp. pose proof (tls_poll_flush_inv w out p w' Hinv Hp) as Hpost.
  rewrite (writer_inv_accepted _ _ Hinv). destruct p as [|[n|e]]; [| |done].
  - split; [by eexists | by apply writer_inv_accepted].
  - destruct Hpost as [Hpost ?]. split_and!; [by eexists | by apply writer_inv_accepted | done].
Qed.

(** What the record writer promises, over anything that is itself a writer. *)
Definition tls_writer_spec : WriterSpec (FakeTlsWriter W) :=
  mkWriterSpec tls_accepted tls_settled (fun w => exists out, writer_inv w out) tls_poll_write_spec tls_poll_flush_spec.

Lemma tls_writer_new_inv u profile seed :
  writer_ok below u -> length (accepted below u) = base ->
  writer_inv (tls_writer_with_profile u profile seed) [].
Proof.
  intros Hu Hb. split_and!; [done | cbn; lia | done |]. exists []. split_and!; try done.
  unfold written, held. cbn. by rewrite drop_ge by lia.
Qed.

(** Never more than one record is held back. *)
Lemma held_bounded w : (exists out, writer_inv w out) -> length (held w) <= TLS_HEADER_SIZE + MAX_TLS_PAYLOAD.
Proof.
  intros (out & _ & _ & Hst & _). unfold held. destruct (tw_state w); [cbn; lia | rewrite length_drop; lia | cbn; lia].
Qed.
End writer.
