(* ===== verification/CryptoStream.v ===== *)
(** The encryption layer of stream/crypto_stream.rs: AES-CTR over any stream
    underneath.  The writer encrypts what it accepts exactly once and keeps the
    ciphertext it cannot pass on in a bounded buffer; the reader decrypts what
    arrives in place. *)

From stdpp Require Import base list numbers.
From S2P Require Import Prelude Aes Stream.
Local Open Scope nat_scope.

Definition DEFAULT_MAX_PENDING_WRITE : nat := 64 * 1024.
Definition MIN_PENDING_WRITE : nat := 4 * 1024.
Definition COMPACT_THRESHOLD : nat := 16 * 1024.

(** * The reader *)

Inductive CryptoReaderState :=
  | CrIdle
  | CrYielding (buffer : YieldBuffer)
  | CrPoisoned (error : option ErrorKind).

Record CryptoReader (R : Type) := mkCryptoReader { cr_upstream : R; cr_decryptor : AesCtr; cr_state : CryptoReaderState }.
Arguments mkCryptoReader {R}.
Arguments cr_upstream {R}.
Arguments cr_decryptor {R}.
Arguments cr_state {R}.

Section reader.
Context {R : Type} `{AsyncRead R} `{StreamKey}.

Definition crypto_reader_new (upstream : R) (decryptor : AesCtr) : CryptoReader R :=
  mkCryptoReader upstream decryptor CrIdle.

Definition crypto_poll_read (fuel cap : nat) (this : CryptoReader R) : option (IoPoll (list Z) * CryptoReader R) :=
  match cr_state this with
  | CrPoisoned error =>
      Some (Ready (Err (default Other error)), mkCryptoReader (cr_upstream this) (cr_decryptor this) (CrPoisoned None))
  | CrYielding buffer =>
      if cap =? 0 then Some (Ready (Ok []), this)
      else
        let to_copy := Nat.min (yield_remaining buffer) cap in
        let '(out, buffer) := yield_copy_to to_copy buffer in
        Some (Ready (Ok out), mkCryptoReader (cr_upstream this) (cr_decryptor this)
          (if yield_is_empty buffer then CrIdle else CrYielding buffer))
  | CrIdle =>
      if cap =? 0 then Some (Ready (Ok []), this)
      else
        match poll_read fuel cap (cr_upstream this) with
        | None => None
        | Some (Pending, upstream) => Some (Pending, mkCryptoReader upstream (cr_decryptor this) CrIdle)
        | Some (Ready (Err e), upstream) =>
            Some (Ready (Err e), mkCryptoReader upstream (cr_decryptor this) (CrPoisoned (Some e)))
        | Some (Ready (Ok bs), upstream) =>
            if bool_decide (bs = []) then Some (Ready (Ok []), mkCryptoReader upstream (cr_decryptor this) CrIdle)
            else
              let '(plain, decryptor) := ctr_apply bs (cr_decryptor this) in
              Some (Ready (Ok plain), mkCryptoReader upstream decryptor CrIdle)
        end
  end.

#[export] Instance crypto_read : AsyncRead (CryptoReader R) := crypto_poll_read.
End reader.

(** * Pending ciphertext *)

Record PendingCiphertext := mkPending { pc_buf : list Z; pc_pos : nat; pc_max_len : nat }.

Definition pending_new (max_len : nat) : PendingCiphertext := mkPending [] 0 max_len.
Definition pending_len (p : PendingCiphertext) : nat := length (pc_buf p) - pc_pos p.
Definition pending_is_empty (p : PendingCiphertext) : bool := pending_len p =? 0.
Definition pending_slice (p : PendingCiphertext) : list Z := drop (pc_pos p) (pc_buf p).
Definition remaining_capacity (p : PendingCiphertext) : nat := pc_max_len p - pending_len p.

Definition compact_consumed_prefix (p : PendingCiphertext) : PendingCiphertext :=
  if pc_pos p =? 0 then p
  else if length (pc_buf p) <=? pc_pos p then mkPending [] 0 (pc_max_len p)
  else mkPending (drop (pc_pos p) (pc_buf p)) 0 (pc_max_len p).

Definition pending_advance (n : nat) (p : PendingCiphertext) : PendingCiphertext :=
  let p := mkPending (pc_buf p) (Nat.min (pc_pos p + n) (length (pc_buf p))) (pc_max_len p) in
  if pc_pos p =? length (pc_buf p) then compact_consumed_prefix p
  else if COMPACT_THRESHOLD <=? pc_pos p then compact_consumed_prefix p
  else p.

Definition replace_with (src : list Z) (p : PendingCiphertext) : PendingCiphertext := mkPending src 0 (pc_max_len p).

Definition push_encrypted `{StreamKey} (encryptor : AesCtr) (plaintext : list Z) (p : PendingCiphertext)
    : result ErrorKind (PendingCiphertext * AesCtr) :=
  if bool_decide (plaintext = []) then Ok (p, encryptor)
  else if remaining_capacity p <? length plaintext then Err WouldBlock
  else
    let p :=
      if (0 <? pc_pos p) && (pc_max_len p <? length (pc_buf p) + length plaintext)
      then compact_consumed_prefix p else p in
    let '(ciphertext, encryptor) := ctr_apply plaintext encryptor in
    Ok (mkPending (pc_buf p ++ ciphertext) (pc_pos p) (pc_max_len p), encryptor).

(** * The writer *)

Inductive CryptoWriterState :=
  | CwIdle
  | CwFlushing (pending : PendingCiphertext)
  | CwPoisoned (error : option ErrorKind).

(** The scratch buffer is empty between calls. *)
Record CryptoWriter (W : Type) := mkCryptoWriter {
  cw_upstream : W;
  cw_encryptor : AesCtr;
  cw_state : CryptoWriterState;
  cw_max_pending_write : nat;
}.
Arguments mkCryptoWriter {W}.
Arguments cw_upstream {W}.
Arguments cw_encryptor {W}.
Arguments cw_state {W}.
Arguments cw_max_pending_write {W}.

Definition ensure_pending (state : CryptoWriterState) (max_pending : nat) : PendingCiphertext :=
  match state with
  | CwFlushing pending => pending
  | _ => pending_new max_pending
  end.

Definition select_to_accept_for_buffering (state : CryptoWriterState) (buf_len max_pending : nat) : nat :=
  if buf_len =? 0 then 0
  else
    match state with
    | CwFlushing pending => Nat.min buf_len (remaining_capacity pending)
    | CwIdle => Nat.min buf_len max_pending
    | CwPoisoned _ => 0
    end.

Section writer.
Context {W : Type} `{AsyncWrite W} `{StreamKey}.

Definition crypto_writer_new (upstream : W) (encryptor : AesCtr) (max_pending_write : nat) : CryptoWriter W :=
  let max_pending := if max_pending_write =? 0 then DEFAULT_MAX_PENDING_WRITE else max_pending_write in
  mkCryptoWriter upstream encryptor CwIdle (Nat.max max_pending MIN_PENDING_WRITE).

Definition set_crypto (upstream : W) (state : CryptoWriterState) (this : CryptoWriter W) : CryptoWriter W :=
  mkCryptoWriter upstream (cw_encryptor this) state (cw_max_pending_write this).

(** [poll_flush_pending]: [n] more rounds; each one writes a byte. *)
Fixpoint poll_flush_pending (n : nat) (this : CryptoWriter W) : IoPoll unit * CryptoWriter W :=
  match cw_state this with
  | CwPoisoned error => (Ready (Err (default Other error)), set_crypto (cw_upstream this) (CwPoisoned None) this)
  | CwIdle => (Ready (Ok tt), this)
  | CwFlushing pending =>
      if pending_is_empty pending then (Ready (Ok tt), set_crypto (cw_upstream this) CwIdle this)
      else
        match poll_write (pending_slice pending) (cw_upstream this) with
        | (Pending, upstream) => (Pending, set_crypto upstream (CwFlushing pending) this)
        | (Ready (Err e), upstream) => (Ready (Err e), set_crypto upstream (CwPoisoned (Some e)) this)
        | (Ready (Ok O), upstream) => (Ready (Err WriteZero), set_crypto upstream (CwPoisoned (Some WriteZero)) this)
        | (Ready (Ok k), upstream) =>
            let this := set_crypto upstream (CwFlushing (pending_advance k pending)) this in
            match n with
            | O => (Pending, this)
            | S n => poll_flush_pending n this
            end
        end
  end.

(** Rounds that always suffice: one per pending byte and a last one. *)
Definition flush_rounds (this : CryptoWriter W) : nat :=
  match cw_state this with CwFlushing pending => pending_len pending | _ => 0 end.

(** The write-through path, with nothing pending. *)
Definition write_through (buf : list Z) (this : CryptoWriter W) : IoPoll nat * CryptoWriter W :=
  let to_accept := Nat.min (length buf) (cw_max_pending_write this) in
  let '(scratch, encryptor) := ctr_apply (take to_accept buf) (cw_encryptor this) in
  let this := mkCryptoWriter (cw_upstream this) encryptor (cw_state this) (cw_max_pending_write this) in
  let pending := ensure_pending (cw_state this) (cw_max_pending_write this) in
  match poll_write scratch (cw_upstream this) with
  | (Pending, upstream) => (Ready (Ok to_accept), set_crypto upstream (CwFlushing (replace_with scratch pending)) this)
  | (Ready (Err e), upstream) => (Ready (Err e), set_crypto upstream (CwPoisoned (Some e)) this)
  | (Ready (Ok O), upstream) => (Ready (Err WriteZero), set_crypto upstream (CwPoisoned (Some WriteZero)) this)
  | (Ready (Ok n), upstream) =>
      if n =? length scratch then (Ready (Ok to_accept), set_crypto upstream (cw_state this) this)
      else (Ready (Ok to_accept), set_crypto upstream (CwFlushing (replace_with (drop n scratch) pending)) this)
  end.

Definition crypto_poll_write (buf : list Z) (this : CryptoWriter W) : IoPoll nat * CryptoWriter W :=
  match cw_state this with
  | CwPoisoned error => (Ready (Err (default Other error)), set_crypto (cw_upstream this) (CwPoisoned None) this)
  | CwIdle => if bool_decide (buf = []) then (Ready (Ok O), this) else write_through buf this
  | CwFlushing _ =>
      if bool_decide (buf = []) then (Ready (Ok O), this)
      else
        match poll_flush_pending (flush_rounds this) this with
        | (Ready (Ok _), this) => write_through buf this
        | (Ready (Err e), this) => (Ready (Err e), this)
        | (Pending, this) =>
            let to_accept := select_to_accept_for_buffering (cw_state this) (length buf) (cw_max_pending_write this) in
            if to_accept =? 0 then (Pending, this)
            else
              let pending := ensure_pending (cw_state this) (cw_max_pending_write this) in
              match push_encrypted (cw_encryptor this) (take to_accept buf) pending with
              | Err WouldBlock => (Pending, this)
              | Err e => (Ready (Err e), this)
              | Ok (pending, encryptor) =>
                  (Ready (Ok to_accept),
                   mkCryptoWriter (cw_upstream this) encryptor (CwFlushing pending) (cw_max_pending_write this))
              end
        end
  end.

Definition crypto_poll_flush (this : CryptoWriter W) : IoPoll unit * CryptoWriter W :=
  match poll_flush_pending (flush_rounds this) this with
  | (Pending, this) => (Pending, this)
  | (Ready (Err e), this) => (Ready (Err e), this)
  | (Ready (Ok _), this) =>
      let '(p, upstream) := poll_flush (cw_upstream this) in
      (p, set_crypto upstream (cw_state this) this)
  end.

Definition crypto_poll_shutdown (this : CryptoWriter W) : IoPoll unit * CryptoWriter W :=
  let '(_, this) := poll_flush_pending (flush_rounds this) this in
  let '(p, upstream) := poll_shutdown (cw_upstream this) in
  (p, set_crypto upstream (cw_state this) this).

#[export] Instance crypto_write : AsyncWrite (CryptoWriter W) := {
  poll_write := crypto_poll_write;
  poll_flush := crypto_poll_flush;
  poll_shutdown := crypto_poll_shutdown;
}.
End writer.
