(* ===== verification/CryptoStreamInv.v ===== *)
(** The encryption layer keeps the keystream aligned: what the reader delivers
    is the decryption of what arrived, what the writer has put out or holds is
    the encryption of what it accepted, and it never holds more than its bound. *)

From stdpp Require Import base list numbers.
From S2P Require Import Prelude Aes Stream CryptoStream.
Local Open Scope nat_scope.

Section reader.
Context {R : Type} `{AsyncRead R} `{StreamKey} (below : ReaderSpec R) (base : nat) (c0 : AesCtr).
Implicit Types (r : CryptoReader R).

Definition crypto_reader_inv r : Prop :=
  reader_ok below (cr_upstream r) /\ base <= length (delivered below (cr_upstream r)) /\
  cr_decryptor r = (ctr_apply (arrived below base (cr_upstream r)) c0).2 /\
  match cr_state r with CrYielding _ => False | _ => True end.

Definition crypto_delivered r : list Z := (ctr_apply (arrived below base (cr_upstream r)) c0).1.

Lemma crypto_poll_read_spec fuel cap r p r' :
  crypto_reader_inv r -> poll_read fuel cap r = Some (p, r') ->
  crypto_reader_inv r' /\
  match p with
  | Ready (Ok bs) => length bs <= cap /\ crypto_delivered r' = crypto_delivered r ++ bs
  | _ => crypto_delivered r' = crypto_delivered r
  end.
Proof.
  intros (Hu & Hb & Hc & Hst). unfold poll_read, crypto_read, crypto_poll_read.
  destruct (cr_state r) as [|y|e] eqn:Hs; [|done|by intros [= <- <-]].
  destruct (cap =? 0).
  { intros [= <- <-]. split; [split_and!; try done; by rewrite Hs|]. rewrite app_nil_r. split; [cbn; lia | done]. }
  destruct (poll_read fuel cap (cr_upstream r)) as [[q u]|] eqn:Hq; [|done].
  destruct (poll_read_spec below _ _ _ _ _ Hu Hq) as [Hu' Hd].
  assert (forall new st, delivered below u = delivered below (cr_upstream r) ++ new ->
    match st with CrYielding _ => False | _ => True end ->
    crypto_reader_inv (mkCryptoReader u (ctr_apply new (cr_decryptor r)).2 st) /\
    crypto_delivered (mkCryptoReader u (ctr_apply new (cr_decryptor r)).2 st) =
      crypto_delivered r ++ (ctr_apply new (cr_decryptor r)).1) as Hnext.
  { intros new st Hnew Hok. destruct (arrived_app below base _ _ _ Hb Hnew) as [Ha Hb'].
    unfold crypto_reader_inv, crypto_delivered. cbn [cr_upstream cr_decryptor cr_state].
    rewrite Ha, ctr_apply_app, Hc. by split_and!. }
  assert (forall st, delivered below u = delivered below (cr_upstream r) ->
    match st with CrYielding _ => False | _ => True end ->
    crypto_reader_inv (mkCryptoReader u (cr_decryptor r) st) /\
    crypto_delivered (mkCryptoReader u (cr_decryptor r) st) = crypto_delivered r) as Hsame.
  { intros st Heq Hok. unfold crypto_reader_inv, crypto_delivered, arrived. cbn [cr_upstream cr_decryptor cr_state].
    rewrite Heq. by split_and!. }
  destruct q as [|[bs|e]].
  - intros [= <- <-]. by apply Hsame.
  - destruct Hd as [Hl Hd]. case_bool_decide as Hbs.
    + subst bs. rewrite app_nil_r in Hd. intros [= <- <-]. destruct (Hsame CrIdle Hd I) as [? ->].
      split; [done|]. by rewrite app_nil_r.
    + destruct (Hnext bs CrIdle Hd I) as [Hi Heq]. pose proof (length_ctr_apply bs (cr_decryptor r)) as Hlen.
      destruct (ctr_apply bs (cr_decryptor r)) as [plain c]. cbn [fst snd] in *.
      intros [= <- <-]. split; [done|]. split; [lia | done].
  - intros [= <- <-]. by apply Hsame.
Qed.

Definition crypto_reader_spec : ReaderSpec (CryptoReader R) :=
  mkReaderSpec crypto_delivered crypto_reader_inv crypto_poll_read_spec.

Lemma crypto_reader_new_inv u :
  reader_ok below u -> length (delivered below u) = base -> crypto_reader_inv (crypto_reader_new u c0).
Proof.
  intros Hu Hb. split_and!; [done | cbn; lia | | done]. unfold arrived. cbn. rewrite drop_ge by lia.
  destruct c0. cbn. by rewrite Nat.add_0_r.
Qed.
End reader.

(** * Pending ciphertext *)

Definition pending_ok (p : PendingCiphertext) : Prop := pc_pos p <= length (pc_buf p) /\ pending_len p <= pc_max_len p.

Lemma pending_len_slice p : pending_len p = length (pending_slice p).
Proof. unfold pending_len, pending_slice. by rewrite length_drop. Qed.

Lemma compact_spec p :
  pc_pos p <= length (pc_buf p) ->
  pending_slice (compact_consumed_prefix p) = pending_slice p /\ pc_max_len (compact_consumed_prefix p) = pc_max_len p /\
  pc_pos (compact_consumed_prefix p) = 0.
Proof.
  intros Hp. unfold compact_consumed_prefix, pending_slice. destruct (Nat.eqb_spec (pc_pos p) 0); [done|].
  destruct (Nat.leb_spec (length (pc_buf p)) (pc_pos p)); cbn; [|done]. by rewrite drop_ge.
Qed.

Lemma pending_advance_spec n p :
  pending_ok p -> n <= pending_len p ->
  pending_slice (pending_advance n p) = drop n (pending_slice p) /\ pending_ok (pending_advance n p) /\
  pc_max_len (pending_advance n p) = pc_max_len p /\ pending_len (pending_advance n p) = pending_len p - n.
Proof.
  intros [Hp Hl] Hn. unfold pending_advance. unfold pending_len in Hn, Hl. rewrite Nat.min_l by lia.
  set (p1 := mkPending (pc_buf p) (pc_pos p + n) (pc_max_len p)).
  assert (pending_slice p1 = drop n (pending_slice p)) as Hs by (unfold pending_slice, p1; cbn; by rewrite drop_drop).
  assert (pc_pos p1 <= length (pc_buf p1)) as Hp1 by (cbn; lia).
  assert (forall q, pending_slice q = drop n (pending_slice p) -> pc_max_len q = pc_max_len p -> pc_pos q <= length (pc_buf q) ->
    pending_slice q = drop n (pending_slice p) /\ pending_ok q /\ pc_max_len q = pc_max_len p /\ pending_len q = pending_len p - n) as Hfin.
  { intros q Hq Hm Hpos. assert (pending_len q = pending_len p - n) as Hlen.
    { rewrite !pending_len_slice, Hq. by rewrite length_drop. }
    split_and!; try done. unfold pending_ok. rewrite Hlen, Hm. unfold pending_len. lia. }
  destruct (compact_spec p1 Hp1) as (Hc & Hm & Hz).
  destruct (_ =? _); [apply Hfin; [by rewrite Hc | done | lia]|].
  destruct (_ <=? _); apply Hfin; try done; [by rewrite Hc | lia].
Qed.

Lemma push_encrypted_spec `{StreamKey} c plain p :
  pending_ok p -> length plain <= remaining_capacity p ->
  exists p', push_encrypted c plain p = Ok (p', (ctr_apply plain c).2) /\
    pending_slice p' = pending_slice p ++ (ctr_apply plain c).1 /\ pending_ok p' /\ pc_max_len p' = pc_max_len p.
Proof.
  intros [Hp Hl] Hcap. unfold push_encrypted. case_bool_decide as Hnil.
  { subst plain. exists p. split_and!; try done; [|by rewrite app_nil_r]. destruct c. cbn. by rewrite Nat.add_0_r. }
  rewrite (proj2 (Nat.ltb_ge _ _) Hcap).
  set (p1 := if _ && _ then compact_consumed_prefix p else p).
  assert (pending_slice p1 = pending_slice p /\ pc_max_len p1 = pc_max_len p /\ pc_pos p1 <= length (pc_buf p1)) as (Hs & Hm & Hpos).
  { destruct (compact_spec p Hp) as (? & ? & Hz). unfold p1. destruct (_ && _); split_and!; try done. lia. }
  rewrite (surjective_pairing (ctr_apply plain c)). eexists. split; [reflexivity|].
  assert (pending_slice (mkPending (pc_buf p1 ++ (ctr_apply plain c).1) (pc_pos p1) (pc_max_len p1)) =
    pending_slice p ++ (ctr_apply plain c).1) as Hslice.
  { rewrite <- Hs. unfold pending_slice. cbn. by rewrite drop_app_le. }
  split_and!; [done | | by cbn]. split; [cbn; rewrite length_app; lia|].
  rewrite pending_len_slice, Hslice, length_app, <- pending_len_slice, length_ctr_apply. cbn. unfold remaining_capacity in Hcap. lia.
Qed.

(** * The writer *)

Section writer.
Context {W : Type} `{AsyncWrite W} `{StreamKey} (below : WriterSpec W) (base : nat) (c0 : AesCtr).
Implicit Types (w : CryptoWriter W) (u : W).

Definition ciphertext_held w : list Z :=
  match cw_state w with CwFlushing p => pending_slice p | _ => [] end.

Definition state_ok (max : nat) (st : CryptoWriterState) : Prop :=
  match st with
  | CwIdle => True
  | CwFlushing p => pending_ok p /\ pc_max_len p = max
  | CwPoisoned _ => False
  end.

Definition crypto_writer_inv w (out : list Z) : Prop :=
  writer_ok below (cw_upstream w) /\ base <= length (accepted below (cw_upstream w)) /\
  state_ok (cw_max_pending_write w) (cw_state w) /\
  cw_encryptor w = (ctr_apply out c0).2 /\
  written below base (cw_upstream w) ++ ciphertext_held w = (ctr_apply out c0).1.

Definition crypto_accepted w : list Z :=
  (ctr_apply (written below base (cw_upstream w) ++ ciphertext_held w) c0).1.
Definition crypto_settled w : Prop := cw_state w = CwIdle /\ settled below (cw_upstream w).

Lemma crypto_inv_accepted w out : crypto_writer_inv w out -> crypto_accepted w = out.
Proof. intros (_ & _ & _ & _ & Hw). unfold crypto_accepted. rewrite Hw. apply ctr_apply_twice. Qed.

(** Ciphertext moves from the buffer to the stream below. *)
Lemma move_inv w out u' st new :
  crypto_writer_inv w out -> writer_ok below u' -> accepted below u' = accepted below (cw_upstream w) ++ new ->
  state_ok (cw_max_pending_write w) st ->
  ciphertext_held w = new ++ match st with CwFlushing p => pending_slice p | _ => [] end ->
  crypto_writer_inv (set_crypto u' st w) out.
Proof.
  intros (_ & Hb & _ & He & Hw) Hu' Ha Hst Hheld. destruct (written_app below base _ _ _ Hb Ha) as [Hw' Hb'].
  unfold crypto_writer_inv, ciphertext_held. cbn [set_crypto cw_upstream cw_state cw_encryptor cw_max_pending_write].
  split_and!; try done. by rewrite Hw', <- app_assoc, <- Hheld.
Qed.

Lemma poll_flush_pending_spec n w out p w' :
  crypto_writer_inv w out -> flush_rounds w <= n -> poll_flush_pending n w = (p, w') ->
  match p with
  | Pending => crypto_writer_inv w' out /\ exists q, cw_state w' = CwFlushing q
  | Ready (Ok _) => crypto_writer_inv w' out /\ cw_state w' = CwIdle
  | Ready (Err _) => True
  end.
Proof.
  revert w. induction n as [|n IH]; intros w Hinv Hn; cbn [poll_flush_pending]; pose proof Hinv as (Hu & Hb & Hst & _);
    unfold flush_rounds in Hn; (destruct (cw_state w) as [|q|e] eqn:Hs; [by intros [= <- <-] | | done]);
    unfold pending_is_empty; (destruct (Nat.eqb_spec (pending_len q) 0) as [Hz|Hnz];
    [intros [= <- <-]; split; [|done]; eapply (move_inv w out _ CwIdle []); try done; [by rewrite app_nil_r|];
     unfold ciphertext_held; rewrite Hs; rewrite pending_len_slice in Hz; by apply nil_length_inv in Hz | try lia]).
  destruct (poll_write (pending_slice q) (cw_upstream w)) as [r u'] eqn:Hr.
  pose proof (poll_write_spec below _ _ _ _ Hu Hr) as Hspec. destruct Hst as [Hok Hmax].
  destruct r as [|[k|e]]; [| |by intros [= <- <-]].
  - intros [= <- <-]. destruct Hspec as [Hu' Ha]. split; [|by eexists].
    apply (move_inv w out u' _ []); [done | done | by rewrite app_nil_r | done | unfold ciphertext_held; by rewrite Hs].
  - destruct k as [|k]; [by intros [= <- <-]|]. destruct Hspec as (Hu' & Hk & Ha).
    rewrite <- pending_len_slice in Hk. destruct (pending_advance_spec (S k) q Hok Hk) as (Hsl & Hok' & Hm' & Hl').
    apply IH.
    + apply (move_inv w out u' _ (take (S k) (pending_slice q))); try done; [split; [done | congruence]|].
      unfold ciphertext_held. rewrite Hs, Hsl. by rewrite take_drop.
    + unfold flush_rounds. cbn [set_crypto cw_state]. lia.
Qed.

Definition crypto_post w out (buf : list Z) (p : IoPoll nat) : Prop :=
  match p with
  | Pending => crypto_writer_inv w out
  | Ready (Ok n) => n <= length buf /\ crypto_writer_inv w (out ++ take n buf)
  | Ready (Err _) => True
  end.

(** Accepting a prefix: its ciphertext is split between the stream below and
    the buffer. *)
Lemma accept_inv w out n buf u' st new :
  crypto_writer_inv w out -> n <= length buf ->
  let '(cipher, c) := ctr_apply (take n buf) (cw_encryptor w) in
  writer_ok below u' -> accepted below u' = accepted below (cw_upstream w) ++ new ->
  state_ok (cw_max_pending_write w) st ->
  ciphertext_held w ++ cipher = new ++ match st with CwFlushing p => pending_slice p | _ => [] end ->
  n <= length buf /\ crypto_writer_inv (mkCryptoWriter u' c st (cw_max_pending_write w)) (out ++ take n buf).
Proof.
  intros (_ & Hb & _ & He & Hw) Hn. destruct (ctr_apply (take n buf) (cw_encryptor w)) as [cipher c] eqn:Hc.
  intros Hu' Ha Hst Hheld. split; [done|]. destruct (written_app below base _ _ _ Hb Ha) as [Hw' Hb'].
  unfold crypto_writer_inv, ciphertext_held. cbn [cw_upstream cw_state cw_encryptor cw_max_pending_write].
  rewrite ctr_apply_app, <- He, Hc. cbn [fst snd]. split_and!; try done.
  by rewrite Hw', <- app_assoc, <- Hheld, app_assoc, Hw.
Qed.

Lemma write_through_inv w out buf p w' :
  crypto_writer_inv w out -> cw_state w = CwIdle -> write_through buf w = (p, w') -> crypto_post w' out buf p.
Proof.
  intros Hinv Hs. unfold write_through. set (n := Nat.min (length buf) (cw_max_pending_write w)).
  pose proof (fun u' st new => accept_inv w out n buf u' st new Hinv ltac:(unfold n; lia)) as Hacc.
  pose proof (length_ctr_apply (take n buf) (cw_encryptor w)) as Hlen. rewrite length_take in Hlen.
  destruct (ctr_apply (take n buf) (cw_encryptor w)) as [cipher c]. cbn [cw_upstream cw_state cw_max_pending_write fst] in *.
  rewrite Hs. cbn [ensure_pending]. destruct Hinv as (Hu & _).
  assert (ciphertext_held w = []) as Hnone by (unfold ciphertext_held; by rewrite Hs). rewrite Hnone in Hacc.
  destruct (poll_write cipher (cw_upstream w)) as [r u'] eqn:Hr.
  pose proof (poll_write_spec below _ _ _ _ Hu Hr) as Hspec. destruct r as [|[k|e]]; [| |by intros [= <- <-]].
  - intros [= <- <-]. destruct Hspec as [Hu' Ha]. apply (Hacc u' _ []); try done; [by rewrite app_nil_r|].
    split; [|done]. split; cbn; [lia|]. unfold pending_len. cbn. unfold n in Hlen. lia.
  - destruct k as [|k]; [by intros [= <- <-]|]. destruct Hspec as (Hu' & Hk & Ha).
    destruct (Nat.eqb_spec (S k) (length cipher)) as [Heq|Hne]; intros [= <- <-].
    + apply (Hacc u' _ cipher); try done; [|by rewrite app_nil_r]. by rewrite Ha, Heq, firstn_all.
    + apply (Hacc u' _ (take (S k) cipher)); try done; [|unfold pending_slice, replace_with; cbn [pc_buf pc_pos]; by rewrite drop_0, take_drop].
      split; [|done]. split; cbn; [lia|]. unfold pending_len. cbn. rewrite length_drop. unfold n in Hlen. lia.
Qed.

Lemma crypto_poll_write_inv w out buf p w' :
  crypto_writer_inv w out -> crypto_poll_write buf w = (p, w') -> crypto_post w' out buf p.
Proof.
  intros Hinv. unfold crypto_poll_write. destruct (cw_state w) as [|q|e] eqn:Hs; [| |by intros [= <- <-]].
  { case_bool_decide; [intros [= <- <-]; split; [lia | by rewrite app_nil_r] | by apply write_through_inv]. }
  case_bool_decide; [intros [= <- <-]; split; [lia | by rewrite app_nil_r]|].
  destruct (poll_flush_pending (flush_rounds w) w) as [r w1] eqn:Hf.
  pose proof (poll_flush_pending_spec _ _ _ _ _ Hinv (Nat.le_refl _) Hf) as Hspec.
  destruct r as [|[[]|e]]; [|destruct Hspec; by apply write_through_inv|by intros [= <- <-]].
  destruct Hspec as [Hinv1 [q1 Hs1]]. rewrite Hs1. cbn [ensure_pending].
  set (n := select_to_accept_for_buffering _ _ _). assert (n <= length buf /\ n <= remaining_capacity q1) as [Hnb Hnc].
  { unfold n, select_to_accept_for_buffering. destruct (_ =? _); lia. }
  destruct (Nat.eqb_spec n 0); [by intros [= <- <-]|].
  pose proof (accept_inv w1 out n buf (cw_upstream w1)) as Hacc. pose proof Hinv1 as (Hu1 & _ & Hok1 & _). rewrite Hs1 in Hok1.
  destruct Hok1 as [Hok1 Hmax1].
  destruct (push_encrypted_spec (cw_encryptor w1) (take n buf) q1 Hok1) as (q2 & -> & Hsl & Hok2 & Hm2); [rewrite length_take; lia|].
  specialize (Hacc (CwFlushing q2) [] Hinv1 Hnb).
  destruct (ctr_apply (take n buf) (cw_encryptor w1)) as [cipher c]. cbn [fst snd] in *. intros [= <- <-].
  apply Hacc; [done | by rewrite app_nil_r | split; [done | congruence]|]. unfold ciphertext_held. by rewrite Hs1.
Qed.

Lemma crypto_poll_flush_inv w out p w' :
  crypto_writer_inv w out -> crypto_poll_flush w = (p, w') ->
  match p with
  | Pending => crypto_writer_inv w' out
  | Ready (Ok _) => crypto_writer_inv w' out /\ crypto_settled w'
  | Ready (Err _) => True
  end.
Proof.
  intros Hinv. unfold crypto_poll_flush. destruct (poll_flush_pending (flush_rounds w) w) as [r w1] eqn:Hf.
  pose proof (poll_flush_pending_spec _ _ _ _ _ Hinv (Nat.le_refl _) Hf) as Hspec.
  destruct r as [|[[]|e]]; [intros [= <- <-]; by destruct Hspec | |by intros [= <- <-]].
  destruct Hspec as [Hinv1 Hs1]. destruct (poll_flush (cw_upstream w1)) as [q u'] eqn:Hq.
  pose proof (poll_flush_spec below _ _ _ (proj1 Hinv1) Hq) as Hfl. intros [= <- <-].
  pose proof (fun Hu Ha => move_inv w1 out u' (cw_state w1) [] Hinv1 Hu Ha (proj1 (proj2 (proj2 Hinv1))) eq_refl) as Hmv.
  rewrite app_nil_r in Hmv. destruct q as [|[[]|e]]; [destruct Hfl; by apply Hmv | | done].
  destruct Hfl as (? & ? & ?). split; [by apply Hmv|]. by split.
Qed.

Lemma crypto_poll_write_spec buf w p w' :
  (exists out, crypto_writer_inv w out) -> poll_write buf w = (p, w') ->
  match p with
  | Pending => (exists out, crypto_writer_inv w' out) /\ crypto_accepted w' = crypto_accepted w
  | Ready (Ok n) => (exists out, crypto_writer_inv w' out) /\ n <= length buf /\
      crypto_accepted w' = crypto_accepted w ++ take n buf
  | Ready (Err _) => True
  end.
Proof.
  intros [out Hinv] Hp. pose proof (crypto_poll_write_inv w out buf p w' Hinv Hp) as Hpost.
  rewrite (crypto_inv_accepted _ _ Hinv). destruct p as [|[n|e]]; cbn [crypto_post] in Hpost; [| |done].
  - split; [by eexists | by apply crypto_inv_accepted].
  - destruct Hpost as [? Hpost]. split_and!; [by eexists | done | by apply crypto_inv_accepted].
Qed.

Lemma crypto_poll_flush_spec w p w' :
  (exists out, crypto_writer_inv w out) -> poll_flush w = (p, w') ->
  match p with
  | Pending => (exists out, crypto_writer_inv w' out) /\ crypto_accepted w' = crypto_accepted w
  | Ready (Ok _) => (exists out, crypto_writer_inv w' out) /\ crypto_accepted w' = crypto_accepted w /\ crypto_settled w'
  | Ready (Err _) => True
  end.
Proof.
  intros [out Hinv] Hp. pose proof (crypto_poll_flush_inv w out p w' Hinv Hp) as Hpost.
  rewrite (crypto_inv_accepted _ _ Hinv). destruct p as [|[n|e]]; [| |done].
  - split; [by eexists | by apply crypto_inv_accepted].
  - destruct Hpost as [Hpost ?]. split_and!; [by eexists | by apply crypto_inv_accepted | done].
Qed.

Definition crypto_writer_spec : WriterSpec (CryptoWriter W) :=
  mkWriterSpec crypto_accepted crypto_settled (fun w => exists out, crypto_writer_inv w out)
    crypto_poll_write_spec crypto_poll_flush_spec.

(** The limit never changes. *)
Lemma poll_flush_pending_max n w : cw_max_pending_write (poll_flush_pending n w).2 = cw_max_pending_write w.
Proof.
  revert w. induction n as [|n IH]; intros w; cbn [poll_flush_pending]; (destruct (cw_state w) as [|q|e]; [done | | done]);
    (destruct (pending_is_empty q); [done|]); (destruct (poll_write _ _) as [[|[[|k]|e]] u]; try done). by rewrite IH.
Qed.

Lemma write_through_max buf w : cw_max_pending_write (write_through buf w).2 = cw_max_pending_write w.
Proof.
  unfold write_through. destruct (ctr_apply _ _) as [scratch c]. cbn [cw_upstream].
  destruct (poll_write scratch _) as [[|[[|k]|e]] u]; try done. by destruct (_ =? _).
Qed.

Lemma crypto_poll_write_max buf w : cw_max_pending_write (poll_write buf w).2 = cw_max_pending_write w.
Proof.
  unfold poll_write, crypto_write, crypto_poll_write. destruct (cw_state w) as [|q|e]; [| |done]; (case_bool_decide; [done|]).
  { apply write_through_max. }
  pose proof (poll_flush_pending_max (flush_rounds w) w) as Hm. destruct (poll_flush_pending _ w) as [[|[[]|e]] w1]; cbn [snd] in Hm.
  - destruct (_ =? _); [done|]. by destruct (push_encrypted _ _ _) as [[p c]|[| | | | | |]].
  - by rewrite write_through_max.
  - done.
Qed.

Lemma crypto_poll_flush_max w : cw_max_pending_write (poll_flush w).2 = cw_max_pending_write w.
Proof.
  unfold poll_flush, crypto_write, crypto_poll_flush.
  pose proof (poll_flush_pending_max (flush_rounds w) w) as Hm. destruct (poll_flush_pending _ w) as [[|[[]|e]] w1]; cbn [snd] in Hm; try done.
  by destruct (poll_flush (cw_upstream w1)).
Qed.

Lemma crypto_writer_new_inv u max :
  writer_ok below u -> length (accepted below u) = base -> crypto_writer_inv (crypto_writer_new u c0 max) [].
Proof.
  intros Hu Hb. split_and!; [done | cbn; lia | done | |].
  - destruct c0. cbn. by rewrite Nat.add_0_r.
  - unfold written, ciphertext_held. cbn. by rewrite drop_ge by lia.
Qed.
End writer.
