(* ===== verification/StreamLive.v ===== *)
(** The record and the encryption layer pass everything on: over a source of
    complete records each of them is a source of the data inside, whatever the
    sizes in which the bytes arrive and however often a poll is pending. *)

From stdpp Require Import base list numbers.
From S2P Require Import Prelude Aes Tls Stream TlsStream TlsStreamInv CryptoStream.
Local Open Scope nat_scope.

(** A record that does not end the stream. *)
Definition stream_rec (r : tls_rec) : Prop := rec_ok r /\ rh_record_type (rec_header r) <> TLS_RECORD_ALERT.

Lemma stream_recs_payload recs : Forall stream_rec recs -> tls_payload (recs_bytes recs) = recs_payload recs.
Proof.
  intros Hr. rewrite <- (app_nil_r (recs_bytes recs)), tls_payload_recs; [by rewrite app_nil_r|].
  eapply Forall_impl; [|exact Hr]. by intros r [? _].
Qed.

Section tls.
Context {R : Type} `{AsyncRead R} (below : SourceSpec R).
Implicit Types (r : FakeTlsReader R) (u : R).

(** What is left of the record whose body is being read, and what follows it. *)
Definition tls_future r : list Z :=
  let f := future below (tr_upstream r) in
  match tr_state r with
  | ReaderIdle => tls_payload f
  | ReadingHeader h => tls_payload (h ++ f)
  | ReadingBody rt len buf =>
      (if (rt =? TLS_RECORD_APPLICATION)%Z then buf ++ take (len - length buf) f else []) ++
      tls_payload (drop (len - length buf) f)
  | Yielding y => yield_as_slice y ++ tls_payload f
  | ReaderPoisoned _ => []
  end.

Definition state_live (st : TlsReaderState) (f : list Z) : Prop :=
  match st with
  | ReaderIdle => exists recs, Forall stream_rec recs /\ f = recs_bytes recs
  | ReadingHeader h => length h < TLS_HEADER_SIZE /\ exists recs, Forall stream_rec recs /\ h ++ f = recs_bytes recs
  | ReadingBody rt len buf =>
      length buf < len <= length buf + length f /\ (rt = TLS_RECORD_APPLICATION \/ rt = TLS_RECORD_CHANGE_CIPHER) /\
      exists recs, Forall stream_rec recs /\ drop (len - length buf) f = recs_bytes recs
  | Yielding y => yield_as_slice y <> [] /\ exists recs, Forall stream_rec recs /\ f = recs_bytes recs
  | ReaderPoisoned _ => False
  end.

Definition tls_source_ok r : Prop :=
  source_ok below (tr_upstream r) /\ state_live (tr_state r) (future below (tr_upstream r)).

(** Every record costs at most three rounds and five bytes. *)
Definition tls_rounds r : nat :=
  match tr_state r with
  | ReaderIdle => 3 * length (future below (tr_upstream r)) + 3
  | ReadingHeader _ => 3 * length (future below (tr_upstream r)) + 2
  | ReadingBody _ _ _ => 3 * length (future below (tr_upstream r)) + 2
  | _ => 1
  end.

Definition tls_fuel r : nat := 3 * length (future below (tr_upstream r)) + 3 + fuel_need below (tr_upstream r).

(** A poll of the stream below that made progress, with what it consumed. *)
Definition consumed u u' (new : list Z) : Prop :=
  source_ok below u' /\ fuel_need below u' <= fuel_need below u /\ future below u = new ++ future below u' /\
  patience below u' <= patience below u.

Lemma consumed_trans u u1 u2 a b : consumed u u1 a -> consumed u1 u2 b -> consumed u u2 (a ++ b).
Proof.
  intros (? & ? & Ha & ?) (? & ? & Hb & ?). split_and!; [done | lia | | lia]. by rewrite Ha, Hb, app_assoc.
Qed.

Lemma header_live n fuel h u :
  source_ok below u -> fuel_need below u <= fuel -> TLS_HEADER_SIZE <= length h + n -> length h < TLS_HEADER_SIZE ->
  exists res h' u' new, poll_read_header n fuel h u = Some (res, h', u') /\ consumed u u' new /\
  match res with
  | HPending => h' = h ++ new /\ length h' < TLS_HEADER_SIZE /\ patience below u' < patience below u
  | HEof => h ++ new = [] /\ future below u' = []
  | HError _ => future below u' = [] /\ 0 < length (h ++ new) < TLS_HEADER_SIZE
  | HComplete p => p = header_parse (h ++ new) /\ length (h ++ new) = TLS_HEADER_SIZE
  end.
Proof.
  revert h u. induction n as [|n IH]; intros h u Hok Hf Hn Hh; [lia|]. cbn [poll_read_header].
  rewrite (proj2 (Nat.leb_gt _ _)) by lia.
  destruct (source_poll below fuel (TLS_HEADER_SIZE - length h) u Hok Hf ltac:(lia)) as (p & u1 & -> & Hok1 & Hf1 & Hp).
  destruct p as [|[bs|e]]; [| |done].
  { destruct Hp as [Heq Hpat]. exists HPending, h, u1, []. rewrite app_nil_r. split_and!; try done. split_and!; try done. lia. }
  destruct Hp as (Heq & Hlen & Hend & Hpat). case_bool_decide as Hbs.
  { subst bs. specialize (Hend eq_refl). do 3 eexists. exists []. split; [reflexivity|]. rewrite Hend in Heq.
    split; [split_and!; try done; by rewrite Hend|]. rewrite app_nil_r.
    case_bool_decide as Hnil; [done|]. destruct h; [done|]. cbn [length] in *. split; [done | lia]. }
  assert (consumed u u1 bs) as Hc by done. assert (0 < length bs) as Hpos by (destruct bs; [done | cbn; lia]).
  destruct (decide (length (h ++ bs) < TLS_HEADER_SIZE)) as [Hlt|Hge].
  - destruct (IH (h ++ bs) u1 Hok1 ltac:(lia) ltac:(rewrite length_app; lia) Hlt) as (res & h' & u' & new & -> & Hc' & Hres).
    exists res, h', u', (bs ++ new). split; [done|]. split; [by eapply consumed_trans|]. rewrite app_assoc.
    destruct res; try done. destruct Hres as (? & ? & ?). destruct Hc as (_ & _ & _ & ?). split_and!; [done | done | lia].
  - rewrite length_app in Hge. exists (HComplete (header_parse (h ++ bs))), (h ++ bs), u1, bs. split_and!; try done.
    + destruct n; cbn [poll_read_header]; rewrite length_app, (proj2 (Nat.leb_le _ _)) by lia; done.
    + rewrite length_app. lia.
Qed.

Lemma body_live n fuel buf len u :
  source_ok below u -> fuel_need below u <= fuel -> len <= length buf + n ->
  length buf < len <= length buf + length (future below u) ->
  exists res buf' u' new, poll_read_body n fuel buf len u = Some (res, buf', u') /\ consumed u u' new /\
  match res with
  | BPending => buf' = buf ++ new /\ length buf' < len /\ patience below u' < patience below u
  | BComplete data => data = buf ++ new /\ length data = len
  | BError _ => False
  end.
Proof.
  revert buf u. induction n as [|n IH]; intros buf u Hok Hf Hn Hlen; [lia|]. cbn [poll_read_body].
  rewrite (proj2 (Nat.leb_gt _ _)) by lia.
  destruct (source_poll below fuel (Nat.min (len - length buf) BODY_CHUNK) u Hok Hf) as (p & u1 & -> & Hok1 & Hf1 & Hp).
  { assert (0 < BODY_CHUNK) by (apply Nat.ltb_lt; reflexivity). lia. }
  destruct p as [|[bs|e]]; [| |done].
  { destruct Hp as [Heq Hpat]. exists BPending, buf, u1, []. rewrite app_nil_r. split_and!; try done; [|lia]. split_and!; try done. lia. }
  destruct Hp as (Heq & Hl & Hend & Hpat). case_bool_decide as Hbs.
  { subst bs. rewrite (Hend eq_refl) in Hlen. cbn in Hlen. lia. }
  assert (consumed u u1 bs) as Hc by done. assert (0 < length bs) as Hpos by (destruct bs; [done | cbn; lia]).
  apply (f_equal length) in Heq. rewrite length_app in Heq.
  destruct (decide (length (buf ++ bs) < len)) as [Hlt|Hge].
  - destruct (IH (buf ++ bs) u1 Hok1 ltac:(lia) ltac:(rewrite length_app; lia) ltac:(rewrite length_app in *; lia))
      as (res & buf' & u' & new & -> & Hc' & Hres).
    exists res, buf', u', (bs ++ new). split; [done|]. split; [by eapply consumed_trans|]. rewrite app_assoc.
    destruct res; try done. destruct Hres as (? & ? & ?). destruct Hc as (_ & _ & _ & ?). split_and!; [done | done | lia].
  - rewrite length_app in Hge. exists (BComplete (buf ++ bs)), [], u1, bs. split_and!; try done.
    + destruct n; cbn [poll_read_body]; rewrite length_app, (proj2 (Nat.leb_le _ _)) by lia; done.
    + rewrite length_app. lia.
Qed.

Definition live_post (cap : nat) r (p : IoPoll (list Z)) r' : Prop :=
  tls_source_ok r' /\ length (future below (tr_upstream r')) <= length (future below (tr_upstream r)) /\
  fuel_need below (tr_upstream r') <= fuel_need below (tr_upstream r) /\
  match p with
  | Pending => tls_future r' = tls_future r /\ patience below (tr_upstream r') < patience below (tr_upstream r)
  | Ready (Ok bs) =>
      tls_future r = bs ++ tls_future r' /\ length bs <= cap /\ (bs = [] -> tls_future r = []) /\
      patience below (tr_upstream r') <= patience below (tr_upstream r)
  | Ready (Err _) => False
  end.

(** A round that leads to another state with the same data ahead. *)
Lemma live_post_trans cap r r1 new p r' :
  consumed (tr_upstream r) (tr_upstream r1) new -> tls_future r1 = tls_future r ->
  live_post cap r1 p r' -> live_post cap r p r'.
Proof.
  intros (_ & Hf & Heq & Hp) Hfut (Hok & Hl & Hf' & Hpost). apply (f_equal length) in Heq. rewrite length_app in Heq.
  split_and!; [done | lia | lia |]. rewrite Hfut in Hpost. destruct p as [|[bs|e]]; [| |done].
  - destruct Hpost. split; [done | lia].
  - destruct Hpost as (? & ? & ? & ?). split_and!; try done. lia.
Qed.

(** A round that ends the poll in a state with the same data ahead. *)
Lemma live_pending cap r r' new :
  consumed (tr_upstream r) (tr_upstream r') new -> patience below (tr_upstream r') < patience below (tr_upstream r) ->
  state_live (tr_state r') (future below (tr_upstream r')) -> tls_future r' = tls_future r -> live_post cap r Pending r'.
Proof.
  intros (Hok & Hf & Heq & _) Hp Hst Hfut. apply (f_equal length) in Heq. rewrite length_app in Heq.
  split_and!; [by split | lia | lia | done | done].
Qed.

Lemma recs_front h f recs :
  Forall stream_rec recs -> h ++ f = recs_bytes recs -> 0 < length (h ++ f) ->
  exists rc recs', recs = rc :: recs' /\ stream_rec rc /\ Forall stream_rec recs' /\ h ++ f = rc.1 ++ rc.2 ++ recs_bytes recs'.
Proof.
  intros Hr Heq Hl. destruct recs as [|rc recs]; [rewrite Heq in Hl; cbn in Hl; lia|].
  apply Forall_cons_1 in Hr as [Hr Hrs]. exists rc, recs. split_and!; try done. rewrite Heq.
  unfold recs_bytes. cbn [fmap list_fmap concat]. unfold rec_bytes. by rewrite <- app_assoc.
Qed.

(** A complete header of the stream, and the body that follows it. *)
Lemma header_found h f recs :
  Forall stream_rec recs -> h ++ f = recs_bytes recs -> length h = TLS_HEADER_SIZE ->
  let p := header_parse h in
  let len := Z.to_nat (rh_length p) in
  header_validate p = Ok tt /\ state_live (ReadingBody (rh_record_type p) len []) f /\
  tls_payload (h ++ f) = (if (rh_record_type p =? TLS_RECORD_APPLICATION)%Z then take len f else []) ++ tls_payload (drop len f).
Proof.
  intros Hr Heq Hl. destruct (recs_front h f recs Hr Heq) as (rc & recs' & -> & [(Hl1 & Hv & Hty & Hbl) Hna] & Hrs & Hsplit).
  { rewrite length_app, Hl. unfold TLS_HEADER_SIZE. lia. }
  apply app_inj_1 in Hsplit as [-> ->]; [|by rewrite Hl, Hl1]. cbv zeta. fold (rec_header rc) in *. rewrite <- Hbl.
  rewrite drop_app_length, take_app_length. pose proof (validate_length _ _ Hv) as Hpos.
  split_and!; [done | |].
  - cbn [state_live length]. rewrite Nat.sub_0_r, drop_app_length, length_app. split_and!; [lia | lia | | by eexists].
    destruct (Z.eq_dec (rh_record_type (rec_header rc)) TLS_RECORD_APPLICATION) as [->|]; [by left|].
    destruct (Z.eq_dec (rh_record_type (rec_header rc)) TLS_RECORD_CHANGE_CIPHER) as [->|]; [by right|].
    destruct Hty. by eapply validate_type.
  - rewrite app_assoc. change (rc.1 ++ rc.2) with (rec_bytes rc). rewrite tls_payload_rec; [done|]. by split_and!.
Qed.

Lemma header_live_step fuel cap h u :
  (forall r, tls_source_ok r -> tls_rounds r + fuel_need below (tr_upstream r) <= fuel ->
    exists p r', tls_poll_read fuel cap r = Some (p, r') /\ live_post cap r p r') ->
  tls_source_ok (mkTlsReader u (ReadingHeader h)) ->
  3 * length (future below u) + 2 + fuel_need below u <= S fuel ->
  exists p r', tls_poll_read (S fuel) cap (mkTlsReader u (ReadingHeader h)) = Some (p, r') /\
    live_post cap (mkTlsReader u (ReadingHeader h)) p r'.
Proof.
  intros IH [Hok (Hl & recs & Hrs & Heq)] Hf. cbn [tr_upstream tr_state tls_poll_read] in *.
  destruct (header_live TLS_HEADER_SIZE fuel h u Hok ltac:(lia) ltac:(lia) Hl) as (res & h' & u' & new & -> & Hc & Hres).
  pose proof Hc as (Hok' & Hf' & Hfu & Hpat). rewrite Hfu, app_assoc in Heq.
  destruct res as [| |parsed|e].
  - destruct Hres as (-> & Hlt & Hp). do 2 eexists. split; [reflexivity|].
    apply (live_pending _ _ _ new); try done; [by split; [|eexists]|].
    unfold tls_future. cbn [tr_state tr_upstream]. by rewrite Hfu, app_assoc.
  - destruct Hres as [Hnil Hend]. apply app_eq_nil in Hnil as [-> ->]. rewrite app_nil_l, Hend in Hfu. do 2 eexists. split; [reflexivity|].
    unfold live_post, tls_source_ok, tls_future. cbn [tr_upstream tr_state]. rewrite Hend, Hfu.
    split_and!; try done; [by exists [] | cbn; lia].
  - destruct Hres as [-> Hfull]. destruct (header_found (h ++ new) (future below u') recs Hrs Heq Hfull) as (Hv & Hlive & Hpay).
    rewrite Hv. cbv zeta in *. set (st := ReadingBody _ _ []) in *.
    assert (0 < length new) by (rewrite length_app in Hfull; lia). pose proof (f_equal length Hfu) as Hlen. rewrite length_app in Hlen.
    destruct (IH (mkTlsReader u' st)) as (p & r' & Hrun & Hpost); [by split | unfold tls_rounds, st; cbn [tr_state tr_upstream]; lia|].
    exists p, r'. split; [done|]. apply (live_post_trans cap _ (mkTlsReader u' st) new); [done | | done].
    unfold tls_future, st. cbn [tr_upstream tr_state app]. rewrite Hfu, app_assoc, Hpay, Nat.sub_0_r. done.
  - destruct Hres as [Hend Hsh]. exfalso. rewrite Hend in Heq.
    destruct (recs_front (h ++ new) [] recs Hrs Heq) as (r & recs' & -> & [(Hl1 & _) _] & _ & Hsplit); [rewrite app_nil_r; lia|].
    apply (f_equal length) in Hsplit. rewrite app_nil_r, !length_app, Hl1 in Hsplit. rewrite length_app in Hsh. lia.
Qed.

Lemma body_live_step fuel cap rt len buf u :
  (forall r, tls_source_ok r -> tls_rounds r + fuel_need below (tr_upstream r) <= fuel ->
    exists p r', tls_poll_read fuel cap r = Some (p, r') /\ live_post cap r p r') ->
  tls_source_ok (mkTlsReader u (ReadingBody rt len buf)) ->
  3 * length (future below u) + 2 + fuel_need below u <= S fuel ->
  exists p r', tls_poll_read (S fuel) cap (mkTlsReader u (ReadingBody rt len buf)) = Some (p, r') /\
    live_post cap (mkTlsReader u (ReadingBody rt len buf)) p r'.
Proof.
  intros IH [Hok (Hlen & Hrt & recs & Hrs & Heq)] Hf. cbn [tr_upstream tr_state tls_poll_read] in *.
  destruct (body_live len fuel buf len u Hok ltac:(lia) ltac:(lia) Hlen) as (res & buf' & u' & new & -> & Hc & Hres).
  pose proof Hc as (Hok' & Hf' & Hfu & Hpat). pose proof (f_equal length Hfu) as Hl. rewrite length_app in Hl.
  destruct res as [|data|e]; [| |done].
  - destruct Hres as (-> & Hlt & Hp). do 2 eexists. split; [reflexivity|]. rewrite length_app in Hlt.
    assert (drop (len - length buf) (future below u) = drop (len - length (buf ++ new)) (future below u')) as Hdrop.
    { rewrite Hfu, drop_app_ge by lia. f_equal. rewrite length_app. lia. }
    apply (live_pending _ _ _ new); try done; cbn [tr_upstream tr_state state_live]; unfold tls_future; cbn [tr_upstream tr_state].
    + rewrite <- Hdrop, length_app. split_and!; [lia | lia | done | by exists recs].
    + rewrite <- Hdrop. destruct (_ =? _)%Z; [|done]. f_equal. rewrite <- app_assoc. f_equal.
      rewrite Hfu, take_app_ge by lia. f_equal. f_equal. rewrite length_app. lia.
  - destruct Hres as [-> Hfull]. rewrite length_app in Hfull.
    assert (len - length buf = length new) as Hnew by lia. rewrite Hnew, Hfu, drop_app_length in Heq.
    assert (forall st, state_live st (future below u') -> tls_rounds (mkTlsReader u' st) + fuel_need below u' <= fuel ->
      tls_future (mkTlsReader u' st) = tls_future (mkTlsReader u (ReadingBody rt len buf)) ->
      exists p r', tls_poll_read fuel cap (mkTlsReader u' st) = Some (p, r') /\
        live_post cap (mkTlsReader u (ReadingBody rt len buf)) p r') as Hnext.
    { intros st Hst Hr Hfut. destruct (IH (mkTlsReader u' st)) as (p & r' & Hrun & Hpost); [by split | done|].
      exists p, r'. split; [done|]. by apply (live_post_trans cap _ (mkTlsReader u' st) new). }
    assert (buf ++ new <> []) as Hne by (intros E; apply (f_equal length) in E; rewrite length_app in E; cbn in E; lia).
    unfold tls_future in Hnext. cbn [tr_state tr_upstream] in Hnext.
    rewrite Hnew, Hfu, take_app_length, drop_app_length in Hnext.
    destruct Hrt as [-> | ->]; cbn [Z.eqb Pos.eqb TLS_RECORD_APPLICATION TLS_RECORD_CHANGE_CIPHER] in *.
    + rewrite bool_decide_false by done. apply Hnext; [by split; [|exists recs] | cbn; lia | done].
    + apply Hnext; [by exists recs | unfold tls_rounds; cbn [tr_state tr_upstream]; lia | done].
Qed.

Lemma yield_live_step cap y u :
  tls_source_ok (mkTlsReader u (Yielding y)) -> 0 < cap ->
  let '(bs, y') := yield_copy_to (Nat.min (yield_remaining y) cap) y in
  live_post cap (mkTlsReader u (Yielding y)) (Ready (Ok bs))
    (mkTlsReader u (if yield_is_empty y' then ReaderIdle else Yielding y')).
Proof.
  intros [Hok (Hne & recs & Hrs & Heq)] Hcap. pose proof (yield_copy_spec (Nat.min (yield_remaining y) cap) y) as Hc.
  rewrite <- yield_remaining_slice in *. destruct (yield_copy_to _ y) as [bs y']. destruct Hc as [Hsl Hlen].
  cbn [tr_upstream tr_state] in *. unfold live_post, tls_source_ok, tls_future. cbn [tr_upstream tr_state].
  assert (bs <> []) as Hbs. { intros ->. destruct (yield_as_slice y); [done|]. cbn [length] in Hlen. lia. }
  rewrite Hsl, <- app_assoc. destruct (yield_is_empty y') eqn:Hemp; cbn [state_live].
  - apply yield_empty in Hemp. rewrite Hemp. split_and!; try done; [by exists recs | lia].
  - assert (yield_as_slice y' <> []) by (rewrite <- yield_empty; congruence).
    split_and!; try done; [by exists recs | lia].
Qed.

Lemma tls_poll_live fuel cap r :
  tls_source_ok r -> 0 < cap -> tls_rounds r + fuel_need below (tr_upstream r) <= fuel ->
  exists p r', tls_poll_read fuel cap r = Some (p, r') /\ live_post cap r p r'.
Proof.
  intros Hr Hcap. revert r Hr. induction fuel as [|fuel IH]; intros [u st] Hr Hf.
  { unfold tls_rounds in Hf. destruct st; cbn in Hf; lia. }
  unfold tls_rounds in Hf. destruct st as [|h|rt len buf|y|e]; cbn [tr_state tr_upstream] in Hf.
  - cbn [tls_poll_read tr_state tr_upstream]. rewrite (proj2 (Nat.eqb_neq cap 0)) by lia.
    destruct (IH (mkTlsReader u (ReadingHeader []))) as (p & r' & Hrun & Hpost).
    + destruct Hr as [Hok Hl]. split; [done|]. split; [cbn; unfold TLS_HEADER_SIZE; lia | done].
    + unfold tls_rounds. cbn [tr_state tr_upstream]. lia.
    + exists p, r'. split; [done|]. apply (live_post_trans cap _ (mkTlsReader u (ReadingHeader [])) []); try done.
      split_and!; try done. apply Hr.
  - by apply header_live_step.
  - by apply body_live_step.
  - cbn [tls_poll_read tr_state tr_upstream]. rewrite (proj2 (Nat.eqb_neq cap 0)) by lia.
    pose proof (yield_live_step cap y u Hr Hcap) as Hy. destruct (yield_copy_to _ y) as [bs y']. by do 2 eexists.
  - by destruct Hr.
Qed.

Lemma tls_source_poll fuel cap r :
  tls_source_ok r -> tls_fuel r <= fuel -> 0 < cap ->
  exists p r', poll_read fuel cap r = Some (p, r') /\ tls_source_ok r' /\ tls_fuel r' <= tls_fuel r /\
  match p with
  | Pending => tls_future r' = tls_future r /\ patience below (tr_upstream r') < patience below (tr_upstream r)
  | Ready (Ok bs) =>
      tls_future r = bs ++ tls_future r' /\ length bs <= cap /\ (bs = [] -> tls_future r = []) /\
      patience below (tr_upstream r') <= patience below (tr_upstream r)
  | Ready (Err _) => False
  end.
Proof.
  intros Hok Hf Hcap. unfold tls_fuel in Hf. destruct (tls_poll_live fuel cap r Hok Hcap) as (p & r' & Hrun & Hok' & Hl & Hn & Hp).
  { unfold tls_rounds. destruct (tr_state r); lia. }
  exists p, r'. split_and!; try done. unfold tls_fuel. lia.
Qed.

Definition tls_source : SourceSpec (FakeTlsReader R) :=
  mkSourceSpec tls_future (fun r => patience below (tr_upstream r)) tls_fuel tls_source_ok tls_source_poll.
End tls.

Section crypto.
Context {R : Type} `{AsyncRead R} `{StreamKey} (below : SourceSpec R).
Implicit Types (r : CryptoReader R).

Definition crypto_future r : list Z := (ctr_apply (future below (cr_upstream r)) (cr_decryptor r)).1.
Definition crypto_source_ok r : Prop := source_ok below (cr_upstream r) /\ cr_state r = CrIdle.

Lemma crypto_source_poll fuel cap r :
  crypto_source_ok r -> fuel_need below (cr_upstream r) <= fuel -> 0 < cap ->
  exists p r', poll_read fuel cap r = Some (p, r') /\ crypto_source_ok r' /\
    fuel_need below (cr_upstream r') <= fuel_need below (cr_upstream r) /\
  match p with
  | Pending => crypto_future r' = crypto_future r /\ patience below (cr_upstream r') < patience below (cr_upstream r)
  | Ready (Ok bs) =>
      crypto_future r = bs ++ crypto_future r' /\ length bs <= cap /\ (bs = [] -> crypto_future r = []) /\
      patience below (cr_upstream r') <= patience below (cr_upstream r)
  | Ready (Err _) => False
  end.
Proof.
  intros [Hok Hst] Hf Hcap. unfold poll_read, crypto_read, crypto_poll_read, crypto_future. rewrite Hst.
  rewrite (proj2 (Nat.eqb_neq cap 0)) by lia.
  destruct (source_poll below fuel cap (cr_upstream r) Hok Hf Hcap) as (p & u & -> & Hok' & Hf' & Hp).
  destruct p as [|[bs|e]]; [| |done].
  - destruct Hp as [Heq Hlt]. do 2 eexists. split; [reflexivity|]. cbn [cr_upstream cr_decryptor]. by rewrite Heq.
  - destruct Hp as (Heq & Hl & Hend & Hpat). case_bool_decide as Hbs.
    + subst bs. rewrite (Hend eq_refl) in *. do 2 eexists. split; [reflexivity|]. cbn [cr_upstream cr_decryptor].
      cbn [app] in Heq. rewrite <- Heq. by split_and!.
    + rewrite Heq, ctr_apply_app. pose proof (length_ctr_apply bs (cr_decryptor r)) as Hlen.
      destruct (ctr_apply bs (cr_decryptor r)) as [plain c]. cbn [fst] in Hlen. do 2 eexists. split; [reflexivity|].
      cbn [cr_upstream cr_decryptor fst snd]. split_and!; try done; [lia|].
      intros ->. destruct bs; [done | cbn in Hlen; lia].
Qed.

Definition crypto_source : SourceSpec (CryptoReader R) :=
  mkSourceSpec crypto_future (fun r => patience below (cr_upstream r)) (fun r => fuel_need below (cr_upstream r))
    crypto_source_ok crypto_source_poll.
End crypto.
