(* ===== verification/StreamRun.v ===== *)
(** Whole runs of a connection's layers: sequences of calls on a writer and of
    polls on a reader, and the two stacks of the proxy, encryption over records
    over a socket. *)

From stdpp Require Import base list numbers.
From S2P Require Import Prelude Aes Tls Stream TlsStream TlsStreamInv CryptoStream CryptoStreamInv StreamLive.
Local Open Scope nat_scope.

(** * Runs of a writer *)

Inductive WriteCall := CallWrite (buf : list Z) | CallFlush.

(** The bytes a call accepted and whether it was a completed flush; [None] if
    it failed. *)
Definition exec_call {W : Type} `{AsyncWrite W} (c : WriteCall) (w : W) : option (list Z * bool * W) :=
  match c with
  | CallWrite buf =>
      match poll_write buf w with
      | (Pending, w) => Some ([], false, w)
      | (Ready (Ok n), w) => Some (take n buf, false, w)
      | (Ready (Err _), _) => None
      end
  | CallFlush =>
      match poll_flush w with
      | (Pending, w) => Some ([], false, w)
      | (Ready (Ok _), w) => Some ([], true, w)
      | (Ready (Err _), _) => None
      end
  end.

(** A run, with the outcome of its last call. *)
Fixpoint run_calls {W : Type} `{AsyncWrite W} (cs : list WriteCall) (flushed : bool) (w : W) : option (list Z * bool * W) :=
  match cs with
  | [] => Some ([], flushed, w)
  | c :: cs =>
      match exec_call c w with
      | None => None
      | Some (out, flushed, w) =>
          match run_calls cs flushed w with
          | None => None
          | Some (rest, flushed, w) => Some (out ++ rest, flushed, w)
          end
      end
  end.

Section writes.
Context {W : Type} `{AsyncWrite W} (spec : WriterSpec W).

Lemma exec_call_spec c w out fl w' :
  writer_ok spec w -> exec_call c w = Some (out, fl, w') ->
  writer_ok spec w' /\ accepted spec w' = accepted spec w ++ out /\ (fl = true -> settled spec w').
Proof.
  intros Hw. destruct c as [buf|]; cbn [exec_call].
  - destruct (poll_write buf w) as [[|[n|e]] w1] eqn:Hp; intros [= <- <- <-];
      destruct (poll_write_spec spec _ _ _ _ Hw Hp) as [Hw1 Ha].
    + by rewrite app_nil_r.
    + by destruct Ha.
  - destruct (poll_flush w) as [[|[n|e]] w1] eqn:Hp; intros [= <- <- <-];
      destruct (poll_flush_spec spec _ _ _ Hw Hp) as [Hw1 Ha]; rewrite app_nil_r; [done|].
    by destruct Ha.
Qed.

Lemma run_calls_spec cs fl w out fl' w' :
  writer_ok spec w -> (fl = true -> settled spec w) -> run_calls cs fl w = Some (out, fl', w') ->
  writer_ok spec w' /\ accepted spec w' = accepted spec w ++ out /\ (fl' = true -> settled spec w').
Proof.
  revert fl w out. induction cs as [|c cs IH]; intros fl w out Hw Hfl; cbn [run_calls].
  { intros [= <- <- <-]. by rewrite app_nil_r. }
  destruct (exec_call c w) as [[[o1 f1] w1]|] eqn:Hc; [|done].
  destruct (exec_call_spec _ _ _ _ _ Hw Hc) as (Hw1 & Ha1 & Hf1).
  destruct (run_calls cs f1 w1) as [[[o2 f2] w2]|] eqn:Hr; [|done]. intros [= <- <- <-].
  destruct (IH _ _ _ Hw1 Hf1 Hr) as (Hw2 & Ha2 & Hf2). split_and!; [done | | done]. by rewrite Ha2, Ha1, app_assoc.
Qed.
End writes.

(** * Runs of a reader *)

(** Polls with the given buffer sizes, and the bytes they returned; pending
    polls and errors return none. *)
Fixpoint run_polls {R : Type} `{AsyncRead R} (fuel : nat) (caps : list nat) (r : R) : option (list Z * R) :=
  match caps with
  | [] => Some ([], r)
  | cap :: caps =>
      match poll_read fuel cap r with
      | None => None
      | Some (p, r) =>
          match run_polls fuel caps r with
          | None => None
          | Some (rest, r) => Some (match p with Ready (Ok bs) => bs | _ => [] end ++ rest, r)
          end
      end
  end.

Lemma run_polls_spec {R : Type} `{AsyncRead R} (spec : ReaderSpec R) fuel caps r got r' :
  reader_ok spec r -> run_polls fuel caps r = Some (got, r') ->
  reader_ok spec r' /\ delivered spec r' = delivered spec r ++ got.
Proof.
  revert r got. induction caps as [|cap caps IH]; intros r got Hr; cbn [run_polls].
  { intros [= <- <-]. by rewrite app_nil_r. }
  destruct (poll_read fuel cap r) as [[p r1]|] eqn:Hp; [|done].
  destruct (poll_read_spec spec _ _ _ _ _ Hr Hp) as [Hr1 Hd].
  destruct (run_polls fuel caps r1) as [[rest r2]|] eqn:Hrun; [|done]. intros [= <- <-].
  destruct (IH _ _ Hr1 Hrun) as [Hr2 Hd2]. split; [done|]. rewrite Hd2.
  destruct p as [|[bs|e]]; [by rewrite Hd | | by rewrite Hd]. destruct Hd as [_ ->]. by rewrite app_assoc.
Qed.

(** * Cut streams *)

(** A stream cut anywhere carries a prefix of the data. *)
Lemma payload_cut recs d :
  Forall rec_ok recs -> d `prefix_of` recs_bytes recs -> tls_payload d `prefix_of` recs_payload recs.
Proof.
  intros Hrecs. revert d. induction Hrecs as [|r recs Hr _ IH]; intros d [k Hk].
  { symmetry in Hk. apply app_eq_nil in Hk as [-> ->]. done. }
  unfold recs_bytes, recs_payload in *. cbn [fmap list_fmap concat] in *.
  destruct (decide (length (rec_bytes r) <= length d)) as [Hle|Hgt].
  - assert (d = rec_bytes r ++ drop (length (rec_bytes r)) d) as Hd.
    { rewrite <- (take_drop (length (rec_bytes r)) d) at 1. f_equal.
      apply (f_equal (take (length (rec_bytes r)))) in Hk. rewrite take_app_length, take_app_le in Hk by done. done. }
    rewrite Hd, tls_payload_rec by done. apply prefix_app. apply IH. exists k. rewrite Hd, <- app_assoc in Hk. by apply app_inv_head in Hk.
  - enough (no_record d) as -> by apply prefix_nil. destruct Hr as (Hl & _ & _ & Hb). unfold rec_bytes in *. rewrite length_app in Hgt.
    destruct (decide (length d < TLS_HEADER_SIZE)); [by apply no_record_short|].
    assert (d = r.1 ++ drop TLS_HEADER_SIZE d) as Hd.
    { rewrite <- (take_drop TLS_HEADER_SIZE d) at 1. f_equal. apply (f_equal (take TLS_HEADER_SIZE)) in Hk.
      rewrite <- app_assoc, <- Hl, take_app_length, take_app_le in Hk by lia. by rewrite <- Hl. }
    rewrite Hd. apply no_record_header; [done|]. right; right. rewrite length_drop. unfold rec_header in Hb. lia.
Qed.

Lemma ctr_prefix `{StreamKey} a b c : a `prefix_of` b -> (ctr_apply a c).1 `prefix_of` (ctr_apply b c).1.
Proof. intros [k ->]. rewrite ctr_apply_app. by apply prefix_app_r. Qed.

(** * The stacks *)

(** A socket that delivers the given bytes, whatever its script. *)
Lemma carrying_poll_read data fuel cap (r : ReadSocket) p r' :
  rs_log r ++ script_data (rs_script r) = data -> poll_read fuel cap r = Some (p, r') ->
  rs_log r' ++ script_data (rs_script r') = data /\
  match p with
  | Ready (Ok bs) => length bs <= cap /\ rs_log r' = rs_log r ++ bs
  | _ => rs_log r' = rs_log r
  end.
Proof.
  intros Ht Hp. split; [|by eapply socket_poll_read]. revert Hp. unfold poll_read, socket_read in *.
  destruct r as [script log]. cbn [rs_script rs_log] in *.
  destruct script as [|[|e|bs] s]; intros [= <- <-]; cbn [rs_script rs_log] in *; try done.
  rewrite <- Ht. unfold script_data. cbn [fmap list_fmap concat]. rewrite <- app_assoc. f_equal.
  pose proof (take_drop cap bs) as Htd. case_bool_decide as Hd; cbn [fmap list_fmap concat].
  - rewrite Hd, app_nil_r in Htd. by rewrite Htd.
  - by rewrite app_assoc, Htd.
Qed.

Definition carrying_spec (data : list Z) : ReaderSpec ReadSocket :=
  mkReaderSpec rs_log (fun r => rs_log r ++ script_data (rs_script r) = data) (carrying_poll_read data).

Lemma socket_left_data (r : ReadSocket) : socket_left r = length (script_data (rs_script r)).
Proof.
  unfold socket_left, script_data. induction (rs_script r) as [|e s IH]; [done|].
  cbn [foldr fmap list_fmap concat]. rewrite length_app, IH. by destruct e.
Qed.

Section stacks.
Context `{StreamKey}.

Definition WriteStack : Type := CryptoWriter (FakeTlsWriter WriteSocket).
Definition ReadStack : Type := CryptoReader (FakeTlsReader ReadSocket).

(** The writing end of a connection: its record profile and seed, its cipher and
    its limit on pending ciphertext. *)
Definition write_stack (script : list WriteEvent) (profile : TlsRecordProfile) (seed : Z) (c : AesCtr) (max : nat) : WriteStack :=
  crypto_writer_new (tls_writer_with_profile (mkWriteSocket script []) profile seed) c max.

Definition read_stack (script : list ReadEvent) (c : AesCtr) : ReadStack :=
  crypto_reader_new (tls_reader_new (mkReadSocket script [])) c.

(** The bytes on the wire. *)
Definition wire (w : WriteStack) : list Z := wr_log (tw_upstream (cw_upstream w)).

Definition write_stack_spec (c : AesCtr) : WriterSpec WriteStack :=
  crypto_writer_spec (tls_writer_spec socket_writer_spec 0) 0 c.
Definition read_stack_spec (data : list Z) (c : AesCtr) : ReaderSpec ReadStack :=
  crypto_reader_spec (tls_reader_spec (carrying_spec data) 0) 0 c.
Definition read_stack_source : SourceSpec ReadStack := crypto_source (tls_source socket_source).

Lemma write_stack_ok script profile seed c max :
  writer_ok (write_stack_spec c) (write_stack script profile seed c max) /\
  accepted (write_stack_spec c) (write_stack script profile seed c max) = [].
Proof.
  pose proof (tls_writer_new_inv socket_writer_spec 0 (mkWriteSocket script []) profile seed I eq_refl) as Ht.
  pose proof (crypto_writer_new_inv (tls_writer_spec socket_writer_spec 0) 0 c
    (tls_writer_with_profile (mkWriteSocket script []) profile seed) max (ex_intro _ [] Ht)) as Hc.
  assert (length (accepted (tls_writer_spec socket_writer_spec 0) (tls_writer_with_profile (mkWriteSocket script []) profile seed)) = 0) as H0.
  { cbn [accepted tls_writer_spec]. by rewrite (writer_inv_accepted _ _ _ _ Ht). }
  specialize (Hc H0). split; [by exists []|]. by apply (crypto_inv_accepted _ _ _ _ _ Hc).
Qed.

Lemma read_stack_ok script c :
  reader_ok (read_stack_spec (script_data script) c) (read_stack script c) /\
  delivered (read_stack_spec (script_data script) c) (read_stack script c) = [].
Proof.
  pose proof (tls_reader_new_inv (carrying_spec (script_data script)) 0 (mkReadSocket script []) eq_refl eq_refl) as Ht.
  split; [|done]. apply crypto_reader_new_inv; [by exists []|]. cbn [delivered tls_reader_spec].
  by rewrite (reader_inv_delivered _ _ _ _ Ht).
Qed.

(** What a reading stack has returned: the decrypted start of the data in its
    records. *)
Lemma read_stack_received data c (r : ReadStack) recs :
  reader_ok (read_stack_spec data c) r -> Forall rec_ok recs -> data `prefix_of` recs_bytes recs ->
  exists got, got `prefix_of` recs_payload recs /\ delivered (read_stack_spec data c) r = (ctr_apply got c).1.
Proof.
  intros (Htls & _) Hrecs Hcut. eexists. split; [|reflexivity]. unfold arrived. rewrite drop_0. cbn [delivered tls_reader_spec].
  unfold tls_delivered. etrans; [apply prefix_take|]. apply payload_cut; [done|]. etrans; [|exact Hcut].
  unfold arrived. rewrite drop_0. destruct Htls as [out [Hdata _]]. cbn [reader_ok carrying_spec] in Hdata.
  eexists. symmetry. exact Hdata.
Qed.

(** A poll of a reading stack always returns. *)
Lemma read_stack_returns data c fuel cap (r : ReadStack) :
  reader_ok (read_stack_spec data c) r -> 3 * length data + 3 <= fuel ->
  exists p r', poll_read fuel cap r = Some (p, r').
Proof.
  intros ([out Ht] & _) Hf. pose proof Ht as (Hdata & _ & recs & rest & _ & _ & _ & Hst).
  apply (f_equal length) in Hdata. rewrite length_app, <- socket_left_data in Hdata.
  destruct (tls_poll_read_total socket_left socket_answers fuel cap (cr_upstream r)) as (p & r' & Hp).
  { unfold rounds. destruct (tr_state _); lia. }
  { destruct (tr_state _) as [|h|rt len buf|y|e]; try done; [apply Hst|]. by destruct Hst as (hb & _ & _ & _ & _ & _ & ?). }
  unfold poll_read, crypto_read, crypto_poll_read. unfold poll_read, tls_read. rewrite Hp.
  destruct (cr_state r); [| |by do 2 eexists]; (destruct (cap =? 0); [by do 2 eexists|]).
  - destruct p as [|[bs|e]]; try (by do 2 eexists). case_bool_decide; [by do 2 eexists|].
    destruct (ctr_apply bs _). by do 2 eexists.
  - destruct (yield_copy_to _ _). by do 2 eexists.
Qed.

Lemma run_calls_max cs fl (w : WriteStack) out fl' w' :
  run_calls cs fl w = Some (out, fl', w') -> cw_max_pending_write w' = cw_max_pending_write w.
Proof.
  revert fl w out. induction cs as [|c cs IH]; intros fl w out; cbn [run_calls]; [by intros [= <- <- <-]|].
  destruct (exec_call c w) as [[[o1 f1] w1]|] eqn:Hc; [|done].
  destruct (run_calls cs f1 w1) as [[[o2 f2] w2]|] eqn:Hr; [|done]. intros [= <- <- <-]. rewrite (IH _ _ _ Hr).
  destruct c as [buf|]; cbn [exec_call] in Hc.
  - assert (cw_max_pending_write (poll_write buf w).2 = cw_max_pending_write w) as Hm by apply crypto_poll_write_max.
    by destruct (poll_write buf w) as [[|[n|e]] ?]; simplify_eq/=.
  - assert (cw_max_pending_write (poll_flush w).2 = cw_max_pending_write w) as Hm by apply crypto_poll_flush_max.
    by destruct (poll_flush w) as [[|[n|e]] ?]; simplify_eq/=.
Qed.

(** What a writing stack has put on the wire: the start of the records of the
    ciphertext of what it accepted; all of them once it is settled. *)
Lemma write_stack_wire c (w : WriteStack) :
  writer_ok (write_stack_spec c) w ->
  exists recs tail, Forall data_rec recs /\ recs_bytes recs = wire w ++ tail /\
    recs_payload recs `prefix_of` (ctr_apply (accepted (write_stack_spec c) w) c).1 /\
    (settled (write_stack_spec c) w -> tail = [] /\ recs_payload recs = (ctr_apply (accepted (write_stack_spec c) w) c).1).
Proof.
  intros (out & Hc). pose proof Hc as ([tout Ht] & _ & _ & _ & Hcipher).
  cbn [accepted write_stack_spec crypto_writer_spec]. rewrite (crypto_inv_accepted _ _ _ _ _ Hc), <- Hcipher.
  unfold written. cbn [accepted tls_writer_spec]. rewrite (writer_inv_accepted _ _ _ _ Ht), drop_0.
  destruct Ht as (_ & _ & _ & recs & Hrecs & Hw & Hpay). exists recs, (held (cw_upstream w)).
  unfold written in Hw. rewrite drop_0 in Hw. cbn [accepted socket_writer_spec] in Hw.
  split_and!; [done | by rewrite <- Hw | rewrite Hpay; by apply prefix_app_r|].
  intros [Hcs [Hts _]]. unfold held, ciphertext_held. by rewrite Hcs, Hts, app_nil_r.
Qed.

Lemma recs_payload_length recs : length (recs_payload recs) <= length (recs_bytes recs).
Proof.
  unfold recs_payload, recs_bytes. induction recs as [|r recs IH]; [done|]. cbn [fmap list_fmap concat].
  rewrite !length_app. unfold rec_payload at 1, record_payload, rec_bytes at 1. rewrite length_app.
  destruct (_ =? _)%Z; cbn [length]; lia.
Qed.

(** A reading stack on the bytes of a settled writing stack. *)
Lemma read_stack_carries c (w : WriteStack) script :
  writer_ok (write_stack_spec c) w -> settled (write_stack_spec c) w -> Forall live_event script -> script_data script = wire w ->
  source_ok read_stack_source (read_stack script c) /\
  future read_stack_source (read_stack script c) = accepted (write_stack_spec c) w /\
  fuel_need read_stack_source (read_stack script c) = 3 * length (wire w) + 3 /\
  length (accepted (write_stack_spec c) w) <= length (wire w).
Proof.
  intros Hok Hset Hlive Hdata. destruct (write_stack_wire c w Hok) as (recs & tail & Hrecs & Hbytes & _ & Hall).
  destruct (Hall Hset) as [-> Hpay]. rewrite app_nil_r in Hbytes.
  assert (Forall stream_rec recs) as Hstream.
  { eapply Forall_impl; [|exact Hrecs]. intros r [Hr Hty]. split; [done|]. by rewrite Hty. }
  split_and!.
  - split; [|done]. split; [done|]. exists recs. split; [done|]. by rewrite Hbytes, <- Hdata.
  - change ((ctr_apply (tls_payload (script_data script)) c).1 = accepted (write_stack_spec c) w).
    rewrite Hdata, <- Hbytes, stream_recs_payload, Hpay by done. apply ctr_apply_twice.
  - change (3 * length (script_data script) + 3 + 0 = 3 * length (wire w) + 3). rewrite Hdata. lia.
  - rewrite <- Hbytes, <- (length_ctr_apply _ c), <- Hpay. apply recs_payload_length.
Qed.
End stacks.
