(* ===== verification/StreamProps.v ===== *)
(** The connection's tunnel: what one end writes through encryption and records
    is what the other end reads, and neither end blows up on the way. *)

From stdpp Require Import base list numbers.
From S2P Require Import Prelude Aes Tls Stream TlsStream TlsStreamInv CryptoStream CryptoStreamInv StreamLive StreamRun.
Local Open Scope nat_scope.

(** * Instances used by the examples *)

#[local] Instance demo_stream : StreamKey := fun key iv n => ((iv + Z.of_nat n * 37) mod 256)%Z.

Definition demo_cipher_state : AesCtr := aes_ctr_new [1; 2]%Z 9.
Definition demo_calls : list WriteCall := [CallWrite [1; 2; 3]%Z; CallFlush; CallWrite [4; 5]%Z; CallFlush; CallFlush; CallFlush].
Definition demo_sent : list WriteEvent := [WAccept 2; WPending; WPending; WAccept 4; WPending].

Definition demo_writer : WriteStack := write_stack demo_sent Chrome 7 demo_cipher_state 5.
Definition demo_out : list Z * bool * WriteStack := default ([], false, demo_writer) (run_calls demo_calls false demo_writer).
Definition demo_wire : list Z := Eval vm_compute in wire demo_out.2.

Section tunnel.
Context `{StreamKey}.

(** C7: the tunnel is transparent.  Let one end make any sequence of writes and
    flushes through the encrypting and the record writer, over a socket that takes
    any number of bytes at a time or none, until a flush completes.  However the
    bytes on the wire then reach the other end, in any chunks with any number of
    pending polls in between, reading there until the end returns exactly the
    bytes the writes accepted. *)
Theorem tunnel_delivers cs sent profile seed c max out (w : WriteStack) script n fuel cap :
  run_calls cs false (write_stack sent profile seed c max) = Some (out, true, w) ->
  Forall live_event script -> script_data script = wire w ->
  0 < cap -> 3 * length (wire w) + 3 <= fuel -> length out + script_pauses script < n ->
  exists r, drain n fuel cap (read_stack script c) = Some (Ok out, r).
Proof.
  intros Hrun Hlive Hdata Hcap Hfuel Hn. destruct (write_stack_ok sent profile seed c max) as [Hok Hnil].
  destruct (run_calls_spec (write_stack_spec c) _ _ _ _ _ _ Hok ltac:(done) Hrun) as (Hok' & Hacc & Hset).
  rewrite Hnil, app_nil_l in Hacc.
  destruct (read_stack_carries c w script Hok' (Hset eq_refl) Hlive Hdata) as (Hsrc & Hfut & Hneed & _). rewrite Hacc in Hfut.
  destruct (drain_future read_stack_source n fuel cap (read_stack script c) Hsrc) as [r Hr]; [lia | done | by rewrite Hfut |].
  exists r. by rewrite <- Hfut.
Qed.

(** Nothing is invented, reordered or lost in between.  Whatever the writing
    end has done so far, cut its bytes anywhere and let the reading end's socket
    deliver them in any way, with pauses and errors: what the polls there have
    returned is a prefix of what the writes accepted. *)
Theorem tunnel_prefix cs sent profile seed c max out flushed (w : WriteStack) script fuel caps got (r : ReadStack) :
  run_calls cs false (write_stack sent profile seed c max) = Some (out, flushed, w) ->
  script_data script `prefix_of` wire w ->
  run_polls fuel caps (read_stack script c) = Some (got, r) ->
  got `prefix_of` out.
Proof.
  intros Hrun Hcut Hread. destruct (write_stack_ok sent profile seed c max) as [Hok Hnil].
  destruct (run_calls_spec (write_stack_spec c) _ _ _ _ _ _ Hok ltac:(done) Hrun) as (Hok' & Hacc & _).
  destruct (write_stack_wire c w Hok') as (recs & tail & Hrecs & Hbytes & Hpay & _). rewrite Hacc, Hnil, app_nil_l in Hpay.
  destruct (read_stack_ok script c) as [Hr Hr0].
  destruct (run_polls_spec _ _ _ _ _ _ Hr Hread) as [Hr' Hgot]. rewrite Hr0, app_nil_l in Hgot. rewrite <- Hgot.
  destruct (read_stack_received _ c r recs Hr') as (cipher & Hcipher & ->).
  - eapply Forall_impl; [|exact Hrecs]. by intros ? [? _].
  - etrans; [exact Hcut | by exists tail].
  - rewrite <- (ctr_apply_twice out c). apply ctr_prefix. by etrans.
Qed.

(** A poll of the reading end always returns.  For any bytes and any behaviour
    of the socket, malformed records and errors included, every one of any number
    of polls answers; three rounds per byte and three more are enough. *)
Theorem stack_polls_return c script caps fuel :
  3 * length (script_data script) + 3 <= fuel ->
  exists got r, run_polls fuel caps (read_stack script c) = Some (got, r).
Proof.
  intros Hf. destruct (read_stack_ok script c) as [Hr _]. revert Hr. generalize (read_stack script c).
  induction caps as [|cap caps IH]; intros r Hr; cbn [run_polls]; [by do 2 eexists|].
  destruct (read_stack_returns _ _ fuel cap r Hr Hf) as (p & r1 & Hp). rewrite Hp.
  destruct (poll_read_spec _ _ _ _ _ _ Hr Hp) as [Hr1 _]. destruct (IH r1 Hr1) as (got & r2 & ->). by do 2 eexists.
Qed.

(** What the writing end holds back is bounded.  After any calls over any
    socket, the encrypting writer keeps at most its limit of ciphertext and the
    record writer at most one record, and the bytes on the wire with the record
    held back are whole records of application data. *)
Theorem stack_memory_bounded cs sent profile seed c max out flushed (w : WriteStack) :
  run_calls cs false (write_stack sent profile seed c max) = Some (out, flushed, w) ->
  length (ciphertext_held w) <= Nat.max (if max =? 0 then DEFAULT_MAX_PENDING_WRITE else max) MIN_PENDING_WRITE /\
  length (held (cw_upstream w)) <= TLS_HEADER_SIZE + MAX_TLS_PAYLOAD /\
  exists recs, Forall data_rec recs /\ wire w ++ held (cw_upstream w) = recs_bytes recs.
Proof.
  intros Hrun. destruct (write_stack_ok sent profile seed c max) as [Hok _].
  destruct (run_calls_spec (write_stack_spec c) _ _ _ _ _ _ Hok ltac:(done) Hrun) as ((o & Ht & _ & Hst & _) & _ & _).
  split_and!.
  - change (length (ciphertext_held w) <= cw_max_pending_write (write_stack sent profile seed c max)).
    rewrite <- (run_calls_max _ _ _ _ _ _ Hrun).
    unfold ciphertext_held. destruct (cw_state w) as [|p|e]; [cbn; lia | | done]. destruct Hst as [[_ Hl] <-].
    by rewrite <- pending_len_slice.
  - by apply (held_bounded socket_writer_spec 0).
  - destruct Ht as (t & _ & _ & _ & recs & Hrecs & Hw & _). exists recs. split; [done|].
    unfold written in Hw. by rewrite drop_0 in Hw.
Qed.
End tunnel.

Lemma demo_run : run_calls demo_calls false demo_writer = Some ([1; 2; 3; 4; 5]%Z, true, demo_out.2).
Proof. vm_compute. reflexivity. Qed.

Definition demo_script : list ReadEvent := [RData (take 3 demo_wire); RPending; RData (drop 3 demo_wire)].

Lemma tunnel_delivers_witness :
  exists r, drain 7 60 2 (read_stack demo_script demo_cipher_state) = Some (Ok [1; 2; 3; 4; 5]%Z, r).
Proof.
  apply (tunnel_delivers demo_calls demo_sent Chrome 7 demo_cipher_state 5 [1; 2; 3; 4; 5]%Z demo_out.2 demo_script 7 60 2 demo_run).
  - repeat constructor; done.
  - vm_compute. reflexivity.
  - lia.
  - apply Nat.leb_le. vm_compute. reflexivity.
  - apply Nat.leb_le. vm_compute. reflexivity.
Defined.

Definition demo_cut : list ReadEvent := [RData (take 7 demo_wire); RError TimedOut].

Definition demo_read : list Z * ReadStack :=
  default ([], read_stack demo_cut demo_cipher_state) (run_polls 60 [2; 2; 2] (read_stack demo_cut demo_cipher_state)).

Lemma tunnel_prefix_witness :
  run_polls 60 [2; 2; 2] (read_stack demo_cut demo_cipher_state) = Some demo_read /\ demo_read.1 `prefix_of` [1; 2; 3; 4; 5]%Z.
Proof.
  assert (run_polls 60 [2; 2; 2] (read_stack demo_cut demo_cipher_state) = Some (demo_read.1, demo_read.2)) as Hread
    by (vm_compute; reflexivity).
  split; [vm_compute; reflexivity|].
  apply (tunnel_prefix demo_calls demo_sent Chrome 7 demo_cipher_state 5 _ true demo_out.2 demo_cut 60 [2; 2; 2] _ demo_read.2 demo_run);
    [|exact Hread]. exists (drop 7 demo_wire). vm_compute. reflexivity.
Defined.

Lemma stack_polls_return_witness :
  exists got r, run_polls 12 [2; 2; 2] (read_stack [RData [1; 2; 3]%Z; RError TimedOut] demo_cipher_state) = Some (got, r).
Proof. apply (stack_polls_return demo_cipher_state [RData [1; 2; 3]%Z; RError TimedOut] [2; 2; 2] 12). cbn. lia. Defined.

Lemma stack_memory_bounded_witness :
  length (ciphertext_held demo_out.2) <= Nat.max 5 MIN_PENDING_WRITE /\
  length (held (cw_upstream demo_out.2)) <= TLS_HEADER_SIZE + MAX_TLS_PAYLOAD /\
  exists recs, Forall data_rec recs /\ wire demo_out.2 ++ held (cw_upstream demo_out.2) = recs_bytes recs.
Proof. exact (stack_memory_bounded demo_calls demo_sent Chrome 7 demo_cipher_state 5 _ true demo_out.2 demo_run). Defined.
