(* ===== verification/RelayIdle.v ===== *)
(** Idle sessions of the middle relay (proxy/middle_relay/idle.rs): the registry
    of candidates for eviction under pressure, the idle policy with its caps,
    and the per-session idle state.  The counters are atomics of 64 bits. *)

From stdpp Require Import base list gmap sorting numbers.
From S2P Require Import Prelude.
Local Open Scope Z_scope.

(** * The registry *)

(** [BTreeSet<(u64, u64)>]: an increasing list. *)
Definition pair_lt (a b : Z * Z) : Prop := a.1 < b.1 \/ (a.1 = b.1 /\ a.2 < b.2).
#[export] Instance pair_lt_dec a b : Decision (pair_lt a b) := ltac:(unfold pair_lt; apply _).

Fixpoint btree_insert (x : Z * Z) (l : list (Z * Z)) : list (Z * Z) :=
  match l with
  | [] => [x]
  | y :: l' => if bool_decide (pair_lt x y) then x :: l else if bool_decide (x = y) then l else y :: btree_insert x l'
  end.
Definition btree_remove (x : Z * Z) (l : list (Z * Z)) : list (Z * Z) := filter (fun y => y <> x) l.

Record RelayIdleCandidateMeta := mkMeta { mark_order_seq : Z; mark_pressure_seq : Z }.

(** [RelayIdleCandidateRegistry] with the counter [relay_idle_mark_seq] next to it
    in the shared state. *)
Record RelayIdleCandidateRegistry := mkRegistry {
  by_conn_id : gmap Z RelayIdleCandidateMeta;
  ordered : list (Z * Z);
  pressure_event_seq : Z;
  pressure_consumed_seq : Z;
  relay_idle_mark_seq : Z;
}.

Definition idle_registry_default : RelayIdleCandidateRegistry := mkRegistry ∅ [] 0 0 0.

(** [fetch_add(1)]: the value before, and the cell after. *)
Definition fetch_add_1 (x : Z) : Z := (x + 1) mod 2 ^ 64.

Definition mark_relay_idle_candidate_in (conn_id : Z) (g : RelayIdleCandidateRegistry) : bool * RelayIdleCandidateRegistry :=
  if bool_decide (is_Some (by_conn_id g !! conn_id)) then (false, g)
  else
    let order := sat_add 64 (relay_idle_mark_seq g) 1 in
    let meta := mkMeta order (pressure_event_seq g) in
    (true, mkRegistry (<[conn_id := meta]> (by_conn_id g)) (btree_insert (order, conn_id) (ordered g))
      (pressure_event_seq g) (pressure_consumed_seq g) (fetch_add_1 (relay_idle_mark_seq g))).

Definition clear_relay_idle_candidate_in (conn_id : Z) (g : RelayIdleCandidateRegistry) : RelayIdleCandidateRegistry :=
  match by_conn_id g !! conn_id with
  | None => g
  | Some meta =>
      mkRegistry (delete conn_id (by_conn_id g)) (btree_remove (mark_order_seq meta, conn_id) (ordered g))
        (pressure_event_seq g) (pressure_consumed_seq g) (relay_idle_mark_seq g)
  end.

Definition note_relay_pressure_event_in (g : RelayIdleCandidateRegistry) : RelayIdleCandidateRegistry :=
  mkRegistry (by_conn_id g) (ordered g) (fetch_add_1 (pressure_event_seq g)) (pressure_consumed_seq g) (relay_idle_mark_seq g).

Definition relay_pressure_event_seq_in (g : RelayIdleCandidateRegistry) : Z := pressure_event_seq g.

Definition set_consumed (seq : Z) (g : RelayIdleCandidateRegistry) : RelayIdleCandidateRegistry :=
  mkRegistry (by_conn_id g) (ordered g) (pressure_event_seq g) seq (relay_idle_mark_seq g).
Definition set_ordered (l : list (Z * Z)) (g : RelayIdleCandidateRegistry) : RelayIdleCandidateRegistry :=
  mkRegistry (by_conn_id g) l (pressure_event_seq g) (pressure_consumed_seq g) (relay_idle_mark_seq g).

(** The loop under the lock: stale entries at the front are dropped until the
    first live one. *)
Fixpoint oldest_candidate (by_conn : gmap Z RelayIdleCandidateMeta) (l : list (Z * Z)) : option Z * list (Z * Z) :=
  match l with
  | [] => (None, [])
  | (seq, c) :: l' =>
      match by_conn !! c with
      | None => oldest_candidate by_conn l'
      | Some meta => if mark_order_seq meta =? seq then (Some c, l) else oldest_candidate by_conn l'
      end
  end.

(** [compare_exchange] of the consumed counter. *)
Definition cas_consumed (expected new : Z) (g : RelayIdleCandidateRegistry) : bool * RelayIdleCandidateRegistry :=
  if pressure_consumed_seq g =? expected then (true, set_consumed new g) else (false, g).

(** The answer, the session's [seen_pressure_seq] and the registry. *)
Definition maybe_evict_idle_candidate_on_pressure_in (conn_id seen : Z) (g : RelayIdleCandidateRegistry)
    : bool * Z * RelayIdleCandidateRegistry :=
  let latest := pressure_event_seq g in
  if latest =? seen then (false, seen, g)
  else
    let consumed := pressure_consumed_seq g in
    if latest =? consumed then (false, latest, g)
    else
      let '(oldest, l) := oldest_candidate (by_conn_id g) (ordered g) in
      let g := set_ordered l g in
      match oldest with
      | None => (false, latest, (cas_consumed consumed latest g).2)
      | Some candidate =>
          if negb (candidate =? conn_id) then (false, latest, g)
          else
            match by_conn_id g !! conn_id with
            | None => (false, latest, g)
            | Some meta =>
                if latest =? mark_pressure_seq meta then (false, latest, g)
                else
                  let '(claimed, g) := cas_consumed consumed latest g in
                  if claimed then (true, latest, clear_relay_idle_candidate_in conn_id g) else (false, latest, g)
            end
      end.

(** * Policy and state *)

Inductive ConntrackPressureProfile := Conservative | Balanced | Aggressive.

Definition middle_soft_idle_cap_secs (p : ConntrackPressureProfile) : Z :=
  match p with Conservative => 60 | Balanced => 30 | Aggressive => 20 end.
Definition middle_hard_idle_cap_secs (p : ConntrackPressureProfile) : Z :=
  match p with Conservative => 180 | Balanced => 90 | Aggressive => 60 end.

Record RelayClientIdlePolicy := mkIdlePolicy {
  ip_enabled : bool;
  soft_idle : Duration;
  hard_idle : Duration;
  grace_after_downstream_activity : Duration;
  legacy_frame_read_timeout : Duration;
}.

Definition idle_policy_disabled (frame_read_timeout : Duration) : RelayClientIdlePolicy :=
  mkIdlePolicy false frame_read_timeout frame_read_timeout 0 frame_read_timeout.

(** [from_config], on the timeouts of the configuration in seconds. *)
Definition idle_policy_from_config (v2_enabled : bool) (soft_secs hard_secs grace_secs : Z) : RelayClientIdlePolicy :=
  let frame_read_timeout := from_secs (Z.max hard_secs 1) in
  if negb v2_enabled then idle_policy_disabled frame_read_timeout
  else
    mkIdlePolicy true (from_secs (Z.max soft_secs 1)) (from_secs (Z.max hard_secs 1)) (from_secs grace_secs) frame_read_timeout.

Definition apply_pressure_caps (profile : ConntrackPressureProfile) (p : RelayClientIdlePolicy) : RelayClientIdlePolicy :=
  let soft_cap := from_secs (middle_soft_idle_cap_secs profile) in
  let hard_cap := from_secs (middle_hard_idle_cap_secs profile) in
  let soft := Z.min (soft_idle p) soft_cap in
  let hard := Z.min (hard_idle p) hard_cap in
  mkIdlePolicy (ip_enabled p)
    (if hard <? soft then hard else soft) hard
    (if hard <? grace_after_downstream_activity p then hard else grace_after_downstream_activity p)
    (Z.min (legacy_frame_read_timeout p) hard_cap).

Record RelayClientIdleState := mkIdleState {
  last_client_frame_at : Instant;
  soft_idle_marked : bool;
  tiny_frame_debt : Z;
}.

Definition idle_state_new (now : Instant) : RelayClientIdleState := mkIdleState now false 0.
Definition on_client_frame (now : Instant) (s : RelayClientIdleState) : RelayClientIdleState :=
  mkIdleState now false (tiny_frame_debt s).
Definition on_client_tiny_frame (now : Instant) (s : RelayClientIdleState) : RelayClientIdleState :=
  mkIdleState now (soft_idle_marked s) (tiny_frame_debt s).
