(* ===== verification/RelayIdleRun.v ===== *)
(** Runs of the idle registry: sequences of its operations, its invariant, and
    the eviction check as concurrent sessions run it, one step per access to the
    shared counters, the map and the ordered set. *)

From stdpp Require Import base list gmap sorting numbers.
From S2P Require Import Prelude RelayIdle.
Local Open Scope Z_scope.

(** * Sequences of operations *)

(** An eviction check may come with any [seen_pressure_seq]. *)
Inductive IdleOp := OpMark (conn_id : Z) | OpClear (conn_id : Z) | OpPressure | OpEvict (conn_id seen : Z).

(** The session evicted by the operation, if any. *)
Definition exec_idle (op : IdleOp) (g : RelayIdleCandidateRegistry) : option Z * RelayIdleCandidateRegistry :=
  match op with
  | OpMark c => (None, (mark_relay_idle_candidate_in c g).2)
  | OpClear c => (None, clear_relay_idle_candidate_in c g)
  | OpPressure => (None, note_relay_pressure_event_in g)
  | OpEvict c seen =>
      let '(evicted, _, g) := maybe_evict_idle_candidate_on_pressure_in c seen g in
      (if evicted then Some c else None, g)
  end.

Fixpoint run_idle (ops : list IdleOp) (g : RelayIdleCandidateRegistry) : list Z * RelayIdleCandidateRegistry :=
  match ops with
  | [] => ([], g)
  | op :: ops =>
      let '(e, g) := exec_idle op g in
      let '(es, g) := run_idle ops g in
      (match e with Some c => c :: es | None => es end, g)
  end.

Fixpoint pressure_events (ops : list IdleOp) : nat :=
  match ops with
  | [] => 0
  | OpPressure :: ops => S (pressure_events ops)
  | _ :: ops => pressure_events ops
  end.

(** * The ordered set *)

Definition older (a b : Z * Z) : Prop := a.1 < b.1.

Lemma btree_insert_last x l : Forall (fun y => older y x) l -> btree_insert x l = l ++ [x].
Proof.
  induction 1 as [|y l Hy _ IH]; [done|]. cbn [btree_insert app]. unfold older in Hy.
  rewrite bool_decide_false by (unfold pair_lt; lia). rewrite bool_decide_false by (intros ->; lia). by rewrite IH.
Qed.

Lemma sorted_snoc x l : StronglySorted older l -> Forall (fun y => older y x) l -> StronglySorted older (l ++ [x]).
Proof.
  induction 1 as [|y l Hs IH Hy]; intros Hx; cbn [app]; [repeat constructor|].
  apply Forall_cons_1 in Hx as [Hyx Hx]. constructor; [by apply IH|]. apply Forall_app. split; [done | by repeat constructor].
Qed.

Lemma sorted_remove x l : StronglySorted older l -> StronglySorted older (btree_remove x l).
Proof.
  unfold btree_remove. induction 1 as [|y l Hs IH Hy]; [constructor|].
  rewrite filter_cons. case_decide; [|done]. constructor; [done|].
  rewrite list.Forall_forall in *. intros z [_ Hz]%list_elem_of_filter. by apply Hy.
Qed.

(** * The invariant *)

(** The set lists exactly the candidates, in the order in which they were
    marked, and no more pressure was consumed than there was. *)
Record idle_ok (g : RelayIdleCandidateRegistry) : Prop := mkIdleOk {
  io_sorted : StronglySorted older (ordered g);
  io_agree : forall s c, (s, c) ∈ ordered g <-> exists m, by_conn_id g !! c = Some m /\ mark_order_seq m = s;
  io_marks : map_Forall (fun _ m => mark_order_seq m <= relay_idle_mark_seq g) (by_conn_id g);
  io_counters : 0 <= pressure_consumed_seq g <= pressure_event_seq g /\ 0 <= relay_idle_mark_seq g;
}.

Lemma idle_default_ok : idle_ok idle_registry_default.
Proof.
  constructor; cbn; [constructor | | apply map_Forall_empty | lia].
  intros s c. rewrite elem_of_nil. split; [done|]. intros (m & Hm & _). by rewrite lookup_empty in Hm.
Qed.

Lemma mark_ok c g :
  idle_ok g -> relay_idle_mark_seq g < umax 64 -> idle_ok (mark_relay_idle_candidate_in c g).2.
Proof.
  intros [Hs Ha Hm Hc] Hlt. unfold mark_relay_idle_candidate_in. case_bool_decide as Hin; [done|].
  apply eq_None_not_Some in Hin. cbn [snd]. rewrite sat_add_exact by lia. unfold fetch_add_1. unfold umax in Hlt.
  rewrite Z.mod_small by lia. set (n := relay_idle_mark_seq g) in *.
  assert (Forall (fun y => older y (n + 1, c)) (ordered g)) as Hold.
  { apply list.Forall_forall. intros [s c'] (m & Hl & <-)%Ha. pose proof (Hm _ _ Hl). unfold older. cbn in *. lia. }
  rewrite btree_insert_last by done. constructor; cbn [by_conn_id ordered pressure_event_seq pressure_consumed_seq relay_idle_mark_seq].
  - by apply sorted_snoc.
  - intros s c'. rewrite elem_of_app, list_elem_of_singleton, Ha. split.
    + intros [(m & Hl & <-)|[= -> ->]]; [exists m; split; [|done]; rewrite lookup_insert_ne; [done|]; congruence|].
      eexists. by rewrite lookup_insert_eq.
    + intros (m & [[<- <-]|[Hne Hl]]%lookup_insert_Some & <-); [by right | left; by exists m].
  - apply map_Forall_insert_2; [cbn; lia|]. eapply map_Forall_impl; [exact Hm|]. cbn. lia.
  - lia.
Qed.

Lemma clear_ok c g : idle_ok g -> idle_ok (clear_relay_idle_candidate_in c g).
Proof.
  intros [Hs Ha Hm Hc]. unfold clear_relay_idle_candidate_in. destruct (by_conn_id g !! c) as [m|] eqn:Hl; [|done].
  constructor; cbn [by_conn_id ordered pressure_event_seq pressure_consumed_seq relay_idle_mark_seq]; [| | |done].
  - by apply sorted_remove.
  - intros s c'. unfold btree_remove. rewrite list_elem_of_filter, Ha. split.
    + intros [Hne (m' & Hl' & <-)]. exists m'. split; [|done]. apply lookup_delete_Some. split; [|done]. intros <-. congruence.
    + intros (m' & [Hne Hl']%lookup_delete_Some & <-). split; [congruence | by exists m'].
  - by apply map_Forall_delete.
Qed.

(** The first entry is live, so nothing is dropped. *)
Lemma oldest_candidate_ok g :
  idle_ok g -> oldest_candidate (by_conn_id g) (ordered g) = (snd <$> head (ordered g), ordered g).
Proof.
  intros [_ Ha _ _]. destruct (ordered g) as [|[s c] l]; [done|]. cbn [oldest_candidate head fmap option_fmap option_map snd].
  destruct (proj1 (Ha s c)) as (m & -> & Hs); [apply list_elem_of_here|]. by rewrite (proj2 (Z.eqb_eq _ _) Hs).
Qed.

Lemma set_consumed_ok seq g : idle_ok g -> 0 <= seq <= pressure_event_seq g -> idle_ok (set_consumed seq g).
Proof. intros [Hs Ha Hm Hc] Hseq. constructor; cbn; [done | done | done | lia]. Qed.

(** What an eviction check does. *)
Lemma evict_check_spec c seen g :
  idle_ok g ->
  let '(evicted, seen', g') := maybe_evict_idle_candidate_on_pressure_in c seen g in
  idle_ok g' /\ pressure_event_seq g' = pressure_event_seq g /\ relay_idle_mark_seq g' = relay_idle_mark_seq g /\
  seen' = pressure_event_seq g /\ pressure_consumed_seq g <= pressure_consumed_seq g' /\
  if evicted then
    pressure_consumed_seq g < pressure_event_seq g /\ pressure_consumed_seq g' = pressure_event_seq g /\
    by_conn_id g' = delete c (by_conn_id g) /\
    exists m, by_conn_id g !! c = Some m /\ mark_pressure_seq m <> pressure_event_seq g /\
      forall c' m', by_conn_id g !! c' = Some m' -> c' <> c -> mark_order_seq m < mark_order_seq m'
  else by_conn_id g' = by_conn_id g.
Proof.
  intros Hok. pose proof (io_counters g Hok) as Hc. unfold maybe_evict_idle_candidate_on_pressure_in, cas_consumed.
  destruct (Z.eqb_spec (pressure_event_seq g) seen) as [Hseen|_]; [by split_and!|].
  destruct (Z.eqb_spec (pressure_event_seq g) (pressure_consumed_seq g)) as [|Hnew]; [by split_and!|].
  rewrite (oldest_candidate_ok g Hok). replace (set_ordered (ordered g) g) with g by (by destruct g).
  rewrite Z.eqb_refl.
  pose proof (set_consumed_ok (pressure_event_seq g) g Hok ltac:(lia)) as Hok'.
  destruct (ordered g) as [|[s c0] l] eqn:Ho; cbn [head fmap option_fmap option_map snd].
  { cbn [set_consumed pressure_event_seq pressure_consumed_seq relay_idle_mark_seq by_conn_id]. split_and!; try done. lia. }
  destruct (Z.eqb_spec c0 c) as [->|]; cbn [negb]; [|by split_and!].
  destruct (proj1 (io_agree g Hok s c)) as (m & Hm & Hs); [rewrite Ho; apply list_elem_of_here|]. rewrite Hm.
  destruct (Z.eqb_spec (pressure_event_seq g) (mark_pressure_seq m)); [by split_and!|].
  split; [by apply clear_ok|]. unfold clear_relay_idle_candidate_in. cbn [set_consumed by_conn_id]. rewrite Hm.
  cbn [pressure_event_seq pressure_consumed_seq relay_idle_mark_seq by_conn_id]. split_and!; try done; [cbn; lia | lia |].
  exists m. split_and!; [done | done |]. intros c' m' Hm' Hne.
  assert ((mark_order_seq m', c') ∈ ordered g) as Hin by (apply (io_agree g Hok); by exists m').
  rewrite Ho in Hin. apply elem_of_cons in Hin as [[= ? ?]|Hin]; [done|].
  pose proof (io_sorted g Hok) as Hsort. rewrite Ho in Hsort. apply StronglySorted_inv in Hsort as [_ Hall].
  rewrite list.Forall_forall in Hall. specialize (Hall _ Hin). unfold older in Hall. cbn in Hall. lia.
Qed.

(** One operation: an eviction uses up at least one event. *)
Definition is_pressure (op : IdleOp) : nat := match op with OpPressure => 1 | _ => 0 end.
Definition evictions (e : option Z) : nat := match e with Some _ => 1 | None => 0 end.

Lemma exec_idle_ok op g e g' :
  idle_ok g -> relay_idle_mark_seq g < umax 64 -> pressure_event_seq g < umax 64 -> exec_idle op g = (e, g') ->
  idle_ok g' /\ relay_idle_mark_seq g' <= relay_idle_mark_seq g + 1 /\
  pressure_event_seq g' = pressure_event_seq g + Z.of_nat (is_pressure op) /\
  pressure_consumed_seq g + Z.of_nat (evictions e) <= pressure_consumed_seq g'.
Proof.
  intros Hok Hm He. destruct op as [c|c| |c seen]; cbn [exec_idle is_pressure].
  - intros [= <- <-]. pose proof (mark_ok c g Hok Hm) as Hok'. unfold mark_relay_idle_candidate_in, fetch_add_1, umax in *.
    case_bool_decide; cbn [snd evictions relay_idle_mark_seq pressure_event_seq pressure_consumed_seq] in *; [split_and!; try done; lia|].
    split; [exact Hok'|]. pose proof (io_counters g Hok). rewrite Z.mod_small by lia. lia.
  - intros [= <- <-]. split; [by apply clear_ok|]. unfold clear_relay_idle_candidate_in. destruct (by_conn_id g !! c);
    cbn [evictions relay_idle_mark_seq pressure_event_seq pressure_consumed_seq]; lia.
  - intros [= <- <-]. destruct Hok as [Hs Ha Hmk Hc]. unfold note_relay_pressure_event_in, fetch_add_1, umax in *.
    rewrite Z.mod_small by lia. split; [constructor; cbn; [done | done | done | lia]|]. cbn. lia.
  - pose proof (evict_check_spec c seen g Hok) as Hspec.
    destruct (maybe_evict_idle_candidate_on_pressure_in c seen g) as [[ev sn] g1].
    destruct Hspec as (Hok' & Hev & Hmk & _ & Hmono & Hcase). intros [= <- <-].
    destruct ev; cbn [evictions]; split_and!; try done; try lia.
Qed.

(** A run: no more evictions than events. *)
Lemma run_idle_ok ops g es g' :
  idle_ok g -> relay_idle_mark_seq g + Z.of_nat (length ops) <= umax 64 ->
  pressure_event_seq g + Z.of_nat (length ops) <= umax 64 -> run_idle ops g = (es, g') ->
  idle_ok g' /\ pressure_event_seq g' = pressure_event_seq g + Z.of_nat (pressure_events ops) /\
  pressure_consumed_seq g + Z.of_nat (length es) <= pressure_consumed_seq g'.
Proof.
  revert g es. induction ops as [|op ops IH]; intros g es Hok Hm He; cbn [run_idle].
  { intros [= <- <-]. cbn. split_and!; [done | lia | lia]. }
  cbn [length] in Hm, He. destruct (exec_idle op g) as [e g1] eqn:Hop.
  destruct (exec_idle_ok op g e g1 Hok ltac:(lia) ltac:(lia) Hop) as (Hok1 & Hm1 & He1 & Hc1).
  destruct (run_idle ops g1) as [es1 g2] eqn:Hrun. intros [= <- <-].
  destruct (IH g1 es1 Hok1) as (Hok2 & He2 & Hc2); [lia | destruct op; cbn [is_pressure] in He1; lia | done|].
  split_and!; [done | destruct op; cbn [pressure_events is_pressure] in *; lia | destruct e; cbn [length evictions] in *; lia].
Qed.

(** * Concurrent sessions *)

Inductive EvictPc :=
  | EvStart
  | EvLoadConsumed (latest : Z)
  | EvScan (latest consumed : Z)
  | EvConsumeEmpty (latest consumed : Z)
  | EvMeta (latest consumed : Z)
  | EvClaim (latest consumed : Z)
  | EvRemove
  | EvUnlink (order : Z)
  | EvDone (evicted : bool).

#[export] Instance evict_pc_eq_dec : EqDecision EvictPc.
Proof. solve_decision. Defined.

Record EvictThread := mkEvict { et_conn : Z; et_seen : Z; et_pc : EvictPc }.

Definition evict_at (pc : EvictPc) (th : EvictThread) : EvictThread := mkEvict (et_conn th) (et_seen th) pc.

(** One access; the loop under the lock is one step. *)
Definition evict_step (th : EvictThread) (g : RelayIdleCandidateRegistry) : EvictThread * RelayIdleCandidateRegistry :=
  match et_pc th with
  | EvStart =>
      let latest := pressure_event_seq g in
      if latest =? et_seen th then (evict_at (EvDone false) th, g)
      else (mkEvict (et_conn th) latest (EvLoadConsumed latest), g)
  | EvLoadConsumed latest =>
      let consumed := pressure_consumed_seq g in
      if latest =? consumed then (evict_at (EvDone false) th, g) else (evict_at (EvScan latest consumed) th, g)
  | EvScan latest consumed =>
      let '(oldest, l) := oldest_candidate (by_conn_id g) (ordered g) in
      let pc :=
        match oldest with
        | None => EvConsumeEmpty latest consumed
        | Some candidate => if candidate =? et_conn th then EvMeta latest consumed else EvDone false
        end in
      (evict_at pc th, set_ordered l g)
  | EvConsumeEmpty latest consumed => (evict_at (EvDone false) th, (cas_consumed consumed latest g).2)
  | EvMeta latest consumed =>
      let pc :=
        match by_conn_id g !! et_conn th with
        | None => EvDone false
        | Some meta => if latest =? mark_pressure_seq meta then EvDone false else EvClaim latest consumed
        end in
      (evict_at pc th, g)
  | EvClaim latest consumed =>
      let '(claimed, g) := cas_consumed consumed latest g in
      (evict_at (if claimed then EvRemove else EvDone false) th, g)
  | EvRemove =>
      match by_conn_id g !! et_conn th with
      | None => (evict_at (EvDone true) th, g)
      | Some meta =>
          (evict_at (EvUnlink (mark_order_seq meta)) th,
           mkRegistry (delete (et_conn th) (by_conn_id g)) (ordered g) (pressure_event_seq g) (pressure_consumed_seq g)
             (relay_idle_mark_seq g))
      end
  | EvUnlink order => (evict_at (EvDone true) th, set_ordered (btree_remove (order, et_conn th) (ordered g)) g)
  | EvDone _ => (th, g)
  end.

(** A session alone. *)
Fixpoint evict_alone (n : nat) (th : EvictThread) (g : RelayIdleCandidateRegistry) : EvictThread * RelayIdleCandidateRegistry :=
  match n with
  | O => (th, g)
  | S n => let '(th, g) := evict_step th g in evict_alone n th g
  end.

Lemma evict_alone_step n th g : evict_alone (S n) th g = evict_alone n (evict_step th g).1 (evict_step th g).2.
Proof. cbn [evict_alone]. by destruct (evict_step th g). Qed.

Lemma evict_alone_done n c seen b g : evict_alone n (mkEvict c seen (EvDone b)) g = (mkEvict c seen (EvDone b), g).
Proof. induction n as [|n IH]; [done|]. rewrite evict_alone_step. apply IH. Qed.

(** Sessions and pressure events interleaved. *)
Inductive RaceEvent := RaceStep (session : nat) | RacePressure.

Fixpoint race (evs : list RaceEvent) (ths : list EvictThread) (g : RelayIdleCandidateRegistry)
    : list EvictThread * RelayIdleCandidateRegistry :=
  match evs with
  | [] => (ths, g)
  | RacePressure :: evs => race evs ths (note_relay_pressure_event_in g)
  | RaceStep i :: evs =>
      match ths !! i with
      | None => race evs ths g
      | Some th => let '(th, g) := evict_step th g in race evs (<[i := th]> ths) g
      end
  end.

Definition evicted_count (ths : list EvictThread) : nat :=
  length (filter (fun th => et_pc th = EvDone true) ths).
