(* ===== verification/Desync.v ===== *)
(** Reports of desynchronised clients (proxy/middle_relay/desync.rs): the
    two-generation cache that lets one full report through per client and
    window, and the report of a frame that is too large. *)

From stdpp Require Import base list gmap numbers.
From S2P Require Import Prelude.
Local Open Scope Z_scope.

Definition DESYNC_DEDUP_WINDOW : Duration := from_secs 60.
Definition DESYNC_DEDUP_MAX_ENTRIES : nat := 2 ^ 16.
Definition DESYNC_FULL_CACHE_EMIT_MIN_INTERVAL : Duration := from_millis 1000.

(** [now.checked_duration_since(earlier)]. *)
Definition checked_duration_since (now earlier : Z) : option Duration :=
  if earlier <=? now then Some (now - earlier) else None.

(** The dedup maps from keys to instants, the rotation state and the gate of the
    full cache. *)
Record DesyncState := mkDesync {
  desync_dedup : gmap Z Z;
  desync_dedup_previous : gmap Z Z;
  current_started_at : option Z;
  desync_full_cache_last_emit_at : option Z;
}.

Definition desync_new : DesyncState := mkDesync ∅ ∅ None None.

Definition rotate (now : Z) (d : DesyncState) : DesyncState :=
  mkDesync ∅ (desync_dedup d) (Some now) (desync_full_cache_last_emit_at d).

Definition rotation_due (now : Z) (d : DesyncState) : bool :=
  match current_started_at d with
  | None => true
  | Some started =>
      match checked_duration_since now started with
      | Some elapsed => DESYNC_DEDUP_WINDOW <=? elapsed
      | None => true
      end
  end.

Definition within_window (now seen_at : Z) : bool :=
  match checked_duration_since now seen_at with
  | Some elapsed => elapsed <? DESYNC_DEDUP_WINDOW
  | None => true
  end.

Definition see_current (key : Z) (at_ : Z) (d : DesyncState) : DesyncState :=
  mkDesync (<[key := at_]> (desync_dedup d)) (desync_dedup_previous d) (current_started_at d) (desync_full_cache_last_emit_at d).

Definition should_emit_full_desync_full_cache_in (now : Z) (d : DesyncState) : bool * DesyncState :=
  let emit := (true, mkDesync (desync_dedup d) (desync_dedup_previous d) (current_started_at d) (Some now)) in
  match desync_full_cache_last_emit_at d with
  | None => emit
  | Some last =>
      match checked_duration_since now last with
      | None => emit
      | Some elapsed => if DESYNC_FULL_CACHE_EMIT_MIN_INTERVAL <=? elapsed then emit else (false, d)
      end
  end.

(** A key that neither generation holds within the window. *)
Definition see_new_key (key : Z) (now : Z) (d : DesyncState) : bool * DesyncState :=
  if (DESYNC_DEDUP_MAX_ENTRIES <=? size (desync_dedup d))%nat then
    should_emit_full_desync_full_cache_in now (see_current key now (rotate now d))
  else (true, see_current key now d).

Definition should_emit_full_desync_in (key : Z) (all_full : bool) (now : Z) (d : DesyncState) : bool * DesyncState :=
  if all_full then (true, d)
  else
    let d := if rotation_due now d then rotate now d else d in
    match desync_dedup d !! key with
    | Some seen_at => if within_window now seen_at then (false, d) else (true, see_current key now d)
    | None =>
        match desync_dedup_previous d !! key with
        | Some seen_at =>
            if within_window now seen_at then (false, see_current key seen_at d)
            else
              see_new_key key now
                (mkDesync (desync_dedup d) (delete key (desync_dedup_previous d)) (current_started_at d)
                  (desync_full_cache_last_emit_at d))
        | None => see_new_key key now d
        end
    end.

(** The counters a report touches. *)
Inductive DesyncStat := DesyncTotal | DesyncCloseTotal | DesyncFramesOk (frames : Z) | DesyncFullLogged | DesyncSuppressed.

(** [report_desync_frame_too_large_in], without the log lines. *)
Definition report_desync_frame_too_large_in (key : Z) (all_full : bool) (frame_counter : Z) (now : Z) (d : DesyncState)
    : list DesyncStat * DesyncState :=
  let '(emit_full, d) := should_emit_full_desync_in key all_full now d in
  ([DesyncTotal; DesyncCloseTotal; DesyncFramesOk frame_counter; if emit_full then DesyncFullLogged else DesyncSuppressed], d).

(** * Runs of reports *)

Fixpoint run_reports (calls : list (Z * Z)) (d : DesyncState) : list bool * DesyncState :=
  match calls with
  | [] => ([], d)
  | (key, now) :: calls =>
      let '(b, d) := should_emit_full_desync_in key false now d in
      let '(bs, d) := run_reports calls d in
      (b :: bs, d)
  end.

(** Times that never go back. *)
Fixpoint ordered_from (t : Z) (calls : list (Z * Z)) : Prop :=
  match calls with
  | [] => True
  | (_, now) :: calls => t <= now /\ ordered_from now calls
  end.

(** * The reference: the last full report of every key *)

Definition ref_emit (key : Z) (now : Z) (seen : gmap Z Z) : bool * gmap Z Z :=
  match seen !! key with
  | Some t => if now <? t + DESYNC_DEDUP_WINDOW then (false, seen) else (true, <[key := now]> seen)
  | None => (true, <[key := now]> seen)
  end.

Fixpoint ref_run (calls : list (Z * Z)) (seen : gmap Z Z) : list bool :=
  match calls with
  | [] => []
  | (key, now) :: calls => let '(b, seen) := ref_emit key now seen in b :: ref_run calls seen
  end.

(** The two generations against the reference, at the time of the last call. *)
Record desync_inv (K : gset Z) (seen : gmap Z Z) (now : Z) (d : DesyncState) : Prop := mkDesyncInv {
  di_keys : dom (desync_dedup d) ⊆ K;
  di_past : forall k t, seen !! k = Some t -> t <= now;
  di_current : forall k t, desync_dedup d !! k = Some t -> seen !! k = Some t;
  di_previous : forall k t, desync_dedup d !! k = None -> desync_dedup_previous d !! k = Some t -> seen !! k = Some t;
  di_alive : forall k t, seen !! k = Some t -> now < t + DESYNC_DEDUP_WINDOW ->
    desync_dedup d !! k = Some t \/ (desync_dedup d !! k = None /\ desync_dedup_previous d !! k = Some t);
  di_age : match current_started_at d with
    | None => seen = ∅
    | Some s => s <= now /\ forall k t, desync_dedup d !! k = None -> desync_dedup_previous d !! k = Some t -> t <= s
    end;
}.

Lemma desync_new_inv K now : desync_inv K ∅ now desync_new.
Proof. by constructor; cbn; try intros k t; rewrite ?lookup_empty; try set_solver. Qed.

(** Time passes. *)
Lemma desync_inv_later K seen t now d : desync_inv K seen t d -> t <= now -> desync_inv K seen now d.
Proof.
  intros [Hk Hp Hc Hv Ha Hg] Hle. constructor; try done.
  - intros k x Hx. specialize (Hp _ _ Hx). lia.
  - intros k x Hx Hlt. apply Ha; [done | lia].
  - destruct (current_started_at d); [|done]. destruct Hg. split; [lia | done].
Qed.

Lemma rotate_inv K seen now d : desync_inv K seen now d -> rotation_due now d = true -> desync_inv K seen now (rotate now d).
Proof.
  intros [Hk Hp Hc Hv Ha Hg] Hdue. constructor; cbn [rotate desync_dedup desync_dedup_previous current_started_at].
  - set_solver.
  - done.
  - intros k t. by rewrite lookup_empty.
  - intros k t _. apply Hc.
  - intros k t Hs Hlt. right. split; [by rewrite lookup_empty|].
    destruct (Ha k t Hs Hlt) as [|[Hn Hpv]]; [done|]. exfalso. unfold rotation_due, checked_duration_since in Hdue.
    destruct (current_started_at d) as [s|]; [|subst seen; by rewrite lookup_empty in Hs]. destruct Hg as [Hsn Hold].
    rewrite (proj2 (Z.leb_le _ _) Hsn) in Hdue. apply Z.leb_le in Hdue. specialize (Hold _ _ Hn Hpv). lia.
  - split; [lia|]. intros k t _ Hk'. apply (Hp k). by apply Hc.
Qed.

(** A full report now. *)
Lemma note_inv K seen now key d :
  desync_inv K seen now d -> key ∈ K -> current_started_at d <> None ->
  desync_inv K (<[key := now]> seen) now (see_current key now d).
Proof.
  intros [Hk Hp Hc Hv Ha Hg] Hin Hst. constructor; cbn [see_current desync_dedup desync_dedup_previous current_started_at].
  - rewrite dom_insert. set_solver.
  - intros k t. destruct (decide (k = key)) as [->|Hne]; [rewrite lookup_insert_eq; intros [= <-]; lia|].
    rewrite lookup_insert_ne by done. apply Hp.
  - intros k t. destruct (decide (k = key)) as [->|Hne]; [by rewrite !lookup_insert_eq|].
    rewrite !lookup_insert_ne by done. apply Hc.
  - intros k t. destruct (decide (k = key)) as [->|Hne]; [by rewrite lookup_insert_eq|].
    rewrite !lookup_insert_ne by done. apply Hv.
  - intros k t. destruct (decide (k = key)) as [->|Hne]; [rewrite !lookup_insert_eq; by left|].
    rewrite !lookup_insert_ne by done. apply Ha.
  - destruct (current_started_at d); [|done]. destruct Hg as [? Hold]. split; [done|]. intros k t.
    destruct (decide (k = key)) as [->|Hne]; [by rewrite lookup_insert_eq|]. rewrite lookup_insert_ne by done. apply Hold.
Qed.

Lemma see_new_key_room K seen now key d :
  desync_inv K seen now d -> (size K < DESYNC_DEDUP_MAX_ENTRIES)%nat -> see_new_key key now d = (true, see_current key now d).
Proof.
  intros Hinv Hsz. unfold see_new_key.
  assert (size (desync_dedup d) <= size K)%nat by (rewrite <- size_dom; apply subseteq_size, Hinv).
  by rewrite (proj2 (Nat.leb_gt _ _)) by lia.
Qed.

(** Bringing a live entry of the previous generation forward. *)
Lemma forward_inv K seen now key t d :
  desync_inv K seen now d -> key ∈ K -> desync_dedup d !! key = None -> desync_dedup_previous d !! key = Some t ->
  desync_inv K seen now (see_current key t d).
Proof.
  intros [Hk Hp Hc Hv Ha Hg] Hin Hnone Hprev.
  constructor; cbn [see_current desync_dedup desync_dedup_previous current_started_at]; [| done | | | |].
  - rewrite dom_insert. set_solver.
  - intros k x. destruct (decide (k = key)) as [->|Hne]; [rewrite lookup_insert_eq; intros [= <-]; by apply Hv|].
    rewrite lookup_insert_ne by done. apply Hc.
  - intros k x. destruct (decide (k = key)) as [->|Hne]; [by rewrite lookup_insert_eq|].
    rewrite lookup_insert_ne by done. apply Hv.
  - intros k x Hs Hlt. destruct (decide (k = key)) as [->|Hne].
    + rewrite lookup_insert_eq. left. rewrite <- Hs. symmetry. by apply Hv.
    + rewrite !lookup_insert_ne by done. by apply Ha.
  - destruct (current_started_at d); [|done]. destruct Hg as [? Hold]. split; [done|]. intros k x.
    destruct (decide (k = key)) as [->|Hne]; [by rewrite lookup_insert_eq|]. rewrite lookup_insert_ne by done. apply Hold.
Qed.

(** Dropping an expired entry of the previous generation. *)
Lemma expire_inv K seen now key d :
  desync_inv K seen now d -> (forall t, seen !! key = Some t -> t + DESYNC_DEDUP_WINDOW <= now) ->
  desync_inv K seen now (mkDesync (desync_dedup d) (delete key (desync_dedup_previous d)) (current_started_at d)
    (desync_full_cache_last_emit_at d)).
Proof.
  intros [Hk Hp Hc Hv Ha Hg] Hexp. constructor; cbn [desync_dedup desync_dedup_previous current_started_at]; try done.
  - intros k t Hn Hd. apply lookup_delete_Some in Hd as [_ Hd]. by apply Hv.
  - intros k t Hs Hlt. destruct (decide (k = key)) as [->|Hne]; [specialize (Hexp _ Hs); lia|].
    rewrite lookup_delete_ne by done. by apply Ha.
  - destruct (current_started_at d); [|done]. destruct Hg as [? Hold]. split; [done|]. intros k t Hn Hd.
    apply lookup_delete_Some in Hd as [_ Hd]. by apply (Hold k).
Qed.

Lemma within_window_past now t : t <= now -> within_window now t = (now <? t + DESYNC_DEDUP_WINDOW).
Proof.
  intros Hle. unfold within_window, checked_duration_since. rewrite (proj2 (Z.leb_le _ _) Hle).
  destruct (Z.ltb_spec (now - t) DESYNC_DEDUP_WINDOW), (Z.ltb_spec now (t + DESYNC_DEDUP_WINDOW)); lia.
Qed.

Lemma emit_refines K seen now key d :
  desync_inv K seen now d -> key ∈ K -> (size K < DESYNC_DEDUP_MAX_ENTRIES)%nat ->
  (should_emit_full_desync_in key false now d).1 = (ref_emit key now seen).1 /\
  desync_inv K (ref_emit key now seen).2 now (should_emit_full_desync_in key false now d).2.
Proof.
  intros Hinv Hin Hsz. unfold should_emit_full_desync_in.
  assert (desync_inv K seen now (if rotation_due now d then rotate now d else d) /\
    current_started_at (if rotation_due now d then rotate now d else d) <> None) as [Hinv1 Hst].
  { destruct (rotation_due now d) eqn:Hdue; [split; [by apply rotate_inv | done]|]. split; [done|].
    unfold rotation_due in Hdue. by destruct (current_started_at d). }
  clear Hinv. generalize dependent (if rotation_due now d then rotate now d else d). intros d1 Hinv Hst. unfold ref_emit.
  pose proof Hinv as [_ Hp Hc Hv Ha _]. destruct (desync_dedup d1 !! key) as [t|] eqn:Hcur.
  - rewrite (Hc _ _ Hcur), within_window_past by (by eapply Hp, Hc). destruct (_ <? _) eqn:Hlt; [done|].
    split; [done | by apply note_inv].
  - assert (forall d2, desync_inv K seen now d2 -> current_started_at d2 <> None ->
      (see_new_key key now d2).1 = true /\ desync_inv K (<[key := now]> seen) now (see_new_key key now d2).2) as Hnew.
    { intros d2 H2 Hs2. rewrite (see_new_key_room K seen) by done. split; [done | by apply note_inv]. }
    destruct (desync_dedup_previous d1 !! key) as [t|] eqn:Hprev.
    + pose proof (Hv _ _ Hcur Hprev) as Hseen. rewrite Hseen, within_window_past by (by eapply Hp).
      destruct (_ <? _) eqn:Hlt; [split; [done | by apply forward_inv]|]. apply Z.ltb_ge in Hlt.
      apply Hnew; [|done]. apply expire_inv; [done|]. intros x Hx. rewrite Hseen in Hx. injection Hx as <-. lia.
    + destruct (seen !! key) as [t|] eqn:Hseen; [|by apply Hnew].
      destruct (Z.ltb_spec now (t + DESYNC_DEDUP_WINDOW)) as [Hlt|]; [|by apply Hnew].
      destruct (Ha _ _ Hseen Hlt) as [?|[_ ?]]; congruence.
Qed.

Lemma run_reports_refines K calls seen t d :
  desync_inv K seen t d -> ordered_from t calls -> Forall (fun c => c.1 ∈ K) calls ->
  (size K < DESYNC_DEDUP_MAX_ENTRIES)%nat -> (run_reports calls d).1 = ref_run calls seen.
Proof.
  revert seen t d. induction calls as [|[key now] calls IH]; intros seen t d Hinv; cbn [run_reports ref_run ordered_from]; [done|].
  intros [Hle Hord] [Hk Hks]%Forall_cons_1 Hsz.
  pose proof (emit_refines K seen now key d (desync_inv_later _ _ _ _ _ Hinv Hle) Hk Hsz) as Hstep.
  destruct (should_emit_full_desync_in key false now d) as [b d1]. destruct (ref_emit key now seen) as [b' seen1].
  cbn [fst snd] in Hstep. destruct Hstep as [-> Hinv1]. specialize (IH seen1 now d1 Hinv1 Hord Hks Hsz).
  destruct (run_reports calls d1) as [bs d2]. cbn [fst] in *. by rewrite IH.
Qed.

(** * The size of the cache *)

Lemma run_reports_app a b d : (run_reports (a ++ b) d).2 = (run_reports b (run_reports a d).2).2.
Proof.
  revert d. induction a as [|[key now] a IH]; intros d; cbn [app run_reports]; [done|].
  destruct (should_emit_full_desync_in key false now d) as [x d1]. specialize (IH d1).
  destruct (run_reports (a ++ b) d1) as [xs d2], (run_reports a d1) as [ys d3]. done.
Qed.

(** [n] reports of new keys from [k] on, at the same time. *)
Fixpoint fresh_calls (k : Z) (n : nat) (now : Z) : list (Z * Z) :=
  match n with
  | O => []
  | S n => (k, now) :: fresh_calls (k + 1) n now
  end.

Definition below_key (k : Z) (m : gmap Z Z) : Prop := map_Forall (fun k' t => 0 <= k' < k /\ t = 0) m.

Lemma below_key_none k m : below_key k m -> m !! k = None.
Proof. intros Hm. destruct (m !! k) as [t|] eqn:Hk; [|done]. apply Hm in Hk. lia. Qed.

Lemma fresh_calls_run n k d :
  0 <= k -> current_started_at d = Some 0 -> below_key k (desync_dedup d) -> below_key k (desync_dedup_previous d) ->
  (size (desync_dedup d) + n <= DESYNC_DEDUP_MAX_ENTRIES)%nat ->
  let d' := (run_reports (fresh_calls k n 0) d).2 in
  current_started_at d' = Some 0 /\ below_key (k + Z.of_nat n) (desync_dedup d') /\
  desync_dedup_previous d' = desync_dedup_previous d /\ size (desync_dedup d') = (size (desync_dedup d) + n)%nat /\
  forall j, j < k -> desync_dedup d' !! j = desync_dedup d !! j.
Proof.
  revert k d. induction n as [|n IH]; intros k d Hk Hst Hc Hp Hsz; cbn [fresh_calls run_reports].
  { cbn. rewrite Z.add_0_r, Nat.add_0_r. by split_and!. }
  assert (should_emit_full_desync_in k false 0 d = (true, see_current k 0 d)) as Hstep.
  { unfold should_emit_full_desync_in, rotation_due. rewrite Hst. cbn [checked_duration_since Z.leb Z.compare].
    change (DESYNC_DEDUP_WINDOW <=? 0 - 0) with false. cbv iota. rewrite !below_key_none by done.
    unfold see_new_key. by rewrite (proj2 (Nat.leb_gt _ _)) by lia. }
  rewrite Hstep. specialize (IH (k + 1) (see_current k 0 d)). cbn [see_current desync_dedup desync_dedup_previous current_started_at] in IH.
  assert (size (<[k := 0]> (desync_dedup d)) = S (size (desync_dedup d))) as Hs by (apply map_size_insert_None, below_key_none, Hc).
  rewrite Hs in IH. destruct IH as (H1 & H2 & H3 & H4 & H5); [lia | done | | | lia |].
  - apply map_Forall_insert_2; [lia|]. eapply map_Forall_impl; [exact Hc|]. cbn. lia.
  - eapply map_Forall_impl; [exact Hp|]. cbn. lia.
  - destruct (run_reports (fresh_calls (k + 1) n 0) (see_current k 0 d)) as [bs d2]. cbn [snd] in *.
    split_and!; [done | by replace (k + Z.of_nat (S n)) with (k + 1 + Z.of_nat n) by lia | done | lia |].
    intros j Hj. rewrite H5 by lia. by rewrite lookup_insert_ne by lia.
Qed.

(** A new key when the current generation is full. *)
Lemma full_step k d :
  current_started_at d = Some 0 -> desync_dedup d !! k = None -> desync_dedup_previous d !! k = None ->
  (DESYNC_DEDUP_MAX_ENTRIES <= size (desync_dedup d))%nat ->
  let d' := (run_reports [(k, 0)] d).2 in
  current_started_at d' = Some 0 /\ desync_dedup d' = {[k := 0]} /\ desync_dedup_previous d' = desync_dedup d.
Proof.
  intros Hst Hc Hp Hsz. cbn [run_reports]. unfold should_emit_full_desync_in, rotation_due. rewrite Hst.
  cbn [checked_duration_since Z.leb Z.compare]. change (DESYNC_DEDUP_WINDOW <=? 0 - 0) with false. cbv iota. rewrite Hc, Hp.
  unfold see_new_key. rewrite (proj2 (Nat.leb_le _ _) Hsz). unfold should_emit_full_desync_full_cache_in.
  cbn [see_current rotate desync_full_cache_last_emit_at]. repeat case_match; simplify_eq; cbn [snd desync_dedup desync_dedup_previous current_started_at see_current rotate]; by rewrite ?insert_empty.
Qed.

(** A key of the previous generation within its window. *)
Lemma forward_step k d :
  current_started_at d = Some 0 -> desync_dedup d !! k = None -> desync_dedup_previous d !! k = Some 0 ->
  desync_dedup (run_reports [(k, 0)] d).2 = <[k := 0]> (desync_dedup d).
Proof.
  intros Hst Hc Hp. cbn [run_reports]. unfold should_emit_full_desync_in, rotation_due. rewrite Hst.
  cbn [checked_duration_since Z.leb Z.compare]. change (DESYNC_DEDUP_WINDOW <=? 0 - 0) with false. cbv iota. by rewrite Hc, Hp.
Qed.

(** The reports that fill both generations and then come back to the first key. *)
Definition overfull_calls : list (Z * Z) :=
  let m := DESYNC_DEDUP_MAX_ENTRIES in
  [(0, 0)] ++ fresh_calls 1 (m - 1) 0 ++ [(Z.of_nat m, 0)] ++ fresh_calls (Z.of_nat m + 1) (m - 1) 0 ++ [(0, 0)].

(** A report of a key of the previous generation is copied to the current one
    without regard to [DESYNC_DEDUP_MAX_ENTRIES]. *)
Lemma dedup_exceeds_max :
  size (desync_dedup (run_reports overfull_calls desync_new).2) = S DESYNC_DEDUP_MAX_ENTRIES.
Proof.
  unfold overfull_calls. rewrite !run_reports_app.
  assert (1 <= DESYNC_DEDUP_MAX_ENTRIES)%nat as Hm by (apply Nat.leb_le; vm_compute; reflexivity).
  set (d1 := (run_reports [(0, 0)] desync_new).2).
  assert (d1 = mkDesync {[0 := 0]} ∅ (Some 0) None) as Hd1 by (vm_compute; reflexivity). rewrite Hd1. clear d1 Hd1.
  remember DESYNC_DEDUP_MAX_ENTRIES as m eqn:Hmax.
  pose proof (fresh_calls_run (m - 1) 1 (mkDesync {[0 := 0]} ∅ (Some 0) None)) as Hf2.
  cbn [desync_dedup desync_dedup_previous current_started_at] in Hf2. rewrite map_size_singleton in Hf2.
  destruct Hf2 as (Hs2 & Hb2 & Hp2 & Hz2 & Hj2); [lia | done | apply map_Forall_singleton; lia | apply map_Forall_empty | rewrite <- Hmax; lia|].
  set (d2 := (run_reports (fresh_calls 1 (m - 1) 0) _).2) in *. clearbody d2.
  replace (1 + Z.of_nat (m - 1)) with (Z.of_nat m) in Hb2 by lia.
  specialize (Hj2 0 ltac:(lia)). rewrite lookup_singleton_eq in Hj2.
  destruct (full_step (Z.of_nat m) d2) as (Hs3 & Hc3 & Hp3); [done | by apply below_key_none | by rewrite Hp2 | rewrite <- Hmax; lia|].
  set (d3 := (run_reports [(Z.of_nat m, 0)] d2).2) in *. clearbody d3.
  pose proof (fresh_calls_run (m - 1) (Z.of_nat m + 1) d3) as Hf4. rewrite Hc3, map_size_singleton in Hf4.
  destruct Hf4 as (Hs4 & _ & Hp4 & Hz4 & Hj4); [lia | done | apply map_Forall_singleton; lia | | rewrite <- Hmax; lia|].
  { rewrite Hp3. eapply map_Forall_impl; [exact Hb2|]. cbn. lia. }
  set (d4 := (run_reports (fresh_calls (Z.of_nat m + 1) (m - 1) 0) d3).2) in *. clearbody d4.
  specialize (Hj4 0 ltac:(lia)). rewrite lookup_singleton_ne in Hj4 by lia.
  rewrite forward_step by (exact Hs4 || exact Hj4 || by rewrite Hp4, Hp3). rewrite map_size_insert_None by exact Hj4. lia.
Qed.
