(* ===== verification/ClientFrames.v ===== *)
(** The client's framing in the middle relay: length headers
    (protocol/framing.rs), reading one frame under the idle policy
    (proxy/middle_relay/idle/read.rs) and writing answers back
    (proxy/middle_relay/d2c.rs). *)

From stdpp Require Import base list gmap numbers.
From S2P Require Import Prelude Aes Random RpcWire Stream RelayIdle RelayIdleRun Desync.
Local Open Scope Z_scope.

#[export] Instance ProtoTag_eq_dec : EqDecision ProtoTag.
Proof. solve_decision. Defined.

(** * Length headers *)

Definition INTERMEDIATE_QUICKACK_FLAG : Z := 0x80000000.
Definition INTERMEDIATE_WIRE_LEN_MASK : Z := 0x7fffffff.
Definition SECURE_VERSION_D_PADDING_MAX : nat := 3.

Record IntermediateHeader := mkIntermediate { ih_wire_len : Z; ih_quickack : bool }.

Definition parse_intermediate_header (header : list Z) : IntermediateHeader :=
  let raw := of_le header in
  mkIntermediate (Z.land raw INTERMEDIATE_WIRE_LEN_MASK) (negb (Z.land raw INTERMEDIATE_QUICKACK_FLAG =? 0)).

Definition encode_intermediate_header (wire_len : Z) (quickack : bool) : option Z :=
  if INTERMEDIATE_WIRE_LEN_MASK <? wire_len then None
  else Some (if quickack then Z.lor wire_len INTERMEDIATE_QUICKACK_FLAG else wire_len).

Definition secure_version_d_body_len_from_wire_len (wire_len : Z) : option Z :=
  if wire_len <? 4 then None else Some (wire_len - wire_len mod 4).

Definition is_valid_secure_payload_len (data_len : Z) : bool := data_len mod 4 =? 0.

(** * Reading under the idle policy *)

Definition RELAY_IDLE_IO_POLL_MAX : Duration := from_secs 1.
Definition TINY_FRAME_DEBT_PER_TINY : Z := 8.
Definition TINY_FRAME_DEBT_LIMIT : Z := 512.
Definition LEGACY_MAX_CONSECUTIVE_ZERO_LEN_FRAMES : Z := 4.

(** What the surroundings do during one round of the read loop: the clock and the
    downstream activity when the round starts and when it ends, how many more
    times the read is polled before the timer fires, and what other sessions did
    to the shared registry in the meantime. *)
Record Tick := mkTick {
  tk_now : Instant;
  tk_downstream_ms : Z;
  tk_polls : nat;
  tk_end : Instant;
  tk_end_downstream_ms : Z;
  tk_others : list IdleOp;
}.

Inductive RelayError :=
  | RelayIo (kind : ErrorKind)
  | TinyFrameLimit (debt : Z)
  | ExcessiveZeroFrames
  | FrameTooSmall (len : Z)
  | FrameTooLarge (len : Z)
  | InvalidSecureLength (len : Z).

(** Counters of [Stats] touched on the way. *)
Inductive RelayStat := IdleSoftMark | IdleHardClose | ProtocolDesyncClose | SecurePaddingInvalid | DesyncReport (s : DesyncStat).

(** The session's idle state, the shared registry and desync cache, the counters
    touched so far, the number of frames, and the clock as last read. *)
Record ReadCtx := mkReadCtx {
  rx_idle : RelayClientIdleState;
  rx_registry : RelayIdleCandidateRegistry;
  rx_desync : DesyncState;
  rx_stats : list RelayStat;
  rx_frame_counter : Z;
  rx_clock : Instant;
}.

Definition set_idle (i : RelayClientIdleState) (x : ReadCtx) : ReadCtx :=
  mkReadCtx i (rx_registry x) (rx_desync x) (rx_stats x) (rx_frame_counter x) (rx_clock x).
Definition set_registry (g : RelayIdleCandidateRegistry) (x : ReadCtx) : ReadCtx :=
  mkReadCtx (rx_idle x) g (rx_desync x) (rx_stats x) (rx_frame_counter x) (rx_clock x).
Definition set_desync (d : DesyncState) (x : ReadCtx) : ReadCtx :=
  mkReadCtx (rx_idle x) (rx_registry x) d (rx_stats x) (rx_frame_counter x) (rx_clock x).
Definition count (s : list RelayStat) (x : ReadCtx) : ReadCtx :=
  mkReadCtx (rx_idle x) (rx_registry x) (rx_desync x) (rx_stats x ++ s) (rx_frame_counter x) (rx_clock x).
Definition set_clock (t : Instant) (x : ReadCtx) : ReadCtx :=
  mkReadCtx (rx_idle x) (rx_registry x) (rx_desync x) (rx_stats x) (rx_frame_counter x) t.

(** The session a call reads for. *)
Record ReadEnv := mkReadEnv {
  re_policy : RelayClientIdlePolicy;
  re_session_started_at : Instant;
  re_conn_id : Z;
  re_desync_key : Z;
  re_desync_all_full : bool;
  re_proto_tag : ProtoTag;
  re_max_frame : Z;
}.

Definition hard_deadline (policy : RelayClientIdlePolicy) (idle : RelayClientIdleState) (session_started_at : Instant)
    (last_downstream_activity_ms : Z) : Instant :=
  let deadline := last_client_frame_at idle + hard_idle policy in
  if grace_after_downstream_activity policy =? 0 then deadline
  else
    let downstream_at := session_started_at + from_millis last_downstream_activity_ms in
    if last_client_frame_at idle <? downstream_at then
      let grace_deadline := downstream_at + grace_after_downstream_activity policy in
      if deadline <? grace_deadline then grace_deadline else deadline
    else deadline.

(** The window given to the timer of a round that starts at [now]. *)
Definition timeout_window (policy : RelayClientIdlePolicy) (idle : RelayClientIdleState) (hard : Instant) (now : Instant) : Duration :=
  if ip_enabled policy then
    let soft_deadline := last_client_frame_at idle + soft_idle policy in
    let next_deadline := if soft_idle_marked idle then hard else Z.min soft_deadline hard in
    let remaining := saturating_duration_since next_deadline now in
    let remaining := if remaining =? 0 then from_millis 1 else remaining in
    Z.min remaining RELAY_IDLE_IO_POLL_MAX
  else legacy_frame_read_timeout policy.

(** The soft idle mark at the start of a round. *)
Definition soft_mark (e : ReadEnv) (now : Instant) (x : ReadCtx) : ReadCtx :=
  let idle := rx_idle x in
  if negb (soft_idle_marked idle) && (soft_idle (re_policy e) <=? saturating_duration_since now (last_client_frame_at idle)) then
    let '(marked, g) := mark_relay_idle_candidate_in (re_conn_id e) (rx_registry x) in
    let x := set_registry g (set_idle (mkIdleState (last_client_frame_at idle) true (tiny_frame_debt idle)) x) in
    if marked then count [IdleSoftMark] x else x
  else x.

Section read.
Context {R : Type} `{AsyncRead R}.

(** Polls of one read until it answers or the timer fires ([None]). *)
Fixpoint poll_until (n fuel cap : nat) (r : R) : option (option (result ErrorKind (list Z)) * R) :=
  match poll_read fuel cap r with
  | None => None
  | Some (Ready res, r) => Some (Some res, r)
  | Some (Pending, r) =>
      match n with
      | O => Some (None, r)
      | S n => poll_until n fuel cap r
      end
  end.

(** [read_exact_with_policy]: the buffer is its filled part; one tick per round;
    [None] when the ticks or the fuel run out. *)
Fixpoint read_exact_with_policy (e : ReadEnv) (fuel want : nat) (ticks : list Tick) (buf : list Z) (x : ReadCtx) (r : R)
    : option (result RelayError (list Z) * list Tick * ReadCtx * R) :=
  if (want <=? length buf)%nat then Some (Ok buf, ticks, x, r)
  else
    match ticks with
    | [] => None
    | tk :: ticks =>
        let x := set_clock (tk_now tk) (set_registry (run_idle (tk_others tk) (rx_registry x)).2 x) in
        let x := if ip_enabled (re_policy e) then soft_mark e (tk_now tk) x else x in
        match poll_until (tk_polls tk) fuel (want - length buf) r with
        | None => None
        | Some (answer, r) =>
            let x := set_clock (tk_end tk) x in
            match answer with
            | Some (Ok []) => Some (Err (RelayIo UnexpectedEof), ticks, x, r)
            | Some (Ok bs) => read_exact_with_policy e fuel want ticks (buf ++ bs) x r
            | Some (Err k) => Some (Err (RelayIo k), ticks, x, r)
            | None =>
                if negb (ip_enabled (re_policy e)) then Some (Err (RelayIo TimedOut), ticks, x, r)
                else if hard_deadline (re_policy e) (rx_idle x) (re_session_started_at e) (tk_end_downstream_ms tk) <=? tk_end tk then
                  let x := set_registry (clear_relay_idle_candidate_in (re_conn_id e) (rx_registry x)) x in
                  Some (Err (RelayIo TimedOut), ticks, count [IdleHardClose] x, r)
                else read_exact_with_policy e fuel want ticks buf x r
            end
        end
    end.

(** The outcome of a step that may fail, run out or go on. *)
Definition read_then {A : Type} (m : option (result RelayError (list Z) * list Tick * ReadCtx * R))
    (on_error : RelayError -> list Tick -> ReadCtx -> R -> A) (k : list Z -> list Tick -> ReadCtx -> R -> option A) : option A :=
  match m with
  | None => None
  | Some (Err err, ticks, x, r) => Some (on_error err ticks x r)
  | Some (Ok bs, ticks, x, r) => k bs ticks x r
  end.

Definition FrameRead : Type := result RelayError (option (list Z * bool)) * list Tick * ReadCtx * R.

Definition fail (err : RelayError) (ticks : list Tick) (x : ReadCtx) (r : R) : FrameRead := (Err err, ticks, x, r).

(** An end of stream before the first byte of a header, or inside it, ends the
    session. *)
Definition eof_or_fail (err : RelayError) (ticks : list Tick) (x : ReadCtx) (r : R) : FrameRead :=
  match err with
  | RelayIo UnexpectedEof => (Ok None, ticks, x, r)
  | _ => (Err err, ticks, x, r)
  end.

(** The header of a frame: its length and the quick-ack flag. *)
Definition read_header (e : ReadEnv) (fuel : nat) (ticks : list Tick) (x : ReadCtx) (r : R)
    (k : Z -> bool -> list Tick -> ReadCtx -> R -> option FrameRead) : option FrameRead :=
  match re_proto_tag e with
  | Abridged =>
      read_then (read_exact_with_policy e fuel 1 ticks [] x r) eof_or_fail (fun bs ticks x r =>
        let first := cell bs 0 in
        let quickack := negb (Z.land first 0x80 =? 0) in
        if Z.land first 0x7f =? 0x7f then
          read_then (read_exact_with_policy e fuel 3 ticks [] x r) fail (fun ext ticks x r =>
            k (of_le ext * 4) quickack ticks x r)
        else k (Z.land first 0x7f * 4) quickack ticks x r)
  | Intermediate | Secure =>
      read_then (read_exact_with_policy e fuel 4 ticks [] x r) eof_or_fail (fun bs ticks x r =>
        let header := parse_intermediate_header bs in
        k (ih_wire_len header) (ih_quickack header) ticks x r)
  end.

(** A frame without payload. *)
Definition on_zero_len (e : ReadEnv) (zeros : Z) (x : ReadCtx) : result RelayError Z * ReadCtx :=
  let idle := on_client_tiny_frame (rx_clock x) (rx_idle x) in
  let debt := sat_add 32 (tiny_frame_debt idle) TINY_FRAME_DEBT_PER_TINY in
  let x := set_idle (mkIdleState (last_client_frame_at idle) (soft_idle_marked idle) debt) x in
  if TINY_FRAME_DEBT_LIMIT <=? debt then (Err (TinyFrameLimit debt), count [ProtocolDesyncClose] x)
  else if negb (ip_enabled (re_policy e)) then
    let zeros := sat_add 32 zeros 1 in
    if LEGACY_MAX_CONSECUTIVE_ZERO_LEN_FRAMES <? zeros then (Err ExcessiveZeroFrames, count [ProtocolDesyncClose] x)
    else (Ok zeros, x)
  else (Ok zeros, x).

(** A frame with payload, after its header. *)
Definition read_payload (e : ReadEnv) (fuel : nat) (len : Z) (quickack : bool) (ticks : list Tick) (x : ReadCtx) (r : R)
    : option FrameRead :=
  if (len <? 4) && negb (bool_decide (re_proto_tag e = Abridged)) then
    Some (fail (FrameTooSmall len) ticks (count [ProtocolDesyncClose] x) r)
  else if re_max_frame e <? len then
    let '(stats, d) := report_desync_frame_too_large_in (re_desync_key e) (re_desync_all_full e) (rx_frame_counter x) (rx_clock x) (rx_desync x) in
    Some (fail (FrameTooLarge len) ticks (count (DesyncReport <$> stats) (set_desync d x)) r)
  else
    match (if bool_decide (re_proto_tag e = Secure) then secure_version_d_body_len_from_wire_len len else Some len) with
    | None => Some (fail (InvalidSecureLength len) ticks (count [SecurePaddingInvalid; ProtocolDesyncClose] x) r)
    | Some payload_len =>
        read_then (read_exact_with_policy e fuel (Z.to_nat len) ticks [] x r) fail (fun payload ticks x r =>
          let payload := if bool_decide (re_proto_tag e = Secure) then take (Z.to_nat payload_len) payload else payload in
          let idle := on_client_frame (rx_clock x) (rx_idle x) in
          let idle := mkIdleState (last_client_frame_at idle) (soft_idle_marked idle) (sat_sub (tiny_frame_debt idle) 1) in
          let x := mkReadCtx idle (clear_relay_idle_candidate_in (re_conn_id e) (rx_registry x)) (rx_desync x) (rx_stats x)
            (rx_frame_counter x + 1) (rx_clock x) in
          Some (Ok (Some (payload, quickack)), ticks, x, r))
    end.

(** [read_client_payload_with_idle_policy_in]: [n] frames at most; the debt of
    empty frames ends the loop before its limit of them is used up. *)
Fixpoint read_client_payload (n : nat) (e : ReadEnv) (fuel : nat) (zeros : Z) (ticks : list Tick) (x : ReadCtx) (r : R)
    : option FrameRead :=
  match n with
  | O => None
  | S n =>
      read_header e fuel ticks x r (fun len quickack ticks x r =>
        if len =? 0 then
          match on_zero_len e zeros x with
          | (Err err, x) => Some (fail err ticks x r)
          | (Ok zeros, x) => read_client_payload n e fuel zeros ticks x r
          end
        else read_payload e fuel len quickack ticks x r)
  end.

(** Frames that always suffice: every empty one adds to the debt. *)
Definition MAX_FRAMES_PER_READ : nat := 64.

Definition read_client_payload_with_idle_policy_in (e : ReadEnv) (fuel : nat) (ticks : list Tick) (x : ReadCtx) (r : R) : option FrameRead :=
  read_client_payload MAX_FRAMES_PER_READ e fuel 0 ticks x r.
End read.

Arguments FrameRead : clear implicits.
