(* ===== verification/ClientFramesSpec.v ===== *)
(** Reading a client's frames, against a parser of byte strings: what is read is
    the next frame of the stream, and a frame that is there is read. *)

From stdpp Require Import base list gmap numbers.
From S2P Require Import Prelude Aes Random RpcWire Stream RelayIdle RelayIdleRun Desync ClientFrames.
Local Open Scope Z_scope.

(** * The reference parser *)

(** Length and quick-ack flag of the header at the front, and what follows it. *)
Definition split_header (tag : ProtoTag) (d : list Z) : option (Z * bool * list Z) :=
  match tag with
  | Abridged =>
      match d with
      | [] => None
      | first :: d =>
          let quickack := negb (Z.land first 0x80 =? 0) in
          if Z.land first 0x7f =? 0x7f then
            if (length d <? 3)%nat then None else Some (of_le (take 3 d) * 4, quickack, drop 3 d)
          else Some (Z.land first 0x7f * 4, quickack, d)
      end
  | Intermediate | Secure =>
      if (length d <? 4)%nat then None
      else
        let h := parse_intermediate_header (take 4 d) in
        Some (ih_wire_len h, ih_quickack h, drop 4 d)
  end.

(** Padding is what lies past the last whole word. *)
Definition strip_padding (tag : ProtoTag) (body : list Z) : list Z :=
  match tag with
  | Secure => take (length body - length body mod 4)%nat body
  | _ => body
  end.

(** The first frame with a payload: the empty frames before it, its length, the
    payload, the quick-ack flag and the rest of the stream. *)
Record Frame := mkFrame { fr_zeros : nat; fr_len : Z; fr_payload : list Z; fr_quickack : bool; fr_rest : list Z }.

Fixpoint frame_at (n : nat) (tag : ProtoTag) (d : list Z) : option Frame :=
  match n with
  | O => None
  | S n =>
      match split_header tag d with
      | None => None
      | Some (len, quickack, d) =>
          if len =? 0 then
            match frame_at n tag d with
            | None => None
            | Some f => Some (mkFrame (S (fr_zeros f)) (fr_len f) (fr_payload f) (fr_quickack f) (fr_rest f))
            end
          else if (length d <? Z.to_nat len)%nat then None
          else Some (mkFrame 0 len (strip_padding tag (take (Z.to_nat len) d)) quickack (drop (Z.to_nat len) d))
      end
  end.

Lemma split_header_length tag d len q d' :
  split_header tag d = Some (len, q, d') -> (length d' < length d)%nat.
Proof.
  unfold split_header. intros Hs. destruct tag; [destruct d; [done|]|..]; repeat case_match; simplify_eq; cbn [length] in *;
    rewrite ?length_drop; repeat match goal with H : (_ <? _)%nat = false |- _ => apply Nat.ltb_ge in H end; lia.
Qed.

Lemma frame_at_length n tag d f : frame_at n tag d = Some f -> (length (fr_rest f) <= length d)%nat.
Proof.
  revert d f. induction n as [|n IH]; intros d f; cbn [frame_at]; [done|].
  destruct (split_header tag d) as [[[len q] d']|] eqn:Hs; [|done]. apply split_header_length in Hs.
  destruct (len =? 0).
  - destruct (frame_at n tag d') as [f'|] eqn:Hf; [|done]. intros [= <-]. cbn. specialize (IH _ _ Hf). lia.
  - destruct (_ <? _)%nat; [done|]. intros [= <-]. cbn. rewrite length_drop. lia.
Qed.

(** * Reading an exact number of bytes *)

Section sound.
Context {R : Type} `{AsyncRead R} (spec : ReaderSpec R).
Implicit Types (r : R) (x : ReadCtx) (ticks : list Tick).

Lemma poll_until_sound n fuel cap r a r' :
  reader_ok spec r -> poll_until n fuel cap r = Some (a, r') ->
  reader_ok spec r' /\
  match a with
  | Some (Ok bs) => (length bs <= cap)%nat /\ delivered spec r' = delivered spec r ++ bs
  | _ => delivered spec r' = delivered spec r
  end.
Proof.
  revert r. induction n as [|n IH]; intros r Hr; cbn [poll_until];
    (destruct (poll_read fuel cap r) as [[[|res] r1]|] eqn:Hp; [| |done]);
    destruct (poll_read_spec spec _ _ _ _ _ Hr Hp) as [Hr1 Hd].
  - by intros [= <- <-].
  - intros [= <- <-]. by destruct res.
  - intros Hrun. rewrite <- Hd. by apply IH.
  - intros [= <- <-]. by destruct res.
Qed.

(** The context during a read: the idle state's clock and debt, the desync cache
    and the frame counter are as before; only marks are counted, and a hard close
    at or after its deadline. *)
Definition kept x x' : Prop :=
  last_client_frame_at (rx_idle x') = last_client_frame_at (rx_idle x) /\
  tiny_frame_debt (rx_idle x') = tiny_frame_debt (rx_idle x) /\
  rx_desync x' = rx_desync x /\ rx_frame_counter x' = rx_frame_counter x.

Definition marked x x' : Prop :=
  kept x x' /\ exists new, rx_stats x' = rx_stats x ++ new /\ Forall (fun s => s = IdleSoftMark) new.

Definition quiet (e : ReadEnv) x x' : Prop :=
  kept x x' /\ exists new, rx_stats x' = rx_stats x ++ new /\
    Forall (fun s => s = IdleSoftMark \/
      (s = IdleHardClose /\ last_client_frame_at (rx_idle x') + hard_idle (re_policy e) <= rx_clock x')) new.

Lemma kept_trans x x1 x2 : kept x x1 -> kept x1 x2 -> kept x x2.
Proof. intros (? & ? & ? & ?) (? & ? & ? & ?). split_and!; congruence. Qed.

Lemma marked_quiet e x x1 x2 : marked x x1 -> quiet e x1 x2 -> quiet e x x2.
Proof.
  intros [Hk (n1 & Hs1 & Hf1)] [Hk' (n2 & Hs2 & Hf2)]. split; [by eapply kept_trans|]. exists (n1 ++ n2).
  split; [by rewrite Hs2, Hs1, app_assoc|]. apply Forall_app. split; [|done].
  eapply Forall_impl; [|exact Hf1]. by left.
Qed.

Lemma read_quiet_refl e x x' : marked x x' -> quiet e x x'.
Proof.
  intros [Hk (n & Hs & Hf)]. split; [done|]. exists n. split; [done|]. eapply Forall_impl; [|exact Hf]. by left.
Qed.

Lemma hard_deadline_late policy idle started ms :
  last_client_frame_at idle + hard_idle policy <= hard_deadline policy idle started ms.
Proof. unfold hard_deadline. repeat case_match; lia. Qed.

Lemma soft_mark_marked e now x : marked x (soft_mark e now x).
Proof.
  unfold soft_mark. destruct (_ && _); [|split; [done|]; exists []; by rewrite app_nil_r].
  destruct (mark_relay_idle_candidate_in _ _) as [[] g]; split; try done.
  - exists [IdleSoftMark]. split; [done | by repeat constructor].
  - exists []. cbn. by rewrite app_nil_r.
Qed.

(** One round up to the answer of the read. *)
Definition round_ctx (e : ReadEnv) (tk : Tick) x : ReadCtx :=
  let x := set_clock (tk_now tk) (set_registry (run_idle (tk_others tk) (rx_registry x)).2 x) in
  set_clock (tk_end tk) (if ip_enabled (re_policy e) then soft_mark e (tk_now tk) x else x).

Lemma round_marked e tk x : marked x (round_ctx e tk x).
Proof.
  unfold round_ctx. set (x1 := set_clock (tk_now tk) _). destruct (ip_enabled _).
  - apply (soft_mark_marked e (tk_now tk) x1).
  - split; [done|]. exists []. by rewrite app_nil_r.
Qed.

Lemma marked_refl x : marked x x.
Proof. split; [done|]. exists []. by rewrite app_nil_r. Qed.

Lemma marked_trans x x1 x2 : marked x x1 -> marked x1 x2 -> marked x x2.
Proof.
  intros [Hk (n1 & Hs1 & Hf1)] [Hk' (n2 & Hs2 & Hf2)]. split; [by eapply kept_trans|]. exists (n1 ++ n2).
  split; [by rewrite Hs2, Hs1, app_assoc | by apply Forall_app].
Qed.

Lemma read_exact_sound e fuel want ticks buf x r res ticks' x' r' :
  reader_ok spec r -> (length buf <= want)%nat ->
  read_exact_with_policy e fuel want ticks buf x r = Some (res, ticks', x', r') ->
  reader_ok spec r' /\ exists new, delivered spec r' = delivered spec r ++ new /\
  match res with
  | Ok bs => marked x x' /\ bs = buf ++ new /\ length bs = want
  | Err _ => quiet e x x' /\ (length (buf ++ new) < want)%nat
  end.
Proof.
  revert buf x r. induction ticks as [|tk ticks IH]; intros buf x r Hr Hl; cbn [read_exact_with_policy];
    (destruct (Nat.leb_spec want (length buf)) as [Hfull|Hmore];
     [intros [= <- <- <- <-]; split; [done|]; exists []; rewrite !app_nil_r; split_and!; [done | apply marked_refl | done | lia]|]);
    [done|].
  destruct (poll_until (tk_polls tk) fuel (want - length buf) r) as [[a r1]|] eqn:Hp; [|done].
  destruct (poll_until_sound _ _ _ _ _ _ Hr Hp) as [Hr1 Hd]. cbv zeta. fold (round_ctx e tk x).
  pose proof (round_marked e tk x) as Hm. assert (rx_clock (round_ctx e tk x) = tk_end tk) as Hclk by done.
  set (x1 := round_ctx e tk x) in *. clearbody x1. assert (quiet e x x1) as Hq by by apply read_quiet_refl.
  assert (forall k, Some (Err (RelayIo k), ticks, x1, r1) = Some (res, ticks', x', r') -> delivered spec r1 = delivered spec r ->
    reader_ok spec r' /\ exists new, delivered spec r' = delivered spec r ++ new /\
    match res with
    | Ok bs => marked x x' /\ bs = buf ++ new /\ length bs = want
    | Err _ => quiet e x x' /\ (length (buf ++ new) < want)%nat
    end) as Hstop.
  { intros k [= <- <- <- <-] Heq. split; [done|]. exists []. by rewrite !app_nil_r. }
  assert (forall new, delivered spec r1 = delivered spec r ++ new -> (length (buf ++ new) <= want)%nat ->
    read_exact_with_policy e fuel want ticks (buf ++ new) x1 r1 = Some (res, ticks', x', r') ->
    reader_ok spec r' /\ exists new, delivered spec r' = delivered spec r ++ new /\
    match res with
    | Ok bs => marked x x' /\ bs = buf ++ new /\ length bs = want
    | Err _ => quiet e x x' /\ (length (buf ++ new) < want)%nat
    end) as Hgo.
  { intros new Heq Hlen Hrun. apply IH in Hrun as (Hr' & new' & Hd' & Hres); [|done | done]. split; [done|].
    exists (new ++ new'). rewrite Hd', Heq, <- !app_assoc. split; [done|]. rewrite <- app_assoc in Hres.
    destruct res; destruct Hres as [? ?]; (split; [|done]); [by eapply marked_trans | by eapply marked_quiet]. }
  destruct a as [[bs|k]|].
  - destruct Hd as [Hbs Hd]. destruct bs as [|b bs]; [intros Heq; eapply Hstop; [exact Heq | by rewrite app_nil_r in Hd]|].
    apply Hgo; [done | rewrite length_app; lia].
  - intros Heq. by eapply Hstop.
  - destruct (negb _); [intros Heq; by eapply Hstop|].
    destruct (Z.leb_spec (hard_deadline (re_policy e) (rx_idle x1) (re_session_started_at e) (tk_end_downstream_ms tk)) (tk_end tk)) as [Hdl|_].
    + intros [= <- <- <- <-]. split; [done|]. exists []. rewrite !app_nil_r. split_and!; [done | | done].
      eapply marked_quiet; [exact Hm|]. split; [done|]. exists [IdleHardClose]. split; [done|]. apply Forall_singleton. right.
      split; [done|]. pose proof (hard_deadline_late (re_policy e) (rx_idle x1) (re_session_started_at e) (tk_end_downstream_ms tk)).
      change (last_client_frame_at (rx_idle x1) + hard_idle (re_policy e) <= rx_clock x1). lia.
    + specialize (Hgo []). rewrite !app_nil_r in Hgo. by apply Hgo.
Qed.

(** * Headers *)

Lemma split_header_short tag d :
  length d = 0%nat \/ (tag <> Abridged /\ (length d < 4)%nat) -> split_header tag d = None.
Proof.
  intros Hd. destruct tag; cbn [split_header]; [|by rewrite (proj2 (Nat.ltb_lt _ _)) by lia..].
  destruct Hd as [Hd|[? _]]; [by destruct d | done].
Qed.

Lemma read_exact_start e fuel want ticks x r res ticks' x' r' :
  reader_ok spec r -> read_exact_with_policy e fuel want ticks [] x r = Some (res, ticks', x', r') ->
  reader_ok spec r' /\ exists new, delivered spec r' = delivered spec r ++ new /\
  match res with
  | Ok bs => marked x x' /\ bs = new /\ length new = want
  | Err _ => quiet e x x' /\ (length new < want)%nat
  end.
Proof.
  intros Hr Hx. destruct (read_exact_sound e fuel want ticks [] x r res ticks' x' r' Hr (Nat.le_0_l want) Hx) as (Hr' & new & Hd & Hres).
  split; [done|]. exists new. split; [done|]. destruct res; cbn [app] in Hres; [|done]. destruct Hres as (? & -> & ?). done.
Qed.

(** What a header read can end in: a length to go on with, or an outcome without
    a frame. *)
Definition header_goes_on (e : ReadEnv) x r (k : Z -> bool -> list Tick -> ReadCtx -> R -> option (FrameRead R)) (out : FrameRead R) : Prop :=
  exists new len quickack ticks1 x1 r1, reader_ok spec r1 /\ delivered spec r1 = delivered spec r ++ new /\ marked x x1 /\
    (forall d, split_header (re_proto_tag e) (new ++ d) = Some (len, quickack, d)) /\
    k len quickack ticks1 x1 r1 = Some out.

Definition no_frame (e : ReadEnv) x r (out : FrameRead R) : Prop :=
  let '(res, _, x', r') := out in
  exists new, reader_ok spec r' /\ delivered spec r' = delivered spec r ++ new /\ quiet e x x' /\
    split_header (re_proto_tag e) new = None /\ match res with Ok (Some _) => False | _ => True end.

Lemma header_stops e x r err ticks1 x1 r1 new :
  reader_ok spec r1 -> delivered spec r1 = delivered spec r ++ new -> quiet e x x1 ->
  split_header (re_proto_tag e) new = None ->
  no_frame e x r (eof_or_fail err ticks1 x1 r1) /\ no_frame e x r (fail err ticks1 x1 r1).
Proof.
  intros Hr Hd Hq Hs. split; [|by exists new]. unfold eof_or_fail. repeat case_match; by exists new.
Qed.

Lemma read_header_sound e fuel ticks x r k out :
  reader_ok spec r -> read_header e fuel ticks x r k = Some out -> header_goes_on e x r k out \/ no_frame e x r out.
Proof.
  intros Hr. unfold read_header, read_then.
  assert (re_proto_tag e <> Abridged ->
    match read_exact_with_policy e fuel 4 ticks [] x r with
    | None => None
    | Some (Err err, ticks, x, r) => Some (eof_or_fail err ticks x r)
    | Some (Ok bs, ticks, x, r) =>
        k (ih_wire_len (parse_intermediate_header bs)) (ih_quickack (parse_intermediate_header bs)) ticks x r
    end = Some out -> header_goes_on e x r k out \/ no_frame e x r out) as Hfour.
  { intros Htag. destruct (read_exact_with_policy e fuel 4 ticks [] x r) as [[[[[bs|err] ticks1] x1] r1]|] eqn:Hx; [| |done];
      destruct (read_exact_start _ _ _ _ _ _ _ _ _ _ Hr Hx) as (Hr1 & new & Hd & Hm & Hl).
    - destruct Hl as [-> Hl]. intros Hk. left. do 6 eexists. split_and!; try done. intros d.
      destruct (re_proto_tag e); [done | |]; cbn [split_header];
        rewrite (proj2 (Nat.ltb_ge _ _)) by (rewrite length_app; lia); by rewrite take_app_length', drop_app_length' by done.
    - intros [= <-]. right. apply (header_stops e x r err ticks1 x1 r1 new); try done. apply split_header_short. by right. }
  destruct (re_proto_tag e) eqn:Htag; [|by apply Hfour..]. clear Hfour.
  destruct (read_exact_with_policy e fuel 1 ticks [] x r) as [[[[[bs|err] ticks1] x1] r1]|] eqn:Hx; [| |done];
    destruct (read_exact_start _ _ _ _ _ _ _ _ _ _ Hr Hx) as (Hr1 & new & Hd & Hm & Hl).
  2:{ intros [= <-]. right. apply (header_stops e x r err ticks1 x1 r1 new); try done. apply split_header_short. left. lia. }
  destruct Hl as [-> Hl]. destruct new as [|first [|]]; [done| |done]. cbv zeta. change (cell [first] 0) with first.
  destruct (Z.eqb_spec (Z.land first 0x7f) 0x7f) as [Hext|Hshort].
  - destruct (read_exact_with_policy e fuel 3 ticks1 [] x1 r1) as [[[[[ext|err] ticks2] x2] r2]|] eqn:Hx2; [| |done];
      destruct (read_exact_start _ _ _ _ _ _ _ _ _ _ Hr1 Hx2) as (Hr2 & new & Hd2 & Hm2 & Hl2).
    + destruct Hl2 as [-> Hl2]. intros Hk. left. exists (first :: new). do 5 eexists.
      split_and!; [done | by rewrite Hd2, Hd, <- app_assoc | by eapply marked_trans | | exact Hk].
      intros d. rewrite Htag. cbn [app split_header].
      rewrite (proj2 (Z.eqb_eq _ _) Hext), (proj2 (Nat.ltb_ge _ _)) by (rewrite length_app; lia).
      by rewrite take_app_length', drop_app_length' by done.
    + intros [= <-]. right. apply (header_stops e x r err ticks2 x2 r2 (first :: new)); try done.
      * by rewrite Hd2, Hd, <- app_assoc.
      * by eapply marked_quiet.
      * rewrite Htag. cbn [split_header]. by rewrite (proj2 (Z.eqb_eq _ _) Hext), (proj2 (Nat.ltb_lt _ _)) by lia.
  - intros Hk. left. exists [first]. do 5 eexists. split_and!; try done. intros d. rewrite Htag. cbn [app split_header].
    by rewrite (proj2 (Z.eqb_neq _ _) Hshort).
Qed.

(** * Frames *)

(** Hard closes are never early. *)
Definition closes_late (e : ReadEnv) x x' : Prop :=
  exists new, rx_stats x' = rx_stats x ++ new /\
    (IdleHardClose ∈ new -> last_client_frame_at (rx_idle x') + hard_idle (re_policy e) <= rx_clock x').

Lemma quiet_late e x x' : quiet e x x' -> closes_late e x x'.
Proof.
  intros [_ (new & Hs & Hf)]. exists new. split; [done|]. intros Hin. rewrite list.Forall_forall in Hf.
  by destruct (Hf _ Hin) as [?|[_ ?]].
Qed.

Lemma counted_late e x x1 s x' :
  marked x x1 -> rx_stats x' = rx_stats x1 ++ s -> IdleHardClose ∉ s -> closes_late e x x'.
Proof.
  intros [_ (new & Hs & Hf)] Hs' Hn. exists (new ++ s). split; [by rewrite Hs', Hs, app_assoc|].
  intros [Hin|Hin]%elem_of_app; [|done]. rewrite list.Forall_forall in Hf. by specialize (Hf _ Hin).
Qed.

Lemma marked_late e x x1 x2 x3 s :
  marked x x1 -> rx_stats x2 = rx_stats x1 ++ s -> IdleHardClose ∉ s -> closes_late e x2 x3 -> closes_late e x x3.
Proof.
  intros [_ (new & Hs & Hf)] Hs2 Hn (new2 & Hs3 & Hl). exists (new ++ s ++ new2).
  split; [by rewrite Hs3, Hs2, Hs, !app_assoc|]. intros [Hin|[Hin|Hin]%elem_of_app]%elem_of_app; [|done | by apply Hl].
  rewrite list.Forall_forall in Hf. by specialize (Hf _ Hin).
Qed.

Definition body_post (e : ReadEnv) (len : Z) (quickack : bool) x r (out : FrameRead R) : Prop :=
  let '(res, _, x', r') := out in
  reader_ok spec r' /\ closes_late e x x' /\ exists body, delivered spec r' = delivered spec r ++ body /\
  match res with
  | Ok (Some (p, q)) =>
      length body = Z.to_nat len /\ p = strip_padding (re_proto_tag e) body /\ q = quickack /\ len <= re_max_frame e /\
      (re_proto_tag e = Abridged \/ 4 <= len) /\
      rx_frame_counter x' = rx_frame_counter x + 1 /\ last_client_frame_at (rx_idle x') = rx_clock x' /\
      soft_idle_marked (rx_idle x') = false /\ by_conn_id (rx_registry x') !! re_conn_id e = None
  | Ok None => False
  | Err _ => True
  end.

Lemma cleared_gone c g : by_conn_id (clear_relay_idle_candidate_in c g) !! c = None.
Proof.
  unfold clear_relay_idle_candidate_in. destruct (by_conn_id g !! c) eqn:Hc; [|done]. cbn. by rewrite lookup_delete_eq.
Qed.

Lemma strip_secure len body :
  4 <= len -> length body = Z.to_nat len -> take (Z.to_nat (len - len mod 4)) body = strip_padding Secure body.
Proof.
  intros Hlen Hb. cbn [strip_padding]. f_equal. rewrite Hb. pose proof (Z.mod_pos_bound len 4 ltac:(lia)).
  rewrite Z2Nat.inj_sub by lia. f_equal. rewrite Z2Nat.inj_mod by lia. done.
Qed.

Lemma read_payload_sound e fuel len quickack ticks x r out :
  reader_ok spec r -> read_payload e fuel len quickack ticks x r = Some out -> body_post e len quickack x r out.
Proof.
  intros Hr. unfold read_payload.
  assert (forall err s x1, rx_stats x1 = rx_stats x ++ s -> IdleHardClose ∉ s ->
    body_post e len quickack x r (fail err ticks x1 r)) as Hfail.
  { intros err s x1 Hs Hn. split; [done|]. split; [by eapply counted_late; [apply marked_refl | |]|].
    exists []. by rewrite app_nil_r. }
  destruct (_ && _) eqn:Hsmall; [intros [= <-]; apply (Hfail _ [ProtocolDesyncClose]); [done | set_solver]|].
  destruct (Z.ltb_spec (re_max_frame e) len) as [|Hmax].
  { unfold report_desync_frame_too_large_in. destruct (should_emit_full_desync_in _ _ _ _) as [b d]. intros [= <-].
    eapply Hfail; [reflexivity|]. cbn [fmap list_fmap]. rewrite !not_elem_of_cons. split_and!; try done. apply not_elem_of_nil. }
  assert (re_proto_tag e = Abridged \/ 4 <= len) as Hbig.
  { apply andb_false_iff in Hsmall as [?%Z.ltb_ge|Ht]; [by right|]. left. apply negb_false_iff in Ht. by apply bool_decide_eq_true in Ht. }
  clear Hsmall.
  assert (forall plen, (re_proto_tag e = Secure -> Some plen = secure_version_d_body_len_from_wire_len len) ->
    read_then (read_exact_with_policy e fuel (Z.to_nat len) ticks [] x r) fail (fun payload ticks x r =>
          let payload := if bool_decide (re_proto_tag e = Secure) then take (Z.to_nat plen) payload else payload in
          let idle := on_client_frame (rx_clock x) (rx_idle x) in
          let idle := mkIdleState (last_client_frame_at idle) (soft_idle_marked idle) (sat_sub (tiny_frame_debt idle) 1) in
          let x := mkReadCtx idle (clear_relay_idle_candidate_in (re_conn_id e) (rx_registry x)) (rx_desync x) (rx_stats x)
            (rx_frame_counter x + 1) (rx_clock x) in
          Some (Ok (Some (payload, quickack)), ticks, x, r)) = Some out -> body_post e len quickack x r out) as Hbody.
  { intros plen Hplen. unfold read_then.
    destruct (read_exact_with_policy e fuel (Z.to_nat len) ticks [] x r) as [[[[[bs|err] ticks1] x1] r1]|] eqn:Hx; [| |done];
      destruct (read_exact_start _ _ _ _ _ _ _ _ _ _ Hr Hx) as (Hr1 & new & Hd & Hm & Hl); intros [= <-].
    - destruct Hl as [-> Hl]. split; [done|].
      split; [eapply (counted_late e x x1 []); [done | by rewrite app_nil_r | by apply not_elem_of_nil]|].
      exists new. split; [done|]. pose proof Hm as [(_ & _ & _ & Hfc) _].
      cbn [rx_frame_counter rx_idle rx_clock rx_registry last_client_frame_at soft_idle_marked on_client_frame].
      split_and!; try done; [| by rewrite Hfc | apply cleared_gone].
      case_bool_decide as Hsec; [|by destruct (re_proto_tag e) eqn:?]. rewrite Hsec. specialize (Hplen Hsec).
      unfold secure_version_d_body_len_from_wire_len in Hplen. destruct (Z.ltb_spec len 4); [done|].
      injection Hplen as ->. by apply strip_secure.
    - split; [done|]. split; [by apply quiet_late|]. by exists new. }
  set (o := if bool_decide (re_proto_tag e = Secure) then secure_version_d_body_len_from_wire_len len else Some len).
  destruct o as [plen|] eqn:Ho; unfold o in Ho.
  - apply (Hbody plen). intros Hs. by rewrite bool_decide_true in Ho.
  - intros [= <-]. apply (Hfail _ [SecurePaddingInvalid; ProtocolDesyncClose]); [done | set_solver].
Qed.

(** What one call reads is the next frame of the stream. *)
Definition frame_post (n : nat) (e : ReadEnv) x r (out : FrameRead R) : Prop :=
  let '(res, _, x', r') := out in
  reader_ok spec r' /\ closes_late e x x' /\ exists new, delivered spec r' = delivered spec r ++ new /\
  match res with
  | Ok (Some (p, q)) =>
      (exists f, frame_at n (re_proto_tag e) new = Some f /\ fr_payload f = p /\ fr_quickack f = q /\ fr_rest f = [] /\
        fr_len f <= re_max_frame e /\ (re_proto_tag e = Abridged \/ 4 <= fr_len f)) /\
      rx_frame_counter x' = rx_frame_counter x + 1 /\ last_client_frame_at (rx_idle x') = rx_clock x' /\
      soft_idle_marked (rx_idle x') = false /\ by_conn_id (rx_registry x') !! re_conn_id e = None
  | Ok None => frame_at n (re_proto_tag e) new = None
  | Err _ => True
  end.

Lemma on_zero_len_stats e zeros x res x' :
  on_zero_len e zeros x = (res, x') ->
  rx_frame_counter x' = rx_frame_counter x /\ exists s, rx_stats x' = rx_stats x ++ s /\ IdleHardClose ∉ s.
Proof.
  unfold on_zero_len. assert (IdleHardClose ∉ [ProtocolDesyncClose]) by set_solver.
  assert (IdleHardClose ∉ @nil RelayStat) by set_solver.
  repeat case_match; intros [= <- <-]; (split; [done|]); cbn [count set_idle rx_stats];
    [by eexists | by eexists | exists []; by rewrite app_nil_r..].
Qed.

Lemma read_client_payload_sound n e fuel zeros ticks x r out :
  reader_ok spec r -> read_client_payload n e fuel zeros ticks x r = Some out -> frame_post n e x r out.
Proof.
  revert zeros ticks x r. induction n as [|n IH]; intros zeros ticks x r Hr; cbn [read_client_payload]; [done|].
  intros Hrun. apply read_header_sound in Hrun; [|done].
  destruct Hrun as [(new & len & q & ticks1 & x1 & r1 & Hr1 & Hd & Hm & Hsplit & Hk) | Hno].
  2:{ destruct out as [[[res ticks'] x'] r']. destruct Hno as (new & Hr' & Hd & Hq & Hs & Hres).
      split; [done|]. split; [by apply quiet_late|]. exists new. split; [done|].
      destruct res as [[[p q]|]|]; try done. cbn [frame_at]. by rewrite Hs. }
  destruct (Z.eqb_spec len 0) as [->|Hnz].
  - destruct (on_zero_len e zeros x1) as [res0 x2] eqn:Hz. destruct (on_zero_len_stats _ _ _ _ _ Hz) as (Hfc & s & Hs & Hn).
    pose proof Hm as [(_ & _ & _ & Hfc1) _]. destruct res0 as [zeros'|err].
    + apply IH in Hk; [|done]. destruct out as [[[res ticks'] x'] r']. destruct Hk as (Hr' & Hl & new' & Hd' & Hres).
      split; [done|]. split; [by eapply marked_late|]. exists (new ++ new'). split; [by rewrite Hd', Hd, app_assoc|].
      destruct res as [[[p q']|]|]; [| |done]; cbn [frame_at]; rewrite Hsplit, Z.eqb_refl.
      * destruct Hres as ((f & -> & Hp & Hq & Hrest & Hlen & Hbig) & Hc & Hrest').
        split; [by eexists|]. split; [congruence | done].
      * by rewrite Hres.
    + injection Hk as <-. split; [done|]. split; [by eapply counted_late|]. by exists new.
  - apply read_payload_sound in Hk; [|done]. destruct out as [[[res ticks'] x'] r'].
    destruct Hk as (Hr' & Hl & body & Hd' & Hres). split; [done|].
    split; [eapply (marked_late e x x1 x1 x' []); [done | by rewrite app_nil_r | set_solver | done]|].
    exists (new ++ body). split; [by rewrite Hd', Hd, app_assoc|].
    destruct res as [[[p q']|]|]; [| done | done]. destruct Hres as (Hb & -> & -> & Hlen & Hbig & Hc & Hrest).
    pose proof Hm as [(_ & _ & _ & Hfc1) _]. split; [|split; [congruence | done]].
    cbn [frame_at]. rewrite Hsplit, (proj2 (Z.eqb_neq _ _) Hnz), (proj2 (Nat.ltb_ge _ _)) by lia.
    eexists. split; [reflexivity|]. cbn [fr_payload fr_quickack fr_rest fr_len].
    rewrite firstn_all2, skipn_all2 by lia. done.
Qed.
End sound.

(** * Frames that are there are read *)

Section complete.
Context {R : Type} `{AsyncRead R} (src : SourceSpec R).
Implicit Types (r : R) (x : ReadCtx) (ticks : list Tick).

(** The reader after handing out [k] bytes. *)
Definition advanced (k : nat) r r' : Prop :=
  source_ok src r' /\ (fuel_need src r' <= fuel_need src r)%nat /\ (patience src r' <= patience src r)%nat /\
  future src r' = drop k (future src r).

Lemma advanced_trans a b r r1 r2 : advanced a r r1 -> advanced b r1 r2 -> advanced (a + b) r r2.
Proof. intros (? & ? & ? & Ha) (? & ? & ? & Hb). split_and!; [done | lia | lia |]. by rewrite Hb, Ha, drop_drop. Qed.

(** Rounds for [m] bytes, none of which is cut off by the timer. *)
Definition patient r (m : nat) ticks : Prop :=
  (m <= length ticks)%nat /\ Forall (fun tk => (patience src r <= tk_polls tk)%nat) ticks.

Lemma patient_later a r r' m m' ticks ticks' :
  advanced a r r' -> patient r m ticks -> ticks' `suffix_of` ticks -> (m' <= length ticks')%nat -> patient r' m' ticks'.
Proof.
  intros (_ & _ & Hp & _) [_ Hf] [l ->] Hm. split; [done|]. apply Forall_app in Hf as [_ Hf].
  eapply Forall_impl; [|exact Hf]. cbn. lia.
Qed.

Lemma poll_until_live n fuel cap r :
  source_ok src r -> (fuel_need src r <= fuel)%nat -> (0 < cap)%nat -> (patience src r <= n)%nat ->
  exists bs r', poll_until n fuel cap r = Some (Some (Ok bs), r') /\ advanced (length bs) r r' /\
    future src r = bs ++ future src r' /\ (length bs <= cap)%nat /\ (bs = [] -> future src r = []).
Proof.
  revert r. induction n as [|n IH]; intros r Hok Hf Hcap Hp; cbn [poll_until];
    destruct (source_poll src fuel cap r Hok Hf Hcap) as (p & r1 & -> & Hok1 & Hf1 & Hpost);
    (destruct p as [|[bs|err]]; [| |done]).
  - lia.
  - destruct Hpost as (Heq & Hl & Hend & Hpat). exists bs, r1. split_and!; try done. split_and!; try done.
    by rewrite Heq, drop_app_length.
  - destruct Hpost as [Heq Hlt]. destruct (IH r1 Hok1 ltac:(lia) Hcap ltac:(lia)) as (bs & r2 & -> & (H1 & H2 & H3 & H4) & H5 & H6 & H7).
    rewrite Heq in *. exists bs, r2. split_and!; try done. split_and!; [done | lia | lia | by rewrite H4].
  - destruct Hpost as (Heq & Hl & Hend & Hpat). exists bs, r1. split_and!; try done. split_and!; try done.
    by rewrite Heq, drop_app_length.
Qed.

Lemma read_exact_live e fuel want ticks buf x r :
  source_ok src r -> (fuel_need src r <= fuel)%nat -> (length buf <= want)%nat ->
  (want - length buf <= length (future src r))%nat -> patient r (want - length buf) ticks ->
  exists ticks' x' r', 
    read_exact_with_policy e fuel want ticks buf x r = Some (Ok (buf ++ take (want - length buf) (future src r)), ticks', x', r') /\
    advanced (want - length buf) r r' /\ marked x x' /\ ticks' `suffix_of` ticks /\
    (length ticks <= length ticks' + (want - length buf))%nat.
Proof.
  revert buf x r. induction ticks as [|tk ticks IH]; intros buf x r Hok Hf Hl Hav [Hlen Hpat]; cbn [read_exact_with_policy];
    (destruct (Nat.leb_spec want (length buf)) as [Hfull|Hmore];
     [replace (want - length buf)%nat with 0%nat by lia; rewrite app_nil_r; do 3 eexists; split; [reflexivity|];
      split_and!; [by split_and! | apply marked_refl | done | lia]|]); [cbn in Hlen; lia|].
  apply Forall_cons_1 in Hpat as [Htk Hpat]. cbn [length] in Hlen.
  destruct (poll_until_live (tk_polls tk) fuel (want - length buf) r Hok Hf ltac:(lia) Htk) as (bs & r1 & -> & Hadv & Hfut & Hbs & Hend).
  cbv zeta. fold (round_ctx e tk x). pose proof (round_marked e tk x) as Hm.
  destruct bs as [|b bs]; [rewrite (Hend eq_refl) in Hav; cbn in Hav; lia|].
  pose proof Hadv as (Hok1 & Hf1 & Hp1 & Hfu1). set (bs' := b :: bs) in *.
  assert (0 < length bs')%nat as Hpos by (cbn; lia). clearbody bs'. pose proof (f_equal length Hfut) as Hflen. rewrite length_app in Hflen.
  destruct (IH (buf ++ bs') (round_ctx e tk x) r1) as (ticks' & x' & r' & Hrun & Hadv' & Hm' & Hsuf & Hcount); try done; rewrite ?length_app; try lia.
  { split; [lia|]. eapply Forall_impl; [|exact Hpat]. cbn. lia. }
  rewrite length_app in *. exists ticks', x', r'.
  replace (want - length buf)%nat with (length bs' + (want - (length buf + length bs')))%nat by lia. split_and!.
  - by rewrite Hrun, Hfut, take_app_add, <- app_assoc.
  - by eapply advanced_trans.
  - by eapply marked_trans.
  - by apply suffix_cons_r.
  - cbn [length]. lia.
Qed.

(** A step of the read that consumed the stream up to [d]. *)
Definition reads_to (d : list Z) ticks x r ticks' x' r' : Prop :=
  advanced (length (future src r) - length d) r r' /\ future src r' = d /\ marked x x' /\ ticks' `suffix_of` ticks /\
  (length ticks <= length ticks' + (length (future src r) - length d))%nat /\ (length d <= length (future src r))%nat.

Lemma read_exact_there e fuel want ticks x r :
  source_ok src r -> (fuel_need src r <= fuel)%nat -> (want <= length (future src r))%nat -> patient r want ticks ->
  exists ticks' x' r', 
    read_exact_with_policy e fuel want ticks [] x r = Some (Ok (take want (future src r)), ticks', x', r') /\
    reads_to (drop want (future src r)) ticks x r ticks' x' r'.
Proof.
  intros Hok Hf Hav Hpat. destruct (read_exact_live e fuel want ticks [] x r Hok Hf (Nat.le_0_l want)) as (ticks' & x' & r' & Hrun & Hadv & Hrest);
    [cbn [length]; lia | by rewrite Nat.sub_0_r|]. cbn [length app] in *. rewrite Nat.sub_0_r in *.
  exists ticks', x', r'. split; [done|]. unfold reads_to. rewrite length_drop.
  replace (length (future src r) - (length (future src r) - want))%nat with want by lia.
  pose proof Hadv as (_ & _ & _ & Hfu). destruct Hrest as (? & ? & ?). split_and!; try done; lia.
Qed.

Lemma reads_to_trans d1 d2 ticks x r ticks1 x1 r1 ticks2 x2 r2 :
  reads_to d1 ticks x r ticks1 x1 r1 -> reads_to d2 ticks1 x1 r1 ticks2 x2 r2 -> reads_to d2 ticks x r ticks2 x2 r2.
Proof.
  intros (Ha & Hd & Hm & Hs & Hc & Hl) (Ha' & Hd' & Hm' & Hs' & Hc' & Hl'). rewrite Hd in *.
  split_and!; [| done | by eapply marked_trans | by etrans | lia | lia].
  replace (length (future src r) - length d2)%nat with
    ((length (future src r) - length d1) + (length d1 - length d2))%nat by lia. by eapply advanced_trans.
Qed.

Lemma reads_to_ctx xa xb d1 d2 ticks x r ticks1 r1 ticks2 r2 :
  reads_to d1 ticks x r ticks1 xa r1 -> reads_to d2 ticks1 xb r1 ticks2 xb r2 -> reads_to d2 ticks x r ticks2 x r2.
Proof.
  intros (Ha & Hd & _ & Hs & Hc & Hl) (Ha' & Hd' & _ & Hs' & Hc' & Hl').
  apply (reads_to_trans d1 d2 ticks x r ticks1 x r1); (split_and!; try done; apply marked_refl).
Qed.

Lemma reads_to_ready d ticks x r ticks' x' r' fuel m :
  reads_to d ticks x r ticks' x' r' -> (fuel_need src r <= fuel)%nat ->
  patient r (length (future src r) - length d + m) ticks ->
  source_ok src r' /\ (fuel_need src r' <= fuel)%nat /\ patient r' m ticks'.
Proof.
  intros (Ha & _ & _ & Hs & Hc & _) Hf Hp. pose proof Ha as (? & ? & _). split_and!; [done | lia |].
  eapply patient_later; try done. destruct Hp. lia.
Qed.

Lemma header_there e fuel ticks x r len q d k :
  source_ok src r -> (fuel_need src r <= fuel)%nat -> split_header (re_proto_tag e) (future src r) = Some (len, q, d) ->
  patient r (length (future src r) - length d) ticks ->
  exists ticks' x' r', read_header e fuel ticks x r k = k len q ticks' x' r' /\ reads_to d ticks x r ticks' x' r'.
Proof.
  intros Hok Hf Hsplit Hpat. unfold read_header, read_then.
  assert (re_proto_tag e <> Abridged -> exists ticks' x' r',
    match read_exact_with_policy e fuel 4 ticks [] x r with
    | None => None
    | Some (Err err, ticks, x, r) => Some (eof_or_fail err ticks x r)
    | Some (Ok bs, ticks, x, r) =>
        k (ih_wire_len (parse_intermediate_header bs)) (ih_quickack (parse_intermediate_header bs)) ticks x r
    end = k len q ticks' x' r' /\ reads_to d ticks x r ticks' x' r') as Hfour.
  { intros Htag. assert ((length (future src r) <? 4)%nat = false /\
      Some (ih_wire_len (parse_intermediate_header (take 4 (future src r))),
        ih_quickack (parse_intermediate_header (take 4 (future src r))), drop 4 (future src r)) = Some (len, q, d)) as [Hge Heq].
    { destruct (re_proto_tag e); [done | |]; cbn [split_header] in Hsplit; destruct (_ <? 4)%nat; done. }
    apply Nat.ltb_ge in Hge. injection Heq as <- <- <-. rewrite length_drop in Hpat.
    destruct (read_exact_there e fuel 4 ticks x r Hok Hf Hge) as (ticks' & x' & r' & -> & Hto).
    { by replace 4%nat with (length (future src r) - (length (future src r) - 4))%nat by lia. }
    by exists ticks', x', r'. }
  destruct (re_proto_tag e) eqn:Htag; [|by apply Hfour..]. clear Hfour. cbn [split_header] in Hsplit.
  destruct (future src r) as [|first f] eqn:Hfu; [done|].
  assert (length d <= length f)%nat as Hdl.
  { destruct (_ =? _); [destruct (_ <? _)%nat; [done|]|]; injection Hsplit as _ _ <-; rewrite ?length_drop; lia. }
  pose proof (read_exact_there e fuel 1 ticks x r Hok Hf) as Hone. rewrite Hfu in Hone. cbn [length take drop] in Hone, Hpat.
  destruct Hone as (ticks1 & x1 & r1 & -> & Hto1); [lia | destruct Hpat; split; [lia | done]|].
  rewrite drop_0 in Hto1. cbv zeta. change (cell [first] 0) with first.
  destruct (_ =? _) eqn:Hext; [|injection Hsplit as <- <- <-; by exists ticks1, x1, r1].
  destruct (Nat.ltb_spec (length f) 3) as [|Hge]; [done|]. injection Hsplit as <- <- <-.
  destruct (reads_to_ready _ _ _ _ _ _ _ fuel 3 Hto1 Hf) as (Hok1 & Hf1 & Hpat1).
  { rewrite Hfu. cbn [length]. destruct Hpat as [Hp1 Hp2]. rewrite length_drop in Hp1. split; [lia | done]. }
  pose proof Hto1 as (_ & Hfu1 & _). pose proof (read_exact_there e fuel 3 ticks1 x1 r1 Hok1 Hf1) as Htwo. rewrite Hfu1 in Htwo.
  destruct Htwo as (ticks2 & x2 & r2 & -> & Hto2); [done | done|]. exists ticks2, x2, r2. split; [done|].
  by eapply reads_to_trans.
Qed.

(** Empty frames the session may still send within one call. *)
Definition zeros_allowed (e : ReadEnv) (zeros : Z) x (n : nat) : Prop :=
  0 <= tiny_frame_debt (rx_idle x) /\ tiny_frame_debt (rx_idle x) + TINY_FRAME_DEBT_PER_TINY * Z.of_nat n < TINY_FRAME_DEBT_LIMIT /\
  (ip_enabled (re_policy e) = true \/ 0 <= zeros /\ zeros + Z.of_nat n <= LEGACY_MAX_CONSECUTIVE_ZERO_LEN_FRAMES).

Lemma on_zero_len_allowed e zeros x n :
  zeros_allowed e zeros x (S n) -> exists zeros' x', on_zero_len e zeros x = (Ok zeros', x') /\ zeros_allowed e zeros' x' n.
Proof.
  intros (Hd & Hlim & Hleg). unfold on_zero_len, zeros_allowed, TINY_FRAME_DEBT_PER_TINY, TINY_FRAME_DEBT_LIMIT,
    LEGACY_MAX_CONSECUTIVE_ZERO_LEN_FRAMES in *. cbn [on_client_tiny_frame tiny_frame_debt last_client_frame_at soft_idle_marked].
  rewrite sat_add_exact by (unfold umax; lia). rewrite (proj2 (Z.leb_gt _ _)) by lia.
  destruct (ip_enabled (re_policy e)); cbn [negb].
  - do 2 eexists. split; [reflexivity|]. cbn [set_idle rx_idle tiny_frame_debt]. split_and!; [lia | lia | by left].
  - destruct Hleg as [?|[Hz Hz']]; [done|]. rewrite sat_add_exact by (unfold umax; lia). rewrite (proj2 (Z.ltb_ge _ _)) by lia.
    do 2 eexists. split; [reflexivity|]. cbn [set_idle rx_idle tiny_frame_debt]. split_and!; [lia | lia | right; lia].
Qed.

Lemma payload_there e fuel len q ticks x r :
  source_ok src r -> (fuel_need src r <= fuel)%nat -> len <= re_max_frame e -> (re_proto_tag e = Abridged \/ 4 <= len) ->
  (Z.to_nat len <= length (future src r))%nat -> patient r (Z.to_nat len) ticks ->
  exists ticks' x' r',
    read_payload e fuel len q ticks x r =
      Some (Ok (Some (strip_padding (re_proto_tag e) (take (Z.to_nat len) (future src r)), q)), ticks', x', r') /\
    reads_to (drop (Z.to_nat len) (future src r)) ticks x r ticks' x r' /\
    tiny_frame_debt (rx_idle x') = sat_sub (tiny_frame_debt (rx_idle x)) 1.
Proof.
  intros Hok Hf Hmax Hbig Hav Hpat. unfold read_payload.
  replace ((len <? 4) && negb (bool_decide (re_proto_tag e = Abridged))) with false.
  2:{ destruct Hbig as [Ht|Hl]; [rewrite bool_decide_true by done; by rewrite andb_false_r | by rewrite (proj2 (Z.ltb_ge _ _) Hl)]. }
  rewrite (proj2 (Z.ltb_ge _ _) Hmax).
  destruct (read_exact_there e fuel (Z.to_nat len) ticks x r Hok Hf Hav Hpat) as (ticks' & x' & r' & Hrun & Hto).
  assert (reads_to (drop (Z.to_nat len) (future src r)) ticks x r ticks' x r' /\
    tiny_frame_debt (rx_idle x') = tiny_frame_debt (rx_idle x)) as [Hto' Hdebt].
  { destruct Hto as (Ha & Hfu & Hm & Hrest). split; [split_and!; try done; [apply marked_refl | apply Hrest..] | apply Hm]. }
  unfold read_then. rewrite Hrun.
  case_bool_decide as Hsec.
  - destruct Hbig as [?|Hbig]; [congruence|]. unfold secure_version_d_body_len_from_wire_len. rewrite (proj2 (Z.ltb_ge _ _) Hbig).
    do 3 eexists. split; [rewrite strip_secure by (done || (rewrite length_take; lia)); by rewrite Hsec|].
    split; [done|]. cbn. by rewrite Hdebt.
  - do 3 eexists. split; [by destruct (re_proto_tag e)|]. split; [done|]. cbn. by rewrite Hdebt.
Qed.

Lemma frame_there n e fuel zeros ticks x r f :
  source_ok src r -> (fuel_need src r <= fuel)%nat -> frame_at n (re_proto_tag e) (future src r) = Some f ->
  fr_len f <= re_max_frame e -> (re_proto_tag e = Abridged \/ 4 <= fr_len f) -> zeros_allowed e zeros x (fr_zeros f) ->
  patient r (length (future src r) - length (fr_rest f)) ticks ->
  exists ticks' x' r', read_client_payload n e fuel zeros ticks x r = Some (Ok (Some (fr_payload f, fr_quickack f)), ticks', x', r') /\
    reads_to (fr_rest f) ticks x r ticks' x r' /\ 0 <= tiny_frame_debt (rx_idle x') < TINY_FRAME_DEBT_LIMIT.
Proof.
  revert zeros ticks x r f. induction n as [|n IH]; intros zeros ticks x r f Hok Hf; cbn [frame_at read_client_payload]; [done|].
  destruct (split_header (re_proto_tag e) (future src r)) as [[[len q] d]|] eqn:Hsplit; [|done].
  intros Hframe Hmax Hbig Hzeros Hpat.
  set (k := fun len quickack ticks x r => if len =? 0 then _ else _).
  pose proof (split_header_length _ _ _ _ _ Hsplit) as Hdl.
  destruct (Z.eqb_spec len 0) as [->|Hnz].
  - destruct (frame_at n (re_proto_tag e) d) as [f'|] eqn:Hf'; [|done]. injection Hframe as <-. cbn [fr_zeros fr_len fr_payload fr_quickack fr_rest] in *.
    pose proof (frame_at_length _ _ _ _ Hf') as Hrest.
    destruct (header_there e fuel ticks x r 0 q d k Hok Hf Hsplit) as (ticks1 & x1 & r1 & -> & Hto); [destruct Hpat; split; [lia | done]|].
    unfold k. rewrite Z.eqb_refl. pose proof Hto as (_ & Hfu & [(_ & Hdebt & _) _] & _).
    destruct (on_zero_len_allowed e zeros x1 (fr_zeros f')) as (zeros' & x2 & -> & Hz').
    { unfold zeros_allowed in *. by rewrite Hdebt. }
    destruct (reads_to_ready _ _ _ _ _ _ _ fuel (length d - length (fr_rest f')) Hto Hf) as (Hok1 & Hf1 & Hpat1).
    { destruct Hpat. split; [lia | done]. }
    destruct (IH zeros' ticks1 x2 r1 f' Hok1 Hf1) as (ticks2 & x3 & r2 & Hrun & Hfin); try done; [by rewrite Hfu | by rewrite Hfu|].
    exists ticks2, x3, r2. split; [done|]. destruct Hfin as [Hto2 ?]. split; [|done].
    eapply (reads_to_ctx x1 x2); [exact Hto | exact Hto2].
  - destruct (Nat.ltb_spec (length d) (Z.to_nat len)) as [|Hge]; [done|]. injection Hframe as <-.
    cbn [fr_zeros fr_len fr_payload fr_quickack fr_rest] in *. rewrite length_drop in Hpat.
    destruct (header_there e fuel ticks x r len q d k Hok Hf Hsplit) as (ticks1 & x1 & r1 & -> & Hto); [destruct Hpat; split; [lia | done]|].
    unfold k. rewrite (proj2 (Z.eqb_neq _ _) Hnz). pose proof Hto as (_ & Hfu & _).
    destruct (reads_to_ready _ _ _ _ _ _ _ fuel (Z.to_nat len) Hto Hf) as (Hok1 & Hf1 & Hpat1).
    { destruct Hpat. split; [lia | done]. }
    destruct (payload_there e fuel len q ticks1 x1 r1 Hok1 Hf1 Hmax Hbig) as (ticks2 & x2 & r2 & Hrun & Hto2 & Hdebt);
      [by rewrite Hfu | done|]. rewrite Hfu in *. exists ticks2, x2, r2. split; [done|].
    split; [by eapply (reads_to_ctx x1 x1)|]. pose proof Hto as (_ & _ & [(_ & Hsame & _) _] & _). rewrite Hdebt, Hsame.
    destruct Hzeros as (? & ? & _). unfold sat_sub. lia.
Qed.

(** At the end of the stream the call says so. *)
Lemma end_of_stream n e fuel zeros ticks x r :
  source_ok src r -> (fuel_need src r <= fuel)%nat -> future src r = [] -> patient r 1 ticks ->
  exists ticks' x' r', read_client_payload (S n) e fuel zeros ticks x r = Some (Ok None, ticks', x', r').
Proof.
  intros Hok Hf Hend [Hlen Hpat]. destruct ticks as [|tk ticks]; [cbn in Hlen; lia|]. apply Forall_cons_1 in Hpat as [Htk _].
  assert (forall want, (0 < want)%nat -> exists x' r',
    read_exact_with_policy e fuel want (tk :: ticks) [] x r = Some (Err (RelayIo UnexpectedEof), ticks, x', r')) as Hread.
  { intros want Hw. cbn [read_exact_with_policy]. rewrite (proj2 (Nat.leb_gt _ _)) by (cbn; lia).
    destruct (poll_until_live (tk_polls tk) fuel (want - length (@nil Z)) r Hok Hf ltac:(cbn; lia) Htk) as (bs & r1 & -> & _ & Hfut & _).
    rewrite Hend in Hfut. symmetry in Hfut. apply app_eq_nil in Hfut as [-> _]. by do 2 eexists. }
  cbn [read_client_payload]. unfold read_header, read_then.
  destruct (re_proto_tag e); [destruct (Hread 1%nat ltac:(lia)) as (x' & r' & ->) | destruct (Hread 4%nat ltac:(lia)) as (x' & r' & ->)..];
    by do 3 eexists.
Qed.
End complete.

(** * The loop over empty frames ends *)

Section loop.
Context {R : Type} `{AsyncRead R}.
Implicit Types (r : R) (x : ReadCtx) (ticks : list Tick).

Lemma read_exact_kept e fuel want ticks buf x r res ticks' x' r' :
  read_exact_with_policy e fuel want ticks buf x r = Some (res, ticks', x', r') -> kept x x'.
Proof.
  revert buf x r. induction ticks as [|tk ticks IH]; intros buf x r; cbn [read_exact_with_policy];
    (destruct (_ <=? _)%nat; [by intros [= <- <- <- <-]|]); [done|].
  destruct (poll_until _ _ _ r) as [[a r1]|]; [|done]. cbv zeta. fold (round_ctx e tk x).
  pose proof (round_marked e tk x) as [Hk _]. set (x1 := round_ctx e tk x) in *. clearbody x1.
  destruct a as [[[|b bs]|k]|]; try (by intros [= <- <- <- <-]).
  - intros Hrun. eapply kept_trans; [exact Hk | by eapply IH].
  - destruct (negb _); [by intros [= <- <- <- <-]|]. destruct (_ <=? _); [by intros [= <- <- <- <-]|].
    intros Hrun. eapply kept_trans; [exact Hk | by eapply IH].
Qed.

Lemma read_header_ext e fuel ticks x r (k k' : Z -> bool -> list Tick -> ReadCtx -> R -> option (FrameRead R)) :
  (forall len q ticks' x' r', kept x x' -> k len q ticks' x' r' = k' len q ticks' x' r') ->
  read_header e fuel ticks x r k = read_header e fuel ticks x r k'.
Proof.
  intros Hk. unfold read_header, read_then. destruct (re_proto_tag e).
  - destruct (read_exact_with_policy e fuel 1 ticks [] x r) as [[[[[bs|err] t1] x1] r1]|] eqn:H1; try done.
    apply read_exact_kept in H1. destruct (_ =? _); [|by apply Hk].
    destruct (read_exact_with_policy e fuel 3 t1 [] x1 r1) as [[[[[ext|err] t2] x2] r2]|] eqn:H2; try done.
    apply read_exact_kept in H2. apply Hk. by eapply kept_trans.
  - destruct (read_exact_with_policy e fuel 4 ticks [] x r) as [[[[[bs|err] t1] x1] r1]|] eqn:H1; try done.
    apply Hk. by eapply read_exact_kept.
  - destruct (read_exact_with_policy e fuel 4 ticks [] x r) as [[[[[bs|err] t1] x1] r1]|] eqn:H1; try done.
    apply Hk. by eapply read_exact_kept.
Qed.

(** Rounds that are enough for a debt. *)
Definition enough (n : nat) x : Prop :=
  (1 <= n)%nat /\ 0 <= tiny_frame_debt (rx_idle x) /\
  TINY_FRAME_DEBT_LIMIT <= tiny_frame_debt (rx_idle x) + TINY_FRAME_DEBT_PER_TINY * Z.of_nat n.

Lemma enough_next n e zeros x zeros' x' :
  enough (S n) x -> on_zero_len e zeros x = (Ok zeros', x') -> enough n x'.
Proof.
  unfold enough, on_zero_len, TINY_FRAME_DEBT_LIMIT, TINY_FRAME_DEBT_PER_TINY.
  cbn [on_client_tiny_frame tiny_frame_debt last_client_frame_at soft_idle_marked]. intros (_ & Hd & Hl).
  destruct (Z.leb_spec 512 (sat_add 32 (tiny_frame_debt (rx_idle x)) 8)) as [|Hlt]; [done|].
  assert (sat_add 32 (tiny_frame_debt (rx_idle x)) 8 = tiny_frame_debt (rx_idle x) + 8) as Hs by (unfold sat_add, umax in *; lia).
  rewrite Hs in *. repeat case_match; intros [= <- <-]; cbn [set_idle rx_idle tiny_frame_debt]; lia.
Qed.

Lemma enough_rounds n m e fuel zeros ticks x r :
  enough n x -> enough m x -> read_client_payload n e fuel zeros ticks x r = read_client_payload m e fuel zeros ticks x r.
Proof.
  revert m zeros ticks x r. induction n as [|n IH]; intros m zeros ticks x r [Hn Hn'] [Hm Hm']; [lia|]. destruct m as [|m]; [lia|].
  cbn [read_client_payload]. apply read_header_ext. intros len q ticks' x' r' (_ & Hdebt & _). destruct (_ =? _); [|done].
  destruct (on_zero_len e zeros x') as [[z'|err] x2] eqn:Hz; [|done].
  apply IH; (eapply (enough_next _ e zeros x'); [|exact Hz]; split; [lia | by rewrite Hdebt]).
Qed.
End loop.

(** * Silent clients *)

Section silence.
Context {R : Type} `{AsyncRead R}.
Implicit Types (x : ReadCtx) (ticks : list Tick).

(** A connection on which nothing arrives. *)
Definition silent (r : R) : Prop := forall fuel cap, poll_read fuel cap r = Some (Pending, r).

Lemma silent_poll_until n fuel cap r : silent r -> poll_until n fuel cap r = Some (None, r).
Proof. intros Hs. induction n as [|n IH]; cbn [poll_until]; by rewrite Hs. Qed.

Lemma timeout_window_max policy idle hard now :
  ip_enabled policy = true -> timeout_window policy idle hard now <= RELAY_IDLE_IO_POLL_MAX.
Proof. intros He. unfold timeout_window. rewrite He. lia. Qed.

(** Rounds one after another, each ended by its timer at most [late] after the
    window that was set for it. *)
Fixpoint timed_rounds (e : ReadEnv) (late : Duration) (ms : Z) (start : Instant) ticks : Prop :=
  match ticks with
  | [] => True
  | tk :: ticks =>
      tk_now tk = start /\ start <= tk_end tk /\ tk_end_downstream_ms tk = ms /\
      (exists idle hard, tk_end tk <= start + timeout_window (re_policy e) idle hard start + late) /\
      timed_rounds e late ms (tk_end tk) ticks
  end.

Lemma hard_deadline_ext policy idle idle' started ms :
  last_client_frame_at idle' = last_client_frame_at idle ->
  hard_deadline policy idle' started ms = hard_deadline policy idle started ms.
Proof. intros Heq. unfold hard_deadline. by rewrite Heq. Qed.

(** Closed for being idle: counted, and no longer a candidate. *)
Definition closed_idle (e : ReadEnv) x : Prop :=
  by_conn_id (rx_registry x) !! re_conn_id e = None /\ exists s, rx_stats x = s ++ [IdleHardClose].

Lemma silent_read_exact e fuel want ticks late ms start x r D :
  D = hard_deadline (re_policy e) (rx_idle x) (re_session_started_at e) ms ->
  ip_enabled (re_policy e) = true -> silent r -> (0 < want)%nat -> timed_rounds e late ms start ticks -> start < D ->
  Exists (fun tk => D <= tk_end tk) ticks ->
  exists ticks' x', read_exact_with_policy e fuel want ticks [] x r = Some (Err (RelayIo TimedOut), ticks', x', r) /\
    D <= rx_clock x' < D + RELAY_IDLE_IO_POLL_MAX + late /\ closed_idle e x'.
Proof.
  intros HD He Hs Hw. revert start x HD. induction ticks as [|tk ticks IH]; intros start x HD Hround Hstart Hex.
  { by apply Exists_nil in Hex. }
  destruct Hround as (Hnow & Hend & Hms & (idle & hard & Hwin) & Hround). cbn [read_exact_with_policy].
  rewrite (proj2 (Nat.leb_gt _ _)) by (cbn; lia). rewrite silent_poll_until by done. cbv zeta. fold (round_ctx e tk x).
  pose proof (round_marked e tk x) as [(Hlast & _) _]. assert (rx_clock (round_ctx e tk x) = tk_end tk) as Hclk by done.
  set (x1 := round_ctx e tk x) in *. clearbody x1. rewrite He. cbn [negb].
  rewrite (hard_deadline_ext _ _ _ _ _ Hlast), Hms, <- HD.
  pose proof (timeout_window_max (re_policy e) idle hard start He).
  destruct (Z.leb_spec D (tk_end tk)) as [Hdue|Hnot].
  - do 2 eexists. split; [reflexivity|]. cbn [count set_registry rx_clock]. rewrite Hclk. split; [lia|].
    split; [apply cleared_gone | by eexists].
  - apply Exists_cons in Hex as [?|Hex]; [lia|]. apply (IH (tk_end tk)); try done.
    by rewrite (hard_deadline_ext _ _ _ _ _ Hlast).
Qed.

Lemma silent_read_closes e fuel ticks late ms start x r D :
  D = hard_deadline (re_policy e) (rx_idle x) (re_session_started_at e) ms ->
  ip_enabled (re_policy e) = true -> silent r -> timed_rounds e late ms start ticks -> start < D ->
  Exists (fun tk => D <= tk_end tk) ticks ->
  exists ticks' x', read_client_payload_with_idle_policy_in e fuel ticks x r = Some (Err (RelayIo TimedOut), ticks', x', r) /\
    D <= rx_clock x' < D + RELAY_IDLE_IO_POLL_MAX + late /\ closed_idle e x'.
Proof.
  intros HD He Hs Hround Hstart Hex. unfold read_client_payload_with_idle_policy_in.
  change MAX_FRAMES_PER_READ with (S (pred MAX_FRAMES_PER_READ)). cbn [read_client_payload]. unfold read_header, read_then.
  destruct (re_proto_tag e);
    [destruct (silent_read_exact e fuel 1 ticks late ms start x r D) as (t & x' & -> & Hrest) |
     destruct (silent_read_exact e fuel 4 ticks late ms start x r D) as (t & x' & -> & Hrest)..]; try done; try lia; by exists t, x'.
Qed.
End silence.
