(* ===== verification/ClientWrite.v ===== *)
(** Answers to the client in the middle relay (proxy/middle_relay/d2c.rs): the
    frame around a payload or an acknowledgement, written whole or in parts, and
    the batching of flushes. *)

From stdpp Require Import base list gmap numbers.
From S2P Require Import Prelude Aes Random RpcWire FairnessScheduler Stream ClientFrames ClientFramesSpec.
Local Open Scope Z_scope.

Definition ME_D2C_SINGLE_WRITE_COALESCE_MAX_BYTES : Z := 128 * 1024.
Definition ME_D2C_FLUSH_BATCH_MAX_FRAMES_MIN : Z := 1.
Definition ME_D2C_FLUSH_BATCH_MAX_BYTES_MIN : Z := 4096.

(** * Flush policy *)

Record MeD2cFlushPolicy := mkFlushPolicy {
  fp_max_frames : Z;
  fp_max_bytes : Z;
  fp_max_delay : Duration;
  fp_ack_flush_immediate : bool;
  fp_quota_soft_overshoot_bytes : Z;
  fp_frame_buf_shrink_threshold_bytes : Z;
}.

(** [from_config], on the values of the configuration. *)
Definition flush_policy_from_config (max_frames max_bytes max_delay_us : Z) (ack_immediate : bool) (overshoot shrink : Z) : MeD2cFlushPolicy :=
  mkFlushPolicy (Z.max max_frames ME_D2C_FLUSH_BATCH_MAX_FRAMES_MIN) (Z.max max_bytes ME_D2C_FLUSH_BATCH_MAX_BYTES_MIN)
    (max_delay_us * 1000) ack_immediate overshoot (Z.max shrink 4096).

Inductive MeD2cFlushReason := QueueDrain | BatchFrames | BatchBytes | MaxDelay | AckImmediate | CloseFlush.

Definition classify_me_d2c_flush_reason (flush_immediately : bool) (batch_frames max_frames batch_bytes max_bytes : Z)
    (max_delay_fired : bool) : MeD2cFlushReason :=
  if flush_immediately then AckImmediate
  else if max_frames <=? batch_frames then BatchFrames
  else if max_bytes <=? batch_bytes then BatchBytes
  else if max_delay_fired then MaxDelay
  else QueueDrain.

(** * Writing *)

Inductive MeD2cWriteMode := Coalesced | Split.

Inductive WriteError :=
  | Unaligned (len : Z)
  | TooLarge (len : Z)
  | LengthOverflow
  | WriterCancelled
  | WriteIo (kind : ErrorKind).

(** [checked_add] on [usize]. *)
Definition usize_checked_add (a b : Z) : option Z := if a + b <=? umax 64 then Some (a + b) else None.

Definition compute_intermediate_secure_wire_len (data_len padding_len : Z) (quickack : bool) : result WriteError (Z * Z) :=
  match usize_checked_add data_len padding_len with
  | None => Err LengthOverflow
  | Some wire_len =>
      match encode_intermediate_header wire_len quickack with
      | None => Err (TooLarge wire_len)
      | Some len_val =>
          match usize_checked_add 4 wire_len with
          | None => Err LengthOverflow
          | Some total => Ok (len_val, total)
          end
      end
  end.

Section write.
Context {W : Type} `{AsyncWrite W}.

(** One poll of [write_all]: the bytes still to write, none when it is done.  [n]
    more rounds; each one writes a byte. *)
Fixpoint write_all_poll (n : nat) (bytes : list Z) (w : W) : result ErrorKind (list Z) * W :=
  match bytes, n with
  | [], _ => (Ok [], w)
  | _, O => (Ok bytes, w)
  | _, S n =>
      match poll_write bytes w with
      | (Pending, w) => (Ok bytes, w)
      | (Ready (Err e), w) => (Err e, w)
      | (Ready (Ok O), w) => (Err WriteZero, w)
      | (Ready (Ok k), w) => write_all_poll n (drop k bytes) w
      end
  end.

(** The biased [select!]: the session is cancelled after [polls] more polls. *)
Fixpoint write_all_client_or_cancel (polls : nat) (bytes : list Z) (w : W) : result WriteError nat * W :=
  match polls with
  | O => (Err WriterCancelled, w)
  | S polls =>
      match write_all_poll (length bytes) bytes w with
      | (Err e, w) => (Err (WriteIo e), w)
      | (Ok [], w) => (Ok polls, w)
      | (Ok rest, w) => write_all_client_or_cancel polls rest w
      end
  end.

Fixpoint flush_client_or_cancel (polls : nat) (w : W) : result WriteError nat * W :=
  match polls with
  | O => (Err WriterCancelled, w)
  | S polls =>
      match poll_flush w with
      | (Pending, w) => flush_client_or_cancel polls w
      | (Ready (Err e), w) => (Err (WriteIo e), w)
      | (Ready (Ok _), w) => (Ok polls, w)
      end
  end.

(** Writes one after another, until one fails. *)
Fixpoint write_parts (polls : nat) (parts : list (list Z)) (w : W) : result WriteError nat * W :=
  match parts with
  | [] => (Ok polls, w)
  | p :: parts =>
      match write_all_client_or_cancel polls p w with
      | (Err e, w) => (Err e, w)
      | (Ok polls, w) => write_parts polls parts w
      end
  end.

Context {G : Type} `{StdRng G} `{StreamKey}.

Definition WriteOutcome : Type := result WriteError (MeD2cWriteMode * nat) * SecureRandomInner G * W.

(** A header and the data behind it, in one write or two. *)
Definition write_framed (polls : nat) (header data : list Z) (s : SecureRandomInner G) (w : W) : WriteOutcome :=
  let wire_len := Z.of_nat (length header) + Z.of_nat (length data) in
  let coalesced := wire_len <=? ME_D2C_SINGLE_WRITE_COALESCE_MAX_BYTES in
  let '(res, w) := write_parts polls (if coalesced then [header ++ data] else [header; data]) w in
  (match res with
   | Err e => Err e
   | Ok polls => Ok (if coalesced then Coalesced else Split, polls)
   end, s, w).

(** Header, data and padding: the padding is drawn when it is written. *)
Definition write_padded (polls : nat) (header data : list Z) (padding_len : nat) (total : Z) (s : SecureRandomInner G) (w : W) : WriteOutcome :=
  if total <=? ME_D2C_SINGLE_WRITE_COALESCE_MAX_BYTES then
    let '(padding, s) := if (0 <? padding_len)%nat then rand_bytes padding_len s else ([], s) in
    let '(res, w) := write_all_client_or_cancel polls (header ++ data ++ padding) w in
    (match res with Err e => Err e | Ok polls => Ok (Coalesced, polls) end, s, w)
  else
    match write_parts polls [header; data] w with
    | (Err e, w) => (Err e, s, w)
    | (Ok polls, w) =>
        if (0 <? padding_len)%nat then
          let '(padding, s) := rand_bytes padding_len s in
          let '(res, w) := write_all_client_or_cancel polls padding w in
          (match res with Err e => Err e | Ok polls => Ok (Split, polls) end, s, w)
        else (Ok (Split, polls), s, w)
    end.

Definition write_client_payload (polls : nat) (tag : ProtoTag) (flags : Z) (data : list Z) (s : SecureRandomInner G) (w : W) : WriteOutcome :=
  let quickack := negb (Z.land flags RPC_FLAG_QUICKACK =? 0) in
  let len := Z.of_nat (length data) in
  match tag with
  | Abridged =>
      if negb (len mod 4 =? 0) then (Err (Unaligned len), s, w)
      else
        let len_words := len / 4 in
        if len_words <? 0x7f then
          write_framed polls [if quickack then Z.lor len_words 0x80 else len_words] data s w
        else if len_words <? Z.shiftl 1 24 then
          let first := if quickack then Z.lor 0x7f 0x80 else 0x7f in
          write_framed polls (first :: take 3 (to_le 4 len_words)) data s w
        else (Err (TooLarge len), s, w)
  | Intermediate =>
      match compute_intermediate_secure_wire_len len 0 quickack with
      | Err e => (Err e, s, w)
      | Ok (len_val, total) => write_padded polls (to_le 4 len_val) data 0 total s w
      end
  | Secure =>
      if negb (is_valid_secure_payload_len len) then (Err (Unaligned len), s, w)
      else
        let '(extra, s) := rand_range SECURE_VERSION_D_PADDING_MAX s in
        let padding_len := (extra + 1)%nat in
        match compute_intermediate_secure_wire_len len (Z.of_nat padding_len) quickack with
        | Err e => (Err e, s, w)
        | Ok (len_val, total) => write_padded polls (to_le 4 len_val) data padding_len total s w
        end
  end.

(** [write_client_ack]: four bytes, in the byte order of the framing. *)
Definition write_client_ack (polls : nat) (tag : ProtoTag) (confirm : Z) (w : W) : result WriteError nat * W :=
  write_all_client_or_cancel polls (match tag with Abridged => to_be 4 confirm | _ => to_le 4 confirm end) w.
End write.
