(* ===== verification/ClientWriteSpec.v ===== *)
(** What the client is sent: every payload the relay writes is one frame of the
    reference parser, and a cancelled write leaves a prefix of it. *)

From stdpp Require Import base list gmap numbers.
From S2P Require Import Prelude Aes Random RpcWire FairnessScheduler Stream ClientFrames ClientFramesSpec ClientWrite.
Local Open Scope Z_scope.

(** * Headers *)

(** A number below [2 ^ k] with a flag in bit [k]. *)
Lemma flag_bits k n (q : bool) :
  0 <= k -> 0 <= n < 2 ^ k ->
  let v := if q then Z.lor n (2 ^ k) else n in
  Z.land v (2 ^ k - 1) = n /\ (Z.land v (2 ^ k) =? 0) = negb q /\ 0 <= v < 2 ^ (k + 1).
Proof.
  intros Hk Hn. replace (2 ^ k - 1) with (Z.ones k) by (rewrite Z.ones_equiv; lia).
  assert (Z.land n (Z.ones k) = n) as Hlow by (rewrite Z.land_ones by done; by apply Z.mod_small).
  assert (Z.land n (2 ^ k) = 0) as Hhigh.
  { apply Z.bits_inj'. intros i Hi. rewrite Z.land_spec, Z.bits_0, Z.pow2_bits_eqb by done.
    destruct (Z.eqb_spec k i) as [<-|]; [|by rewrite andb_false_r]. rewrite andb_true_r.
    rewrite <- (Z.mod_small n (2 ^ k)) by done. apply Z.mod_pow2_bits_high. lia. }
  rewrite Z.pow_add_r by lia. change (2 ^ 1) with 2. destruct q; cbv zeta iota.
  - assert (Z.lor n (2 ^ k) = n + 2 ^ k) as Hadd by (rewrite <- Z.lxor_lor, Z.add_nocarry_lxor by done; done).
    rewrite !Z.land_lor_distr_l, Hlow, Hhigh, Z.land_diag, Z.lor_0_l. split_and!.
    + replace (Z.land (2 ^ k) (Z.ones k)) with 0; [by rewrite Z.lor_0_r|]. rewrite Z.land_ones, Z_mod_same_full by done. done.
    + apply Z.eqb_neq. lia.
    + lia.
    + lia.
  - rewrite Hlow, Hhigh. split_and!; [done | done | lia | lia].
Qed.

Lemma intermediate_header_roundtrip n q v :
  0 <= n -> encode_intermediate_header n q = Some v ->
  parse_intermediate_header (to_le 4 v) = mkIntermediate n q /\ n < 2 ^ 31.
Proof.
  unfold encode_intermediate_header, INTERMEDIATE_WIRE_LEN_MASK, INTERMEDIATE_QUICKACK_FLAG. intros Hn.
  destruct (Z.ltb_spec 0x7fffffff n); [done|]. intros [= <-].
  destruct (flag_bits 31 n q ltac:(lia) ltac:(lia)) as (Hlow & Hflag & Hv). unfold parse_intermediate_header. cbv zeta in *.
  change (2 ^ 31 - 1) with INTERMEDIATE_WIRE_LEN_MASK in Hlow. change (2 ^ 31) with INTERMEDIATE_QUICKACK_FLAG in *.
  change 0x80000000 with INTERMEDIATE_QUICKACK_FLAG.
  rewrite of_le_to_le by (change (256 ^ Z.of_nat 4) with (2 ^ (31 + 1)); lia).
  rewrite Hlow, Hflag, negb_involutive. split; [done|]. change INTERMEDIATE_QUICKACK_FLAG with 0x80000000. lia.
Qed.

(** A frame around [data], as the parser sees it. *)
Definition frame_of (tag : ProtoTag) (q : bool) (data frame : list Z) : Prop :=
  exists pad, 0 <= pad <= 3 /\ forall n rest, data <> [] ->
    frame_at (S n) tag (frame ++ rest) = Some (mkFrame 0 (Z.of_nat (length data) + pad) data q rest).

Lemma frame_of_parts tag q data h body pad :
  (forall d, split_header tag (h ++ d) = Some (Z.of_nat (length body), q, d)) ->
  strip_padding tag body = data -> Z.of_nat (length body) = Z.of_nat (length data) + pad -> 0 <= pad <= 3 ->
  frame_of tag q data (h ++ body).
Proof.
  intros Hh Hs Hl Hp. exists pad. split; [done|]. intros n rest Hne. cbn [frame_at]. rewrite <- app_assoc, Hh.
  assert (0 < length data)%nat by (destruct data; [done | cbn; lia]).
  rewrite (proj2 (Z.eqb_neq _ _)) by lia. rewrite Nat2Z.id, (proj2 (Nat.ltb_ge _ _)) by (rewrite length_app; lia).
  rewrite take_app_length, drop_app_length. by rewrite Hs, Hl.
Qed.

Lemma take_to_le n k z : (n <= k)%nat -> take n (to_le k z) = to_le n z.
Proof. revert k z. induction n as [|n IH]; intros [|k] z Hk; cbn; [done | done | lia |]. f_equal. apply IH. lia. Qed.

Lemma abridged_short q data :
  let w := Z.of_nat (length data) / 4 in
  Z.of_nat (length data) mod 4 = 0 -> w < 0x7f ->
  frame_of Abridged q data ([if q then Z.lor w 0x80 else w] ++ data).
Proof.
  intros w Ha Hw. assert (Z.of_nat (length data) = w * 4) as Hl by (unfold w; pose proof (Z.div_mod (Z.of_nat (length data)) 4); lia).
  destruct (flag_bits 7 w q ltac:(lia) ltac:(lia)) as (Hlow & Hflag & _). cbv zeta in *.
  apply (frame_of_parts _ _ _ _ _ 0); [|done | lia | lia]. intros d. cbn [app split_header].
  change 0x7f with (2 ^ 7 - 1). change 0x80 with (2 ^ 7). rewrite Hlow, Hflag, negb_involutive.
  rewrite (proj2 (Z.eqb_neq _ _)) by lia. by rewrite <- Hl.
Qed.

Lemma abridged_extended q data :
  let w := Z.of_nat (length data) / 4 in
  Z.of_nat (length data) mod 4 = 0 -> w < Z.shiftl 1 24 ->
  frame_of Abridged q data (((if q then Z.lor 0x7f 0x80 else 0x7f) :: take 3 (to_le 4 w)) ++ data).
Proof.
  intros w Ha Hw. assert (Z.of_nat (length data) = w * 4) as Hl by (unfold w; pose proof (Z.div_mod (Z.of_nat (length data)) 4); lia).
  apply (frame_of_parts _ _ _ _ _ 0); [|done | lia | lia]. intros d. rewrite take_to_le by lia. cbn [app split_header].
  replace (Z.land (if q then Z.lor 127 128 else 127) 127) with 127 by (by destruct q). rewrite Z.eqb_refl.
  rewrite (proj2 (Nat.ltb_ge _ _)) by (rewrite length_app, length_to_le; lia).
  rewrite take_app_length', drop_app_length' by (by rewrite length_to_le).
  rewrite of_le_to_le by (change (Z.shiftl 1 24) with (256 ^ Z.of_nat 3) in Hw; lia). rewrite <- Hl. by destruct q.
Qed.

(** Four-byte headers, with padding in the secure framing. *)
Lemma four_byte_header tag q len v d :
  tag <> Abridged -> 0 <= len -> encode_intermediate_header len q = Some v -> split_header tag (to_le 4 v ++ d) = Some (len, q, d).
Proof.
  intros Htag Hlen Hv. destruct (intermediate_header_roundtrip len q v Hlen Hv) as [Hp _].
  destruct tag; [done | |]; unfold split_header; rewrite (proj2 (Nat.ltb_ge _ _)) by (rewrite length_app, length_to_le; lia);
    rewrite take_app_length', drop_app_length' by (by rewrite length_to_le); by rewrite Hp.
Qed.

Lemma secure_strips data padding :
  Z.of_nat (length data) mod 4 = 0 -> (length padding <= 3)%nat -> strip_padding Secure (data ++ padding) = data.
Proof.
  intros Ha Hp. cbn [strip_padding]. rewrite length_app.
  assert (length data mod 4 = 0)%nat as Ha' by (apply Nat2Z.inj; rewrite Nat2Z.inj_mod; done).
  replace ((length data + length padding) mod 4)%nat with (length padding).
  - rewrite Nat.add_sub. apply take_app_length.
  - rewrite <- Nat.Div0.add_mod_idemp_l, Ha', Nat.add_0_l. symmetry. apply Nat.mod_small. lia.
Qed.

Lemma intermediate_frame q data v :
  encode_intermediate_header (Z.of_nat (length data)) q = Some v -> frame_of Intermediate q data (to_le 4 v ++ data).
Proof.
  intros Hv. apply (frame_of_parts _ _ _ _ _ 0); [|done | lia | lia]. intros d. by apply four_byte_header; [|lia|].
Qed.

Lemma secure_frame q data padding v :
  encode_intermediate_header (Z.of_nat (length data) + Z.of_nat (length padding)) q = Some v ->
  Z.of_nat (length data) mod 4 = 0 -> (length padding <= 3)%nat -> frame_of Secure q data (to_le 4 v ++ data ++ padding).
Proof.
  intros Hv Ha Hp. apply (frame_of_parts _ _ _ _ _ (Z.of_nat (length padding))); [|by apply secure_strips | rewrite length_app; lia | lia].
  intros d. apply four_byte_header; [done | lia |]. by rewrite length_app, Nat2Z.inj_add.
Qed.

(** * Writes *)

Section writes.
Context {W : Type} `{AsyncWrite W} (spec : WriterSpec W).

(** A write is complete, or cancelled after a prefix, or failed. *)
Definition wrote (bytes : list Z) (w : W) {A : Type} (res : result WriteError A) (w' : W) : Prop :=
  match res with
  | Ok _ => writer_ok spec w' /\ accepted spec w' = accepted spec w ++ bytes
  | Err WriterCancelled => writer_ok spec w' /\ exists part, part `prefix_of` bytes /\ accepted spec w' = accepted spec w ++ part
  | Err (WriteIo _) => True
  | Err _ => False
  end.

Lemma write_all_poll_spec n bytes w res w' :
  writer_ok spec w -> (length bytes <= n)%nat -> write_all_poll n bytes w = (res, w') ->
  match res with
  | Ok rest => writer_ok spec w' /\ exists done, bytes = done ++ rest /\ accepted spec w' = accepted spec w ++ done
  | Err _ => True
  end.
Proof.
  revert bytes w. induction n as [|n IH]; intros bytes w Hw Hn; destruct bytes as [|b bytes]; cbn [write_all_poll].
  - intros [= <- <-]. split; [done|]. exists []. by rewrite !app_nil_r.
  - cbn in Hn. lia.
  - intros [= <- <-]. split; [done|]. exists []. by rewrite !app_nil_r.
  - destruct (poll_write (b :: bytes) w) as [p w1] eqn:Hp. pose proof (poll_write_spec spec _ _ _ _ Hw Hp) as Hs.
    destruct p as [|[[|k]|e]]; [| by intros [= <- <-] | | by intros [= <- <-]].
    + intros [= <- <-]. destruct Hs as [? Ha]. split; [done|]. exists []. by rewrite app_nil_r.
    + destruct Hs as (Hw1 & Hk & Ha). intros Hrun. apply IH in Hrun; [|done | rewrite length_drop; cbn [length] in *; lia].
      destruct res as [rest|]; [|done]. destruct Hrun as (Hw' & done & Hd & Ha'). split; [done|].
      exists (take (S k) (b :: bytes) ++ done). rewrite <- app_assoc, <- Hd, take_drop. split; [done|]. by rewrite Ha', Ha, app_assoc.
Qed.

Lemma write_all_spec polls bytes w res w' :
  writer_ok spec w -> write_all_client_or_cancel polls bytes w = (res, w') -> wrote bytes w res w'.
Proof.
  revert bytes w. induction polls as [|polls IH]; intros bytes w Hw; cbn [write_all_client_or_cancel].
  { intros [= <- <-]. split; [done|]. exists []. rewrite app_nil_r. split; [apply prefix_nil | done]. }
  destruct (write_all_poll (length bytes) bytes w) as [r w1] eqn:Hp.
  pose proof (write_all_poll_spec _ _ _ _ _ Hw (Nat.le_refl _) Hp) as Hs. destruct r as [[|b rest]|e]; [| |by intros [= <- <-]].
  - intros [= <- <-]. destruct Hs as (? & done & Hd & Ha). rewrite app_nil_r in Hd. subst done. done.
  - destruct Hs as (Hw1 & done & Hd & Ha). intros Hrun. apply IH in Hrun; [|done]. unfold wrote in *.
    destruct res as [x|[| | | |]]; try done.
    + destruct Hrun as [? Ha']. split; [done|]. by rewrite Ha', Ha, Hd, app_assoc.
    + destruct Hrun as (? & part & Hpre & Ha'). split; [done|]. exists (done ++ part). rewrite Hd, Ha', Ha, app_assoc.
      split; [by apply prefix_app | done].
Qed.

Lemma write_parts_spec polls parts w res w' :
  writer_ok spec w -> write_parts polls parts w = (res, w') -> wrote (concat parts) w res w'.
Proof.
  revert polls w. induction parts as [|p parts IH]; intros polls w Hw; cbn [write_parts concat].
  { intros [= <- <-]. split; [done|]. by rewrite app_nil_r. }
  destruct (write_all_client_or_cancel polls p w) as [r w1] eqn:Hp. pose proof (write_all_spec _ _ _ _ _ Hw Hp) as Hs.
  destruct r as [k|[| | | |]]; try (by intros [= <- <-]).
  - destruct Hs as [Hw1 Ha]. intros Hrun. apply IH in Hrun; [|done]. unfold wrote in *. destruct res as [x|[| | | |]]; try done.
    + destruct Hrun as [? Ha']. split; [done|]. by rewrite Ha', Ha, app_assoc.
    + destruct Hrun as (? & part & Hpre & Ha'). split; [done|]. exists (p ++ part). rewrite Ha', Ha, app_assoc.
      split; [by apply prefix_app | done].
  - intros [= <- <-]. destruct Hs as (? & part & Hpre & Ha). split; [done|]. exists part. split; [|done].
    etrans; [exact Hpre | by apply prefix_app_r].
Qed.

Context {G : Type} `{StdRngLaws G} `{StreamKey}.
Implicit Types (s : SecureRandomInner G).

Lemma wrote_map bytes w {A B : Type} (res : result WriteError A) (f : A -> B) w' :
  wrote bytes w res w' -> wrote bytes w (match res with Err e => Err e | Ok a => Ok (f a) end) w'.
Proof. by destruct res as [a|[| | | |]]. Qed.

Lemma write_framed_spec polls header data s w res s' w' :
  writer_ok spec w -> write_framed polls header data s w = (res, s', w') -> wrote (header ++ data) w res w'.
Proof.
  intros Hw. unfold write_framed. cbv zeta. set (c := _ <=? _).
  destruct (write_parts polls _ w) as [r w1] eqn:Hp. apply write_parts_spec in Hp; [|done]. intros [= <- <- <-].
  replace (header ++ data) with (concat (if c then [header ++ data] else [header; data])) by (destruct c; cbn; by rewrite ?app_nil_r).
  by apply (wrote_map _ _ _ (fun polls => (if c then Coalesced else Split, polls))).
Qed.

Lemma write_padded_spec polls header data n total s w res s' w' :
  writer_ok spec w -> write_padded polls header data n total s w = (res, s', w') ->
  exists padding, length padding = n /\ wrote (header ++ data ++ padding) w res w'.
Proof.
  intros Hw. unfold write_padded. pose proof (rand_bytes_length n s) as Hpad. destruct (total <=? _).
  - destruct (if (0 <? n)%nat then rand_bytes n s else ([], s)) as [padding s1] eqn:Hr.
    destruct (write_all_client_or_cancel polls _ w) as [r w1] eqn:Hp. apply write_all_spec in Hp; [|done]. intros [= <- <- <-].
    exists padding. split; [|by apply (wrote_map _ _ _ (fun polls => (Coalesced, polls)))].
    destruct (Nat.ltb_spec 0 n); [by rewrite Hr in Hpad | injection Hr as <- _; cbn; lia].
  - destruct (write_parts polls [header; data] w) as [r w1] eqn:Hp. apply write_parts_spec in Hp; [|done].
    cbn [concat] in Hp. rewrite app_nil_r in Hp. destruct r as [k|e].
    + destruct Hp as [Hw1 Ha]. destruct (Nat.ltb_spec 0 n).
      * destruct (rand_bytes n s) as [padding s1]. cbn [fst] in Hpad.
        destruct (write_all_client_or_cancel k padding w1) as [r2 w2] eqn:Hp2. apply write_all_spec in Hp2; [|done]. intros [= <- <- <-].
        exists padding. split; [done|]. apply (wrote_map _ _ _ (fun polls => (Split, polls))).
        unfold wrote in *. destruct r2 as [x|[| | | |]]; try done.
        -- destruct Hp2 as [? Ha2]. split; [done|]. by rewrite Ha2, Ha, <- !app_assoc.
        -- destruct Hp2 as (? & part & Hpre & Ha2). split; [done|]. exists (header ++ data ++ part).
           rewrite Ha2, Ha, <- !app_assoc. split; [by do 2 apply prefix_app | done].
      * intros [= <- <- <-]. exists []. split; [cbn; lia|]. by rewrite app_nil_r.
    + intros [= <- <- <-]. exists (replicate n 0). rewrite length_replicate. split; [done|].
      unfold wrote in *. destruct e; try done. destruct Hp as (? & part & Hpre & Ha). split; [done|]. exists part. split; [|done].
      rewrite app_assoc. etrans; [exact Hpre | by apply prefix_app_r].
Qed.

(** Why a payload is refused; the writer is left alone. *)
Definition refused (tag : ProtoTag) (data : list Z) (e : WriteError) : Prop :=
  let len := Z.of_nat (length data) in
  match e with
  | Unaligned n => n = len /\ tag <> Intermediate /\ len mod 4 <> 0
  | TooLarge n => len <= n <= len + 3 /\ (tag = Abridged /\ Z.shiftl 1 24 <= len / 4 \/ tag <> Abridged /\ 2 ^ 31 <= n)
  | LengthOverflow => umax 64 < len + 7
  | _ => False
  end.

Lemma wire_len_spec len pad q :
  0 <= len -> 0 <= pad <= 3 ->
  match compute_intermediate_secure_wire_len len pad q with
  | Ok (v, total) => encode_intermediate_header (len + pad) q = Some v
  | Err LengthOverflow => umax 64 < len + 7
  | Err (TooLarge n) => n = len + pad /\ 2 ^ 31 <= n
  | Err _ => False
  end.
Proof.
  intros Hl Hp. unfold compute_intermediate_secure_wire_len, usize_checked_add.
  destruct (Z.leb_spec (len + pad) (umax 64)); [|lia].
  destruct (encode_intermediate_header (len + pad) q) as [v|] eqn:Hv.
  - destruct (Z.leb_spec (4 + (len + pad)) (umax 64)); [done | lia].
  - unfold encode_intermediate_header, INTERMEDIATE_WIRE_LEN_MASK in Hv. destruct (Z.ltb_spec 0x7fffffff (len + pad)); [|done].
    split; [done | lia].
Qed.

Lemma write_client_payload_spec polls tag flags data s w res s' w' :
  writer_ok spec w -> write_client_payload polls tag flags data s w = (res, s', w') ->
  (exists e, res = Err e /\ refused tag data e /\ w' = w) \/
  (exists frame, frame_of tag (negb (Z.land flags RPC_FLAG_QUICKACK =? 0)) data frame /\ wrote frame w res w').
Proof.
  intros Hw. unfold write_client_payload. set (q := negb (Z.land flags RPC_FLAG_QUICKACK =? 0)). set (len := Z.of_nat (length data)).
  assert (0 <= len) as Hlen by (unfold len; lia). destruct tag.
  - destruct (Z.eqb_spec (len mod 4) 0) as [Ha|Ha]; cbn [negb].
    2:{ intros [= <- <- <-]. left. eexists. by split_and!. }
    destruct (Z.ltb_spec (len / 4) 0x7f).
    { intros Hrun. right. eexists. split; [by apply abridged_short | by eapply write_framed_spec]. }
    destruct (Z.ltb_spec (len / 4) (Z.shiftl 1 24)).
    { intros Hrun. right. eexists. split; [by apply abridged_extended | by eapply write_framed_spec]. }
    intros [= <- <- <-]. left. eexists. split; [reflexivity|]. split; [|done]. fold len. split; [lia | left; by split].
  - pose proof (wire_len_spec len 0 q Hlen ltac:(lia)) as Hwl.
    destruct (compute_intermediate_secure_wire_len len 0 q) as [[v total]|e].
    + intros Hrun. right. apply write_padded_spec in Hrun as (padding & Hp & Hwr); [|done].
      apply nil_length_inv in Hp. subst padding. rewrite app_nil_r in Hwr. exists (to_le 4 v ++ data). split; [|done].
      apply intermediate_frame. by rewrite Z.add_0_r in Hwl.
    + intros [= <- <- <-]. left. exists e. split_and!; [done | | done]. destruct e as [n|n| | |k]; try done.
      destruct Hwl as [-> ?]. fold len. split; [lia | right; by split].
  - unfold is_valid_secure_payload_len. destruct (Z.eqb_spec (len mod 4) 0) as [Ha|Ha]; cbn [negb].
    2:{ intros [= <- <- <-]. left. eexists. by split_and!. }
    destruct (rand_range SECURE_VERSION_D_PADDING_MAX s) as [extra s1] eqn:Hr.
    assert (extra < 3)%nat as Hex.
    { pose proof (rand_range_lt SECURE_VERSION_D_PADDING_MAX s ltac:(unfold SECURE_VERSION_D_PADDING_MAX; lia)) as Hlt. by rewrite Hr in Hlt. }
    pose proof (wire_len_spec len (Z.of_nat (extra + 1)) q Hlen ltac:(lia)) as Hwl.
    destruct (compute_intermediate_secure_wire_len len (Z.of_nat (extra + 1)) q) as [[v total]|e].
    + intros Hrun. right. apply write_padded_spec in Hrun as (padding & Hp & Hwr); [|done]. eexists. split; [|exact Hwr].
      apply secure_frame; [by rewrite Hp | done | lia].
    + intros [= <- <- <-]. left. exists e. split_and!; [done | | done]. destruct e as [n|n| | |k]; try done.
      destruct Hwl as [-> ?]. fold len. split; [lia | right; by split].
Qed.
End writes.
