(* ===== verification/ClientRun.v ===== *)
(** Whole exchanges on a client connection: answers written one after another and
    flushed, and frames read until the stream ends. *)

From stdpp Require Import base list gmap numbers.
From S2P Require Import Prelude Aes Random RpcWire FairnessScheduler Stream RelayIdle ClientFrames ClientFramesSpec ClientWrite ClientWriteSpec.
Local Open Scope Z_scope.

(** A payload with the flags it came with. *)
Definition Answer : Type := Z * list Z.
Definition answer_quickack (a : Answer) : bool := negb (Z.land a.1 RPC_FLAG_QUICKACK =? 0).

Section answers.
Context {W : Type} `{AsyncWrite W} {G : Type} `{StdRng G} `{StreamKey}.

(** A batch of answers and the flush at its end. *)
Fixpoint write_answers (polls : nat) (tag : ProtoTag) (answers : list Answer) (s : SecureRandomInner G) (w : W)
    : result WriteError nat * SecureRandomInner G * W :=
  match answers with
  | [] => let '(res, w) := flush_client_or_cancel polls w in (res, s, w)
  | (flags, data) :: answers =>
      match write_client_payload polls tag flags data s w with
      | (Err e, s, w) => (Err e, s, w)
      | (Ok (_, polls), s, w) => write_answers polls tag answers s w
      end
  end.
End answers.

Section answers_spec.
Context {W : Type} `{AsyncWrite W} (spec : WriterSpec W) {G : Type} `{StdRngLaws G} `{StreamKey}.

Lemma flush_spec polls w k w' :
  writer_ok spec w -> flush_client_or_cancel polls w = (Ok k, w') ->
  writer_ok spec w' /\ accepted spec w' = accepted spec w /\ settled spec w'.
Proof.
  revert w. induction polls as [|polls IH]; intros w Hw; cbn [flush_client_or_cancel]; [done|].
  destruct (poll_flush w) as [p w1] eqn:Hp. pose proof (poll_flush_spec spec _ _ _ Hw Hp) as Hs.
  destruct p as [|[[]|e]]; [| |done].
  - destruct Hs as [Hw1 Ha]. intros Hrun. rewrite <- Ha. by apply IH.
  - by intros [= <- <-].
Qed.

Lemma write_answers_spec polls tag answers (s : SecureRandomInner G) w k s' w' :
  writer_ok spec w -> write_answers polls tag answers s w = (Ok k, s', w') ->
  writer_ok spec w' /\ settled spec w' /\ exists frames,
    Forall2 (fun a f => frame_of tag (answer_quickack a) a.2 f) answers frames /\ accepted spec w' = accepted spec w ++ concat frames.
Proof.
  revert polls s w. induction answers as [|[flags data] answers IH]; intros polls s w Hw; cbn [write_answers].
  - destruct (flush_client_or_cancel polls w) as [r w1] eqn:Hf. intros [= -> <- <-].
    destruct (flush_spec _ _ _ _ Hw Hf) as (? & Ha & ?). split_and!; try done. exists []. split; [constructor|].
    by rewrite app_nil_r.
  - destruct (write_client_payload polls tag flags data s w) as [[[[mode polls1]|e] s1] w1] eqn:Hp; [|done]. intros Hrun.
    destruct (write_client_payload_spec spec _ _ _ _ _ _ _ _ _ Hw Hp) as [(e & ? & _)|(frame & Hframe & Hw1 & Ha)]; [done|].
    destruct (IH _ _ _ Hw1 Hrun) as (Hw' & Hset & frames & Hfs & Ha'). split_and!; try done.
    exists (frame :: frames). split; [by constructor|]. cbn [concat]. by rewrite Ha', Ha, app_assoc.
Qed.
End answers_spec.

(** * Reading until the end *)

Fixpoint read_frames {R : Type} `{AsyncRead R} (n : nat) (e : ReadEnv) (fuel : nat) (ticks : list Tick) (x : ReadCtx) (r : R)
    : option (result RelayError (list (list Z * bool)) * list Tick * ReadCtx * R) :=
  match n with
  | O => None
  | S n =>
      match read_client_payload_with_idle_policy_in e fuel ticks x r with
      | None => None
      | Some (Err err, ticks, x, r) => Some (Err err, ticks, x, r)
      | Some (Ok None, ticks, x, r) => Some (Ok [], ticks, x, r)
      | Some (Ok (Some f), ticks, x, r) =>
          match read_frames n e fuel ticks x r with
          | Some (Ok fs, ticks, x, r) => Some (Ok (f :: fs), ticks, x, r)
          | other => other
          end
      end
  end.

(** Payloads that the reading end takes. *)
Definition answer_fits (e : ReadEnv) (a : Answer) : Prop :=
  (4 <= length a.2)%nat /\ Z.of_nat (length a.2) + 3 <= re_max_frame e.

Lemma read_frames_live {R : Type} `{AsyncRead R} (src : SourceSpec R) e fuel answers frames ticks x r :
  Forall2 (fun a f => frame_of (re_proto_tag e) (answer_quickack a) a.2 f) answers frames -> Forall (answer_fits e) answers ->
  source_ok src r -> (fuel_need src r <= fuel)%nat -> future src r = concat frames ->
  0 <= tiny_frame_debt (rx_idle x) < TINY_FRAME_DEBT_LIMIT -> patient src r (length (concat frames) + 1) ticks ->
  exists ticks' x' r', read_frames (S (length answers)) e fuel ticks x r =
    Some (Ok ((fun a => (a.2, answer_quickack a)) <$> answers), ticks', x', r').
Proof.
  intros Hall. revert ticks x r. induction Hall as [|a f answers frames (pad & Hpad & Hframe) _ IH]; intros ticks x r Hfit Hok Hf Hfut Hdebt Hpat.
  - destruct (end_of_stream src 63 e fuel 0 ticks x r Hok Hf Hfut Hpat) as (t & x' & r' & Hrun). exists t, x', r'.
    cbn [length read_frames]. unfold read_client_payload_with_idle_policy_in, MAX_FRAMES_PER_READ. by rewrite Hrun.
  - apply Forall_cons_1 in Hfit as [[Hlen Hmax] Hfit]. cbn [concat] in Hfut, Hpat.
    assert (a.2 <> []) as Hne by (intros Hnil; rewrite Hnil in Hlen; cbn in Hlen; lia).
    specialize (Hframe 63%nat (concat frames) Hne). rewrite <- Hfut in Hframe. rewrite length_app in Hpat.
    assert (length (future src r) - length (concat frames) = length f)%nat as Hdiff by (rewrite Hfut, length_app; lia).
    destruct (frame_there src 64 e fuel 0 ticks x r _ Hok Hf Hframe) as (t & x' & r' & Hrun & Hto & Hdebt');
      cbn [fr_len fr_zeros fr_rest fr_payload fr_quickack] in *; [lia | right; lia | | |].
    { unfold zeros_allowed, LEGACY_MAX_CONSECUTIVE_ZERO_LEN_FRAMES, TINY_FRAME_DEBT_PER_TINY. split_and!; [lia | lia |]. right. lia. }
    { destruct Hpat. split; [lia | done]. }
    destruct (reads_to_ready src _ _ _ _ _ _ _ fuel (length (concat frames) + 1) Hto Hf) as (Hok' & Hf' & Hpat').
    { rewrite Hdiff. by rewrite Nat.add_assoc. }
    pose proof Hto as (_ & Hfut' & _). destruct (IH t x' r' Hfit Hok' Hf' Hfut' Hdebt' Hpat') as (t2 & x2 & r2 & Hrest).
    exists t2, x2, r2. cbn [length read_frames] in *.
    unfold read_client_payload_with_idle_policy_in at 1. unfold MAX_FRAMES_PER_READ at 1. rewrite Hrun. by rewrite Hrest.
Qed.
