(* ===== verification/RouteMode.v ===== *)
(** Switching between direct and middle routing (proxy/route_mode.rs): the
    controller behind the watch channel, which sessions a switch affects, and the
    staggered delay before they are closed. *)

From stdpp Require Import base list numbers.
From S2P Require Import Prelude.
Local Open Scope Z_scope.

Inductive RelayRouteMode := DirectRoute | MiddleRoute.
#[export] Instance RelayRouteMode_eq_dec : EqDecision RelayRouteMode.
Proof. solve_decision. Defined.

Record RouteCutoverState := mkCutover { rc_mode : RelayRouteMode; rc_generation : Z }.

(** The value of the watch channel and the atomic next to it. *)
Record RouteRuntimeController := mkController { rt_direct_since_epoch_secs : Z; rt_state : RouteCutoverState }.

(** [now] is [now_epoch_secs()]. *)
Definition route_new (initial_mode : RelayRouteMode) (now : Z) : RouteRuntimeController :=
  mkController (if bool_decide (initial_mode = DirectRoute) then now else 0) (mkCutover initial_mode 0).

Definition route_snapshot (c : RouteRuntimeController) : RouteCutoverState := rt_state c.

Definition direct_since_epoch_secs (c : RouteRuntimeController) : option Z :=
  if 0 <? rt_direct_since_epoch_secs c then Some (rt_direct_since_epoch_secs c) else None.

Definition route_set_mode (mode : RelayRouteMode) (now : Z) (c : RouteRuntimeController)
    : option RouteCutoverState * RouteRuntimeController :=
  if bool_decide (rc_mode (rt_state c) = mode) then (None, c)
  else
    let next := mkCutover mode (sat_add 64 (rc_generation (rt_state c)) 1) in
    (Some next, mkController (if bool_decide (mode = DirectRoute) then now else 0) next).

Definition is_session_affected_by_cutover (current : RouteCutoverState) (session_mode : RelayRouteMode) (session_generation : Z) : bool :=
  (session_generation <? rc_generation current) && negb (bool_decide (rc_mode current = session_mode)).

Definition affected_cutover_state (c : RouteRuntimeController) (session_mode : RelayRouteMode) (session_generation : Z) : option RouteCutoverState :=
  let current := rt_state c in
  if is_session_affected_by_cutover current session_mode session_generation then Some current else None.

(** Arithmetic of [u64]. *)
Definition u64_rotate_left (x k : Z) : Z := Z.lor (Z.shiftl x k mod 2 ^ 64) (Z.shiftr x (64 - k)).
Definition u64_wrapping_mul (x y : Z) : Z := (x * y) mod 2 ^ 64.

Definition cutover_stagger_delay (session_id generation : Z) : Duration :=
  let value := Z.lxor (Z.lxor session_id (u64_rotate_left generation 17)) 0x9e3779b97f4a7c15 in
  let value := Z.lxor value (Z.shiftr value 30) in
  let value := u64_wrapping_mul value 0xbf58476d1ce4e5b9 in
  let value := Z.lxor value (Z.shiftr value 27) in
  let value := u64_wrapping_mul value 0x94d049bb133111eb in
  let value := Z.lxor value (Z.shiftr value 31) in
  let ms := 1000 + value mod 1000 in
  from_millis ms.

(** A sequence of requests to switch. *)
Fixpoint set_modes (modes : list (RelayRouteMode * Z)) (c : RouteRuntimeController) : RouteRuntimeController :=
  match modes with
  | [] => c
  | (m, now) :: modes => set_modes modes (route_set_mode m now c).2
  end.

(** The controller's promise: a mode that differs from an earlier one comes with a
    larger generation, and the time since direct mode is set exactly in it. *)
Lemma set_modes_spec modes c :
  rc_generation (rt_state c) + Z.of_nat (length modes) <= umax 64 ->
  let c' := set_modes modes c in
  rc_generation (rt_state c) <= rc_generation (rt_state c') <= rc_generation (rt_state c) + Z.of_nat (length modes) /\
  (rc_mode (rt_state c') <> rc_mode (rt_state c) -> rc_generation (rt_state c) < rc_generation (rt_state c')) /\
  (rc_generation (rt_state c') = rc_generation (rt_state c) -> c' = c).
Proof.
  revert c. induction modes as [|[m now] modes IH]; intros c Hlen; cbn [set_modes length] in *.
  { split_and!; try done; lia. }
  specialize (IH (route_set_mode m now c).2). unfold route_set_mode in *. case_bool_decide as Hm; cbn [snd rt_state rc_generation rc_mode] in *.
  - destruct (IH ltac:(lia)) as (? & ? & ?). split_and!; try done; lia.
  - rewrite sat_add_exact in * by lia. destruct (IH ltac:(lia)) as (? & ? & ?). split_and!; lia.
Qed.

Lemma stagger_range session_id generation :
  from_millis 1000 <= cutover_stagger_delay session_id generation < from_millis 2000.
Proof.
  unfold cutover_stagger_delay, from_millis. cbv zeta. set (v := Z.lxor _ (Z.shiftr _ 31)).
  pose proof (Z.mod_pos_bound v 1000 ltac:(lia)). lia.
Qed.
