(* ===== verification/ClientProps.v ===== *)
(** Properties of a client's middle-relay session: framing in both directions,
    idle sessions and their eviction, reports of desynchronised clients, and
    switches of the route. *)

From stdpp Require Import base list gmap numbers.
From S2P Require Import Prelude Aes Random RpcWire FairnessScheduler Tls Stream TlsStream TlsStreamInv CryptoStream CryptoStreamInv StreamLive StreamRun RelayIdle RelayIdleRun Desync ClientFrames ClientFramesSpec ClientWrite ClientWriteSpec ClientRun RouteMode.
Local Open Scope Z_scope.

(** * Framing *)

(** C2: answers arrive as they were written.  Let the relay write any batch of
    answers in any of the three framings, over the encrypting and the record
    writer and a socket that takes any number of bytes at a time, and flush.  When
    the bytes on the wire reach the other end, cut in any way and with any pauses,
    the frame reader there returns exactly these payloads with their quick-ack
    flags, in order, and then the end of the stream. *)
Theorem answers_arrive `{StreamKey} {G : Type} `{StdRngLaws G} polls answers (s s' : SecureRandomInner G) sent profile seed c max k
    (w : WriteStack) script e fuel ticks x :
  write_answers polls (re_proto_tag e) answers s (write_stack sent profile seed c max) = (Ok k, s', w) ->
  Forall (answer_fits e) answers ->
  Forall live_event script -> script_data script = wire w ->
  (3 * length (wire w) + 3 <= fuel)%nat -> (length (wire w) < length ticks)%nat ->
  Forall (fun tk => script_pauses script <= tk_polls tk)%nat ticks ->
  0 <= tiny_frame_debt (rx_idle x) < TINY_FRAME_DEBT_LIMIT ->
  exists ticks' x' r', read_frames (S (length answers)) e fuel ticks x (read_stack script c) =
    Some (Ok ((fun a => (a.2, answer_quickack a)) <$> answers), ticks', x', r').
Proof.
  intros Hrun Hfit Hlive Hdata Hfuel Hticks Hpat Hdebt. destruct (write_stack_ok sent profile seed c max) as [Hok Hnil].
  destruct (write_answers_spec (write_stack_spec c) _ _ _ _ _ _ _ _ Hok Hrun) as (Hok' & Hset & frames & Hframes & Hacc).
  rewrite Hnil, app_nil_l in Hacc. destruct (read_stack_carries c w script Hok' Hset Hlive Hdata) as (Hsrc & Hfut & Hneed & Hlen).
  rewrite Hacc in Hfut, Hlen. apply (read_frames_live read_stack_source e fuel answers frames); try done; [lia|].
  split; [lia | done].
Qed.

(** C26: what a read returns is the next frame of the stream.  Over any reader, with
    any interleaving of timers, pauses and errors, a frame that
    [read_client_payload_with_idle_policy_in] returns is the first non-empty frame
    of exactly the bytes it consumed, within the size limits, and the session
    counts it, restarts its idle clock and is no candidate for eviction; an end of
    stream is reported only where these bytes hold no frame. *)
Theorem client_frame_exact {R : Type} `{AsyncRead R} (spec : ReaderSpec R) e fuel ticks x r res ticks' x' r' :
  reader_ok spec r -> read_client_payload_with_idle_policy_in e fuel ticks x r = Some (res, ticks', x', r') ->
  reader_ok spec r' /\ exists new, delivered spec r' = delivered spec r ++ new /\
  match res with
  | Ok (Some (payload, quickack)) =>
      (exists f, frame_at MAX_FRAMES_PER_READ (re_proto_tag e) new = Some f /\ fr_payload f = payload /\
        fr_quickack f = quickack /\ fr_rest f = [] /\ fr_len f <= re_max_frame e /\ (re_proto_tag e = Abridged \/ 4 <= fr_len f)) /\
      rx_frame_counter x' = rx_frame_counter x + 1 /\ last_client_frame_at (rx_idle x') = rx_clock x' /\
      soft_idle_marked (rx_idle x') = false /\ by_conn_id (rx_registry x') !! re_conn_id e = None
  | Ok None => frame_at MAX_FRAMES_PER_READ (re_proto_tag e) new = None
  | Err _ => True
  end.
Proof. intros Hr Hrun. apply (read_client_payload_sound spec) in Hrun as (? & _ & ?); done. Qed.

(** The loop over empty frames ends.  The debt that empty frames run up stops a
    call within 64 frames, so that any larger bound on the frames gives the same
    outcome. *)
Theorem empty_frames_bounded {R : Type} `{AsyncRead R} n e fuel ticks x (r : R) :
  0 <= tiny_frame_debt (rx_idle x) -> (MAX_FRAMES_PER_READ <= n)%nat ->
  read_client_payload n e fuel 0 ticks x r = read_client_payload_with_idle_policy_in e fuel ticks x r.
Proof.
  intros Hd Hn. unfold MAX_FRAMES_PER_READ in Hn.
  apply enough_rounds; unfold enough, MAX_FRAMES_PER_READ, TINY_FRAME_DEBT_LIMIT, TINY_FRAME_DEBT_PER_TINY; lia.
Qed.

(** A payload is refused before anything is written, or written as one frame.
    Over any writer, [write_client_payload] refuses a payload only for its alignment
    or its size and then leaves the writer alone; otherwise a completed call has
    added exactly one frame around the payload, and a cancelled one a prefix of it. *)
Theorem payload_framed_or_refused {W : Type} `{AsyncWrite W} (spec : WriterSpec W) {G : Type} `{StdRngLaws G} `{StreamKey}
    polls tag flags data (s : SecureRandomInner G) w res s' w' :
  writer_ok spec w -> write_client_payload polls tag flags data s w = (res, s', w') ->
  (exists err, res = Err err /\ refused tag data err /\ w' = w) \/
  (exists frame, frame_of tag (negb (Z.land flags RPC_FLAG_QUICKACK =? 0)) data frame /\ wrote spec frame w res w').
Proof. intros Hw Hrun. by eapply (write_client_payload_spec spec). Qed.

(** * Idle sessions *)

(** An idle session is never closed early.  Over any reader, a call counts a
    hard idle close only when at least [hard_idle] has passed since the client's
    last frame. *)
Theorem idle_close_never_early {R : Type} `{AsyncRead R} (spec : ReaderSpec R) e fuel ticks x r res ticks' x' r' :
  reader_ok spec r -> read_client_payload_with_idle_policy_in e fuel ticks x r = Some (res, ticks', x', r') ->
  exists new, rx_stats x' = rx_stats x ++ new /\
    (IdleHardClose ∈ new -> last_client_frame_at (rx_idle x') + hard_idle (re_policy e) <= rx_clock x').
Proof. intros Hr Hrun. by apply (read_client_payload_sound spec) in Hrun as (_ & Hlate & _). Qed.

(** A silent client is closed in time.  While nothing arrives and the rounds
    follow each other, each ended by the timer that the code sets and at most
    [late] after it, the call returns the timeout no earlier than the hard deadline
    and less than one second and [late] after it, with the session off the list of
    candidates. *)
Theorem silent_client_closed {R : Type} `{AsyncRead R} e fuel ticks late ms start x (r : R) D :
  D = hard_deadline (re_policy e) (rx_idle x) (re_session_started_at e) ms ->
  ip_enabled (re_policy e) = true -> silent r -> timed_rounds e late ms start ticks -> start < D ->
  Exists (fun tk => D <= tk_end tk) ticks ->
  exists ticks' x', read_client_payload_with_idle_policy_in e fuel ticks x r = Some (Err (RelayIo TimedOut), ticks', x', r) /\
    D <= rx_clock x' < D + RELAY_IDLE_IO_POLL_MAX + late /\ closed_idle e x'.
Proof. apply silent_read_closes. Qed.

(** C29: eviction under pressure is fair and limited.  After any sequence of marks,
    clears, pressure events and eviction checks on a fresh registry there were at
    most as many evictions as pressure events, and the next check evicts a session
    only if it is the candidate marked first, was marked before the latest event and
    the event is not used up; it then uses up the event and removes just that
    session. *)
Theorem idle_eviction_fifo ops es g :
  run_idle ops idle_registry_default = (es, g) -> Z.of_nat (length ops) <= umax 64 ->
  (length es <= pressure_events ops)%nat /\
  forall c seen seen' g', maybe_evict_idle_candidate_on_pressure_in c seen g = (true, seen', g') ->
    pressure_consumed_seq g < pressure_event_seq g /\ pressure_consumed_seq g' = pressure_event_seq g /\
    by_conn_id g' = delete c (by_conn_id g) /\
    exists m, by_conn_id g !! c = Some m /\ mark_pressure_seq m <> pressure_event_seq g /\
      forall c' m', by_conn_id g !! c' = Some m' -> c' <> c -> mark_order_seq m < mark_order_seq m'.
Proof.
  intros Hrun Hlen. destruct (run_idle_ok ops _ es g idle_default_ok Hlen Hlen Hrun) as (Hok & He & Hc).
  pose proof (io_counters g Hok). cbn in He, Hc. split; [lia|]. intros c seen seen' g' Hev.
  pose proof (evict_check_spec c seen g Hok) as Hspec. rewrite Hev in Hspec. apply Hspec.
Qed.

Ltac one_access := rewrite evict_alone_step; cbn [fst snd evict_step et_pc evict_at et_conn et_seen].

(** The eviction check as sessions run it, one access at a time, computes the
    sequential definition when no other session interferes. *)
Theorem evict_steps_agree c seen g :
  let '(evicted, seen', g') := maybe_evict_idle_candidate_on_pressure_in c seen g in
  evict_alone 7 (mkEvict c seen EvStart) g = (mkEvict c seen' (EvDone evicted), g').
Proof.
  unfold maybe_evict_idle_candidate_on_pressure_in. one_access.
  destruct (Z.eqb_spec (pressure_event_seq g) seen) as [<-|]; [apply evict_alone_done|].
  one_access. destruct (_ =? _); [apply evict_alone_done|].
  one_access.
  destruct (oldest_candidate (by_conn_id g) (ordered g)) as [[c0|] l]; cbn [snd].
  2:{ one_access. apply evict_alone_done. }
  destruct (c0 =? c); cbn [negb]; [|apply evict_alone_done]. set (g1 := set_ordered l g).
  one_access.
  destruct (by_conn_id g1 !! c) as [m|] eqn:Hm; [|apply evict_alone_done]. destruct (_ =? _); [apply evict_alone_done|].
  one_access. unfold cas_consumed.
  destruct (_ =? _); [|apply evict_alone_done].
  one_access. unfold clear_relay_idle_candidate_in.
  change (by_conn_id (set_consumed (pressure_event_seq g) g1)) with (by_conn_id g1). rewrite Hm.
  one_access. done.
Qed.

(** The consumed counter can go back.  Three sessions idle since before the first
    pressure event; the second one reads the event counter at 1 and is overtaken by
    event 2 and the eviction of the first, then sets the consumed counter from 2
    back to 1, and the third spends event 2 again: three evictions for two events. *)
Definition race_registry : RelayIdleCandidateRegistry := (run_idle [OpMark 1; OpMark 2; OpMark 3] idle_registry_default).2.
Definition race_sessions : list EvictThread := [mkEvict 1 0 EvStart; mkEvict 2 0 EvStart; mkEvict 3 0 EvStart].
Definition race_schedule : list RaceEvent :=
  [RacePressure; RaceStep 1; RacePressure] ++ replicate 7 (RaceStep 0) ++ replicate 6 (RaceStep 1) ++ replicate 7 (RaceStep 2).

Lemma pressure_spent_twice :
  evicted_count (race race_schedule race_sessions race_registry).1 = 3%nat /\
  pressure_event_seq (race race_schedule race_sessions race_registry).2 = 2.
Proof. by vm_compute. Qed.

(** * Reports of desynchronised clients *)

(** C31: one full report per client and window.  For calls in the order of their
    times and fewer than [DESYNC_DEDUP_MAX_ENTRIES] different clients, the
    two-generation cache gives exactly the answers of a table that remembers the
    last full report of every client for ever. *)
Theorem desync_cache_exact (K : gset Z) calls t :
  ordered_from t calls -> Forall (fun c => c.1 ∈ K) calls -> (size K < DESYNC_DEDUP_MAX_ENTRIES)%nat ->
  (run_reports calls desync_new).1 = ref_run calls ∅.
Proof. intros Hord Hk Hsz. by apply (run_reports_refines K calls ∅ t desync_new); [apply desync_new_inv | ..]. Qed.

(** * Switching the route *)

(** A switch closes exactly the sessions on the wrong route.  A session that
    started under some state of the controller is affected, after any sequence of
    requests, if and only if the route now differs from its own; it is then closed
    after at least one and less than two seconds. *)
Theorem cutover_affects_exactly c modes session_id :
  let start := route_snapshot c in
  let c' := set_modes modes c in
  rc_generation start + Z.of_nat (length modes) <= umax 64 ->
  (affected_cutover_state c' (rc_mode start) (rc_generation start) =
    if bool_decide (rc_mode (route_snapshot c') = rc_mode start) then None else Some (route_snapshot c')) /\
  from_millis 1000 <= cutover_stagger_delay session_id (rc_generation (route_snapshot c')) < from_millis 2000.
Proof.
  intros start c' Hlen. split; [|apply stagger_range]. destruct (set_modes_spec modes c Hlen) as (_ & Hgen & _).
  unfold affected_cutover_state, is_session_affected_by_cutover, route_snapshot in *. fold c' in Hgen.
  case_bool_decide as Hm; cbn [negb]; [by rewrite andb_false_r|]. rewrite (proj2 (Z.ltb_lt _ _)) by (by apply Hgen). done.
Qed.

(** A read that is dropped loses the bytes it holds.  The session's loop drops the
    frame read whenever the route changes; after two switches the session is not
    affected and reads on, but the half of a header that the dropped read had
    consumed is gone, and the client's well-formed frame is taken for one that is
    too large. *)
Definition drop_env : ReadEnv := mkReadEnv (idle_policy_disabled (from_secs 60)) 0 7 1 false Intermediate 1048576.
Definition drop_ctx : ReadCtx := mkReadCtx (idle_state_new 0) idle_registry_default desync_new [] 0 0.
Definition drop_tick : Tick := mkTick 1 0 1 2 0 [].
Definition drop_socket : ReadSocket := mkReadSocket [RData [8; 0]; RPending; RData [0; 0; 1; 2; 3; 4; 5; 6; 7; 8]] [].
Definition flipped : RouteRuntimeController := set_modes [(DirectRoute, 1); (MiddleRoute, 2)] (route_new MiddleRoute 0).

Definition drop_read (r : ReadSocket) : option (result RelayError (option (list Z * bool))) :=
  match read_client_payload_with_idle_policy_in drop_env 9 (replicate 4 drop_tick) drop_ctx r with
  | Some (answer, _, _, _) => Some answer
  | None => None
  end.

Lemma dropped_read_desyncs :
  affected_cutover_state flipped MiddleRoute 0 = None /\
  drop_read drop_socket = Some (Ok (Some ([1; 2; 3; 4; 5; 6; 7; 8], false))) /\
  (fst <$> run_polls 9 [4%nat; 2%nat] drop_socket) = Some [8; 0] /\
  (run_polls 9 [4%nat; 2%nat] drop_socket ≫= fun q => drop_read q.2) = Some (Err (FrameTooLarge 0x2010000)).
Proof. split_and!; vm_compute; reflexivity. Qed.

(** * Examples *)

#[local] Instance demo_rng : StdRng nat := {
  rng_fill_bytes n r := ((fun i => Z.of_nat (r + i) mod 256)%Z <$> seq 0 n, (r + n)%nat);
  rng_random_range max r := (r mod max, S r)%nat;
  rng_random_range_incl max r := (r mod S max, S r)%nat;
}.

#[local] Instance demo_rng_laws : StdRngLaws nat.
Proof.
  constructor.
  - intros n r. cbn. split; [by rewrite length_fmap, length_seq|].
    apply Forall_fmap, Forall_true. intros i. unfold compose, is_byte. by apply Z.mod_pos_bound.
  - intros max r Hm. cbn. apply Nat.mod_upper_bound. lia.
  - intros max r. cbn [rng_random_range_incl fst demo_rng].
    pose proof (Nat.mod_upper_bound r (S max)). lia.
Qed.

#[local] Instance demo_keys : StreamKey := fun key iv n => ((iv + Z.of_nat n * 37) mod 256)%Z.

Definition demo_random : SecureRandomInner nat := mkRandom 5%nat (aes_ctr_new [1; 2] 9) [] 0.
Definition demo_key : AesCtr := aes_ctr_new [3; 4] 11.
Definition demo_answers : list Answer := [(0, [1; 2; 3; 4]); (RPC_FLAG_QUICKACK, [5; 6; 7; 8; 9; 10; 11; 12])].
Definition demo_stack : WriteStack := write_stack [WAccept 2; WPending; WAccept 4; WPending] Chrome 7 demo_key 5.
Definition demo_written : result WriteError nat * SecureRandomInner nat * WriteStack :=
  write_answers 90 Secure demo_answers demo_random demo_stack.
Definition demo_bytes : list Z := Eval vm_compute in wire demo_written.2.
Definition demo_events : list ReadEvent := [RData (take 3 demo_bytes); RPending; RData (drop 3 demo_bytes)].
Definition demo_env : ReadEnv := mkReadEnv (mkIdlePolicy true 10 20 0 60) 0 7 1 false Secure 1048576.
Definition demo_wait : Tick := mkTick 1 0 2 2 0 [].

Lemma demo_written_ok : write_answers 90 Secure demo_answers demo_random demo_stack = (Ok 86%nat, demo_written.1.2, demo_written.2).
Proof. vm_compute. reflexivity. Qed.

Lemma answers_arrive_witness :
  exists ticks' x' r', read_frames 3 demo_env 400 (replicate 130 demo_wait) drop_ctx (read_stack demo_events demo_key) =
    Some (Ok [([1; 2; 3; 4], false); ([5; 6; 7; 8; 9; 10; 11; 12], true)], ticks', x', r').
Proof.
  apply (answers_arrive 90 demo_answers demo_random _ _ Chrome 7 demo_key 5 86 demo_written.2 demo_events demo_env 400 _ drop_ctx demo_written_ok).
  - repeat constructor; cbn; lia.
  - repeat constructor; done.
  - vm_compute. reflexivity.
  - apply Nat.leb_le. vm_compute. reflexivity.
  - apply Nat.leb_le. vm_compute. reflexivity.
  - apply Forall_replicate. apply Nat.leb_le. vm_compute. reflexivity.
  - done.
Defined.

(** The client's frame of [drop_socket], read without interruption. *)
Definition demo_reading : FrameRead ReadSocket :=
  default (fail ExcessiveZeroFrames [] drop_ctx drop_socket)
    (read_client_payload_with_idle_policy_in drop_env 9 (replicate 4 drop_tick) drop_ctx drop_socket).

Lemma demo_reading_ok :
  read_client_payload_with_idle_policy_in drop_env 9 (replicate 4 drop_tick) drop_ctx drop_socket =
    Some (Ok (Some ([1; 2; 3; 4; 5; 6; 7; 8], false)), demo_reading.1.1.2, demo_reading.1.2, demo_reading.2).
Proof. vm_compute. reflexivity. Qed.

Lemma client_frame_exact_witness :
  exists new f, delivered socket_reader_spec demo_reading.2 = new /\ frame_at MAX_FRAMES_PER_READ Intermediate new = Some f /\
    fr_payload f = [1; 2; 3; 4; 5; 6; 7; 8] /\ fr_rest f = [].
Proof.
  destruct (client_frame_exact socket_reader_spec _ _ _ _ drop_socket _ _ _ _ I demo_reading_ok) as (_ & new & Hnew & (f & ? & ? & _ & ? & _) & _).
  by exists new, f.
Defined.

Lemma empty_frames_bounded_witness :
  read_client_payload 100 drop_env 9 0 (replicate 4 drop_tick) drop_ctx drop_socket =
    read_client_payload_with_idle_policy_in drop_env 9 (replicate 4 drop_tick) drop_ctx drop_socket.
Proof. apply (empty_frames_bounded 100); [done | apply Nat.leb_le; vm_compute; reflexivity]. Defined.

Definition demo_payload : result WriteError (MeD2cWriteMode * nat) * SecureRandomInner nat * WriteSocket :=
  write_client_payload 4 Intermediate 0 [1; 2; 3; 4; 5] demo_random (mkWriteSocket [WAccept 3; WPending] []).

Lemma payload_framed_or_refused_witness :
  exists frame, frame_of Intermediate false [1; 2; 3; 4; 5] frame /\ wr_log demo_payload.2 = frame.
Proof.
  destruct (payload_framed_or_refused socket_writer_spec 4 Intermediate 0 [1; 2; 3; 4; 5] demo_random (mkWriteSocket [WAccept 3; WPending] [])
    demo_payload.1.1 demo_payload.1.2 demo_payload.2 I) as [(err & Herr & _)|(frame & Hframe & _ & Hw)].
  - vm_compute. reflexivity.
  - vm_compute in Herr. done.
  - exists frame. split; [exact Hframe | exact Hw].
Defined.

(** A client that sends nothing. *)
#[local] Instance demo_silent : AsyncRead unit := fun _ _ u => Some (Pending, u).
Definition quiet_rounds : list Tick := [mkTick 1 0 0 10 0 []; mkTick 10 0 0 20 0 []].
Definition quiet_reading : FrameRead ReadSocket :=
  default (fail ExcessiveZeroFrames [] drop_ctx drop_socket)
    (read_client_payload_with_idle_policy_in demo_env 9 quiet_rounds drop_ctx (mkReadSocket [RPending; RPending] [])).

Lemma idle_close_never_early_witness :
  rx_stats quiet_reading.1.2 = [IdleSoftMark; IdleHardClose] /\
  last_client_frame_at (rx_idle quiet_reading.1.2) + 20 <= rx_clock quiet_reading.1.2.
Proof.
  split; [vm_compute; reflexivity|].
  destruct (idle_close_never_early socket_reader_spec demo_env 9 quiet_rounds drop_ctx (mkReadSocket [RPending; RPending] [])
    quiet_reading.1.1.1 quiet_reading.1.1.2 quiet_reading.1.2 quiet_reading.2 I) as (new & Hnew & Hlate).
  - vm_compute. reflexivity.
  - apply Hlate. assert (new = [IdleSoftMark; IdleHardClose]) as -> by (change (rx_stats quiet_reading.1.2 = new) in Hnew; rewrite <- Hnew; vm_compute; reflexivity).
    apply list_elem_of_further, list_elem_of_here.
Defined.

Lemma silent_client_closed_witness :
  exists ticks' x', read_client_payload_with_idle_policy_in demo_env 9 quiet_rounds drop_ctx tt = Some (Err (RelayIo TimedOut), ticks', x', tt) /\
    20 <= rx_clock x' < 20 + RELAY_IDLE_IO_POLL_MAX + 0 /\ closed_idle demo_env x'.
Proof.
  apply (silent_client_closed demo_env 9 quiet_rounds 0 0 1 drop_ctx tt 20); try done.
  - cbn [timed_rounds quiet_rounds tk_now tk_end tk_end_downstream_ms]. split_and!; try done; try lia.
    + exists (idle_state_new 0), 20. vm_compute. done.
    + exists (mkIdleState 0 true 0), 20. vm_compute. done.
  - right. left. cbn. lia.
Defined.

Definition demo_ops : list IdleOp := [OpMark 5; OpMark 6; OpPressure].

Lemma idle_eviction_fifo_witness :
  let g := (run_idle demo_ops idle_registry_default).2 in
  maybe_evict_idle_candidate_on_pressure_in 5 0 g = (true, 1, (maybe_evict_idle_candidate_on_pressure_in 5 0 g).2) /\
  exists m, by_conn_id g !! 5 = Some m /\ forall c' m', by_conn_id g !! c' = Some m' -> c' <> 5 -> mark_order_seq m < mark_order_seq m'.
Proof.
  intros g.
  assert (maybe_evict_idle_candidate_on_pressure_in 5 0 g = (true, 1, (maybe_evict_idle_candidate_on_pressure_in 5 0 g).2)) as Hev
    by (vm_compute; reflexivity).
  split; [exact Hev|].
  destruct (idle_eviction_fifo demo_ops [] g) as [_ Hnext]; [vm_compute; reflexivity | vm_compute; done |].
  destruct (Hnext _ _ _ _ Hev) as (_ & _ & _ & m & ? & _ & ?). by exists m.
Defined.

Definition demo_reports : list (Z * Z) := [(1, 5); (2, 6); (1, 7); (1, 5 + DESYNC_DEDUP_WINDOW)].

Lemma desync_cache_exact_witness : (run_reports demo_reports desync_new).1 = ref_run demo_reports ∅.
Proof.
  apply (desync_cache_exact {[1; 2]} demo_reports 0).
  - cbn [ordered_from demo_reports]. vm_compute. done.
  - repeat constructor; set_solver.
  - apply Nat.ltb_lt. vm_compute. reflexivity.
Defined.

Lemma cutover_affects_exactly_witness :
  affected_cutover_state flipped MiddleRoute 0 = None /\
  from_millis 1000 <= cutover_stagger_delay 9 2 < from_millis 2000.
Proof. apply (cutover_affects_exactly (route_new MiddleRoute 0) [(DirectRoute, 1); (MiddleRoute, 2)] 9). vm_compute. done. Defined.
