(* ===== verification/ConnRegistry.v ===== *)
(** The registry of client connections and middle-proxy writers
    (transport/middle_proxy/registry.rs, registry/writer.rs): which connection is
    routed, which writer it is bound to, and the counters derived from it. *)

From stdpp Require Import base list gmap numbers.
From S2P Require Import Prelude Net.
Local Open Scope Z_scope.

(** * Data *)

Record ConnMeta := mkConnMeta { target_dc : Z; client_addr : SocketAddr; our_addr : SocketAddr; proto_flags : Z }.

Record BoundConn := mkBoundConn { bc_conn_id : Z; bc_meta : ConnMeta }.

Record HotConnBinding := mkHot { hb_writer_id : Z; hb_meta : ConnMeta }.

Record BindingInner := mkBindingInner {
  writer_for_conn : gmap Z Z;
  conns_for_writer : gmap Z (gset Z);
  binding_meta : gmap Z ConnMeta;
}.

Record BindingState := mkBinding {
  binding_inner : BindingInner;
  writer_idle_since_epoch_secs : gmap Z Z;
  bound_clients_by_writer : gmap Z Z;
  active_sessions_by_target_dc : gmap Z Z;
  last_meta_for_writer : gmap Z ConnMeta;
}.

Record WriterActivitySnapshot := mkActivity {
  was_bound_clients_by_writer : gmap Z Z;
  was_active_sessions_by_target_dc : gmap Z Z;
}.

Definition ROUTE_BACKPRESSURE_BASE_TIMEOUT_MS : Z := 25.
Definition ROUTE_BACKPRESSURE_HIGH_TIMEOUT_MS : Z := 120.
Definition ROUTE_BACKPRESSURE_HIGH_WATERMARK_PCT : Z := 80.
Definition ROUTE_QUEUED_BYTE_PERMIT_UNIT : Z := 16 * 1024.
Definition ROUTE_QUEUED_PERMITS_PER_SLOT : Z := 4.
Definition ROUTE_QUEUED_MAX_FRAME_PERMITS : Z := 1024.

(** [T] and [S] stand for a connection's sender and semaphore, [W] for the command
    route of a writer. *)
Section registry.
Context {T S W : Type}.

Record Registry := mkRegistry {
  routing_map : gmap Z T;
  routing_byte_budget : gmap Z S;
  writers_map : gmap Z W;
  hot_binding : gmap Z HotConnBinding;
  binding : BindingState;
  next_id : Z;
  route_channel_capacity : Z;
  route_backpressure_base_timeout_ms : Z;
  route_backpressure_high_timeout_ms : Z;
  route_backpressure_high_watermark_pct : Z;
  route_byte_permits_per_conn : Z;
}.

Implicit Types r : Registry.

Definition with_routing (m : gmap Z T) (b : gmap Z S) r : Registry :=
  mkRegistry m b (writers_map r) (hot_binding r) (binding r) (next_id r) (route_channel_capacity r)
    (route_backpressure_base_timeout_ms r) (route_backpressure_high_timeout_ms r)
    (route_backpressure_high_watermark_pct r) (route_byte_permits_per_conn r).
Definition with_writers (m : gmap Z W) r : Registry :=
  mkRegistry (routing_map r) (routing_byte_budget r) m (hot_binding r) (binding r) (next_id r) (route_channel_capacity r)
    (route_backpressure_base_timeout_ms r) (route_backpressure_high_timeout_ms r)
    (route_backpressure_high_watermark_pct r) (route_byte_permits_per_conn r).
Definition with_hot (m : gmap Z HotConnBinding) r : Registry :=
  mkRegistry (routing_map r) (routing_byte_budget r) (writers_map r) m (binding r) (next_id r) (route_channel_capacity r)
    (route_backpressure_base_timeout_ms r) (route_backpressure_high_timeout_ms r)
    (route_backpressure_high_watermark_pct r) (route_byte_permits_per_conn r).
Definition with_binding (b : BindingState) r : Registry :=
  mkRegistry (routing_map r) (routing_byte_budget r) (writers_map r) (hot_binding r) b (next_id r) (route_channel_capacity r)
    (route_backpressure_base_timeout_ms r) (route_backpressure_high_timeout_ms r)
    (route_backpressure_high_watermark_pct r) (route_byte_permits_per_conn r).

Definition with_inner (i : BindingInner) (b : BindingState) : BindingState :=
  mkBinding i (writer_idle_since_epoch_secs b) (bound_clients_by_writer b) (active_sessions_by_target_dc b) (last_meta_for_writer b).

(** * Construction *)

Definition route_byte_permit_budget (capacity : Z) : Z :=
  Z.max (Z.max (sat_mul 64 capacity ROUTE_QUEUED_PERMITS_PER_SLOT) ROUTE_QUEUED_MAX_FRAME_PERMITS) 1.

(** [start] is the random number drawn. *)
Definition with_route_limits (start capacity permits : Z) : Registry :=
  mkRegistry ∅ ∅ ∅ ∅ (mkBinding (mkBindingInner ∅ ∅ ∅) ∅ ∅ ∅ ∅) (Z.lor start 1) (Z.max capacity 1)
    ROUTE_BACKPRESSURE_BASE_TIMEOUT_MS ROUTE_BACKPRESSURE_HIGH_TIMEOUT_MS ROUTE_BACKPRESSURE_HIGH_WATERMARK_PCT (Z.max permits 1).

Definition with_route_channel_capacity (start capacity : Z) : Registry :=
  let capacity := Z.max capacity 1 in
  with_route_limits start capacity (route_byte_permit_budget capacity).

Definition update_route_backpressure_policy (base_timeout_ms high_timeout_ms high_watermark_pct : Z) r : Registry :=
  let base := Z.max base_timeout_ms 1 in
  let high := Z.max high_timeout_ms base in
  mkRegistry (routing_map r) (routing_byte_budget r) (writers_map r) (hot_binding r) (binding r) (next_id r) (route_channel_capacity r)
    base high (clamp 1 100 high_watermark_pct) (route_byte_permits_per_conn r).

(** A new channel of the capacity and a new semaphore. *)
Definition register (tx : T) (sem : S) r : Z * Registry :=
  let id := next_id r in
  let r := mkRegistry (<[id := tx]> (routing_map r)) (<[id := sem]> (routing_byte_budget r)) (writers_map r) (hot_binding r) (binding r)
    ((id + 1) mod 2 ^ 64) (route_channel_capacity r) (route_backpressure_base_timeout_ms r) (route_backpressure_high_timeout_ms r)
    (route_backpressure_high_watermark_pct r) (route_byte_permits_per_conn r) in
  (id, r).

(** * Counters *)

Definition set_writer_bound_count (now writer_id count : Z) (b : BindingState) : BindingState :=
  let idle := writer_idle_since_epoch_secs b in
  mkBinding (binding_inner b)
    (if count =? 0 then (match idle !! writer_id with Some _ => idle | None => <[writer_id := now]> idle end) else delete writer_id idle)
    (<[writer_id := count]> (bound_clients_by_writer b)) (active_sessions_by_target_dc b) (last_meta_for_writer b).

Definition adjust_active_target_dc (dc delta : Z) (b : BindingState) : BindingState :=
  if (dc =? 0) || (delta =? 0) then b
  else
    let active := active_sessions_by_target_dc b in
    let active :=
      if 0 <? delta then
        match active !! dc with Some count => <[dc := sat_add 64 count delta]> active | None => <[dc := delta]> active end
      else
        match active !! dc with
        | Some count =>
            let count := sat_sub count (Z.abs delta) in
            if count =? 0 then delete dc active else <[dc := count]> active
        | None => active
        end in
    mkBinding (binding_inner b) (writer_idle_since_epoch_secs b) (bound_clients_by_writer b) active (last_meta_for_writer b).

(** * Writers and connections; [now] is [now_epoch_secs()] *)

Definition register_writer (now writer_id : Z) (route : W) r : Registry :=
  let b := binding r in
  let i := binding_inner b in
  let conns := match conns_for_writer i !! writer_id with Some _ => conns_for_writer i | None => <[writer_id := ∅]> (conns_for_writer i) end in
  let bound := match bound_clients_by_writer b !! writer_id with
    | Some _ => bound_clients_by_writer b | None => <[writer_id := 0]> (bound_clients_by_writer b) end in
  let idle := match writer_idle_since_epoch_secs b !! writer_id with
    | Some _ => writer_idle_since_epoch_secs b | None => <[writer_id := now]> (writer_idle_since_epoch_secs b) end in
  with_writers (<[writer_id := route]> (writers_map r))
    (with_binding (mkBinding (mkBindingInner (writer_for_conn i) conns (binding_meta i)) idle bound
      (active_sessions_by_target_dc b) (last_meta_for_writer b)) r).

(** The tables outside of the lock, touched first. *)
Definition unregister_unlocked (id : Z) r : Registry :=
  with_hot (delete id (hot_binding r)) (with_routing (delete id (routing_map r)) (delete id (routing_byte_budget r)) r).

(** Takes a connection out of a writer's set: the set's next size. *)
Definition remove_from_writer (writer_id id : Z) (i : BindingInner) : Z * BindingInner :=
  match conns_for_writer i !! writer_id with
  | Some set =>
      let set := set ∖ {[id]} in
      (Z.of_nat (size set), mkBindingInner (writer_for_conn i) (<[writer_id := set]> (conns_for_writer i)) (binding_meta i))
  | None => (0, i)
  end.

Definition unregister_locked (now id : Z) r : option Z * Registry :=
  let b := binding r in
  let i := binding_inner b in
  let b := with_inner (mkBindingInner (writer_for_conn i) (conns_for_writer i) (delete id (binding_meta i))) b in
  let b := match binding_meta i !! id with Some meta => adjust_active_target_dc (target_dc meta) (-1) b | None => b end in
  let i := binding_inner b in
  match writer_for_conn i !! id with
  | Some writer_id =>
      let '(next_count, i) := remove_from_writer writer_id id (mkBindingInner (delete id (writer_for_conn i)) (conns_for_writer i) (binding_meta i)) in
      (Some writer_id, with_binding (set_writer_bound_count now writer_id next_count (with_inner i b)) r)
  | None => (None, with_binding b r)
  end.

Definition unregister (now id : Z) r : option Z * Registry := unregister_locked now id (unregister_unlocked id r).

(** The part of [bind_writer] after its two checks and before the hot table. *)
Definition bind_inner (now conn_id writer_id : Z) (meta : ConnMeta) (b : BindingState) : BindingState :=
  let i := binding_inner b in
  let previous := writer_for_conn i !! conn_id in
  let b := with_inner (mkBindingInner (<[conn_id := writer_id]> (writer_for_conn i)) (conns_for_writer i) (binding_meta i)) b in
  let b :=
    match previous with
    | Some previous_writer_id =>
        if previous_writer_id =? writer_id then b
        else
          let '(next_count, i) := remove_from_writer previous_writer_id conn_id (binding_inner b) in
          set_writer_bound_count now previous_writer_id next_count (with_inner i b)
    | None => b
    end in
  let i := binding_inner b in
  let b' := with_inner (mkBindingInner (writer_for_conn i) (conns_for_writer i) (<[conn_id := meta]> (binding_meta i))) b in
  let b := match binding_meta i !! conn_id with Some previous_meta => adjust_active_target_dc (target_dc previous_meta) (-1) b' | None => b' end in
  let b := adjust_active_target_dc (target_dc meta) 1 b in
  let b := mkBinding (binding_inner b) (writer_idle_since_epoch_secs b) (bound_clients_by_writer b) (active_sessions_by_target_dc b)
    (<[writer_id := meta]> (last_meta_for_writer b)) in
  let i := binding_inner b in
  let set := {[conn_id]} ∪ default ∅ (conns_for_writer i !! writer_id) in
  set_writer_bound_count now writer_id (Z.of_nat (size set))
    (with_inner (mkBindingInner (writer_for_conn i) (<[writer_id := set]> (conns_for_writer i)) (binding_meta i)) b).

(** [bind_writer] after its checks; all of it under the lock. *)
Definition bind_commit (now conn_id writer_id : Z) (meta : ConnMeta) r : Registry :=
  with_hot (<[conn_id := mkHot writer_id meta]> (hot_binding r)) (with_binding (bind_inner now conn_id writer_id meta (binding r)) r).

Definition bind_check (conn_id writer_id : Z) r : bool :=
  bool_decide (is_Some (routing_map r !! conn_id)) && bool_decide (is_Some (writers_map r !! writer_id)).

Definition bind_writer (now conn_id writer_id : Z) (meta : ConnMeta) r : bool * Registry :=
  if bind_check conn_id writer_id r then (true, bind_commit now conn_id writer_id meta r) else (false, r).

Definition mark_writer_idle (now writer_id : Z) r : Registry :=
  let b := binding r in
  let i := binding_inner b in
  let set := default ∅ (conns_for_writer i !! writer_id) in
  let b := with_inner (mkBindingInner (writer_for_conn i) (<[writer_id := set]> (conns_for_writer i)) (binding_meta i)) b in
  with_binding (set_writer_bound_count now writer_id (Z.of_nat (size set)) b) r.

(** The tables that know a writer by its id alone. *)
Definition forget_writer (writer_id : Z) r : Registry :=
  let b := binding r in
  let i := binding_inner b in
  with_writers (delete writer_id (writers_map r))
    (with_binding (mkBinding (mkBindingInner (writer_for_conn i) (delete writer_id (conns_for_writer i)) (binding_meta i))
      (delete writer_id (writer_idle_since_epoch_secs b)) (delete writer_id (bound_clients_by_writer b))
      (active_sessions_by_target_dc b) (delete writer_id (last_meta_for_writer b))) r).

(** One connection of a lost writer. *)
Definition lose_conn (writer_id conn_id : Z) r : option BoundConn * Registry :=
  let b := binding r in
  let i := binding_inner b in
  if bool_decide (writer_for_conn i !! conn_id = Some writer_id) then
    let b := with_inner (mkBindingInner (delete conn_id (writer_for_conn i)) (conns_for_writer i) (delete conn_id (binding_meta i))) b in
    let meta := binding_meta i !! conn_id in
    let b := match meta with Some meta => adjust_active_target_dc (target_dc meta) (-1) b | None => b end in
    let r := with_binding b r in
    let remove_hot := match hot_binding r !! conn_id with Some hot => hb_writer_id hot =? writer_id | None => false end in
    let r := if remove_hot then with_hot (delete conn_id (hot_binding r)) r else r in
    (mkBoundConn conn_id <$> meta, r)
  else (None, r).

Fixpoint lose_conns (writer_id : Z) (conns : list Z) r : list BoundConn * Registry :=
  match conns with
  | [] => ([], r)
  | conn_id :: conns =>
      let '(lost, r) := lose_conn writer_id conn_id r in
      let '(out, r) := lose_conns writer_id conns r in
      (match lost with Some c => c :: out | None => out end, r)
  end.

(** The order in which a hash set is visited is not fixed; here it is that of
    [elements]. *)
Definition writer_lost (writer_id : Z) r : list BoundConn * Registry :=
  let conns := elements (default ∅ (conns_for_writer (binding_inner (binding r)) !! writer_id)) in
  lose_conns writer_id conns (forget_writer writer_id r).

Definition unregister_writer_if_empty (writer_id : Z) r : bool * Registry :=
  match conns_for_writer (binding_inner (binding r)) !! writer_id with
  | None => (true, r)
  | Some conn_ids => if bool_decide (conn_ids = ∅) then (true, forget_writer writer_id r) else (false, r)
  end.

(** * Queries *)

Definition get_last_writer_meta (writer_id : Z) r : option ConnMeta := last_meta_for_writer (binding r) !! writer_id.

Definition writer_idle_since_snapshot r : gmap Z Z := writer_idle_since_epoch_secs (binding r).

Definition writer_idle_since_for_writer_ids (writer_ids : list Z) r : gmap Z Z :=
  foldl (fun out w => match writer_idle_since_epoch_secs (binding r) !! w with Some t => <[w := t]> out | None => out end) ∅ writer_ids.

Definition writer_activity_snapshot r : WriterActivitySnapshot :=
  mkActivity (bound_clients_by_writer (binding r)) (active_sessions_by_target_dc (binding r)).

Definition get_writer_with_meta (conn_id : Z) r : option (Z * W * ConnMeta) :=
  match routing_map r !! conn_id with
  | None => None
  | Some _ =>
      match hot_binding r !! conn_id with
      | None => None
      | Some hot => (fun route => (hb_writer_id hot, route, hb_meta hot)) <$> writers_map r !! hb_writer_id hot
      end
  end.

Definition get_writer (conn_id : Z) r : option (Z * W) :=
  match routing_map r !! conn_id with
  | None => None
  | Some _ =>
      match hot_binding r !! conn_id with
      | None => None
      | Some hot => (fun route => (hb_writer_id hot, route)) <$> writers_map r !! hb_writer_id hot
      end
  end.

Definition active_conn_ids r : list Z := (map_to_list (writer_for_conn (binding_inner (binding r)))).*1.

Definition get_meta (conn_id : Z) r : option ConnMeta := hb_meta <$> hot_binding r !! conn_id.

Definition is_writer_empty (writer_id : Z) r : bool :=
  match bound_clients_by_writer (binding r) !! writer_id with Some count => count =? 0 | None => true end.

Definition non_empty_writer_ids (writer_ids : list Z) r : gset Z :=
  list_to_set (filter (fun w => is_writer_empty w r = false) writer_ids).
End registry.

Arguments Registry : clear implicits.
