(* ===== verification/ConnRegistryInv.v ===== *)
(** The registry implements one map from connections to writers: an abstract
    specification, the representation relation and its preservation. *)

From stdpp Require Import base list gmap numbers.
From S2P Require Import Prelude Net ConnRegistry.
Local Open Scope Z_scope.

Section spec.
Context {T S W : Type}.
Implicit Types (r : Registry T S W) (bound : gmap Z (Z * ConnMeta)) (known : gset Z).

(** * Specification *)

(** The connections that are routed, the writers with their routes, the writers
    that are known, the binding of each bound connection, and the next id. *)
Record Bindings := mkBindings {
  ab_routed : gset Z;
  ab_writers : gmap Z W;
  ab_known : gset Z;
  ab_bound : gmap Z (Z * ConnMeta);
  ab_next : Z;
}.

Implicit Types a : Bindings.

Definition conns_of bound (w : Z) : gset Z := dom (filter (fun e => e.2.1 = w) bound).

Definition sessions bound (dc : Z) : Z := map_sum (fun _ p => b2z (target_dc p.2 =? dc)) bound.

Inductive RegOp :=
  | OpRegister (tx : T) (sem : S)
  | OpRegisterWriter (now w : Z) (route : W)
  | OpUnregister (now c : Z)
  | OpBind (now c w : Z) (meta : ConnMeta)
  | OpMarkIdle (now w : Z)
  | OpWriterLost (w : Z)
  | OpUnregisterWriter (w : Z)
  | OpPolicy (base high pct : Z).

Inductive RegOut :=
  | OutUnit
  | OutId (id : Z)
  | OutBool (b : bool)
  | OutWriter (w : option Z)
  | OutLost (conns : list BoundConn).

(** The connections a lost writer returns come in any order. *)
Definition out_equiv (o o' : RegOut) : Prop :=
  match o, o' with
  | OutLost l, OutLost l' => l ≡ₚ l'
  | _, _ => o = o'
  end.

Definition bound_list bound (w : Z) : list BoundConn :=
  (fun e => mkBoundConn e.1 e.2.2) <$> map_to_list (filter (fun e => e.2.1 = w) bound).

Definition spec_step (op : RegOp) a : RegOut * Bindings :=
  let '(mkBindings routed writers known bound next) := a in
  match op with
  | OpRegister _ _ => (OutId next, mkBindings ({[next]} ∪ routed) writers known bound ((next + 1) mod 2 ^ 64))
  | OpRegisterWriter _ w route => (OutUnit, mkBindings routed (<[w := route]> writers) ({[w]} ∪ known) bound next)
  | OpUnregister _ c => (OutWriter (fst <$> bound !! c), mkBindings (routed ∖ {[c]}) writers known (delete c bound) next)
  | OpBind _ c w meta =>
      if bool_decide (c ∈ routed /\ is_Some (writers !! w)) then (OutBool true, mkBindings routed writers known (<[c := (w, meta)]> bound) next)
      else (OutBool false, a)
  | OpMarkIdle _ w => (OutUnit, mkBindings routed writers ({[w]} ∪ known) bound next)
  | OpWriterLost w =>
      (OutLost (bound_list bound w), mkBindings routed (delete w writers) (known ∖ {[w]}) (filter (fun e => e.2.1 <> w) bound) next)
  | OpUnregisterWriter w =>
      if bool_decide (w ∈ known /\ conns_of bound w <> ∅) then (OutBool false, a)
      else (OutBool true, mkBindings routed (delete w writers) (known ∖ {[w]}) bound next)
  | OpPolicy _ _ _ => (OutUnit, a)
  end.

Definition reg_step (op : RegOp) r : RegOut * Registry T S W :=
  match op with
  | OpRegister tx sem => let '(id, r) := register tx sem r in (OutId id, r)
  | OpRegisterWriter now w route => (OutUnit, register_writer now w route r)
  | OpUnregister now c => let '(w, r) := unregister now c r in (OutWriter w, r)
  | OpBind now c w meta => let '(b, r) := bind_writer now c w meta r in (OutBool b, r)
  | OpMarkIdle now w => (OutUnit, mark_writer_idle now w r)
  | OpWriterLost w => let '(l, r) := writer_lost w r in (OutLost l, r)
  | OpUnregisterWriter w => let '(b, r) := unregister_writer_if_empty w r in (OutBool b, r)
  | OpPolicy base high pct => (OutUnit, update_route_backpressure_policy base high pct r)
  end.

(** A writer is registered under an id that no connection is bound to. *)
Definition op_ok (op : RegOp) a : Prop :=
  match op with OpRegisterWriter _ w _ => conns_of (ab_bound a) w = ∅ | _ => True end.

(** * Representation *)

Definition active_exact (active : gmap Z Z) (n : Z -> Z) : Prop :=
  forall dc, active !! dc = if (dc =? 0) || (n dc =? 0) then None else Some (n dc).

(** The binding tables hold [bound], with the writers of [known]. *)
Record BindRep (b : BindingState) (known : gset Z) bound : Prop := mkBindRep {
  br_wfc : writer_for_conn (binding_inner b) = fst <$> bound;
  br_meta : binding_meta (binding_inner b) = snd <$> bound;
  br_conns : forall w, conns_for_writer (binding_inner b) !! w = if bool_decide (w ∈ known) then Some (conns_of bound w) else None;
  br_count : forall w, bound_clients_by_writer b !! w =
    if bool_decide (w ∈ known) then Some (Z.of_nat (size (conns_of bound w))) else None;
  br_idle : forall w, is_Some (writer_idle_since_epoch_secs b !! w) <-> w ∈ known /\ conns_of bound w = ∅;
  br_active : active_exact (active_sessions_by_target_dc b) (sessions bound);
}.

Record RepCore r a : Prop := mkRepCore {
  rep_routed : dom (routing_map r) = ab_routed a;
  rep_budget : dom (routing_byte_budget r) = ab_routed a;
  rep_writers : writers_map r = ab_writers a;
  rep_hot : hot_binding r = (fun p => mkHot p.1 p.2) <$> ab_bound a;
  rep_binding : BindRep (binding r) (ab_known a) (ab_bound a);
  rep_last : dom (last_meta_for_writer (binding r)) ⊆ dom (ab_writers a);
  rep_known : dom (ab_writers a) ⊆ ab_known a;
  rep_routed_bound : dom (ab_bound a) ⊆ ab_routed a;
  rep_next : next_id r = ab_next a;
}.

(** Bound connections have a live writer. *)
Definition bound_live a : Prop := forall c w m, ab_bound a !! c = Some (w, m) -> is_Some (ab_writers a !! w).

Definition Rep r a : Prop := RepCore r a /\ bound_live a.

(** * Sets of connections *)

Lemma elem_of_conns_of bound c w : c ∈ conns_of bound w <-> exists m, bound !! c = Some (w, m).
Proof.
  unfold conns_of. rewrite elem_of_dom. split.
  - intros [[w' m] [Hc Hw]%map_lookup_filter_Some]. cbn in Hw. exists m. by subst.
  - intros [m Hc]. exists (w, m). by apply map_lookup_filter_Some.
Qed.

Lemma conns_of_insert bound c w m w' :
  conns_of (<[c := (w, m)]> bound) w' = if bool_decide (w' = w) then {[c]} ∪ conns_of bound w' else conns_of bound w' ∖ {[c]}.
Proof.
  apply set_eq. intros x. rewrite elem_of_conns_of. destruct (decide (x = c)) as [->|Hne].
  - rewrite lookup_insert_eq. case_bool_decide as Hw.
    + subst. split; [set_solver | by exists m].
    + split; [intros [? [= ? ?]]; congruence | set_solver].
  - rewrite lookup_insert_ne by done. rewrite <- elem_of_conns_of. case_bool_decide; set_solver.
Qed.

Lemma conns_of_delete bound c w : conns_of (delete c bound) w = conns_of bound w ∖ {[c]}.
Proof.
  apply set_eq. intros x. rewrite elem_of_conns_of, elem_of_difference, elem_of_conns_of, elem_of_singleton.
  split; [intros [m [? ?]%lookup_delete_Some]; naive_solver | intros [[m ?] ?]; exists m; by rewrite lookup_delete_ne].
Qed.

Lemma conns_of_not bound c w : (forall m, bound !! c <> Some (w, m)) -> conns_of bound w ∖ {[c]} = conns_of bound w.
Proof. intros Hno. apply set_eq. intros x. rewrite elem_of_difference, elem_of_singleton, !elem_of_conns_of. naive_solver. Qed.

(** * Sessions per data centre *)

Lemma sessions_nonneg bound dc : 0 <= sessions bound dc.
Proof. apply map_sum_nonneg. intros. unfold b2z. by destruct (_ =? _). Qed.

Lemma sessions_size bound dc : sessions bound dc <= Z.of_nat (size bound).
Proof. apply map_sum_le_size. intros. unfold b2z. by destruct (_ =? _). Qed.

Lemma sessions_pos bound c w m : bound !! c = Some (w, m) -> 0 < sessions bound (target_dc m).
Proof.
  intros Hc. pose proof (map_sum_lookup_le (fun _ p => b2z (target_dc p.2 =? target_dc m)) bound c (w, m)) as Hle.
  cbn [snd] in Hle. rewrite Z.eqb_refl in Hle. unfold b2z in Hle at 2. unfold sessions.
  enough (1 <= map_sum (fun _ p => b2z (target_dc p.2 =? target_dc m)) bound) by lia.
  apply Hle; [|done]. intros. unfold b2z. by destruct (_ =? _).
Qed.

Lemma adjust_up active n dc : active_exact active n -> (forall d, 0 <= n d) -> n dc < umax 64 -> forall b,
  active_sessions_by_target_dc b = active ->
  active_exact (active_sessions_by_target_dc (adjust_active_target_dc dc 1 b)) (fun d => n d + b2z (dc =? d)).
Proof.
  intros Ha Hn Hmax b <-. unfold adjust_active_target_dc. pose proof (Hn dc).
  destruct (Z.eqb_spec dc 0) as [->|Hdc]; cbn [orb].
  { intros d. rewrite (Ha d). unfold b2z. destruct (Z.eqb_spec 0 d) as [<-|]; [done|]. by rewrite Z.add_0_r. }
  change (1 =? 0) with false. cbn [active_sessions_by_target_dc]. change (0 <? 1) with true. cbn match. intros d. pose proof (Ha dc) as Hdc1.
  rewrite (proj2 (Z.eqb_neq dc 0)) in Hdc1 by done. cbn [orb] in Hdc1. unfold b2z. destruct (Z.eqb_spec dc d) as [->|Hne].
  - rewrite (proj2 (Z.eqb_neq d 0)) by done. cbn [orb]. rewrite (proj2 (Z.eqb_neq (n d + 1) 0)) by lia. rewrite Hdc1.
    destruct (Z.eqb_spec (n d) 0) as [->|]; rewrite lookup_insert_eq; [done|]. f_equal. unfold sat_add. lia.
  - rewrite Z.add_0_r, <- (Ha d). destruct (active_sessions_by_target_dc b !! dc); by rewrite lookup_insert_ne.
Qed.

Lemma adjust_down active n dc : active_exact active n -> 0 < n dc -> forall b,
  active_sessions_by_target_dc b = active ->
  active_exact (active_sessions_by_target_dc (adjust_active_target_dc dc (-1) b)) (fun d => n d - b2z (dc =? d)).
Proof.
  intros Ha Hpos b <-. unfold adjust_active_target_dc.
  destruct (Z.eqb_spec dc 0) as [->|Hdc]; cbn [orb].
  { intros d. rewrite (Ha d). unfold b2z. destruct (Z.eqb_spec 0 d) as [<-|]; [done|]. by rewrite Z.sub_0_r. }
  change (-1 =? 0) with false. cbn [active_sessions_by_target_dc]. change (0 <? -1) with false. cbn match. intros d. pose proof (Ha dc) as Hdc1.
  rewrite (proj2 (Z.eqb_neq dc 0)), (proj2 (Z.eqb_neq (n dc) 0)) in Hdc1 by lia. cbn [orb] in Hdc1. rewrite Hdc1.
  replace (sat_sub (n dc) (Z.abs (-1))) with (n dc - 1) by (unfold sat_sub; lia).
  unfold b2z. destruct (Z.eqb_spec dc d) as [->|Hne].
  - rewrite (proj2 (Z.eqb_neq d 0)) by done. cbn [orb].
    destruct (Z.eqb_spec (n d - 1) 0); [by rewrite lookup_delete_eq | by rewrite lookup_insert_eq].
  - rewrite Z.sub_0_r, <- (Ha d). destruct (_ =? 0); [by rewrite lookup_delete_ne | by rewrite lookup_insert_ne].
Qed.

Lemma active_exact_ext active n n' : (forall d, n d = n' d) -> active_exact active n -> active_exact active n'.
Proof. intros Hext Ha d. rewrite (Ha d). by rewrite Hext. Qed.

Lemma adjust_inner dc delta b : binding_inner (adjust_active_target_dc dc delta b) = binding_inner b.
Proof. unfold adjust_active_target_dc. by destruct (_ || _). Qed.
Lemma adjust_idle dc delta b : writer_idle_since_epoch_secs (adjust_active_target_dc dc delta b) = writer_idle_since_epoch_secs b.
Proof. unfold adjust_active_target_dc. by destruct (_ || _). Qed.
Lemma adjust_count dc delta b : bound_clients_by_writer (adjust_active_target_dc dc delta b) = bound_clients_by_writer b.
Proof. unfold adjust_active_target_dc. by destruct (_ || _). Qed.
Lemma adjust_last dc delta b : last_meta_for_writer (adjust_active_target_dc dc delta b) = last_meta_for_writer b.
Proof. unfold adjust_active_target_dc. by destruct (_ || _). Qed.

(** The mark of idle writers after a count is set. *)
Lemma set_count_idle now w n b w' :
  is_Some (writer_idle_since_epoch_secs (set_writer_bound_count now w n b) !! w') <->
  if bool_decide (w' = w) then n = 0 else is_Some (writer_idle_since_epoch_secs b !! w').
Proof.
  cbn [writer_idle_since_epoch_secs set_writer_bound_count]. case_bool_decide as Hw.
  - subst w'. destruct (Z.eqb_spec n 0) as [->|Hn].
    + split; [done|]. intros _. destruct (writer_idle_since_epoch_secs b !! w) as [t|] eqn:Ht; [by rewrite Ht|]. by rewrite lookup_insert_eq.
    + rewrite lookup_delete_eq. split; [by intros [? ?] | done].
  - destruct (n =? 0); [|by rewrite lookup_delete_ne]. destruct (writer_idle_since_epoch_secs b !! w); [done|].
    by rewrite lookup_insert_ne.
Qed.

(** * Binding tables *)

Lemma sessions_delete bound c w m d : bound !! c = Some (w, m) -> sessions (delete c bound) d = sessions bound d - b2z (target_dc m =? d).
Proof. intros Hc. unfold sessions. by rewrite (map_sum_delete _ _ _ _ Hc). Qed.

Lemma sessions_new bound c w m d : bound !! c = None -> sessions (<[c := (w, m)]> bound) d = sessions bound d + b2z (target_dc m =? d).
Proof. intros Hc. unfold sessions. rewrite map_sum_insert_new by done. cbn [snd]. lia. Qed.

Lemma sessions_rebind bound c w m w0 m0 d : bound !! c = Some (w0, m0) ->
  sessions (<[c := (w, m)]> bound) d = sessions bound d - b2z (target_dc m0 =? d) + b2z (target_dc m =? d).
Proof. intros Hc. unfold sessions. rewrite (map_sum_insert _ _ _ _ _ Hc). done. Qed.

Lemma size_empty_Z (s : gset Z) : Z.of_nat (size s) = 0 <-> s = ∅.
Proof. split; [intros Hz; apply leibniz_equiv, size_empty_iff; lia | intros ->; by rewrite size_empty]. Qed.

(** The idle mark of a writer whose set is given its size. *)
Lemma idle_of_size now w (set : gset Z) b w' (known : gset Z) bound :
  (forall x, x <> w -> (is_Some (writer_idle_since_epoch_secs b !! x) <-> x ∈ known /\ conns_of bound x = ∅)) ->
  w ∈ known -> conns_of bound w = set ->
  is_Some (writer_idle_since_epoch_secs (set_writer_bound_count now w (Z.of_nat (size set)) b) !! w') <->
    w' ∈ known /\ conns_of bound w' = ∅.
Proof.
  intros Hother Hw Hset. rewrite set_count_idle. case_bool_decide as Heq.
  - subst w'. rewrite size_empty_Z, Hset. naive_solver.
  - by apply Hother.
Qed.

Lemma unregister_locked_rep now c r known bound :
  BindRep (binding r) known bound -> (forall w m, bound !! c = Some (w, m) -> w ∈ known) ->
  let '(o, r') := unregister_locked now c r in
  o = fst <$> bound !! c /\ BindRep (binding r') known (delete c bound) /\
  r' = with_binding (binding r') r /\ last_meta_for_writer (binding r') = last_meta_for_writer (binding r).
Proof.
  intros Hb Hknown. unfold unregister_locked. cbv zeta. rewrite (br_meta _ _ _ Hb), lookup_fmap.
  destruct (bound !! c) as [[w m]|] eqn:Hc; cbn [fmap option_fmap option_map].
  - rewrite adjust_inner. cbn [with_inner binding_inner writer_for_conn conns_for_writer binding_meta].
    rewrite (br_wfc _ _ _ Hb), lookup_fmap, Hc. cbn [fmap option_fmap option_map fst].
    unfold remove_from_writer. cbn [conns_for_writer writer_for_conn binding_meta].
    rewrite (br_conns _ _ _ Hb w), bool_decide_true by eauto.
    split; [done|]. split; [|split; [done|]; cbn [binding with_binding set_writer_bound_count last_meta_for_writer with_inner]; by rewrite adjust_last].
    cbn [binding with_binding]. split.
    + cbn [set_writer_bound_count with_inner binding_inner writer_for_conn]. by rewrite fmap_delete.
    + cbn [set_writer_bound_count with_inner binding_inner binding_meta]. by rewrite fmap_delete.
    + intros w'. cbn [set_writer_bound_count with_inner binding_inner conns_for_writer]. rewrite conns_of_delete.
      destruct (decide (w' = w)) as [->|Hne]; [rewrite lookup_insert_eq, bool_decide_true by eauto; done|].
      rewrite lookup_insert_ne, (br_conns _ _ _ Hb) by done. rewrite conns_of_not by (rewrite Hc; naive_solver). done.
    + intros w'. cbn [set_writer_bound_count with_inner bound_clients_by_writer]. rewrite adjust_count, conns_of_delete.
      cbn [with_inner bound_clients_by_writer].
      destruct (decide (w' = w)) as [->|Hne]; [rewrite lookup_insert_eq, bool_decide_true by eauto; done|].
      rewrite lookup_insert_ne, (br_count _ _ _ Hb) by done. rewrite conns_of_not by (rewrite Hc; naive_solver). done.
    + intros w'. apply idle_of_size; [|by eauto | apply conns_of_delete]. intros x Hx. cbn [with_inner writer_idle_since_epoch_secs].
      rewrite adjust_idle. cbn [with_inner writer_idle_since_epoch_secs]. rewrite (br_idle _ _ _ Hb), conns_of_delete.
      by rewrite conns_of_not by (rewrite Hc; naive_solver).
    + cbn [set_writer_bound_count with_inner active_sessions_by_target_dc].
      eapply active_exact_ext; [|apply (adjust_down _ _ _ (br_active _ _ _ Hb)); [by eapply sessions_pos | done]].
      intros d. cbn beta. by rewrite (sessions_delete _ _ _ _ _ Hc).
  - cbn [with_inner binding_inner writer_for_conn]. rewrite (br_wfc _ _ _ Hb), lookup_fmap, Hc.
    split; [done|]. rewrite (delete_id bound c Hc). split; [|done]. cbn [binding with_binding].
    destruct Hb. split; cbn [with_inner binding_inner writer_for_conn conns_for_writer binding_meta writer_idle_since_epoch_secs
      bound_clients_by_writer active_sessions_by_target_dc]; try done.
    apply delete_id. by rewrite lookup_fmap, Hc.
Qed.

(** The two adjustments of a new binding. *)
Lemma adjust_bind bound c w m b :
  active_exact (active_sessions_by_target_dc b) (sessions bound) -> Z.of_nat (size bound) < umax 64 ->
  active_exact (active_sessions_by_target_dc (adjust_active_target_dc (target_dc m) 1
    (match snd <$> bound !! c with Some m0 => adjust_active_target_dc (target_dc m0) (-1) b | None => b end)))
    (sessions (<[c := (w, m)]> bound)).
Proof.
  intros Ha Hsz. destruct (bound !! c) as [[w0 m0]|] eqn:Hc; cbn [fmap option_fmap option_map snd].
  - pose proof (adjust_down _ _ (target_dc m0) Ha ltac:(by eapply sessions_pos) b eq_refl) as Hdown.
    eapply active_exact_ext; [|apply (adjust_up _ _ (target_dc m) Hdown); [| |done]]; cbn beta.
    + intros d. symmetry. by apply sessions_rebind with w0.
    + intros d. rewrite <- (sessions_delete _ _ _ _ _ Hc). apply sessions_nonneg.
    + pose proof (sessions_size bound (target_dc m)). unfold b2z. destruct (_ =? _); lia.
  - eapply active_exact_ext; [|apply (adjust_up _ _ (target_dc m) Ha); [apply sessions_nonneg | | done]]; cbn beta.
    + intros d. symmetry. by apply sessions_new.
    + pose proof (sessions_size bound (target_dc m)). lia.
Qed.

(** The sets and counts after a connection moved to [w]. *)
Definition moved (now c w : Z) (previous : option Z) (b : BindingState) : BindingState :=
  match previous with
  | Some w0 =>
      if w0 =? w then b
      else
        let '(n, i) := remove_from_writer w0 c (binding_inner b) in
        set_writer_bound_count now w0 n (with_inner i b)
  | None => b
  end.

Lemma moved_spec now c w known bound b :
  (forall w, conns_for_writer (binding_inner b) !! w = if bool_decide (w ∈ known) then Some (conns_of bound w) else None) ->
  (forall w, bound_clients_by_writer b !! w = if bool_decide (w ∈ known) then Some (Z.of_nat (size (conns_of bound w))) else None) ->
  (forall w, is_Some (writer_idle_since_epoch_secs b !! w) <-> w ∈ known /\ conns_of bound w = ∅) ->
  (forall w m, bound !! c = Some (w, m) -> w ∈ known) ->
  let b' := moved now c w (fst <$> bound !! c) b in
  writer_for_conn (binding_inner b') = writer_for_conn (binding_inner b) /\
  binding_meta (binding_inner b') = binding_meta (binding_inner b) /\
  active_sessions_by_target_dc b' = active_sessions_by_target_dc b /\ last_meta_for_writer b' = last_meta_for_writer b /\
  (default ∅ (conns_for_writer (binding_inner b') !! w) ∖ {[c]} = conns_of bound w ∖ {[c]} \/ w ∉ known) /\
  forall x, x <> w ->
    (conns_for_writer (binding_inner b') !! x = if bool_decide (x ∈ known) then Some (conns_of bound x ∖ {[c]}) else None) /\
    (bound_clients_by_writer b' !! x = if bool_decide (x ∈ known) then Some (Z.of_nat (size (conns_of bound x ∖ {[c]}))) else None) /\
    (is_Some (writer_idle_since_epoch_secs b' !! x) <-> x ∈ known /\ conns_of bound x ∖ {[c]} = ∅).
Proof.
  intros Hconns Hcount Hidle Hknown b'. subst b'. unfold moved.
  assert (forall x, x ∉ known \/ (forall m, bound !! c <> Some (x, m)) ->
    (conns_for_writer (binding_inner b) !! x = if bool_decide (x ∈ known) then Some (conns_of bound x ∖ {[c]}) else None) /\
    (bound_clients_by_writer b !! x = if bool_decide (x ∈ known) then Some (Z.of_nat (size (conns_of bound x ∖ {[c]}))) else None) /\
    (is_Some (writer_idle_since_epoch_secs b !! x) <-> x ∈ known /\ conns_of bound x ∖ {[c]} = ∅)) as Hsame.
  { intros x [Hx|Hx]; [|rewrite (conns_of_not _ _ _ Hx); by rewrite Hconns, Hcount, Hidle].
    rewrite Hconns, Hcount, Hidle, !bool_decide_false by done. naive_solver. }
  assert (default ∅ (conns_for_writer (binding_inner b) !! w) ∖ {[c]} = conns_of bound w ∖ {[c]} \/ w ∉ known) as Hself.
  { destruct (decide (w ∈ known)); [left | by right]. by rewrite Hconns, bool_decide_true. }
  destruct (bound !! c) as [[w0 m0]|] eqn:Hc; cbn [fmap option_fmap option_map fst].
  2:{ split_and!; try done. intros x _. apply Hsame. by right. }
  destruct (Z.eqb_spec w0 w) as [->|Hne].
  { split_and!; try done. intros x Hx. apply Hsame. right. naive_solver. }
  unfold remove_from_writer. rewrite Hconns, bool_decide_true by eauto.
  cbn [set_writer_bound_count with_inner binding_inner writer_for_conn conns_for_writer binding_meta bound_clients_by_writer
    active_sessions_by_target_dc last_meta_for_writer].
  split_and!; try done; [by rewrite lookup_insert_ne|]. intros x Hx. destruct (decide (x = w0)) as [->|Hx0].
  - rewrite !lookup_insert_eq, !bool_decide_true by eauto. split_and!; try done.
    rewrite set_count_idle, bool_decide_true, size_empty_Z by done. naive_solver.
  - rewrite !lookup_insert_ne by done. rewrite set_count_idle, (bool_decide_false (x = w0)) by done. apply Hsame. right. naive_solver.
Qed.

Lemma union_same (c : Z) (X Y : gset Z) : X ∖ {[c]} = Y ∖ {[c]} -> {[c]} ∪ X = {[c]} ∪ Y.
Proof.
  intros Heq. apply set_eq. intros x. rewrite !elem_of_union, !elem_of_singleton. destruct (decide (x = c)) as [|Hne]; [tauto|].
  assert (x ∈ X ∖ {[c]} <-> x ∈ Y ∖ {[c]}) as Hx by (by rewrite Heq).
  rewrite !elem_of_difference, !elem_of_singleton in Hx. tauto.
Qed.

Lemma bind_inner_rep now c w m b known bound :
  BindRep b known bound -> w ∈ known -> (forall w m, bound !! c = Some (w, m) -> w ∈ known) -> Z.of_nat (size bound) < umax 64 ->
  BindRep (bind_inner now c w m b) known (<[c := (w, m)]> bound) /\
  last_meta_for_writer (bind_inner now c w m b) = <[w := m]> (last_meta_for_writer b).
Proof.
  intros Hb Hw Hknown Hsz. unfold bind_inner. cbv zeta. rewrite (br_wfc _ _ _ Hb), lookup_fmap.
  set (b1 := with_inner (mkBindingInner (<[c := w]> (fst <$> bound)) (conns_for_writer (binding_inner b)) (binding_meta (binding_inner b))) b).
  fold (moved now c w (fst <$> bound !! c) b1).
  destruct (moved_spec now c w known bound b1 (br_conns _ _ _ Hb) (br_count _ _ _ Hb) (br_idle _ _ _ Hb) Hknown)
    as (Hwfc & Hmeta & Hact & Hlast & Hself & Hother).
  set (b2 := moved now c w (fst <$> bound !! c) b1) in *. clearbody b2.
  rewrite Hmeta. change (binding_meta (binding_inner b1)) with (binding_meta (binding_inner b)).
  rewrite (br_meta _ _ _ Hb), lookup_fmap.
  set (b3 := with_inner (mkBindingInner (writer_for_conn (binding_inner b2)) (conns_for_writer (binding_inner b2)) (<[c := m]> (snd <$> bound))) b2).
  set (b4 := match snd <$> bound !! c with Some m0 => adjust_active_target_dc (target_dc m0) (-1) b3 | None => b3 end).
  assert (binding_inner b4 = binding_inner b3 /\ writer_idle_since_epoch_secs b4 = writer_idle_since_epoch_secs b3 /\
    bound_clients_by_writer b4 = bound_clients_by_writer b3 /\ last_meta_for_writer b4 = last_meta_for_writer b3) as (Hi & Hd & Hn & Hl).
  { unfold b4. destruct (snd <$> bound !! c); [|done]. by rewrite adjust_inner, adjust_idle, adjust_count, adjust_last. }
  assert (active_exact (active_sessions_by_target_dc (adjust_active_target_dc (target_dc m) 1 b4)) (sessions (<[c := (w, m)]> bound))) as Hactive.
  { apply adjust_bind; [|done]. unfold b3. cbn [with_inner active_sessions_by_target_dc]. rewrite Hact. apply (br_active _ _ _ Hb). }
  clearbody b4. rewrite adjust_inner, adjust_idle, adjust_count, adjust_last, Hi, Hd, Hn, Hl.
  unfold b3. cbn [with_inner binding_inner writer_for_conn conns_for_writer binding_meta writer_idle_since_epoch_secs bound_clients_by_writer
    last_meta_for_writer active_sessions_by_target_dc]. rewrite Hwfc, Hlast. split; [|done].
  assert ({[c]} ∪ default ∅ (conns_for_writer (binding_inner b2) !! w) = conns_of (<[c := (w, m)]> bound) w) as Hset.
  { rewrite conns_of_insert, bool_decide_true by done. destruct Hself as [Hself|]; [|done]. by apply union_same. }
  rewrite Hset. split.
  - cbn [set_writer_bound_count with_inner binding_inner writer_for_conn b1]. by rewrite fmap_insert.
  - cbn [set_writer_bound_count with_inner binding_inner binding_meta]. by rewrite fmap_insert.
  - intros x. cbn [set_writer_bound_count with_inner binding_inner conns_for_writer]. destruct (decide (x = w)) as [->|Hx].
    + by rewrite lookup_insert_eq, bool_decide_true.
    + rewrite lookup_insert_ne, conns_of_insert, (bool_decide_false (x = w)) by done. by destruct (Hother x Hx) as (-> & _).
  - intros x. cbn [set_writer_bound_count with_inner bound_clients_by_writer]. destruct (decide (x = w)) as [->|Hx].
    + by rewrite lookup_insert_eq, bool_decide_true.
    + rewrite lookup_insert_ne, conns_of_insert, (bool_decide_false (x = w)) by done. by destruct (Hother x Hx) as (_ & -> & _).
  - intros x. apply idle_of_size; try done. intros y Hy. cbn [with_inner writer_idle_since_epoch_secs].
    rewrite conns_of_insert, (bool_decide_false (y = w)) by done. by destruct (Hother y Hy) as (_ & _ & ->).
  - exact Hactive.
Qed.

(** * Operations *)

Ltac reg_cbn :=
  cbn [with_hot with_binding with_writers with_routing routing_map routing_byte_budget writers_map hot_binding binding next_id
    ab_routed ab_writers ab_known ab_bound ab_next unregister_unlocked bind_commit].

Lemma bound_known r a c w m : Rep r a -> ab_bound a !! c = Some (w, m) -> w ∈ ab_known a.
Proof. intros [Hcore Hlive] Hc. apply (rep_known _ _ Hcore), elem_of_dom. by eapply Hlive. Qed.

Lemma unknown_unbound r a w : Rep r a -> w ∉ ab_known a -> conns_of (ab_bound a) w = ∅.
Proof.
  intros Hrep Hw. apply set_eq. intros c. rewrite elem_of_conns_of. split; [|set_solver].
  intros [m Hm]. by apply (bound_known _ _ _ _ _ Hrep) in Hm.
Qed.

Lemma register_rep tx sem r a : Rep r a ->
  let '(id, r') := register tx sem r in
  Rep r' (mkBindings ({[id]} ∪ ab_routed a) (ab_writers a) (ab_known a) (ab_bound a) ((id + 1) mod 2 ^ 64)) /\ id = ab_next a.
Proof.
  intros [[] Hlive]. split; [|done]. split; [|done]. split; cbn; try done; [by rewrite dom_insert_L, rep_routed0 | by rewrite dom_insert_L, rep_budget0 | set_solver].
Qed.

Lemma unregister_rep now c r a : Rep r a ->
  let '(o, r') := unregister now c r in
  o = fst <$> ab_bound a !! c /\
  Rep r' (mkBindings (ab_routed a ∖ {[c]}) (ab_writers a) (ab_known a) (delete c (ab_bound a)) (ab_next a)).
Proof.
  intros Hrep. pose proof Hrep as [Hcore Hlive]. unfold unregister.
  pose proof (unregister_locked_rep now c (unregister_unlocked c r) (ab_known a) (ab_bound a) (rep_binding _ _ Hcore)
    ltac:(intros w m; by apply (bound_known _ _ _ _ _ Hrep))) as Hun.
  destruct (unregister_locked now c (unregister_unlocked c r)) as [o r'].
  destruct Hun as (-> & Hb & Hr & Hlast). split; [done|]. split.
  - destruct Hcore. rewrite Hr. split; reg_cbn; try done.
    + by rewrite dom_delete_L, rep_routed0.
    + by rewrite dom_delete_L, rep_budget0.
    + by rewrite rep_hot0, fmap_delete.
    + rewrite Hlast. exact rep_last0.
    + rewrite dom_delete_L. set_solver.
  - intros x w m. cbn. intros [_ Hx]%lookup_delete_Some. by eapply Hlive.
Qed.

Lemma bind_rep now c w m r a : Rep r a -> Z.of_nat (size (ab_bound a)) < umax 64 ->
  let '(ok, r') := bind_writer now c w m r in
  ok = bool_decide (c ∈ ab_routed a /\ is_Some (ab_writers a !! w)) /\
  Rep r' (if ok then mkBindings (ab_routed a) (ab_writers a) (ab_known a) (<[c := (w, m)]> (ab_bound a)) (ab_next a) else a).
Proof.
  intros Hrep Hsz. pose proof Hrep as [Hcore Hlive]. unfold bind_writer, bind_check.
  assert (is_Some (routing_map r !! c) <-> c ∈ ab_routed a) as Hrt by (rewrite <- (rep_routed _ _ Hcore); symmetry; apply elem_of_dom).
  rewrite (rep_writers _ _ Hcore), <- bool_decide_and, (bool_decide_ext _ (c ∈ ab_routed a /\ is_Some (ab_writers a !! w))) by (by rewrite Hrt).
  case_bool_decide as Hok; [|done]. split; [done|]. destruct Hok as [Hc Hw].
  assert (w ∈ ab_known a) as Hk by (apply (rep_known _ _ Hcore), elem_of_dom; eauto).
  destruct (bind_inner_rep now c w m (binding r) _ _ (rep_binding _ _ Hcore) Hk) as [Hb Hlast]; [|done|].
  { intros w' m' ?. by eapply bound_known. }
  split.
  - destruct Hcore. split; reg_cbn; try done.
    + by rewrite rep_hot0, fmap_insert.
    + rewrite Hlast, dom_insert_L. apply union_subseteq. split; [|done]. apply singleton_subseteq_l, elem_of_dom. eauto.
    + rewrite dom_insert_L. set_solver.
  - intros x w' m' Hx. cbn in *. apply lookup_insert_Some in Hx as [[_ [= <- <-]]|[_ Hx]]; [by eauto | by eapply Hlive].
Qed.

(** Registering or marking a writer without connections. *)
Lemma known_rep w set b known bound : BindRep b known bound -> conns_of bound w = ∅ -> 
  (forall x, is_Some (set !! x) <-> x = w \/ is_Some (writer_idle_since_epoch_secs b !! x)) ->
  BindRep (mkBinding (mkBindingInner (writer_for_conn (binding_inner b)) (<[w := ∅]> (conns_for_writer (binding_inner b))) (binding_meta (binding_inner b)))
    set (<[w := 0]> (bound_clients_by_writer b)) (active_sessions_by_target_dc b) (last_meta_for_writer b)) ({[w]} ∪ known) bound.
Proof.
  intros [] Hw Hset. split; try done; cbn [binding_inner conns_for_writer bound_clients_by_writer writer_idle_since_epoch_secs].
  - intros x. destruct (decide (x = w)) as [->|Hx].
    + rewrite lookup_insert_eq, bool_decide_true, Hw by set_solver. done.
    + rewrite lookup_insert_ne, br_conns0 by done. by rewrite (bool_decide_ext (x ∈ {[w]} ∪ known) (x ∈ known)) by set_solver.
  - intros x. destruct (decide (x = w)) as [->|Hx].
    + rewrite lookup_insert_eq, bool_decide_true, Hw, size_empty by set_solver. done.
    + rewrite lookup_insert_ne, br_count0 by done. by rewrite (bool_decide_ext (x ∈ {[w]} ∪ known) (x ∈ known)) by set_solver.
  - intros x. rewrite Hset, br_idle0, elem_of_union, elem_of_singleton. naive_solver.
Qed.

Lemma or_insert_empty w b known bound : BindRep b known bound -> conns_of bound w = ∅ ->
  match conns_for_writer (binding_inner b) !! w with
  | Some _ => conns_for_writer (binding_inner b)
  | None => <[w := ∅]> (conns_for_writer (binding_inner b))
  end = <[w := ∅]> (conns_for_writer (binding_inner b)) /\
  match bound_clients_by_writer b !! w with
  | Some _ => bound_clients_by_writer b
  | None => <[w := 0]> (bound_clients_by_writer b)
  end = <[w := 0]> (bound_clients_by_writer b).
Proof.
  intros [] Hw. split.
  - destruct (conns_for_writer _ !! w) eqn:Hs; [|done]. symmetry. apply insert_id. rewrite br_conns0, Hw in *. by case_bool_decide.
  - destruct (bound_clients_by_writer b !! w) eqn:Hs; [|done]. symmetry. apply insert_id. rewrite br_count0, Hw, size_empty in *. by case_bool_decide.
Qed.

Lemma register_writer_rep now w route r a : Rep r a -> conns_of (ab_bound a) w = ∅ ->
  Rep (register_writer now w route r) (mkBindings (ab_routed a) (<[w := route]> (ab_writers a)) ({[w]} ∪ ab_known a) (ab_bound a) (ab_next a)).
Proof.
  intros [Hcore Hlive] Hw. unfold register_writer. cbv zeta.
  destruct (or_insert_empty w _ _ _ (rep_binding _ _ Hcore) Hw) as [-> ->]. split.
  - destruct Hcore. split; reg_cbn; try done.
    + by rewrite rep_writers0.
    + apply known_rep; [done | done|]. intros x. destruct (writer_idle_since_epoch_secs (binding r) !! w) as [t|] eqn:Ht.
      * split; [by right|]. intros [->|]; [by rewrite Ht | done].
      * destruct (decide (x = w)) as [->|]; [rewrite lookup_insert_eq; naive_solver | rewrite lookup_insert_ne by done; naive_solver].
    + rewrite dom_insert_L. set_solver.
    + rewrite dom_insert_L. set_solver.
  - intros c w' m Hc. cbn in *. destruct (decide (w' = w)) as [->|]; [rewrite lookup_insert_eq; eauto | rewrite lookup_insert_ne by done; by eapply Hlive].
Qed.

Lemma mark_idle_rep now w r a : Rep r a ->
  Rep (mark_writer_idle now w r) (mkBindings (ab_routed a) (ab_writers a) ({[w]} ∪ ab_known a) (ab_bound a) (ab_next a)).
Proof.
  intros Hrep. pose proof Hrep as [Hcore Hlive]. split; [|exact Hlive]. pose proof (rep_binding _ _ Hcore) as Hb.
  assert (BindRep (binding (mark_writer_idle now w r)) ({[w]} ∪ ab_known a) (ab_bound a)) as Hb'.
  { unfold mark_writer_idle. cbv zeta. reg_cbn. destruct (decide (w ∈ ab_known a)) as [Hw|Hw].
    - pose proof (br_conns _ _ _ Hb w) as Hs. pose proof (br_count _ _ _ Hb w) as Hn. rewrite bool_decide_true in Hs, Hn by done. rewrite Hs. cbn [default from_option].
      replace ({[w]} ∪ ab_known a) with (ab_known a) by (apply set_eq; intros x; rewrite elem_of_union, elem_of_singleton; naive_solver).
      destruct Hb. split; try done; cbn [set_writer_bound_count with_inner binding_inner conns_for_writer bound_clients_by_writer].
      + intros x. by rewrite insert_id.
      + intros x. by rewrite insert_id.
      + intros x. by apply idle_of_size.
    - rewrite (br_conns _ _ _ Hb w), bool_decide_false by done. cbn [default from_option].
      rewrite size_empty. refine (known_rep w (writer_idle_since_epoch_secs (set_writer_bound_count now w 0 (binding r))) (binding r) _ _ Hb _ _);
        [by eapply unknown_unbound|]. intros x.
      rewrite (set_count_idle now w 0 (binding r) x). case_bool_decide; naive_solver. }
  destruct Hcore. split; try done. reg_cbn. etrans; [exact rep_known0 | set_solver].
Qed.

Lemma forget_rep w r a : RepCore r a ->
  RepCore (forget_writer w r) (mkBindings (ab_routed a) (delete w (ab_writers a)) (ab_known a ∖ {[w]}) (ab_bound a) (ab_next a)).
Proof.
  intros []. unfold forget_writer. cbv zeta. split; reg_cbn; try done.
  - by rewrite rep_writers0.
  - destruct rep_binding0. split; try done; cbn [binding_inner conns_for_writer bound_clients_by_writer writer_idle_since_epoch_secs]; intros x.
    + destruct (decide (x = w)) as [->|]; [rewrite lookup_delete_eq, bool_decide_false by set_solver; done|].
      rewrite lookup_delete_ne, br_conns0 by done. by rewrite (bool_decide_ext (x ∈ ab_known a ∖ {[w]}) (x ∈ ab_known a)) by set_solver.
    + destruct (decide (x = w)) as [->|]; [rewrite lookup_delete_eq, bool_decide_false by set_solver; done|].
      rewrite lookup_delete_ne, br_count0 by done. by rewrite (bool_decide_ext (x ∈ ab_known a ∖ {[w]}) (x ∈ ab_known a)) by set_solver.
    + destruct (decide (x = w)) as [->|]; [rewrite lookup_delete_eq; split; [by intros [? ?] | set_solver]|].
      rewrite lookup_delete_ne, br_idle0 by done. rewrite elem_of_difference, elem_of_singleton. tauto.
  - cbn [last_meta_for_writer]. rewrite !dom_delete_L. set_solver.
  - rewrite dom_delete_L. set_solver.
Qed.

Definition with_bound bound a : Bindings := mkBindings (ab_routed a) (ab_writers a) (ab_known a) bound (ab_next a).

Lemma lose_conn_rep w c m r a : RepCore r a -> w ∉ ab_known a -> ab_bound a !! c = Some (w, m) ->
  let '(lost, r') := lose_conn w c r in
  lost = Some (mkBoundConn c m) /\ RepCore r' (with_bound (delete c (ab_bound a)) a).
Proof.
  intros Hcore Hw Hc. unfold lose_conn. cbv zeta. pose proof (rep_binding _ _ Hcore) as Hb.
  rewrite (br_wfc _ _ _ Hb), (br_meta _ _ _ Hb), !lookup_fmap, Hc. cbn [fmap option_fmap option_map fst snd].
  rewrite bool_decide_true by done. reg_cbn. rewrite (rep_hot _ _ Hcore), lookup_fmap, Hc. cbn [fmap option_fmap option_map hb_writer_id fst].
  rewrite Z.eqb_refl. split; [done|].
  assert (forall x, x ∈ ab_known a -> conns_of (delete c (ab_bound a)) x = conns_of (ab_bound a) x) as Hsame.
  { intros x Hx. rewrite conns_of_delete. apply conns_of_not. rewrite Hc. intros m' [= -> ?]. done. }
  destruct Hcore. split; reg_cbn; try done; unfold with_bound; reg_cbn.
  - by rewrite fmap_delete.
  - destruct Hb. split.
    + rewrite adjust_inner. cbn. by rewrite fmap_delete.
    + rewrite adjust_inner. cbn. by rewrite fmap_delete.
    + intros x. rewrite adjust_inner. cbn [with_inner binding_inner conns_for_writer]. rewrite br_conns0. case_bool_decide; [|done]. by rewrite Hsame.
    + intros x. rewrite adjust_count. cbn [with_inner bound_clients_by_writer]. rewrite br_count0. case_bool_decide; [|done]. by rewrite Hsame.
    + intros x. rewrite adjust_idle. cbn [with_inner writer_idle_since_epoch_secs]. rewrite br_idle0. split; intros [? ?]; (split; [done|]); by rewrite Hsame in *.
    + eapply active_exact_ext; [|apply (adjust_down _ _ _ br_active0); [by eapply sessions_pos | done]].
      intros d. cbn beta. by rewrite (sessions_delete _ _ _ _ _ Hc).
  - by rewrite adjust_last.
  - rewrite dom_delete_L. set_solver.
Qed.

Definition lost_conn bound (c : Z) : option BoundConn := (fun p => mkBoundConn c p.2) <$> bound !! c.

Lemma lose_conns_rep w l r a : RepCore r a -> w ∉ ab_known a -> NoDup l -> (forall c, c ∈ l -> exists m, ab_bound a !! c = Some (w, m)) ->
  let '(out, r') := lose_conns w l r in
  out = omap (lost_conn (ab_bound a)) l /\ RepCore r' (with_bound (filter (fun e => e.1 ∉ l) (ab_bound a)) a).
Proof.
  revert r a. induction l as [|c l IH]; intros r a Hcore Hw Hnd Hl.
  - cbn [lose_conns]. split; [done|]. rewrite map_filter_id by (intros; apply not_elem_of_nil). by destruct a.
  - apply list.NoDup_cons in Hnd as [Hc Hnd]. destruct (Hl c (list_elem_of_here _ _)) as [m Hm]. cbn [lose_conns].
    pose proof (lose_conn_rep w c m r a Hcore Hw Hm) as Hone. destruct (lose_conn w c r) as [lost r1]. destruct Hone as [-> Hcore1].
    specialize (IH r1 _ Hcore1 Hw Hnd). destruct (lose_conns w l r1) as [out r2]. cbn [with_bound ab_bound] in IH. destruct IH as [-> Hcore2].
    { intros c' Hc'. destruct (Hl c' (list_elem_of_further _ _ _ Hc')) as [m' Hm']. exists m'. rewrite lookup_delete_ne; [done|]. by intros ->. }
    split.
    + cbn [omap list_omap]. unfold lost_conn at 2. rewrite Hm. cbn [fmap option_fmap option_map snd]. f_equal.
      apply list_omap_ext, Forall_Forall2_diag, list.Forall_forall. intros x Hx. unfold lost_conn. rewrite lookup_delete_ne; [done|]. by intros ->.
    + replace (filter (fun e => e.1 ∉ c :: l) (ab_bound a)) with (filter (fun e => e.1 ∉ l) (delete c (ab_bound a))); [done|].
      apply map_eq. intros x. apply option_eq. intros y. rewrite !map_lookup_filter_Some, lookup_delete_Some, not_elem_of_cons. naive_solver.
Qed.

Lemma lost_conns_list bound w : omap (lost_conn bound) (elements (conns_of bound w)) ≡ₚ bound_list bound w.
Proof.
  unfold bound_list. apply NoDup_Permutation.
  - apply (NoDup_fmap_1 bc_conn_id).
    assert (forall l, NoDup l -> NoDup (bc_conn_id <$> omap (lost_conn bound) l) /\ forall c, c ∈ bc_conn_id <$> omap (lost_conn bound) l -> c ∈ l) as Hnd.
    { induction l as [|c l IH]; intros Hl; [split; [constructor | done]|]. apply list.NoDup_cons in Hl as [Hc Hl]. destruct (IH Hl) as [IH1 IH2].
      cbn [omap list_omap]. destruct (lost_conn bound c) as [p|] eqn:Hp; cbn [fmap list_fmap].
      - assert (bc_conn_id p = c) as -> by (unfold lost_conn in Hp; destruct (bound !! c); by simplify_eq/=).
        split; [apply list.NoDup_cons; split; [|done]; intros ?%IH2; done|]. intros x [->|?]%elem_of_cons; [apply list_elem_of_here | apply list_elem_of_further; auto].
      - split; [done|]. intros x ?. apply list_elem_of_further. auto. }
    apply Hnd, NoDup_elements.
  - apply (NoDup_fmap_1 bc_conn_id). rewrite <- list_fmap_compose.
    change (NoDup ((map_to_list (filter (fun e => e.2.1 = w) bound)).*1)). apply NoDup_fst_map_to_list.
  - intros [c m]. rewrite list_elem_of_omap, list_elem_of_fmap. split.
    + intros (c' & [m' Hc]%elem_of_elements%elem_of_conns_of & Hl). unfold lost_conn in Hl. rewrite Hc in Hl. simplify_eq/=.
      exists (c, (w, m)). split; [done|]. apply elem_of_map_to_list, map_lookup_filter_Some. done.
    + intros ([c' [w' m']] & Heq & [Hc Hw]%elem_of_map_to_list%map_lookup_filter_Some). simplify_eq/=.
      exists c'. split; [apply elem_of_elements, elem_of_conns_of; eauto|]. unfold lost_conn. by rewrite Hc.
Qed.

Lemma writer_lost_rep w r a : Rep r a ->
  let '(out, r') := writer_lost w r in
  out ≡ₚ bound_list (ab_bound a) w /\
  Rep r' (mkBindings (ab_routed a) (delete w (ab_writers a)) (ab_known a ∖ {[w]}) (filter (fun e => e.2.1 <> w) (ab_bound a)) (ab_next a)).
Proof.
  intros Hrep. pose proof Hrep as [Hcore Hlive]. unfold writer_lost. rewrite (br_conns _ _ _ (rep_binding _ _ Hcore)).
  assert (default ∅ (if bool_decide (w ∈ ab_known a) then Some (conns_of (ab_bound a) w) else None) = conns_of (ab_bound a) w) as ->.
  { case_bool_decide; [done|]. symmetry. by eapply unknown_unbound. }
  pose proof (lose_conns_rep w (elements (conns_of (ab_bound a) w)) _ _ (forget_rep w r a Hcore)) as Hl.
  destruct (lose_conns w _ _) as [out r']. cbn [ab_known ab_bound with_bound ab_routed ab_writers ab_next] in Hl.
  destruct Hl as [-> Hcore']; [set_solver | apply NoDup_elements | by intros c ?%elem_of_elements%elem_of_conns_of |].
  split; [apply lost_conns_list|].
  replace (filter (fun e => e.2.1 <> w) (ab_bound a)) with (filter (fun e => e.1 ∉ elements (conns_of (ab_bound a) w)) (ab_bound a)).
  - split; [done|]. intros c w' m Hc. cbn in *. apply map_lookup_filter_Some in Hc as [Hc Hn]. cbn in Hn. rewrite lookup_delete_ne; [by eapply Hlive|].
    intros ->. apply Hn, elem_of_elements, elem_of_conns_of. eauto.
  - apply map_eq. intros c. apply option_eq. intros [w' m]. rewrite !map_lookup_filter_Some. cbn. rewrite elem_of_elements, elem_of_conns_of. naive_solver.
Qed.

Lemma unregister_writer_rep w r a : Rep r a ->
  let '(ok, r') := unregister_writer_if_empty w r in
  ok = negb (bool_decide (w ∈ ab_known a /\ conns_of (ab_bound a) w <> ∅)) /\
  Rep r' (if ok then mkBindings (ab_routed a) (delete w (ab_writers a)) (ab_known a ∖ {[w]}) (ab_bound a) (ab_next a) else a).
Proof.
  intros Hrep. pose proof Hrep as [Hcore Hlive]. unfold unregister_writer_if_empty. rewrite (br_conns _ _ _ (rep_binding _ _ Hcore)).
  destruct (decide (w ∈ ab_known a)) as [Hk|Hk].
  - rewrite (bool_decide_true (w ∈ ab_known a)) by done. destruct (decide (conns_of (ab_bound a) w = ∅)) as [He|He].
    + rewrite bool_decide_true, bool_decide_false by (done || tauto). split; [done|]. split; [by apply forget_rep|].
      intros c w' m Hc. cbn in *. rewrite lookup_delete_ne; [by eapply Hlive|]. intros ->.
      assert (c ∈ conns_of (ab_bound a) w') as Hin by (apply elem_of_conns_of; eauto). rewrite He in Hin. set_solver.
    + by rewrite bool_decide_false, bool_decide_true.
  - rewrite (bool_decide_false (w ∈ ab_known a)), bool_decide_false by (done || tauto). split; [done|].
    assert (ab_writers a !! w = None) as Hn by (apply not_elem_of_dom; intros ?; apply Hk; by apply (rep_known _ _ Hcore)).
    rewrite (delete_id _ _ Hn). replace (ab_known a ∖ {[w]}) with (ab_known a); [by destruct a|].
    apply set_eq. intros x. rewrite elem_of_difference, elem_of_singleton. naive_solver.
Qed.

(** * Runs *)

Theorem reg_step_refines op r a : Rep r a -> op_ok op a -> Z.of_nat (size (ab_bound a)) < umax 64 ->
  out_equiv (reg_step op r).1 (spec_step op a).1 /\ Rep (reg_step op r).2 (spec_step op a).2.
Proof.
  intros Hrep Hop Hsz. destruct a as [routed writers known bound next]. destruct op as [tx sem|now w route|now c|now c w m|now w|w|w|base high pct]; cbn [reg_step spec_step].
  - pose proof (register_rep tx sem r _ Hrep) as Hr. destruct (register tx sem r) as [id r']. cbn in Hr. destruct Hr as [Hr ->]. done.
  - split; [done|]. by apply (register_writer_rep now w route r _ Hrep).
  - pose proof (unregister_rep now c r _ Hrep) as Hr. destruct (unregister now c r) as [o r']. by destruct Hr as [-> Hr].
  - pose proof (bind_rep now c w m r _ Hrep Hsz) as Hr. destruct (bind_writer now c w m r) as [ok r']. destruct Hr as [-> Hr]. cbn in *. by case_bool_decide.
  - split; [done|]. by apply (mark_idle_rep now w r _ Hrep).
  - pose proof (writer_lost_rep w r _ Hrep) as Hr. by destruct (writer_lost w r) as [out r'].
  - pose proof (unregister_writer_rep w r _ Hrep) as Hr. destruct (unregister_writer_if_empty w r) as [ok r']. destruct Hr as [-> Hr]. cbn in *. by case_bool_decide.
  - split; [done|]. destruct Hrep as [[] Hlive]. by split.
Qed.

Lemma spec_step_size op a : (size (ab_bound (spec_step op a).2) <= size (ab_bound a) + 1)%nat.
Proof.
  destruct a as [routed writers known bound next]. destruct op as [tx sem|now w route|now c|now c w m|now w|w|w|base high pct]; cbn [spec_step]; cbn; try lia.
  - destruct (bound !! c) eqn:Hc; [rewrite map_size_delete_Some by eauto; lia | by rewrite delete_id; [lia|]].
  - case_bool_decide; cbn; [|lia]. destruct (bound !! c) eqn:Hc; [rewrite map_size_insert_Some by eauto; lia | rewrite map_size_insert_None by done; lia].
  - pose proof (map_size_filter (fun e => e.2.1 <> w) bound). lia.
  - case_bool_decide; cbn; lia.
Qed.

Fixpoint run_reg (ops : list RegOp) r : list RegOut * Registry T S W :=
  match ops with
  | [] => ([], r)
  | op :: ops => let '(o, r) := reg_step op r in let '(os, r) := run_reg ops r in (o :: os, r)
  end.

Fixpoint spec_run (ops : list RegOp) a : list RegOut * Bindings :=
  match ops with
  | [] => ([], a)
  | op :: ops => let '(o, a) := spec_step op a in let '(os, a) := spec_run ops a in (o :: os, a)
  end.

Fixpoint ops_ok (ops : list RegOp) a : Prop :=
  match ops with
  | [] => True
  | op :: ops => op_ok op a /\ ops_ok ops (spec_step op a).2
  end.

Lemma run_reg_refines ops r a : Rep r a -> ops_ok ops a -> Z.of_nat (size (ab_bound a) + length ops) <= umax 64 ->
  Forall2 out_equiv (run_reg ops r).1 (spec_run ops a).1 /\ Rep (run_reg ops r).2 (spec_run ops a).2.
Proof.
  revert r a. induction ops as [|op ops IH]; intros r a Hrep Hok Hlen; [done|]. destruct Hok as [Hop Hops]. cbn [length] in Hlen.
  destruct (reg_step_refines op r a Hrep Hop ltac:(lia)) as [Ho Hrep1]. pose proof (spec_step_size op a) as Hsz. cbn [run_reg spec_run].
  destruct (reg_step op r) as [o r1]. destruct (spec_step op a) as [o' a1]. cbn [fst snd] in *.
  destruct (IH r1 a1 Hrep1 Hops ltac:(lia)) as [Hos Hrep2]. destruct (run_reg ops r1), (spec_run ops a1). by split; [constructor|].
Qed.

Definition bindings_new (start : Z) : Bindings := mkBindings ∅ ∅ ∅ ∅ (Z.lor start 1).

Lemma registry_new_rep start capacity : Rep (with_route_channel_capacity start capacity) (bindings_new start).
Proof.
  split; [|done]. split; try done; cbn.
  - split; try done; cbn.
    + intros w. rewrite lookup_empty. split; [by intros [? ?] | set_solver].
    + intros dc. rewrite lookup_empty. unfold sessions. rewrite map_sum_empty. by rewrite orb_true_r.
Qed.

(** What the queries answer. *)
Lemma rep_queries r a : Rep r a ->
  (forall c, get_writer_with_meta c r = ab_bound a !! c ≫= fun p => (fun route => (p.1, route, p.2)) <$> ab_writers a !! p.1) /\
  (forall w, is_writer_empty w r = bool_decide (conns_of (ab_bound a) w = ∅)) /\
  (forall w, is_Some (writer_idle_since_snapshot r !! w) <-> w ∈ ab_known a /\ conns_of (ab_bound a) w = ∅) /\
  (forall dc, dc <> 0 -> default 0 (was_active_sessions_by_target_dc (writer_activity_snapshot r) !! dc) = sessions (ab_bound a) dc).
Proof.
  intros Hrep. pose proof Hrep as [Hcore Hlive]. pose proof (rep_binding _ _ Hcore) as Hb. split_and!.
  - intros c. unfold get_writer_with_meta. rewrite (rep_hot _ _ Hcore), lookup_fmap, (rep_writers _ _ Hcore).
    destruct (ab_bound a !! c) as [[w m]|] eqn:Hc; cbn; [|by destruct (routing_map r !! c)].
    assert (c ∈ dom (routing_map r)) as [tx ->]%elem_of_dom; [|done].
    rewrite (rep_routed _ _ Hcore). apply (rep_routed_bound _ _ Hcore), elem_of_dom. eauto.
  - intros w. unfold is_writer_empty. rewrite (br_count _ _ _ Hb). case_bool_decide as Hw.
    + destruct (Z.eqb_spec (Z.of_nat (size (conns_of (ab_bound a) w))) 0) as [He|He].
      * by rewrite bool_decide_true by (by apply size_empty_Z).
      * rewrite bool_decide_false; [done|]. intros Hx. by apply He, size_empty_Z.
    + rewrite bool_decide_true; [done|]. by eapply unknown_unbound.
  - intros w. apply (br_idle _ _ _ Hb).
  - intros dc Hdc. cbn. rewrite (br_active _ _ _ Hb dc), (proj2 (Z.eqb_neq dc 0)) by done. cbn [orb]. by destruct (Z.eqb_spec (sessions (ab_bound a) dc) 0) as [->|].
Qed.
End spec.
