(* ===== verification/ConnRoute.v ===== *)
(** Routing of answers to client sessions (transport/middle_proxy/registry/writer.rs):
    the permits of the byte budget that travel with queued payloads, and the three
    ways to hand a response to a connection's channel. *)

From stdpp Require Import base list gmap numbers.
From S2P Require Import Prelude Net Aes RpcWire FairnessModel FairnessPressure FairnessScheduler FairnessInvariant FairnessContract RpcReader Reader ConnRegistry.
Local Open Scope Z_scope.

(** [MeResponse] of middle_proxy/mod.rs; a permit is the number of units it holds. *)
Inductive MeResponse :=
  | RespData (flags : Z) (data : list Z) (route_permit : option Z)
  | RespAck (confirm : Z)
  | RespClose.

(** * The channel and the semaphore of tokio *)

Inductive TimedSend := SentInTime | ClosedInTime | SendTimedOut.
Inductive Acquire := Acquired | SemaphoreClosed | AcquireTimedOut.

Class RouteChannel (T : Type) := {
  try_send : MeResponse -> T -> TrySend * T;
  send_timeout : Z -> MeResponse -> T -> TimedSend * T;
  sender_capacity : T -> Z;
}.

Class PermitBudget (S : Type) := {
  try_acquire_many : Z -> S -> bool * S;
  acquire_many : Z -> S -> bool * S;
  acquire_many_timeout : Z -> Z -> S -> Acquire * S;
  release_many : Z -> S -> S;
}.

(** A channel takes a message or leaves it; the messages it ever took, in order. *)
Record ChannelSpec (T : Type) `{RouteChannel T} := mkChannelSpec {
  taken : T -> list MeResponse;
  try_send_taken : forall m tx, taken (try_send m tx).2 =
    match (try_send m tx).1 with SendOk => taken tx ++ [m] | _ => taken tx end;
  send_timeout_taken : forall ms m tx, taken (send_timeout ms m tx).2 =
    match (send_timeout ms m tx).1 with SentInTime => taken tx ++ [m] | _ => taken tx end;
}.

(** A semaphore counts the permits that were acquired and not returned by the
    holder. *)
Record BudgetSpec (S : Type) `{PermitBudget S} := mkBudgetSpec {
  held_permits : S -> Z;
  try_acquire_held : forall n s, held_permits (try_acquire_many n s).2 = held_permits s + (if (try_acquire_many n s).1 then n else 0);
  acquire_held : forall n s, held_permits (acquire_many n s).2 = held_permits s + (if (acquire_many n s).1 then n else 0);
  acquire_timeout_held : forall n ms s, held_permits (acquire_many_timeout n ms s).2 =
    held_permits s + (match (acquire_many_timeout n ms s).1 with Acquired => n | _ => 0 end);
  release_held : forall n s, held_permits (release_many n s) = held_permits s - n;
}.
Arguments taken {_ _}.
Arguments try_send_taken {_ _}.
Arguments send_timeout_taken {_ _}.
Arguments held_permits {_ _}.
Arguments try_acquire_held {_ _}.
Arguments acquire_held {_ _}.
Arguments acquire_timeout_held {_ _}.
Arguments release_held {_ _}.

Definition route_data_permits (data_len : Z) : Z :=
  Z.min ((Z.max data_len 1 + ROUTE_QUEUED_BYTE_PERMIT_UNIT - 1) / ROUTE_QUEUED_BYTE_PERMIT_UNIT) (umax 32).

Section route.
Context {T S W : Type} `{RouteChannel T} `{PermitBudget S}.
Implicit Types r : Registry T S W.

Definition set_tx (id : Z) (tx : T) r : Registry T S W := with_routing (<[id := tx]> (routing_map r)) (routing_byte_budget r) r.
Definition set_budget (id : Z) (s : S) r : Registry T S W := with_routing (routing_map r) (<[id := s]> (routing_byte_budget r)) r.

(** The semaphore of a connection, acquired as the timeout says: none waits
    forever, zero does not wait. *)
Definition attach_route_byte_permit (id : Z) (resp : MeResponse) (timeout_ms : option Z) r
    : result RouteResult MeResponse * Registry T S W :=
  match resp with
  | RespData flags data None =>
      match routing_byte_budget r !! id with
      | None => (Err RrNoConn, r)
      | Some semaphore =>
          let permits := route_data_permits (Z.of_nat (length data)) in
          let ok := Ok (RespData flags data (Some permits)) in
          match timeout_ms with
          | Some 0 =>
              let '(got, s) := try_acquire_many permits semaphore in
              (if got then ok else Err RrQueueFullHigh, set_budget id s r)
          | Some ms =>
              let '(got, s) := acquire_many_timeout permits (Z.max ms 1) semaphore in
              (match got with Acquired => ok | SemaphoreClosed => Err RrChannelClosed | AcquireTimedOut => Err RrQueueFullHigh end, set_budget id s r)
          | None =>
              let '(got, s) := acquire_many permits semaphore in
              (if got then ok else Err RrChannelClosed, set_budget id s r)
          end
      end
  | _ => (Ok resp, r)
  end.

(** A response that is dropped returns its permit. *)
Definition drop_response (id : Z) (resp : MeResponse) r : Registry T S W :=
  match resp with
  | RespData _ _ (Some n) =>
      match routing_byte_budget r !! id with
      | Some s => set_budget id (release_many n s) r
      | None => r
      end
  | _ => r
  end.

Definition route_nowait (id : Z) (resp : MeResponse) r : RouteResult * Registry T S W :=
  match routing_map r !! id with
  | None => (RrNoConn, drop_response id resp r)
  | Some tx =>
      match attach_route_byte_permit id resp (Some 0) r with
      | (Err e, r) => (e, r)
      | (Ok resp, r) =>
          let '(sent, tx) := try_send resp tx in
          let r := set_tx id tx r in
          match sent with
          | SendOk => (RrRouted, r)
          | SendClosed => (RrChannelClosed, drop_response id resp r)
          | SendFull => (RrQueueFullBase, drop_response id resp r)
          end
      end
  end.

(** The share of the channel in use; the cast to [u8] keeps the low byte. *)
Definition high_profile (tx : T) r : bool :=
  let capacity := route_channel_capacity r in
  let used := sat_sub capacity (sender_capacity tx) in
  let used_pct := if capacity =? 0 then 100 else (sat_mul 64 used 100 / capacity) mod 256 in
  clamp 1 100 (route_backpressure_high_watermark_pct r) <=? used_pct.

(** The last step of [route] and [route_with_timeout]: a full channel is waited
    for. *)
Definition send_or_wait (id : Z) (resp : MeResponse) (tx : T) (wait_ms : bool -> Z) r : RouteResult * Registry T S W :=
  let '(sent, tx) := try_send resp tx in
  let r := set_tx id tx r in
  match sent with
  | SendOk => (RrRouted, r)
  | SendClosed => (RrChannelClosed, drop_response id resp r)
  | SendFull =>
      let high := high_profile tx r in
      let '(late, tx) := send_timeout (wait_ms high) resp tx in
      let r := set_tx id tx r in
      match late with
      | SentInTime => (RrRouted, r)
      | ClosedInTime => (RrChannelClosed, drop_response id resp r)
      | SendTimedOut => (if high then RrQueueFullHigh else RrQueueFullBase, drop_response id resp r)
      end
  end.

Definition route (id : Z) (resp : MeResponse) r : RouteResult * Registry T S W :=
  match routing_map r !! id with
  | None => (RrNoConn, drop_response id resp r)
  | Some tx =>
      let base := Z.max (route_backpressure_base_timeout_ms r) 1 in
      match attach_route_byte_permit id resp (Some base) r with
      | (Err e, r) => (e, r)
      | (Ok resp, r) => send_or_wait id resp tx (fun high => if high then Z.max (route_backpressure_high_timeout_ms r) base else base) r
      end
  end.

Definition route_with_timeout (id : Z) (resp : MeResponse) (timeout_ms : Z) r : RouteResult * Registry T S W :=
  if timeout_ms =? 0 then route_nowait id resp r
  else
    match routing_map r !! id with
    | None => (RrNoConn, drop_response id resp r)
    | Some tx =>
        match attach_route_byte_permit id resp (Some timeout_ms) r with
        | (Err e, r) => (e, r)
        | (Ok resp, r) => send_or_wait id resp tx (fun _ => Z.max timeout_ms 1) r
        end
    end.

(** * What routing does *)

Context (chan : ChannelSpec T) (budget : BudgetSpec S).

(** The response as it is queued. *)
Definition with_permit (resp : MeResponse) : MeResponse :=
  match resp with
  | RespData flags data None => RespData flags data (Some (route_data_permits (Z.of_nat (length data))))
  | _ => resp
  end.

Definition permit_of (resp : MeResponse) : Z := match resp with RespData _ _ (Some n) => n | _ => 0 end.

(** The connection's queue and held permits. *)
Definition taken_by (id : Z) r : option (list MeResponse) := taken chan <$> routing_map r !! id.
Definition held_by (id : Z) r : option Z := held_permits budget <$> routing_byte_budget r !! id.

(** Only the channel and the semaphore of [id] changed, with [more] queued and
    [n] more permits held. *)
Definition routed_to (id : Z) (more : list MeResponse) (n : Z) r r' : Prop :=
  taken_by id r' = (fun l => l ++ more) <$> taken_by id r /\ held_by id r' = (fun k => k + n) <$> held_by id r /\
  (forall x, x <> id -> routing_map r' !! x = routing_map r !! x /\ routing_byte_budget r' !! x = routing_byte_budget r !! x) /\
  r' = with_routing (routing_map r') (routing_byte_budget r') r.

Lemma routed_refl id r : routed_to id [] 0 r r.
Proof.
  split_and!; try done.
  - destruct (taken_by id r); cbn; [by rewrite app_nil_r | done].
  - destruct (held_by id r); cbn; [by rewrite Z.add_0_r | done].
  - by destruct r.
Qed.

Lemma routed_trans id m1 n1 m2 n2 r1 r2 r3 :
  routed_to id m1 n1 r1 r2 -> routed_to id m2 n2 r2 r3 -> routed_to id (m1 ++ m2) (n1 + n2) r1 r3.
Proof.
  intros (Ht1 & Hh1 & Ho1 & Hr1) (Ht2 & Hh2 & Ho2 & Hr2). split_and!.
  - rewrite Ht2, Ht1. destruct (taken_by id r1); cbn; [by rewrite app_assoc | done].
  - rewrite Hh2, Hh1. destruct (held_by id r1); cbn; [f_equal; lia | done].
  - intros x Hx. destruct (Ho1 x Hx), (Ho2 x Hx). split; congruence.
  - rewrite Hr2 at 1. rewrite Hr1. done.
Qed.

Lemma set_budget_routed id s s' n r : routing_byte_budget r !! id = Some s -> held_permits budget s' = held_permits budget s + n ->
  routed_to id [] n r (set_budget id s' r).
Proof.
  intros Hs Hn. split_and!.
  - unfold taken_by. cbn. destruct (routing_map r !! id); cbn; [by rewrite app_nil_r | done].
  - unfold held_by. cbn. rewrite lookup_insert_eq, Hs. cbn. by rewrite Hn.
  - intros x Hx. cbn. by rewrite lookup_insert_ne.
  - done.
Qed.

Lemma set_tx_routed id tx tx' more r : routing_map r !! id = Some tx -> taken chan tx' = taken chan tx ++ more ->
  routed_to id more 0 r (set_tx id tx' r).
Proof.
  intros Hs Hn. split_and!.
  - unfold taken_by. cbn. rewrite lookup_insert_eq, Hs. cbn. by rewrite Hn.
  - unfold held_by. cbn. destruct (routing_byte_budget r !! id); cbn; [by rewrite Z.add_0_r | done].
  - intros x Hx. cbn. by rewrite lookup_insert_ne.
  - done.
Qed.

(** Responses come without a permit; they may get one on the way. *)
Definition unpermitted (resp : MeResponse) : Prop := permit_of resp = 0 /\ match resp with RespData _ _ (Some _) => False | _ => True end.

Lemma attach_spec id resp timeout r : unpermitted resp ->
  let '(res, r') := attach_route_byte_permit id resp timeout r in
  match res with
  | Ok resp' => resp' = with_permit resp /\ routed_to id [] (permit_of (with_permit resp)) r r' /\ routing_map r' = routing_map r /\
      (permit_of (with_permit resp) <> 0 -> is_Some (routing_byte_budget r' !! id))
  | Err e => e <> RrRouted /\ routed_to id [] 0 r r'
  end.
Proof.
  intros [_ Hun]. destruct resp as [flags data [n|]|c|]; [done| |cbn; split_and!; try done; apply routed_refl..].
  cbn [attach_route_byte_permit with_permit permit_of]. destruct (routing_byte_budget r !! id) as [s|] eqn:Hs; [|split; [done | apply routed_refl]].
  set (permits := route_data_permits (Z.of_nat (length data))).
  assert (forall s', is_Some (routing_byte_budget (set_budget id s' r) !! id)) as Hsome by (intros; cbn; rewrite lookup_insert_eq; eauto).
  destruct timeout as [[|ms|ms]|].
  - pose proof (try_acquire_held budget permits s) as Hh. destruct (try_acquire_many permits s) as [[|] s'];
      split_and!; try done; by apply (set_budget_routed id s).
  - pose proof (acquire_timeout_held budget permits (Z.max (Zpos ms) 1) s) as Hh. destruct (acquire_many_timeout permits _ s) as [[| |] s'];
      split_and!; try done; by apply (set_budget_routed id s).
  - pose proof (acquire_timeout_held budget permits (Z.max (Zneg ms) 1) s) as Hh. destruct (acquire_many_timeout permits _ s) as [[| |] s'];
      split_and!; try done; by apply (set_budget_routed id s).
  - pose proof (acquire_held budget permits s) as Hh. destruct (acquire_many permits s) as [[|] s'];
      split_and!; try done; by apply (set_budget_routed id s).
Qed.

Lemma drop_spec id resp r : (permit_of resp <> 0 -> is_Some (routing_byte_budget r !! id)) ->
  routed_to id [] (- permit_of resp) r (drop_response id resp r).
Proof.
  destruct resp as [flags data [n|]|c|]; cbn [permit_of drop_response]; [|intros _; apply routed_refl..]. intros Hs.
  destruct (routing_byte_budget r !! id) as [s|] eqn:Hid.
  - apply (set_budget_routed id s); [done|]. rewrite (release_held budget). lia.
  - destruct (decide (n = 0)) as [->|Hn]; [apply routed_refl|]. by destruct (Hs Hn).
Qed.

(** Routed, or not and nothing changed. *)
Definition routed_or_not (id : Z) (resp : MeResponse) (res : RouteResult) r r' : Prop :=
  if bool_decide (res = RrRouted) then routed_to id [with_permit resp] (permit_of (with_permit resp)) r r' else routed_to id [] 0 r r'.

(** After the permit: the response is sent or dropped. *)
Lemma finish_routed id resp r r1 r2 : routed_to id [] (permit_of (with_permit resp)) r r1 -> routed_to id [with_permit resp] 0 r1 r2 ->
  routed_or_not id resp RrRouted r r2.
Proof.
  intros H1 H2. unfold routed_or_not. rewrite bool_decide_true by done.
  pose proof (routed_trans _ _ _ _ _ _ _ _ H1 H2) as Ht. by rewrite Z.add_0_r in Ht.
Qed.

Lemma finish_dropped id resp res r r1 r2 : res <> RrRouted -> routed_to id [] (permit_of (with_permit resp)) r r1 -> routed_to id [] 0 r1 r2 ->
  (permit_of (with_permit resp) <> 0 -> is_Some (routing_byte_budget r2 !! id)) ->
  routed_or_not id resp res r (drop_response id (with_permit resp) r2).
Proof.
  intros Hres H1 H2 Hs. unfold routed_or_not. rewrite bool_decide_false by done.
  pose proof (routed_trans _ _ _ _ _ _ _ _ (routed_trans _ _ _ _ _ _ _ _ H1 H2) (drop_spec id _ r2 Hs)) as Ht.
  by replace (permit_of (with_permit resp) + 0 + - permit_of (with_permit resp)) with 0 in Ht by lia.
Qed.

Lemma no_conn_spec id resp r : unpermitted resp -> routed_or_not id resp RrNoConn r (drop_response id resp r).
Proof.
  intros [Hp Hun]. unfold routed_or_not. rewrite bool_decide_false by done. pose proof (drop_spec id resp r) as Hd. rewrite Hp in Hd. by apply Hd.
Qed.

Lemma set_tx_budget id tx r : routing_byte_budget (set_tx id tx r) = routing_byte_budget r.
Proof. done. Qed.

Lemma route_nowait_spec id resp r : unpermitted resp -> routed_or_not id resp (route_nowait id resp r).1 r (route_nowait id resp r).2.
Proof.
  intros Hun. unfold route_nowait. destruct (routing_map r !! id) as [tx|] eqn:Htx; [|by apply no_conn_spec].
  pose proof (attach_spec id resp (Some 0) r Hun) as Ha. destruct (attach_route_byte_permit id resp (Some 0) r) as [[resp'|e] r1].
  2:{ destruct Ha as [He Ha]. cbn. unfold routed_or_not. by rewrite bool_decide_false. }
  destruct Ha as (-> & Ha & Hmap & Hs). rewrite <- Hmap in Htx. pose proof (try_send_taken chan (with_permit resp) tx) as Hsend.
  destruct (try_send (with_permit resp) tx) as [[| |] tx']; cbn [fst snd] in *.
  - eapply finish_routed; [exact Ha|]. by apply (set_tx_routed id tx).
  - eapply finish_dropped; [done | exact Ha | | exact Hs]. apply (set_tx_routed id tx); [done|]. by rewrite app_nil_r.
  - eapply finish_dropped; [done | exact Ha | | exact Hs]. apply (set_tx_routed id tx); [done|]. by rewrite app_nil_r.
Qed.

Lemma send_or_wait_spec id resp tx wait r r1 : routing_map r1 !! id = Some tx -> routed_to id [] (permit_of (with_permit resp)) r r1 ->
  (permit_of (with_permit resp) <> 0 -> is_Some (routing_byte_budget r1 !! id)) ->
  routed_or_not id resp (send_or_wait id (with_permit resp) tx wait r1).1 r (send_or_wait id (with_permit resp) tx wait r1).2.
Proof.
  intros Htx Ha Hs. unfold send_or_wait. pose proof (try_send_taken chan (with_permit resp) tx) as Hsend.
  destruct (try_send (with_permit resp) tx) as [[| |] tx1]; cbn [fst snd] in *.
  - eapply finish_routed; [exact Ha|]. by apply (set_tx_routed id tx).
  - set (r2 := set_tx id tx1 r1). assert (routed_to id [] 0 r1 r2) as H2 by (apply (set_tx_routed id tx); [done | by rewrite app_nil_r]).
    pose proof (send_timeout_taken chan (wait (high_profile tx1 r2)) (with_permit resp) tx1) as Hlate.
    destruct (send_timeout (wait (high_profile tx1 r2)) (with_permit resp) tx1) as [late tx2]. cbn [fst snd] in *.
    assert (routing_map r2 !! id = Some tx1) as Htx1 by (cbn; by rewrite lookup_insert_eq).
    pose proof (routed_trans _ _ _ _ _ _ _ _ Ha H2) as Ha2. rewrite Z.add_0_r in Ha2.
    destruct late; cbn [fst snd].
    + eapply finish_routed; [exact Ha2|]. by apply (set_tx_routed id tx1).
    + eapply finish_dropped; [done | exact Ha2 | | exact Hs]. apply (set_tx_routed id tx1); [done|]. by rewrite app_nil_r.
    + eapply finish_dropped; [by destruct (high_profile tx1 r2) | exact Ha2 | | exact Hs]. apply (set_tx_routed id tx1); [done|]. by rewrite app_nil_r.
  - eapply finish_dropped; [done | exact Ha | | exact Hs]. apply (set_tx_routed id tx); [done|]. by rewrite app_nil_r.
Qed.

Lemma route_spec id resp r : unpermitted resp -> routed_or_not id resp (route id resp r).1 r (route id resp r).2.
Proof.
  intros Hun. unfold route. destruct (routing_map r !! id) as [tx|] eqn:Htx; [|by apply no_conn_spec]. cbv zeta.
  match goal with |- context [attach_route_byte_permit id resp ?t r] => pose proof (attach_spec id resp t r Hun) as Ha;
    destruct (attach_route_byte_permit id resp t r) as [[resp'|e] r1] end.
  - destruct Ha as (-> & Ha & Hmap & Hs). rewrite <- Hmap in Htx. by apply send_or_wait_spec.
  - destruct Ha as [He Ha]. cbn. unfold routed_or_not. by rewrite bool_decide_false.
Qed.

Lemma route_with_timeout_spec id resp ms r : unpermitted resp ->
  routed_or_not id resp (route_with_timeout id resp ms r).1 r (route_with_timeout id resp ms r).2.
Proof.
  intros Hun. unfold route_with_timeout. destruct (ms =? 0); [by apply route_nowait_spec|].
  destruct (routing_map r !! id) as [tx|] eqn:Htx; [|by apply no_conn_spec].
  pose proof (attach_spec id resp (Some ms) r Hun) as Ha. destruct (attach_route_byte_permit id resp (Some ms) r) as [[resp'|e] r1].
  - destruct Ha as (-> & Ha & Hmap & Hs). rewrite <- Hmap in Htx. by apply send_or_wait_spec.
  - destruct Ha as [He Ha]. cbn. unfold routed_or_not. by rewrite bool_decide_false.
Qed.
End route.
