(* ===== verification/RegistryProps.v ===== *)
(** Properties of the connection registry: its tables implement one map of
    bindings, and routing queues what it says it queued and leaks no permit. *)

From stdpp Require Import base list gmap numbers.
From S2P Require Import Prelude Net Aes RpcWire RpcReader Reader ConnRegistry ConnRegistryInv ConnRoute.
Local Open Scope Z_scope.

(** * Bindings *)

(** C12: the registry's tables implement one map from connections to writers.  After
    any sequence of operations on a new registry, in which no writer is registered
    under an id that connections are bound to, the answers were those of the map;
    every bound connection is routed and has a live writer; the lookups, the
    emptiness and idleness of writers and the sessions per data centre are those of
    the map. *)
Theorem registry_refines_bindings {T S W : Type} (ops : list (RegOp (T := T) (S := S) (W := W))) start capacity :
  ops_ok ops (bindings_new start) -> Z.of_nat (length ops) <= umax 64 ->
  let r := (run_reg ops (with_route_channel_capacity start capacity)).2 in
  let a := (spec_run ops (bindings_new start)).2 in
  Forall2 out_equiv (run_reg ops (with_route_channel_capacity start capacity)).1 (spec_run ops (bindings_new start)).1 /\
  (forall c w m, ab_bound a !! c = Some (w, m) -> is_Some (routing_map r !! c) /\ is_Some (writers_map r !! w)) /\
  (forall c, get_writer_with_meta c r = ab_bound a !! c ≫= fun p => (fun route => (p.1, route, p.2)) <$> ab_writers a !! p.1) /\
  (forall w, is_writer_empty w r = bool_decide (conns_of (ab_bound a) w = ∅)) /\
  (forall w, is_Some (writer_idle_since_snapshot r !! w) <-> w ∈ ab_known a /\ conns_of (ab_bound a) w = ∅) /\
  (forall dc, dc <> 0 -> default 0 (was_active_sessions_by_target_dc (writer_activity_snapshot r) !! dc) = sessions (ab_bound a) dc).
Proof.
  intros Hok Hlen r a. destruct (run_reg_refines ops _ _ (registry_new_rep (T := T) (S := S) (W := W) start capacity) Hok) as [Hout Hrep].
  { cbn [bindings_new ab_bound]. rewrite map_size_empty. lia. }
  fold r a in Hrep. split; [done|]. split; [|by apply rep_queries]. intros c w m Hc. destruct Hrep as [Hcore Hlive]. split.
  - apply elem_of_dom. rewrite (rep_routed _ _ Hcore). apply (rep_routed_bound _ _ Hcore), elem_of_dom. eauto.
  - rewrite (rep_writers _ _ Hcore). by eapply Hlive.
Qed.

(** * Routing *)

Section routing.
Context {T S W : Type} `{RouteChannel T} `{PermitBudget S} (chan : ChannelSpec T) (budget : BudgetSpec S).
Implicit Types r : Registry T S W.

Inductive RouteCall :=
  | CallNowait (id : Z) (resp : MeResponse)
  | CallRoute (id : Z) (resp : MeResponse)
  | CallTimeout (id : Z) (resp : MeResponse) (ms : Z).

Definition call_id (c : RouteCall) : Z := match c with CallNowait id _ | CallRoute id _ | CallTimeout id _ _ => id end.
Definition call_resp (c : RouteCall) : MeResponse := match c with CallNowait _ m | CallRoute _ m | CallTimeout _ m _ => m end.

Definition exec_route (c : RouteCall) r : RouteResult * Registry T S W :=
  match c with
  | CallNowait id resp => route_nowait id resp r
  | CallRoute id resp => route id resp r
  | CallTimeout id resp ms => route_with_timeout id resp ms r
  end.

Fixpoint run_routes (calls : list RouteCall) r : list RouteResult * Registry T S W :=
  match calls with
  | [] => ([], r)
  | c :: calls => let '(res, r) := exec_route c r in let '(results, r) := run_routes calls r in (res :: results, r)
  end.

(** The responses for [id] whose call answered [Routed], as they are queued. *)
Fixpoint routed_for (id : Z) (calls : list RouteCall) (results : list RouteResult) : list MeResponse :=
  match calls, results with
  | c :: calls, res :: results =>
      (if (call_id c =? id) && bool_decide (res = RrRouted) then [with_permit (call_resp c)] else []) ++ routed_for id calls results
  | _, _ => []
  end.

Definition permits (l : list MeResponse) : Z := foldr (fun m n => permit_of m + n) 0 l.

Lemma permits_app l l' : permits (l ++ l') = permits l + permits l'.
Proof. induction l as [|m l IH]; cbn; [done|]. unfold permits in *. lia. Qed.

Lemma exec_route_spec c r : unpermitted (call_resp c) -> routed_or_not chan budget (call_id c) (call_resp c) (exec_route c r).1 r (exec_route c r).2.
Proof.
  destruct c as [id resp|id resp|id resp ms]; cbn [call_id call_resp exec_route];
    [apply route_nowait_spec | apply route_spec | apply route_with_timeout_spec].
Qed.

(** One call, seen from any connection. *)
Lemma exec_route_effect c r id : unpermitted (call_resp c) ->
  let more := if (call_id c =? id) && bool_decide ((exec_route c r).1 = RrRouted) then [with_permit (call_resp c)] else [] in
  taken_by chan id (exec_route c r).2 = (fun l => l ++ more) <$> taken_by chan id r /\
  held_by budget id (exec_route c r).2 = (fun k => k + permits more) <$> held_by budget id r.
Proof.
  intros Hun more. pose proof (exec_route_spec c r Hun) as Hs. unfold routed_or_not in Hs. subst more. destruct (exec_route c r) as [res r']. cbn [fst snd] in *.
  destruct (Z.eqb_spec (call_id c) id) as [<-|Hne]; cbn [andb].
  - case_bool_decide; destruct Hs as (Ht & Hh & _); (split; [done|]); rewrite Hh; cbn; by rewrite ?Z.add_0_r.
  - assert (forall m n, routed_to chan budget (call_id c) m n r r' -> taken_by chan id r' = (fun l => l ++ []) <$> taken_by chan id r /\
      held_by budget id r' = (fun k => k + permits []) <$> held_by budget id r) as Hother; [|by case_bool_decide; eapply Hother].
    intros m n (_ & _ & Ho & _). destruct (Ho id (not_eq_sym Hne)) as [H1 H2]. unfold taken_by, held_by. rewrite H1, H2. split.
    + destruct (routing_map r !! id); cbn; by rewrite ?app_nil_r.
    + destruct (routing_byte_budget r !! id); cbn; by rewrite ?Z.add_0_r.
Qed.

(** C25: routing queues exactly what it reports.  After any sequence of calls of
    [route_nowait], [route] and [route_with_timeout], over any channels and
    semaphores, the channel of a connection has taken just the responses whose call
    answered [Routed], in the order of the calls, and the connection's semaphore has
    given out just the permits that travel with them: a payload that is dropped on
    any path returns its permit. *)
Theorem routing_exact calls r id :
  Forall (fun c => unpermitted (call_resp c)) calls ->
  let '(results, r') := run_routes calls r in
  taken_by chan id r' = (fun l => l ++ routed_for id calls results) <$> taken_by chan id r /\
  held_by budget id r' = (fun k => k + permits (routed_for id calls results)) <$> held_by budget id r.
Proof.
  intros Hun. revert r. induction Hun as [|c calls Hc _ IH]; intros r; cbn [run_routes routed_for].
  - unfold permits. cbn. split; [destruct (taken_by chan id r); cbn; by rewrite ?app_nil_r | destruct (held_by budget id r); cbn; by rewrite ?Z.add_0_r].
  - destruct (exec_route_effect c r id Hc) as [Ht Hh]. destruct (exec_route c r) as [res r1]. cbn [fst snd] in *. specialize (IH r1).
    destruct (run_routes calls r1) as [results r2]. destruct IH as [-> ->]. rewrite Ht, Hh. rewrite permits_app. split.
    + destruct (taken_by chan id r); cbn; by rewrite ?app_assoc.
    + destruct (held_by budget id r); cbn; by rewrite ?Z.add_assoc.
Qed.
End routing.

(** * A race *)

(** A connection that is unregistered while it is being bound leaves an entry in
    the table of hot bindings: [unregister] clears that table before it waits for
    the lock under which [bind_writer], past its checks, fills it.  The entry
    survives the unregistration and the loss of the writer. *)
Definition leak_meta : ConnMeta := mkConnMeta 2 (mkSocketAddr (IpV4 [1; 2; 3; 4]) 5) (mkSocketAddr (IpV4 [1; 2; 3; 4]) 6) 0.
Definition leak_start : Registry nat nat nat := register_writer 0 9 0%nat (register 0%nat 0%nat (with_route_channel_capacity 1 1)).2.
Definition leaked : Registry nat nat nat :=
  (unregister_locked 0 1 (bind_commit 0 1 9 leak_meta (unregister_unlocked 1 leak_start))).2.

Lemma hot_binding_leaks :
  bind_check 1 9 leak_start = true /\ routing_map leaked !! 1 = None /\ writer_for_conn (binding_inner (binding leaked)) !! 1 = None /\
  hot_binding leaked !! 1 = Some (mkHot 9 leak_meta) /\ hot_binding (writer_lost 9 leaked).2 !! 1 = Some (mkHot 9 leak_meta).
Proof. split_and!; vm_compute; reflexivity. Qed.

(** * Examples *)

Definition demo_meta (dc : Z) : ConnMeta := mkConnMeta dc (mkSocketAddr (IpV4 [1; 2; 3; 4]) 5) (mkSocketAddr (IpV4 [1; 2; 3; 4]) 6) 0.
Definition demo_reg_ops : list (RegOp (T := nat) (S := nat) (W := nat)) :=
  [OpRegister 0%nat 0%nat; OpRegister 0%nat 0%nat; OpRegisterWriter 5 7 1%nat; OpRegisterWriter 5 8 2%nat; OpBind 6 1 7 (demo_meta 2);
   OpBind 6 2 7 (demo_meta 4); OpBind 7 1 8 (demo_meta 2); OpWriterLost 7; OpBind 9 2 7 (demo_meta 4)].

Lemma registry_refines_bindings_witness :
  get_writer_with_meta 1 (run_reg demo_reg_ops (with_route_channel_capacity 1 4)).2 = Some (8, 2%nat, demo_meta 2) /\
  is_writer_empty 7 (run_reg demo_reg_ops (with_route_channel_capacity 1 4)).2 = true.
Proof.
  destruct (registry_refines_bindings demo_reg_ops 1 4) as (_ & _ & Hget & Hempty & _); [repeat split; vm_compute; reflexivity | done |].
  rewrite Hget, Hempty. split; vm_compute; reflexivity.
Defined.

(** A channel of one slot that nobody reads, and a semaphore of one permit. *)
#[local] Instance demo_channel : RouteChannel (list MeResponse) := {
  try_send m tx := if (length tx =? 0)%nat then (SendOk, tx ++ [m]) else (SendFull, tx);
  send_timeout _ _ tx := (SendTimedOut, tx);
  sender_capacity tx := 1 - Z.of_nat (length tx);
}.

Definition demo_channel_spec : ChannelSpec (list MeResponse).
Proof.
  refine (mkChannelSpec _ _ id _ _); [|done]. intros m tx. unfold try_send, demo_channel, id. by destruct (_ =? _)%nat.
Defined.

Definition demo_take (n k : Z) : bool * Z := if k + n <=? 1 then (true, k + n) else (false, k).

#[local] Instance demo_budget : PermitBudget Z := {
  try_acquire_many := demo_take;
  acquire_many := demo_take;
  acquire_many_timeout n _ k := let '(b, k) := demo_take n k in (if b then Acquired else AcquireTimedOut, k);
  release_many n k := k - n;
}.

Definition demo_budget_spec : BudgetSpec Z.
Proof.
  assert (forall n k, (demo_take n k).2 = k + (if (demo_take n k).1 then n else 0)) as Ht.
  { intros n k. unfold demo_take. destruct (_ <=? _); cbn; lia. }
  refine (mkBudgetSpec _ _ id Ht Ht _ _); unfold id; [|done]. intros n ms k. unfold acquire_many_timeout, demo_budget, demo_take.
  destruct (_ <=? _); cbn; lia.
Defined.

Definition demo_routes : list RouteCall :=
  [CallRoute 1 (RespData 0 [1; 2] None); CallNowait 1 (RespData 0 [3] None); CallTimeout 1 (RespAck 4) 30; CallRoute 2 RespClose].
Definition demo_table : Registry (list MeResponse) Z nat := (register [] 0 (with_route_channel_capacity 1 1)).2.

Lemma routing_exact_witness :
  (run_routes demo_routes demo_table).1 = [RrRouted; RrQueueFullHigh; RrQueueFullHigh; RrNoConn] /\
  taken_by demo_channel_spec 1 (run_routes demo_routes demo_table).2 = Some [RespData 0 [1; 2] (Some 1)] /\
  held_by demo_budget_spec 1 (run_routes demo_routes demo_table).2 = Some 1.
Proof.
  pose proof (routing_exact demo_channel_spec demo_budget_spec demo_routes demo_table 1) as Hexact.
  destruct (run_routes demo_routes demo_table) as [results r'] eqn:Hrun.
  assert (results = [RrRouted; RrQueueFullHigh; RrQueueFullHigh; RrNoConn]) as ->.
  { change results with (results, r').1. rewrite <- Hrun. vm_compute. reflexivity. }
  split; [done|]. cbn [snd]. destruct Hexact as [-> ->]; [repeat constructor|]. split; vm_compute; reflexivity.
Defined.
