(* ===== verification/QuotaProg.v ===== *)
(** Code that shares a user's quota counter with other sessions: its accesses to
    the counter (stats/quota_store.rs), the traffic lease, timers and the clock as
    the operations of a free monad, a program logic that accounts for what a
    program takes and returns, and the interleaved execution of many programs. *)

From stdpp Require Import base list gmap numbers.
From S2P Require Import Net TrafficLimiter Limiter Prelude.
Local Open Scope Z_scope.

(** * Programs *)

(** [Load], [Cas] and [Refund] act on the user's counter; the compare-exchange is
    weak and may fail for no reason; a refund is the read-modify-write that its loop
    amounts to.  [Consume], [LeaseRefund] and [Observe] are calls of the lease,
    [Timer] polls an armed timer, [Sleep] waits for a time in milliseconds or until
    the task is cancelled, if that comes first, [Now] reads the clock, [Ask] is a
    condition that others decide. *)
Inductive Prog (A : Type) :=
  | Ret (a : A)
  | Load (k : Z -> Prog A)
  | Cas (current next : Z) (k : bool -> Prog A)
  | Refund (bytes : Z) (k : Prog A)
  | Consume (d : RateDirection) (bytes : Z) (k : TrafficConsumeResult -> Prog A)
  | LeaseRefund (d : RateDirection) (bytes : Z) (k : Prog A)
  | Observe (d : RateDirection) (user cidr : bool) (k : Prog A)
  | Timer (k : bool -> Prog A)
  | Sleep (ms : Z) (k : bool -> Prog A)
  | Now (k : Instant -> Prog A)
  | Ask (k : bool -> Prog A).
Arguments Ret {A}.
Arguments Load {A}.
Arguments Cas {A}.
Arguments Refund {A}.
Arguments Consume {A}.
Arguments LeaseRefund {A}.
Arguments Observe {A}.
Arguments Timer {A}.
Arguments Sleep {A}.
Arguments Now {A}.
Arguments Ask {A}.

Fixpoint pbind {A B} (p : Prog A) (f : A -> Prog B) : Prog B :=
  match p with
  | Ret a => f a
  | Load k => Load (fun v => pbind (k v) f)
  | Cas current next k => Cas current next (fun b => pbind (k b) f)
  | Refund bytes k => Refund bytes (pbind k f)
  | Consume d bytes k => Consume d bytes (fun r => pbind (k r) f)
  | LeaseRefund d bytes k => LeaseRefund d bytes (pbind k f)
  | Observe d user cidr k => Observe d user cidr (pbind k f)
  | Timer k => Timer (fun b => pbind (k b) f)
  | Sleep ms k => Sleep ms (fun b => pbind (k b) f)
  | Now k => Now (fun t => pbind (k t) f)
  | Ask k => Ask (fun b => pbind (k b) f)
  end.

Declare Scope prog_scope.
Delimit Scope prog_scope with prog.
Notation "'do' x <- p ; q" := (pbind p (fun x => q)) (at level 10, x pattern, p at level 100, q at level 200) : prog_scope.
Local Open Scope prog_scope.

(** * The quota counter *)

Inductive QuotaReserveError := LimitExceeded | Contended.

Definition try_reserve (bytes limit : Z) : Prog (result QuotaReserveError Z) :=
  Load (fun current =>
    if sat_sub limit current <? bytes then Ret (Err LimitExceeded)
    else
      let next := sat_add 64 current bytes in
      Cas current next (fun ok => Ret (if ok then Ok next else Err Contended))).

(** [refund_reserved_quota_bytes]. *)
Definition refund_reserved_quota_bytes (reserved_bytes : Z) : Prog unit :=
  if reserved_bytes =? 0 then Ret tt else Refund reserved_bytes (Ret tt).

Inductive Spin := SpinReserved | SpinLimit | SpinContended.

(** [for _ in 0..n], until an attempt is not contended. *)
Fixpoint spin_reserve (n : nat) (bytes limit : Z) : Prog Spin :=
  match n with
  | O => Ret SpinContended
  | S n =>
      do r <- try_reserve bytes limit;
      match r with
      | Ok _ => Ret SpinReserved
      | Err LimitExceeded => Ret SpinLimit
      | Err Contended => spin_reserve n bytes limit
      end
  end.

(** * Accounting *)

(** What a program holds: of the quota and of the lease in each direction; whether
    something will wake it, and how many timers it saw fire or slept through. *)
Record Ghost := mkGhost { g_quota : Z; g_up : Z; g_down : Z; g_woken : bool; g_fired : Z }.

Definition ghost_0 : Ghost := mkGhost 0 0 0 false 0.
Definition g_add_quota (n : Z) (g : Ghost) : Ghost := mkGhost (g_quota g + n) (g_up g) (g_down g) (g_woken g) (g_fired g).
Definition g_add_lease (d : RateDirection) (n : Z) (g : Ghost) : Ghost :=
  match d with
  | Up => mkGhost (g_quota g) (g_up g + n) (g_down g) (g_woken g) (g_fired g)
  | Down => mkGhost (g_quota g) (g_up g) (g_down g + n) (g_woken g) (g_fired g)
  end.
Definition g_timer (fired : bool) (g : Ghost) : Ghost :=
  mkGhost (g_quota g) (g_up g) (g_down g) (g_woken g || negb fired) (g_fired g + if fired then 1 else 0).

(** The program keeps to the limit, returns no more than it holds, and ends in
    [Q], whatever the others do.  A lease grants no more than it is asked for. *)
Fixpoint wp {A} (limit : Z) (p : Prog A) (g : Ghost) (Q : A -> Ghost -> Prop) : Prop :=
  match p with
  | Ret a => Q a g
  | Load k => forall v, in_u 64 v -> wp limit (k v) g Q
  | Cas current next k =>
      (current <= next /\ (next = current \/ next <= limit)) /\
      wp limit (k true) (g_add_quota (next - current) g) Q /\ wp limit (k false) g Q
  | Refund bytes k => 0 <= bytes <= g_quota g /\ wp limit k (g_add_quota (- bytes) g) Q
  | Consume d bytes k => forall r, 0 <= granted r <= bytes -> wp limit (k r) (g_add_lease d (granted r) g) Q
  | LeaseRefund d bytes k => 0 <= bytes /\ wp limit k (g_add_lease d (- bytes) g) Q
  | Observe _ _ _ k => wp limit k g Q
  | Timer k => forall fired, wp limit (k fired) (g_timer fired g) Q
  | Sleep ms k => forall cancelled, wp limit (k cancelled) (g_timer true g) Q
  | Now k => forall t, wp limit (k t) g Q
  | Ask k => forall b, wp limit (k b) g Q
  end.

Lemma wp_mono {A} limit limit' (p : Prog A) g Q Q' : limit <= limit' -> (forall a g, Q a g -> Q' a g) -> wp limit p g Q -> wp limit' p g Q'.
Proof.
  intros Hlim HQ. revert g. induction p as [a|k IH|cur next k IH|bytes k IH|d bytes k IH|d bytes k IH|d u c k IH|k IH|ms k IH|k IH|k IH]; intros g; cbn [wp]; auto.
  - intros ((? & ?) & ? & ?). split_and!; auto. intuition lia.
  - intros [? ?]. auto.
  - intros [? ?]. auto.
Qed.

Lemma wp_bind {A B} limit (p : Prog A) (f : A -> Prog B) g Q : wp limit p g (fun a g => wp limit (f a) g Q) -> wp limit (pbind p f) g Q.
Proof.
  revert g. induction p as [a|k IH|cur next k IH|bytes k IH|d bytes k IH|d bytes k IH|d u c k IH|k IH|ms k IH|k IH|k IH]; intros g; cbn [wp pbind]; auto.
  - intros (? & ? & ?). auto.
  - intros [? ?]. auto.
  - intros [? ?]. auto.
Qed.

(** To run [p] first and use only what [Q] says of it. *)
Lemma wp_seq {A B} limit (p : Prog A) (f : A -> Prog B) g Q R :
  wp limit p g Q -> (forall a g, Q a g -> wp limit (f a) g R) -> wp limit (pbind p f) g R.
Proof. intros Hp Hf. apply wp_bind. eapply wp_mono; [reflexivity | exact Hf | exact Hp]. Qed.

Lemma g_add_quota_0 g : g_add_quota 0 g = g.
Proof. destruct g. unfold g_add_quota. cbn. by rewrite Z.add_0_r. Qed.

Lemma wp_try_reserve bytes lim limit g Q :
  0 <= bytes -> lim <= limit -> limit <= umax 64 ->
  (forall total, Q (Ok total) (g_add_quota bytes g)) -> Q (Err LimitExceeded) g -> Q (Err Contended) g ->
  wp limit (try_reserve bytes lim) g Q.
Proof.
  intros Hb Hlim Hmax Hok Hex Hco. cbn [wp try_reserve]. intros v Hv. unfold in_u in Hv.
  destruct (Z.ltb_spec (sat_sub lim v) bytes) as [|Hle]; [done|]. cbn [wp]. unfold sat_sub in Hle.
  assert (sat_add 64 v bytes = v + bytes) as -> by (unfold sat_add; lia).
  replace (v + bytes - v) with bytes by lia. split_and!; [lia | lia | apply Hok | done].
Qed.

Lemma wp_spin_reserve n bytes lim limit g Q :
  0 <= bytes -> lim <= limit -> limit <= umax 64 ->
  Q SpinReserved (g_add_quota bytes g) -> Q SpinLimit g -> Q SpinContended g -> wp limit (spin_reserve n bytes lim) g Q.
Proof.
  intros Hb Hlim Hmax Hr Hl Hc. induction n as [|n IH]; [done|]. cbn [spin_reserve]. apply wp_bind.
  by apply wp_try_reserve.
Qed.

Lemma wp_refund bytes limit g Q : 0 <= bytes <= g_quota g -> Q tt (g_add_quota (- bytes) g) -> wp limit (refund_reserved_quota_bytes bytes) g Q.
Proof.
  intros Hb HQ. unfold refund_reserved_quota_bytes. destruct (Z.eqb_spec bytes 0) as [->|]; cbn [wp]; [|done].
  by rewrite Z.opp_0, g_add_quota_0 in HQ.
Qed.

(** The accounts moved by these amounts; wakes and fired timers only add up. *)
Record moves (quota up down : Z) (g g' : Ghost) : Prop := mkMoves {
  mv_quota : g_quota g' = g_quota g + quota;
  mv_up : g_up g' = g_up g + up;
  mv_down : g_down g' = g_down g + down;
  mv_woken : g_woken g = true -> g_woken g' = true;
  mv_fired : g_fired g <= g_fired g';
}.

Lemma moves_refl g : moves 0 0 0 g g.
Proof. split; lia || done. Qed.

Lemma moves_trans q u d q' u' d' q2 u2 d2 g1 g2 g3 : moves q u d g1 g2 -> moves q' u' d' g2 g3 ->
  q2 = q + q' -> u2 = u + u' -> d2 = d + d' -> moves q2 u2 d2 g1 g3.
Proof. intros [] [] -> -> ->. split; lia || auto. Qed.

Lemma moves_quota n g : moves n 0 0 g (g_add_quota n g).
Proof. split; cbn; lia || done. Qed.
Lemma moves_up n g : moves 0 n 0 g (g_add_lease Up n g).
Proof. split; cbn; lia || done. Qed.
Lemma moves_down n g : moves 0 0 n g (g_add_lease Down n g).
Proof. split; cbn; lia || done. Qed.
Lemma moves_timer fired g : moves 0 0 0 g (g_timer fired g).
Proof. split; cbn; [lia..| |]; [by intros -> | destruct fired; lia]. Qed.

Create HintDb moves.
#[export] Hint Resolve moves_refl moves_quota moves_up moves_down moves_timer : moves.

Ltac chain H := eapply moves_trans; [exact H | eauto with moves | lia | lia | lia].

(** * Interleaving *)

(** What the others answer: whether a compare-exchange fails for no reason, what the
    lease grants, whether a timer has fired or a condition holds, the time. *)
Inductive Answer := AnsCas (spurious : bool) | AnsConsume (r : TrafficConsumeResult) | AnsBool (b : bool) | AnsNow (t : Instant).

Section system.
Context {A : Type}.

Record Thread := mkThread { th_prog : Prog A; th_ghost : Ghost }.

(** What a program that has ended returned. *)
Definition thread_result (th : Thread) : option (A * Ghost) := match th_prog th with Ret a => Some (a, th_ghost th) | _ => None end.

(** One access of one program; an answer of the wrong kind is ignored. *)
Definition thread_access (ans : Answer) (used : Z) (th : Thread) : Z * Thread :=
  let g := th_ghost th in
  match th_prog th, ans with
  | Load k, _ => (used, mkThread (k used) g)
  | Cas current next k, AnsCas spurious =>
      if (used =? current) && negb spurious then (next, mkThread (k true) (g_add_quota (next - current) g)) else (used, mkThread (k false) g)
  | Refund bytes k, _ => (sat_sub used bytes, mkThread k (g_add_quota (- bytes) g))
  | Consume d bytes k, AnsConsume r =>
      if (0 <=? granted r) && (granted r <=? bytes) then (used, mkThread (k r) (g_add_lease d (granted r) g)) else (used, th)
  | LeaseRefund d bytes k, _ => (used, mkThread k (g_add_lease d (- bytes) g))
  | Observe _ _ _ k, _ => (used, mkThread k g)
  | Timer k, AnsBool fired => (used, mkThread (k fired) (g_timer fired g))
  | Sleep _ k, AnsBool cancelled => (used, mkThread (k cancelled) (g_timer true g))
  | Now k, AnsNow t => (used, mkThread (k t) g)
  | Ask k, AnsBool b => (used, mkThread (k b) g)
  | _, _ => (used, th)
  end.

Definition system_step (e : nat * Answer) (s : Z * list Thread) : Z * list Thread :=
  match s.2 !! e.1 with
  | Some th => let '(used, th) := thread_access e.2 s.1 th in (used, <[e.1 := th]> s.2)
  | None => s
  end.

Definition run_system (schedule : list (nat * Answer)) (s : Z * list Thread) : Z * list Thread := foldl (fun s e => system_step e s) s schedule.

Definition thread_ok (limit : Z) (Q : A -> Ghost -> Prop) (th : Thread) : Prop := 0 <= g_quota (th_ghost th) /\ wp limit (th_prog th) (th_ghost th) Q.

Definition held_quota (ths : list Thread) : Z := foldr (fun th n => g_quota (th_ghost th) + n) 0 ths.

(** The counter is what it was at the start and what the programs hold. *)
Record system_ok (limit base : Z) (Q : nat -> A -> Ghost -> Prop) (s : Z * list Thread) : Prop := mkSystemOk {
  so_used : s.1 = base + held_quota s.2;
  so_limit : s.1 <= Z.max limit base;
  so_threads : forall i th, s.2 !! i = Some th -> thread_ok limit (Q i) th;
}.

Lemma held_quota_nonneg ths : Forall (fun th => 0 <= g_quota (th_ghost th)) ths -> 0 <= held_quota ths.
Proof. induction 1; unfold held_quota in *; cbn in *; lia. Qed.

Lemma held_quota_insert ths i th th' : ths !! i = Some th -> held_quota (<[i := th']> ths) = held_quota ths - g_quota (th_ghost th) + g_quota (th_ghost th').
Proof.
  revert i. induction ths as [|x ths IH]; intros i Hi; [done|]. destruct i as [|i]; cbn in Hi.
  - simplify_eq. unfold held_quota. cbn. lia.
  - specialize (IH i Hi). change (<[S i := th']> (x :: ths)) with (x :: <[i := th']> ths). unfold held_quota in *. cbn [foldr]. lia.
Qed.

Lemma held_quota_lookup ths i th : Forall (fun th => 0 <= g_quota (th_ghost th)) ths -> ths !! i = Some th -> g_quota (th_ghost th) <= held_quota ths.
Proof.
  intros Hf. revert i. induction Hf as [|x ths Hx Hf IH]; intros i Hi; [done|]. pose proof (held_quota_nonneg ths Hf).
  destruct i as [|i]; cbn in Hi; [simplify_eq; unfold held_quota in *; cbn; lia|]. specialize (IH i Hi). unfold held_quota in *. cbn. lia.
Qed.

Lemma thread_access_ok limit ans used th Q :
  thread_ok limit Q th -> in_u 64 used -> g_quota (th_ghost th) <= used ->
  let '(used', th') := thread_access ans used th in
  thread_ok limit Q th' /\ used' - used = g_quota (th_ghost th') - g_quota (th_ghost th) /\ used' <= Z.max limit used.
Proof.
  intros [Hg Hwp] Hu Hle. unfold thread_access. destruct th as [p g]. cbn [th_prog th_ghost] in *.
  destruct p as [a|k|cur next k|bytes k|d bytes k|d bytes k|d u c k|k|ms k|k|k], ans as [spurious|r|b|t]; cbn [wp] in Hwp;
    try (split_and!; [done | cbn; lia | lia]);
    try (split_and!; [split; [done | by apply Hwp] | cbn; lia | lia]);
    try (destruct Hwp as [Hb Hwp]; split_and!; [split; [destruct d; cbn; lia | done] | destruct d; cbn; lia | lia]);
    try (destruct Hwp as [Hb Hwp]; assert (sat_sub used bytes = used - bytes) as -> by (unfold sat_sub; lia);
      split_and!; [split; cbn; [lia | done] | cbn; lia | lia]).
  - destruct Hwp as ((Hcn & Hnext) & Ht & Hf).
    destruct (Z.eqb_spec used cur) as [->|]; cbn [andb]; [destruct spurious; cbn [negb]|];
      (split_and!; [split; cbn; [lia | done] | cbn; lia | lia]).
  - destruct (Z.leb_spec 0 (granted r)), (Z.leb_spec (granted r) bytes); cbn [andb]; try (split_and!; [done | cbn; lia | lia]).
    split_and!; [split; [destruct d; cbn; lia | by apply Hwp] | destruct d; cbn; lia | lia].
Qed.

Lemma system_step_ok limit base Q e s : 0 <= base <= umax 64 -> limit <= umax 64 -> system_ok limit base Q s -> system_ok limit base Q (system_step e s).
Proof.
  intros Hbase Hlim [Hused Hle Hth]. unfold system_step. destruct s as [used ths]. destruct e as [i ans]. cbn [fst snd] in *.
  destruct (ths !! i) as [th|] eqn:Hi; [|by split].
  assert (Forall (fun th => 0 <= g_quota (th_ghost th)) ths) as Hall by (apply Forall_lookup; intros j t Hj; apply (Hth j t Hj)).
  pose proof (held_quota_nonneg ths Hall). pose proof (held_quota_lookup ths i th Hall Hi).
  pose proof (thread_access_ok limit ans used th (Q i) (Hth i th Hi) ltac:(unfold in_u; lia) ltac:(lia)) as Hacc.
  destruct (thread_access ans used th) as [used' th']. destruct Hacc as (Hok & Hdiff & Hle'). split; cbn [fst snd].
  - rewrite (held_quota_insert _ _ _ _ Hi). lia.
  - lia.
  - intros j t Hj. destruct (decide (i = j)) as [->|Hne].
    + rewrite list_lookup_insert_eq in Hj by (by eapply lookup_lt_Some). by simplify_eq.
    + rewrite list_lookup_insert_ne in Hj by done. by eapply Hth.
Qed.

Lemma run_system_ok limit base Q schedule s : 0 <= base <= umax 64 -> limit <= umax 64 -> system_ok limit base Q s ->
  system_ok limit base Q (run_system schedule s).
Proof.
  intros Hbase Hlim. revert s. induction schedule as [|e schedule IH]; intros s Hs; [done|]. cbn. apply IH. by apply system_step_ok.
Qed.

Lemma system_result limit base Q s i a g : system_ok limit base Q s -> s.2 !! i ≫= thread_result = Some (a, g) -> Q i a g.
Proof.
  intros Hs Hres. destruct (s.2 !! i) as [[p g']|] eqn:Hi; [|done]. cbn in Hres. unfold thread_result in Hres. cbn in Hres.
  destruct p; try done. injection Hres as -> ->. apply (so_threads _ _ _ _ Hs i _ Hi).
Qed.

Lemma system_start limit base Q (ps : list (Prog A)) :
  (forall i p, ps !! i = Some p -> wp limit p (ghost_0) (Q i)) ->
  system_ok limit base Q (base, (fun p => mkThread p (ghost_0)) <$> ps).
Proof.
  intros Hps. split; cbn [fst snd].
  - assert (held_quota ((fun p => mkThread p (ghost_0)) <$> ps) = 0) as ->; [|lia]. clear. induction ps; unfold held_quota in *; cbn; lia.
  - lia.
  - intros i th Hi. rewrite list_lookup_fmap in Hi. destruct (ps !! i) as [p|] eqn:Hp; simplify_eq/=. split; cbn; [lia | by apply Hps].
Qed.
End system.

Arguments Thread : clear implicits.
