(* ===== verification/QuotaIo.v ===== *)
(** The client side of a direct relay (proxy/relay/io.rs and io/): a stream that
    debits every byte to the user's quota and to the session's traffic lease, counts
    it and notes the activity. *)

From stdpp Require Import base list gmap numbers.
From S2P Require Import Net TrafficLimiter Limiter Prelude Stream QuotaProg.
Local Open Scope Z_scope.
Local Open Scope prog_scope.

(** * Reunited halves *)

Record CombinedStream (R W : Type) := mkCombined { cs_reader : R; cs_writer : W }.
Arguments mkCombined {R W}.
Arguments cs_reader {R W}.
Arguments cs_writer {R W}.

#[export] Instance combined_read {R W} `{AsyncRead R} : AsyncRead (CombinedStream R W) := fun fuel cap s =>
  match poll_read fuel cap (cs_reader s) with
  | Some (p, r) => Some (p, mkCombined r (cs_writer s))
  | None => None
  end.

#[export] Instance combined_write {R W} `{AsyncWrite W} : AsyncWrite (CombinedStream R W) := {
  poll_write buf s := let '(p, w) := poll_write buf (cs_writer s) in (p, mkCombined (cs_reader s) w);
  poll_flush s := let '(p, w) := poll_flush (cs_writer s) in (p, mkCombined (cs_reader s) w);
  poll_shutdown s := let '(p, w) := poll_shutdown (cs_writer s) in (p, mkCombined (cs_reader s) w);
}.

(** * Counters *)

(** The counters a poll touches; the others belong to the copy loop. *)
Record SharedCounters := mkCounters {
  c2s_bytes : Z;
  s2c_bytes : Z;
  c2s_ops : Z;
  s2c_ops : Z;
  last_activity_ms : Z;
}.

Definition counters_new : SharedCounters := mkCounters 0 0 0 0 0.

Definition millis_since (now epoch : Instant) : Z := (saturating_duration_since now epoch / 1000000) mod 2 ^ 64.

Definition touch (now epoch : Instant) (c : SharedCounters) : SharedCounters :=
  mkCounters (c2s_bytes c) (s2c_bytes c) (c2s_ops c) (s2c_ops c) (millis_since now epoch).

Definition idle_duration (now epoch : Instant) (c : SharedCounters) : Duration :=
  from_millis (sat_sub (millis_since now epoch) (last_activity_ms c)).

Definition count_c2s (n : Z) (c : SharedCounters) : SharedCounters :=
  mkCounters ((c2s_bytes c + n) mod 2 ^ 64) (s2c_bytes c) ((c2s_ops c + 1) mod 2 ^ 64) (s2c_ops c) (last_activity_ms c).
Definition count_s2c (n : Z) (c : SharedCounters) : SharedCounters :=
  mkCounters (c2s_bytes c) ((s2c_bytes c + n) mod 2 ^ 64) (c2s_ops c) ((s2c_ops c + 1) mod 2 ^ 64) (last_activity_ms c).

(** * Quota checks *)

Definition QUOTA_NEAR_LIMIT_BYTES : Z := 64 * 1024.
Definition QUOTA_LARGE_CHARGE_BYTES : Z := 16 * 1024.
Definition QUOTA_ADAPTIVE_INTERVAL_MIN_BYTES : Z := 4 * 1024.
Definition QUOTA_ADAPTIVE_INTERVAL_MAX_BYTES : Z := 64 * 1024.
Definition QUOTA_RESERVE_SPIN_RETRIES : nat := 64.
Definition QUOTA_RESERVE_MAX_ROUNDS : nat := 8.

Definition quota_adaptive_interval_bytes (remaining_before : Z) : Z :=
  clamp QUOTA_ADAPTIVE_INTERVAL_MIN_BYTES QUOTA_ADAPTIVE_INTERVAL_MAX_BYTES (remaining_before / 2).

Definition should_immediate_quota_check (remaining_before charge_bytes : Z) : bool :=
  (remaining_before <=? QUOTA_NEAR_LIMIT_BYTES) || (QUOTA_LARGE_CHARGE_BYTES <=? charge_bytes).

(** * Waiting for the lease *)

(** [sleep] is some armed timer. *)
Record RateWaitState := mkWait { ws_sleep : bool; ws_started_at : bool; ws_blocked_user : bool; ws_blocked_cidr : bool }.
Definition wait_default : RateWaitState := mkWait false false false false.

Definition record_wait (lease : bool) (d : RateDirection) (w : RateWaitState) : Prog RateWaitState :=
  if ws_started_at w then
    let w' := mkWait (ws_sleep w) false false false in
    if lease then Observe d (ws_blocked_user w) (ws_blocked_cidr w) (Ret w') else Ret w'
  else Ret w.

Definition arm_wait (user cidr : bool) (w : RateWaitState) : RateWaitState :=
  mkWait true (if ws_sleep w then ws_started_at w else true) (ws_blocked_user w || user) (ws_blocked_cidr w || cidr).

(** Whether the wait is over. *)
Definition poll_wait (lease : bool) (d : RateDirection) (w : RateWaitState) : Prog (bool * RateWaitState) :=
  if ws_sleep w then
    Timer (fun fired =>
      if fired then
        do w <- record_wait lease d (mkWait false (ws_started_at w) (ws_blocked_user w) (ws_blocked_cidr w));
        Ret (true, w)
      else Ret (false, w))
  else Ret (true, w).

(** * The stream *)

Record StatsIo (X : Type) := mkStatsIo {
  si_inner : X;
  si_counters : SharedCounters;
  si_traffic_lease : bool;
  si_c2s_rate_debt_bytes : Z;
  si_c2s_wait : RateWaitState;
  si_s2c_wait : RateWaitState;
  si_quota_wait : RateWaitState;
  si_quota_limit : option Z;
  si_quota_exceeded : bool;
  si_quota_bytes_since_check : Z;
  si_epoch : Instant;
}.
Arguments mkStatsIo {X}.
Arguments si_inner {X}.
Arguments si_counters {X}.
Arguments si_traffic_lease {X}.
Arguments si_c2s_rate_debt_bytes {X}.
Arguments si_c2s_wait {X}.
Arguments si_s2c_wait {X}.
Arguments si_quota_wait {X}.
Arguments si_quota_limit {X}.
Arguments si_quota_exceeded {X}.
Arguments si_quota_bytes_since_check {X}.
Arguments si_epoch {X}.

Inductive RelayIoError := InnerError (kind : ErrorKind) | QuotaIoError.

Definition RelayPoll (A : Type) : Type := Poll (result RelayIoError A).

Definition from_inner {A} (p : IoPoll A) : RelayPoll A :=
  match p with
  | Pending => Pending
  | Ready (Ok a) => Ready (Ok a)
  | Ready (Err e) => Ready (Err (InnerError e))
  end.

Section stats_io.
Context {X : Type} `{AsyncRead X} `{AsyncWrite X}.
Implicit Types this : StatsIo X.

Definition set_inner (x : X) this : StatsIo X :=
  mkStatsIo x (si_counters this) (si_traffic_lease this) (si_c2s_rate_debt_bytes this) (si_c2s_wait this) (si_s2c_wait this) (si_quota_wait this)
    (si_quota_limit this) (si_quota_exceeded this) (si_quota_bytes_since_check this) (si_epoch this).
Definition set_counters (c : SharedCounters) this : StatsIo X :=
  mkStatsIo (si_inner this) c (si_traffic_lease this) (si_c2s_rate_debt_bytes this) (si_c2s_wait this) (si_s2c_wait this) (si_quota_wait this)
    (si_quota_limit this) (si_quota_exceeded this) (si_quota_bytes_since_check this) (si_epoch this).
Definition set_debt (n : Z) this : StatsIo X :=
  mkStatsIo (si_inner this) (si_counters this) (si_traffic_lease this) n (si_c2s_wait this) (si_s2c_wait this) (si_quota_wait this)
    (si_quota_limit this) (si_quota_exceeded this) (si_quota_bytes_since_check this) (si_epoch this).
Definition set_c2s_wait (w : RateWaitState) this : StatsIo X :=
  mkStatsIo (si_inner this) (si_counters this) (si_traffic_lease this) (si_c2s_rate_debt_bytes this) w (si_s2c_wait this) (si_quota_wait this)
    (si_quota_limit this) (si_quota_exceeded this) (si_quota_bytes_since_check this) (si_epoch this).
Definition set_s2c_wait (w : RateWaitState) this : StatsIo X :=
  mkStatsIo (si_inner this) (si_counters this) (si_traffic_lease this) (si_c2s_rate_debt_bytes this) (si_c2s_wait this) w (si_quota_wait this)
    (si_quota_limit this) (si_quota_exceeded this) (si_quota_bytes_since_check this) (si_epoch this).
Definition set_quota_wait (w : RateWaitState) this : StatsIo X :=
  mkStatsIo (si_inner this) (si_counters this) (si_traffic_lease this) (si_c2s_rate_debt_bytes this) (si_c2s_wait this) (si_s2c_wait this) w
    (si_quota_limit this) (si_quota_exceeded this) (si_quota_bytes_since_check this) (si_epoch this).
Definition set_exceeded this : StatsIo X :=
  mkStatsIo (si_inner this) (si_counters this) (si_traffic_lease this) (si_c2s_rate_debt_bytes this) (si_c2s_wait this) (si_s2c_wait this)
    (si_quota_wait this) (si_quota_limit this) true (si_quota_bytes_since_check this) (si_epoch this).
Definition set_since_check (n : Z) this : StatsIo X :=
  mkStatsIo (si_inner this) (si_counters this) (si_traffic_lease this) (si_c2s_rate_debt_bytes this) (si_c2s_wait this) (si_s2c_wait this)
    (si_quota_wait this) (si_quota_limit this) (si_quota_exceeded this) n (si_epoch this).

Definition stats_io_new (inner : X) (lease : bool) (quota_limit : option Z) (epoch : Instant) : Prog (StatsIo X) :=
  Now (fun now => Ret (mkStatsIo inner (touch now epoch counters_new) lease 0 wait_default wait_default wait_default quota_limit false 0 epoch)).

(** [while self.c2s_rate_debt_bytes > 0], [n] rounds at most; [None] when they run
    out, otherwise whether the debt is settled. *)
Fixpoint settle_loop (n : nat) this : Prog (option bool * StatsIo X) :=
  if si_c2s_rate_debt_bytes this =? 0 then
    do (ready, w) <- poll_wait true Up (si_c2s_wait this);
    Ret (Some ready, set_c2s_wait w this)
  else
    match n with
    | O => Ret (None, this)
    | S n =>
        Consume Up (si_c2s_rate_debt_bytes this) (fun c =>
          if 0 <? granted c then settle_loop n (set_debt (sat_sub (si_c2s_rate_debt_bytes this) (granted c)) this)
          else
            do (ready, w) <- poll_wait true Up (arm_wait (blocked_user c) (blocked_cidr c) (si_c2s_wait this));
            let this := set_c2s_wait w this in
            if ready then settle_loop n this else Ret (Some false, this))
    end.

Definition settle_c2s_rate_debt (n : nat) this : Prog (option bool * StatsIo X) :=
  if si_traffic_lease this then settle_loop n this else Ret (Some true, set_debt 0 this).

Definition arm_quota_wait this : Prog (bool * StatsIo X) :=
  do (ready, w) <- poll_wait false Up (arm_wait false false (si_quota_wait this));
  Ret (ready, set_quota_wait w this).

(** ** Reading *)

Inductive Reserve := Reserved | ReserveLimit | ReservePending | ReserveFuel.

(** The loop of [poll_read] that reserves [desired] bytes: [n] rounds of spinning at
    most, a wait after every eight. *)
Fixpoint read_reserve (n rounds : nat) (desired limit : Z) this : Prog (Reserve * StatsIo X) :=
  match n with
  | O => Ret (ReserveFuel, this)
  | S n =>
      do spin <- spin_reserve QUOTA_RESERVE_SPIN_RETRIES desired limit;
      match spin with
      | SpinReserved => Ret (Reserved, this)
      | SpinLimit => Ret (ReserveLimit, this)
      | SpinContended =>
          if (QUOTA_RESERVE_MAX_ROUNDS <=? S rounds)%nat then
            do (ready, this) <- arm_quota_wait this;
            if ready then read_reserve n 0 desired limit this else Ret (ReservePending, this)
          else read_reserve n (S rounds) desired limit this
      end
  end.

(** How often the used quota is looked at. *)
Definition since_check (remaining n : Z) this : bool * StatsIo X :=
  if should_immediate_quota_check remaining n then (true, set_since_check 0 this)
  else
    let since := sat_add 64 (si_quota_bytes_since_check this) n in
    if quota_adaptive_interval_bytes remaining <=? since then (true, set_since_check 0 this) else (false, set_since_check since this).

(** After bytes were read. *)
Definition after_read (fuel : nat) (remaining_before : option Z) (n : Z) this : Prog (StatsIo X) :=
  let this := match remaining_before with Some remaining => (since_check remaining n this).2 | None => this end in
  do this <- (match si_quota_limit this with
              | Some limit => Load (fun used => Ret (if limit <=? used then set_exceeded this else this))
              | None => Ret this
              end);
  Now (fun now =>
    let this := set_counters (touch now (si_epoch this) (count_c2s n (si_counters this))) this in
    if si_traffic_lease this then
      do (_, this) <- settle_c2s_rate_debt fuel (set_debt (sat_add 64 (si_c2s_rate_debt_bytes this) n) this);
      Ret this
    else Ret this).

(** The read itself, with [reserved] bytes of quota. *)
Definition read_inner (fuel read_limit : nat) (remaining_before : option Z) (reserved : Z) this : Prog (option (RelayPoll (list Z)) * StatsIo X) :=
  match poll_read fuel read_limit (si_inner this) with
  | None => Ret (None, this)
  | Some (p, inner) =>
      let this := set_inner inner this in
      match p with
      | Ready (Ok bs) =>
          let n := Z.of_nat (length bs) in
          do _ <- (if n <? reserved then refund_reserved_quota_bytes (reserved - n) else Ret tt);
          do this <- (if 0 <? n then after_read fuel remaining_before n this else Ret this);
          Ret (Some (Ready (Ok bs)), this)
      | Pending =>
          do _ <- (if 0 <? reserved then refund_reserved_quota_bytes reserved else Ret tt);
          Ret (Some Pending, this)
      | Ready (Err e) =>
          do _ <- (if 0 <? reserved then refund_reserved_quota_bytes reserved else Ret tt);
          Ret (Some (Ready (Err (InnerError e))), this)
      end
  end.

Definition stats_poll_read (fuel cap : nat) this : Prog (option (RelayPoll (list Z)) * StatsIo X) :=
  if si_quota_exceeded this then Ret (Some (Ready (Err QuotaIoError)), this)
  else
    do (settled, this) <- settle_c2s_rate_debt fuel this;
    match settled with
    | None => Ret (None, this)
    | Some false => Ret (Some Pending, this)
    | Some true =>
        if (cap =? 0)%nat then
          match poll_read fuel cap (si_inner this) with
          | None => Ret (None, this)
          | Some (p, inner) =>
              Ret (Some (from_inner p), set_inner inner this)
          end
        else
          match si_quota_limit this with
          | None => read_inner fuel cap None 0 this
          | Some limit =>
              Load (fun used_before =>
                let remaining := sat_sub limit used_before in
                if remaining =? 0 then Ret (Some (Ready (Err QuotaIoError)), set_exceeded this)
                else
                  let read_limit := Z.to_nat (Z.min (Z.of_nat cap) remaining) in
                  let desired := Z.of_nat read_limit in
                  do (got, this) <- read_reserve fuel 0 desired limit this;
                  match got with
                  | Reserved => read_inner fuel read_limit (Some remaining) desired this
                  | ReserveLimit => Ret (Some (Ready (Err QuotaIoError)), set_exceeded this)
                  | ReservePending => Ret (Some Pending, this)
                  | ReserveFuel => Ret (None, this)
                  end)
          end
    end.

(** ** Writing *)

Inductive Shaped := ShapedTo (granted : Z) | ShapedPending | ShapedFuel.

(** The loop over the lease: the bytes it grants of [len]. *)
Fixpoint shape (n : nat) (len : Z) this : Prog (Shaped * StatsIo X) :=
  match n with
  | O => Ret (ShapedFuel, this)
  | S n =>
      Consume Down len (fun c =>
        if 0 <? granted c then
          do (_, w) <- poll_wait true Down (si_s2c_wait this);
          Ret (ShapedTo (granted c), set_s2c_wait w this)
        else
          do (ready, w) <- poll_wait true Down (arm_wait (blocked_user c) (blocked_cidr c) (si_s2c_wait this));
          let this := set_s2c_wait w this in
          if ready then shape n len this else Ret (ShapedPending, this))
  end.

Definition give_back_lease (bytes : Z) this : Prog unit := if si_traffic_lease this then LeaseRefund Down bytes (Ret tt) else Ret tt.

Inductive WriteReserve := WrReserved (remaining reserved : Z) | WrLimit | WrPending.

(** The loop of [poll_write] that reserves quota: [rounds] rounds are left. *)
Fixpoint write_reserve (rounds : nat) (len limit shaped : Z) this : Prog (WriteReserve * StatsIo X) :=
  Load (fun used_before =>
    let remaining := sat_sub limit used_before in
    if remaining =? 0 then
      do _ <- give_back_lease shaped this;
      Ret (WrLimit, set_exceeded this)
    else
      let desired := Z.min remaining len in
      do spin <- spin_reserve QUOTA_RESERVE_SPIN_RETRIES desired limit;
      match spin, rounds with
      | SpinReserved, _ => Ret (WrReserved remaining desired, this)
      | _, S ((S _) as rounds) => write_reserve rounds len limit shaped this
      | _, _ =>
          do _ <- give_back_lease shaped this;
          do (_, this) <- arm_quota_wait this;
          Ret (WrPending, this)
      end).

(** After bytes were written. *)
Definition after_write (remaining_before : option Z) (n : Z) this : Prog (StatsIo X) :=
  do this <- (if si_traffic_lease this then do w <- record_wait true Down (si_s2c_wait this); Ret (set_s2c_wait w this) else Ret this);
  Now (fun now =>
    let this := set_counters (touch now (si_epoch this) (count_s2c n (si_counters this))) this in
    match si_quota_limit this, remaining_before with
    | Some limit, Some remaining =>
        let '(check, this) := since_check remaining n this in
        if check then Load (fun used => Ret (if limit <=? used then set_exceeded this else this)) else Ret this
    | _, _ => Ret this
    end).

(** The write itself, with [reserved] bytes of quota and [shaped] of the lease. *)
Definition write_inner (buf : list Z) (remaining_before : option Z) (reserved shaped : Z) this : Prog (RelayPoll nat * StatsIo X) :=
  let '(p, inner) := poll_write buf (si_inner this) in
  let this := set_inner inner this in
  let give_back :=
    do _ <- (if 0 <? reserved then refund_reserved_quota_bytes reserved else Ret tt);
    if 0 <? shaped then give_back_lease shaped this else Ret tt in
  match p with
  | Ready (Ok k) =>
      let n := Z.of_nat k in
      do _ <- (if n <? reserved then refund_reserved_quota_bytes (reserved - n) else Ret tt);
      do _ <- (if n <? shaped then give_back_lease (shaped - n) this else Ret tt);
      do this <- (if 0 <? n then after_write remaining_before n this else Ret this);
      Ret (Ready (Ok k), this)
  | Ready (Err e) => do _ <- give_back; Ret (Ready (Err (InnerError e)), this)
  | Pending => do _ <- give_back; Ret (Pending, this)
  end.

(** The quota part of [poll_write], for the part of the buffer that the lease
    allows. *)
Definition write_quota (buf : list Z) (shaped : Z) this : Prog (option (RelayPoll nat) * StatsIo X) :=
  let finish m := do (p, this) <- m; Ret (Some p, this) in
  match si_quota_limit this with
  | None => finish (write_inner buf None 0 shaped this)
  | Some limit =>
      if bool_decide (buf = []) then
        Load (fun used_before =>
          let remaining := sat_sub limit used_before in
          if remaining =? 0 then
            do _ <- give_back_lease shaped this;
            Ret (Some (Ready (Err QuotaIoError)), set_exceeded this)
          else finish (write_inner buf (Some remaining) 0 shaped this))
      else
        do (got, this) <- write_reserve QUOTA_RESERVE_MAX_ROUNDS (Z.of_nat (length buf)) limit shaped this;
        match got with
        | WrReserved remaining reserved => finish (write_inner (take (Z.to_nat reserved) buf) (Some remaining) reserved shaped this)
        | WrLimit => Ret (Some (Ready (Err QuotaIoError)), this)
        | WrPending => Ret (Some Pending, this)
        end
  end.

Definition stats_poll_write (fuel : nat) (buf : list Z) this : Prog (option (RelayPoll nat) * StatsIo X) :=
  if si_quota_exceeded this then Ret (Some (Ready (Err QuotaIoError)), this)
  else if si_traffic_lease this then
    if bool_decide (buf = []) then
      do (_, w) <- poll_wait true Down (si_s2c_wait this);
      write_quota buf 0 (set_s2c_wait w this)
    else
      do (shaped, this) <- shape fuel (Z.of_nat (length buf)) this;
      match shaped with
      | ShapedFuel => Ret (None, this)
      | ShapedPending => Ret (Some Pending, this)
      | ShapedTo g => write_quota (take (Z.to_nat g) buf) g this
      end
  else write_quota buf 0 this.

Definition stats_poll_flush this : IoPoll unit * StatsIo X :=
  let '(p, inner) := poll_flush (si_inner this) in (p, set_inner inner this).

Definition stats_poll_shutdown this : IoPoll unit * StatsIo X :=
  let '(p, inner) := poll_shutdown (si_inner this) in (p, set_inner inner this).
End stats_io.
