(* ===== verification/QuotaIoSpec.v ===== *)
(** What a poll of the debiting stream takes and returns. *)

From stdpp Require Import base list gmap numbers.
From S2P Require Import Net TrafficLimiter Limiter Prelude Stream QuotaProg QuotaIo.
Local Open Scope Z_scope.

Section waits.
Context {X : Type}.
Implicit Types this : StatsIo X.

Lemma wp_record_wait L lease d w g Q : (forall w', ws_sleep w' = ws_sleep w -> Q w' g) -> wp L (record_wait lease d w) g Q.
Proof. intros HQ. unfold record_wait. destruct (ws_started_at w); [destruct lease|]; cbn [wp]; by apply HQ. Qed.

Lemma wp_poll_wait L lease d w g Q :
  (forall (ready : bool) w' g', moves 0 0 0 g g' ->
    (if ready then ws_sleep w' = false /\ g_fired g' = g_fired g + (if ws_sleep w then 1 else 0) else g_woken g' = true) -> Q (ready, w') g') ->
  wp L (poll_wait lease d w) g Q.
Proof.
  intros HQ. unfold poll_wait. destruct (ws_sleep w) eqn:Hs; [|cbn [wp]; apply HQ; [apply moves_refl | split; [done | lia]]].
  cbn [wp]. intros [|]; [|cbn [wp]; apply HQ; [apply moves_timer | cbn; apply orb_true_r]].
  apply wp_bind, wp_record_wait. intros w' Hw'. cbn [wp]. apply HQ; [apply moves_timer|]. split; [done | cbn; lia].
Qed.

(** Only the debt and the wait for it changed. *)
Definition settling this this' : Prop := this' = set_c2s_wait (si_c2s_wait this') (set_debt (si_c2s_rate_debt_bytes this') this).

Lemma wp_settle_loop L n this g : 0 <= si_c2s_rate_debt_bytes this ->
  wp L (settle_loop n this) g (fun '(o, this') g' =>
    settling this this' /\ 0 <= si_c2s_rate_debt_bytes this' /\
    moves 0 (si_c2s_rate_debt_bytes this - si_c2s_rate_debt_bytes this') 0 g g' /\
    match o with
    | Some true => si_c2s_rate_debt_bytes this' = 0
    | Some false => g_woken g' = true
    | None => Z.of_nat n <= si_c2s_rate_debt_bytes this + (g_fired g' - g_fired g)
    end).
Proof.
  revert this g. induction n as [|n IH]; intros this g Hd; cbn [settle_loop].
  all: destruct (Z.eqb_spec (si_c2s_rate_debt_bytes this) 0) as [Hz|Hz];
    [apply wp_bind, wp_poll_wait; intros ready w g' Hm Hr; cbn [wp]; split_and!; [by destruct this | cbn; lia | cbn; by rewrite Z.sub_diag | by destruct ready] |].
  { cbn [wp]. split_and!; [by destruct this | lia | rewrite Z.sub_diag; apply moves_refl | lia]. }
  cbn [wp]. intros c Hc. destruct (Z.ltb_spec 0 (granted c)) as [Hg|Hg].
  - eapply wp_mono; [reflexivity | | apply IH; cbn; unfold sat_sub; lia]. intros [o this'] g' (Hset & Hd' & Hm & Ho).
    cbn [set_debt si_c2s_rate_debt_bytes] in *. assert (sat_sub (si_c2s_rate_debt_bytes this) (granted c) = si_c2s_rate_debt_bytes this - granted c) as Hs
      by (unfold sat_sub; lia). rewrite Hs in *. split_and!; [by rewrite Hset | done | |].
    + eapply moves_trans; [apply (moves_up (granted c)) | exact Hm | lia..].
    + destruct o as [[]|]; [done..|]. cbn [g_add_lease g_fired] in Ho. lia.
  - assert (granted c = 0) as Hc0 by lia. rewrite Hc0. apply wp_bind, wp_poll_wait. intros ready w g1 Hm1 Hr. destruct ready.
    + destruct Hr as [Hw Hf]. eapply wp_mono; [reflexivity | | apply IH; done]. intros [o this'] g' (Hset & Hd' & Hm & Ho).
      cbn [set_c2s_wait si_c2s_rate_debt_bytes] in *. split_and!; [by rewrite Hset | done | |].
      * eapply (moves_trans 0 0 0); [eapply moves_trans; [apply (moves_up 0) | exact Hm1 | lia..] | exact Hm | lia..].
      * destruct o as [[]|]; [done..|]. cbn [arm_wait ws_sleep g_add_lease g_fired] in Hf. lia.
    + cbn [wp]. split_and!; [by destruct this | cbn; lia | | done]. cbn [set_c2s_wait si_c2s_rate_debt_bytes]. rewrite Z.sub_diag.
      eapply moves_trans; [apply (moves_up 0) | exact Hm1 | lia..].
Qed.

Lemma wp_settle L n this g : 0 <= si_c2s_rate_debt_bytes this ->
  wp L (settle_c2s_rate_debt n this) g (fun '(o, this') g' =>
    settling this this' /\ 0 <= si_c2s_rate_debt_bytes this' /\
    moves 0 (if si_traffic_lease this then si_c2s_rate_debt_bytes this - si_c2s_rate_debt_bytes this' else 0) 0 g g' /\
    match o with
    | Some true => si_c2s_rate_debt_bytes this' = 0
    | Some false => g_woken g' = true
    | None => Z.of_nat n <= si_c2s_rate_debt_bytes this + (g_fired g' - g_fired g)
    end).
Proof.
  intros Hd. unfold settle_c2s_rate_debt. destruct (si_traffic_lease this); [by apply wp_settle_loop|].
  cbn [wp]. split_and!; [by destruct this | done | apply moves_refl | done].
Qed.

Lemma wp_arm_quota_wait L this g Q :
  (forall (ready : bool) w g', moves 0 0 0 g g' ->
    (if ready then ws_sleep w = false /\ g_fired g' = g_fired g + 1 else g_woken g' = true) -> Q (ready, set_quota_wait w this) g') ->
  wp L (arm_quota_wait this) g Q.
Proof.
  intros HQ. unfold arm_quota_wait. apply wp_bind, wp_poll_wait. intros ready w g' Hm Hr. cbn [wp]. apply HQ; [done|].
  by destruct ready.
Qed.

Definition waiting this this' : Prop := this' = set_quota_wait (si_quota_wait this') this.

Lemma wp_read_reserve L n rounds desired limit this g : 0 <= desired -> limit <= L -> L <= umax 64 -> (rounds < QUOTA_RESERVE_MAX_ROUNDS)%nat ->
  wp L (read_reserve n rounds desired limit this) g (fun '(got, this') g' =>
    waiting this this' /\ moves (match got with Reserved => desired | _ => 0 end) 0 0 g g' /\
    match got with
    | ReservePending => g_woken g' = true
    | ReserveFuel => Z.of_nat (n + rounds) <= 8 * (1 + g_fired g' - g_fired g)
    | _ => True
    end).
Proof.
  intros Hd Hlim HL. revert rounds this g. induction n as [|n IH]; intros rounds this g Hr; cbn [read_reserve].
  { cbn [wp]. unfold QUOTA_RESERVE_MAX_ROUNDS in Hr. split_and!; [by destruct this | apply moves_refl | lia]. }
  apply wp_bind, wp_spin_reserve; [done..| | |].
  - cbn [wp]. split_and!; [by destruct this | apply moves_quota | done].
  - cbn [wp]. split_and!; [by destruct this | apply moves_refl | done].
  - destruct (Nat.leb_spec QUOTA_RESERVE_MAX_ROUNDS (S rounds)) as [Hmax|Hmax].
    + apply wp_bind, wp_arm_quota_wait. intros ready w g1 Hm1 Hrd. destruct ready.
      * destruct Hrd as [_ Hrd]. eapply wp_mono; [reflexivity | | apply IH; unfold QUOTA_RESERVE_MAX_ROUNDS; lia]. intros [got this'] g' (Hw & Hm & Hg).
        split_and!; [unfold waiting; by rewrite Hw | eapply moves_trans; [exact Hm1 | exact Hm | lia..] |].
        destruct got; try done. unfold QUOTA_RESERVE_MAX_ROUNDS in *. lia.
      * cbn [wp]. split_and!; [by destruct this | done | done].
    + eapply wp_mono; [reflexivity | | apply IH; lia]. intros [got this'] g' (Hw & Hm & Hg). split_and!; [done..|]. destruct got; try done. lia.
Qed.
End waits.

Section read.
Context {X : Type} `{AsyncRead X} (spec : ReaderSpec X).
Implicit Types this : StatsIo X.

Definition moved_bytes {A : Type} (size : A -> nat) (p : RelayPoll A) : Z := match p with Ready (Ok a) => Z.of_nat (size a) | _ => 0 end.

(** What stays the same over a poll. *)
Definition framed this this' : Prop := si_quota_limit this' = si_quota_limit this /\ si_traffic_lease this' = si_traffic_lease this.

Lemma framed_refl this : framed this this.
Proof. done. Qed.
Lemma framed_trans t1 t2 t3 : framed t1 t2 -> framed t2 t3 -> framed t1 t3.
Proof. intros [] []. split; congruence. Qed.
Lemma settling_framed this this' : settling this this' -> framed this this' /\ si_inner this' = si_inner this.
Proof. intros ->. done. Qed.
Lemma waiting_framed this this' : waiting this this' ->
  framed this this' /\ si_inner this' = si_inner this /\ si_c2s_rate_debt_bytes this' = si_c2s_rate_debt_bytes this.
Proof. intros ->. done. Qed.
Lemma since_check_framed remaining n this :
  framed this (since_check remaining n this).2 /\ si_inner (since_check remaining n this).2 = si_inner this /\
  si_c2s_rate_debt_bytes (since_check remaining n this).2 = si_c2s_rate_debt_bytes this.
Proof. unfold since_check. by destruct (should_immediate_quota_check _ _); [|destruct (_ <=? _)]. Qed.

(** The quota and the lease are charged with the bytes that were read; what the
    lease has not granted yet is owed. *)
Record read_post (cap : nat) this (g : Ghost) (p : RelayPoll (list Z)) this' (g' : Ghost) : Prop := mkReadPost {
  rp_framed : framed this this';
  rp_debt : 0 <= si_c2s_rate_debt_bytes this';
  rp_moves : let n := moved_bytes length p in
    moves (match si_quota_limit this with Some _ => n | None => 0 end)
      (if si_traffic_lease this then si_c2s_rate_debt_bytes this + n - si_c2s_rate_debt_bytes this' else 0) 0 g g';
  rp_reader : reader_ok spec (si_inner this');
  rp_data : match p with
    | Ready (Ok bs) => (length bs <= cap)%nat /\ delivered spec (si_inner this') = delivered spec (si_inner this) ++ bs
    | _ => delivered spec (si_inner this') = delivered spec (si_inner this)
    end;
  rp_woken : p = Pending -> g_woken g' = true \/ exists fuel cap, poll_read fuel cap (si_inner this) = Some (Pending, si_inner this');
}.

Lemma wp_after_read L fuel remaining n this g : si_c2s_rate_debt_bytes this = 0 -> 0 <= n <= umax 64 ->
  wp L (after_read fuel remaining n this) g (fun this' g' =>
    framed this this' /\ si_inner this' = si_inner this /\ 0 <= si_c2s_rate_debt_bytes this' /\
    moves 0 (if si_traffic_lease this then n - si_c2s_rate_debt_bytes this' else 0) 0 g g').
Proof.
  intros Hd Hn. unfold after_read. cbv zeta. set (t1 := match remaining with Some _ => _ | None => _ end).
  assert (framed this t1 /\ si_inner t1 = si_inner this /\ si_c2s_rate_debt_bytes t1 = 0) as (Hf1 & Hi1 & Hd1).
  { unfold t1. destruct remaining as [r|]; [|done]. destruct (since_check_framed r n this) as (? & ? & ->). done. }
  clearbody t1. apply wp_seq with (Q := fun t2 g2 => g2 = g /\ framed this t2 /\ si_inner t2 = si_inner this /\ si_c2s_rate_debt_bytes t2 = 0).
  { destruct (si_quota_limit t1); cbn [wp]; [|done]. intros v _. by destruct (_ <=? v). }
  intros t2 g2 (-> & Hf2 & Hi2 & Hd2). cbn [wp]. intros now. cbn [set_counters si_traffic_lease si_c2s_rate_debt_bytes].
  destruct Hf2 as [Hq2 Hl2]. rewrite Hl2. destruct (si_traffic_lease this) eqn:Hlease.
  - rewrite Hd2. assert (sat_add 64 0 n = n) as -> by (unfold sat_add; lia).
    apply wp_bind. eapply wp_mono; [reflexivity | | apply wp_settle; cbn; lia]. intros [o t3] g3 (Hset & Hd3 & Hm & _). cbn [wp].
    cbn [set_debt set_counters si_traffic_lease si_c2s_rate_debt_bytes] in Hm. rewrite Hl2 in Hm.
    apply settling_framed in Hset as [[Hq3 Hl3] Hi3]. cbn in Hq3, Hl3, Hi3. split_and!; [split; congruence | congruence | done | exact Hm].
  - cbn [wp]. split_and!; [split; cbn; congruence | done | cbn; lia | apply moves_refl].
Qed.

(** A refund of what is held beyond [n]. *)
Lemma wp_refund_rest L reserved n g Q : 0 <= n <= reserved -> reserved <= g_quota g ->
  (forall g', moves (n - reserved) 0 0 g g' -> Q tt g') -> wp L (if n <? reserved then refund_reserved_quota_bytes (reserved - n) else Ret tt) g Q.
Proof.
  intros Hn Hg HQ. destruct (Z.ltb_spec n reserved) as [|Hge].
  - apply wp_refund; [lia|]. apply HQ. replace (- (reserved - n)) with (n - reserved) by lia. apply moves_quota.
  - cbn [wp]. apply HQ. replace (n - reserved) with 0 by lia. apply moves_refl.
Qed.

Lemma wp_refund_all L reserved g Q : 0 <= reserved -> reserved <= g_quota g ->
  (forall g', moves (- reserved) 0 0 g g' -> Q tt g') -> wp L (if 0 <? reserved then refund_reserved_quota_bytes reserved else Ret tt) g Q.
Proof. intros Hr Hg HQ. pose proof (wp_refund_rest L reserved 0 g Q) as Hw. rewrite Z.sub_0_r in Hw. apply Hw; [lia | done |]. intros g'. rewrite Z.sub_0_l. apply HQ. Qed.

Lemma wp_read_inner L fuel read_limit remaining reserved cap this g0 g :
  reader_ok spec (si_inner this) -> si_c2s_rate_debt_bytes this = 0 -> (read_limit <= cap)%nat -> Z.of_nat cap <= umax 64 -> 0 <= g_quota g0 ->
  moves reserved 0 0 g0 g -> reserved = (match si_quota_limit this with Some _ => Z.of_nat read_limit | None => 0 end) ->
  wp L (read_inner fuel read_limit remaining reserved this) g (fun '(o, this') g' =>
    match o with
    | None => poll_read fuel read_limit (si_inner this) = None
    | Some p => read_post cap this g0 p this' g' /\ p <> Ready (Err QuotaIoError)
    end).
Proof.
  intros Hok Hd Hcap Hmax Hg0 Hm Hres. unfold read_inner. destruct (poll_read fuel read_limit (si_inner this)) as [[p inner]|] eqn:Hp; [|done].
  destruct (poll_read_spec spec _ _ _ _ _ Hok Hp) as [Hok' Hdata]. pose proof (mv_quota _ _ _ _ _ Hm) as Hq.
  assert (0 <= reserved) as Hr0 by (destruct (si_quota_limit this); lia).
  assert (forall res : RelayPoll (list Z), (forall bs, res <> Ready (Ok bs)) -> res <> Ready (Err QuotaIoError) -> delivered spec inner = delivered spec (si_inner this) ->
    (res = Pending -> p = Pending) ->
    wp L (do _ <- (if 0 <? reserved then refund_reserved_quota_bytes reserved else Ret tt); Ret (Some res, set_inner inner this))%prog g
      (fun '(o, this') g' => match o with
        | Some p => read_post cap this g0 p this' g' /\ p <> Ready (Err QuotaIoError)
        | None => Some (p, inner) = None
        end)) as Hback.
  { intros res Hres' Hnot Hsame Hpend. apply wp_bind, wp_refund_all; [done | lia|]. intros g1 Hm1. cbn [wp].
    assert (moved_bytes length res = 0) as Hn by (destruct res as [|[bs|]]; [done | by destruct (Hres' bs) | done]).
    split; [|done]. constructor; cbn [set_inner si_c2s_rate_debt_bytes si_inner]; [done | lia | | done | by destruct res as [|[bs|]]; [|destruct (Hres' bs)|] |].
    - cbv zeta. rewrite Hn, Hd. destruct (si_quota_limit this), (si_traffic_lease this); (eapply moves_trans; [exact Hm | exact Hm1 | lia..]).
    - intros Hrp. right. exists fuel, read_limit. by rewrite Hp, (Hpend Hrp). }
  destruct p as [|[bs|e]]; [by apply Hback | | by apply Hback].
  destruct Hdata as [Hlen Hdel]. set (n := Z.of_nat (length bs)).
  apply wp_seq with (Q := fun _ g1 => moves (match si_quota_limit this with Some _ => n | None => 0 end) 0 0 g0 g1).
  { destruct (si_quota_limit this) as [limit|]; subst reserved.
    - apply wp_refund_rest; [lia | lia |]. intros g1 Hm1. eapply moves_trans; [exact Hm | exact Hm1 | lia..].
    - rewrite (proj2 (Z.ltb_ge n 0)) by lia. done. }
  intros _ g1 Hm1. apply wp_bind. destruct (Z.ltb_spec 0 n) as [Hn|Hn].
  - eapply wp_mono; [reflexivity | | apply wp_after_read; [done | lia]]. intros this' g2 (Hf & Hi & Hd2 & Hm2). cbn [wp].
    cbn [set_inner si_traffic_lease si_inner] in Hm2, Hi. split; [|done]. constructor; rewrite ?Hi; [exact Hf | exact Hd2 | | exact Hok' | split; [lia | exact Hdel] | done].
    cbv zeta. cbn [moved_bytes]. fold n. rewrite Hd, Z.add_0_l. destruct (si_quota_limit this), (si_traffic_lease this); (eapply moves_trans; [exact Hm1 | exact Hm2 | lia..]).
  - cbn [wp]. split; [|done]. constructor; cbn [set_inner si_c2s_rate_debt_bytes si_inner moved_bytes]; try done; [lia | | split; [lia | done]].
    fold n. rewrite Hd. assert (n = 0) as Hn0 by lia. rewrite Hn0 in *. by destruct (si_quota_limit this), (si_traffic_lease this).
Qed.

(** Rounds are used up only by the stream below, or by timers that keep firing. *)
Definition out_of_rounds (fuel : nat) this (g g' : Ghost) : Prop :=
  (exists cap, poll_read fuel cap (si_inner this) = None) \/ Z.of_nat fuel <= si_c2s_rate_debt_bytes this + 8 * (1 + g_fired g' - g_fired g).

(** The poll did not read: nothing moved but what was owed to the lease. *)
Lemma read_post_none cap this g p this' g' : (forall bs, p <> Ready (Ok bs)) -> framed this this' -> si_inner this' = si_inner this ->
  0 <= si_c2s_rate_debt_bytes this' -> reader_ok spec (si_inner this) ->
  moves 0 (if si_traffic_lease this then si_c2s_rate_debt_bytes this - si_c2s_rate_debt_bytes this' else 0) 0 g g' ->
  (p = Pending -> g_woken g' = true) -> read_post cap this g p this' g'.
Proof.
  intros Hp Hf Hi Hd Hok Hm Hw. assert (moved_bytes length p = 0) as Hn by (destruct p as [|[bs|]]; [done | by destruct (Hp bs) | done]).
  constructor; rewrite ?Hi; try done.
  - cbv zeta. rewrite Hn, Z.add_0_r. by destruct (si_quota_limit this).
  - by destruct p as [|[bs|]]; [|destruct (Hp bs)|].
  - intros Hpend. left. by apply Hw.
Qed.

(** A poll after the debt is settled. *)
Lemma read_post_settled cap this this1 g g1 p this' g' : settling this this1 -> si_c2s_rate_debt_bytes this1 = 0 ->
  moves 0 (if si_traffic_lease this then si_c2s_rate_debt_bytes this - si_c2s_rate_debt_bytes this1 else 0) 0 g g1 ->
  read_post cap this1 g1 p this' g' -> read_post cap this g p this' g'.
Proof.
  intros Hset Hd Hm []. apply settling_framed in Hset as [[Hq Hl] Hi]. rewrite Hd, Hq, Hl, Hi in *. constructor; try done.
  - by eapply framed_trans.
  - cbv zeta in *. destruct (si_traffic_lease this); (eapply moves_trans; [exact Hm | exact rp_moves0 | destruct (si_quota_limit this); lia | lia | lia]).
Qed.

Lemma read_post_waiting cap this this1 g p this' g' : waiting this this1 -> read_post cap this1 g p this' g' -> read_post cap this g p this' g'.
Proof.
  intros Hw []. apply waiting_framed in Hw as ([Hq Hl] & Hi & Hd). rewrite Hq, Hl, Hi, Hd in *. constructor; try done. by eapply framed_trans.
Qed.

Lemma wp_stats_poll_read L fuel cap this g :
  reader_ok spec (si_inner this) -> 0 <= si_c2s_rate_debt_bytes this -> Z.of_nat cap <= umax 64 -> 0 <= g_quota g ->
  default 0 (si_quota_limit this) <= L -> L <= umax 64 ->
  wp L (stats_poll_read fuel cap this) g (fun '(o, this') g' =>
    match o with
    | Some p => read_post cap this g p this' g' /\ (p = Ready (Err QuotaIoError) -> si_quota_exceeded this' = true)
    | None => out_of_rounds fuel this g g'
    end).
Proof.
  intros Hok Hd Hcap Hg Hlim HL. unfold stats_poll_read. destruct (si_quota_exceeded this) eqn:Hex.
  { cbn [wp]. split; [|done]. apply read_post_none; try done. rewrite Z.sub_diag. destruct (si_traffic_lease this); apply moves_refl. }
  eapply wp_seq; [by apply wp_settle|]. intros [o this1] g1 (Hset & Hd1 & Hm1 & Ho). cbn beta iota.
  pose proof (settling_framed _ _ Hset) as [[Hq1 Hl1] Hi1]. pose proof (mv_quota _ _ _ _ _ Hm1) as Hgq. pose proof (mv_fired _ _ _ _ _ Hm1) as Hgf.
  destruct o as [[|]|]; cycle 1.
  { cbn [wp]. split; [|done]. by apply read_post_none. }
  { cbn [wp]. right. lia. }
  destruct (Nat.eqb_spec cap 0) as [->|Hc0].
  { destruct (poll_read fuel 0 (si_inner this1)) as [[p inner]|] eqn:Hp; cbn [wp]; [|left; exists 0%nat; by rewrite <- Hi1].
    rewrite Hi1 in Hp. destruct (poll_read_spec spec _ _ _ _ _ Hok Hp) as [Hok' Hdata].
    assert (moved_bytes length (from_inner p) = 0) as Hn by (destruct p as [|[bs|]]; cbn; lia).
    split; [|by destruct p as [|[|]]]. eapply read_post_settled; [done..|].
    constructor; cbn [set_inner si_inner si_c2s_rate_debt_bytes]; [done | lia | | done | |].
    - cbv zeta. rewrite Hn, Ho. destruct (si_quota_limit this1), (si_traffic_lease this1); apply moves_refl.
    - rewrite Hi1. destruct p as [|[bs|]]; done.
    - intros Hpend. right. exists fuel, 0%nat. rewrite Hi1, Hp. by destruct p as [|[|]]. }
  destruct (si_quota_limit this1) as [limit|] eqn:Hlimit.
  2:{ eapply wp_mono; [reflexivity | | eapply (wp_read_inner L fuel cap None 0 cap this1 g1 g1)]; try done; [|by rewrite Hi1 | lia | apply moves_refl | by rewrite Hlimit].
      intros [[p|] this'] g' Hpost; [|left; exists cap; by rewrite <- Hi1]. destruct Hpost as [Hpost Hne]. split; [by eapply read_post_settled | done]. }
  cbn [wp]. intros used _. cbv zeta. destruct (Z.eqb_spec (sat_sub limit used) 0) as [Hrem|Hrem].
  { cbn [wp]. split; [|done]. apply read_post_none; try done. split; cbn; congruence. }
  assert (limit <= L) as HlimL by (rewrite <- Hq1 in Hlim; exact Hlim). unfold sat_sub in Hrem.
  set (read_limit := Z.to_nat (Z.min (Z.of_nat cap) (sat_sub limit used))). assert (read_limit <= cap)%nat by (unfold read_limit; lia).
  eapply wp_seq; [apply wp_read_reserve; [lia | done | done | unfold QUOTA_RESERVE_MAX_ROUNDS; lia]|].
  intros [got this2] g2 (Hw2 & Hm2 & Hgot). cbn beta iota. pose proof (waiting_framed _ _ Hw2) as ([Hq2 Hl2] & Hi2 & Hd2). pose proof (mv_fired _ _ _ _ _ Hm2).
  destruct got.
  - eapply wp_mono; [reflexivity | | eapply (wp_read_inner L fuel read_limit _ _ cap this2 g1 g2)]; try done;
      [| by rewrite Hi2, Hi1 | by rewrite Hd2 | lia | by rewrite Hq2, Hlimit].
    intros [[p|] this'] g' Hpost; [|left; exists read_limit; by rewrite <- Hi1, <- Hi2]. destruct Hpost as [Hpost Hne].
    split; [|done]. eapply read_post_settled; [done..|]. by eapply read_post_waiting.
  - cbn [wp]. split; [|done]. apply read_post_none; try done; cbn [set_exceeded si_inner si_c2s_rate_debt_bytes];
      [split; cbn; congruence | congruence | lia |]. rewrite Hd2. eapply moves_trans; [exact Hm1 | exact Hm2 | lia..].
  - cbn [wp]. split; [|done]. apply read_post_none; try done; [split; congruence | congruence | lia |].
    rewrite Hd2. eapply moves_trans; [exact Hm1 | exact Hm2 | lia..].
  - cbn [wp]. right. lia.
Qed.
End read.

Section write.
Context {X : Type} `{AsyncWrite X} (spec : WriterSpec X).
Implicit Types this : StatsIo X.

(** The timer for a contended quota fired when it was polled. *)
Definition timer_spent this : Prop := ws_sleep (si_quota_wait this) = false.

(** The quota and the lease are charged with the bytes that were written. *)
Record write_post (buf : list Z) this (g : Ghost) (p : RelayPoll nat) this' (g' : Ghost) : Prop := mkWritePost {
  wpo_framed : framed this this';
  wpo_debt : si_c2s_rate_debt_bytes this' = si_c2s_rate_debt_bytes this;
  wpo_moves : let n := moved_bytes id p in
    moves (match si_quota_limit this with Some _ => n | None => 0 end) 0 (if si_traffic_lease this then n else 0) g g';
  wpo_data : match p with
    | Ready (Ok k) => (k <= length buf)%nat /\ writer_ok spec (si_inner this') /\ accepted spec (si_inner this') = accepted spec (si_inner this) ++ take k buf
    | Ready (Err (InnerError e)) => exists part, poll_write part (si_inner this) = (Ready (Err e), si_inner this')
    | _ => writer_ok spec (si_inner this') /\ accepted spec (si_inner this') = accepted spec (si_inner this)
    end;
  wpo_woken : p = Pending -> g_woken g' = true \/ (exists buf, poll_write buf (si_inner this) = (Pending, si_inner this')) \/ timer_spent this';
}.

Lemma wp_lease_refund L bytes this g Q : 0 <= bytes ->
  (forall g', moves 0 0 (if si_traffic_lease this then - bytes else 0) g g' -> Q tt g') -> wp L (give_back_lease bytes this) g Q.
Proof.
  intros Hb HQ. unfold give_back_lease. destruct (si_traffic_lease this); cbn [wp]; [split; [done|]; apply HQ, moves_down | apply HQ, moves_refl].
Qed.

Definition shaping this this' : Prop := this' = set_s2c_wait (si_s2c_wait this') this.

Lemma wp_shape L n len this g : 0 <= len ->
  wp L (shape n len this) g (fun '(o, this') g' =>
    shaping this this' /\ moves 0 0 (match o with ShapedTo gr => gr | _ => 0 end) g g' /\
    match o with
    | ShapedTo gr => 0 < gr <= len
    | ShapedPending => g_woken g' = true
    | ShapedFuel => Z.of_nat n <= g_fired g' - g_fired g
    end).
Proof.
  intros Hlen. revert this g. induction n as [|n IH]; intros this g; cbn [shape wp].
  { split_and!; [by destruct this | apply moves_refl | lia]. }
  intros c Hc. destruct (Z.ltb_spec 0 (granted c)) as [Hg|Hg].
  - apply wp_bind, wp_poll_wait. intros ready w g' Hm _. cbn [wp]. split_and!; [by destruct this | | lia..].
    eapply moves_trans; [apply (moves_down (granted c)) | exact Hm | lia..].
  - assert (granted c = 0) as Hc0 by lia. rewrite Hc0. apply wp_bind, wp_poll_wait. intros ready w g1 Hm1 Hr.
    assert (moves 0 0 0 g g1) as Hm by (eapply moves_trans; [apply (moves_down 0) | exact Hm1 | lia..]). destruct ready.
    + destruct Hr as [_ Hf]. eapply wp_mono; [reflexivity | | apply IH]. intros [o this'] g' (Hs & Hm2 & Ho).
      split_and!; [unfold shaping; by rewrite Hs | eapply moves_trans; [exact Hm | exact Hm2 | lia..] |].
      destruct o; try done. cbn [arm_wait ws_sleep g_add_lease g_fired] in Hf. lia.
    + cbn [wp]. split_and!; [by destruct this | done | done].
Qed.

Definition reserve_post (len shaped : Z) this (g : Ghost) : WriteReserve * StatsIo X -> Ghost -> Prop := fun '(o, this') g' =>
  match o with
  | WrReserved _ reserved => this' = this /\ moves reserved 0 0 g g' /\ 0 < reserved <= len
  | WrLimit => this' = set_exceeded this /\ moves 0 0 (if si_traffic_lease this then - shaped else 0) g g'
  | WrPending => waiting this this' /\ moves 0 0 (if si_traffic_lease this then - shaped else 0) g g' /\ (g_woken g' = true \/ timer_spent this')
  end.

Lemma wp_reserve_pending L len shaped this g : 0 <= shaped ->
  wp L (do _ <- give_back_lease shaped this; do (_, this) <- arm_quota_wait this; Ret (WrPending, this))%prog g (reserve_post len shaped this g).
Proof.
  intros Hs. apply wp_bind, wp_lease_refund; [done|]. intros g1 Hm1. apply wp_bind, wp_arm_quota_wait. intros ready w g2 Hm2 Hr. cbn [wp reserve_post].
  split_and!; [by destruct this | eapply moves_trans; [exact Hm1 | exact Hm2 | lia..] |]. destruct ready; [right; apply Hr | by left].
Qed.

Lemma wp_write_reserve L rounds len limit shaped this g : 0 < len -> 0 <= shaped -> limit <= L -> L <= umax 64 ->
  wp L (write_reserve rounds len limit shaped this) g (reserve_post len shaped this g).
Proof.
  intros Hlen Hs Hlim HL. revert g. induction rounds as [|rounds IH]; intros g; cbn [write_reserve wp]; intros used _; cbv zeta.
  all: destruct (Z.eqb_spec (sat_sub limit used) 0) as [Hrem|Hrem];
    [apply wp_bind, wp_lease_refund; [done|]; intros g1 Hm1; by cbn [wp]|]; unfold sat_sub in Hrem.
  all: assert (0 < Z.min (sat_sub limit used) len <= len) as Hdes by (unfold sat_sub; lia).
  all: apply wp_bind, wp_spin_reserve; [lia | done | done | cbn [wp reserve_post]; split_and!; [done | apply moves_quota | lia..] | |].
  1,2: by apply wp_reserve_pending.
  all: destruct rounds; [by apply wp_reserve_pending | apply IH].
Qed.

Lemma wp_lease_rest L shaped n this g Q : 0 <= n -> (si_traffic_lease this = true -> n <= shaped) -> (si_traffic_lease this = false -> shaped = 0) ->
  (forall g', moves 0 0 (if si_traffic_lease this then n - shaped else 0) g g' -> Q tt g') ->
  wp L (if n <? shaped then give_back_lease (shaped - n) this else Ret tt) g Q.
Proof.
  intros Hn Hl Hno HQ. destruct (Z.ltb_spec n shaped) as [Hlt|Hge].
  - apply wp_lease_refund; [lia|]. intros g'. replace (- (shaped - n)) with (n - shaped) by lia. apply HQ.
  - cbn [wp]. apply HQ. destruct (si_traffic_lease this); [replace (n - shaped) with 0 by (specialize (Hl eq_refl); lia)|]; apply moves_refl.
Qed.

Lemma wp_after_write L remaining n this g :
  wp L (after_write remaining n this) g (fun this' g' =>
    framed this this' /\ si_inner this' = si_inner this /\ si_c2s_rate_debt_bytes this' = si_c2s_rate_debt_bytes this /\ moves 0 0 0 g g').
Proof.
  unfold after_write. apply wp_seq with (Q := fun t2 g2 => g2 = g /\ framed this t2 /\ si_inner t2 = si_inner this /\
    si_c2s_rate_debt_bytes t2 = si_c2s_rate_debt_bytes this).
  { destruct (si_traffic_lease this) eqn:Hl; [|done]. apply wp_bind, wp_record_wait. intros w _. cbn [wp]. done. }
  intros t2 g2 (-> & [Hq Hl] & Hi & Hd). cbn [wp]. intros now. cbv zeta. cbn [set_counters si_quota_limit].
  destruct (si_quota_limit t2) as [limit|] eqn:Hlim, remaining as [r|]; cbn [wp]; try (split_and!; [split; cbn; congruence | done | done | apply moves_refl]).
  pose proof (since_check_framed r n (set_counters (touch now (si_epoch t2) (count_s2c n (si_counters t2))) t2)) as ([Hq3 Hl3] & Hi3 & Hd3).
  destruct (since_check r n _) as [check t3]. cbn [snd] in *. cbn in Hq3, Hl3, Hi3, Hd3.
  destruct check; cbn [wp]; [intros used _; destruct (limit <=? used)|]; cbn; (split_and!; [split; cbn; congruence | congruence | congruence | apply moves_refl]).
Qed.

Lemma wp_write_inner L buf remaining reserved shaped this g0 g :
  writer_ok spec (si_inner this) -> 0 <= g_quota g0 ->
  reserved = (match si_quota_limit this with Some _ => Z.of_nat (length buf) | None => 0 end) ->
  (si_traffic_lease this = true -> Z.of_nat (length buf) <= shaped) -> (si_traffic_lease this = false -> shaped = 0) ->
  moves reserved 0 (if si_traffic_lease this then shaped else 0) g0 g ->
  wp L (write_inner buf remaining reserved shaped this) g (fun '(p, this') g' => write_post buf this g0 p this' g' /\ p <> Ready (Err QuotaIoError)).
Proof.
  intros Hok Hg0 Hres Hl Hno Hm. unfold write_inner. destruct (poll_write buf (si_inner this)) as [p inner] eqn:Hp.
  pose proof (poll_write_spec spec _ _ _ _ Hok Hp) as Hspec. pose proof (mv_quota _ _ _ _ _ Hm) as Hq. cbv zeta.
  assert (0 <= reserved) as Hr0 by (destruct (si_quota_limit this); lia). assert (si_traffic_lease this = true -> 0 <= shaped) as Hs0 by (intros; lia || (specialize (Hl ltac:(done)); lia)).
  assert (forall res : RelayPoll nat, moved_bytes id res = 0 -> res <> Ready (Err QuotaIoError) ->
    (match res with
     | Ready (Ok k) => (k <= length buf)%nat /\ writer_ok spec inner /\ accepted spec inner = accepted spec (si_inner this) ++ take k buf
     | Ready (Err (InnerError e)) => exists part, poll_write part (si_inner this) = (Ready (Err e), inner)
     | _ => writer_ok spec inner /\ accepted spec inner = accepted spec (si_inner this)
     end) -> (res = Pending -> p = Pending) ->
    wp L (do _ <- (do _ <- (if 0 <? reserved then refund_reserved_quota_bytes reserved else Ret tt);
                   if 0 <? shaped then give_back_lease shaped (set_inner inner this) else Ret tt);
          Ret (res, set_inner inner this))%prog g
      (fun '(p, this') g' => write_post buf this g0 p this' g' /\ p <> Ready (Err QuotaIoError))) as Hback.
  { intros res Hn Hne Hd Hpend. apply wp_bind, wp_bind, wp_refund_all; [done | lia|]. intros g1 Hm1.
    pose proof (wp_lease_rest L shaped 0 (set_inner inner this) g1) as Hlease. rewrite Z.sub_0_r in Hlease. apply Hlease; [lia | done | done |]. clear Hlease.
    intros g2 Hm2. cbn [wp]. split; [|done]. constructor; [done | done | | done |].
    - cbv zeta. rewrite Hn. cbn [set_inner si_traffic_lease] in Hm2.
      assert (moves 0 0 (if si_traffic_lease this then shaped else 0) g0 g1) as Hm01 by (eapply moves_trans; [exact Hm | exact Hm1 | lia..]).
      eapply moves_trans; [exact Hm01 | exact Hm2 | destruct (si_quota_limit this); lia | lia | destruct (si_traffic_lease this); lia].
    - intros Hrp. right. left. exists buf. rewrite Hp, (Hpend Hrp). done. }
  destruct p as [|[k|e]]; [by apply Hback | | by apply Hback; [| |exists buf|]]. destruct Hspec as (Hok' & Hk & Hacc).
  set (n := Z.of_nat k).
  apply wp_seq with (Q := fun _ g1 => moves (match si_quota_limit this with Some _ => n | None => 0 end) 0 (if si_traffic_lease this then shaped else 0) g0 g1).
  { destruct (si_quota_limit this) as [limit|]; subst reserved.
    - apply wp_refund_rest; [lia | lia|]. intros g1 Hm1. eapply moves_trans; [exact Hm | exact Hm1 | lia..].
    - rewrite (proj2 (Z.ltb_ge n 0)) by lia. done. }
  intros _ g1 Hm1. apply wp_bind, wp_lease_rest; [lia | intros Hlt; specialize (Hl Hlt); lia | done|]. intros g2 Hm2. cbn [set_inner si_traffic_lease] in Hm2.
  assert (moves (match si_quota_limit this with Some _ => n | None => 0 end) 0 (if si_traffic_lease this then n else 0) g0 g2) as Hm12.
  { eapply moves_trans; [exact Hm1 | exact Hm2 | lia | lia |]. destruct (si_traffic_lease this); lia. }
  apply wp_bind. destruct (Z.ltb_spec 0 n) as [Hn|Hn].
  - eapply wp_mono; [reflexivity | | apply wp_after_write]. intros this' g3 (Hf & Hi & Hd & Hm3). cbn [wp]. split; [|done].
    cbn [set_inner si_inner] in Hi. constructor; rewrite ?Hi; [exact Hf | exact Hd | | done | done]. eapply moves_trans; [exact Hm12 | exact Hm3 | cbn [moved_bytes]; unfold id; fold n; lia..].
  - cbn [wp]. split; [|done]. constructor; try done.
Qed.

(** A write of a part of the buffer, from a later state, is a write of the buffer. *)
Lemma write_post_part buf part this t g g1 p this' g' :
  (exists m, part = take m buf) -> framed this t -> si_inner t = si_inner this -> si_c2s_rate_debt_bytes t = si_c2s_rate_debt_bytes this ->
  moves 0 0 0 g g1 -> write_post part t g1 p this' g' -> write_post buf this g p this' g'.
Proof.
  intros [m ->] [Hq Hl] Hi Hd Hm [[Hq' Hl'] Hd' Hm' Hdata Hw]. cbv zeta in Hm'. rewrite Hi in Hdata, Hw. constructor; cbv zeta.
  - split; congruence.
  - congruence.
  - rewrite <- Hq, <- Hl. eapply moves_trans; [exact Hm | exact Hm' | lia..].
  - destruct p as [|[k|e]]; try done. destruct Hdata as (Hk & Hok & Ha). rewrite length_take in Hk.
    split_and!; [lia | done|]. by rewrite Ha, take_take, Nat.min_l by lia.
  - done.
Qed.

(** The quota part leaves the lease charged with what was written, when it
    was charged with [shaped] before. *)
Lemma wp_write_quota L buf shaped this g0 g :
  writer_ok spec (si_inner this) -> 0 <= g_quota g0 -> (forall limit, si_quota_limit this = Some limit -> limit <= L) -> L <= umax 64 ->
  (si_traffic_lease this = true -> Z.of_nat (length buf) <= shaped) -> (si_traffic_lease this = false -> shaped = 0) ->
  moves 0 0 (if si_traffic_lease this then shaped else 0) g0 g ->
  wp L (write_quota buf shaped this) g (fun '(o, this') g' => exists p, o = Some p /\ write_post buf this g0 p this' g').
Proof.
  intros Hok Hg0 HlimL HL Hl Hno Hm. unfold write_quota. cbv zeta.
  assert (0 <= shaped) as Hs0 by (destruct (si_traffic_lease this); [specialize (Hl eq_refl) | specialize (Hno eq_refl)]; lia).
  destruct (si_quota_limit this) as [limit|] eqn:Hlim.
  2:{ apply wp_bind. eapply wp_mono; [reflexivity | | by apply (wp_write_inner L buf None 0 shaped this g0 g); rewrite ?Hlim].
      intros [p this'] g' [Hp _]. cbn [wp]. by exists p. }
  specialize (HlimL _ eq_refl).
  assert (forall this' g2, this' = set_exceeded this -> moves 0 0 (if si_traffic_lease this then - shaped else 0) g g2 ->
    exists p, Some (Ready (Err QuotaIoError)) = Some p /\ write_post buf this g0 p this' g2) as Hover.
  { intros this' g2 -> Hm2. eexists; split; [done|]. constructor; [done | done | | done | done]. cbv zeta. rewrite Hlim. cbn [moved_bytes].
    eapply moves_trans; [exact Hm | exact Hm2 | lia | lia | destruct (si_traffic_lease this); lia]. }
  case_bool_decide as Hb.
  - cbn [wp]. intros used _. destruct (Z.eqb_spec (sat_sub limit used) 0).
    + apply wp_bind, wp_lease_refund; [done|]. intros g1 Hm1. cbn [wp]. by apply Hover.
    + apply wp_bind. eapply wp_mono; [reflexivity | | apply (wp_write_inner L buf (Some (sat_sub limit used)) 0 shaped this g0 g); rewrite ?Hlim; subst; try done].
      intros [p this'] g' [Hp _]. cbn [wp]. by exists p.
  - assert (0 < Z.of_nat (length buf)) as Hlen by (destruct buf; [done | cbn; lia]).
    apply wp_bind. eapply wp_mono; [reflexivity | | by apply wp_write_reserve]. intros [o t] g1 Ho. destruct o as [remaining reserved| |]; cbn [reserve_post] in Ho.
    + destruct Ho as (-> & Hm1 & Hr). apply wp_bind.
      eapply wp_mono; [reflexivity | | apply (wp_write_inner L (take (Z.to_nat reserved) buf) (Some remaining) reserved shaped this g0 g1)]; rewrite ?Hlim, ?length_take; try done.
      * intros [p this'] g' [Hp _]. cbn [wp]. exists p. split; [done|]. eapply write_post_part; [by eexists | done | done | done | apply moves_refl | exact Hp].
      * lia.
      * intros Ht. specialize (Hl Ht). lia.
      * eapply moves_trans; [exact Hm | exact Hm1 | lia..].
    + destruct Ho as [-> Hm1]. cbn [wp]. by apply Hover.
    + destruct Ho as (Hw & Hm1 & Hpend). cbn [wp]. exists Pending. split; [done|]. rewrite Hw. constructor; try done.
      * cbv zeta. rewrite Hlim. cbn [moved_bytes]. eapply moves_trans; [exact Hm | exact Hm1 | lia | lia | destruct (si_traffic_lease this); lia].
      * intros _. rewrite <- Hw. tauto.
Qed.

Lemma wp_stats_poll_write L fuel buf this g :
  writer_ok spec (si_inner this) -> 0 <= g_quota g -> (forall limit, si_quota_limit this = Some limit -> limit <= L) -> L <= umax 64 ->
  wp L (stats_poll_write fuel buf this) g (fun '(o, this') g' =>
    match o with
    | Some p => write_post buf this g p this' g'
    | None => shaping this this' /\ moves 0 0 0 g g' /\ Z.of_nat fuel <= g_fired g' - g_fired g
    end).
Proof.
  intros Hok Hg HlimL HL. unfold stats_poll_write. destruct (si_quota_exceeded this) eqn:Hex.
  { cbn [wp]. constructor; try done. cbv zeta. cbn [moved_bytes]. destruct (si_quota_limit this), (si_traffic_lease this); apply moves_refl. }
  destruct (si_traffic_lease this) eqn:Hl.
  2:{ eapply wp_mono; [reflexivity | | apply (wp_write_quota L buf 0 this g g)]; rewrite ?Hl; try done; [|apply moves_refl]. intros [o this'] g' (p & -> & Hp). done. }
  case_bool_decide as Hb.
  - apply wp_bind, wp_poll_wait. intros ready w g1 Hm1 _.
    eapply wp_mono; [reflexivity | | apply (wp_write_quota L buf 0 (set_s2c_wait w this) g1 g1)]; cbn [set_s2c_wait si_inner si_quota_limit si_traffic_lease]; rewrite ?Hl; try done.
    + intros [o this'] g' (p & -> & Hp). eapply (write_post_part buf buf); [exists (length buf); by rewrite firstn_all | | | | exact Hm1 | exact Hp]; done.
    + rewrite (mv_quota _ _ _ _ _ Hm1). lia.
    + by subst buf.
    + apply moves_refl.
  - apply wp_bind. eapply wp_mono; [reflexivity | | apply wp_shape; lia]. intros [o t] g1 (Hs & Hm1 & Ho). destruct o as [gr| |].
    + rewrite Hs. eapply wp_mono; [reflexivity | | apply (wp_write_quota L (take (Z.to_nat gr) buf) gr _ g g1)]; cbn [set_s2c_wait si_inner si_quota_limit si_traffic_lease]; rewrite ?Hl, ?length_take; try done.
      * intros [o this'] g' (p & -> & Hp). eapply write_post_part; [by eexists | | | | apply moves_refl | exact Hp]; done.
      * lia.
    + cbn [wp]. rewrite Hs. constructor; try done; [|intros _; by left]. cbv zeta. cbn [moved_bytes]. destruct (si_quota_limit this); rewrite Hl; exact Hm1.
    + cbn [wp]. done.
Qed.
End write.
