(* ===== verification/QuotaMiddle.v ===== *)
(** Quota and rate budget of the middle relay (proxy/middle_relay/quota.rs): a
    reservation that backs off under contention, and the wait for the traffic
    lease. *)

From stdpp Require Import base list gmap numbers.
From S2P Require Import Net TrafficLimiter Limiter Prelude Stream ClientWrite QuotaProg.
Local Open Scope Z_scope.
Local Open Scope prog_scope.

Definition QUOTA_RESERVE_SPIN_RETRIES : nat := 32.
Definition QUOTA_RESERVE_BACKOFF_MIN_MS : Z := 1.
Definition QUOTA_RESERVE_BACKOFF_MAX_MS : Z := 16.
Definition QUOTA_RESERVE_MAX_BACKOFF_ROUNDS : nat := 16.

Inductive MiddleQuotaReserveError := MqLimitExceeded | MqContended | MqCancelled | MqDeadlineExceeded.

(** The errors of [ProxyError] that end a middle session's tasks; a reservation
    that failed without reaching the limit is a [Proxy] error with a message.
    [WaitUnfinished] is no error of the code: the model's bound on the rounds of a
    wait was too small. *)
Inductive MiddleError :=
  | DataQuotaExceeded
  | QuotaFailed (e : MiddleQuotaReserveError)
  | TrafficBudgetWaitDeadlineExceeded
  | TrafficBudgetWaitCancelled
  | ClientWriteFailed (e : WriteError)
  | MiddleConnectionLost
  | WaitUnfinished.

Definition quota_soft_cap (limit overshoot : Z) : Z := sat_add 64 limit overshoot.

(** [deadline.is_some_and(|deadline| Instant::now() >= deadline)] *)
Definition deadline_passed {A} (deadline : option Instant) (k : bool -> Prog A) : Prog A :=
  match deadline with
  | Some d => Now (fun now => k (d <=? now))
  | None => k false
  end.

(** [rounds] more rounds of attempts, each but the last followed by another. *)
Fixpoint reserve_rounds (rounds : nat) (backoff_ms bytes limit : Z) (deadline : option Instant) : Prog (result MiddleQuotaReserveError unit) :=
  match rounds with
  | O => Ret (Err MqContended)
  | S rounds =>
      do r <- spin_reserve QUOTA_RESERVE_SPIN_RETRIES bytes limit;
      match r with
      | SpinReserved => Ret (Ok tt)
      | SpinLimit => Ret (Err MqLimitExceeded)
      | SpinContended =>
          deadline_passed deadline (fun passed =>
            if passed then Ret (Err MqDeadlineExceeded)
            else Sleep backoff_ms (fun cancelled =>
              if cancelled then Ret (Err MqCancelled)
              else match rounds with
                   | O => Ret (Err MqContended)
                   | S _ => reserve_rounds rounds (Z.min (sat_mul 64 backoff_ms 2) QUOTA_RESERVE_BACKOFF_MAX_MS) bytes limit deadline
                   end))
      end
  end.

Definition reserve_user_quota_with_yield (bytes limit : Z) (deadline : option Instant) : Prog (result MiddleQuotaReserveError unit) :=
  reserve_rounds QUOTA_RESERVE_MAX_BACKOFF_ROUNDS QUOTA_RESERVE_BACKOFF_MIN_MS bytes limit deadline.

(** The loop of both waits: at most [fuel] rounds, in each of which the lease grants
    something or the task sleeps until the next refill. *)
Fixpoint budget_loop (may_cancel : bool) (epoch_start : Instant) (fuel : nat) (d : RateDirection) (remaining : Z) (deadline : option Instant)
    : Prog (result MiddleError unit) :=
  if remaining <=? 0 then Ret (Ok tt)
  else
    match fuel with
    | O => Ret (Err WaitUnfinished)
    | S fuel =>
        Consume d remaining (fun consume =>
          if 0 <? granted consume then budget_loop may_cancel epoch_start fuel d (sat_sub remaining (granted consume)) deadline
          else
            Now (fun wait_started_at =>
              if match deadline with Some dl => dl <=? wait_started_at | None => false end then Ret (Err TrafficBudgetWaitDeadlineExceeded)
              else Now (fun now =>
                Sleep (next_refill_delay ((now - epoch_start) / 1000000)) (fun cancelled =>
                  if may_cancel && cancelled then Ret (Err TrafficBudgetWaitCancelled)
                  else Observe d (blocked_user consume) (blocked_cidr consume)
                    (budget_loop may_cancel epoch_start fuel d remaining deadline)))))
    end.

Definition wait_for_traffic_budget (epoch_start : Instant) (fuel : nat) (lease : bool) (d : RateDirection) (bytes : Z)
    (deadline : option Instant) : Prog (result MiddleError unit) :=
  if bytes =? 0 then Ret (Ok tt)
  else if lease then budget_loop false epoch_start fuel d bytes deadline
  else Ret (Ok tt).

Definition wait_for_traffic_budget_or_cancel (epoch_start : Instant) (fuel : nat) (lease : bool) (d : RateDirection) (bytes : Z)
    (deadline : option Instant) : Prog (result MiddleError unit) :=
  if bytes =? 0 then Ret (Ok tt)
  else if lease then budget_loop true epoch_start fuel d bytes deadline
  else Ret (Ok tt).

(** * What they take *)

Lemma wp_reserve_rounds L rounds backoff bytes limit deadline g Q :
  0 <= bytes -> limit <= L -> L <= umax 64 ->
  (forall g', moves bytes 0 0 g g' -> Q (Ok tt) g') ->
  (forall e g', moves 0 0 0 g g' -> g_fired g' - g_fired g <= Z.of_nat rounds -> (deadline = None -> e <> MqDeadlineExceeded) -> Q (Err e) g') ->
  wp L (reserve_rounds rounds backoff bytes limit deadline) g Q.
Proof.
  intros Hb Hlim HL Hok. revert backoff g Hok. induction rounds as [|rounds IH]; intros backoff g Hok Herr; cbn [reserve_rounds].
  { cbn [wp]. apply Herr; [apply moves_refl | lia | done]. }
  apply wp_bind, wp_spin_reserve; try done; cbn [wp].
  - apply Hok, moves_quota.
  - apply Herr; [apply moves_refl | lia | done].
  - assert (forall passed : bool, (deadline = None -> passed = false) ->
      wp L (if passed then Ret (Err MqDeadlineExceeded)
            else Sleep backoff (fun cancelled => if cancelled then Ret (Err MqCancelled)
              else match rounds with
                   | O => Ret (Err MqContended)
                   | S _ => reserve_rounds rounds (Z.min (sat_mul 64 backoff 2) QUOTA_RESERVE_BACKOFF_MAX_MS) bytes limit deadline
                   end)) g Q) as Hrest.
    { intros passed Hp. destruct passed; cbn [wp].
      { apply Herr; [apply moves_refl | lia |]. intros Hd. by specialize (Hp Hd). }
      assert (g_fired (g_timer true g) = g_fired g + 1) as Hf by done.
      intros cancelled. destruct cancelled; cbn [wp]; [apply Herr; [apply moves_timer | lia | done]|].
      destruct rounds; cbn [wp]; [apply Herr; [apply moves_timer | lia | done]|].
      apply IH; [intros g' Hm; apply Hok; chain (moves_timer true g)|].
      intros e g' Hm Hle He. apply Herr; [chain (moves_timer true g) | lia | done]. }
    unfold deadline_passed. destruct deadline as [dl|]; [intros t; by apply Hrest | by apply (Hrest false)].
Qed.

Lemma wp_reserve_user_quota L bytes limit deadline g Q :
  0 <= bytes -> limit <= L -> L <= umax 64 ->
  (forall g', moves bytes 0 0 g g' -> Q (Ok tt) g') ->
  (forall e g', moves 0 0 0 g g' -> g_fired g' - g_fired g <= 16 -> (deadline = None -> e <> MqDeadlineExceeded) -> Q (Err e) g') ->
  wp L (reserve_user_quota_with_yield bytes limit deadline) g Q.
Proof. intros. by apply wp_reserve_rounds. Qed.

(** The lease moved by [n] in the direction [d]. *)
Definition leased (d : RateDirection) (n : Z) (g g' : Ghost) : Prop :=
  match d with Up => moves 0 n 0 g g' | Down => moves 0 0 n g g' end.

Lemma leased_trans d n m g1 g2 g3 k : leased d n g1 g2 -> leased d m g2 g3 -> k = n + m -> leased d k g1 g3.
Proof. destruct d; cbn; intros H1 H2 Hk; eapply moves_trans; eauto; lia. Qed.

Lemma leased_0 d g g' : moves 0 0 0 g g' -> leased d 0 g g'.
Proof. by destruct d. Qed.

Lemma leased_consume d n g : leased d n g (g_add_lease d n g).
Proof. destruct d; cbn; auto with moves. Qed.

Lemma leased_fired d n g g' : leased d n g g' -> g_fired g <= g_fired g'.
Proof. destruct d; cbn; by intros []. Qed.

(** How a wait for [bytes] of the lease ends: what was granted before a wait that
    failed stays granted. *)
Definition budget_post (may_cancel : bool) (fuel : nat) (d : RateDirection) (bytes : Z) (deadline : option Instant) (g : Ghost)
    (res : result MiddleError unit) (g' : Ghost) : Prop :=
  match res with
  | Ok _ => leased d bytes g g'
  | Err e =>
      (exists n, 0 <= n < bytes /\ leased d n g g') /\
      match e with
      | TrafficBudgetWaitDeadlineExceeded => deadline <> None
      | TrafficBudgetWaitCancelled => may_cancel = true
      | WaitUnfinished => Z.of_nat fuel <= bytes + (g_fired g' - g_fired g)
      | _ => False
      end
  end.

Lemma wp_budget_loop L may_cancel start fuel d bytes deadline g : 0 <= bytes ->
  wp L (budget_loop may_cancel start fuel d bytes deadline) g (budget_post may_cancel fuel d bytes deadline g).
Proof.
  intros Hb. revert bytes g Hb. induction fuel as [|fuel IH]; intros bytes g Hb; cbn [budget_loop].
  all: destruct (Z.leb_spec bytes 0) as [Hz|Hz]; [cbn [wp budget_post]; assert (bytes = 0) as -> by lia; apply leased_0, moves_refl|].
  { cbn [wp budget_post]. split; [exists 0; split; [lia | apply leased_0, moves_refl] | lia]. }
  cbn [wp]. intros c Hc. destruct (Z.ltb_spec 0 (granted c)) as [Hg|Hg].
  - assert (sat_sub bytes (granted c) = bytes - granted c) as -> by (unfold sat_sub; lia).
    eapply wp_mono; [reflexivity | | apply IH; lia]. intros res g' Hpost. pose proof (leased_consume d (granted c) g) as Hl.
    assert (g_fired (g_add_lease d (granted c) g) = g_fired g) as Hf by (by destruct d).
    destruct res as [[]|e]; cbn [budget_post] in *; [eapply leased_trans; eauto; lia|]. destruct Hpost as [(n & Hn & Hm) He].
    split; [exists (granted c + n); split; [lia | by eapply leased_trans]|]. destruct e; try done. lia.
  - assert (granted c = 0) as Hc0 by lia. rewrite Hc0. pose proof (leased_consume d 0 g) as Hl. cbn [wp]. intros t.
    assert (exists n, 0 <= n < bytes /\ leased d n g (g_add_lease d 0 g)) as H0 by (exists 0; split; [lia | done]).
    destruct (match deadline with Some dl => dl <=? t | None => false end) eqn:Hd; cbn [wp budget_post].
    { split; [done|]. by destruct deadline. }
    intros t' cancelled. assert (leased d 0 g (g_timer true (g_add_lease d 0 g))) as Hs.
    { eapply leased_trans; [exact Hl | apply leased_0, moves_timer | lia]. }
    destruct (may_cancel && cancelled) eqn:Hca; cbn [wp budget_post].
    { split; [exists 0; split; [lia | done]|]. by destruct may_cancel. }
    eapply wp_mono; [reflexivity | | by apply IH]. intros res g' Hpost.
    assert (g_fired (g_timer true (g_add_lease d 0 g)) = g_fired g + 1) as Hf by (by destruct d).
    destruct res as [[]|e]; cbn [budget_post] in *; [eapply leased_trans; eauto; lia|]. destruct Hpost as [(n & Hn & Hm) He].
    split; [exists n; split; [lia | by eapply leased_trans]|]. destruct e; try done. lia.
Qed.

(** Either wait, with or without a lease. *)
Lemma wp_wait_for_traffic_budget L start fuel lease d bytes deadline g : 0 <= bytes ->
  wp L (wait_for_traffic_budget start fuel lease d bytes deadline) g
    (fun res g' => if lease then budget_post false fuel d bytes deadline g res g' else res = Ok tt /\ g' = g).
Proof.
  intros Hb. unfold wait_for_traffic_budget. destruct (Z.eqb_spec bytes 0) as [->|]; [|destruct lease; [by apply wp_budget_loop | done]].
  cbn [wp]. destruct lease; [apply leased_0, moves_refl | done].
Qed.

Lemma wp_wait_for_traffic_budget_or_cancel L start fuel lease d bytes deadline g : 0 <= bytes ->
  wp L (wait_for_traffic_budget_or_cancel start fuel lease d bytes deadline) g
    (fun res g' => if lease then budget_post true fuel d bytes deadline g res g' else res = Ok tt /\ g' = g).
Proof.
  intros Hb. unfold wait_for_traffic_budget_or_cancel. destruct (Z.eqb_spec bytes 0) as [->|]; [|destruct lease; [by apply wp_budget_loop | done]].
  cbn [wp]. destruct lease; [apply leased_0, moves_refl | done].
Qed.
