(* ===== verification/MeWriterTask.v ===== *)
(** The task of a middle session that writes the answers of the middle proxy to
    the client (proxy/middle_relay/d2c.rs and session.rs): quota, rate budget and
    frame of each answer, batches of answers and the flush that ends a batch. *)

From stdpp Require Import base list gmap numbers.
From S2P Require Import Net TrafficLimiter Limiter Prelude Aes Random RpcWire Stream ClientWrite ConnRoute QuotaProg QuotaMiddle.
Local Open Scope Z_scope.
Local Open Scope prog_scope.

Inductive MeWriterResponseOutcome :=
  | OutcomeContinue (frames bytes : Z) (flush_immediately : bool)
  | OutcomeClose.

(** What stays the same for a session: the framing, the user's quota, whether there
    is a traffic lease, the flush policy, when the session started; and the bound on
    the rounds of a wait for the lease. *)
Record WriterConf := mkWriterConf {
  wc_proto_tag : ProtoTag;
  wc_quota_limit : option Z;
  wc_lease : bool;
  wc_policy : MeD2cFlushPolicy;
  wc_started_at : Instant;
  wc_epoch_start : Instant;
  wc_wait_fuel : nat;
}.

Section task.
Context {W : Type} `{AsyncWrite W} {G : Type} `{StdRng G} `{StreamKey} (c : WriterConf).

(** The client is cancelled after [mt_polls] more polls; [mt_released] are the units
    of the route byte budget that came back with answers that were dropped. *)
Record MeTask := mkMeTask {
  mt_polls : nat;
  mt_rng : SecureRandomInner G;
  mt_writer : W;
  mt_bytes_me2c : Z;
  mt_last_downstream_activity_ms : Z;
  mt_released : Z;
}.

Definition set_io (polls : nat) (s : SecureRandomInner G) (w : W) (t : MeTask) : MeTask :=
  mkMeTask polls s w (mt_bytes_me2c t) (mt_last_downstream_activity_ms t) (mt_released t).
Definition add_me2c (bytes : Z) (t : MeTask) : MeTask :=
  mkMeTask (mt_polls t) (mt_rng t) (mt_writer t) ((mt_bytes_me2c t + bytes) mod 2 ^ 64) (mt_last_downstream_activity_ms t) (mt_released t).
Definition set_activity (ms : Z) (t : MeTask) : MeTask :=
  mkMeTask (mt_polls t) (mt_rng t) (mt_writer t) (mt_bytes_me2c t) ms (mt_released t).
Definition add_released (units : Z) (t : MeTask) : MeTask :=
  mkMeTask (mt_polls t) (mt_rng t) (mt_writer t) (mt_bytes_me2c t) (mt_last_downstream_activity_ms t) (mt_released t + units).

(** The quota of a payload, reserved up to the soft cap. *)
Definition reserve_answer (data_len : Z) : Prog (result MiddleError unit) :=
  match wc_quota_limit c with
  | Some limit =>
      do r <- reserve_user_quota_with_yield data_len (quota_soft_cap limit (fp_quota_soft_overshoot_bytes (wc_policy c))) None;
      Ret match r with
          | Ok _ => Ok tt
          | Err MqLimitExceeded => Err DataQuotaExceeded
          | Err e => Err (QuotaFailed e)
          end
  | None => Ret (Ok tt)
  end.

Definition wait_down (bytes : Z) : Prog (result MiddleError unit) :=
  wait_for_traffic_budget_or_cancel (wc_epoch_start c) (wc_wait_fuel c) (wc_lease c) Down bytes None.

Definition process_data (flags : Z) (data : list Z) (t : MeTask) : Prog (result MiddleError MeWriterResponseOutcome * MeTask) :=
  let data_len := Z.of_nat (length data) in
  do r <- reserve_answer data_len;
  match r with
  | Err e => Ret (Err e, t)
  | Ok _ =>
      do r <- wait_down data_len;
      match r with
      | Err e => Ret (Err e, t)
      | Ok _ =>
          Ret match write_client_payload (mt_polls t) (wc_proto_tag c) flags data (mt_rng t) (mt_writer t) with
              | (Err e, s, w) => (Err (ClientWriteFailed e), set_io (mt_polls t) s w t)
              | (Ok (_, polls), s, w) => (Ok (OutcomeContinue 1 data_len false), add_me2c data_len (set_io polls s w t))
              end
      end
  end.

Definition process_ack (confirm : Z) (t : MeTask) : Prog (result MiddleError MeWriterResponseOutcome * MeTask) :=
  do r <- wait_down 4;
  match r with
  | Err e => Ret (Err e, t)
  | Ok _ =>
      Ret match write_client_ack (mt_polls t) (wc_proto_tag c) confirm (mt_writer t) with
          | (Err e, w) => (Err (ClientWriteFailed e), set_io (mt_polls t) (mt_rng t) w t)
          | (Ok polls, w) => (Ok (OutcomeContinue 1 4 (fp_ack_flush_immediate (wc_policy c))), set_io polls (mt_rng t) w t)
          end
  end.

(** The permit in a payload is dropped with it. *)
Definition process_me_writer_response (response : MeResponse) (t : MeTask) : Prog (result MiddleError MeWriterResponseOutcome * MeTask) :=
  match response with
  | RespData flags data permit => do (r, t) <- process_data flags data t; Ret (r, add_released (default 0 permit) t)
  | RespAck confirm => process_ack confirm t
  | RespClose => Ret (Ok OutcomeClose, t)
  end.

(** * Batches *)

Record Batch := mkBatch { batch_frames : Z; batch_bytes : Z; flush_immediately : bool }.
Definition batch_new : Batch := mkBatch 0 0 false.

(** The batch may take another answer. *)
Definition batch_open (b : Batch) : bool :=
  negb (flush_immediately b) && (batch_frames b <? fp_max_frames (wc_policy c)) && (batch_bytes b <? fp_max_bytes (wc_policy c)).

(** The flush at a close, whose outcome is ignored. *)
Definition close_flush (t : MeTask) : MeTask :=
  let '(_, w) := flush_client_or_cancel (mt_polls t) (mt_writer t) in set_io (mt_polls t) (mt_rng t) w t.

(** An answer added to the batch; no batch is left after a close. *)
Definition take_response (response : MeResponse) (b : Batch) (t : MeTask) : Prog (result MiddleError (option Batch) * MeTask) :=
  do (r, t) <- process_me_writer_response response t;
  match r with
  | Err e => Ret (Err e, t)
  | Ok OutcomeClose => Ret (Ok None, close_flush t)
  | Ok (OutcomeContinue frames bytes immediate) =>
      Now (fun now =>
        let t := set_activity (saturating_duration_since now (wc_started_at c) / 1000000 mod 2 ^ 64) t in
        Ret (Ok (Some (mkBatch (sat_add 64 (batch_frames b) frames) (sat_add 64 (batch_bytes b) bytes) (flush_immediately b || immediate))), t))
  end.

(** [try_recv] while the batch is open, on the answers that are still to come. *)
Fixpoint drain_batch (rx : list MeResponse) (b : Batch) (t : MeTask) : Prog (result MiddleError (option Batch) * list MeResponse * MeTask) :=
  if batch_open b then
    Ask (fun there =>
      if there then
        match rx with
        | [] => Ret (Ok (Some b), [], t)
        | next :: rx =>
            do (r, t) <- take_response next b t;
            match r with
            | Ok (Some b) => drain_batch rx b t
            | _ => Ret (r, rx, t)
            end
        end
      else Ret (Ok (Some b), rx, t))
  else Ret (Ok (Some b), rx, t).

Definition me_d2c_flush_reason_requires_client_flush (_ : MeD2cFlushReason) : bool := true.

(** The flush at the end of a batch. *)
Definition end_batch (b : Batch) (max_delay_fired : bool) (t : MeTask) : result MiddleError (option Batch) * MeTask :=
  let reason := classify_me_d2c_flush_reason (flush_immediately b) (batch_frames b) (fp_max_frames (wc_policy c))
    (batch_bytes b) (fp_max_bytes (wc_policy c)) max_delay_fired in
  if me_d2c_flush_reason_requires_client_flush reason then
    match flush_client_or_cancel (mt_polls t) (mt_writer t) with
    | (Err e, w) => (Err (ClientWriteFailed e), set_io (mt_polls t) (mt_rng t) w t)
    | (Ok polls, w) => (Ok (Some b), set_io polls (mt_rng t) w t)
    end
  else (Ok (Some b), t).

(** From the first answer of a batch to its flush. *)
Definition run_batch (first : MeResponse) (rx : list MeResponse) (t : MeTask)
    : Prog (result MiddleError (option Batch) * list MeResponse * MeTask) :=
  do (r, t) <- take_response first batch_new t;
  match r with
  | Ok (Some b) =>
      do (rr, t) <- drain_batch rx b t;
      let '(r, rx) := rr in
      match r with
      | Ok (Some b) =>
          if batch_open b && negb (fp_max_delay (wc_policy c) =? 0) then
            Ask (fun in_time =>
              if in_time then
                match rx with
                | [] => Ret (Err MiddleConnectionLost, [], t)
                | next :: rx =>
                    do (r, t) <- take_response next b t;
                    match r with
                    | Ok (Some b) =>
                        do (rr, t) <- drain_batch rx b t;
                        let '(r, rx) := rr in
                        match r with
                        | Ok (Some b) => let '(r, t) := end_batch b false t in Ret (r, rx, t)
                        | _ => Ret (r, rx, t)
                        end
                    | _ => Ret (r, rx, t)
                    end
                end
              else let '(r, t) := end_batch b true t in Ret (r, rx, t))
          else let '(r, t) := end_batch b false t in Ret (r, rx, t)
      | _ => Ret (r, rx, t)
      end
  | _ => Ret (r, rx, t)
  end.

(** The task, on the answers sent until the channel is closed: [n] batches at
    most. *)
Fixpoint me_writer (n : nat) (rx : list MeResponse) (t : MeTask) : Prog (result MiddleError unit * list MeResponse * MeTask) :=
  Ask (fun stopped =>
    if stopped then Ret (Ok tt, rx, t)
    else
      match rx, n with
      | [], _ => Ret (Err MiddleConnectionLost, [], t)
      | _, O => Ret (Err WaitUnfinished, rx, t)
      | first :: rx, S n =>
          do (rr, t) <- run_batch first rx t;
          let '(r, rx) := rr in
          match r with
          | Err e => Ret (Err e, rx, t)
          | Ok None => Ret (Ok tt, rx, t)
          | Ok (Some _) => me_writer n rx t
          end
      end).
End task.

Arguments MeTask : clear implicits.
