(* ===== verification/MeWriterSpec.v ===== *)
(** What the writing task of a middle session does with the answers it receives:
    their frames in order, charged in full, and flushed before it waits again. *)

From stdpp Require Import base list gmap numbers.
From S2P Require Import Net TrafficLimiter Limiter Prelude Aes Random RpcWire FairnessScheduler Stream ClientFrames ClientFramesSpec ClientWrite ClientWriteSpec ClientRun ConnRoute QuotaProg QuotaMiddle MeWriterTask.
Local Open Scope Z_scope.

(** Of an answer: the bytes charged to the quota and to the lease, the units of its
    permit, its bytes on the wire. *)
Definition data_bytes (m : MeResponse) : Z := match m with RespData _ data _ => Z.of_nat (length data) | _ => 0 end.
Definition lease_bytes (m : MeResponse) : Z := match m with RespData _ data _ => Z.of_nat (length data) | RespAck _ => 4 | RespClose => 0 end.
Definition permit_units (m : MeResponse) : Z := match m with RespData _ _ permit => default 0 permit | _ => 0 end.
Definition wire_of (tag : ProtoTag) (m : MeResponse) (out : list Z) : Prop :=
  match m with
  | RespData flags data _ => frame_of tag (negb (Z.land flags RPC_FLAG_QUICKACK =? 0)) data out
  | RespAck confirm => out = match tag with Abridged => to_be 4 confirm | _ => to_le 4 confirm end
  | RespClose => False
  end.

Definition total (f : MeResponse -> Z) (ms : list MeResponse) : Z := foldr (fun m n => f m + n) 0 ms.

Lemma total_app f ms ms' : total f (ms ++ ms') = total f ms + total f ms'.
Proof. unfold total. induction ms as [|m ms IH]; cbn [foldr app]; lia. Qed.

Lemma data_bytes_nonneg m : 0 <= data_bytes m.
Proof. destruct m; cbn; lia. Qed.
Lemma lease_bytes_nonneg m : 0 <= lease_bytes m.
Proof. destruct m; cbn; lia. Qed.

Section spec.
Context {W : Type} `{AsyncWrite W} (spec : WriterSpec W) {G : Type} `{StdRngLaws G} `{StreamKey} (c : WriterConf).
Implicit Types t : MeTask W G.

(** A soft cap that the limit of the system admits. *)
Definition conf_ok (L : Z) : Prop :=
  L <= umax 64 /\ forall limit, wc_quota_limit c = Some limit -> quota_soft_cap limit (fp_quota_soft_overshoot_bytes (wc_policy c)) <= L.

Definition charge_quota (n : Z) : Z := match wc_quota_limit c with Some _ => n | None => 0 end.
Definition charge_lease (n : Z) : Z := if wc_lease c then n else 0.

(** The answers [ms] were written and charged. *)
Record answered (ms : list MeResponse) t (g : Ghost) t' (g' : Ghost) : Prop := mkAnswered {
  an_ok : writer_ok spec (mt_writer t');
  an_wire : exists outs, Forall2 (wire_of (wc_proto_tag c)) ms outs /\ accepted spec (mt_writer t') = accepted spec (mt_writer t) ++ concat outs;
  an_moves : moves (charge_quota (total data_bytes ms)) 0 (charge_lease (total lease_bytes ms)) g g';
  an_me2c : mt_bytes_me2c t' mod 2 ^ 64 = (mt_bytes_me2c t + total data_bytes ms) mod 2 ^ 64;
  an_released : mt_released t' = mt_released t + total permit_units ms;
}.

Lemma answered_nil t g t' g' : writer_ok spec (mt_writer t') -> accepted spec (mt_writer t') = accepted spec (mt_writer t) ->
  mt_bytes_me2c t' = mt_bytes_me2c t -> mt_released t' = mt_released t -> moves 0 0 0 g g' -> answered [] t g t' g'.
Proof.
  intros Hw Ha Hb Hr Hm. constructor; cbn [total foldr].
  - done.
  - exists []. split; [constructor|]. by rewrite app_nil_r.
  - unfold charge_quota, charge_lease. by destruct (wc_quota_limit c), (wc_lease c).
  - by rewrite Hb, Z.add_0_r.
  - lia.
Qed.

Lemma answered_app ms ms' t1 g1 t2 g2 t3 g3 : answered ms t1 g1 t2 g2 -> answered ms' t2 g2 t3 g3 -> answered (ms ++ ms') t1 g1 t3 g3.
Proof.
  intros [_ (o1 & Ho1 & Ha1) Hm1 Hb1 Hr1] [Hok (o2 & Ho2 & Ha2) Hm2 Hb2 Hr2]. constructor; rewrite ?total_app.
  - done.
  - exists (o1 ++ o2). split; [by apply Forall2_app|]. by rewrite Ha2, Ha1, concat_app, app_assoc.
  - eapply moves_trans; [exact Hm1 | exact Hm2 | | lia |]; unfold charge_quota, charge_lease; [destruct (wc_quota_limit c) | destruct (wc_lease c)]; lia.
  - rewrite Hb2, Z.add_assoc. rewrite <- Z.add_mod_idemp_l, Hb1, Z.add_mod_idemp_l by done. done.
  - lia.
Qed.

(** The answer [m] was taken and failed with [e]. *)
Record fell (m : MeResponse) (e : MiddleError) t (g : Ghost) t' (g' : Ghost) : Prop := mkFell {
  fe_moves : exists nq nl, (nq = 0 \/ nq = data_bytes m) /\ 0 <= nl <= lease_bytes m /\ moves (charge_quota nq) 0 (charge_lease nl) g g' /\
    match e with
    | DataQuotaExceeded | QuotaFailed _ => nq = 0 /\ nl = 0
    | TrafficBudgetWaitCancelled => nq = data_bytes m
    | ClientWriteFailed _ => nq = data_bytes m /\ nl = lease_bytes m
    | WaitUnfinished => Z.of_nat (wc_wait_fuel c) <= lease_bytes m + (g_fired g' - g_fired g)
    | TrafficBudgetWaitDeadlineExceeded | MiddleConnectionLost => False
    end;
  fe_wire : match e with
    | ClientWriteFailed (WriteIo _) => True
    | ClientWriteFailed WriterCancelled =>
        exists out part, wire_of (wc_proto_tag c) m out /\ part `prefix_of` out /\ accepted spec (mt_writer t') = accepted spec (mt_writer t) ++ part
    | _ => mt_writer t' = mt_writer t
    end;
  fe_me2c : mt_bytes_me2c t' = mt_bytes_me2c t;
  fe_released : mt_released t' = mt_released t + permit_units m;
}.

Lemma moves_0 g g' : moves 0 0 0 g g' -> moves (charge_quota 0) 0 (charge_lease 0) g g'.
Proof. unfold charge_quota, charge_lease. by destruct (wc_quota_limit c), (wc_lease c). Qed.

Lemma wp_reserve_answer L n g : 0 <= n -> conf_ok L ->
  wp L (reserve_answer c n) g (fun r g' =>
    match r with
    | Ok _ => moves (charge_quota n) 0 0 g g'
    | Err e => moves 0 0 0 g g' /\ match e with DataQuotaExceeded | QuotaFailed _ => True | _ => False end
    end).
Proof.
  intros Hn [HL Hcap]. unfold reserve_answer, charge_quota. destruct (wc_quota_limit c) as [limit|]; [|apply moves_refl].
  apply wp_bind, wp_reserve_user_quota; [done | by apply Hcap | done | done |]. intros e g' Hm _ _. cbn [wp]. by destruct e.
Qed.

Lemma wp_wait_down L n g : 0 <= n ->
  wp L (wait_down c n) g (fun r g' =>
    match r with
    | Ok _ => moves 0 0 (charge_lease n) g g'
    | Err e => exists k, 0 <= k <= n /\ moves 0 0 (charge_lease k) g g' /\
        match e with
        | TrafficBudgetWaitCancelled => True
        | WaitUnfinished => Z.of_nat (wc_wait_fuel c) <= n + (g_fired g' - g_fired g)
        | _ => False
        end
    end).
Proof.
  intros Hn. unfold wait_down, charge_lease. eapply wp_mono; [reflexivity | | by apply wp_wait_for_traffic_budget_or_cancel].
  intros r g' Hpost. cbn beta in Hpost. destruct (wc_lease c); [|destruct Hpost as [-> ->]; apply moves_refl].
  destruct r as [[]|e]; [done|]. destruct Hpost as [(k & Hk & Hm) He]. exists k. split_and!; [lia | lia | done |]. by destruct e.
Qed.

Lemma wp_process_data L flags data permit t g : writer_ok spec (mt_writer t) -> conf_ok L ->
  let m := RespData flags data permit in
  wp L (process_data c flags data t) g (fun '(r, t') g' =>
    match r with
    | Ok out => out = OutcomeContinue 1 (lease_bytes m) false /\ answered [m] t g (add_released (permit_units m) t') g'
    | Err e => fell m e t g (add_released (permit_units m) t') g'
    end).
Proof.
  intros Hw Hc m. set (n := Z.of_nat (length data)). assert (0 <= n) as Hn by lia. unfold process_data. cbv zeta. fold n.
  eapply wp_seq; [by apply wp_reserve_answer|]. intros [[]|e] g1 Hq.
  2:{ destruct Hq as [Hm He]. cbn [wp]. constructor; cbn; [|by destruct e | done | done].
      exists 0, 0. split_and!; [by left | done | lia | by apply moves_0 | by destruct e]. }
  eapply wp_seq; [by apply wp_wait_down|]. intros [[]|e] g2 Hl.
  2:{ destruct Hl as (k & Hk & Hm & He). cbn [wp]. constructor; cbn; [|by destruct e | done | done].
      exists n, k. split_and!; [by right | lia | lia | eapply moves_trans; [exact Hq | exact Hm | lia..] |].
      destruct e; try done. pose proof (mv_fired _ _ _ _ _ Hq). fold n. lia. }
  assert (moves (charge_quota n) 0 (charge_lease n) g g2) as Hm by (eapply moves_trans; [exact Hq | exact Hl | lia..]). cbn [wp].
  destruct (write_client_payload _ _ _ _ _ _) as [[r s'] w'] eqn:Hrun.
  pose proof (write_client_payload_spec spec _ _ _ _ _ _ _ _ _ Hw Hrun) as Hspec. destruct r as [[mode polls]|e].
  - split; [done|]. destruct Hspec as [(e & ? & _)|(frame & Hframe & Hw' & Ha)]; [done|].
    constructor; cbn; rewrite ?Z.add_0_r.
    + done.
    + exists [frame]. split; [by repeat constructor|]. cbn [concat]. by rewrite app_nil_r.
    + done.
    + by rewrite Z.mod_mod.
    + done.
  - constructor; cbn; [| |done|done].
    + exists n, n. split_and!; [by right | fold n; lia | fold n; lia | done | done | done].
    + destruct Hspec as [(e' & [= <-] & Hr & ->)|(frame & Hframe & Hwr)]; [by destruct e|]. destruct e; try done.
      destruct Hwr as (_ & part & Hpre & Ha). by exists frame, part.
Qed.

Lemma wp_process_ack L confirm t g : writer_ok spec (mt_writer t) ->
  let m := RespAck confirm in
  wp L (process_ack c confirm t) g (fun '(r, t') g' =>
    match r with
    | Ok out => out = OutcomeContinue 1 (lease_bytes m) (fp_ack_flush_immediate (wc_policy c)) /\ answered [m] t g t' g'
    | Err e => fell m e t g t' g'
    end).
Proof.
  intros Hw m. unfold process_ack. eapply wp_seq; [by apply wp_wait_down|]. intros [[]|e] g1 Hl.
  2:{ destruct Hl as (k & Hk & Hm & He). cbn [wp]. constructor; [|by destruct e | done | by rewrite Z.add_0_r].
      exists 0, k. split_and!; [by left | lia | cbn; lia | unfold charge_quota; by destruct (wc_quota_limit c) | by destruct e]. }
  assert (moves (charge_quota 0) 0 (charge_lease 4) g g1) as Hm by (unfold charge_quota; by destruct (wc_quota_limit c)). cbn [wp].
  destruct (write_client_ack _ _ _ _) as [r w'] eqn:Hrun. pose proof (write_all_spec spec _ _ _ _ _ Hw Hrun) as Hwr. destruct r as [polls|e].
  - split; [done|]. destruct Hwr as [Hw' Ha]. constructor; cbn; rewrite ?Z.add_0_r.
    + done.
    + eexists [_]. split; [by repeat constructor|]. cbn [concat]. by rewrite app_nil_r.
    + done.
    + done.
    + done.
  - constructor; cbn; [| |done | by rewrite Z.add_0_r].
    + exists 0, 4. split_and!; try done. by left.
    + destruct e; try done. destruct Hwr as (_ & part & Hpre & Ha). eexists _, part. by split_and!.
Qed.

(** * Answers taken one after another *)

(** How answers of [rx] were taken: all up to the rest, up to a close, or up to one
    that failed. *)
Definition took (rx : list MeResponse) t (g : Ghost) (r : result MiddleError (option Batch)) (rest : list MeResponse) t' (g' : Ghost) : Prop :=
  exists done,
  match r with
  | Ok (Some _) => rx = done ++ rest /\ answered done t g t' g'
  | Ok None => exists t1, rx = done ++ RespClose :: rest /\ answered done t g t1 g' /\ t' = close_flush t1
  | Err e => exists m t1 g1, rx = done ++ m :: rest /\ answered done t g t1 g1 /\ fell m e t1 g1 t' g'
  end.

Lemma took_app done rx t g t1 g1 r rest t' g' : answered done t g t1 g1 -> took rx t1 g1 r rest t' g' -> took (done ++ rx) t g r rest t' g'.
Proof.
  intros Ha (done' & Hr). exists (done ++ done'). destruct r as [[b|]|e].
  - destruct Hr as [-> Hr]. split; [by rewrite app_assoc | by eapply answered_app].
  - destruct Hr as (t2 & -> & Hr & ->). exists t2. split_and!; [by rewrite <- app_assoc | by eapply answered_app | done].
  - destruct Hr as (m & t2 & g2 & -> & Hr & Hf). exists m, t2, g2. split_and!; [by rewrite <- app_assoc | by eapply answered_app | done].
Qed.

Lemma wp_take_response L m rx b t g : writer_ok spec (mt_writer t) -> conf_ok L ->
  wp L (take_response c m b t) g (fun '(r, t') g' => took (m :: rx) t g r rx t' g').
Proof.
  intros Hw Hc. unfold take_response.
  apply wp_seq with (Q := fun '(r, t') g' => match r with
    | Err e => fell m e t g t' g'
    | Ok OutcomeClose => m = RespClose /\ t' = t /\ g' = g
    | Ok (OutcomeContinue _ _ _) => answered [m] t g t' g'
    end).
  - unfold process_me_writer_response. destruct m as [flags data permit|confirm|].
    + apply wp_bind. eapply wp_mono; [reflexivity | | by apply wp_process_data]. intros [[out|e] t'] g' Hpost; cbn [wp]; [by destruct Hpost as [-> ?] | done].
    + eapply wp_mono; [reflexivity | | by apply wp_process_ack]. intros [[out|e] t'] g' Hpost; [by destruct Hpost as [-> ?] | done].
    + done.
  - intros [[[frames bytes imm|]|e] t1] g1 Hpost; cbn [wp].
    + intros now. exists [m]. split; [done|]. by destruct Hpost.
    + destruct Hpost as (-> & -> & ->). exists [], t. split_and!; [done | | done]. apply answered_nil; [done..|apply moves_refl].
    + exists [], m, t, g. split_and!; [done | apply answered_nil; [done..|apply moves_refl] | done].
Qed.

Lemma took_all b rx t g : writer_ok spec (mt_writer t) -> took rx t g (Ok (Some b)) rx t g.
Proof. intros Hw. exists []. split; [done|]. apply answered_nil; [done..|apply moves_refl]. Qed.

(** To take on from where [p] stopped. *)
Lemma took_then rx t g b rest t1 g1 r rest' t' g' :
  took rx t g (Ok (Some b)) rest t1 g1 -> took rest t1 g1 r rest' t' g' -> took rx t g r rest' t' g'.
Proof. intros (done & -> & Ha) Hr. by eapply took_app. Qed.

Lemma wp_drain L rx b t g : writer_ok spec (mt_writer t) -> conf_ok L ->
  wp L (drain_batch c rx b t) g (fun '(r, rest, t') g' => took rx t g r rest t' g').
Proof.
  intros Hw Hc. revert b t g Hw. induction rx as [|m rx IH]; intros b t g Hw; cbn [drain_batch].
  all: destruct (batch_open c b); [cbn [wp]; intros there; destruct there | by apply took_all]; try by apply took_all.
  eapply wp_seq; [by apply (wp_take_response L m rx)|]. intros [[[b1|]|e] t1] g1 Ht; try done.
  pose proof Ht as (done & _ & Ha). eapply wp_mono; [reflexivity | | apply IH, (an_ok _ _ _ _ _ Ha)].
  intros [[r rest] t'] g' Hd. by eapply took_then.
Qed.

(** * The task *)

(** The task gave up: over an answer, over a flush, or because the channel closed
    after every answer was written; the last may come before the flush. *)
Definition gave_up (rx : list MeResponse) t (g : Ghost) (e : MiddleError) (rest : list MeResponse) t' (g' : Ghost) : Prop :=
  (exists done m t1 g1, rx = done ++ m :: rest /\ answered done t g t1 g1 /\ fell m e t1 g1 t' g') \/
  (exists done t1 we, rx = done ++ rest /\ answered done t g t1 g' /\ e = ClientWriteFailed we /\
    flush_client_or_cancel (mt_polls t1) (mt_writer t1) = (Err we, mt_writer t')) \/
  (e = MiddleConnectionLost /\ rest = [] /\ answered rx t g t' g').

(** All answers up to a close were written, and a flush was tried: it failed, and
    the failure is ignored, or the answers were flushed. *)
Definition closed (rx : list MeResponse) t (g : Ghost) (rest : list MeResponse) t' (g' : Ghost) : Prop :=
  exists done t1, rx = done ++ RespClose :: rest /\ answered done t g t1 g' /\ t' = close_flush t1 /\
    ((exists we, (flush_client_or_cancel (mt_polls t1) (mt_writer t1)).1 = Err we) \/
     accepted spec (mt_writer t') = accepted spec (mt_writer t1) /\ settled spec (mt_writer t')).

Lemma close_flush_spec t : writer_ok spec (mt_writer t) ->
  (exists we, (flush_client_or_cancel (mt_polls t) (mt_writer t)).1 = Err we) \/
  accepted spec (mt_writer (close_flush t)) = accepted spec (mt_writer t) /\ settled spec (mt_writer (close_flush t)).
Proof.
  intros Hw. unfold close_flush. destruct (flush_client_or_cancel _ _) as [[k|e] w] eqn:Hf; [right|left; by exists e].
  by destruct (flush_spec spec _ _ _ _ Hw Hf) as (_ & Hacc & Hset).
Qed.

(** All answers up to the rest were written and flushed. *)
Definition caught_up (rx : list MeResponse) t (g : Ghost) (rest : list MeResponse) t' (g' : Ghost) : Prop :=
  exists done, rx = done ++ rest /\ answered done t g t' g' /\ settled spec (mt_writer t').

Definition batch_post (rx : list MeResponse) t (g : Ghost) : result MiddleError (option Batch) * list MeResponse * MeTask W G -> Ghost -> Prop :=
  fun '(r, rest, t') g' =>
  match r with
  | Ok (Some _) => caught_up rx t g rest t' g' /\ (length rest < length rx)%nat
  | Ok None => closed rx t g rest t' g'
  | Err e => gave_up rx t g e rest t' g'
  end.

Lemma took_batch rx t g r rest t' g' : took rx t g r rest t' g' -> (forall b, r <> Ok (Some b)) -> batch_post rx t g (r, rest, t') g'.
Proof.
  intros (done & Hr) Hne. destruct r as [[b|]|e]; [by destruct (Hne b) | |].
  - destruct Hr as (t1 & ? & Ha & ->). exists done, t1. split_and!; try done. apply close_flush_spec, (an_ok _ _ _ _ _ Ha).
  - destruct Hr as (m & t1 & g1 & ? & ? & ?). left. by exists done, m, t1, g1.
Qed.

Lemma wp_end_batch L b fired rx done rest t t1 g g1 : rx = done ++ rest -> done <> [] -> answered done t g t1 g1 ->
  wp L (let '(r, t') := end_batch c b fired t1 in Ret (r, rest, t')) g1 (batch_post rx t g).
Proof.
  intros -> Hne Ha. unfold end_batch. cbn [me_d2c_flush_reason_requires_client_flush].
  destruct (flush_client_or_cancel (mt_polls t1) (mt_writer t1)) as [[k|e] w] eqn:Hf; cbn [wp].
  - destruct (flush_spec spec _ _ _ _ (an_ok _ _ _ _ _ Ha) Hf) as (Hw & Hacc & Hset). split.
    + exists done. split_and!; [done | | done]. rewrite <- (app_nil_r done). eapply answered_app; [exact Ha|].
      by apply answered_nil; [| | | |apply moves_refl].
    + rewrite length_app. destruct done; [done | cbn; lia].
  - right. left. by exists done, t1, e.
Qed.

Lemma took_shorter m rx t g b rest t1 g1 b' rest' t2 g2 :
  took (m :: rx) t g (Ok (Some b)) rx t1 g1 -> took rx t1 g1 (Ok (Some b')) rest' t2 g2 -> rest = rest' ->
  exists done, m :: rx = done ++ rest /\ done <> [] /\ answered done t g t2 g2.
Proof.
  intros Hm Hr ->. pose proof Hr as (d2 & Heq & _). destruct (took_then _ _ _ _ _ _ _ _ _ _ _ Hm Hr) as (done & Heq' & Ha).
  exists done. split_and!; [done | | done]. intros ->. cbn in Heq'. apply (f_equal length) in Heq, Heq'. rewrite length_app in Heq. cbn in Heq'. lia.
Qed.

Lemma wp_run_batch L m rx t g : writer_ok spec (mt_writer t) -> conf_ok L ->
  wp L (run_batch c m rx t) g (batch_post (m :: rx) t g).
Proof.
  intros Hw Hc. unfold run_batch. eapply wp_seq; [by apply (wp_take_response L m rx)|].
  intros [r t1] g1 Ht. destruct r as [[b|]|e]; try by apply (took_batch (m :: rx) t g _ rx). pose proof Ht as (d1 & _ & Ha1).
  eapply wp_seq; [apply wp_drain; [apply (an_ok _ _ _ _ _ Ha1) | done]|]. intros [[r rest] t2] g2 Hd.
  destruct r as [[b2|]|e]; try by (apply took_batch; [by eapply took_then|]). pose proof (took_shorter _ _ _ _ _ rest _ _ _ _ _ _ Ht Hd eq_refl) as (d2 & Heq & Hne & Ha2).
  destruct (batch_open c b2 && _); [|by eapply wp_end_batch]. cbn [wp]. intros in_time. destruct in_time; [|by eapply wp_end_batch].
  destruct rest as [|next rest].
  { cbn [wp batch_post]. right. right. split_and!; [done | done |]. rewrite Heq, app_nil_r. done. }
  eapply wp_seq; [apply (wp_take_response L next rest); [apply (an_ok _ _ _ _ _ Ha2) | done]|]. intros [r t3] g3 Ht3.
  destruct r as [[b3|]|e]; try by (apply took_batch; [rewrite Heq; by eapply took_app|]). pose proof Ht3 as (d3 & _ & Ha3).
  eapply wp_seq; [apply wp_drain; [apply (an_ok _ _ _ _ _ Ha3) | done]|]. intros [[r rest'] t4] g4 Hd4.
  destruct r as [[b4|]|e]; try by (apply took_batch; [rewrite Heq; eapply took_app; [done | by eapply took_then]|]).
  destruct (took_shorter _ _ _ _ _ rest' _ _ _ _ _ _ Ht3 Hd4 eq_refl) as (d4 & Heq4 & Hne4 & Ha4).
  apply (wp_end_batch L b4 false (m :: rx) (d2 ++ d4)); [by rewrite Heq, Heq4, app_assoc | by destruct d2 | by eapply answered_app].
Qed.

(** How the task ends. *)
Definition task_post (rx : list MeResponse) t (g : Ghost) : result MiddleError unit * list MeResponse * MeTask W G -> Ghost -> Prop :=
  fun '(r, rest, t') g' =>
  match r with
  | Ok _ => caught_up rx t g rest t' g' \/ closed rx t g rest t' g'
  | Err e => gave_up rx t g e rest t' g'
  end.

Lemma task_post_after rx t g rest t1 g1 : caught_up rx t g rest t1 g1 -> forall out g', task_post rest t1 g1 out g' -> task_post rx t g out g'.
Proof.
  intros (done & -> & Ha & _) [[r rest'] t'] g' Hp. destruct r as [[]|e]; cbn [task_post] in *.
  - destruct Hp as [(d & -> & Hd & ?)|(d & t2 & -> & Hd & -> & Hfl)].
    + left. exists (done ++ d). split_and!; [by rewrite app_assoc | by eapply answered_app | done].
    + right. exists (done ++ d), t2. split_and!; [by rewrite <- app_assoc | by eapply answered_app | done | done].
  - destruct Hp as [(d & m & t2 & g2 & -> & Hd & Hf)|[(d & t2 & we & -> & Hd & ? & ?)|(-> & -> & Hd)]].
    + left. exists (done ++ d), m, t2, g2. split_and!; [by rewrite <- app_assoc | by eapply answered_app | done].
    + right. left. exists (done ++ d), t2, we. split_and!; [by rewrite app_assoc | by eapply answered_app | done | done].
    + right. right. split_and!; [done | done | by eapply answered_app].
Qed.

Lemma wp_me_writer L n rx t g : writer_ok spec (mt_writer t) -> settled spec (mt_writer t) -> conf_ok L -> (length rx <= n)%nat ->
  wp L (me_writer c n rx t) g (task_post rx t g).
Proof.
  intros Hw Hset Hc. revert rx t g Hw Hset. induction n as [|n IH]; intros rx t g Hw Hset Hn; cbn [me_writer wp]; intros stopped.
  all: assert (answered [] t g t g) as Hnil by (apply answered_nil; [done..|apply moves_refl]).
  all: destruct stopped; [left; by exists []|]. all: destruct rx as [|m rx]; [right; right; by split_and!|].
  { cbn in Hn. lia. }
  eapply wp_seq; [by apply wp_run_batch|]. intros [[r rest] t1] g1 Hb. destruct r as [[b|]|e]; cbn [batch_post] in Hb.
  - destruct Hb as [Hcu Hlt]. pose proof Hcu as (done & _ & Ha & Hs). cbn in Hn, Hlt.
    eapply wp_mono; [reflexivity | by eapply task_post_after | apply IH; [apply (an_ok _ _ _ _ _ Ha) | done | lia]].
  - by right.
  - done.
Qed.
End spec.
