(* ===== verification/RelaySession.v ===== *)
(** The client side of a direct session over a whole run: reads and writes of the
    debiting stream in any order, with the account of what they moved. *)

From stdpp Require Import base list gmap numbers.
From S2P Require Import Net TrafficLimiter Limiter Prelude Stream QuotaProg QuotaIo QuotaIoSpec.
Local Open Scope Z_scope.
Local Open Scope prog_scope.

Inductive RelayCall := CallRead (cap : nat) | CallWrite (buf : list Z).

(** [RelayUnfinished] is no outcome of the code: the bound on the rounds of a poll
    was too small. *)
Inductive RelayEnd := RelayDone | RelayFailed (e : RelayIoError) | RelayUnfinished.

(** What crossed the stream in each direction. *)
Record RelayLog := mkLog { log_read : list Z; log_written : list Z }.

Section session.
Context {R W : Type} `{AsyncRead R} `{AsyncWrite W}.
Notation Session := (StatsIo (CombinedStream R W)).

(** Polls one after another, until one fails. *)
Fixpoint relay_calls (fuel : nat) (calls : list RelayCall) (log : RelayLog) (this : Session) : Prog (RelayEnd * RelayLog * Session) :=
  match calls with
  | [] => Ret (RelayDone, log, this)
  | CallRead cap :: calls =>
      do (o, this) <- stats_poll_read fuel cap this;
      match o with
      | None => Ret (RelayUnfinished, log, this)
      | Some Pending => relay_calls fuel calls log this
      | Some (Ready (Err e)) => Ret (RelayFailed e, log, this)
      | Some (Ready (Ok bs)) => relay_calls fuel calls (mkLog (log_read log ++ bs) (log_written log)) this
      end
  | CallWrite buf :: calls =>
      do (o, this) <- stats_poll_write fuel buf this;
      match o with
      | None => Ret (RelayUnfinished, log, this)
      | Some Pending => relay_calls fuel calls log this
      | Some (Ready (Err e)) => Ret (RelayFailed e, log, this)
      | Some (Ready (Ok n)) => relay_calls fuel calls (mkLog (log_read log) (log_written log ++ take n buf)) this
      end
  end.

Context (rs : ReaderSpec R) (ws : WriterSpec W).

(** A half of the stream, while the other half stays as it is. *)
Lemma combined_poll_read (w0 : W) fuel cap (x : CombinedStream R W) p x' :
  (reader_ok rs (cs_reader x) /\ cs_writer x = w0) -> poll_read fuel cap x = Some (p, x') ->
  (reader_ok rs (cs_reader x') /\ cs_writer x' = w0) /\
  match p with
  | Ready (Ok bs) => (length bs <= cap)%nat /\ delivered rs (cs_reader x') = delivered rs (cs_reader x) ++ bs
  | _ => delivered rs (cs_reader x') = delivered rs (cs_reader x)
  end.
Proof.
  intros [Hok Hw]. unfold poll_read, combined_read. destruct (poll_read fuel cap (cs_reader x)) as [[q r]|] eqn:Hp; [|done]. intros [= <- <-].
  destruct (poll_read_spec rs _ _ _ _ _ Hok Hp) as [Hok' Hd]. done.
Qed.

Definition combined_reader (w0 : W) : ReaderSpec (CombinedStream R W) :=
  mkReaderSpec (fun x => delivered rs (cs_reader x)) (fun x => reader_ok rs (cs_reader x) /\ cs_writer x = w0) (combined_poll_read w0).

Lemma combined_poll_write (r0 : R) buf (x : CombinedStream R W) p x' :
  (writer_ok ws (cs_writer x) /\ cs_reader x = r0) -> poll_write buf x = (p, x') ->
  match p with
  | Pending => (writer_ok ws (cs_writer x') /\ cs_reader x' = r0) /\ accepted ws (cs_writer x') = accepted ws (cs_writer x)
  | Ready (Ok n) => (writer_ok ws (cs_writer x') /\ cs_reader x' = r0) /\ (n <= length buf)%nat /\ accepted ws (cs_writer x') = accepted ws (cs_writer x) ++ take n buf
  | Ready (Err _) => True
  end.
Proof.
  intros [Hok Hr]. cbn. destruct (poll_write buf (cs_writer x)) as [q w] eqn:Hp. intros [= <- <-].
  pose proof (poll_write_spec ws _ _ _ _ Hok Hp) as Hs. by destruct q as [|[n|e]]; cbn; destruct_and?.
Qed.

Lemma combined_poll_flush (r0 : R) (x : CombinedStream R W) p x' :
  (writer_ok ws (cs_writer x) /\ cs_reader x = r0) -> poll_flush x = (p, x') ->
  match p with
  | Pending => (writer_ok ws (cs_writer x') /\ cs_reader x' = r0) /\ accepted ws (cs_writer x') = accepted ws (cs_writer x)
  | Ready (Ok _) => (writer_ok ws (cs_writer x') /\ cs_reader x' = r0) /\ accepted ws (cs_writer x') = accepted ws (cs_writer x) /\ settled ws (cs_writer x')
  | Ready (Err _) => True
  end.
Proof.
  intros [Hok Hr]. cbn. destruct (poll_flush (cs_writer x)) as [q w] eqn:Hp. intros [= <- <-].
  pose proof (poll_flush_spec ws _ _ _ Hok Hp) as Hs. by destruct q as [|[n|e]]; cbn; destruct_and?.
Qed.

Definition combined_writer (r0 : R) : WriterSpec (CombinedStream R W) :=
  mkWriterSpec (fun x => accepted ws (cs_writer x)) (fun x => settled ws (cs_writer x)) (fun x => writer_ok ws (cs_writer x) /\ cs_reader x = r0)
    (combined_poll_write r0) (combined_poll_flush r0).

(** * The account of a session *)

Definition half_charged (limit : option Z) (n : Z) : Z := match limit with Some _ => n | None => 0 end.

(** What the session charged and moved since [this0]. *)
Record session_account (this0 : Session) (g0 : Ghost) (log : RelayLog) (this : Session) (g : Ghost) : Prop := mkAccount {
  sa_framed : framed this0 this;
  sa_debt : 0 <= si_c2s_rate_debt_bytes this;
  sa_moves :
    let read := Z.of_nat (length (log_read log)) in
    let written := Z.of_nat (length (log_written log)) in
    moves (half_charged (si_quota_limit this0) (read + written))
      (if si_traffic_lease this0 then si_c2s_rate_debt_bytes this0 + read - si_c2s_rate_debt_bytes this else 0)
      (if si_traffic_lease this0 then written else 0) g0 g;
}.

(** The bytes of the log are those that crossed the stream below. *)
Record session_data (this0 : Session) (log : RelayLog) (this : Session) : Prop := mkData {
  sd_reader : reader_ok rs (cs_reader (si_inner this));
  sd_writer : writer_ok ws (cs_writer (si_inner this));
  sd_read : delivered rs (cs_reader (si_inner this)) = delivered rs (cs_reader (si_inner this0)) ++ log_read log;
  sd_written : accepted ws (cs_writer (si_inner this)) = accepted ws (cs_writer (si_inner this0)) ++ log_written log;
}.

(** A failed session: the log is what crossed the stream, up to the write that
    failed if the stream did not take it. *)
Definition session_failed (this0 : Session) (log : RelayLog) (err : RelayIoError) (this : Session) : Prop :=
  session_data this0 log this \/
  exists e part this1, err = InnerError e /\ session_data this0 log this1 /\
    poll_write part (si_inner this1) = (Ready (Err e), si_inner this).

Definition session_post (fuel : nat) (this0 : Session) (g0 : Ghost) : RelayEnd * RelayLog * Session -> Ghost -> Prop :=
  fun '(e, log, this) g =>
  match e with
  | RelayDone => session_account this0 g0 log this g /\ session_data this0 log this
  | RelayFailed e => session_account this0 g0 log this g /\ session_failed this0 log e this
  | RelayUnfinished => exists this1 g1, session_account this0 g0 log this1 g1 /\ session_data this0 log this1 /\
      (out_of_rounds fuel this1 g1 g \/ Z.of_nat fuel <= g_fired g - g_fired g1)
  end.

Lemma account_read this0 g0 log this g cap p this' g' :
  session_account this0 g0 log this g -> read_post (combined_reader (cs_writer (si_inner this))) cap this g p this' g' ->
  session_account this0 g0 (mkLog (log_read log ++ match p with Ready (Ok bs) => bs | _ => [] end) (log_written log)) this' g'.
Proof.
  intros [[Hq Hl] Hd Hm] [[Hq' Hl'] Hd' Hm' _ _ _]. cbv zeta in Hm, Hm'. constructor; [split; congruence | done |]. cbv zeta. cbn [log_read log_written].
  rewrite length_app. rewrite Hq, Hl in Hm'. eapply moves_trans; [exact Hm | exact Hm' | ..]; unfold half_charged; destruct (si_quota_limit this0), (si_traffic_lease this0), p as [|[bs|]];
    cbn [moved_bytes length]; lia.
Qed.

Lemma account_write this0 g0 log this g buf p this' g' :
  session_account this0 g0 log this g -> write_post (combined_writer (cs_reader (si_inner this))) buf this g p this' g' ->
  session_account this0 g0 (mkLog (log_read log) (log_written log ++ match p with Ready (Ok n) => take n buf | _ => [] end)) this' g'.
Proof.
  intros [[Hq Hl] Hd Hm] [[Hq' Hl'] Hd' Hm' Hdata _]. cbv zeta in Hm, Hm'. constructor; [split; congruence | congruence |]. cbv zeta. cbn [log_read log_written].
  rewrite length_app. rewrite Hq, Hl in Hm'. rewrite Hd'. eapply moves_trans; [exact Hm | exact Hm' | ..]; unfold half_charged;
    destruct (si_quota_limit this0), (si_traffic_lease this0), p as [|[n|]]; cbn [moved_bytes length]; unfold id; rewrite ?length_take; try destruct Hdata as [? _]; lia.
Qed.

Lemma data_read this0 log this g cap p this' g' :
  session_data this0 log this -> read_post (combined_reader (cs_writer (si_inner this))) cap this g p this' g' ->
  session_data this0 (mkLog (log_read log ++ match p with Ready (Ok bs) => bs | _ => [] end) (log_written log)) this'.
Proof.
  intros [Hr Hw Hdr Hdw] [_ _ _ [Hr' Hsame] Hdata _]. cbn in Hr', Hsame, Hdata. constructor; cbn [log_read log_written]; rewrite ?Hsame; try done.
  rewrite app_assoc, <- Hdr. destruct p as [|[bs|]]; [| by destruct Hdata |]; by rewrite Hdata, app_nil_r.
Qed.

Lemma data_write this0 log this g buf p this' g' :
  session_data this0 log this -> write_post (combined_writer (cs_reader (si_inner this))) buf this g p this' g' -> (forall e, p <> Ready (Err (InnerError e))) ->
  session_data this0 (mkLog (log_read log) (log_written log ++ match p with Ready (Ok n) => take n buf | _ => [] end)) this'.
Proof.
  intros [Hr Hw Hdr Hdw] [_ _ _ Hdata _] Hne. cbn in Hdata.
  assert ((writer_ok ws (cs_writer (si_inner this')) /\ cs_reader (si_inner this') = cs_reader (si_inner this)) /\
    accepted ws (cs_writer (si_inner this')) = accepted ws (cs_writer (si_inner this)) ++ match p with Ready (Ok n) => take n buf | _ => [] end) as [[Hok Hsame] Hacc].
  { destruct p as [|[n|[e|]]]; rewrite ?app_nil_r; [done | by destruct Hdata as (_ & ? & ?) | by destruct (Hne e) | done]. }
  constructor; cbn [log_read log_written]; rewrite ?Hsame; try done. by rewrite app_assoc, <- Hdw.
Qed.

(** A stream that may start: below the limit of the system, with buffers that have a
    size. *)
Definition session_ok (L : Z) (this : Session) : Prop :=
  default 0 (si_quota_limit this) <= L /\ L <= umax 64.

Lemma framed_ok L this this' : framed this this' -> session_ok L this -> session_ok L this'.
Proof. intros [Hq _]. unfold session_ok. by rewrite Hq. Qed.

Definition call_ok (call : RelayCall) : Prop := match call with CallRead cap => Z.of_nat cap <= umax 64 | CallWrite _ => True end.

Lemma log_eta log : mkLog (log_read log ++ []) (log_written log) = log /\ mkLog (log_read log) (log_written log ++ []) = log.
Proof. destruct log. cbn. by rewrite !app_nil_r. Qed.

Lemma wp_relay_calls L fuel calls this0 g0 log this g :
  session_ok L this0 -> Forall call_ok calls -> 0 <= g_quota g0 -> session_account this0 g0 log this g -> session_data this0 log this ->
  wp L (relay_calls fuel calls log this) g (session_post fuel this0 g0).
Proof.
  intros Hs0 Hcalls Hg0. revert log this g. induction Hcalls as [|call calls Hcap _ IH]; intros log this g Ha Hd; [done|].
  pose proof (framed_ok _ _ _ (sa_framed _ _ _ _ _ Ha) Hs0) as [HlimL HL].
  assert (0 <= g_quota g) as Hg by (rewrite (mv_quota _ _ _ _ _ (sa_moves _ _ _ _ _ Ha)); unfold half_charged; destruct (si_quota_limit this0); lia).
  destruct (log_eta log) as [Hlr Hlw]. destruct call as [cap|buf]; cbn [relay_calls].
  - eapply wp_seq; [apply (wp_stats_poll_read (combined_reader (cs_writer (si_inner this)))); [|apply Ha|done..]; split; [apply Hd | done]|].
    intros [[p|] this'] g' Ho; [|cbn [wp session_post]; exists this, g; split_and!; [done | done | by left]]. destruct Ho as [Hp _].
    pose proof (account_read _ _ _ _ _ _ _ _ _ Ha Hp) as Ha'. pose proof (data_read _ _ _ _ _ _ _ _ Hd Hp) as Hd'.
    destruct p as [|[bs|e]]; cbn beta iota in Ha', Hd'; rewrite ?Hlr in Ha', Hd'; [by apply IH | by apply IH |].
    cbn [wp session_post]. split; [done | by left].
  - eapply wp_seq; [apply (wp_stats_poll_write (combined_writer (cs_reader (si_inner this)))); [split; [apply Hd | done] | done | | done]|].
    { intros limit Hl. rewrite Hl in HlimL. done. }
    intros [[p|] this'] g' Ho; [|cbn [wp session_post]; exists this, g; split_and!; [done | done | right; apply Ho]]. cbn beta iota in Ho.
    pose proof (account_write _ _ _ _ _ _ _ _ _ Ha Ho) as Ha'. pose proof (data_write _ _ _ _ _ _ _ _ Hd Ho) as Hd'.
    destruct p as [|[n|e]]; cbn beta iota in Ha', Hd'; rewrite ?Hlw in Ha', Hd'; [by apply IH; [|apply Hd'] | by apply IH; [|apply Hd'] |].
    cbn [wp session_post]. split; [done|]. destruct e as [e|]; [|left; by apply Hd']. right.
    destruct (wpo_data _ _ _ _ _ _ _ Ho) as [part Hpart]. by exists e, part, this.
Qed.

Lemma session_begin this g : 0 <= si_c2s_rate_debt_bytes this -> session_account this g (mkLog [] []) this g.
Proof.
  intros Hd. constructor; [done | done |]. cbv zeta. cbn [log_read log_written length]. unfold half_charged.
  replace (si_c2s_rate_debt_bytes this + Z.of_nat 0 - si_c2s_rate_debt_bytes this) with 0 by lia.
  destruct (si_quota_limit this), (si_traffic_lease this); apply moves_refl.
Qed.
End session.
