(* ===== verification/C2me.v ===== *)
(** Payloads of a middle session on their way to the middle proxy
    (proxy/middle_relay/c2me.rs and session.rs): the charge of a payload, its
    flags, the byte budget and the bounded channel between the loop that reads the
    client and the task that sends. *)

From stdpp Require Import base list gmap numbers.
From S2P Require Import Net TrafficLimiter Limiter Prelude Aes RpcWire FairnessScheduler QuotaProg QuotaMiddle.
Local Open Scope Z_scope.
Local Open Scope prog_scope.

Definition C2ME_CHANNEL_CAPACITY_FALLBACK : Z := 128.
Definition C2ME_SENDER_FAIRNESS_BUDGET : Z := 32.
Definition C2ME_QUEUED_BYTE_PERMIT_UNIT : Z := 16 * 1024.
Definition C2ME_QUEUED_PERMITS_PER_SLOT : Z := 4.

Definition should_yield_c2me_sender (sent_since_yield : Z) (has_backlog : bool) : bool :=
  has_backlog && (C2ME_SENDER_FAIRNESS_BUDGET <=? sent_since_yield).

Definition div_ceil (a b : Z) : Z := (a + b - 1) / b.

Definition c2me_payload_permits (payload_len : Z) : Z :=
  Z.min (div_ceil (Z.max payload_len 1) C2ME_QUEUED_BYTE_PERMIT_UNIT) (umax 32).

Definition c2me_queued_permit_budget (channel_capacity frame_limit : Z) : Z :=
  Z.max (Z.max (sat_mul 64 channel_capacity C2ME_QUEUED_PERMITS_PER_SLOT) (c2me_payload_permits frame_limit)) 1.

(** [RPC_FLAG_NOT_ENCRYPTED] of protocol/constants.rs. *)
Definition RPC_FLAG_NOT_ENCRYPTED : Z := 0x2.

(** * The charge of a payload *)

Record ReadConf := mkReadConf { rc_quota_limit : option Z; rc_lease : bool; rc_epoch_start : Instant; rc_wait_fuel : nat; rc_proto_flags : Z }.

(** From the frame that was read to its flags; [bytes_c2me] is the session's
    forensic counter. *)
Definition charge_payload (c : ReadConf) (payload : list Z) (bytes_c2me : Z) : Prog (result MiddleError unit * Z) :=
  let len := Z.of_nat (length payload) in
  do r <- wait_for_traffic_budget (rc_epoch_start c) (rc_wait_fuel c) (rc_lease c) Up len None;
  match r with
  | Err e => Ret (Err e, bytes_c2me)
  | Ok _ =>
      let bytes_c2me := sat_add 64 bytes_c2me len in
      match rc_quota_limit c with
      | None => Ret (Ok tt, bytes_c2me)
      | Some limit =>
          do r <- reserve_user_quota_with_yield len limit None;
          Ret (match r with
               | Ok _ => Ok tt
               | Err MqLimitExceeded => Err DataQuotaExceeded
               | Err e => Err (QuotaFailed e)
               end, bytes_c2me)
      end
  end.

Definition payload_flags (proto_flags : Z) (payload : list Z) (quickack : bool) : Z :=
  let flags := if quickack then Z.lor proto_flags RPC_FLAG_QUICKACK else proto_flags in
  if (8 <=? length payload)%nat && forallb (fun b => b =? 0) (take 8 payload) then Z.lor flags RPC_FLAG_NOT_ENCRYPTED else flags.

(** * Channel and byte budget *)

Inductive C2MeCommand := CmdData (payload : list Z) (flags : Z) (permit : Z) | CmdClose.

Definition cmd_permit (cmd : C2MeCommand) : Z := match cmd with CmdData _ _ n => n | CmdClose => 0 end.
Definition cmd_request (cmd : C2MeCommand) : list (list Z * Z) := match cmd with CmdData p f _ => [(p, f)] | CmdClose => [] end.

Inductive C2MeError := ByteBudgetTimeout | SenderChannelClosed.

(** Where the reading loop is: between frames, waiting for permits, about to send,
    waiting for a slot, or done. *)
Inductive Reading :=
  | Idle
  | Acquiring (payload : list Z) (flags : Z)
  | Sending (cmd : C2MeCommand)
  | Reserving (cmd : C2MeCommand)
  | Stopped (e : option C2MeError).

(** Where the sending task is. *)
Inductive Sender := Receiving | InSend (payload : list Z) (flags permit : Z) | Returned (ok : bool).

(** [cm_in_flight] are the permits of requests that a writer of the pool still
    holds; [cm_submitted] and [cm_sent] are the requests the loop began with and
    those the pool took. *)
Record C2Me := mkC2Me {
  cm_available : Z;
  cm_queue : list C2MeCommand;
  cm_reading : Reading;
  cm_sender : Sender;
  cm_since_yield : Z;
  cm_in_flight : list Z;
  cm_pressure_events : Z;
  cm_submitted : list (list Z * Z);
  cm_sent : list (list Z * Z);
}.

Definition c2me_new (channel_capacity frame_limit : Z) : C2Me :=
  mkC2Me (c2me_queued_permit_budget channel_capacity frame_limit) [] Idle Receiving 0 [] 0 [] [].

Section queue.
Context (channel_capacity : Z) (send_timeout : bool).

Definition set_reading (r : Reading) (s : C2Me) : C2Me :=
  mkC2Me (cm_available s) (cm_queue s) r (cm_sender s) (cm_since_yield s) (cm_in_flight s) (cm_pressure_events s) (cm_submitted s) (cm_sent s).
Definition add_available (n : Z) (s : C2Me) : C2Me :=
  mkC2Me (cm_available s + n) (cm_queue s) (cm_reading s) (cm_sender s) (cm_since_yield s) (cm_in_flight s) (cm_pressure_events s) (cm_submitted s) (cm_sent s).
Definition set_queue (q : list C2MeCommand) (s : C2Me) : C2Me :=
  mkC2Me (cm_available s) q (cm_reading s) (cm_sender s) (cm_since_yield s) (cm_in_flight s) (cm_pressure_events s) (cm_submitted s) (cm_sent s).
Definition set_sender (x : Sender) (s : C2Me) : C2Me :=
  mkC2Me (cm_available s) (cm_queue s) (cm_reading s) x (cm_since_yield s) (cm_in_flight s) (cm_pressure_events s) (cm_submitted s) (cm_sent s).
Definition note_pressure (s : C2Me) : C2Me :=
  mkC2Me (cm_available s) (cm_queue s) (cm_reading s) (cm_sender s) (cm_since_yield s) (cm_in_flight s) (cm_pressure_events s + 1) (cm_submitted s) (cm_sent s).

Definition receiver_open (s : C2Me) : bool := match cm_sender s with Returned _ => false | _ => true end.
Definition has_slot (s : C2Me) : bool := Z.of_nat (length (cm_queue s)) <? channel_capacity.

(** A command that is not sent is dropped with its permit; after a close the loop
    stops whatever became of it. *)
Definition fail_send (cmd : C2MeCommand) (s : C2Me) : C2Me :=
  add_available (cmd_permit cmd) (set_reading (Stopped (match cmd with CmdData _ _ _ => Some SenderChannelClosed | CmdClose => None end)) s).

Definition push (cmd : C2MeCommand) (s : C2Me) : C2Me :=
  set_reading (match cmd with CmdData _ _ _ => Idle | CmdClose => Stopped None end) (set_queue (cm_queue s ++ [cmd]) s).

(** The receiver goes with the task: what is queued is dropped. *)
Definition sender_returns (ok : bool) (s : C2Me) : C2Me :=
  add_available (foldr (fun cmd n => cmd_permit cmd + n) 0 (cm_queue s)) (set_queue [] (set_sender (Returned ok) s)).

(** [acquire_c2me_payload_permit] and [enqueue_c2me_command_in], from one await to
    the next, and the rounds of the sending task. *)
Inductive C2MeEvent :=
  | EvPayload (payload : list Z) (flags : Z)
  | EvClose
  | EvAcquire
  | EvAcquireTimeout
  | EvTrySend
  | EvReserve
  | EvReserveTimeout
  | EvRecv
  | EvSent (ok : bool)
  | EvReleased (i : nat).

(** An event that cannot happen changes nothing. *)
Definition c2me_step (ev : C2MeEvent) (s : C2Me) : C2Me :=
  match ev, cm_reading s with
  | EvPayload payload flags, Idle =>
      mkC2Me (cm_available s) (cm_queue s) (Acquiring payload flags) (cm_sender s) (cm_since_yield s) (cm_in_flight s) (cm_pressure_events s)
        (cm_submitted s ++ [(payload, flags)]) (cm_sent s)
  | EvClose, Idle => set_reading (Sending CmdClose) s
  | EvAcquire, Acquiring payload flags =>
      let permits := c2me_payload_permits (Z.of_nat (length payload)) in
      if permits <=? cm_available s then add_available (- permits) (set_reading (Sending (CmdData payload flags permits)) s) else s
  | EvAcquireTimeout, Acquiring _ _ => if send_timeout then set_reading (Stopped (Some ByteBudgetTimeout)) s else s
  | EvTrySend, Sending cmd =>
      if negb (receiver_open s) then fail_send cmd s
      else if has_slot s then push cmd s
      else note_pressure (set_reading (Reserving cmd) s)
  | EvReserve, Reserving cmd =>
      if negb (receiver_open s) then fail_send cmd s
      else if has_slot s then push cmd s
      else s
  | EvReserveTimeout, Reserving cmd => if send_timeout then fail_send cmd s else s
  | EvRecv, _ =>
      match cm_sender s, cm_queue s with
      | Receiving, CmdData payload flags permit :: q => set_sender (InSend payload flags permit) (set_queue q s)
      | Receiving, CmdClose :: q => sender_returns true (set_queue q s)
      | _, _ => s
      end
  | EvSent ok, _ =>
      match cm_sender s with
      | InSend payload flags permit =>
          if ok then
            let since := sat_add 64 (cm_since_yield s) 1 in
            let yields := should_yield_c2me_sender since (negb (bool_decide (cm_queue s = []))) in
            mkC2Me (cm_available s) (cm_queue s) (cm_reading s) Receiving (if yields then 0 else since) (cm_in_flight s ++ [permit])
              (cm_pressure_events s) (cm_submitted s) (cm_sent s ++ [(payload, flags)])
          else sender_returns false (add_available permit s)
      | _ => s
      end
  | EvReleased i, _ =>
      match cm_in_flight s !! i with
      | Some permit =>
          mkC2Me (cm_available s + permit) (cm_queue s) (cm_reading s) (cm_sender s) (cm_since_yield s) (delete i (cm_in_flight s))
            (cm_pressure_events s) (cm_submitted s) (cm_sent s)
      | None => s
      end
  | _, _ => s
  end.

Definition c2me_run (evs : list C2MeEvent) (s : C2Me) : C2Me := foldl (fun s ev => c2me_step ev s) s evs.
End queue.

(** * What holds of the queue *)

Definition total_permits (cmds : list C2MeCommand) : Z := foldr (fun cmd n => cmd_permit cmd + n) 0 cmds.

(** Commands in the hands of the loop and of the task. *)
Definition reading_cmds (r : Reading) : list C2MeCommand := match r with Sending cmd | Reserving cmd => [cmd] | _ => [] end.
Definition sender_cmds (x : Sender) : list C2MeCommand := match x with InSend p f n => [CmdData p f n] | _ => [] end.
Definition reading_requests (r : Reading) : list (list Z * Z) :=
  match r with Acquiring p f => [(p, f)] | Sending cmd | Reserving cmd => cmd_request cmd | _ => [] end.
Definition queued_requests (cmds : list C2MeCommand) : list (list Z * Z) := concat (cmd_request <$> cmds).

(** Everything between the client and the pool. *)
Definition resident (s : C2Me) : list C2MeCommand := sender_cmds (cm_sender s) ++ cm_queue s ++ reading_cmds (cm_reading s).

Definition permit_exact (cmd : C2MeCommand) : Prop :=
  match cmd with CmdData p _ n => n = c2me_payload_permits (Z.of_nat (length p)) | CmdClose => True end.

Definition requests_of (s : C2Me) : list (list Z * Z) := queued_requests (sender_cmds (cm_sender s)) ++ queued_requests (cm_queue s).

(** The permits are all accounted for, the channel keeps to its capacity, and the
    requests are in the order of their frames; some are lost only when the session
    ends. *)
Record c2me_inv (capacity budget : Z) (s : C2Me) : Prop := mkC2meInv {
  ci_permits : cm_available s + total_permits (resident s) + foldr Z.add 0 (cm_in_flight s) = budget;
  ci_available : 0 <= cm_available s;
  ci_exact : Forall permit_exact (resident s);
  ci_in_flight : Forall (fun n => 1 <= n) (cm_in_flight s);
  ci_capacity : Z.of_nat (length (cm_queue s)) <= capacity;
  ci_order : exists lost, cm_submitted s = cm_sent s ++ requests_of s ++ lost ++ reading_requests (cm_reading s) /\
    (lost <> [] -> receiver_open s = false \/ exists e, cm_reading s = Stopped e);
  ci_sender : receiver_open s = false -> cm_queue s = [];
}.

Lemma total_permits_app l l' : total_permits (l ++ l') = total_permits l + total_permits l'.
Proof. unfold total_permits. induction l as [|x l IH]; cbn [foldr app]; lia. Qed.
Lemma queued_requests_app l l' : queued_requests (l ++ l') = queued_requests l ++ queued_requests l'.
Proof. unfold queued_requests. by rewrite fmap_app, concat_app. Qed.

Lemma queued_requests_one cmd : queued_requests [cmd] = cmd_request cmd.
Proof. unfold queued_requests. cbn. by rewrite app_nil_r. Qed.
#[local] Arguments queued_requests : simpl never.

Lemma payload_permits_pos n : 1 <= c2me_payload_permits n.
Proof.
  unfold c2me_payload_permits, div_ceil, C2ME_QUEUED_BYTE_PERMIT_UNIT. apply Z.min_glb; [|done].
  apply Z.div_le_lower_bound; lia.
Qed.

Lemma total_permits_nonneg l : Forall permit_exact l -> 0 <= total_permits l.
Proof.
  induction 1 as [|cmd l Hc _ IH]; [done|]. unfold total_permits in *. cbn [foldr]. destruct cmd as [p f n|]; cbn in *; [|lia].
  pose proof (payload_permits_pos (Z.of_nat (length p))). lia.
Qed.

Lemma sum_pos_nonneg l : Forall (fun n => 1 <= n) l -> 0 <= foldr Z.add 0 l.
Proof. induction 1; cbn [foldr]; lia. Qed.

Section steps.
Context (capacity : Z) (send_timeout : bool) (budget : Z).
Notation inv := (c2me_inv capacity budget).

(** The loop moves on with the commands in its hand, or drops them. *)
Lemma reading_inv s r avail pressure :
  inv s -> avail + total_permits (reading_cmds r) = cm_available s + total_permits (reading_cmds (cm_reading s)) -> 0 <= avail ->
  Forall permit_exact (reading_cmds r) ->
  (reading_requests r = reading_requests (cm_reading s) \/ reading_requests r = [] /\ exists e, r = Stopped e) ->
  (forall e, cm_reading s = Stopped e -> r = cm_reading s) ->
  inv (mkC2Me avail (cm_queue s) r (cm_sender s) (cm_since_yield s) (cm_in_flight s) pressure (cm_submitted s) (cm_sent s)).
Proof.
  intros [Hp Ha He Hf Hc (lost & Ho & Hl) Hs] Hav Hav0 Hex Hr Hst. unfold resident in *. rewrite !total_permits_app in Hp.
  rewrite !Forall_app in He. constructor; cbn; try done.
  - unfold resident. cbn. rewrite !total_permits_app. lia.
  - unfold resident. cbn. rewrite !Forall_app. tauto.
  - unfold requests_of, receiver_open in *. cbn. destruct Hr as [->|[-> (e & ->)]].
    + exists lost. split; [done|]. intros Hne. destruct (Hl Hne) as [?|(e & He')]; [by left|]. right. exists e. by rewrite (Hst _ He').
    + exists (lost ++ reading_requests (cm_reading s)). rewrite app_nil_r. split; [done|]. intros _. right. by exists e.
Qed.

Lemma fail_send_inv cmd s : inv s -> reading_cmds (cm_reading s) = [cmd] -> inv (fail_send cmd s).
Proof.
  intros Hi Hr. pose proof Hi as [Hp Ha He _ _ _ _]. unfold resident in He. rewrite !Forall_app, Hr in He. destruct He as (_ & _ & Hc).
  pose proof (total_permits_nonneg _ Hc) as Hn. cbn in Hn. apply (reading_inv s _ (cm_available s + cmd_permit cmd)); try done.
  - rewrite Hr. cbn. lia.
  - lia.
  - right. by split; [|eexists].
  - intros e Heq. rewrite Heq in Hr. done.
Qed.

Lemma push_inv cmd s : inv s -> reading_cmds (cm_reading s) = [cmd] -> receiver_open s = true -> has_slot capacity s = true -> inv (push cmd s).
Proof.
  intros [Hp Ha He Hf Hc (lost & Ho & Hl) Hs] Hr Hopen Hslot. unfold has_slot in Hslot. apply Z.ltb_lt in Hslot.
  assert (reading_requests (cm_reading s) = cmd_request cmd) as Hreq by (destruct (cm_reading s); cbn in Hr; by simplify_eq).
  assert (lost = []) as ->.
  { destruct lost as [|x lost]; [done|]. destruct (Hl ltac:(done)) as [Hx|(e & Hx)]; [congruence | by rewrite Hx in Hr]. }
  unfold resident in *. rewrite Hr in *. unfold push. constructor; cbn; try done.
  - unfold resident. cbn. rewrite !total_permits_app in *. destruct cmd; cbn in *; lia.
  - unfold resident. cbn. rewrite !Forall_app in *. destruct cmd; cbn; intuition.
  - rewrite length_app. cbn. lia.
  - exists []. split; [|done]. unfold requests_of in *. cbn. rewrite queued_requests_app, queued_requests_one, Ho, Hreq. cbn.
    rewrite <- !app_assoc. do 4 f_equal. by destruct cmd; rewrite ?app_nil_r.
  - unfold receiver_open in *. cbn. congruence.
Qed.

Lemma returns_inv ok s avail dropped q :
  inv s -> receiver_open s = true -> sender_cmds (cm_sender s) ++ cm_queue s = dropped ++ q -> avail = cm_available s + total_permits dropped ->
  inv (sender_returns ok (mkC2Me avail q (cm_reading s) (cm_sender s) (cm_since_yield s) (cm_in_flight s) (cm_pressure_events s) (cm_submitted s) (cm_sent s))).
Proof.
  intros [Hp Ha He Hf Hc (lost & Ho & Hl) Hs] Hopen Hq ->. unfold resident in *. rewrite app_assoc, Hq in Hp, He. rewrite !total_permits_app in Hp. rewrite !Forall_app in He.
  destruct He as [[Hd Hq'] Hr]. pose proof (total_permits_nonneg _ Hd). pose proof (total_permits_nonneg _ Hq'). unfold sender_returns. constructor; cbn; try done.
  - unfold resident. cbn. fold (total_permits q) (total_permits (reading_cmds (cm_reading s))). lia.
  - fold (total_permits q). lia.
  - pose proof (Zle_0_nat (length (cm_queue s))). lia.
  - exists (requests_of s ++ lost). split; [unfold requests_of in *; cbn; by rewrite <- !app_assoc in * | by left].
Qed.

Lemma sum_delete l i n : l !! i = Some n -> foldr Z.add 0 (delete i l) = foldr Z.add 0 l - n.
Proof.
  revert i. induction l as [|x l IH]; intros i Hi; [done|]. destruct i as [|i]; cbn in Hi; [simplify_eq; cbn; lia|].
  change (delete (S i) (x :: l)) with (x :: delete i l). cbn [foldr]. rewrite (IH _ Hi). lia.
Qed.

Lemma sum_app l l' : foldr Z.add 0 (l ++ l') = foldr Z.add 0 l + foldr Z.add 0 l'.
Proof. induction l as [|x l IH]; cbn [foldr app]; lia. Qed.

Lemma recv_inv s cmd q : inv s -> cm_sender s = Receiving -> cm_queue s = cmd :: q ->
  inv (match cmd with CmdData payload flags permit => set_sender (InSend payload flags permit) (set_queue q s) | CmdClose => sender_returns true (set_queue q s) end).
Proof.
  intros Hi Hx Hq. destruct cmd as [payload flags permit|].
  - destruct Hi as [Hp Ha He Hf Hc (lost & Ho & Hl) Hs]. unfold resident, requests_of, receiver_open in *. rewrite Hx, Hq in *. cbn in Hc, Hp. constructor; cbn; try done.
    + lia.
    + by exists lost.
  - apply (returns_inv true s (cm_available s) [CmdClose] q); [done | by unfold receiver_open; rewrite Hx | by rewrite Hx, Hq | cbn; lia].
Qed.

Lemma sent_inv s payload flags permit since : inv s -> cm_sender s = InSend payload flags permit ->
  inv (mkC2Me (cm_available s) (cm_queue s) (cm_reading s) Receiving since (cm_in_flight s ++ [permit])
    (cm_pressure_events s) (cm_submitted s) (cm_sent s ++ [(payload, flags)])).
Proof.
  intros [Hp Ha He Hf Hc (lost & Ho & Hl) Hs] Hx. unfold resident, requests_of, receiver_open in *. rewrite Hx in *. cbn in Hp, He.
  apply Forall_cons_1 in He as [Hpe He]. cbn in Hpe. pose proof (payload_permits_pos (Z.of_nat (length payload))).
  constructor; cbn; try done.
  - unfold resident. cbn. rewrite sum_app. cbn. lia.
  - rewrite Forall_app. split; [done|]. constructor; [lia | done].
  - exists lost. split; [|done]. rewrite Ho. cbn. by rewrite <- !app_assoc.
Qed.

Ltac moves_on s Hi Hr := apply (reading_inv s); rewrite ?Hr; cbn;
  first [done | lia | apply Hi | by left | by repeat constructor | right; by split; [|eexists] | idtac].

Lemma c2me_step_inv ev s : inv s -> inv (c2me_step capacity send_timeout ev s).
Proof.
  intros Hi. unfold c2me_step. destruct ev as [payload flags| | | | | | | |ok|i].
  - destruct (cm_reading s) eqn:Hr; try done. destruct Hi as [Hp Ha He Hf Hc (lost & Ho & Hl) Hs]. unfold resident, requests_of, receiver_open in *. rewrite Hr in *.
    constructor; cbn; try done. exists lost. unfold requests_of. rewrite Ho. cbn. rewrite app_nil_r, <- !app_assoc. split; [done|]. intros Hne. destruct (Hl Hne) as [?|(e & ?)]; [by left | done].
  - destruct (cm_reading s) eqn:Hr; try done. moves_on s Hi Hr.
  - destruct (cm_reading s) eqn:Hr; try done. cbv zeta. destruct (Z.leb_spec (c2me_payload_permits (Z.of_nat (length payload))) (cm_available s)); [|done].
    moves_on s Hi Hr.
  - destruct (cm_reading s) eqn:Hr; try done. destruct send_timeout; [|done]. moves_on s Hi Hr.
  - destruct (cm_reading s) eqn:Hr; try done. destruct (receiver_open s) eqn:Ho; cbn [negb]; [|apply fail_send_inv; by rewrite ?Hr].
    destruct (has_slot capacity s) eqn:Hsl; [apply push_inv; by rewrite ?Hr|]. moves_on s Hi Hr.
    pose proof (ci_exact _ _ _ Hi) as He. unfold resident in He. rewrite Hr, !Forall_app in He. apply He.
  - destruct (cm_reading s) eqn:Hr; try done. destruct (receiver_open s) eqn:Ho; cbn [negb]; [|apply fail_send_inv; by rewrite ?Hr].
    destruct (has_slot capacity s) eqn:Hsl; [apply push_inv; by rewrite ?Hr | done].
  - destruct (cm_reading s) eqn:Hr; try done. destruct send_timeout; [|done]. apply fail_send_inv; by rewrite ?Hr.
  - assert (inv match cm_sender s, cm_queue s with
      | Receiving, CmdData payload flags permit :: q => set_sender (InSend payload flags permit) (set_queue q s)
      | Receiving, CmdClose :: q => sender_returns true (set_queue q s)
      | _, _ => s
      end) as Hrecv; [|by destruct (cm_reading s)].
    destruct (cm_sender s) eqn:Hx; try done. destruct (cm_queue s) as [|cmd q] eqn:Hq; [done|]. pose proof (recv_inv _ _ _ Hi Hx Hq). by destruct cmd.
  - destruct (cm_sender s) as [|payload flags permit|] eqn:Hx; try (by destruct (cm_reading s)). destruct ok.
    + pose proof (sent_inv s payload flags permit) as Hsent. destruct (cm_reading s); by apply Hsent.
    + assert (inv (sender_returns false (add_available permit s))) as Hret; [|by destruct (cm_reading s)].
      apply (returns_inv false s (cm_available s + permit) [CmdData payload flags permit] (cm_queue s)); [done | by unfold receiver_open; rewrite Hx | by rewrite Hx | cbn; lia].
  - destruct (cm_in_flight s !! i) as [permit|] eqn:Hl; [|by destruct (cm_reading s)].
    assert (inv (mkC2Me (cm_available s + permit) (cm_queue s) (cm_reading s) (cm_sender s) (cm_since_yield s) (delete i (cm_in_flight s))
      (cm_pressure_events s) (cm_submitted s) (cm_sent s))) as Hrel; [|by destruct (cm_reading s)].
    destruct Hi as [Hp Ha He Hf Hc Ho Hs]. pose proof (Forall_lookup_1 _ _ _ _ Hf Hl) as Hpos. cbn in Hpos. constructor; cbn; try done.
    + unfold resident in *. cbn. rewrite (sum_delete _ _ _ Hl). lia.
    + lia.
    + by apply Forall_delete.
Qed.

Lemma c2me_run_inv evs s : inv s -> inv (c2me_run capacity send_timeout evs s).
Proof. revert s. induction evs as [|ev evs IH]; intros s Hi; [done|]. cbn. by apply IH, c2me_step_inv. Qed.
End steps.

Lemma c2me_new_inv capacity frame_limit : 0 <= capacity -> c2me_inv capacity (c2me_queued_permit_budget capacity frame_limit) (c2me_new capacity frame_limit).
Proof.
  intros Hc. constructor; cbn; try done; [lia | unfold c2me_queued_permit_budget; lia |]. exists []. by split.
Qed.

(** A permit is worth its unit of bytes. *)
Lemma permits_cover n : 0 <= n <= C2ME_QUEUED_BYTE_PERMIT_UNIT * umax 32 -> n <= C2ME_QUEUED_BYTE_PERMIT_UNIT * c2me_payload_permits n.
Proof.
  unfold c2me_payload_permits, div_ceil, C2ME_QUEUED_BYTE_PERMIT_UNIT. intros Hn.
  pose proof (Z.div_mod (Z.max n 1 + 16 * 1024 - 1) (16 * 1024) ltac:(lia)). pose proof (Z.mod_pos_bound (Z.max n 1 + 16 * 1024 - 1) (16 * 1024) ltac:(lia)). lia.
Qed.

Lemma permits_mono n m : n <= m -> c2me_payload_permits n <= c2me_payload_permits m.
Proof.
  intros Hle. unfold c2me_payload_permits, div_ceil, C2ME_QUEUED_BYTE_PERMIT_UNIT. apply Z.min_le_compat_r, Z.div_le_mono; lia.
Qed.

Lemma queued_request p f n cmds : CmdData p f n ∈ cmds -> (p, f) ∈ queued_requests cmds.
Proof.
  intros Hin. apply list_elem_of_split in Hin as (l1 & l2 & ->). rewrite queued_requests_app.
  change (CmdData p f n :: l2) with ([CmdData p f n] ++ l2). rewrite queued_requests_app, queued_requests_one, !elem_of_app. right. left. apply list_elem_of_here.
Qed.

Lemma resident_request p f n s : CmdData p f n ∈ resident s -> (p, f) ∈ requests_of s ++ reading_requests (cm_reading s).
Proof.
  unfold resident, requests_of. rewrite !elem_of_app. intros [Hin|[Hin|Hin]]; [left; left; by eapply queued_request | left; right; by eapply queued_request|].
  right. destruct (cm_reading s); cbn in Hin; try (by apply elem_of_nil in Hin); apply list_elem_of_singleton in Hin; subst; apply list_elem_of_here.
Qed.
