(* ===== verification/UserQuota.v ===== *)
(** The sessions of one user at once: direct sessions, the reading and the writing
    side of middle sessions, all debiting the same quota counter. *)

From stdpp Require Import base list gmap numbers.
From S2P Require Import Net TrafficLimiter Limiter Prelude Aes Random Stream ClientWrite ConnRoute QuotaProg QuotaIo QuotaIoSpec QuotaMiddle MeWriterTask MeWriterSpec RelaySession C2me.
Local Open Scope Z_scope.
Local Open Scope prog_scope.

(** * The reading side of a middle session *)

Definition total_bytes (ps : list (list Z)) : Z := foldr (fun p n => Z.of_nat (length p) + n) 0 ps.

Lemma total_bytes_app l l' : total_bytes (l ++ l') = total_bytes l + total_bytes l'.
Proof. unfold total_bytes. induction l as [|x l IH]; cbn [foldr app]; lia. Qed.

(** Frames charged one after another; those that were let through. *)
Fixpoint charge_payloads (c : ReadConf) (payloads passed : list (list Z)) (bytes_c2me : Z) : Prog (result MiddleError unit * list (list Z) * Z) :=
  match payloads with
  | [] => Ret (Ok tt, passed, bytes_c2me)
  | p :: payloads =>
      do (r, bytes) <- charge_payload c p bytes_c2me;
      match r with
      | Ok _ => charge_payloads c payloads (passed ++ [p]) bytes
      | Err e => Ret (Err e, passed, bytes)
      end
  end.

Definition read_conf_ok (L : Z) (c : ReadConf) : Prop := default 0 (rc_quota_limit c) <= L /\ L <= umax 64.

(** What a reading session charged for the frames it let through; of the one it
    stopped at, the lease may have granted a part and the quota nothing. *)
Definition reading_post (c : ReadConf) (payloads : list (list Z)) (g : Ghost) : result MiddleError unit * list (list Z) * Z -> Ghost -> Prop :=
  fun '(r, passed, bytes_c2me) g' =>
  match r with
  | Ok _ => passed = payloads /\
      moves (half_charged (rc_quota_limit c) (total_bytes passed)) (if rc_lease c then total_bytes passed else 0) 0 g g'
  | Err e => exists p rest n, payloads = passed ++ p :: rest /\ 0 <= n <= Z.of_nat (length p) /\
      moves (half_charged (rc_quota_limit c) (total_bytes passed)) (if rc_lease c then total_bytes passed + n else 0) 0 g g' /\
      match e with
      | DataQuotaExceeded | QuotaFailed _ => rc_quota_limit c <> None
      | WaitUnfinished => Z.of_nat (rc_wait_fuel c) <= Z.of_nat (length p) + (g_fired g' - g_fired g)
      | _ => False
      end
  end.

Lemma wp_charge_payload L c p bytes g : read_conf_ok L c ->
  wp L (charge_payload c p bytes) g (fun '(r, _) g' =>
    let len := Z.of_nat (length p) in
    match r with
    | Ok _ => moves (half_charged (rc_quota_limit c) len) (if rc_lease c then len else 0) 0 g g'
    | Err e => exists n, 0 <= n <= len /\ moves 0 (if rc_lease c then n else 0) 0 g g' /\
        match e with
        | DataQuotaExceeded | QuotaFailed _ => rc_quota_limit c <> None
        | WaitUnfinished => Z.of_nat (rc_wait_fuel c) <= len + (g_fired g' - g_fired g)
        | _ => False
        end
    end).
Proof.
  intros [Hlim HL]. unfold charge_payload. cbv zeta. set (len := Z.of_nat (length p)). assert (0 <= len) as Hlen by lia.
  apply wp_seq with (Q := fun r g1 => match r with
    | Ok _ => moves 0 (if rc_lease c then len else 0) 0 g g1
    | Err e => e = WaitUnfinished /\ Z.of_nat (rc_wait_fuel c) <= len + (g_fired g1 - g_fired g) /\
        exists n, 0 <= n <= len /\ moves 0 (if rc_lease c then n else 0) 0 g g1
    end).
  - eapply wp_mono; [reflexivity | | by apply wp_wait_for_traffic_budget]. intros r g1 Hr. cbn beta in Hr. destruct (rc_lease c).
    + destruct r as [[]|e]; [done|]. destruct Hr as [(n & Hn & Hm) He]. destruct e; try done. split_and!; [done | done |]. exists n. split; [lia | done].
    + destruct Hr as [-> ->]. apply moves_refl.
  - intros [[]|e] g1 Hw; cbn [wp].
    2:{ destruct Hw as (-> & Hf & n & Hn & Hm). exists n. split_and!; [lia | lia | done | done]. }
    destruct (rc_quota_limit c) as [limit|]; cbn [wp half_charged]; [|done].
    apply wp_bind, wp_reserve_user_quota; [done | done | done | |]; cbn [wp].
    + intros g' Hm. eapply moves_trans; [exact Hw | exact Hm | lia..].
    + intros e g' Hm _ _. assert (moves 0 (if rc_lease c then len else 0) 0 g g') as Hm2 by (eapply moves_trans; [exact Hw | exact Hm | lia..]).
      destruct e; exists len; (split_and!; [lia | lia | done | done]).
Qed.

Lemma wp_charge_payloads L c payloads passed bytes g0 g : read_conf_ok L c ->
  moves (half_charged (rc_quota_limit c) (total_bytes passed)) (if rc_lease c then total_bytes passed else 0) 0 g0 g ->
  wp L (charge_payloads c payloads passed bytes) g (reading_post c (passed ++ payloads) g0).
Proof.
  intros Hc. revert passed bytes g. induction payloads as [|p payloads IH]; intros passed bytes g Hm; cbn [charge_payloads].
  { cbn [wp reading_post]. by rewrite app_nil_r. }
  eapply wp_seq; [by apply wp_charge_payload|]. intros [[[]|e] bytes'] g' Hp; cbv zeta in Hp.
  - replace (passed ++ p :: payloads) with ((passed ++ [p]) ++ payloads) by (by rewrite <- app_assoc). apply IH. rewrite total_bytes_app. cbn.
    eapply moves_trans; [exact Hm | exact Hp | ..]; unfold half_charged; destruct (rc_quota_limit c), (rc_lease c); lia.
  - cbn [wp reading_post]. destruct Hp as (n & Hn & Hm2 & He). exists p, payloads, n. split_and!; [done | lia | lia | |].
    + eapply moves_trans; [exact Hm | exact Hm2 | ..]; unfold half_charged; destruct (rc_quota_limit c), (rc_lease c); lia.
    + destruct e; try done. pose proof (mv_fired _ _ _ _ _ Hm). lia.
Qed.

(** * All sessions *)

Section user.
Context {R W : Type} `{AsyncRead R} `{AsyncWrite W} {V : Type} `{AsyncWrite V} {G : Type} `{StdRng G} `{StreamKey}.

Inductive UserTask :=
  | DirectTask (fuel : nat) (calls : list RelayCall) (this : StatsIo (CombinedStream R W))
  | MiddleReading (c : ReadConf) (payloads : list (list Z))
  | MiddleWriting (c : WriterConf) (rx : list MeResponse) (t : MeTask V G).

Inductive UserOut :=
  | DirectOut (out : RelayEnd * RelayLog * StatsIo (CombinedStream R W))
  | ReadingOut (out : result MiddleError unit * list (list Z) * Z)
  | WritingOut (out : result MiddleError unit * list MeResponse * MeTask V G).

Definition user_task (task : UserTask) : Prog UserOut :=
  match task with
  | DirectTask fuel calls this => do out <- relay_calls fuel calls (mkLog [] []) this; Ret (DirectOut out)
  | MiddleReading c payloads => do out <- charge_payloads c payloads [] 0; Ret (ReadingOut out)
  | MiddleWriting c rx t => do out <- me_writer c (length rx) rx t; Ret (WritingOut out)
  end.

Definition start_tasks (tasks : list UserTask) : list (Thread UserOut) := (fun p => mkThread p ghost_0) <$> (user_task <$> tasks).
End user.
Arguments UserTask : clear implicits.
Arguments UserOut : clear implicits.

Section user_spec.
Context {R W : Type} `{AsyncRead R} `{AsyncWrite W} {V : Type} `{AsyncWrite V} {G : Type} `{StdRngLaws G} `{StreamKey}.
Context (rs : ReaderSpec R) (ws : WriterSpec W) (vs : WriterSpec V).

(** A task that keeps to the limit [L] and starts on streams in order. *)
Definition task_ok (L : Z) (task : UserTask R W V G) : Prop :=
  match task with
  | DirectTask _ calls this => session_ok L this /\ Forall call_ok calls /\ 0 <= si_c2s_rate_debt_bytes this /\
      reader_ok rs (cs_reader (si_inner this)) /\ writer_ok ws (cs_writer (si_inner this))
  | MiddleReading c _ => read_conf_ok L c
  | MiddleWriting c _ t => conf_ok c L /\ writer_ok vs (mt_writer t) /\ settled vs (mt_writer t)
  end.

Definition user_post (task : UserTask R W V G) (out : UserOut R W V G) (g : Ghost) : Prop :=
  match task, out with
  | DirectTask fuel _ this, DirectOut out => session_post rs ws fuel this ghost_0 out g
  | MiddleReading c payloads, ReadingOut out => reading_post c payloads ghost_0 out g
  | MiddleWriting c rx t, WritingOut out => task_post vs c rx t ghost_0 out g
  | _, _ => False
  end.

Lemma wp_user_task L task : task_ok L task -> wp L (user_task task) ghost_0 (user_post task).
Proof.
  destruct task as [fuel calls this|c payloads|c rx t]; cbn [user_task task_ok].
  - intros (Hs & Hcalls & Hd & Hr & Hw). apply wp_bind.
    eapply wp_mono; [reflexivity | | apply (wp_relay_calls rs ws L fuel calls this ghost_0); [done | done | done | by apply session_begin |]]; [done|].
    constructor; cbn; by rewrite ?app_nil_r.
  - intros Hc. apply wp_bind. eapply wp_mono; [reflexivity | | apply (wp_charge_payloads L c payloads [] 0 ghost_0 ghost_0 Hc)]; [done|].
    cbn. unfold half_charged. destruct (rc_quota_limit c), (rc_lease c); apply moves_refl.
  - intros (Hc & Hw & Hset). apply wp_bind. eapply wp_mono; [reflexivity | | by apply (wp_me_writer vs c L)]. done.
Qed.

(** The system of the user's tasks stays in order. *)
Lemma user_system_ok L base schedule tasks : 0 <= base <= umax 64 -> L <= umax 64 -> Forall (task_ok L) tasks ->
  system_ok L base (fun i out g => exists task, tasks !! i = Some task /\ user_post task out g)
    (run_system schedule (base, start_tasks tasks)).
Proof.
  intros Hbase HL Htasks. apply run_system_ok; [done | done|].
  apply system_start.
  intros i p Hp. rewrite list_lookup_fmap in Hp. destruct (tasks !! i) as [task|] eqn:Ht; [|done]. injection Hp as <-.
  eapply wp_mono; [reflexivity | | apply (wp_user_task L)]; [by intros out g Hpost; exists task | by eapply Forall_lookup_1].
Qed.
End user_spec.
