(* ===== verification/QuotaStore.v ===== *)
(** The quota of every user (stats/quota_store.rs) and its file (quota_state.rs). *)

From stdpp Require Import base list gmap strings numbers.
From S2P Require Import Prelude.
Local Open Scope Z_scope.

Record UserQuotaCounters := mkQuotaCounters { used_bytes : Z; last_reset_epoch_secs : Z }.
Definition quota_counters_default : UserQuotaCounters := mkQuotaCounters 0 0.

(** A snapshot and the entry of the file have the fields of the counters. *)
Notation UserQuotaSnapshot := UserQuotaCounters.
Notation QuotaUserState := UserQuotaCounters.

Notation QuotaStore := (gmap string UserQuotaCounters).

(** [user]: the counters of a user, made when they are first asked for. *)
Definition store_user (u : string) (s : QuotaStore) : UserQuotaCounters * QuotaStore :=
  match s !! u with
  | Some c => (c, s)
  | None => (quota_counters_default, <[u := quota_counters_default]> s)
  end.

Definition store_used (u : string) (s : QuotaStore) : Z := default 0 (used_bytes <$> s !! u).

Definition store_load (u : string) (used reset : Z) (s : QuotaStore) : QuotaStore :=
  <[u := mkQuotaCounters used reset]> (store_user u s).2.

Definition store_reset (u : string) (now : Z) (s : QuotaStore) : UserQuotaSnapshot * QuotaStore :=
  (mkQuotaCounters 0 now, <[u := mkQuotaCounters 0 now]> (store_user u s).2).

Definition worth_saving (c : UserQuotaCounters) : bool := negb ((used_bytes c =? 0) && (last_reset_epoch_secs c =? 0)).

Definition store_snapshot (s : QuotaStore) : gmap string UserQuotaSnapshot := filter (fun p => worth_saving p.2 = true) s.

(** * The counter of a user *)

Definition charge (bytes : Z) (c : UserQuotaCounters) : Z * UserQuotaCounters :=
  (sat_add 64 (used_bytes c) bytes, mkQuotaCounters ((used_bytes c + bytes) mod 2 ^ 64) (last_reset_epoch_secs c)).

(** The loop of [refund], on what each compare-exchange meets: the value of the
    counter, and whether it fails for no reason.  The value it succeeded on and the
    one it wrote. *)
Fixpoint refund_attempts (met : list (Z * bool)) (current bytes : Z) : option (Z * Z) :=
  match met with
  | [] => None
  | (value, spurious) :: met =>
      if (value =? current) && negb spurious then Some (value, sat_sub current bytes) else refund_attempts met value bytes
  end.

(** However often it is disturbed, the loop subtracts from the value it replaces. *)
Lemma refund_atomic met current bytes value next : refund_attempts met current bytes = Some (value, next) -> next = sat_sub value bytes.
Proof.
  revert current. induction met as [|[v sp] met IH]; intros current; cbn [refund_attempts]; [done|].
  destruct (Z.eqb_spec v current) as [->|]; cbn [andb]; [destruct sp; cbn [negb]; [apply IH | by intros [= <- <-]] | apply IH].
Qed.

(** It ends with the first attempt that finds what the one before it saw. *)
Lemma refund_ends before v met current bytes sp : exists r, refund_attempts (before ++ (v, sp) :: (v, false) :: met) current bytes = Some r.
Proof.
  revert current. induction before as [|[v' sp'] before IH]; intros current; cbn [refund_attempts app].
  - destruct ((v =? current) && negb sp); [by eexists|]. rewrite Z.eqb_refl. by eexists.
  - destruct ((v' =? current) && negb sp'); [by eexists | apply IH].
Qed.

(** * The file *)

Record QuotaStateFile := mkQuotaFile { qf_last_reset_epoch_secs : Z; qf_users : gmap string QuotaUserState }.

(** serde_json: what is printed is read back. *)
Class QuotaJson := { print_state : QuotaStateFile -> list Z; parse_state : list Z -> option QuotaStateFile }.
Class QuotaJsonLaws `{QuotaJson} := parse_print state : parse_state (print_state state ++ [10]) = Some state.

Section file.
Context `{QuotaJson}.

(** The contents that [save_quota_state] writes. *)
Definition save_quota_state (s : QuotaStore) : list Z :=
  let snapshot := store_snapshot s in
  print_state (mkQuotaFile (map_fold (fun _ q n => Z.max n (last_reset_epoch_secs q)) 0 snapshot) snapshot) ++ [10].

(** [load_quota_state], on the contents of the file if there is one. *)
Definition load_quota_state (file : option (list Z)) (s : QuotaStore) : QuotaStore :=
  match file ≫= parse_state with
  | Some state => map_fold (fun u q s => store_load u (used_bytes q) (last_reset_epoch_secs q) s) s (qf_users state)
  | None => s
  end.

Definition reset_user_quota (u : string) (now : Z) (s : QuotaStore) : UserQuotaSnapshot * QuotaStore * list Z :=
  let '(snapshot, s) := store_reset u now s in (snapshot, s, save_quota_state s).
End file.

Lemma store_load_lookup u used reset s : store_load u used reset s = <[u := mkQuotaCounters used reset]> s.
Proof. unfold store_load, store_user. destruct (s !! u); cbn [snd]; [done|]. by rewrite insert_insert_eq. Qed.

Lemma load_users m s : map_fold (fun u q s => store_load u (used_bytes q) (last_reset_epoch_secs q) s) s m = m ∪ s.
Proof.
  apply (map_fold_weak_ind (fun r m => r = m ∪ s)); [by rewrite (left_id_L ∅ (∪))|].
  intros u q m' r Hu ->. rewrite store_load_lookup, <- insert_union_l. by destruct q.
Qed.

Lemma load_saved `{QuotaJsonLaws} saved s : load_quota_state (Some (save_quota_state saved)) s = store_snapshot saved ∪ s.
Proof. unfold load_quota_state, save_quota_state. cbn. rewrite parse_print. cbn [qf_users]. apply load_users. Qed.

Lemma snapshot_lookup u s : default quota_counters_default (store_snapshot s !! u) = default quota_counters_default (s !! u).
Proof.
  unfold store_snapshot. rewrite map_lookup_filter. destruct (s !! u) as [c|] eqn:Hu; cbn; [|done].
  case_guard as Hg; cbn in *; [done|]. unfold worth_saving in Hg. apply not_true_is_false, negb_false_iff, andb_true_iff in Hg as [Hz Hr].
  apply Z.eqb_eq in Hz, Hr. by destruct c; cbn in *; subst.
Qed.
