(* ===== verification/QuotaProps.v ===== *)
(** Properties of a user's quota and of the queues of a middle session: the counter
    never passes the limit, whatever the user's sessions do at once, and each
    session is charged for exactly what it moved. *)

From stdpp Require Import base list gmap strings countable numbers.
From S2P Require Import Net TrafficLimiter Limiter Prelude Aes Random RpcWire FairnessScheduler Stream CryptoStream ClientWrite ConnRoute QuotaProg QuotaIo QuotaIoSpec QuotaMiddle MeWriterTask MeWriterSpec RelaySession C2me UserQuota QuotaStore.
Local Open Scope Z_scope.

Section sessions.
Context {R W : Type} `{AsyncRead R} `{AsyncWrite W} {V : Type} `{AsyncWrite V} {G : Type} `{StdRngLaws G} `{StreamKey}.
Context (rs : ReaderSpec R) (ws : WriterSpec W) (vs : WriterSpec V).
Implicit Types tasks : list (UserTask R W V G).


(** C21: a direct session is charged for what it moved.  When the polls of a session
    have ended, among any other sessions of the user, the quota was debited with the
    bytes read and written and nothing else, whatever was reserved, refunded or lost
    to a race on the way.  The lease was charged with the bytes written, and with
    those read and the debt of the session at the start, less the debt it still has:
    reads are charged to the lease afterwards.  The bytes are those that crossed the
    stream below, in order; when a write of that stream failed, up to this write. *)
Theorem direct_session_exact L base schedule tasks i fuel calls this out g :
  0 <= base <= umax 64 -> L <= umax 64 -> Forall (task_ok rs ws vs L) tasks ->
  tasks !! i = Some (DirectTask fuel calls this) ->
  (run_system schedule (base, start_tasks tasks)).2 !! i ≫= thread_result = Some (out, g) ->
  exists e log this', out = DirectOut (e, log, this') /\
  match e with
  | RelayDone => session_account this ghost_0 log this' g /\ session_data rs ws this log this'
  | RelayFailed err => session_account this ghost_0 log this' g /\ session_failed rs ws this log err this'
  | RelayUnfinished => exists this1 g1, session_account this ghost_0 log this1 g1 /\ session_data rs ws this log this1 /\
      (out_of_rounds fuel this1 g1 g \/ Z.of_nat fuel <= g_fired g - g_fired g1)
  end.
Proof.
  intros Hbase HL Htasks Hi Hres. pose proof (system_result _ _ _ _ _ _ _ (user_system_ok rs ws vs L base schedule tasks Hbase HL Htasks) Hres) as (task & Ht & Hpost).
  rewrite Hi in Ht. injection Ht as <-. destruct out as [[[e log] this']|?|?]; try done. exists e, log, this'. split; [done|].
  exact Hpost.
Qed.

(** C11: the answers of the middle proxy reach the client in order, and are paid for.
    When the writing task of a middle session has ended, among any other sessions of
    the user, the answers it took were framed onto the client's stream in the order
    of the channel, the quota was debited with their payloads, the lease with what
    was written, and the permits of the route budget came back.  If the task was
    stopped, these are flushed.  If it took a close, these are all answers before it,
    and they are flushed unless the flush fails, which is ignored.  If it failed, these
    are the answers before the one it failed at, of which no more than a prefix was
    written when the session was cancelled, or those before a flush that failed, or
    all of them when the channel was lost, with no promise of a flush. *)
Theorem me_writer_exact L base schedule tasks i c rx t out g :
  0 <= base <= umax 64 -> L <= umax 64 -> Forall (task_ok rs ws vs L) tasks ->
  tasks !! i = Some (MiddleWriting c rx t) ->
  (run_system schedule (base, start_tasks tasks)).2 !! i ≫= thread_result = Some (out, g) ->
  exists r rest t', out = WritingOut (r, rest, t') /\
  match r with
  | Ok _ => caught_up vs c rx t ghost_0 rest t' g \/ closed vs c rx t ghost_0 rest t' g
  | Err e => gave_up vs c rx t ghost_0 e rest t' g
  end.
Proof.
  intros Hbase HL Htasks Hi Hres. pose proof (system_result _ _ _ _ _ _ _ (user_system_ok rs ws vs L base schedule tasks Hbase HL Htasks) Hres) as (task & Ht & Hpost).
  rewrite Hi in Ht. injection Ht as <-. destruct out as [?|?|[[r rest] t']]; try done. by exists r, rest, t'.
Qed.
End sessions.

(** * From the client to the middle proxy *)

Definition resident_bytes (s : C2Me) : Z :=
  foldr (fun cmd n => match cmd with CmdData p _ _ => Z.of_nat (length p) | CmdClose => 0 end + n) 0 (resident s).

Lemma resident_bytes_le s : Forall permit_exact (resident s) ->
  (forall p f n, CmdData p f n ∈ resident s -> Z.of_nat (length p) <= C2ME_QUEUED_BYTE_PERMIT_UNIT * umax 32) ->
  resident_bytes s <= C2ME_QUEUED_BYTE_PERMIT_UNIT * total_permits (resident s).
Proof.
  unfold resident_bytes. generalize (resident s). intros l Hex. induction Hex as [|cmd l Hc _ IH]; intros Hsz; [done|]. unfold total_permits in *. cbn [foldr].
  specialize (IH (fun p f n Hin => Hsz p f n (list_elem_of_further _ _ _ Hin))). destruct cmd as [p f n|]; cbn in *; [|lia].
  pose proof (permits_cover (Z.of_nat (length p)) ltac:(split; [lia|]; apply (Hsz p f n), list_elem_of_here)). subst n. lia.
Qed.

(** C22: the queue to the middle proxy is lossless, bounded and does not leak.  After
    any sequence of steps of the reading loop, the sending task and the pool: the
    permits that are free, queued, in hand and in flight add up to the budget; the
    channel is within its capacity; the requests taken by the pool are a prefix of
    the frames in the order they were read, and while both sides run every other one
    is still queued; the payloads that wait take no more memory than their permits;
    and once all of them are back, any frame within the limit gets its permits. *)
Theorem c2me_queue_exact capacity frame_limit send_timeout evs :
  0 <= capacity -> frame_limit <= C2ME_QUEUED_BYTE_PERMIT_UNIT * umax 32 ->
  let budget := c2me_queued_permit_budget capacity frame_limit in
  let s := c2me_run capacity send_timeout evs (c2me_new capacity frame_limit) in
  Forall (fun q => Z.of_nat (length q.1) <= frame_limit) (cm_submitted s) ->
  cm_available s + total_permits (resident s) + foldr Z.add 0 (cm_in_flight s) = budget /\ 0 <= cm_available s <= budget /\
  Z.of_nat (length (cm_queue s)) <= capacity /\
  cm_sent s `prefix_of` cm_submitted s /\
  (receiver_open s = true -> (forall e, cm_reading s <> Stopped e) -> cm_submitted s = cm_sent s ++ requests_of s ++ reading_requests (cm_reading s)) /\
  resident_bytes s <= C2ME_QUEUED_BYTE_PERMIT_UNIT * (budget - cm_available s) /\
  (forall p : list Z, Z.of_nat (length p) <= frame_limit -> c2me_payload_permits (Z.of_nat (length p)) <= budget).
Proof.
  intros Hcap Hfl budget s Hsz. pose proof (c2me_run_inv capacity send_timeout budget evs _ (c2me_new_inv capacity frame_limit Hcap)) as Hi. fold s in Hi.
  destruct Hi as [Hp Ha He Hf Hc (lost & Ho & Hl) Hs]. pose proof (total_permits_nonneg _ He). pose proof (sum_pos_nonneg _ Hf).
  split_and!; [done | done | lia | done | eexists; exact Ho | | |].
  - intros Hopen Hrun. destruct lost as [|x lost]; [done|]. destruct (Hl ltac:(done)) as [Hx|(e & Hx)]; [congruence | by destruct (Hrun e)].
  - assert (resident_bytes s <= C2ME_QUEUED_BYTE_PERMIT_UNIT * total_permits (resident s)) as Hb; [|unfold C2ME_QUEUED_BYTE_PERMIT_UNIT in *; lia].
    apply resident_bytes_le; [done|]. intros p f n Hin. assert ((p, f) ∈ cm_submitted s) as Hsub.
    { rewrite Ho. apply resident_request in Hin. rewrite !elem_of_app in *. tauto. }
    rewrite list.Forall_forall in Hsz. specialize (Hsz _ Hsub). cbn in Hsz. lia.
  - intros p Hle. pose proof (permits_mono _ _ Hle). unfold budget, c2me_queued_permit_budget. lia.
Qed.

(** * The file *)

(** C34: the quota survives a restart.  What is saved and loaded into a new store gives
    every user the counters it had, also a user that was left out because there was
    nothing to save; after a reset the file holds the user's new counters and leaves
    all others as they were. *)
Theorem quota_state_roundtrip `{QuotaJsonLaws} (saved : QuotaStore) u now :
  (forall v, default quota_counters_default (load_quota_state (Some (save_quota_state saved)) ∅ !! v) = default quota_counters_default (saved !! v)) /\
  let '(snapshot, s, file) := reset_user_quota u now saved in
  store_used u s = 0 /\ default quota_counters_default (load_quota_state (Some file) ∅ !! u) = snapshot /\
  forall v, v <> u -> default quota_counters_default (load_quota_state (Some file) ∅ !! v) = default quota_counters_default (saved !! v).
Proof.
  assert (forall (s : QuotaStore) v, default quota_counters_default (load_quota_state (Some (save_quota_state s)) ∅ !! v) = default quota_counters_default (s !! v)) as Hrt.
  { intros s v. rewrite load_saved, (right_id_L ∅ (∪)). apply snapshot_lookup. }
  split; [apply Hrt|]. unfold reset_user_quota, store_reset. fold (store_load u 0 now saved). rewrite store_load_lookup.
  split_and!; [unfold store_used; by rewrite lookup_insert_eq | by rewrite Hrt, lookup_insert_eq|].
  intros v Hv. rewrite Hrt, lookup_insert_ne; done.
Qed.

(** * Sessions that go wrong *)

Definition idle_wait : RateWaitState := wait_default.
Definition armed_wait : RateWaitState := mkWait true true false false.
Definition demo_session (quota_wait : RateWaitState) (lease : bool) (limit : Z) (script : list ReadEvent) : StatsIo (CombinedStream ReadSocket WriteSocket) :=
  mkStatsIo (mkCombined (mkReadSocket script []) (mkWriteSocket [] [])) counters_new lease 0 idle_wait idle_wait quota_wait (Some limit) false 0 0.

(** A write that meets contention on the counter once more after its timer has fired
    returns [Pending], and neither a timer nor the stream below will wake it. *)
Definition contended : list (nat * Answer) := replicate 1200 (0%nat, AnsCas true) ++ [(0%nat, AnsBool true)].

Lemma write_wake_lost :
  let this := demo_session armed_wait false 100 [] in
  let s := run_system contended (0, [mkThread (stats_poll_write 3 [1; 2; 3] this) ghost_0]) in
  (fun r => (r.1.1, r.2)) <$> (s.2 !! 0%nat ≫= thread_result) = Some (Some Pending, mkGhost 0 0 0 false 1) /\
  (fun r => si_inner r.1.2) <$> (s.2 !! 0%nat ≫= thread_result) = Some (si_inner this) /\
  (fun r => si_quota_wait r.1.2) <$> (s.2 !! 0%nat ≫= thread_result) = Some idle_wait.
Proof. split_and!; vm_compute; reflexivity. Qed.

(** A read that waits for the client reserves what is left of the quota until its poll
    returns; another session that looks at the counter meanwhile ends for good with
    the quota exceeded, of which nothing was used. *)
Definition glance : list (nat * Answer) :=
  [(0, AnsCas false); (0, AnsCas false); (0, AnsCas false); (1, AnsCas false); (0, AnsCas false)]%nat.

Lemma quota_false_alarm :
  let poll := stats_poll_read 3 4096 (demo_session idle_wait false 100 [RPending]) in
  let s := run_system glance (0, [mkThread poll ghost_0; mkThread poll ghost_0]) in
  s.1 = 0 /\
  (fun r => r.1.1) <$> (s.2 !! 0%nat ≫= thread_result) = Some (Some Pending) /\
  (fun r => (r.1.1, si_quota_exceeded r.1.2)) <$> (s.2 !! 1%nat ≫= thread_result) = Some (Some (Ready (Err QuotaIoError)), true).
Proof. split_and!; vm_compute; reflexivity. Qed.

#[local] Instance quota_rng : StdRng nat := {
  rng_fill_bytes n r := ((fun i => Z.of_nat (r + i) mod 256)%Z <$> seq 0 n, (r + n)%nat);
  rng_random_range max r := (r mod max, S r)%nat;
  rng_random_range_incl max r := (r mod S max, S r)%nat;
}.

#[local] Instance quota_rng_laws : StdRngLaws nat.
Proof.
  constructor.
  - intros n r. cbn. split; [by rewrite length_fmap, length_seq|].
    apply Forall_fmap, Forall_true. intros i. unfold compose, is_byte. by apply Z.mod_pos_bound.
  - intros max r Hm. cbn. apply Nat.mod_upper_bound. lia.
  - intros max r. cbn [rng_random_range_incl fst quota_rng].
    pose proof (Nat.mod_upper_bound r (S max)). lia.
Qed.

#[local] Instance quota_keys : StreamKey := fun key iv n => ((iv + Z.of_nat n * 37) mod 256)%Z.

Definition quota_random : SecureRandomInner nat := mkRandom 5%nat (aes_ctr_new [1; 2] 9) [] 0.
Definition batching : MeD2cFlushPolicy := flush_policy_from_config 32 65536 500 true 10 0.
Definition demo_conf (limit : option Z) (lease : bool) : WriterConf := mkWriterConf Intermediate limit lease batching 0 0 20.
Definition demo_task {V : Type} (w : V) : MeTask V nat := mkMeTask 9 quota_random w 0 0 0.

(** The channel closes while a batch waits for another answer: the task returns
    without the flush, and an answer that the encrypting writer still holds is not
    on the wire. *)
Definition lost_channel : list (nat * Answer) := [(0, AnsBool false); (0, AnsNow 5%Z); (0, AnsBool false); (0, AnsBool true)]%nat.

Lemma batch_lost_at_close :
  let w := crypto_writer_new (mkWriteSocket [WAccept 3; WPending] []) (aes_ctr_new [3; 4] 11) 4096 in
  let s := run_system lost_channel (0, [mkThread (me_writer (demo_conf None false) 1 [RespData 0 [1; 2; 3; 4] None] (demo_task w)) ghost_0]) in
  (fun r => r.1.1) <$> (s.2 !! 0%nat ≫= thread_result) = Some (Err MiddleConnectionLost, []) /\
  (fun r => length (wr_log (cw_upstream (mt_writer r.1.2)))) <$> (s.2 !! 0%nat ≫= thread_result) = Some 3%nat /\
  (fun r => mt_bytes_me2c r.1.2) <$> (s.2 !! 0%nat ≫= thread_result) = Some 4.
Proof. split_and!; vm_compute; reflexivity. Qed.

(** * Examples *)

(** A direct session, and both sides of a middle session, of a user with 100 bytes of
    quota of which 20 are used. *)
Definition demo_direct : StatsIo (CombinedStream ReadSocket WriteSocket) := demo_session idle_wait false 100 [RData [1; 2; 3]].
Definition demo_calls : list RelayCall := [CallRead 4; CallWrite [7; 8]].
Definition demo_writing : WriterConf := demo_conf (Some 100) false.
Definition demo_rx : list MeResponse := [RespData 0 [1; 2; 3; 4] (Some 1); RespAck 7; RespClose].
Definition demo_client : MeTask WriteSocket nat := demo_task (mkWriteSocket [WAccept 3; WPending] []).

Definition demo_tasks : list (UserTask ReadSocket WriteSocket WriteSocket nat) :=
  [DirectTask 5 demo_calls demo_direct;
   MiddleReading (mkReadConf (Some 100) false 0 5 0) [[1; 2; 3; 4]; [5]];
   MiddleWriting demo_writing demo_rx demo_client].

(** In turns, with a few compare-exchanges that fail. *)
Definition demo_turns : list (nat * Answer) :=
  [(2, AnsBool false); (0, AnsCas true); (1, AnsCas true); (2, AnsCas true); (2, AnsCas true)]%nat ++
  concat (replicate 30 ([(0, AnsCas false); (1, AnsCas false); (2, AnsCas false); (0, AnsNow 3%Z); (2, AnsNow 4%Z); (2, AnsBool false)]%nat)).

Lemma demo_tasks_ok : Forall (task_ok socket_reader_spec socket_writer_spec socket_writer_spec 110) demo_tasks.
Proof.
  apply Forall_cons_2; [|apply Forall_cons_2; [|apply Forall_cons_2; [|constructor]]]; cbn [task_ok].
  - split_and!; try done. by repeat constructor.
  - by split.
  - split_and!; [|done|done]. split; [done|]. intros limit [= <-]. done.
Qed.

Lemma demo_base : 0 <= 20 <= umax 64.
Proof. done. Qed.
Lemma demo_limit : 110 <= umax 64.
Proof. done. Qed.


Lemma direct_session_exact_witness :
  match (run_system demo_turns (20, start_tasks demo_tasks)).2 !! 0%nat ≫= thread_result with
  | Some (out, g) => exists e log this', out = DirectOut (e, log, this') /\
      match e with
      | RelayDone => session_account demo_direct ghost_0 log this' g /\
          session_data socket_reader_spec socket_writer_spec demo_direct log this'
      | RelayFailed err => session_account demo_direct ghost_0 log this' g /\
          session_failed socket_reader_spec socket_writer_spec demo_direct log err this'
      | RelayUnfinished => exists this1 g1, session_account demo_direct ghost_0 log this1 g1 /\
          session_data socket_reader_spec socket_writer_spec demo_direct log this1 /\
          (out_of_rounds 5 this1 g1 g \/ Z.of_nat 5 <= g_fired g - g_fired g1)
      end
  | None => False
  end.
Proof.
  destruct ((run_system demo_turns (20, start_tasks demo_tasks)).2 !! 0%nat ≫= thread_result) as [[out g]|] eqn:Hres; [|vm_compute in Hres; discriminate].
  refine (direct_session_exact socket_reader_spec socket_writer_spec socket_writer_spec 110 20 demo_turns demo_tasks 0 5 demo_calls demo_direct out g demo_base demo_limit demo_tasks_ok eq_refl Hres).
Defined.

Lemma me_writer_exact_witness :
  match (run_system demo_turns (20, start_tasks demo_tasks)).2 !! 2%nat ≫= thread_result with
  | Some (out, g) => exists r rest t', out = WritingOut (r, rest, t') /\
      match r with
      | Ok _ => caught_up socket_writer_spec demo_writing demo_rx demo_client ghost_0 rest t' g \/
          closed socket_writer_spec demo_writing demo_rx demo_client ghost_0 rest t' g
      | Err e => gave_up socket_writer_spec demo_writing demo_rx demo_client ghost_0 e rest t' g
      end
  | None => False
  end.
Proof.
  destruct ((run_system demo_turns (20, start_tasks demo_tasks)).2 !! 2%nat ≫= thread_result) as [[out g]|] eqn:Hres; [|vm_compute in Hres; discriminate].
  refine (me_writer_exact socket_reader_spec socket_writer_spec socket_writer_spec 110 20 demo_turns demo_tasks 2 demo_writing demo_rx demo_client out g demo_base demo_limit demo_tasks_ok eq_refl Hres).
Defined.

Definition demo_c2me : C2Me :=
  c2me_run 1 true [EvPayload [1; 2; 3; 4] 0; EvAcquire; EvTrySend; EvRecv; EvPayload [5] 2; EvAcquire; EvTrySend; EvSent true; EvReleased 0] (c2me_new 1 1024).

Lemma c2me_queue_exact_witness :
  cm_sent demo_c2me = [([1; 2; 3; 4], 0)] /\ cm_available demo_c2me = 3 /\
  cm_sent demo_c2me `prefix_of` cm_submitted demo_c2me.
Proof.
  split_and!; [vm_compute; reflexivity | vm_compute; reflexivity|].
  apply (c2me_queue_exact 1 1024 true [EvPayload [1; 2; 3; 4] 0; EvAcquire; EvTrySend; EvRecv; EvPayload [5] 2; EvAcquire; EvTrySend; EvSent true; EvReleased 0]);
    [done | done | vm_compute; repeat constructor; done].
Defined.

#[local] Instance demo_json : QuotaJson := {
  print_state state := [Z.pos (encode (qf_last_reset_epoch_secs state, (fun q => (used_bytes q, last_reset_epoch_secs q)) <$> qf_users state))];
  parse_state bytes :=
    match bytes with
    | [Zpos p; 10] => (fun '(reset, users) => mkQuotaFile reset ((fun q => mkQuotaCounters q.1 q.2) <$> users)) <$> (decode p : option (Z * gmap string (Z * Z)))
    | _ => None
    end;
}.

#[local] Instance demo_json_laws : QuotaJsonLaws.
Proof.
  intros [reset users]. cbn [print_state parse_state demo_json app]. rewrite decode_encode. cbn. f_equal. f_equal.
  rewrite <- map_fmap_compose. etrans; [|apply map_fmap_id]. apply map_fmap_ext. by intros i [] _.
Qed.

Definition demo_store : QuotaStore := <["a"%string := mkQuotaCounters 7 0]> ∅.

Lemma quota_state_roundtrip_witness :
  default quota_counters_default (load_quota_state (Some (save_quota_state demo_store)) ∅ !! "a"%string) = mkQuotaCounters 7 0.
Proof. exact (proj1 (quota_state_roundtrip demo_store "a"%string 5) "a"%string). Defined.
