(* ===== verification/AuthScan.v ===== *)
(** Which user a client is ([config/load/runtime_auth.rs],
    [proxy/handshake/auth_candidates.rs]): the immutable snapshot of the users'
    secrets, the hints left by earlier sessions, and the bounded search that
    tries one user's secret after another.

    The handshakes write the search as a macro over the local variables of the
    caller; here it is a state [Scan] passed along, over the function that
    validates one secret.  User names are bytes.  [DefaultHasher] and
    [hex::decode] are parameters. *)

From stdpp Require Import base list gmap numbers.
From S2P Require Import Prelude Net AuthProbe.
Local Open Scope Z_scope.

Definition ACCESS_SECRET_BYTES : nat := 16.
Definition STICKY_HINT_MAX_ENTRIES : nat := 256 * 256.
Definition CANDIDATE_HINT_TRACK_CAP : nat := 64.
Definition OVERLOAD_CANDIDATE_BUDGET_HINTED : nat := 16.
Definition OVERLOAD_CANDIDATE_BUDGET_UNHINTED : nat := 8.
Definition RECENT_USER_RING_SCAN_LIMIT : nat := 32.
Definition HANDSHAKE_RECENT_USER_RING_LEN : nat := 64.
Definition WARNED_SECRET_MAX_ENTRIES : nat := 1024.

Definition to_ascii_lowercase (b : Z) : Z := if (65 <=? b) && (b <=? 90) then b + 32 else b.

Class Hashing := default_hash : list Z -> Z.
Class HexDecode := hex_decode : list Z -> option (list Z).

(** [sni_hint_hash], and the same loop as [UserAuthSnapshot::sni_lookup_hash]. *)
Definition sni_hint_hash `{Hashing} (sni : list Z) : Z := default_hash (to_ascii_lowercase <$> sni).
Definition sni_lookup_hash `{Hashing} (value : list Z) : Z := default_hash (to_ascii_lowercase <$> value).

(** * The snapshot *)

Record UserAuthEntry := mkEntry { ue_user : list Z; ue_secret : list Z }.

Record UserAuthSnapshot := mkSnapshot {
  entries : list UserAuthEntry;
  by_name : gmap (list Z) Z;
  sni_index : gmap Z (list Z);
  sni_initial_index : gmap Z (list Z);
}.

Inductive SnapshotError := InvalidSecret (user : list Z) | TooManyUsers.

(** [entry(key).or_insert_with(Vec::new).push(v)]. *)
Definition push_at (key v : Z) (m : gmap Z (list Z)) : gmap Z (list Z) :=
  <[key := default [] (m !! key) ++ [v]]> m.

Section snapshot.
Context `{Hashing} `{HexDecode}.

(** [users] in the order the map is iterated. *)
Fixpoint from_users_loop (users : list (list Z * list Z)) (s : UserAuthSnapshot)
    : result SnapshotError UserAuthSnapshot :=
  match users with
  | [] => Ok s
  | (user, secret_hex) :: users =>
      match hex_decode secret_hex with
      | None => Err (InvalidSecret user)
      | Some decoded =>
          if negb (length decoded =? ACCESS_SECRET_BYTES)%nat then Err (InvalidSecret user)
          else
            let user_id := Z.of_nat (length (entries s)) in
            if 2 ^ 32 <=? user_id then Err TooManyUsers
            else
              from_users_loop users (mkSnapshot
                (entries s ++ [mkEntry user decoded])
                (<[user := user_id]> (by_name s))
                (push_at (sni_lookup_hash user) user_id (sni_index s))
                (match user with
                 | [] => sni_initial_index s
                 | byte :: _ => push_at (to_ascii_lowercase byte) user_id (sni_initial_index s)
                 end))
      end
  end.

Definition from_users (users : list (list Z * list Z)) : result SnapshotError UserAuthSnapshot :=
  from_users_loop users (mkSnapshot [] ∅ ∅ ∅).

Definition user_id_by_name (user : list Z) (s : UserAuthSnapshot) : option Z := by_name s !! user.

(** [usize::try_from] refuses nothing a [u32] holds. *)
Definition entry_by_id (user_id : Z) (s : UserAuthSnapshot) : option UserAuthEntry :=
  if user_id <? 0 then None else entries s !! Z.to_nat user_id.

Definition sni_candidates (sni : list Z) (s : UserAuthSnapshot) : option (list Z) :=
  sni_index s !! sni_lookup_hash sni.

Definition sni_initial_candidates (sni : list Z) (s : UserAuthSnapshot) : option (list Z) :=
  match sni with
  | [] => None
  | byte :: _ => sni_initial_index s !! to_ascii_lowercase byte
  end.

End snapshot.

(** * Hints *)

(** Why a user's secret was skipped. *)
Inductive SecretDefect := InvalidLength | InvalidHex.
#[export] Instance SecretDefect_eq_dec : EqDecision SecretDefect.
Proof. solve_decision. Defined.
#[export] Instance SecretDefect_countable : Countable SecretDefect.
Proof.
  apply (inj_countable' (fun d => match d with InvalidLength => false | InvalidHex => true end)
    (fun b : bool => if b then InvalidHex else InvalidLength)).
  by intros [].
Defined.

(** [HandshakeSharedState] without the hasher; [probe] is the part the
    throttle works on. *)
Record AuthState := mkAuth {
  probe : HandshakeShared;
  invalid_secret_warned : gset (list Z * SecretDefect);
  sticky_user_by_ip : gmap IpAddr Z;
  sticky_user_by_ip_prefix : gmap Z Z;
  sticky_user_by_sni_hash : gmap Z Z;
  recent_user_ring : list Z;
  recent_user_ring_seq : Z;
  auth_expensive_checks_total : Z;
  auth_budget_exhausted_total : Z;
}.

(** [ProxySharedState::new], its handshake part. *)
Definition auth_new : AuthState :=
  mkAuth (mkShared ∅ None None) ∅ ∅ ∅ ∅ (replicate HANDSHAKE_RECENT_USER_RING_LEN 0) 0 0 0.

Definition with_probe (f : HandshakeShared -> HandshakeShared) (s : AuthState) : AuthState :=
  mkAuth (f (probe s)) (invalid_secret_warned s) (sticky_user_by_ip s) (sticky_user_by_ip_prefix s)
    (sticky_user_by_sni_hash s) (recent_user_ring s) (recent_user_ring_seq s)
    (auth_expensive_checks_total s) (auth_budget_exhausted_total s).

Definition ip_prefix_hint_key (peer_ip : IpAddr) : Z :=
  match peer_ip with
  | IpV4 octets => of_be ([4] ++ take 3 octets ++ [0; 0; 0; 0])
  | IpV6 octets => of_be ([6] ++ take 7 octets)
  end.

Definition sticky_hint_get_by_ip (peer_ip : IpAddr) (s : AuthState) : option Z := sticky_user_by_ip s !! peer_ip.

Definition sticky_hint_get_by_ip_prefix (peer_ip : IpAddr) (s : AuthState) : option Z :=
  sticky_user_by_ip_prefix s !! ip_prefix_hint_key peer_ip.

Definition sticky_hint_get_by_sni `{Hashing} (sni : list Z) (s : AuthState) : option Z :=
  sticky_user_by_sni_hash s !! sni_hint_hash sni.

(** [if map.len() > STICKY_HINT_MAX_ENTRIES { map.clear() }; map.insert(k, v)]. *)
Definition hint_insert {K} `{Countable K} (k : K) (v : Z) (m : gmap K Z) : gmap K Z :=
  <[k := v]> (if (STICKY_HINT_MAX_ENTRIES <? size m)%nat then ∅ else m).

Definition sticky_hint_record_success_in `{Hashing} (peer_ip : IpAddr) (user_id : Z) (sni : option (list Z))
    (s : AuthState) : AuthState :=
  mkAuth (probe s) (invalid_secret_warned s)
    (hint_insert peer_ip user_id (sticky_user_by_ip s))
    (hint_insert (ip_prefix_hint_key peer_ip) user_id (sticky_user_by_ip_prefix s))
    (match sni with
     | Some sni => hint_insert (sni_hint_hash sni) user_id (sticky_user_by_sni_hash s)
     | None => sticky_user_by_sni_hash s
     end)
    (recent_user_ring s) (recent_user_ring_seq s) (auth_expensive_checks_total s) (auth_budget_exhausted_total s).

Definition record_recent_user_success_in (user_id : Z) (s : AuthState) : AuthState :=
  let ring := recent_user_ring s in
  if bool_decide (ring = []) then s
  else
    let seq := recent_user_ring_seq s in
    let idx := Z.to_nat (seq mod Z.of_nat (length ring)) in
    mkAuth (probe s) (invalid_secret_warned s) (sticky_user_by_ip s) (sticky_user_by_ip_prefix s)
      (sticky_user_by_sni_hash s)
      (<[idx := u32_saturating_add user_id 1]> ring) ((seq + 1) mod 2 ^ 64)
      (auth_expensive_checks_total s) (auth_budget_exhausted_total s).

(** The users of the latest successes, newest first: the ids the loop over
    [0..scan_limit] passes to the macro. *)
Definition recent_users (s : AuthState) : list Z :=
  let ring := recent_user_ring s in
  if bool_decide (ring = []) then []
  else
    let len := length ring in
    let next_seq := recent_user_ring_seq s in
    let scan_limit := Nat.min len RECENT_USER_RING_SCAN_LIMIT in
    omap (fun offset =>
      let idx := Z.to_nat ((next_seq + Z.of_nat len - 1 - Z.of_nat offset) mod 2 ^ 64 mod Z.of_nat len) in
      match ring !! idx with
      | Some encoded_user_id => if encoded_user_id =? 0 then None else Some (encoded_user_id - 1)
      | None => None
      end) (seq 0 scan_limit).

(** The counters, after a search. *)
Definition count_checks (validation_checks : nat) (budget_exhausted : bool) (s : AuthState) : AuthState :=
  mkAuth (probe s) (invalid_secret_warned s) (sticky_user_by_ip s) (sticky_user_by_ip_prefix s)
    (sticky_user_by_sni_hash s) (recent_user_ring s) (recent_user_ring_seq s)
    ((auth_expensive_checks_total s + Z.of_nat validation_checks) mod 2 ^ 64)
    (if budget_exhausted then (auth_budget_exhausted_total s + 1) mod 2 ^ 64 else auth_budget_exhausted_total s).

(** * The bounded search *)

(** [tried_user_ids[..tried_len]] of an array of [CANDIDATE_HINT_TRACK_CAP]. *)
Definition mark_candidate_if_new (tried : list Z) (user_id : Z) : bool * list Z :=
  if bool_decide (user_id ∈ tried) then (false, tried)
  else if (length tried <? CANDIDATE_HINT_TRACK_CAP)%nat then (true, tried ++ [user_id])
  else (true, tried).

Definition budget_for_validation (total_users : nat) (overload has_hint : bool) : nat :=
  if (total_users =? 0)%nat then 0%nat
  else if negb overload then total_users
  else
    let cap := if has_hint then OVERLOAD_CANDIDATE_BUDGET_HINTED else OVERLOAD_CANDIDATE_BUDGET_UNHINTED in
    Nat.min total_users (Nat.max cap 1).

Record Scan (V : Type) := mkScan {
  tried : list Z;
  validation_checks : nat;
  budget_exhausted : bool;
  matched : option (Z * UserAuthEntry * V);
}.
Arguments mkScan {V}.
Arguments tried {V}.
Arguments validation_checks {V}.
Arguments budget_exhausted {V}.
Arguments matched {V}.

Section scan.
Context {V : Type} (validate : list Z -> option V) (snapshot : UserAuthSnapshot) (candidate_budget : nat).

Definition scan_start : Scan V := mkScan [] 0 false None.

(** The macro [try_user_id!]. *)
Definition try_user_id (user_id : Z) (s : Scan V) : bool * Scan V :=
  if (candidate_budget <=? validation_checks s)%nat then
    (false, mkScan (tried s) (validation_checks s) true (matched s))
  else
    let '(new, tried') := mark_candidate_if_new (tried s) user_id in
    let s := mkScan tried' (validation_checks s) (budget_exhausted s) (matched s) in
    if negb new then (false, s)
    else
      match entry_by_id user_id snapshot with
      | None => (false, s)
      | Some entry =>
          let checks := (validation_checks s + 1)%nat in
          match validate (ue_secret entry) with
          | Some v => (true, mkScan (tried s) checks (budget_exhausted s) (Some (user_id, entry, v)))
          | None => (false, mkScan (tried s) checks (budget_exhausted s) (matched s))
          end
      end.

(** [if !matched && let Some(user_id) = hint { matched = try_user_id!(user_id) }]. *)
Definition try_hint (hint : option Z) (st : bool * Scan V) : bool * Scan V :=
  if st.1 then st
  else match hint with Some user_id => try_user_id user_id st.2 | None => st end.

(** The body of the loops: they stop at a match and when the budget is gone. *)
Fixpoint try_loop (user_ids : list Z) (s : Scan V) : bool * Scan V :=
  match user_ids with
  | [] => (false, s)
  | user_id :: user_ids =>
      let '(hit, s) := try_user_id user_id s in
      if (hit : bool) then (true, s)
      else if budget_exhausted s then (false, s)
      else try_loop user_ids s
  end.

(** [if !matched && !budget_exhausted { for .. }]. *)
Definition try_phase (user_ids : list Z) (st : bool * Scan V) : bool * Scan V :=
  if st.1 || budget_exhausted st.2 then st else try_loop user_ids st.2.

(** [0..entries.len()], up to the last id that fits [u32]. *)
Definition all_user_ids : list Z :=
  filter (fun user_id => user_id < 2 ^ 32) (Z.of_nat <$> seq 0 (length (entries snapshot))).

Definition mtproto_scan (sticky_ip_hint preferred_user_id sticky_prefix_hint : option Z) (recent : list Z)
    : bool * Scan V :=
  try_phase all_user_ids
    (try_phase recent
      (try_hint sticky_prefix_hint (try_hint preferred_user_id (try_hint sticky_ip_hint (false, scan_start))))).

Definition tls_scan (sticky_ip_hint preferred_user_id sticky_sni_hint sticky_prefix_hint : option Z)
    (sni_ids sni_initial_ids : option (list Z)) (recent : list Z) : bool * Scan V :=
  try_phase all_user_ids
    (try_phase recent
      (try_phase (default [] sni_initial_ids)
        (try_phase (default [] sni_ids)
          (try_hint sticky_prefix_hint
            (try_hint sticky_sni_hint
              (try_hint preferred_user_id (try_hint sticky_ip_hint (false, scan_start)))))))).

(** * What the search finds *)

(** The first user of a list of ids whose secret the handshake proves. *)
Definition proves (user_id : Z) : option (Z * UserAuthEntry * V) :=
  match entry_by_id user_id snapshot with
  | Some entry => match validate (ue_secret entry) with Some v => Some (user_id, entry, v) | None => None end
  | None => None
  end.

Definition first_match (user_ids : list Z) : option (Z * UserAuthEntry * V) := head (omap proves user_ids).

Definition order (hints : list (option Z)) (lists : list (list Z)) : list Z :=
  omap id hints ++ concat lists ++ all_user_ids.

(** * Lemmas *)

(** Once the budget is gone nothing changes any more. *)
Definition stuck_ok (s : Scan V) : Prop :=
  budget_exhausted s = true -> (candidate_budget <= validation_checks s)%nat.

Lemma stuck_try id s : stuck_ok s -> budget_exhausted s = true -> try_user_id id s = (false, s).
Proof.
  intros Hs He. unfold try_user_id. specialize (Hs He).
  rewrite (proj2 (Nat.leb_le _ _) Hs). destruct s; cbn in *. by subst.
Qed.

Lemma stuck_ok_try id s : stuck_ok s -> stuck_ok (try_user_id id s).2.
Proof.
  intros Hs. unfold try_user_id. destruct (_ <=? _)%nat eqn:Hb.
  - intros _. cbn. by apply Nat.leb_le.
  - destruct (mark_candidate_if_new _ _) as [[] t']; cbn; [|exact Hs].
    apply Nat.leb_gt in Hb.
    destruct (entry_by_id _ _); [destruct (validate _)|]; intros He; specialize (Hs He); cbn in *; lia.
Qed.

Lemma stuck_ok_loop l s : stuck_ok s -> stuck_ok (try_loop l s).2.
Proof.
  revert s. induction l as [|id l IH]; intros s Hs; cbn [try_loop]; [done|].
  pose proof (stuck_ok_try id s Hs) as Hs'. destruct (try_user_id id s) as [[] s']; [done|].
  cbn in Hs'. destruct (budget_exhausted s'); [done|]. by apply IH.
Qed.

Lemma try_loop_app l1 l2 s : stuck_ok s -> try_loop (l1 ++ l2) s = try_phase l2 (try_loop l1 s).
Proof.
  revert s. induction l1 as [|id l1 IH]; intros s Hs; cbn [app try_loop].
  - unfold try_phase. cbn. destruct (budget_exhausted s) eqn:He; [|done].
    destruct l2 as [|id l2]; [done|]. cbn [try_loop]. by rewrite (stuck_try id s Hs He), He.
  - pose proof (stuck_ok_try id s Hs) as Hs'. destruct (try_user_id id s) as [[] s']; [done|].
    cbn in Hs'. destruct (budget_exhausted s') eqn:He; [|by apply IH].
    unfold try_phase. cbn. by rewrite He.
Qed.

Lemma try_hint_loop h l s : stuck_ok s -> try_hint h (try_loop l s) = try_loop (l ++ option_list h) s.
Proof.
  intros Hs. rewrite try_loop_app by done. pose proof (stuck_ok_loop l s Hs) as Hl.
  unfold try_hint, try_phase. destruct (try_loop l s) as [[] s']; [done|]. cbn in *.
  destruct h as [id|]; [|by destruct (budget_exhausted s')].
  destruct (budget_exhausted s') eqn:He; [by apply stuck_try|].
  change (option_list (Some id)) with [id]. cbn [try_loop].
  destruct (try_user_id id s') as [[] s'']; [done|]. by destruct (budget_exhausted s'').
Qed.

Lemma try_phase_loop l2 l1 s : stuck_ok s -> try_phase l2 (try_loop l1 s) = try_loop (l1 ++ l2) s.
Proof. intros. by rewrite try_loop_app. Qed.

Lemma stuck_ok_start : stuck_ok scan_start.
Proof. done. Qed.

(** Both searches try one sequence of ids. *)
Lemma mtproto_scan_order h1 h2 h3 recent :
  mtproto_scan h1 h2 h3 recent = try_loop (order [h1; h2; h3] [recent]) scan_start.
Proof.
  unfold mtproto_scan. change (false, scan_start) with (try_loop [] scan_start).
  rewrite !try_hint_loop, !try_phase_loop by apply stuck_ok_start.
  f_equal. unfold order. cbn [concat]. rewrite app_nil_r. rewrite !(assoc_L (++)). f_equal. f_equal.
  by destruct h1, h2, h3.
Qed.

Lemma tls_scan_order h1 h2 h3 h4 l1 l2 recent :
  tls_scan h1 h2 h3 h4 l1 l2 recent =
  try_loop (order [h1; h2; h3; h4] [default [] l1; default [] l2; recent]) scan_start.
Proof.
  unfold tls_scan. change (false, scan_start) with (try_loop [] scan_start).
  rewrite !try_hint_loop, !try_phase_loop by apply stuck_ok_start.
  f_equal. unfold order. cbn [concat]. rewrite app_nil_r. rewrite !(assoc_L (++)). do 4 f_equal.
  by destruct h1, h2, h3, h4.
Qed.

(** ** Soundness *)

Definition failed (s : Scan V) : Prop :=
  matched s = None /\ Forall (fun id => proves id = None) (tried s) /\ (validation_checks s <= candidate_budget)%nat.

Lemma failed_start : failed scan_start.
Proof. repeat split; [constructor|cbn; lia]. Qed.

(** The array afterwards. *)
Definition remember (id : Z) (t : list Z) : list Z :=
  if (length t <? CANDIDATE_HINT_TRACK_CAP)%nat then t ++ [id] else t.

Lemma elem_of_remember c id t : c ∈ remember id t -> c = id \/ c ∈ t.
Proof.
  unfold remember. destruct (_ <? _)%nat; [|by right].
  intros [?|Hc]%elem_of_app; [by right|]. left. by apply list_elem_of_singleton.
Qed.

Lemma remember_subset c id t : c ∈ t -> c ∈ remember id t.
Proof. unfold remember. destruct (_ <? _)%nat; [|done]. intros. apply elem_of_app. by left. Qed.

(** What a try does while there is budget. *)
Lemma try_user_id_eq id s :
  (validation_checks s < candidate_budget)%nat ->
  try_user_id id s =
  if bool_decide (id ∈ tried s) then (false, mkScan (tried s) (validation_checks s) (budget_exhausted s) (matched s))
  else
    let checks := match entry_by_id id snapshot with Some _ => (validation_checks s + 1)%nat | None => validation_checks s end in
    match proves id with
    | Some m => (true, mkScan (remember id (tried s)) checks (budget_exhausted s) (Some m))
    | None => (false, mkScan (remember id (tried s)) checks (budget_exhausted s) (matched s))
    end.
Proof.
  intros Hb. unfold try_user_id, mark_candidate_if_new, remember, proves. rewrite (proj2 (Nat.leb_gt _ _) Hb).
  destruct (bool_decide _); [done|]. destruct (_ <? _)%nat; cbn;
    (destruct (entry_by_id id snapshot) as [entry|]; [destruct (validate _)|]; done).
Qed.

Lemma try_user_id_sound id s :
  failed s ->
  let '(hit, s') := try_user_id id s in
  (validation_checks s' <= candidate_budget)%nat /\
  if hit then matched s' = proves id /\ is_Some (proves id)
  else failed s' /\ (budget_exhausted s' = false -> proves id = None).
Proof.
  intros (Hm & Ht & Hc). destruct (decide (candidate_budget <= validation_checks s)%nat) as [Hb|Hb].
  { unfold try_user_id. rewrite (proj2 (Nat.leb_le _ _) Hb). by repeat split. }
  rewrite try_user_id_eq by lia. rewrite list.Forall_forall in Ht.
  destruct (bool_decide (id ∈ tried s)) eqn:Hin.
  { apply bool_decide_eq_true in Hin. repeat split; auto. by apply list.Forall_forall. }
  destruct (proves id) as [m|] eqn:Hp; cbn; (split; [case_match; lia|]); [eauto|].
  repeat split; try done; [|case_match; cbn; lia]. apply list.Forall_forall.
  intros c [->|?]%elem_of_remember; auto.
Qed.

Lemma try_loop_sound l s :
  failed s ->
  let '(hit, s') := try_loop l s in
  (validation_checks s' <= candidate_budget)%nat /\
  if hit then matched s' = first_match l /\ is_Some (first_match l)
  else matched s' = None /\ (budget_exhausted s' = false -> first_match l = None).
Proof.
  revert s. induction l as [|id l IH]; intros s Hs; cbn [try_loop].
  - destruct Hs as (? & ? & ?). done.
  - pose proof (try_user_id_sound id s Hs) as H. destruct (try_user_id id s) as [[] s'].
    + destruct H as (Hc & Hm & [x Hp]). split; [done|]. unfold first_match. cbn [omap list_omap].
      rewrite Hp in *. cbn. eauto.
    + destruct H as (Hc & Hf & Hp). destruct (budget_exhausted s') eqn:He.
      { repeat split; [done|apply Hf|]. by rewrite He. }
      specialize (IH s' Hf). unfold first_match in *. cbn [omap list_omap]. by rewrite (Hp eq_refl).
Qed.

(** ** Completeness *)

Lemma entry_range id entry : entry_by_id id snapshot = Some entry -> 0 <= id < Z.of_nat (length (entries snapshot)).
Proof.
  unfold entry_by_id. destruct (id <? 0) eqn:H; [done|]. intros Hl%lookup_lt_Some. lia.
Qed.

(** Distinct users have been checked, in vain: those remembered and those of [D]. *)
Definition spent (D : list Z) (s : Scan V) : Prop :=
  budget_exhausted s = false /\ exists C, NoDup C /\ length C = validation_checks s /\
    (forall c, c ∈ C -> 0 <= c < Z.of_nat (length (entries snapshot)) /\ proves c = None /\ (c ∈ tried s \/ c ∈ D)).

Lemma nodup_range (C : list Z) n : NoDup C -> (forall c, c ∈ C -> 0 <= c < Z.of_nat n) -> (length C <= n)%nat.
Proof.
  intros Hn Hr. replace n with (length (Z.of_nat <$> seq 0 n)) by (by rewrite length_fmap, length_seq).
  apply submseteq_length, NoDup_submseteq; [done|]. intros c Hc. apply list_elem_of_fmap.
  exists (Z.to_nat c). specialize (Hr c Hc). split; [lia|]. apply elem_of_seq. lia.
Qed.

Section complete.
Context (u : Z) (Hu : is_Some (proves u)) (Hbudget : candidate_budget = length (entries snapshot)).

Lemma u_range : 0 <= u < Z.of_nat (length (entries snapshot)).
Proof.
  destruct Hu as [x Hx]. unfold proves in Hx.
  destruct (entry_by_id u snapshot) as [e|] eqn:He; [|done]. by eapply entry_range.
Qed.

Lemma spent_room D s : spent D s -> (validation_checks s < candidate_budget)%nat.
Proof.
  intros [_ (C & Hn & Hl & HC)]. rewrite <- Hl, Hbudget.
  change (length (u :: C) <= length (entries snapshot))%nat. apply nodup_range.
  - constructor; [|done]. intros Hin. destruct (HC u Hin) as (_ & Hp & _). rewrite Hp in Hu. by destruct Hu.
  - intros c [->|Hc]%elem_of_cons; [apply u_range|]. by apply HC.
Qed.

Lemma spent_step D id s :
  spent D s -> id ∉ D ->
  let '(hit, s') := try_user_id id s in
  hit = true \/
  spent (if (length (tried s) <? CANDIDATE_HINT_TRACK_CAP)%nat then D else id :: D) s' /\
  (length (tried s') <= length (tried s) + 1)%nat.
Proof.
  intros Hs HD. rewrite try_user_id_eq by (by eapply spent_room). destruct Hs as [He (C & Hn & Hl & HC)].
  set (D' := if _ : bool then D else id :: D).
  assert (forall c, c ∈ D -> c ∈ D') as HDD by (unfold D'; intros c ?; case_match; [done|]; apply elem_of_cons; by right).
  destruct (bool_decide (id ∈ tried s)) eqn:Hin.
  { right. cbn. split; [|lia]. split; [done|]. exists C. split_and!; try done.
    intros c Hc. destruct (HC c Hc) as ([? ?] & ? & [?|?]); split_and!; eauto. }
  apply bool_decide_eq_false in Hin. destruct (proves id) as [m|] eqn:Hp; [by left|]. right. cbn.
  assert (id ∈ remember id (tried s) \/ id ∈ D') as Hid.
  { unfold remember, D'. destruct (_ <? _)%nat; [left; apply elem_of_app; right|right]; apply list_elem_of_here. }
  split; [|unfold remember; case_match; rewrite ?length_app; cbn; lia]. split; [done|].
  assert (forall c, c ∈ C -> 0 <= c < Z.of_nat (length (entries snapshot)) /\ proves c = None /\
    (c ∈ remember id (tried s) \/ c ∈ D')) as HC'.
  { intros c Hc. destruct (HC c Hc) as ([? ?] & ? & [?|?]); split_and!; eauto using remember_subset. }
  destruct (entry_by_id id snapshot) as [entry|] eqn:Hent; [|by exists C].
  exists (id :: C). split; [constructor; [|done]; intros Hc; by destruct (HC id Hc) as (_ & _ & [?|?])|].
  split; [cbn; lia|]. intros c [->|Hc]%elem_of_cons; [|by apply HC']. split; [by eapply entry_range|done].
Qed.

(** While every id fits the array, no user is checked twice. *)
Lemma pre_live l s :
  spent [] s -> (length (tried s) + length l <= CANDIDATE_HINT_TRACK_CAP)%nat ->
  let '(hit, s') := try_loop l s in hit = true \/ spent [] s'.
Proof.
  revert s. induction l as [|id l IH]; intros s Hs Hl; cbn [try_loop]; [by right|].
  pose proof (spent_step [] id s Hs ltac:(apply not_elem_of_nil)) as H. cbn in Hl.
  rewrite (proj2 (Nat.ltb_lt _ _)) in H by lia.
  destruct (try_user_id id s) as [hit s']. destruct H as [-> | [Hs' Ht]]; [by left|].
  destruct hit; [by left|]. rewrite (proj1 Hs'). apply IH; [done|lia].
Qed.

Lemma spent_mono D D' s : D ⊆ D' -> spent D s -> spent D' s.
Proof.
  intros HD [He (C & Hn & Hl & HC)]. split; [done|]. exists C. split_and!; try done.
  intros c Hc. destruct (HC c Hc) as ([? ?] & ? & [?|?]); split_and!; eauto.
Qed.

(** In a list without repetition, neither. *)
Lemma all_live D l s :
  NoDup l -> (forall id, id ∈ l -> id ∉ D) -> spent D s ->
  let '(hit, s') := try_loop l s in hit = true \/ budget_exhausted s' = false.
Proof.
  intros Hn. revert D s. induction Hn as [|id l Hid Hn IH]; intros D s HD Hs; cbn [try_loop]; [right; apply Hs|].
  pose proof (spent_step D id s Hs (HD id (list_elem_of_here _ _))) as H.
  destruct (try_user_id id s) as [hit s']. destruct H as [-> | [Hs' _]]; [by left|].
  destruct hit; [by left|]. rewrite (proj1 Hs'). apply (IH (id :: D)).
  - intros i Hi [->|HiD]%elem_of_cons; [done|]. apply (HD i); [|done]. by apply list_elem_of_further.
  - eapply spent_mono; [|exact Hs']. case_match; [|done]. intros c Hc. apply elem_of_cons. by right.
Qed.

End complete.

Lemma all_user_ids_nodup : NoDup all_user_ids.
Proof. apply list.NoDup_filter, NoDup_fmap_2; [apply _|]. apply NoDup_seq. Qed.

Lemma spent_start : spent [] scan_start.
Proof. split; [done|]. exists []. split_and!; [constructor|done|]. by intros c ?%not_elem_of_nil. Qed.

(** The search is exact when the ids before the full list fit the array and the
    budget is the number of users. *)
Lemma try_loop_exact pre :
  candidate_budget = length (entries snapshot) -> (length pre <= CANDIDATE_HINT_TRACK_CAP)%nat ->
  let '(hit, s) := try_loop (pre ++ all_user_ids) scan_start in
  matched s = first_match (pre ++ all_user_ids) /\ hit = bool_decide (is_Some (matched s)).
Proof.
  intros Hb Hpre. pose proof (try_loop_sound (pre ++ all_user_ids) scan_start failed_start) as Hsound.
  destruct (try_loop (pre ++ all_user_ids) scan_start) as [hit s'] eqn:Hrun. destruct Hsound as [_ H].
  destruct hit; [destruct H as [-> ?]; split; [done|]; symmetry; by apply bool_decide_eq_true|].
  destruct H as [Hm Hx]. rewrite Hm. split; [|done].
  destruct (first_match (pre ++ all_user_ids)) as [[[u e] v]|] eqn:Hf; [|done]. exfalso.
  assert (is_Some (proves u)) as Hu.
  { unfold first_match in Hf. apply head_Some_elem_of, list_elem_of_omap in Hf as (x & _ & Hp).
    assert (x = u) as -> by (unfold proves in Hp; repeat case_match; by simplify_eq). eauto. }
  rewrite try_loop_app in Hrun by apply stuck_ok_start.
  pose proof (pre_live u Hu Hb pre scan_start spent_start Hpre) as Hlive.
  destruct (try_loop pre scan_start) as [hit s]. unfold try_phase in Hrun. cbn [fst snd] in Hrun.
  destruct Hlive as [-> | Hs]; [done|]. rewrite (proj1 Hs) in Hrun. destruct hit; [done|]. cbn [orb] in Hrun.
  pose proof (all_live u Hu Hb [] all_user_ids s all_user_ids_nodup
    (fun _ _ => not_elem_of_nil _) Hs) as H. rewrite Hrun in H. destruct H as [?|He]; [done|].
  by specialize (Hx He).
Qed.

Lemma first_match_member ids id entry v :
  first_match ids = Some (id, entry, v) ->
  id ∈ ids /\ entry_by_id id snapshot = Some entry /\ validate (ue_secret entry) = Some v.
Proof.
  unfold first_match. intros (x & Hin & Hp)%head_Some_elem_of%list_elem_of_omap.
  unfold proves in Hp. repeat case_match; by simplify_eq.
Qed.

(** A search that ends with the full list misses nobody. *)
Lemma first_match_none pre :
  Z.of_nat (length (entries snapshot)) <= 2 ^ 32 -> first_match (pre ++ all_user_ids) = None ->
  Forall (fun entry => validate (ue_secret entry) = None) (entries snapshot).
Proof.
  intros Hlen Hn. apply Forall_lookup. intros i entry Hi. destruct (validate (ue_secret entry)) as [v|] eqn:Hv; [|done].
  assert (proves (Z.of_nat i) = Some (Z.of_nat i, entry, v)) as Hp.
  { unfold proves, entry_by_id. rewrite (proj2 (Z.ltb_ge _ _)) by lia. by rewrite Nat2Z.id, Hi, Hv. }
  apply head_None in Hn. assert ((Z.of_nat i, entry, v) ∈ omap proves (pre ++ all_user_ids)) as Hin.
  { apply list_elem_of_omap. exists (Z.of_nat i). split; [|done]. apply elem_of_app. right.
    apply list_elem_of_filter. apply lookup_lt_Some in Hi. split; [lia|]. apply list_elem_of_fmap.
    exists i. split; [done|]. apply elem_of_seq. lia. }
  rewrite Hn in Hin. by apply not_elem_of_nil in Hin.
Qed.

End scan.

(** * What the snapshot holds *)

(** The ids of the entries a predicate holds of, in order. *)
Definition ids_where (p : UserAuthEntry -> bool) (es : list UserAuthEntry) : list Z :=
  omap id (imap (fun i e => if p e then Some (Z.of_nat i) else None) es).

Lemma ids_where_snoc p es e :
  ids_where p (es ++ [e]) = ids_where p es ++ (if p e then [Z.of_nat (length es)] else []).
Proof.
  unfold ids_where. rewrite imap_app, omap_app. f_equal. cbn. rewrite Nat.add_0_r. by destruct (p e).
Qed.

Lemma push_at_lookup key v m k :
  default [] (push_at key v m !! k) = default [] (m !! k) ++ (if bool_decide (key = k) then [v] else []).
Proof.
  unfold push_at. destruct (decide (key = k)) as [->|Hne].
  - by rewrite lookup_insert_eq, bool_decide_eq_true_2.
  - by rewrite lookup_insert_ne, bool_decide_eq_false_2, app_nil_r.
Qed.

Section snapshot_spec.
Context `{Hashing} `{HexDecode}.

Definition user_decoded (x : list Z * list Z) (e : UserAuthEntry) : Prop :=
  ue_user e = x.1 /\ hex_decode x.2 = Some (ue_secret e) /\ length (ue_secret e) = ACCESS_SECRET_BYTES.

Definition same_hash (h : Z) (e : UserAuthEntry) : bool := bool_decide (sni_lookup_hash (ue_user e) = h).
Definition same_initial (b : Z) (e : UserAuthEntry) : bool :=
  bool_decide (to_ascii_lowercase <$> head (ue_user e) = Some b).

Record snapshot_of (users : list (list Z * list Z)) (s : UserAuthSnapshot) : Prop := {
  so_entries : Forall2 user_decoded users (entries s);
  so_names u id : by_name s !! u = Some id <-> exists i e, id = Z.of_nat i /\ entries s !! i = Some e /\ ue_user e = u;
  so_hash h : default [] (sni_index s !! h) = ids_where (same_hash h) (entries s);
  so_initial b : default [] (sni_initial_index s !! b) = ids_where (same_initial b) (entries s);
  so_size : Z.of_nat (length users) <= 2 ^ 32;
}.

Lemma snapshot_of_nil : snapshot_of [] (mkSnapshot [] ∅ ∅ ∅).
Proof.
  split; cbn; try done.
  - intros u id. rewrite lookup_empty. split; [done|]. by intros (i & e & _ & ? & _).
Qed.

Lemma snapshot_of_snoc users s user secret_hex secret :
  snapshot_of users s -> user ∉ users.*1 -> hex_decode secret_hex = Some secret ->
  length secret = ACCESS_SECRET_BYTES -> Z.of_nat (length (entries s)) < 2 ^ 32 ->
  snapshot_of (users ++ [(user, secret_hex)]) (mkSnapshot
    (entries s ++ [mkEntry user secret]) (<[user := Z.of_nat (length (entries s))]> (by_name s))
    (push_at (sni_lookup_hash user) (Z.of_nat (length (entries s))) (sni_index s))
    (match user with
     | [] => sni_initial_index s
     | byte :: _ => push_at (to_ascii_lowercase byte) (Z.of_nat (length (entries s))) (sni_initial_index s)
     end)).
Proof.
  intros [He Hn Hh Hi Hz] Hnew Hdec Hlen Hroom. pose proof (list.Forall2_length _ _ _ He) as Hl.
  assert (forall i e, entries s !! i = Some e -> ue_user e <> user) as Hfresh.
  { intros i e Hlk Heq. destruct (Forall2_lookup_r _ _ _ _ _ He Hlk) as ([u h] & Hlu & Hu & _).
    apply Hnew, list_elem_of_fmap. exists (u, h). split; [by rewrite <- Heq, Hu|]. by eapply list_elem_of_lookup_2. }
  split; cbn [entries by_name sni_index sni_initial_index].
  - apply Forall2_app; [done|]. by repeat constructor.
  - intros u id. destruct (decide (user = u)) as [<-|Hne].
    + rewrite lookup_insert_eq. split.
      * intros [= <-]. exists (length (entries s)), (mkEntry user secret).
        split_and!; [done| |done]. rewrite lookup_app_r by lia. by rewrite Nat.sub_diag.
      * intros (i & e & -> & [Hlk|[Hge Hlk]]%lookup_app_Some & Hu); [by destruct (Hfresh i e)|].
        apply list_lookup_singleton_Some in Hlk as [Hz0 _]. do 2 f_equal. lia.
    + rewrite lookup_insert_ne by done. rewrite Hn. split.
      * intros (i & e & -> & Hlk & Hu). exists i, e. split_and!; [done| |done]. by apply lookup_app_l_Some.
      * intros (i & e & -> & [Hlk|[Hge Hlk]]%lookup_app_Some & Hu); [by exists i, e|].
        apply list_lookup_singleton_Some in Hlk as [_ <-]. by destruct Hne.
  - intros h. by rewrite push_at_lookup, ids_where_snoc, Hh.
  - intros b. rewrite ids_where_snoc, <- Hi. unfold same_initial. destruct user as [|byte rest]; cbn.
    + by rewrite app_nil_r.
    + rewrite push_at_lookup. f_equal. by rewrite (bool_decide_ext (Some (to_ascii_lowercase byte) = Some b)
        (to_ascii_lowercase byte = b)) by (split; congruence).
  - rewrite length_app. cbn. lia.
Qed.

Lemma from_users_loop_spec users done_ s :
  NoDup (done_ ++ users).*1 -> snapshot_of done_ s ->
  match from_users_loop users s with
  | Ok s' => snapshot_of (done_ ++ users) s'
  | Err (InvalidSecret user) => exists secret_hex, (user, secret_hex) ∈ users /\
      forall secret, hex_decode secret_hex = Some secret -> length secret <> ACCESS_SECRET_BYTES
  | Err TooManyUsers => 2 ^ 32 < Z.of_nat (length (done_ ++ users))
  end.
Proof.
  revert done_ s. induction users as [|[user hx] users IH]; intros dn s Hnd Hs; cbn [from_users_loop].
  { by rewrite app_nil_r. }
  destruct (hex_decode hx) as [secret|] eqn:Hdec; [|exists hx; split; [apply list_elem_of_here|]; by rewrite Hdec].
  destruct (length secret =? ACCESS_SECRET_BYTES)%nat eqn:Hl; cbn [negb].
  2:{ exists hx. split; [apply list_elem_of_here|]. intros ? ?. simplify_eq. by apply Nat.eqb_neq. }
  apply Nat.eqb_eq in Hl. pose proof (list.Forall2_length _ _ _ (so_entries _ _ Hs)) as Hlen.
  destruct (2 ^ 32 <=? _) eqn:Hb.
  { apply Z.leb_le in Hb. rewrite length_app. cbn [length]. lia. }
  apply Z.leb_gt in Hb.
  assert (user ∉ dn.*1) as Hfresh.
  { rewrite fmap_app in Hnd. apply list.NoDup_app in Hnd as (_ & Hd & _). intros Hin.
    apply (Hd _ Hin). apply list_elem_of_here. }
  pose proof (snapshot_of_snoc dn s user hx secret Hs Hfresh Hdec Hl Hb) as Hs'.
  specialize (IH (dn ++ [(user, hx)])). rewrite <- app_assoc in IH. specialize (IH _ Hnd Hs'). cbn [app] in IH.
  destruct (from_users_loop users _) as [s'|[u|]]; [done| |done].
  destruct IH as (h & Hin & Hbad). exists h. split; [by apply list_elem_of_further|done].
Qed.

(** The snapshot of a configuration whose secrets are well formed. *)
Lemma from_users_spec users :
  NoDup users.*1 ->
  match from_users users with
  | Ok s => snapshot_of users s
  | Err (InvalidSecret user) => exists secret_hex, (user, secret_hex) ∈ users /\
      forall secret, hex_decode secret_hex = Some secret -> length secret <> ACCESS_SECRET_BYTES
  | Err TooManyUsers => 2 ^ 32 < Z.of_nat (length users)
  end.
Proof. intros Hnd. apply (from_users_loop_spec users [] _ Hnd snapshot_of_nil). Qed.

End snapshot_spec.

(** * The ring of recent users *)

(** The ring holds the users [history] of the successes so far, newest first. *)
Definition ring_holds (history : list Z) (s : AuthState) : Prop :=
  length (recent_user_ring s) = HANDSHAKE_RECENT_USER_RING_LEN /\
  recent_user_ring_seq s = Z.of_nat (length history) mod 2 ^ 64 /\
  forall k, (k < HANDSHAKE_RECENT_USER_RING_LEN)%nat ->
    recent_user_ring s !! Z.to_nat ((Z.of_nat (length history) - 1 - Z.of_nat k) mod 64) =
    Some (match history !! k with Some id => u32_saturating_add id 1 | None => 0 end).

Lemma ring_holds_new : ring_holds [] auth_new.
Proof.
  split; [done|]. split; [done|]. intros k _. cbn [auth_new recent_user_ring length].
  rewrite lookup_nil. apply lookup_replicate_2. change HANDSHAKE_RECENT_USER_RING_LEN with 64%nat.
  pose proof (Z.mod_pos_bound (Z.of_nat 0 - 1 - Z.of_nat k) 64 ltac:(lia)). lia.
Qed.

Lemma mod_2_64_64 x : x mod 2 ^ 64 mod 64 = x mod 64.
Proof. apply Z.mod_mod_divide. exists (2 ^ 58). reflexivity. Qed.

Lemma ring_holds_record history id s :
  ring_holds history s -> ring_holds (id :: history) (record_recent_user_success_in id s).
Proof.
  intros (Hl & Hseq & Hring). unfold record_recent_user_success_in.
  rewrite bool_decide_eq_false_2 by (intros Heq; by rewrite Heq in Hl).
  rewrite Hl. change (Z.of_nat HANDSHAKE_RECENT_USER_RING_LEN) with 64. rewrite Hseq, mod_2_64_64.
  unfold ring_holds. cbn [recent_user_ring recent_user_ring_seq length].
  pose proof (Z.mod_pos_bound (Z.of_nat (length history)) 64 ltac:(lia)) as Hn.
  assert (Z.to_nat (Z.of_nat (length history) mod 64) < length (recent_user_ring s))%nat as Hlt.
  { rewrite Hl. change HANDSHAKE_RECENT_USER_RING_LEN with 64%nat. lia. }
  split; [by rewrite length_insert|]. split; [rewrite Zplus_mod_idemp_l; f_equal; lia|].
  intros [|k] Hk.
  - replace (Z.of_nat (S (length history)) - 1 - Z.of_nat 0) with (Z.of_nat (length history)) by lia.
    cbn [lookup list_lookup]. by apply list_lookup_insert_eq.
  - replace (Z.of_nat (S (length history)) - 1 - Z.of_nat (S k)) with (Z.of_nat (length history) - 1 - Z.of_nat k) by lia.
    rewrite list_lookup_insert_ne; [by apply Hring; lia|].
    change HANDSHAKE_RECENT_USER_RING_LEN with 64%nat in Hk.
    pose proof (Z.mod_pos_bound (Z.of_nat (length history) - 1 - Z.of_nat k) 64 ltac:(lia)).
    intros Heq. assert (Z.of_nat (length history) mod 64 = (Z.of_nat (length history) - 1 - Z.of_nat k) mod 64) as Hm by lia.
    pose proof (Z.div_mod (Z.of_nat (length history)) 64 ltac:(lia)).
    pose proof (Z.div_mod (Z.of_nat (length history) - 1 - Z.of_nat k) 64 ltac:(lia)). lia.
Qed.

Lemma omap_lookup_seq {A} (l : list A) n : omap (fun i => l !! i) (seq 0 n) = take n l.
Proof.
  assert (forall (l : list A) n a, omap (fun i => l !! (i - a)%nat) (seq a n) = take n l) as Hgen.
  { clear l n. induction l as [|x l IH]; intros [|n] a; cbn; try done.
    - rewrite lookup_nil.
      assert (forall m b, omap (fun i => @None A) (seq b m) = []) as Hnone.
      { induction m as [|m IHm]; intros b; cbn; [done|]. apply IHm. }
      rewrite (list_omap_ext _ (fun _ => None) _ (seq (S a) n)); [apply Hnone|].
      apply Forall_Forall2_diag, list.Forall_forall. intros i _. by rewrite lookup_nil.
    - rewrite Nat.sub_diag. cbn. f_equal. rewrite <- (IH n (S a)). apply list_omap_ext.
      apply Forall_Forall2_diag, list.Forall_forall. intros i Hi%elem_of_seq.
      by replace (i - a)%nat with (S (i - S a)) by lia. }
  rewrite <- (Hgen l n 0%nat). apply list_omap_ext.
  apply Forall_Forall2_diag, list.Forall_forall. intros i _. by rewrite Nat.sub_0_r.
Qed.

(** The search sees exactly the latest successes. *)
Lemma recent_users_history history s :
  ring_holds history s -> Forall (fun id => 0 <= id < 2 ^ 32 - 1) history ->
  recent_users s = take RECENT_USER_RING_SCAN_LIMIT history.
Proof.
  intros (Hl & Hseq & Hring) Hids. unfold recent_users.
  rewrite bool_decide_eq_false_2 by (intros Heq; by rewrite Heq in Hl). rewrite Hl.
  change (Nat.min _ _) with RECENT_USER_RING_SCAN_LIMIT. rewrite <- omap_lookup_seq. apply list_omap_ext.
  apply Forall_Forall2_diag, list.Forall_forall. intros k Hk%elem_of_seq.
  change RECENT_USER_RING_SCAN_LIMIT with 32%nat in Hk. change (Z.of_nat HANDSHAKE_RECENT_USER_RING_LEN) with 64.
  rewrite mod_2_64_64, Hseq.
  replace ((Z.of_nat (length history) mod 2 ^ 64 + 64 - 1 - Z.of_nat k) mod 64)
    with ((Z.of_nat (length history) - 1 - Z.of_nat k) mod 64).
  2:{ replace (Z.of_nat (length history) mod 2 ^ 64 + 64 - 1 - Z.of_nat k)
        with (Z.of_nat (length history) mod 2 ^ 64 + (-1 - Z.of_nat k) + 1 * 64) by lia.
      rewrite Z_mod_plus_full, <- (Zplus_mod_idemp_l (_ mod 2 ^ 64)), mod_2_64_64, Zplus_mod_idemp_l. f_equal. lia. }
  rewrite Hring by (change HANDSHAKE_RECENT_USER_RING_LEN with 64%nat; lia).
  destruct (history !! k) as [id|] eqn:Hlk; [|done].
  pose proof (Forall_lookup_1 _ _ _ _ Hids Hlk) as Hid. cbn in Hid. unfold u32_saturating_add.
  rewrite Z.min_l by lia. rewrite (proj2 (Z.eqb_neq _ _)) by lia. f_equal. lia.
Qed.
