(* ===== verification/Obfuscation.v ===== *)
(** The obfuscation layer of a client's and of a datacenter's connection
    ([protocol/obfuscation.rs], [proxy/handshake/nonce.rs], the validation of one
    secret in [proxy/handshake/auth_candidates.rs], and the datacenter side of
    [proxy/direct_relay.rs]): 64 bytes whose middle is key material and whose
    tail, encrypted under it, names the framing and the datacenter.

    SHA-256 is a parameter, as are the random generator and the keystream. *)

From stdpp Require Import base list numbers.
From S2P Require Import Prelude Aes Net Random RpcWire Stream CryptoStream.
Local Open Scope nat_scope.

Definition SKIP_LEN : nat := 8.
Definition PREKEY_LEN : nat := 32.
Definition KEY_LEN : nat := 32.
Definition IV_LEN : nat := 16.
Definition HANDSHAKE_LEN : nat := 64.
Definition PROTO_TAG_POS : nat := 56.
Definition DC_IDX_POS : nat := 60.

Definition RESERVED_NONCE_FIRST_BYTES : list Z := [0xef]%Z.
Definition RESERVED_NONCE_BEGINNINGS : list (list Z) :=
  [[0x48; 0x45; 0x41; 0x44]; [0x50; 0x4f; 0x53; 0x54]; [0x47; 0x45; 0x54; 0x20];
   [0xee; 0xee; 0xee; 0xee]; [0xdd; 0xdd; 0xdd; 0xdd]; [0x16; 0x03; 0x01; 0x02]]%Z.
Definition RESERVED_NONCE_CONTINUES : list (list Z) := [[0; 0; 0; 0]]%Z.

(** * Tags and indices *)

Definition tag_value (tag : ProtoTag) : Z :=
  match tag with Abridged => 0xefefefef | Intermediate => 0xeeeeeeee | Secure => 0xdddddddd end.

Definition tag_from_bytes (bytes : list Z) : option ProtoTag :=
  let v := of_le bytes in
  if (v =? 0xefefefef)%Z then Some Abridged
  else if (v =? 0xeeeeeeee)%Z then Some Intermediate
  else if (v =? 0xdddddddd)%Z then Some Secure
  else None.

Definition tag_to_bytes (tag : ProtoTag) : list Z := to_le 4 (tag_value tag).

(** [i16::from_le_bytes] and [i16::to_le_bytes]. *)
Definition i16_from_le (bytes : list Z) : Z :=
  let v := of_le bytes in if (v <? 2 ^ 15)%Z then v else (v - 2 ^ 16)%Z.
Definition i16_to_le (v : Z) : list Z := to_le 2 (v mod 2 ^ 16).

Class Sha256 := sha256 : list Z -> list Z.
Class Sha256Laws `{Sha256} := sha256_ok data : length (sha256 data) = 32 /\ bytes_ok (sha256 data).

Record ProxyModes := mkModes { m_classic : bool; m_secure : bool; m_tls : bool }.

Definition mode_enabled_for_proto (modes : ProxyModes) (proto_tag : ProtoTag) (is_tls : bool) : bool :=
  match proto_tag with
  | Secure => if is_tls then m_tls modes else m_secure modes
  | Intermediate | Abridged => m_classic modes
  end.

(** * One secret *)

Record MtprotoCandidateValidation := mkCandidate {
  mv_proto_tag : ProtoTag;
  mv_dc_idx : Z;
  mv_dec_key : list Z;
  mv_dec_iv : Z;
  mv_enc_key : list Z;
  mv_enc_iv : Z;
  mv_decryptor : AesCtr;
  mv_encryptor : AesCtr;
}.

Record ObfuscationParams := mkParams {
  decrypt_key : list Z;
  decrypt_iv : Z;
  encrypt_key : list Z;
  encrypt_iv : Z;
  op_proto_tag : ProtoTag;
  op_dc_idx : Z;
}.

(** [handshake[SKIP_LEN..SKIP_LEN + PREKEY_LEN + IV_LEN]]. *)
Definition prekey_iv (handshake : list Z) : list Z := sub SKIP_LEN (PREKEY_LEN + IV_LEN) handshake.
Definition prekey_of (key_iv : list Z) : list Z := take PREKEY_LEN key_iv.
Definition iv_of (key_iv : list Z) : Z := of_be (drop PREKEY_LEN key_iv).

Section obfuscation.
Context `{StreamKey} `{Sha256}.

Definition validate_mtproto_secret_candidate (handshake dec_prekey : list Z) (dec_iv : Z) (enc_prekey : list Z)
    (enc_iv : Z) (secret : list Z) (modes : ProxyModes) (is_tls : bool) : option MtprotoCandidateValidation :=
  let dec_key := sha256 (dec_prekey ++ secret) in
  let '(decrypted, decryptor) := ctr_apply handshake (aes_ctr_new dec_key dec_iv) in
  match tag_from_bytes (sub PROTO_TAG_POS 4 decrypted) with
  | None => None
  | Some proto_tag =>
      if negb (mode_enabled_for_proto modes proto_tag is_tls) then None
      else
        let dc_idx := i16_from_le (sub DC_IDX_POS 2 decrypted) in
        let enc_key := sha256 (enc_prekey ++ secret) in
        let encryptor := aes_ctr_new enc_key enc_iv in
        Some (mkCandidate proto_tag dc_idx dec_key dec_iv enc_key enc_iv decryptor encryptor)
  end.

(** The key material the handshake computes once for all the candidates, and
    the validation of one of them. *)
Definition validate_mtproto (handshake : list Z) (modes : ProxyModes) (is_tls : bool) (secret : list Z)
    : option MtprotoCandidateValidation :=
  let dec_prekey_iv := prekey_iv handshake in
  let enc_prekey_iv := reverse dec_prekey_iv in
  validate_mtproto_secret_candidate handshake (prekey_of dec_prekey_iv) (iv_of dec_prekey_iv)
    (prekey_of enc_prekey_iv) (iv_of enc_prekey_iv) secret modes is_tls.

(** [ObfuscationParams::from_handshake]: the same without modes. *)
Fixpoint from_handshake (handshake : list Z) (secrets : list (list Z * list Z))
    : option (ObfuscationParams * list Z) :=
  match secrets with
  | [] => None
  | (username, secret) :: secrets =>
      let dec_prekey_iv := prekey_iv handshake in
      let enc_prekey_iv := reverse dec_prekey_iv in
      let decrypt_key := sha256 (prekey_of dec_prekey_iv ++ secret) in
      let decrypt_iv := iv_of dec_prekey_iv in
      let '(decrypted, _) := ctr_decrypt handshake (aes_ctr_new decrypt_key decrypt_iv) in
      match tag_from_bytes (sub PROTO_TAG_POS 4 decrypted) with
      | None => from_handshake handshake secrets
      | Some proto_tag =>
          Some (mkParams decrypt_key decrypt_iv (sha256 (prekey_of enc_prekey_iv ++ secret)) (iv_of enc_prekey_iv)
                  proto_tag (i16_from_le (sub DC_IDX_POS 2 decrypted)), username)
      end
  end.

Definition create_decryptor (p : ObfuscationParams) : AesCtr := aes_ctr_new (decrypt_key p) (decrypt_iv p).
Definition create_encryptor (p : ObfuscationParams) : AesCtr := aes_ctr_new (encrypt_key p) (encrypt_iv p).
Definition enc_key_iv (p : ObfuscationParams) : list Z := encrypt_key p ++ to_be 16 (encrypt_iv p).

(** * Nonces for a datacenter *)

(** The test [is_valid_nonce] and, written out again, that of [generate_tg_nonce]. *)
Definition is_valid_nonce (nonce : list Z) : bool :=
  negb (bool_decide (take 1 nonce ∈ ((fun b => [b]) <$> RESERVED_NONCE_FIRST_BYTES))) &&
  negb (bool_decide (sub 0 4 nonce ∈ RESERVED_NONCE_BEGINNINGS)) &&
  negb (bool_decide (sub 4 4 nonce ∈ RESERVED_NONCE_CONTINUES)).

Definition prepare_tg_nonce (nonce : list Z) (proto_tag : ProtoTag) (enc_key_iv : option (list Z)) : list Z :=
  let nonce := write_block PROTO_TAG_POS (tag_to_bytes proto_tag) nonce in
  match enc_key_iv with
  | Some key_iv => write_block SKIP_LEN (reverse key_iv) nonce
  | None => nonce
  end.

Record TgNonce := mkTgNonce {
  tn_nonce : list Z;
  tn_enc_key : list Z;
  tn_enc_iv : Z;
  tn_dec_key : list Z;
  tn_dec_iv : Z;
}.

(** The body of [generate_tg_nonce] after the tests. *)
Definition finish_tg_nonce (proto_tag : ProtoTag) (dc_idx : Z) (client_enc_key : list Z) (client_enc_iv : Z)
    (fast_mode : bool) (nonce : list Z) : TgNonce :=
  let nonce := write_block PROTO_TAG_POS (tag_to_bytes proto_tag) nonce in
  let nonce := write_block DC_IDX_POS (i16_to_le dc_idx) nonce in
  let nonce :=
    if fast_mode then write_block SKIP_LEN (reverse (client_enc_key ++ to_be 16 client_enc_iv)) nonce else nonce in
  let enc_key_iv := sub SKIP_LEN (KEY_LEN + IV_LEN) nonce in
  let dec_key_iv := reverse enc_key_iv in
  mkTgNonce nonce (prekey_of enc_key_iv) (iv_of enc_key_iv) (prekey_of dec_key_iv) (iv_of dec_key_iv).

Section random.
Context {R : Type} `{StdRng R}.

(** The loops draw until the tests pass: [None] when [fuel] draws did not. *)
Fixpoint generate_nonce (fuel : nat) (rng : SecureRandomInner R) : option (list Z * SecureRandomInner R) :=
  match fuel with
  | O => None
  | S fuel =>
      let '(nonce, rng) := rand_bytes HANDSHAKE_LEN rng in
      if is_valid_nonce nonce then Some (nonce, rng) else generate_nonce fuel rng
  end.

Fixpoint generate_tg_nonce (fuel : nat) (proto_tag : ProtoTag) (dc_idx : Z) (client_enc_key : list Z)
    (client_enc_iv : Z) (fast_mode : bool) (rng : SecureRandomInner R) : option (TgNonce * SecureRandomInner R) :=
  match fuel with
  | O => None
  | S fuel =>
      let '(nonce, rng) := rand_bytes HANDSHAKE_LEN rng in
      if negb (length nonce =? HANDSHAKE_LEN) then
        generate_tg_nonce fuel proto_tag dc_idx client_enc_key client_enc_iv fast_mode rng
      else if negb (is_valid_nonce nonce) then
        generate_tg_nonce fuel proto_tag dc_idx client_enc_key client_enc_iv fast_mode rng
      else Some (finish_tg_nonce proto_tag dc_idx client_enc_key client_enc_iv fast_mode nonce, rng)
  end.

End random.

Definition encrypt_tg_nonce_with_ciphers (nonce : list Z) : list Z * AesCtr * AesCtr :=
  let enc_key_iv := sub SKIP_LEN (KEY_LEN + IV_LEN) nonce in
  let dec_key_iv := reverse enc_key_iv in
  let '(encrypted_full, encryptor) := ctr_encrypt nonce (aes_ctr_new (prekey_of enc_key_iv) (iv_of enc_key_iv)) in
  let result := take PROTO_TAG_POS nonce ++ drop PROTO_TAG_POS encrypted_full in
  (result, encryptor, aes_ctr_new (prekey_of dec_key_iv) (iv_of dec_key_iv)).

Definition encrypt_tg_nonce (nonce : list Z) : list Z := (encrypt_tg_nonce_with_ciphers nonce).1.1.

End obfuscation.

(** * Lemmas *)

Lemma tag_roundtrip tag : tag_from_bytes (tag_to_bytes tag) = Some tag.
Proof. by destruct tag. Qed.

Lemma i16_roundtrip v : (- 2 ^ 15 <= v < 2 ^ 15)%Z -> i16_from_le (i16_to_le v) = v.
Proof.
  intros Hv. unfold i16_from_le, i16_to_le. rewrite of_le_to_le by (apply Z.mod_pos_bound; lia).
  destruct (Z.ltb_spec (v mod 2 ^ 16) (2 ^ 15)) as [Hlt|Hge]; pose proof (Z.div_mod v (2 ^ 16) ltac:(lia));
    pose proof (Z.mod_pos_bound v (2 ^ 16) ltac:(lia)); lia.
Qed.

Lemma length_i16_to_le v : length (i16_to_le v) = 2.
Proof. apply length_to_le. Qed.
Lemma length_tag_to_bytes tag : length (tag_to_bytes tag) = 4.
Proof. apply length_to_le. Qed.

(** The layout of a handshake: eight bytes, key material, tag, index, two bytes. *)
Record layout (h skip key_iv tag dc rest : list Z) : Prop := {
  lay_eq : h = skip ++ key_iv ++ tag ++ dc ++ rest;
  lay_skip : length skip = 8;
  lay_key : length key_iv = 48;
  lay_tag : length tag = 4;
  lay_dc : length dc = 2;
  lay_rest : length rest = 2;
}.

Lemma layout_exists h : length h = HANDSHAKE_LEN -> exists skip key_iv tag dc rest, layout h skip key_iv tag dc rest.
Proof.
  intros Hl. change HANDSHAKE_LEN with 64 in Hl.
  exists (take 8 h), (take 48 (drop 8 h)), (take 4 (drop 56 h)), (take 2 (drop 60 h)), (drop 62 h).
  split; rewrite ?length_take, ?length_drop, ?Hl; try lia.
  replace (drop 62 h) with (drop 2 (drop 60 h)) by (by rewrite drop_drop). rewrite take_drop.
  replace (drop 60 h) with (drop 4 (drop 56 h)) by (by rewrite drop_drop). rewrite take_drop.
  replace (drop 56 h) with (drop 48 (drop 8 h)) by (by rewrite drop_drop). rewrite take_drop.
  by rewrite take_drop.
Qed.

(** Finds a field of a concatenation by the lengths of the parts. *)
Ltac find_field :=
  repeat rewrite sub_skip by lia;
  match goal with |- sub ?off _ (_ ++ _) = _ => replace off with 0 by lia; apply sub_hit; lia end.

Section layout_fields.
Context (h skip key_iv tag dc rest : list Z) (Hlay : layout h skip key_iv tag dc rest).

Lemma layout_key : sub 8 48 h = key_iv.
Proof. destruct Hlay as [-> ? ? ? ? ?]. find_field. Qed.

Lemma layout_prekey_iv : prekey_iv h = key_iv.
Proof. apply layout_key. Qed.

Lemma layout_tag : sub 56 4 h = tag.
Proof. destruct Hlay as [-> ? ? ? ? ?]. find_field. Qed.

Lemma layout_dc : sub 60 2 h = dc.
Proof. destruct Hlay as [-> ? ? ? ? ?]. find_field. Qed.

End layout_fields.

Lemma write_block_mid n a b c d :
  n = length a -> length b = length c -> write_block n c (a ++ b ++ d) = a ++ c ++ d.
Proof.
  intros -> Hb. unfold write_block. rewrite take_app_length. do 2 f_equal.
  rewrite drop_app_ge by lia. rewrite drop_app_ge by lia.
  by replace (length a + length c - length a - length b) with 0 by lia.
Qed.

(** Writing the tag, the index and the key material fills their fields. *)
Lemma write_tag_dc h skip key_iv tag dc rest tag' dc' :
  layout h skip key_iv tag dc rest -> length tag' = 4 -> length dc' = 2 ->
  layout (write_block DC_IDX_POS dc' (write_block PROTO_TAG_POS tag' h)) skip key_iv tag' dc' rest.
Proof.
  intros [-> Hs Hk Ht Hd Hr] Ht' Hd'. split; try done. unfold PROTO_TAG_POS, DC_IDX_POS.
  replace (skip ++ key_iv ++ tag ++ dc ++ rest) with ((skip ++ key_iv) ++ tag ++ dc ++ rest) by (by rewrite <- !app_assoc).
  rewrite write_block_mid by (rewrite ?length_app; lia).
  replace ((skip ++ key_iv) ++ tag' ++ dc ++ rest) with ((skip ++ key_iv ++ tag') ++ dc ++ rest) by (by rewrite <- !app_assoc).
  rewrite write_block_mid by (rewrite ?length_app; lia). by rewrite <- !app_assoc.
Qed.

Lemma write_key h skip key_iv tag dc rest key_iv' :
  layout h skip key_iv tag dc rest -> length key_iv' = 48 ->
  layout (write_block SKIP_LEN key_iv' h) skip key_iv' tag dc rest.
Proof. intros [-> Hs Hk Ht Hd Hr] Hk'. split; try done. by rewrite write_block_mid by (unfold SKIP_LEN; lia). Qed.

(** * Both ends of a connection *)

Section ends.
Context `{StreamKey} `{Sha256}.

(** What goes over the wire: the tail of [p] is encrypted as the last eight of 64 bytes. *)
Definition seal (c : AesCtr) (p : list Z) : list Z := take PROTO_TAG_POS p ++ drop PROTO_TAG_POS (ctr_apply p c).1.

Lemma seal_layout c p skip key_iv tag dc rest :
  layout p skip key_iv tag dc rest ->
  exists tag' dc' rest', layout (seal c p) skip key_iv tag' dc' rest'.
Proof.
  intros [-> Hs Hk Ht Hd Hr]. unfold seal. rewrite (assoc_L (++) skip key_iv).
  rewrite take_app_length' by (rewrite length_app; unfold PROTO_TAG_POS; lia).
  set (t := drop _ _).
  assert (length t = 8) as Hlt by (unfold t; rewrite length_drop, length_ctr_apply, !length_app; unfold PROTO_TAG_POS; lia).
  exists (take 4 t), (take 2 (drop 4 t)), (drop 6 t).
  split; rewrite ?length_take, ?length_drop, ?Hlt; try lia; try done.
  rewrite <- (assoc_L (++)). do 2 f_equal.
  replace (drop 6 t) with (drop 2 (drop 4 t)) by (by rewrite drop_drop). by rewrite !take_drop.
Qed.

Lemma ctr_state_length x y c : length x = length y -> (ctr_apply x c).2 = (ctr_apply y c).2.
Proof. intros Hl. unfold ctr_apply. cbn [snd]. by rewrite Hl. Qed.

(** Opening the whole of it with the same key gives the tail back and leaves the
    cipher where sealing left it. *)
Lemma seal_open c p skip key_iv tag dc rest :
  layout p skip key_iv tag dc rest ->
  exists head, ctr_apply (seal c p) c = (head ++ tag ++ dc ++ rest, (ctr_apply p c).2) /\ length head = 56.
Proof.
  intros [-> Hs Hk Ht Hd Hr]. unfold seal. rewrite (assoc_L (++) skip key_iv).
  set (a := skip ++ key_iv). set (b := tag ++ dc ++ rest).
  assert (length a = 56) as Ha by (unfold a; rewrite length_app; lia).
  rewrite take_app_length' by (unfold PROTO_TAG_POS; lia). rewrite (ctr_apply_app a b). cbn [fst snd].
  rewrite drop_app_length' by (rewrite length_ctr_apply; unfold PROTO_TAG_POS; lia).
  exists (ctr_apply a c).1. rewrite length_ctr_apply. split; [|done].
  rewrite ctr_apply_app. rewrite ctr_apply_twice. f_equal.
  apply ctr_state_length, length_ctr_apply.
Qed.

(** A client: 64 random bytes, its secret, the framing and the datacenter it
    asks for.  It sends the result and keeps two ciphers. *)
Definition client_connect (secret : list Z) (tag : ProtoTag) (dc : Z) (nonce : list Z) : list Z * AesCtr * AesCtr :=
  let p := write_block DC_IDX_POS (i16_to_le dc) (write_block PROTO_TAG_POS (tag_to_bytes tag) nonce) in
  let up := prekey_iv p in
  let down := reverse up in
  let enc := aes_ctr_new (sha256 (prekey_of up ++ secret)) (iv_of up) in
  (seal enc p, (ctr_apply p enc).2, aes_ctr_new (sha256 (prekey_of down ++ secret)) (iv_of down)).

(** A datacenter: it reads 64 bytes and takes the keys as they are. *)
Definition dc_accept (wire : list Z) : option ProtoTag * Z * AesCtr * AesCtr :=
  let up := prekey_iv wire in
  let down := reverse up in
  let '(plain, dec) := ctr_apply wire (aes_ctr_new (prekey_of up) (iv_of up)) in
  (tag_from_bytes (sub PROTO_TAG_POS 4 plain), i16_from_le (sub DC_IDX_POS 2 plain), dec,
   aes_ctr_new (prekey_of down) (iv_of down)).

Lemma sub_tail_tag (hd tag dc rest : list Z) :
  length hd = 56 -> length tag = 4 -> sub PROTO_TAG_POS 4 (hd ++ tag ++ dc ++ rest) = tag.
Proof. intros. unfold PROTO_TAG_POS. find_field. Qed.

Lemma sub_tail_dc (hd tag dc rest : list Z) :
  length hd = 56 -> length tag = 4 -> length dc = 2 -> sub DC_IDX_POS 2 (hd ++ tag ++ dc ++ rest) = dc.
Proof. intros. unfold DC_IDX_POS. find_field. Qed.

(** The proxy reads what the client meant, and holds the same two ciphers. *)
Lemma validate_client secret tag dc nonce modes is_tls wire enc dec :
  length nonce = HANDSHAKE_LEN -> (- 2 ^ 15 <= dc < 2 ^ 15)%Z -> mode_enabled_for_proto modes tag is_tls = true ->
  client_connect secret tag dc nonce = (wire, enc, dec) ->
  exists v, validate_mtproto wire modes is_tls secret = Some v /\
    mv_proto_tag v = tag /\ mv_dc_idx v = dc /\ mv_decryptor v = enc /\ mv_encryptor v = dec /\
    aes_ctr_new (mv_enc_key v) (mv_enc_iv v) = dec.
Proof.
  intros Hl Hdc Hmode. unfold client_connect. set (p := write_block DC_IDX_POS _ _). intros [= <- <- <-].
  destruct (layout_exists nonce Hl) as (skip & key_iv & t0 & d0 & rest & Hlay0).
  pose proof (write_tag_dc _ _ _ _ _ _ (tag_to_bytes tag) (i16_to_le dc) Hlay0 (length_tag_to_bytes _) (length_i16_to_le _)) as Hlay.
  fold p in Hlay. rewrite (layout_prekey_iv _ _ _ _ _ _ Hlay).
  set (c := aes_ctr_new (sha256 (prekey_of key_iv ++ secret)) (iv_of key_iv)).
  destruct (seal_layout c p _ _ _ _ _ Hlay) as (t' & d' & r' & Hw).
  unfold validate_mtproto, validate_mtproto_secret_candidate. rewrite (layout_prekey_iv _ _ _ _ _ _ Hw). fold c.
  destruct (seal_open c p _ _ _ _ _ Hlay) as (hd & -> & Hhd).
  rewrite sub_tail_tag, sub_tail_dc, tag_roundtrip, Hmode, i16_roundtrip by (done || apply length_tag_to_bytes || apply length_i16_to_le).
  cbn [negb]. by eexists.
Qed.

(** The datacenter reads what the proxy was told, and holds the same two ciphers. *)
Lemma dc_accept_nonce tag dc key iv fast nonce :
  length nonce = HANDSHAKE_LEN -> (- 2 ^ 15 <= dc < 2 ^ 15)%Z -> length key = KEY_LEN ->
  let tn := finish_tg_nonce tag dc key iv fast nonce in
  let '(wire, enc, dec) := encrypt_tg_nonce_with_ciphers (tn_nonce tn) in
  dc_accept wire = (Some tag, dc, enc, dec) /\ length wire = HANDSHAKE_LEN /\ take 8 wire = take 8 nonce /\
  enc = mkAesCtr (tn_enc_key tn) (tn_enc_iv tn) HANDSHAKE_LEN /\ dec = aes_ctr_new (tn_dec_key tn) (tn_dec_iv tn).
Proof.
  intros Hl Hdc Hkey. destruct (layout_exists nonce Hl) as (skip & key_iv & t0 & d0 & rest & Hlay0).
  pose proof (write_tag_dc _ _ _ _ _ _ (tag_to_bytes tag) (i16_to_le dc) Hlay0 (length_tag_to_bytes _) (length_i16_to_le _)) as Hlay1.
  assert (exists key_iv', layout (tn_nonce (finish_tg_nonce tag dc key iv fast nonce)) skip key_iv'
    (tag_to_bytes tag) (i16_to_le dc) rest) as [k Hlay].
  { unfold finish_tg_nonce. cbn [tn_nonce]. destruct fast; [|eauto]. eexists. apply (write_key _ _ _ _ _ _ _ Hlay1).
    rewrite length_reverse, length_app, length_to_be. unfold KEY_LEN in *. lia. }
  cbn zeta. unfold finish_tg_nonce in *. cbn [tn_nonce tn_enc_key tn_enc_iv tn_dec_key tn_dec_iv] in *.
  set (p := if fast then _ else _) in *. change (KEY_LEN + IV_LEN) with 48. change SKIP_LEN with 8.
  rewrite (layout_key _ _ _ _ _ _ Hlay).
  unfold encrypt_tg_nonce_with_ciphers. change (KEY_LEN + IV_LEN) with 48. change SKIP_LEN with 8.
  rewrite (layout_key _ _ _ _ _ _ Hlay). unfold ctr_encrypt.
  set (c := aes_ctr_new (prekey_of k) (iv_of k)). destruct (ctr_apply p c) as [full enc] eqn:Hc.
  replace (take PROTO_TAG_POS p ++ drop PROTO_TAG_POS full) with (seal c p) by (unfold seal; by rewrite Hc).
  destruct (seal_layout c p _ _ _ _ _ Hlay) as (t' & d' & r' & Hw).
  destruct (seal_open c p _ _ _ _ _ Hlay) as (hd & Hopen & Hhd).
  assert (length p = 64) as Hp.
  { rewrite (lay_eq _ _ _ _ _ _ Hlay), !length_app, (lay_skip _ _ _ _ _ _ Hlay), (lay_key _ _ _ _ _ _ Hlay),
      (lay_tag _ _ _ _ _ _ Hlay), (lay_dc _ _ _ _ _ _ Hlay), (lay_rest _ _ _ _ _ _ Hlay). done. }
  split_and!.
  - unfold dc_accept. rewrite (layout_prekey_iv _ _ _ _ _ _ Hw). fold c. rewrite Hopen.
    rewrite sub_tail_tag, sub_tail_dc, tag_roundtrip, i16_roundtrip by (done || apply length_tag_to_bytes || apply length_i16_to_le).
    by rewrite Hc.
  - unfold seal. rewrite length_app, length_take, length_drop, length_ctr_apply, Hp. done.
  - rewrite (lay_eq _ _ _ _ _ _ Hw), (lay_eq _ _ _ _ _ _ Hlay0).
    by rewrite !take_app_length' by (by rewrite (lay_skip _ _ _ _ _ _ Hlay0)).
  - pose proof (f_equal snd Hc) as He. cbn in He. rewrite Hp in He. by rewrite <- He.
  - done.
Qed.

End ends.

(** In fast mode the datacenter encrypts with the key the client decrypts with. *)
Lemma fast_mode_shares tag dc key iv nonce :
  length nonce = HANDSHAKE_LEN -> length key = KEY_LEN -> (0 <= iv < 2 ^ 128)%Z ->
  tn_dec_key (finish_tg_nonce tag dc key iv true nonce) = key /\
  tn_dec_iv (finish_tg_nonce tag dc key iv true nonce) = iv.
Proof.
  intros Hl Hkey Hiv. destruct (layout_exists nonce Hl) as (skip & key_iv & t0 & d0 & rest & Hlay0).
  pose proof (write_tag_dc _ _ _ _ _ _ (tag_to_bytes tag) (i16_to_le dc) Hlay0 (length_tag_to_bytes _) (length_i16_to_le _)) as Hlay1.
  assert (length (reverse (key ++ to_be 16 iv)) = 48) as Hrev
    by (rewrite length_reverse, length_app, length_to_be; unfold KEY_LEN in *; lia).
  pose proof (write_key _ _ _ _ _ _ _ Hlay1 Hrev) as Hlay.
  unfold finish_tg_nonce. cbn [tn_dec_key tn_dec_iv]. change (KEY_LEN + IV_LEN) with 48. change SKIP_LEN with 8 in *.
  rewrite (layout_key _ _ _ _ _ _ Hlay), reverse_involutive. unfold prekey_of, iv_of, KEY_LEN, PREKEY_LEN in *.
  rewrite take_app_length', drop_app_length' by done. split; [done|]. by apply of_be_to_be.
Qed.

(** ** The search for a nonce *)

Section search.
Context {R : Type} `{StdRngLaws R} `{StreamKey}.

(** The values drawn. *)
Fixpoint draws (n : nat) (rng : SecureRandomInner R) : list (list Z) :=
  match n with
  | O => []
  | S n => let '(nonce, rng) := rand_bytes HANDSHAKE_LEN rng in nonce :: draws n rng
  end.

(** The loops return the first value drawn that passes the test. *)
Lemma generate_nonce_first fuel rng :
  match generate_nonce fuel rng with
  | Some (nonce, _) => head (filter (fun n => is_valid_nonce n = true) (draws fuel rng)) = Some nonce
  | None => Forall (fun n => is_valid_nonce n = false) (draws fuel rng)
  end.
Proof.
  revert rng. induction fuel as [|fuel IH]; intros rng; cbn [generate_nonce draws]; [constructor|].
  destruct (rand_bytes HANDSHAKE_LEN rng) as [nonce rng'].
  destruct (is_valid_nonce nonce) eqn:Hv; [by rewrite filter_cons_True by done|].
  specialize (IH rng'). destruct (generate_nonce fuel rng') as [[n r]|]; [|by constructor].
  by rewrite filter_cons_False by (by rewrite Hv).
Qed.

Lemma generate_tg_nonce_eq fuel tag dc key iv fast rng :
  generate_tg_nonce fuel tag dc key iv fast rng =
  match generate_nonce fuel rng with
  | Some (nonce, rng) => Some (finish_tg_nonce tag dc key iv fast nonce, rng)
  | None => None
  end.
Proof.
  revert rng. induction fuel as [|fuel IH]; intros rng; cbn [generate_nonce generate_tg_nonce]; [done|].
  pose proof (rand_bytes_length HANDSHAKE_LEN rng) as Hl. destruct (rand_bytes HANDSHAKE_LEN rng) as [nonce rng'].
  cbn [fst] in Hl. rewrite Hl, Nat.eqb_refl. cbn [negb]. destruct (is_valid_nonce nonce); [done|]. apply IH.
Qed.

Lemma generate_nonce_ok fuel rng nonce rng' :
  generate_nonce fuel rng = Some (nonce, rng') -> length nonce = HANDSHAKE_LEN /\ is_valid_nonce nonce = true.
Proof.
  revert rng. induction fuel as [|fuel IH]; intros rng; cbn [generate_nonce]; [done|].
  pose proof (rand_bytes_length HANDSHAKE_LEN rng) as Hl. destruct (rand_bytes HANDSHAKE_LEN rng) as [n r].
  destruct (is_valid_nonce n) eqn:Hv; [|apply IH]. intros [= <- <-]. done.
Qed.

(** The test looks at the first eight bytes only. *)
Lemma is_valid_nonce_prefix a b : take 8 a = take 8 b -> is_valid_nonce a = is_valid_nonce b.
Proof.
  intros Heq. unfold is_valid_nonce, sub.
  assert (take 1 a = take 1 b /\ take 4 (drop 0 a) = take 4 (drop 0 b) /\ take 4 (drop 4 a) = take 4 (drop 4 b)) as (-> & -> & ->); [|done].
  rewrite !drop_0. split_and!.
  - pose proof (f_equal (take 1) Heq) as Ht. by rewrite !take_take in Ht.
  - pose proof (f_equal (take 4) Heq) as Ht. by rewrite !take_take in Ht.
  - rewrite !take_drop_commute. change (4 + 4) with 8. by rewrite Heq.
Qed.

End search.

(** ** The older routine *)

(** [from_handshake] finds the first secret [validate_mtproto] accepts with
    every mode on, and its ciphers are those of the validation at their start. *)
Lemma from_handshake_first `{StreamKey} `{Sha256} h secrets :
  from_handshake h secrets =
  head (omap (fun x : list Z * list Z =>
    match validate_mtproto h (mkModes true true true) false x.2 with
    | Some v => Some (mkParams (mv_dec_key v) (mv_dec_iv v) (mv_enc_key v) (mv_enc_iv v) (mv_proto_tag v) (mv_dc_idx v), x.1)
    | None => None
    end) secrets).
Proof.
  induction secrets as [|[user secret] secrets IH]; [done|]. cbn [from_handshake].
  unfold validate_mtproto, validate_mtproto_secret_candidate, ctr_decrypt, ctr_encrypt in *. cbn [omap list_omap snd fst].
  destruct (ctr_apply h _) as [plain dec]. destruct (tag_from_bytes _) as [[]|]; cbn; try done; apply IH.
Qed.
