(* ===== verification/MtprotoAuth.v ===== *)
(** Authentication of a client's MTProto handshake ([proxy/handshake/mtproto.rs],
    the rest of [proxy/handshake/auth_candidates.rs]): throttle, search for the
    user, source deny list, replay check, and what is remembered of the outcome.

    A handler returns its result, whether it called
    [maybe_apply_server_hello_delay] on the way, and the state of the shared
    tables and of the replay checker; [None] is the panic of a shard index out
    of range.  The instants it reads are arguments. *)

From stdpp Require Import base list gmap numbers.
From S2P Require Import Net TrafficLimiter Limiter Prelude Aes RpcWire Replay ReplayRun AuthProbe Stream CryptoStream AuthScan Obfuscation.
Local Open Scope Z_scope.

Inductive UnknownSniAction := SniDrop | SniMask | SniAccept | SniRejectHandshake.
Inductive TlsFingerprintProfile := FpChrome | FpFirefox | FpCompat | FpLegacy.

(** The fields of [ProxyConfig] the handshakes read.  [users] is in the order
    the map is iterated. *)
Record HsConfig (N : Type) := mkHsConfig {
  cfg_users : list (list Z * list Z);
  cfg_runtime_user_auth : option UserAuthSnapshot;
  cfg_user_source_deny : gmap (list Z) (list N);
  cfg_ignore_time_skew : bool;
  cfg_replay_window_secs : Z;
  cfg_modes : ProxyModes;
  cfg_crypto_pending_buffer : nat;
  cfg_tls_domain : list Z;
  cfg_tls_domains : list (list Z);
  cfg_alpn_enforce : bool;
  cfg_unknown_sni_action : UnknownSniAction;
  cfg_fake_cert_len : nat;
  cfg_tls_new_session_tickets : nat;
  cfg_tls_fingerprints : gmap (list Z) TlsFingerprintProfile;
  cfg_tls_emulation : bool;
  cfg_serverhello_compact : bool;
  cfg_tls_full_cert_ttl_secs : Z;
}.
Arguments cfg_users {N}.
Arguments cfg_runtime_user_auth {N}.
Arguments cfg_user_source_deny {N}.
Arguments cfg_ignore_time_skew {N}.
Arguments cfg_replay_window_secs {N}.
Arguments cfg_modes {N}.
Arguments cfg_crypto_pending_buffer {N}.
Arguments cfg_tls_domain {N}.
Arguments cfg_tls_domains {N}.
Arguments cfg_alpn_enforce {N}.
Arguments cfg_unknown_sni_action {N}.
Arguments cfg_fake_cert_len {N}.
Arguments cfg_tls_new_session_tickets {N}.
Arguments cfg_tls_fingerprints {N}.
Arguments cfg_tls_emulation {N}.
Arguments cfg_serverhello_compact {N}.
Arguments cfg_tls_full_cert_ttl_secs {N}.

Inductive HsError := UnknownTlsSni | HsIo (e : ErrorKind).

Inductive HandshakeResult (A : Type) :=
  | Success (a : A)
  | BadClient
  | HsErr (e : HsError).
Arguments Success {A}.
Arguments BadClient {A}.
Arguments HsErr {A}.

(** The instants read: before the throttle, before the search, at a failure,
    and inside the replay checker. *)
Record Instants := mkInstants { at_throttle : Z; at_scan : Z; at_failure : Z; at_replay : Z }.

Record HandshakeSuccess := mkSuccess {
  hs_user : list Z;
  hs_dc_idx : Z;
  hs_proto_tag : ProtoTag;
  hs_dec_key : list Z;
  hs_dec_iv : Z;
  hs_enc_key : list Z;
  hs_enc_iv : Z;
  hs_peer : SocketAddr;
  hs_is_tls : bool;
}.

Definition is_user_source_ip_denied {N} `{IpNetwork N} (cfg : HsConfig N) (username : list Z) (ip : IpAddr) : bool :=
  match cfg_user_source_deny cfg !! username with
  | Some nets => existsb (net_contains ip) nets
  | None => false
  end.

(** * Secrets decoded on the fly *)

Section decode.
Context `{HexDecode}.

Definition warn_invalid_secret_once_in (name : list Z) (reason : SecretDefect) (s : AuthState) : AuthState :=
  let key := (name, reason) in
  let warned := invalid_secret_warned s in
  if negb (bool_decide (key ∈ warned)) && (WARNED_SECRET_MAX_ENTRIES <=? size warned)%nat then s
  else mkAuth (probe s) ({[key]} ∪ warned) (sticky_user_by_ip s) (sticky_user_by_ip_prefix s)
         (sticky_user_by_sni_hash s) (recent_user_ring s) (recent_user_ring_seq s)
         (auth_expensive_checks_total s) (auth_budget_exhausted_total s).

Definition decode_user_secret (name secret_hex : list Z) (s : AuthState) : option (list Z) * AuthState :=
  match hex_decode secret_hex with
  | Some bytes =>
      if (length bytes =? ACCESS_SECRET_BYTES)%nat then (Some bytes, s)
      else (None, warn_invalid_secret_once_in name InvalidLength s)
  | None => (None, warn_invalid_secret_once_in name InvalidHex s)
  end.

Fixpoint decode_loop (preferred_user : option (list Z)) (users : list (list Z * list Z)) (s : AuthState)
    : list (list Z * list Z) * AuthState :=
  match users with
  | [] => ([], s)
  | (name, secret_hex) :: users =>
      if bool_decide (preferred_user = Some name) then decode_loop preferred_user users s
      else
        let '(bytes, s) := decode_user_secret name secret_hex s in
        let '(secrets, s) := decode_loop preferred_user users s in
        (match bytes with Some bytes => (name, bytes) :: secrets | None => secrets end, s)
  end.

Definition user_secret_hex (users : list (list Z * list Z)) (name : list Z) : option (list Z) :=
  snd <$> head (filter (fun x => x.1 = name) users).

Definition decode_user_secrets_in (users : list (list Z * list Z)) (preferred_user : option (list Z)) (s : AuthState)
    : list (list Z * list Z) * AuthState :=
  let '(first, s) :=
    match preferred_user with
    | Some preferred =>
        match user_secret_hex users preferred with
        | Some secret_hex =>
            let '(bytes, s) := decode_user_secret preferred secret_hex s in
            (match bytes with Some bytes => [(preferred, bytes)] | None => [] end, s)
        | None => ([], s)
        end
    | None => ([], s)
    end in
  let '(rest, s) := decode_loop preferred_user users s in
  (first ++ rest, s).

End decode.

(** * The handler *)

Section mtproto.
Context {L : Type} `{LruCache L} (instant_min : Z) (hash : list Z -> Z).
Context {N : Type} `{IpNetwork N}.
Context `{StreamKey} `{Sha256} `{Hashing} `{HexDecode}.
Context (iter : gmap IpAddr AuthProbeState -> list (IpAddr * AuthProbeState)) (eviction_hash : IpAddr -> Z -> Z).
Context {R W : Type}.

Definition Outcome (A : Type) : Type := option (HandshakeResult A * bool * AuthState * ReplayChecker L).

Definition record_failure (peer_ip : IpAddr) (now : Z) (s : AuthState) : AuthState :=
  with_probe (auth_probe_record_failure_in iter eviction_hash peer_ip now) s.

Definition check_and_add_handshake (data : list Z) (now : Z) (c : ReplayChecker L) : option (bool * ReplayChecker L) :=
  check_and_add_internal instant_min hash Handshake data now c.

(** What follows a match: in both branches of the handler. *)
Definition mtproto_admit (handshake : list Z) (reader : R) (writer : W) (peer : SocketAddr) (cfg : HsConfig N)
    (is_tls : bool) (t : Instants) (user : list Z) (user_id : option Z) (validation : MtprotoCandidateValidation)
    (s : AuthState) (rc : ReplayChecker L) : Outcome (CryptoReader R * CryptoWriter W * HandshakeSuccess) :=
  if is_user_source_ip_denied cfg user (sa_ip peer) then
    Some (BadClient, true, record_failure (sa_ip peer) (at_failure t) s, rc)
  else
    match check_and_add_handshake (prekey_iv handshake) (at_replay t) rc with
    | None => None
    | Some (true, rc) => Some (BadClient, true, record_failure (sa_ip peer) (at_failure t) s, rc)
    | Some (false, rc) =>
        let success := mkSuccess user (mv_dc_idx validation) (mv_proto_tag validation) (mv_dec_key validation)
          (mv_dec_iv validation) (mv_enc_key validation) (mv_enc_iv validation) peer is_tls in
        let s := with_probe (auth_probe_record_success_in (sa_ip peer)) s in
        let s :=
          match user_id with
          | Some user_id =>
              record_recent_user_success_in user_id (sticky_hint_record_success_in (sa_ip peer) user_id None s)
          | None => s
          end in
        Some (Success (crypto_reader_new reader (mv_decryptor validation),
                       crypto_writer_new writer (mv_encryptor validation) (cfg_crypto_pending_buffer cfg), success),
              false, s, rc)
    end.

(** The loop over the decoded secrets: the checks made and the first match. *)
Fixpoint legacy_scan (validate : list Z -> option MtprotoCandidateValidation) (secrets : list (list Z * list Z))
    (validation_checks : nat) : nat * option (list Z * MtprotoCandidateValidation) :=
  match secrets with
  | [] => (validation_checks, None)
  | (user, secret) :: secrets =>
      if negb (length secret =? ACCESS_SECRET_BYTES)%nat then legacy_scan validate secrets validation_checks
      else
        let validation_checks := (validation_checks + 1)%nat in
        match validate secret with
        | Some validation => (validation_checks, Some (user, validation))
        | None => legacy_scan validate secrets validation_checks
        end
  end.

Definition handle_mtproto_handshake (handshake : list Z) (reader : R) (writer : W) (peer : SocketAddr)
    (cfg : HsConfig N) (is_tls : bool) (preferred_user : option (list Z)) (t : Instants) (s : AuthState)
    (rc : ReplayChecker L) : Outcome (CryptoReader R * CryptoWriter W * HandshakeSuccess) :=
  let ip := sa_ip peer in
  let '(throttled, p) := auth_probe_should_apply_preauth_throttle_in ip (at_throttle t) (probe s) in
  let s := with_probe (fun _ => p) s in
  if (throttled : bool) then Some (BadClient, true, s, rc)
  else
    let validate := validate_mtproto handshake (cfg_modes cfg) is_tls in
    match cfg_runtime_user_auth cfg with
    | Some snapshot =>
        let sticky_ip_hint := sticky_hint_get_by_ip ip s in
        let sticky_prefix_hint := sticky_hint_get_by_ip_prefix ip s in
        let preferred_user_id := preferred_user ≫= (fun user => user_id_by_name user snapshot) in
        let has_hint := bool_decide (is_Some sticky_ip_hint) || bool_decide (is_Some sticky_prefix_hint)
          || bool_decide (is_Some preferred_user_id) in
        let '(overload, p) := auth_probe_saturation_is_throttled_in (at_scan t) (probe s) in
        let s := with_probe (fun _ => p) s in
        let candidate_budget := budget_for_validation (length (entries snapshot)) overload has_hint in
        let '(_, scan) := mtproto_scan validate snapshot candidate_budget sticky_ip_hint preferred_user_id
          sticky_prefix_hint (recent_users s) in
        let s := count_checks (validation_checks scan) (budget_exhausted scan) s in
        match matched scan with
        | None =>
            let s := with_probe (auth_probe_note_expensive_invalid_scan_in (at_failure t)
              (Z.of_nat (validation_checks scan)) overload) s in
            Some (BadClient, true, record_failure ip (at_failure t) s, rc)
        | Some (user_id, entry, validation) =>
            mtproto_admit handshake reader writer peer cfg is_tls t (ue_user entry) (Some user_id) validation s rc
        end
    | None =>
        let '(decoded_users, s) := decode_user_secrets_in (cfg_users cfg) preferred_user s in
        let '(validation_checks, found) := legacy_scan validate decoded_users 0 in
        let s := count_checks validation_checks false s in
        match found with
        | Some (user, validation) =>
            mtproto_admit handshake reader writer peer cfg is_tls t user None validation s rc
        | None => Some (BadClient, true, record_failure ip (at_failure t) s, rc)
        end
    end.

End mtproto.

(** * Lemmas *)

(** The failures of a peer that still count at [now]. *)
Definition live_streak (ip : IpAddr) (now : Z) (s : AuthState) : Z :=
  match auth_probe (probe s) !! normalize_auth_probe_ip ip with
  | Some e => if auth_probe_state_expired e now then 0 else fail_streak e
  | None => 0
  end.

(** The failure at [now] is one more of the peer's. *)
Definition failure_counted (ip : IpAddr) (now : Z) (s s' : AuthState) : Prop :=
  exists e, auth_probe (probe s') !! normalize_auth_probe_ip ip = Some e /\ last_seen e = now /\
    fail_streak e = u32_saturating_add (live_streak ip now s) 1.

(** The two kinds of changes a handshake makes before its verdict leave the
    counting alone. *)
Definition same_streaks (ip : IpAddr) (now : Z) (s s' : AuthState) : Prop :=
  auth_probe (probe s') ⊆ auth_probe (probe s) /\ live_streak ip now s' = live_streak ip now s.

Lemma same_streaks_refl ip now s : same_streaks ip now s s.
Proof. done. Qed.

Lemma same_streaks_trans ip now s1 s2 s3 :
  same_streaks ip now s1 s2 -> same_streaks ip now s2 s3 -> same_streaks ip now s1 s3.
Proof. intros [? ?] [? ?]. split; [by etrans|congruence]. Qed.

Lemma same_streaks_table ip now s s' : auth_probe (probe s') = auth_probe (probe s) -> same_streaks ip now s s'.
Proof. intros Heq. unfold same_streaks, live_streak. by rewrite Heq. Qed.

Lemma query_streaks answer ip t now s :
  t <= now -> same_streaks ip now s (with_probe (fun _ => (auth_probe_query answer ip t (probe s)).2) s).
Proof.
  intros Ht. split; [apply query_shrinks|]. unfold live_streak, auth_probe_query. cbn [with_probe probe].
  destruct (auth_probe (probe s) !! normalize_auth_probe_ip ip) as [e|] eqn:He; [|cbn [snd]; by rewrite He].
  destruct (auth_probe_state_expired e t) eqn:Hx; cbn [snd set_probe auth_probe]; [|by rewrite He].
  rewrite lookup_delete_eq. replace (auth_probe_state_expired e now) with true; [done|]. symmetry.
  unfold auth_probe_state_expired, duration_since in *. apply Z.ltb_lt. apply Z.ltb_lt in Hx. lia.
Qed.

Lemma preauth_streaks ip t now s :
  t <= now ->
  same_streaks ip now s (with_probe (fun _ => (auth_probe_should_apply_preauth_throttle_in ip t (probe s)).2) s).
Proof.
  intros Ht. unfold auth_probe_should_apply_preauth_throttle_in.
  pose proof (query_streaks (fun entry => t <? blocked_until entry) ip t now s Ht) as H1.
  fold (auth_probe_is_throttled_in ip t (probe s)) in H1.
  destruct (auth_probe_is_throttled_in ip t (probe s)) as [thr p1]. cbn [snd] in H1. destruct thr; cbn [negb snd]; [|done].
  pose proof (saturation_query_table t p1) as H2.
  destruct (auth_probe_saturation_is_throttled_in t p1) as [sat p2]. cbn [snd] in H2.
  assert (same_streaks ip now s (with_probe (fun _ => p2) s)) as H3.
  { eapply same_streaks_trans; [exact H1|]. by apply same_streaks_table. }
  destruct sat; cbn [negb snd]; [|done]. eapply same_streaks_trans; [exact H3|].
  apply (query_streaks (fun entry => AUTH_PROBE_BACKOFF_START_FAILS + AUTH_PROBE_SATURATION_GRACE_FAILS <=? fail_streak entry)
    ip t now (with_probe (fun _ => p2) s) Ht).
Qed.

Lemma same_streaks_ok ip now s s' : same_streaks ip now s s' -> table_ok (probe s) -> table_ok (probe s').
Proof. intros [Hsub _]. by apply table_ok_shrink. Qed.

Section counting.
Context (iter : gmap IpAddr AuthProbeState -> list (IpAddr * AuthProbeState)) (eviction_hash : IpAddr -> Z -> Z).
Context (iter_ok : forall m, iter m ≡ₚ map_to_list m).

Lemma record_failure_counted ip now s0 s :
  same_streaks ip now s0 s -> table_ok (probe s0) ->
  failure_counted ip now s0 (record_failure iter eviction_hash ip now s).
Proof.
  intros Hs Hok. destruct (record_failure_spec iter eviction_hash iter_ok ip now (probe s)) as (_ & He & _).
  { by eapply same_streaks_ok. }
  eexists. split; [exact He|]. destruct Hs as [_ Hs]. rewrite <- Hs. unfold live_streak.
  destruct (auth_probe (probe s) !! normalize_auth_probe_ip ip) as [e|]; [|done].
  unfold update_existing. by destruct (auth_probe_state_expired e now).
Qed.

End counting.

Lemma length_omap_le {A B} (f : A -> option B) (l : list A) : (length (omap f l) <= length l)%nat.
Proof. induction l as [|x l IH]; cbn; [lia|]. destruct (f x); cbn; lia. Qed.

(** Fewer ids than the array holds come before the full list. *)
Lemma recent_users_length s : (length (recent_users s) <= RECENT_USER_RING_SCAN_LIMIT)%nat.
Proof.
  unfold recent_users. destruct (bool_decide _); cbn [length]; [unfold RECENT_USER_RING_SCAN_LIMIT; lia|].
  etrans; [apply length_omap_le|]. rewrite length_seq. lia.
Qed.

(** ** The verdict *)

Section verdict.
Context {L : Type} `{LruCache L} (instant_min : Z) (hash : list Z -> Z).
Context {N : Type} `{IpNetwork N}.
Context `{StreamKey} `{Sha256} `{Hashing} `{HexDecode}.
Context (iter : gmap IpAddr AuthProbeState -> list (IpAddr * AuthProbeState)) (eviction_hash : IpAddr -> Z -> Z).
Context (iter_ok : forall m, iter m ≡ₚ map_to_list m).
Context {R W : Type} (reader : R) (writer : W) (peer : SocketAddr) (cfg : HsConfig N) (is_tls : bool) (t : Instants).

Notation handle h preferred s rc :=
  (handle_mtproto_handshake instant_min hash iter eviction_hash h reader writer peer cfg is_tls preferred t s rc).

(** A refusal: the answer is delayed and the failure counted. *)
Definition refused {A} (res : HandshakeResult A) (delayed : bool) (s s' : AuthState) : Prop :=
  res = BadClient /\ delayed = true /\ failure_counted (sa_ip peer) (at_failure t) s s'.

(** The session of a user whose secret gave [v]: both directions with their
    ciphers, and the peer's record cleared. *)
Definition session_of (user : list Z) (v : MtprotoCandidateValidation)
    (res : HandshakeResult (CryptoReader R * CryptoWriter W * HandshakeSuccess)) (delayed : bool) (s' : AuthState) : Prop :=
  res = Success (crypto_reader_new reader (mv_decryptor v),
                 crypto_writer_new writer (mv_encryptor v) (cfg_crypto_pending_buffer cfg),
                 mkSuccess user (mv_dc_idx v) (mv_proto_tag v) (mv_dec_key v) (mv_dec_iv v) (mv_enc_key v)
                   (mv_enc_iv v) peer is_tls) /\
  delayed = false /\ forall now, live_streak (sa_ip peer) now s' = 0.

(** What the deny list and the replay checker make of a match. *)
Definition verdict_on (h user : list Z) (v : MtprotoCandidateValidation)
    (res : HandshakeResult (CryptoReader R * CryptoWriter W * HandshakeSuccess)) (delayed : bool)
    (s s' : AuthState) (rc rc' : ReplayChecker L) : Prop :=
  if is_user_source_ip_denied cfg user (sa_ip peer) then refused res delayed s s' /\ rc' = rc
  else exists replayed,
    check_and_add_internal instant_min hash Handshake (prekey_iv h) (at_replay t) rc = Some (replayed, rc') /\
    if (replayed : bool) then refused res delayed s s' else session_of user v res delayed s'.

Lemma mtproto_admit_verdict h user user_id v s0 s rc res delayed s' rc' :
  same_streaks (sa_ip peer) (at_failure t) s0 s -> table_ok (probe s0) ->
  mtproto_admit instant_min hash iter eviction_hash h reader writer peer cfg is_tls t user user_id v s rc
    = Some (res, delayed, s', rc') ->
  verdict_on h user v res delayed s0 s' rc rc' /\
  (forall a id, res = Success a -> user_id = Some id ->
    sticky_hint_get_by_ip (sa_ip peer) s' = Some id /\ sticky_hint_get_by_ip_prefix (sa_ip peer) s' = Some id).
Proof.
  intros Hs Hok. unfold mtproto_admit, verdict_on, refused.
  pose proof (record_failure_counted iter eviction_hash iter_ok _ _ s0 s Hs Hok) as Hcount.
  destruct (is_user_source_ip_denied cfg user (sa_ip peer)); [by intros [= <- <- <- <-]|].
  unfold check_and_add_handshake. destruct (check_and_add_internal _ _ _ _ _ _) as [[[] rc1]|]; [| |done].
  - intros [= <- <- <- <-]. split; [by exists true|done].
  - intros [= <- <- <- <-]. split.
    + exists false. split; [done|]. split; [done|]. split; [done|]. intros now. unfold live_streak.
      destruct user_id as [id|]; [unfold record_recent_user_success_in; destruct (bool_decide _)|]; cbn;
        by rewrite lookup_delete_eq.
    + intros a id _ ->. unfold record_recent_user_success_in, sticky_hint_get_by_ip, sticky_hint_get_by_ip_prefix.
      destruct (bool_decide _); cbn; unfold hint_insert; by rewrite !lookup_insert_eq.
Qed.

(** The state in which the search starts. *)
Definition not_throttled (s : AuthState) : Prop :=
  (auth_probe_should_apply_preauth_throttle_in (sa_ip peer) (at_throttle t) (probe s)).1 = false.

Definition searching (s : AuthState) : HandshakeShared :=
  (auth_probe_should_apply_preauth_throttle_in (sa_ip peer) (at_throttle t) (probe s)).2.

Definition overloaded (s : AuthState) : bool := (auth_probe_saturation_is_throttled_in (at_scan t) (searching s)).1.

Lemma searching_streaks s (f : AuthState -> AuthState) :
  at_throttle t <= at_failure t -> (forall s, probe (f s) = probe s) ->
  same_streaks (sa_ip peer) (at_failure t) s
    (f (with_probe (fun _ => (auth_probe_saturation_is_throttled_in (at_scan t) (searching s)).2)
         (with_probe (fun _ => searching s) s))).
Proof.
  intros Ht Hf. eapply same_streaks_trans; [exact (preauth_streaks (sa_ip peer) (at_throttle t) (at_failure t) s Ht)|].
  fold (searching s). apply same_streaks_table. rewrite Hf. cbn. apply saturation_query_table.
Qed.

Lemma count_checks_probe n b s : probe (count_checks n b s) = probe s.
Proof. done. Qed.

Lemma note_expensive_streaks ip now s0 s t0 n b :
  same_streaks ip now s0 s -> same_streaks ip now s0 (with_probe (auth_probe_note_expensive_invalid_scan_in t0 n b) s).
Proof.
  intros Hs. eapply same_streaks_trans; [exact Hs|]. apply same_streaks_table. cbn.
  unfold auth_probe_note_expensive_invalid_scan_in. destruct (_ || _); [done|]. apply note_saturation_table.
Qed.

(** The search of a run: its state and its result. *)
Definition scanning (s : AuthState) : AuthState :=
  with_probe (fun _ => (auth_probe_saturation_is_throttled_in (at_scan t) (searching s)).2)
    (with_probe (fun _ => searching s) s).

Definition hints (preferred : option (list Z)) (snapshot : UserAuthSnapshot) (s : AuthState) : list (option Z) :=
  [sticky_hint_get_by_ip (sa_ip peer) s; preferred ≫= (fun user => user_id_by_name user snapshot);
   sticky_hint_get_by_ip_prefix (sa_ip peer) s].

Definition budget (preferred : option (list Z)) (snapshot : UserAuthSnapshot) (s : AuthState) : nat :=
  budget_for_validation (length (entries snapshot)) (overloaded s) (existsb (fun h => bool_decide (is_Some h)) (hints preferred snapshot s)).

Definition search (h : list Z) (preferred : option (list Z)) (snapshot : UserAuthSnapshot) (s : AuthState)
    : bool * Scan MtprotoCandidateValidation :=
  try_loop (validate_mtproto h (cfg_modes cfg) is_tls) snapshot (budget preferred snapshot s)
    (order snapshot (hints preferred snapshot s) [recent_users s]) scan_start.

Lemma handle_mtproto_eq h preferred snapshot s rc :
  cfg_runtime_user_auth cfg = Some snapshot -> not_throttled s ->
  let scan := (search h preferred snapshot s).2 in
  let s3 := count_checks (validation_checks scan) (budget_exhausted scan) (scanning s) in
  handle h preferred s rc =
  match matched scan with
  | None =>
      Some (BadClient, true, record_failure iter eviction_hash (sa_ip peer) (at_failure t)
        (with_probe (auth_probe_note_expensive_invalid_scan_in (at_failure t) (Z.of_nat (validation_checks scan)) (overloaded s)) s3), rc)
  | Some (user_id, entry, v) =>
      mtproto_admit instant_min hash iter eviction_hash h reader writer peer cfg is_tls t (ue_user entry) (Some user_id) v s3 rc
  end.
Proof.
  intros Hcfg Hthr. unfold handle_mtproto_handshake, not_throttled, search, scanning, budget, overloaded, searching in *.
  destruct (auth_probe_should_apply_preauth_throttle_in (sa_ip peer) (at_throttle t) (probe s)) as [thr p1].
  cbn [fst snd] in *. subst thr. rewrite Hcfg. cbn [with_probe probe].
  destruct (auth_probe_saturation_is_throttled_in (at_scan t) p1) as [ov p2]. cbn [fst snd].
  set (validate := validate_mtproto h (cfg_modes cfg) is_tls). unfold hints. cbn [existsb].
  set (h1 := sticky_hint_get_by_ip _ _). set (h2 := preferred ≫= _). set (h3 := sticky_hint_get_by_ip_prefix _ _).
  replace (bool_decide (is_Some h1) || (bool_decide (is_Some h2) || (bool_decide (is_Some h3) || false)))
    with (bool_decide (is_Some h1) || bool_decide (is_Some h3) || bool_decide (is_Some h2))
    by (by destruct (bool_decide (is_Some h1)), (bool_decide (is_Some h2)), (bool_decide (is_Some h3))).
  rewrite mtproto_scan_order. change (recent_users (with_probe _ _)) with (recent_users s).
  by destruct (try_loop _ _ _ _ _) as [hit scan].
Qed.

(** Without overload the search is exact. *)
Lemma search_exact h preferred snapshot s :
  overloaded s = false ->
  matched (search h preferred snapshot s).2 =
  first_match (validate_mtproto h (cfg_modes cfg) is_tls) snapshot (order snapshot (hints preferred snapshot s) [recent_users s]).
Proof.
  intros Hcalm. unfold search, order. rewrite (assoc_L (++)). set (pre := omap id _ ++ concat _).
  pose proof (try_loop_exact (validate_mtproto h (cfg_modes cfg) is_tls) snapshot (budget preferred snapshot s) pre) as H'.
  destruct (try_loop _ _ _ _ _) as [hit scan]. apply H'.
  - unfold budget, budget_for_validation. rewrite Hcalm. destruct (Nat.eqb_spec (length (entries snapshot)) 0); [lia|done].
  - unfold pre, hints. cbn [concat]. rewrite app_nil_r, length_app. pose proof (recent_users_length s).
    pose proof (length_omap_le id (hints preferred snapshot s)) as Hh. unfold hints in Hh. cbn [length] in Hh.
    unfold RECENT_USER_RING_SCAN_LIMIT, CANDIDATE_HINT_TRACK_CAP in *. lia.
Qed.

Lemma scanning_streaks s n b :
  at_throttle t <= at_failure t -> same_streaks (sa_ip peer) (at_failure t) s (count_checks n b (scanning s)).
Proof. intros Ht. by apply (searching_streaks s (count_checks n b)). Qed.

(** With the snapshot: some user whose secret the handshake proves is found
    unless there is none, or the proxy is overloaded and gives up. *)
Lemma handle_mtproto_verdict h preferred snapshot s rc res delayed s' rc' :
  cfg_runtime_user_auth cfg = Some snapshot -> Z.of_nat (length (entries snapshot)) <= 2 ^ 32 ->
  at_throttle t <= at_failure t -> table_ok (probe s) -> not_throttled s ->
  handle h preferred s rc = Some (res, delayed, s', rc') ->
  let validate := validate_mtproto h (cfg_modes cfg) is_tls in
  (refused res delayed s s' /\ rc' = rc /\
   (overloaded s = false -> Forall (fun e => validate (ue_secret e) = None) (entries snapshot))) \/
  exists entry v, entry ∈ entries snapshot /\ validate (ue_secret entry) = Some v /\
    verdict_on h (ue_user entry) v res delayed s s' rc rc'.
Proof.
  intros Hcfg Hlen Ht Hok Hthr. rewrite (handle_mtproto_eq h preferred snapshot s rc Hcfg Hthr).
  pose proof (try_loop_sound (validate_mtproto h (cfg_modes cfg) is_tls) snapshot (budget preferred snapshot s)
    (order snapshot (hints preferred snapshot s) [recent_users s]) scan_start (failed_start _ _ _)) as Hsound.
  pose proof (search_exact h preferred snapshot s) as Hexact. unfold search in *.
  destruct (try_loop _ _ _ _ _) as [hit scan]. cbn [snd] in *. destruct Hsound as [_ Hsound].
  pose proof (scanning_streaks s (validation_checks scan) (budget_exhausted scan) Ht) as Hst.
  destruct (matched scan) as [[[id entry] v]|] eqn:Hm.
  - intros Hadmit. right. destruct hit; [|by destruct Hsound].
    destruct Hsound as [Hfm _]. symmetry in Hfm. apply first_match_member in Hfm as (_ & He & Hv).
    exists entry, v. split; [|split; [done|]].
    + unfold entry_by_id in He. destruct (id <? 0); [done|]. by eapply list_elem_of_lookup_2.
    + by eapply mtproto_admit_verdict in Hadmit as [? _].
  - intros [= <- <- <- <-]. left. split.
    { split; [done|]. split; [done|]. apply record_failure_counted; [done| |done]. by apply note_expensive_streaks. }
    split; [done|]. intros Hcalm. specialize (Hexact Hcalm).
    unfold order in Hexact. rewrite (assoc_L (++)) in Hexact. symmetry in Hexact. by eapply first_match_none.
Qed.

(** Nobody is admitted past the replay checker. *)
Lemma mtproto_admit_checks h user user_id v s rc a delayed s' rc' :
  mtproto_admit instant_min hash iter eviction_hash h reader writer peer cfg is_tls t user user_id v s rc
    = Some (Success a, delayed, s', rc') ->
  check_and_add_internal instant_min hash Handshake (prekey_iv h) (at_replay t) rc = Some (false, rc').
Proof.
  unfold mtproto_admit, check_and_add_handshake. destruct (is_user_source_ip_denied _ _ _); [done|].
  destruct (check_and_add_internal _ _ _ _ _ _) as [[[] rc1]|]; [done| |done]. by intros [= _ _ _ <-].
Qed.

Lemma handle_success_checks h preferred s rc a delayed s' rc' :
  handle h preferred s rc = Some (Success a, delayed, s', rc') ->
  check_and_add_internal instant_min hash Handshake (prekey_iv h) (at_replay t) rc = Some (false, rc').
Proof.
  unfold handle_mtproto_handshake.
  destruct (auth_probe_should_apply_preauth_throttle_in _ _ _) as [[] p]; [done|].
  destruct (cfg_runtime_user_auth cfg) as [snapshot|].
  - destruct (auth_probe_saturation_is_throttled_in _ _) as [ov p2].
    destruct (mtproto_scan _ _ _ _ _ _ _) as [hit scan]. destruct (matched scan) as [[[id e] v]|]; [|done].
    apply mtproto_admit_checks.
  - destruct (decode_user_secrets_in _ _ _) as [secrets s1]. destruct (legacy_scan _ _ _) as [n [[user v]|]]; [|done].
    apply mtproto_admit_checks.
Qed.

(** A user remembered for the address is tried first, overload or not. *)
Lemma search_sticky h preferred snapshot s user_id entry v :
  sticky_hint_get_by_ip (sa_ip peer) s = Some user_id -> entry_by_id user_id snapshot = Some entry ->
  validate_mtproto h (cfg_modes cfg) is_tls (ue_secret entry) = Some v ->
  (search h preferred snapshot s).2 = mkScan [user_id] 1 false (Some (user_id, entry, v)).
Proof.
  intros Hid He Hv. unfold search.
  assert (exists l, order snapshot (hints preferred snapshot s) [recent_users s] = user_id :: l) as [l ->].
  { unfold order, hints. rewrite Hid. by eexists. }
  assert (0 < budget preferred snapshot s)%nat as Hb.
  { apply entry_range in He. unfold budget, budget_for_validation.
    destruct (Nat.eqb_spec (length (entries snapshot)) 0); [lia|].
    destruct (negb _); [lia|]. destruct (existsb _ _); lia. }
  cbn [try_loop]. rewrite try_user_id_eq by done. rewrite bool_decide_eq_false_2 by apply not_elem_of_nil.
  unfold proves. by rewrite He, Hv.
Qed.

End verdict.

(** ** Totality *)

Section total.
Context {L : Type} `{LruCacheLaws L} (instant_min : Z) (hash : list Z -> Z).
Context {N : Type} `{IpNetwork N}.
Context `{StreamKey} `{Sha256} `{Hashing} `{HexDecode}.
Context (iter : gmap IpAddr AuthProbeState -> list (IpAddr * AuthProbeState)) (eviction_hash : IpAddr -> Z -> Z).
Context {R W : Type} (reader : R) (writer : W) (peer : SocketAddr) (cfg : HsConfig N) (is_tls : bool) (t : Instants).

Lemma mtproto_admit_total cap h user user_id v s (rc : ReplayChecker L) :
  checker_inv cap rc ->
  exists res delayed s' rc',
    mtproto_admit instant_min hash iter eviction_hash h reader writer peer cfg is_tls t user user_id v s rc
      = Some (res, delayed, s', rc').
Proof.
  intros Hrc. unfold mtproto_admit, check_and_add_handshake.
  destruct (is_user_source_ip_denied _ _ _); [by do 4 eexists|].
  destruct (exec_op_steps instant_min hash cap (OpCheckAdd Handshake (prekey_iv h) (at_replay t)) rc Hrc) as (rc1 & Hop & _).
  cbn [exec_op] in Hop. apply fmap_Some in Hop as ([[] rc2] & -> & _); by do 4 eexists.
Qed.

(** No shard index is out of range: the handler returns. *)
Lemma handle_mtproto_total cap h preferred s (rc : ReplayChecker L) :
  checker_inv cap rc ->
  exists res delayed s' rc',
    handle_mtproto_handshake instant_min hash iter eviction_hash h reader writer peer cfg is_tls preferred t s rc
      = Some (res, delayed, s', rc').
Proof.
  intros Hrc. unfold handle_mtproto_handshake.
  destruct (auth_probe_should_apply_preauth_throttle_in _ _ _) as [[] p]; [by do 4 eexists|].
  destruct (cfg_runtime_user_auth cfg) as [snapshot|].
  - destruct (auth_probe_saturation_is_throttled_in _ _) as [ov p2].
    destruct (mtproto_scan _ _ _ _ _ _ _) as [hit scan].
    destruct (matched scan) as [[[id e] v]|]; [by eapply mtproto_admit_total|by do 4 eexists].
  - destruct (decode_user_secrets_in _ _ _) as [secrets s1].
    destruct (legacy_scan _ _ _) as [n [[user v]|]]; [by eapply mtproto_admit_total|by do 4 eexists].
Qed.

End total.
