(* ===== verification/ProxyProtocol.v ===== *)
(** The PROXY protocol header in front of a connection:
    transport/proxy_protocol.rs, with what it uses of the standard library to
    read and print text: [str::from_utf8], [split_whitespace], the parser of
    [IpAddr], that of [u16], and the [Display] of addresses and ports.

    A reader is the bytes it delivers before its end.  Text is a list of code
    points. *)

From stdpp Require Import base list numbers.
From S2P Require Import Net Prelude.
Local Open Scope Z_scope.

Definition PROXY_V1_SIGNATURE : list Z := [0x50; 0x52; 0x4f; 0x58; 0x59; 0x20].
Definition PROXY_V2_SIGNATURE : list Z := [0x0d; 0x0a; 0x0d; 0x0a; 0x00; 0x0d; 0x0a; 0x51; 0x55; 0x49; 0x54; 0x0a].
Definition PROXY_V1_MIN_LEN : nat := 6.
Definition PROXY_V2_MIN_LEN : nat := 16.
Definition PROXY_V2_MAX_ADDR_LEN : nat := 216.
Definition UNSPEC : Z := 0.
Definition INET : Z := 1.
Definition INET6 : Z := 2.
Definition CRLF : list Z := [0x0d; 0x0a].

(** "TCP4", "TCP6" and "UNKNOWN". *)
Definition TCP4 : list Z := [84; 67; 80; 52].
Definition TCP6 : list Z := [84; 67; 80; 54].
Definition UNKNOWN : list Z := [85; 78; 75; 78; 79; 87; 78].

(** * Text *)

Definition between (lo hi b : Z) : bool := (lo <=? b) && (b <=? hi).
Definition is_cont (b : Z) : bool := between 0x80 0xbf b.

(** [str::from_utf8]. *)
Fixpoint utf8_decode (l : list Z) : option (list Z) :=
  match l with
  | [] => Some []
  | a :: l1 =>
      if a <? 0x80 then cons a <$> utf8_decode l1
      else
        match l1 with
        | [] => None
        | b :: l2 =>
            if between 0xc2 0xdf a then
              if is_cont b then cons ((a - 0xc0) * 64 + (b - 0x80)) <$> utf8_decode l2 else None
            else
              match l2 with
              | [] => None
              | c :: l3 =>
                  if between 0xe0 0xef a then
                    if (if a =? 0xe0 then between 0xa0 0xbf b else if a =? 0xed then between 0x80 0x9f b else is_cont b) && is_cont c
                    then cons ((a - 0xe0) * 4096 + (b - 0x80) * 64 + (c - 0x80)) <$> utf8_decode l3 else None
                  else
                    match l3 with
                    | [] => None
                    | d :: l4 =>
                        if between 0xf0 0xf4 a &&
                           (if a =? 0xf0 then between 0x90 0xbf b else if a =? 0xf4 then between 0x80 0x8f b else is_cont b)
                           && is_cont c && is_cont d
                        then cons ((a - 0xf0) * 262144 + (b - 0x80) * 4096 + (c - 0x80) * 64 + (d - 0x80)) <$> utf8_decode l4
                        else None
                    end
              end
        end
  end.

(** [char::is_whitespace]. *)
Definition is_whitespace (c : Z) : bool :=
  between 0x09 0x0d c || (c =? 0x20) || (c =? 0x85) || (c =? 0xa0) || (c =? 0x1680) || between 0x2000 0x200a c ||
  (c =? 0x2028) || (c =? 0x2029) || (c =? 0x202f) || (c =? 0x205f) || (c =? 0x3000).

Fixpoint split_words (word text : list Z) : list (list Z) :=
  match text with
  | [] => match word with [] => [] | _ => [word] end
  | c :: text =>
      if is_whitespace c then match word with [] => split_words [] text | _ => word :: split_words [] text end
      else split_words (word ++ [c]) text
  end.

Definition split_whitespace (text : list Z) : list (list Z) := split_words [] text.

(** [char::to_digit]. *)
Definition to_digit (radix c : Z) : option Z :=
  let d := if between 48 57 c then c - 48 else if between 97 122 c then c - 87 else if between 65 90 c then c - 55 else radix in
  if d <? radix then Some d else None.

(** ** The address parser of the standard library *)

Fixpoint read_digits (radix : Z) (max_digits : nat) (text : list Z) (value : Z) (count : nat) : option (Z * nat * list Z) :=
  match text with
  | c :: rest =>
      match to_digit radix c with
      | Some d =>
          if (max_digits <? count + 1)%nat then None
          else read_digits radix max_digits rest (value * radix + d) (count + 1)
      | None => Some (value, count, text)
      end
  | [] => Some (value, count, [])
  end.

Definition read_number (radix : Z) (max_digits : nat) (allow_zero_prefix : bool) (max : Z) (text : list Z) : option (Z * list Z) :=
  match read_digits radix max_digits text 0 0 with
  | None => None
  | Some (value, count, rest) =>
      if (count =? 0)%nat then None
      else if negb allow_zero_prefix && bool_decide (head text = Some 48) && (1 <? count)%nat then None
      else if value <=? max then Some (value, rest) else None
  end.

(** [read_separator]: the separator before all items but the first. *)
Definition read_separator {A} (sep : Z) (index : nat) (inner : list Z -> option (A * list Z)) (text : list Z) : option (A * list Z) :=
  match index with
  | O => inner text
  | S _ => match text with c :: text => if c =? sep then inner text else None | [] => None end
  end.

Fixpoint read_octets (k index : nat) (octets text : list Z) : option (list Z * list Z) :=
  match k with
  | O => Some (octets, text)
  | S k =>
      match read_separator 46 index (read_number 10 3 false 255) text with
      | Some (octet, text) => read_octets k (S index) (octets ++ [octet]) text
      | None => None
      end
  end.

Definition read_ipv4_addr (text : list Z) : option (list Z * list Z) := read_octets 4 0 [] text.

(** The groups read, whether an embedded IPv4 address ended them, and the rest. *)
Fixpoint read_groups (k index : nat) (groups text : list Z) : list Z * bool * list Z :=
  match k with
  | O => (groups, false, text)
  | S k =>
      match (if (1 <=? k)%nat then read_separator 58 index read_ipv4_addr text else None) with
      | Some (octets, text) => (groups ++ [of_be (take 2 octets); of_be (drop 2 octets)], true, text)
      | None =>
          match read_separator 58 index (read_number 16 4 true 65535) text with
          | Some (group, text) => read_groups k (S index) (groups ++ [group]) text
          | None => (groups, false, text)
          end
      end
  end.

Definition read_ipv6_addr (text : list Z) : option (list Z * list Z) :=
  let octets groups := concat (to_be 2 <$> groups) in
  let '(head, head_ipv4, text) := read_groups 8 0 [] text in
  if (length head =? 8)%nat then Some (octets head, text)
  else if head_ipv4 then None
  else
    match text with
    | a :: b :: text =>
        if (a =? 58) && (b =? 58) then
          let '(tail, _, text) := read_groups (7 - length head) 0 [] text in
          Some (octets (head ++ replicate (8 - length head - length tail) 0 ++ tail), text)
        else None
    | _ => None
    end.

(** [str::parse::<IpAddr>]. *)
Definition parse_ip (text : list Z) : option IpAddr :=
  match read_ipv4_addr text with
  | Some (o, rest) => match rest with [] => Some (IpV4 o) | _ => None end
  | None => match read_ipv6_addr text with Some (o, []) => Some (IpV6 o) | _ => None end
  end.

(** [str::parse::<u16>]. *)
Definition parse_u16 (text : list Z) : option Z :=
  let digits := match text with 43 :: (_ :: _) as rest => tail rest | _ => text end in
  match read_digits 10 (length digits) digits 0 0 with
  | Some (value, count, rest) =>
      if (count =? 0)%nat || negb (bool_decide (rest = [])) || (65535 <? value) then None else Some value
  | None => None
  end.

(** ** Printing *)

Fixpoint print_digits (fuel : nat) (radix n : Z) (text : list Z) : list Z :=
  match fuel with
  | O => text
  | S fuel =>
      let d := n mod radix in
      let text := (if d <? 10 then 48 + d else 87 + d) :: text in
      if n / radix =? 0 then text else print_digits fuel radix (n / radix) text
  end.

(** A number of at most 16 bits has at most five digits. *)
Definition print_dec (n : Z) : list Z := print_digits 5 10 n [].
Definition print_hex (n : Z) : list Z := print_digits 5 16 n [].

Fixpoint join (sep : Z) (words : list (list Z)) : list Z :=
  match words with
  | [] => []
  | [word] => word
  | word :: words => word ++ sep :: join sep words
  end.

Definition print_ipv4 (o : list Z) : list Z := join 46 (print_dec <$> o).

(** The first longest run of zero groups, as start and length. *)
Fixpoint longest_zeros (groups : list Z) (index : nat) (current longest : nat * nat) : nat * nat :=
  match groups with
  | [] => longest
  | g :: groups =>
      if g =? 0 then
        let current := if (current.2 =? 0)%nat then (index, 1%nat) else (current.1, S current.2) in
        longest_zeros groups (S index) current (if (longest.2 <? current.2)%nat then current else longest)
      else longest_zeros groups (S index) (0, 0)%nat longest
  end.

Fixpoint groups_of (o : list Z) : list Z :=
  match o with
  | a :: b :: o => of_be [a; b] :: groups_of o
  | _ => []
  end.

Definition print_ipv6 (o : list Z) : list Z :=
  match to_ipv4_mapped o with
  | Some v4 => [58; 58; 102; 102; 102; 102; 58] ++ print_ipv4 v4
  | None =>
      let groups := groups_of o in
      let '(start, len) := longest_zeros groups 0 (0, 0)%nat (0, 0)%nat in
      if (1 <? len)%nat then
        join 58 (print_hex <$> take start groups) ++ [58; 58] ++ join 58 (print_hex <$> drop (start + len) groups)
      else join 58 (print_hex <$> groups)
  end.

Definition print_ip (ip : IpAddr) : list Z := match ip with IpV4 o => print_ipv4 o | IpV6 o => print_ipv6 o end.

(** * Parsing *)

Record ProxyProtocolInfo := mkInfo { src_addr : SocketAddr; dst_addr : option SocketAddr; pp_version : Z }.

(** [AsyncReadExt::read_exact]; at the end of the stream nothing is left. *)
Definition read_exact (n : nat) (reader : list Z) : option (list Z) * list Z :=
  if (n <=? length reader)%nat then (Some (take n reader), drop n reader) else (None, []).

Definition ends_with_crlf (line : list Z) : bool := bool_decide (drop (length line - 2) line = CRLF).

(** The loop that reads the line byte by byte. *)
Fixpoint read_line (line reader : list Z) : option (list Z) * list Z :=
  match reader with
  | [] => (None, [])
  | byte :: reader =>
      let line := line ++ [byte] in
      if ends_with_crlf line then (Some line, reader)
      else if (256 <? length line)%nat then (None, reader)
      else read_line line reader
  end.

Definition parse_v1_line (default_peer : SocketAddr) (text : list Z) : option ProxyProtocolInfo :=
  match split_whitespace text with
  | [] => None
  | kind :: args =>
      if bool_decide (kind = TCP4 \/ kind = TCP6) && (4 <=? length args)%nat then
        match args with
        | src :: dst :: sport :: dport :: _ =>
            match parse_ip src, parse_ip dst, parse_u16 sport, parse_u16 dport with
            | Some src_ip, Some dst_ip, Some src_port, Some dst_port =>
                Some (mkInfo (mkSocketAddr src_ip src_port) (Some (mkSocketAddr dst_ip dst_port)) 1)
            | _, _, _, _ => None
            end
        | _ => None
        end
      else if bool_decide (kind = UNKNOWN) then Some (mkInfo default_peer None 1)
      else None
  end.

Definition parse_v1 (default_peer : SocketAddr) (reader : list Z) : option ProxyProtocolInfo * list Z :=
  match read_line PROXY_V1_SIGNATURE reader with
  | (None, reader) => (None, reader)
  | (Some line, reader) =>
      match utf8_decode (sub PROXY_V1_MIN_LEN (length line - 2 - PROXY_V1_MIN_LEN) line) with
      | None => (None, reader)
      | Some text => (parse_v1_line default_peer text, reader)
      end
  end.

Definition parse_v2_addrs (default_peer : SocketAddr) (family : Z) (addr_data : list Z) : option ProxyProtocolInfo :=
  let addr_len := length addr_data in
  if (family =? INET) && (12 <=? addr_len)%nat then
    Some (mkInfo (mkSocketAddr (IpV4 (sub 0 4 addr_data)) (of_be (sub 8 2 addr_data)))
      (Some (mkSocketAddr (IpV4 (sub 4 4 addr_data)) (of_be (sub 10 2 addr_data)))) 2)
  else if (family =? INET6) && (36 <=? addr_len)%nat then
    Some (mkInfo (mkSocketAddr (IpV6 (sub 0 16 addr_data)) (of_be (sub 32 2 addr_data)))
      (Some (mkSocketAddr (IpV6 (sub 16 16 addr_data)) (of_be (sub 34 2 addr_data)))) 2)
  else if family =? UNSPEC then Some (mkInfo default_peer None 2)
  else None.

Definition parse_v2 (default_peer : SocketAddr) (header reader : list Z) : option ProxyProtocolInfo * list Z :=
  let version_command := of_be (sub 12 1 header) in
  let command := Z.land version_command 0x0f in
  if negb (Z.shiftr version_command 4 =? 2) then (None, reader)
  else
    let family_protocol := of_be (sub 13 1 header) in
    let addr_len := Z.to_nat (of_be (sub 14 2 header)) in
    if (PROXY_V2_MAX_ADDR_LEN <? addr_len)%nat then (None, reader)
    else
      match (if (0 <? addr_len)%nat then read_exact addr_len reader else (Some [], reader)) with
      | (None, reader) => (None, reader)
      | (Some addr_data, reader) =>
          if command =? 0 then (Some (mkInfo default_peer None 2), reader)
          else if negb (command =? 1) then (None, reader)
          else (parse_v2_addrs default_peer (Z.shiftr family_protocol 4) addr_data, reader)
      end.

Definition parse_proxy_protocol (default_peer : SocketAddr) (reader : list Z) : option ProxyProtocolInfo * list Z :=
  match read_exact PROXY_V1_MIN_LEN reader with
  | (None, reader) => (None, reader)
  | (Some start, reader) =>
      if bool_decide (start = PROXY_V1_SIGNATURE) then parse_v1 default_peer reader
      else
        match read_exact (PROXY_V2_MIN_LEN - PROXY_V1_MIN_LEN) reader with
        | (None, reader) => (None, reader)
        | (Some more, reader) =>
            let header := start ++ more in
            if bool_decide (take 12 header = PROXY_V2_SIGNATURE) then parse_v2 default_peer header reader
            else (None, reader)
        end
  end.

(** * Building *)

Record ProxyProtocolV1Builder := mkV1 { v1_family : list Z; v1_src : option SocketAddr; v1_dst : option SocketAddr }.

Definition v1_new : ProxyProtocolV1Builder := mkV1 UNKNOWN None None.
Definition v1_tcp4 (src dst : SocketAddr) : ProxyProtocolV1Builder := mkV1 TCP4 (Some src) (Some dst).
Definition v1_tcp6 (src dst : SocketAddr) : ProxyProtocolV1Builder := mkV1 TCP6 (Some src) (Some dst).

Definition v1_build (b : ProxyProtocolV1Builder) : list Z :=
  match v1_src b, v1_dst b with
  | Some src, Some dst =>
      PROXY_V1_SIGNATURE ++
      join 32 [v1_family b; print_ip (sa_ip src); print_ip (sa_ip dst); print_dec (sa_port src); print_dec (sa_port dst)] ++ CRLF
  | _, _ => PROXY_V1_SIGNATURE ++ UNKNOWN ++ CRLF
  end.

Record ProxyProtocolV2Builder := mkV2 { v2_src : option SocketAddr; v2_dst : option SocketAddr }.

Definition v2_new : ProxyProtocolV2Builder := mkV2 None None.
Definition v2_with_addrs (src dst : SocketAddr) : ProxyProtocolV2Builder := mkV2 (Some src) (Some dst).

Definition v2_build (b : ProxyProtocolV2Builder) : list Z :=
  match v2_src b, v2_dst b with
  | Some (mkSocketAddr (IpV4 src) sport), Some (mkSocketAddr (IpV4 dst) dport) =>
      PROXY_V2_SIGNATURE ++ [0x21; 0x11] ++ to_be 2 12 ++ src ++ dst ++ to_be 2 sport ++ to_be 2 dport
  | Some (mkSocketAddr (IpV6 src) sport), Some (mkSocketAddr (IpV6 dst) dport) =>
      PROXY_V2_SIGNATURE ++ [0x21; 0x21] ++ to_be 2 36 ++ src ++ dst ++ to_be 2 sport ++ to_be 2 dport
  | _, _ => PROXY_V2_SIGNATURE ++ [0x20; 0x00] ++ to_be 2 0
  end.
