(* ===== verification/TlsEmulator.v ===== *)
(** The answer that imitates a real site ([tls_front/types.rs],
    [tls_front/emulator.rs]): what is cached of the site, and the ServerHello
    flight built from it; and the cache of imitated sites
    ([tls_front/cache.rs]): the entry of a name, and the budget of full
    certificates per address.

    Two-byte arrays are pairs, record sizes are values of [usize].  CRC-32 is
    third-party code.  Fields of the profile that only reports read (its quality,
    the extension types and the group seen, the fetch profile and time) are left
    out.  The two process-wide counters of the budget are fields of
    the cache.  Loading, saving and fetching of entries are left out. *)

From stdpp Require Import base list gmap numbers.
From S2P Require Import Net Prelude Aes Random RpcWire Tls TlsServer AuthProbe ProxyProtocol.
Local Open Scope Z_scope.

Definition MAX_APP_DATA : nat := MAX_TLS_CIPHERTEXT_SIZE.
Definition MAX_TICKET_RECORDS : nat := 4.

(** * What is cached *)

Definition pair_bytes (p : Z * Z) : list Z := [p.1; p.2].

Record TlsExtension := mkTlsExtension { ext_type : Z; ext_data : list Z }.

Record ParsedServerHello := mkParsedHello {
  psh_version : Z * Z;
  psh_random : list Z;
  psh_session_id : list Z;
  psh_cipher_suite : Z * Z;
  psh_compression : Z;
  psh_extensions : list TlsExtension;
}.

Record ParsedCertificateInfo := mkCertInfo {
  not_after_unix : option Z;
  not_before_unix : option Z;
  issuer_cn : option (list Z);
  subject_cn : option (list Z);
  san_names : list (list Z);
}.

Record TlsCertPayload := mkCertPayload { cert_chain_der : list (list Z); certificate_message : list Z }.

Inductive TlsProfileSource := SourceDefault | SourceRaw | SourceRustls | SourceMerged.

Record TlsBehaviorProfile := mkBehavior {
  change_cipher_spec_count : Z;
  app_data_record_sizes : list Z;
  ticket_record_sizes : list nat;
  bp_source : TlsProfileSource;
  server_hello_record_len : Z;
}.

Record CachedTlsData := mkCached {
  server_hello_template : ParsedServerHello;
  cert_info : option ParsedCertificateInfo;
  cert_payload : option TlsCertPayload;
  app_data_records_sizes : list Z;
  total_app_data_len : Z;
  behavior_profile : TlsBehaviorProfile;
  cd_domain : list Z;
}.

Definition record_body_len (h : ParsedServerHello) : nat :=
  let extensions_len := foldr (fun e n => 4 + length (ext_data e) + n)%nat 0%nat (psh_extensions h) in
  (4 + 2 + 32 + 1 + length (psh_session_id h) + 2 + 1 + 2 + extensions_len)%nat.

Definition parse_key_share_group (data : list Z) : option Z :=
  if (length data <? 4)%nat then None
  else
    let group := of_be (sub 0 2 data) in
    let key_exchange_len := Z.to_nat (of_be (sub 2 2 data)) in
    if negb (length data =? 4 + key_exchange_len)%nat then None
    else if (group =? X25519) || (group =? X25519MLKEM768) then Some group
    else None.

Definition is_supported_tls13_cipher_suite (cipher_suite : Z * Z) : bool :=
  let suite := of_be (pair_bytes cipher_suite) in
  (suite =? 0x1301) || (suite =? 0x1302) || (suite =? 0x1303).

(** The loop over the extensions, with what was seen so far. *)
Fixpoint replay_safe_extensions (extensions : list TlsExtension) (saw_supported_versions saw_key_share : bool) : bool :=
  match extensions with
  | [] => saw_supported_versions && saw_key_share
  | e :: extensions =>
      if ext_type e =? EXT_SUPPORTED_VERSIONS then
        if saw_supported_versions || negb (bool_decide (ext_data e = [0x03; 0x04])) then false
        else replay_safe_extensions extensions true saw_key_share
      else if ext_type e =? EXT_KEY_SHARE then
        if saw_key_share || negb (bool_decide (is_Some (parse_key_share_group (ext_data e)))) then false
        else replay_safe_extensions extensions saw_supported_versions true
      else if ext_type e =? EXT_ALPN then false
      else replay_safe_extensions extensions saw_supported_versions saw_key_share
  end.

Definition is_replay_safe_tls13_shape (record_len : Z) (h : ParsedServerHello) : bool :=
  if negb (bool_decide (psh_version h = (0x03, 0x03))) || negb (psh_compression h =? 0)
      || (32 <? length (psh_session_id h))%nat || negb (is_supported_tls13_cipher_suite (psh_cipher_suite h)) then false
  else if negb (record_len =? 0) && negb (record_len =? Z.of_nat (record_body_len h)) then false
  else replay_safe_extensions (psh_extensions h) false false.

(** * Choices from the cache *)

Definition effective_profiled_server_hello_record_len (cached : CachedTlsData) : Z :=
  let len := server_hello_record_len (behavior_profile cached) in
  if len =? 0 then Z.of_nat (record_body_len (server_hello_template cached)) else len.

Definition is_raw (source : TlsProfileSource) : bool :=
  match source with SourceRaw | SourceMerged => true | SourceDefault | SourceRustls => false end.

Definition should_replay_profiled_server_hello_shape (cached : CachedTlsData) : bool :=
  is_raw (bp_source (behavior_profile cached)) &&
  is_replay_safe_tls13_shape (effective_profiled_server_hello_record_len cached) (server_hello_template cached).

Definition profiled_server_hello_key_share_group (cached : CachedTlsData) : option Z :=
  if negb (should_replay_profiled_server_hello_shape cached) then None
  else
    match head (filter (fun e => ext_type e = EXT_KEY_SHARE) (psh_extensions (server_hello_template cached))) with
    | Some e => parse_key_share_group (ext_data e)
    | None => None
    end.

Definition clamp_size (size : Z) : Z := Z.max (Z.of_nat MIN_APP_DATA) (Z.min size (Z.of_nat MAX_APP_DATA)).

(** Sums of [usize] wrap around in a release build. *)
Definition usize_sum (sizes : list Z) : Z := foldl (fun acc size => (acc + size) mod 2 ^ 64) 0 sizes.

Definition fallback_total_app_data_len (cached : CachedTlsData) : Z :=
  Z.max (Z.max (total_app_data_len cached) (usize_sum (app_data_records_sizes cached))) 1024.

Definition fallback_family_app_data_sizes (cached : CachedTlsData) : list Z :=
  let size :=
    match bp_source (behavior_profile cached) with
    | SourceRustls => default (fallback_total_app_data_len cached) (head (app_data_records_sizes cached))
    | _ => fallback_total_app_data_len cached
    end in
  [clamp_size size].

Definition emulated_app_data_sizes (cached : CachedTlsData) : list Z :=
  if is_raw (bp_source (behavior_profile cached)) then
    match app_data_record_sizes (behavior_profile cached), app_data_records_sizes cached with
    | size :: _, _ => [clamp_size size]
    | [], size :: _ => [clamp_size size]
    | [], [] => [clamp_size (Z.max (total_app_data_len cached) 1024)]
    end
  else fallback_family_app_data_sizes cached.

Definition app_data_body_capacity (sizes : list Z) : Z := foldr (fun size n => sat_sub size 17 + n) 0 sizes.

(** [*last += grow]. *)
Fixpoint grow_last (grow : Z) (sizes : list Z) : list Z :=
  match sizes with
  | [] => []
  | [last] => [last + grow]
  | size :: sizes => size :: grow_last grow sizes
  end.

(** [while body_total < payload_len]: every round adds 47 bytes or more. *)
Fixpoint add_capacity (rounds : nat) (sizes : list Z) (body_total payload_len : Z) : list Z :=
  match rounds with
  | O => sizes
  | S rounds =>
      if body_total <? payload_len then
        let chunk := clamp_size (payload_len - body_total + 17) in
        add_capacity rounds (sizes ++ [chunk]) (body_total + sat_sub chunk 17) payload_len
      else sizes
  end.

Definition ensure_payload_capacity (sizes : list Z) (payload_len : nat) : list Z :=
  let len := Z.of_nat payload_len in
  if len =? 0 then sizes
  else
    let body_total := app_data_body_capacity sizes in
    if len <=? body_total then sizes
    else
      match list.last sizes with
      | Some size =>
          let grow := Z.min (sat_sub (Z.of_nat MAX_APP_DATA) size) (len - body_total) in
          add_capacity payload_len (grow_last grow sizes) (body_total + grow) len
      | None => add_capacity payload_len sizes body_total len
      end.

(** [format!] of an [i64]. *)
Definition print_i64 (n : Z) : list Z :=
  if n <? 0 then 45 :: print_digits 19 10 (- n) [] else print_digits 19 10 n [].

Definition build_compact_cert_info_payload (i : ParsedCertificateInfo) : option (list Z) :=
  let field (name : list Z) (value : option (list Z)) := match value with Some v => [name ++ v] | None => [] end in
  let fields :=
    field [67; 78; 61] (subject_cn i) ++
    field [73; 83; 83; 85; 69; 82; 61] (issuer_cn i) ++
    field [78; 66; 61] (print_i64 <$> not_before_unix i) ++
    field [78; 65; 61] (print_i64 <$> not_after_unix i) ++
    (if bool_decide (san_names i = []) then [] else [[83; 65; 78; 61] ++ join 44 (take 8 (san_names i))]) in
  if bool_decide (fields = []) then None else Some (take 512 (join 59 fields)).

Section emulator.
Context {R : Type} `{StdRng R} `{StreamKey} `{HmacSha256} `{Checksums}.

Inductive FallbackShapeFamily := NginxLike | BoringSslLike | RustlsLike.

Definition fallback_shape_family (cached : CachedTlsData) : FallbackShapeFamily :=
  match bp_source (behavior_profile cached) with
  | SourceRustls => RustlsLike
  | SourceDefault =>
      if Z.land (crc32 (cd_domain cached ++ to_le 8 (total_app_data_len cached))) 1 =? 0 then NginxLike else BoringSslLike
  | SourceRaw | SourceMerged => NginxLike
  end.

(** [while hashed.len() < cert_payload.len()]: every round adds a byte or more. *)
Fixpoint hash_blocks (rounds : nat) (state : Z) (cert_payload hashed : list Z) : list Z :=
  match rounds with
  | O => hashed
  | S rounds =>
      if (length hashed <? length cert_payload)%nat then
        let state := crc32 (to_le 4 state ++ cert_payload) in
        let remaining := (length cert_payload - length hashed)%nat in
        let copy_len := Nat.min remaining 4 in
        hash_blocks rounds state cert_payload (hashed ++ take copy_len (to_le 4 state))
      else hashed
  end.

Definition hash_compact_cert_info_payload (cert_payload : list Z) : option (list Z) :=
  if bool_decide (cert_payload = []) then None
  else Some (hash_blocks (length cert_payload) (crc32 cert_payload) cert_payload []).

(** The range is [(base * 0.03).round()] in double precision.  The factor is off by less than half a unit in the
    last place of the product, so the product rounds to the exact one where that ends in [.5], and the integer
    division below is exact on the clamped sizes. *)
Definition jitter_size (size : Z) (rng : SecureRandomInner R) : Z * SecureRandomInner R :=
  let base := clamp_size size in
  let jitter_range := (base * 3 + 50) / 100 in
  if jitter_range =? 0 then (base, rng)
  else
    let '(bytes, rng) := rand_bytes 2 rng in
    let span := 2 * jitter_range + 1 in
    let delta := of_le bytes mod span - jitter_range in
    (clamp_size (base + delta), rng).

Fixpoint jitter_and_clamp_sizes (sizes : list Z) (rng : SecureRandomInner R) : list Z * SecureRandomInner R :=
  match sizes with
  | [] => ([], rng)
  | size :: sizes =>
      let '(size, rng) := jitter_size size rng in
      let '(sizes, rng) := jitter_and_clamp_sizes sizes rng in
      (size :: sizes, rng)
  end.

Definition emulated_change_cipher_spec_count (cached : CachedTlsData) : nat := 1.

(** [while sizes.len() < target_count]. *)
Fixpoint add_ticket_sizes (missing : nat) (cached : CachedTlsData) (rng : SecureRandomInner R) : list nat * SecureRandomInner R :=
  match missing with
  | O => ([], rng)
  | S missing =>
      let base := match fallback_shape_family cached with NginxLike => 96 | BoringSslLike => 80 | RustlsLike => 112 end%nat in
      let '(extra, rng) := rand_range 64 rng in
      let '(sizes, rng) := add_ticket_sizes missing cached rng in
      ((base + extra)%nat :: sizes, rng)
  end.

Definition emulated_ticket_record_sizes (cached : CachedTlsData) (new_session_tickets : nat) (rng : SecureRandomInner R)
    : list nat * SecureRandomInner R :=
  let target_count := Nat.min new_session_tickets MAX_TICKET_RECORDS in
  if (target_count =? 0)%nat then ([], rng)
  else
    let profiled_sizes :=
      if is_raw (bp_source (behavior_profile cached)) then ticket_record_sizes (behavior_profile cached) else [] in
    let sizes := take target_count profiled_sizes in
    let '(more, rng) := add_ticket_sizes (target_count - length sizes) cached rng in
    (sizes ++ more, rng).

(** * Extensions of the ServerHello *)

Definition push_supported_versions_extension (extensions : list Z) : list Z :=
  extensions ++ be16 EXT_SUPPORTED_VERSIONS ++ be16 2 ++ be16 0x0304.

Definition push_key_share_extension (extensions : list Z) (ks : ServerHelloKeyShare) : list Z :=
  add_key_share (ks_group ks) (ks_key_exchange ks) extensions.

Fixpoint replay_extensions (profiled : list TlsExtension) (ks : ServerHelloKeyShare) (extensions : list Z)
    (saw_supported_versions saw_key_share : bool) : list Z * bool * bool :=
  match profiled with
  | [] => (extensions, saw_supported_versions, saw_key_share)
  | e :: profiled =>
      if (ext_type e =? EXT_SUPPORTED_VERSIONS) && negb saw_supported_versions then
        replay_extensions profiled ks (push_supported_versions_extension extensions) true saw_key_share
      else if (ext_type e =? EXT_KEY_SHARE) && negb saw_key_share then
        replay_extensions profiled ks (push_key_share_extension extensions ks) saw_supported_versions true
      else replay_extensions profiled ks extensions saw_supported_versions saw_key_share
  end.

Definition build_profiled_server_hello_extensions (cached : CachedTlsData) (ks : ServerHelloKeyShare) : list Z :=
  let '(extensions, saw_supported_versions, saw_key_share) :=
    if should_replay_profiled_server_hello_shape cached then
      replay_extensions (psh_extensions (server_hello_template cached)) ks [] false false
    else ([], false, false) in
  let extensions := if negb saw_supported_versions then push_supported_versions_extension extensions else extensions in
  if negb saw_key_share then push_key_share_extension extensions ks else extensions.

(** * The flight *)

(** The message, with the bytes of its random field. *)
Definition emulated_message (random : list Z) (cached : CachedTlsData) (session_id cipher_suite : list Z) (ks : ServerHelloKeyShare) : list Z :=
  let template := server_hello_template cached in
  let extensions := build_profiled_server_hello_extensions cached ks in
  let body_len := (2 + 32 + 1 + length session_id + 2 + 1 + 2 + length extensions)%nat in
  let cipher :=
    if negb (bool_decide (cipher_suite = [0; 0])) then cipher_suite
    else if bool_decide (psh_cipher_suite template = (0, 0)) then [0x13; 0x01]
    else pair_bytes (psh_cipher_suite template) in
  [0x02] ++ drop 1 (to_be 4 (Z.of_nat body_len)) ++ pair_bytes (psh_version template) ++ random ++
  [Z.of_nat (length session_id) mod 256] ++ session_id ++ cipher ++ [psh_compression template] ++
  be16 (Z.of_nat (length extensions)) ++ extensions.

(** The body of one record, with the part of the certificate it carries. *)
Definition app_record_body (size : nat) (payload : option (list Z)) (payload_offset : nat) (rng : SecureRandomInner R)
    : list Z * nat * SecureRandomInner R :=
  match payload with
  | Some payload =>
      if (17 <? size)%nat then
        let body_len := (size - 17)%nat in
        let remaining := (length payload - payload_offset)%nat in
        let copy_len := Nat.min remaining body_len in
        let copied := if (0 <? copy_len)%nat then sub payload_offset copy_len payload else [] in
        let '(noise, rng) := if (copy_len <? body_len)%nat then rand_bytes (body_len - copy_len) rng else ([], rng) in
        let '(tag, rng) := rand_bytes 16 rng in
        (copied ++ noise ++ [0x16] ++ tag, (payload_offset + copy_len)%nat, rng)
      else
        let '(body, rng) := rand_bytes size rng in (body, payload_offset, rng)
  | None =>
      if (17 <? size)%nat then
        let '(body, rng) := rand_bytes (size - 17) rng in
        let '(tag, rng) := rand_bytes 16 rng in
        (body ++ [0x16] ++ tag, payload_offset, rng)
      else
        let '(body, rng) := rand_bytes size rng in (body, payload_offset, rng)
  end.

Fixpoint app_data_records (sizes : list Z) (payload : option (list Z)) (payload_offset : nat) (rng : SecureRandomInner R)
    : list Z * SecureRandomInner R :=
  match sizes with
  | [] => ([], rng)
  | size :: sizes =>
      let '(body, payload_offset, rng) := app_record_body (Z.to_nat size) payload payload_offset rng in
      let '(rest, rng) := app_data_records sizes payload payload_offset rng in
      ([TLS_RECORD_APPLICATION] ++ TLS_VERSION ++ be16 size ++ body ++ rest, rng)
  end.

Fixpoint emulated_tickets (sizes : list nat) (rng : SecureRandomInner R) : list Z * SecureRandomInner R :=
  match sizes with
  | [] => ([], rng)
  | size :: sizes =>
      let '(body, rng) := rand_bytes size rng in
      let '(rest, rng) := emulated_tickets sizes rng in
      ([TLS_RECORD_APPLICATION] ++ TLS_VERSION ++ be16 (Z.of_nat size) ++ body ++ rest, rng)
  end.

(** What is sent in place of the certificate. *)
Definition select_payload (cached : CachedTlsData) (use_full_cert_payload serverhello_compact : bool)
    (client_tls_version : ClientHelloTlsVersion) : option (list Z) :=
  let compact_payload :=
    if serverhello_compact then
      match cert_info cached with
      | Some i => build_compact_cert_info_payload i ≫= hash_compact_cert_info_payload
      | None => None
      end
    else None in
  let full_payload :=
    match cert_payload cached with
    | Some p => if bool_decide (certificate_message p = []) then None else Some (certificate_message p)
    | None => None
    end in
  match client_tls_version with
  | Tls13 => None
  | Tls12 =>
      if serverhello_compact then
        if use_full_cert_payload then match full_payload with Some p => Some p | None => compact_payload end
        else compact_payload
      else full_payload
  end.

Definition build_emulated_server_hello (secret client_digest session_id : list Z) (cached : CachedTlsData)
    (use_full_cert_payload serverhello_compact : bool) (client_tls_version : ClientHelloTlsVersion)
    (selected_cipher_suite : list Z) (ks : ServerHelloKeyShare) (new_session_tickets : nat) (rng : SecureRandomInner R)
    : parse (list Z * SecureRandomInner R) :=
  let message := emulated_message (replicate 32 0) cached session_id selected_cipher_suite ks in
  let server_hello :=
    [TLS_RECORD_HANDSHAKE] ++ TLS_VERSION ++ be16 (Z.of_nat (length message)) ++ message in
  let change_cipher_spec :=
    concat (replicate (emulated_change_cipher_spec_count cached)
              ([TLS_RECORD_CHANGE_CIPHER] ++ TLS_VERSION ++ [0x00; 0x01; 0x01])) in
  let base_sizes := emulated_app_data_sizes cached in
  let '(sizes, rng) :=
    if is_raw (bp_source (behavior_profile cached)) then (clamp_size <$> base_sizes, rng)
    else jitter_and_clamp_sizes base_sizes rng in
  let payload := select_payload cached use_full_cert_payload serverhello_compact client_tls_version in
  let sizes := match payload with Some p => ensure_payload_capacity sizes (length p) | None => sizes end in
  let '(app_data, rng) := app_data_records sizes payload 0 rng in
  let '(ticket_sizes, rng) := emulated_ticket_record_sizes cached new_session_tickets rng in
  let '(tickets, rng) := emulated_tickets ticket_sizes rng in
  let response := server_hello ++ change_cipher_spec ++ app_data ++ tickets in
  match copy_at TLS_DIGEST_POS (sha256_hmac secret (client_digest ++ response)) response with
  | Got response => Got (response, rng)
  | _ => Panic
  end.

End emulator.

(** * The flight as a sequence of records *)

Definition size_ok (size : Z) : Prop := 64 <= size <= 16640.

Lemma clamp_size_ok size : size_ok (clamp_size size).
Proof. unfold size_ok, clamp_size, MAX_APP_DATA, MIN_APP_DATA. rewrite MAX_TLS_CIPHERTEXT_SIZE_Z. lia. Qed.

Lemma emulated_sizes_ok cached : Forall size_ok (emulated_app_data_sizes cached) /\ emulated_app_data_sizes cached <> [].
Proof.
  unfold emulated_app_data_sizes, fallback_family_app_data_sizes.
  destruct (is_raw _); [|split; [repeat constructor; apply clamp_size_ok|done]].
  destruct (app_data_record_sizes _) as [|? ?]; [destruct (app_data_records_sizes _) as [|? ?]|];
    (split; [repeat constructor; apply clamp_size_ok|done]).
Qed.

Lemma capacity_app a b : app_data_body_capacity (a ++ b) = app_data_body_capacity a + app_data_body_capacity b.
Proof. unfold app_data_body_capacity. induction a as [|x a IH]; cbn; [done|]. rewrite IH. lia. Qed.

Lemma capacity_nonneg sizes : 0 <= app_data_body_capacity sizes.
Proof. unfold app_data_body_capacity. induction sizes; cbn; unfold sat_sub in *; lia. Qed.

Lemma capacity_one size : size_ok size -> app_data_body_capacity [size] = size - 17.
Proof. unfold size_ok, app_data_body_capacity, sat_sub. cbn. lia. Qed.

(** Enough rounds are given: the payload fits in the end. *)
Lemma add_capacity_spec rounds sizes body_total len :
  Forall size_ok sizes -> body_total = app_data_body_capacity sizes -> len - body_total <= Z.of_nat rounds ->
  Forall size_ok (add_capacity rounds sizes body_total len) /\ len <= app_data_body_capacity (add_capacity rounds sizes body_total len).
Proof.
  revert sizes body_total. induction rounds as [|rounds IH]; intros sizes body_total Hs -> Hr; cbn [add_capacity]; [split; [done|lia]|].
  destruct (Z.ltb_spec (app_data_body_capacity sizes) len); [|done].
  pose proof (clamp_size_ok (len - app_data_body_capacity sizes + 17)) as Hc. set (chunk := clamp_size _) in *.
  apply IH; [apply Forall_app; split; [done|by constructor]|rewrite capacity_app, capacity_one by done|]; unfold size_ok, sat_sub in *; lia.
Qed.

Lemma grow_last_spec sizes size grow :
  list.last sizes = Some size -> Forall size_ok sizes -> 0 <= grow -> size + grow <= 16640 ->
  Forall size_ok (grow_last grow sizes) /\ app_data_body_capacity (grow_last grow sizes) = app_data_body_capacity sizes + grow.
Proof.
  intros Hl Hs Hg Hm. induction Hs as [|x sizes Hx Hs IH]; [done|]. destruct sizes as [|y sizes].
  - injection Hl as ->. unfold size_ok in *. cbn [grow_last]. split; [repeat constructor; unfold size_ok; lia|].
    unfold app_data_body_capacity, sat_sub. cbn. lia.
  - destruct (IH Hl) as [Ho Hc]. change (grow_last grow (x :: y :: sizes)) with (x :: grow_last grow (y :: sizes)).
    split; [by constructor|]. unfold app_data_body_capacity in *. cbn [foldr] in *. lia.
Qed.

Lemma ensure_capacity_spec sizes n :
  Forall size_ok sizes -> Forall size_ok (ensure_payload_capacity sizes n) /\ Z.of_nat n <= app_data_body_capacity (ensure_payload_capacity sizes n).
Proof.
  intros Hs. unfold ensure_payload_capacity. pose proof (capacity_nonneg sizes).
  destruct (Z.eqb_spec (Z.of_nat n) 0); [split; [done|lia]|]. destruct (Z.leb_spec (Z.of_nat n) (app_data_body_capacity sizes)); [done|].
  destruct (list.last sizes) as [size|] eqn:Hl; [|apply add_capacity_spec; [done|done|lia]].
  assert (size_ok size) as Hsz.
  { apply last_Some_elem_of in Hl. rewrite list.Forall_forall in Hs. by apply Hs. }
  set (grow := Z.min (sat_sub (Z.of_nat MAX_APP_DATA) size) (Z.of_nat n - app_data_body_capacity sizes)). cbv zeta.
  assert (0 <= grow /\ size + grow <= 16640) as [Hg Hm].
  { unfold grow, sat_sub, MAX_APP_DATA, size_ok in *. rewrite MAX_TLS_CIPHERTEXT_SIZE_Z. lia. }
  destruct (grow_last_spec sizes size grow Hl Hs Hg Hm) as [Ho Hc]. apply add_capacity_spec; [done|lia|lia].
Qed.

(** The part of a record that can carry the certificate. *)
Definition cert_part (body : list Z) : list Z := take (length body - 17) body.

Definition app_records (bodies : list (list Z)) : list (Z * list Z) := pair TLS_RECORD_APPLICATION <$> bodies.

Lemma render_cons ty body rs : render_records ((ty, body) :: rs) = [ty] ++ TLS_VERSION ++ be16 (Z.of_nat (length body)) ++ body ++ render_records rs.
Proof. unfold render_records. cbn [fmap list_fmap concat fst snd]. unfold tls_record. by rewrite <- !(assoc_L (++)). Qed.

Lemma render_app a b : render_records (a ++ b) = render_records a ++ render_records b.
Proof. unfold render_records. by rewrite fmap_app, concat_app. Qed.

Section flight.
Context {R : Type} `{StdRngLaws R} `{StreamKey} `{HmacSha256Laws} `{Checksums}.
Implicit Types rng : SecureRandomInner R.

Lemma jitter_sizes_ok sizes rng : Forall size_ok (jitter_and_clamp_sizes sizes rng).1.
Proof.
  revert rng. induction sizes as [|size sizes IH]; intros rng; cbn [jitter_and_clamp_sizes]; [constructor|].
  unfold jitter_size. cbv zeta. destruct (_ =? 0); [|destruct (rand_bytes 2 rng) as [bs rng1]];
    (match goal with |- context [jitter_and_clamp_sizes sizes ?r] => specialize (IH r); destruct (jitter_and_clamp_sizes sizes r) end);
    (constructor; [apply clamp_size_ok|done]).
Qed.

Lemma app_record_spec size payload off rng :
  size_ok size ->
  let '(body, off', _) := app_record_body (Z.to_nat size) payload off rng in
  Z.of_nat (length body) = size /\
  match payload with
  | Some p => off' = (off + Nat.min (length p - off) (Z.to_nat size - 17))%nat /\
      exists noise, cert_part body = sub off (off' - off) p ++ noise /\ (off' < length p -> noise = [])%nat
  | None => True
  end.
Proof.
  intros Hs. unfold size_ok in Hs. unfold app_record_body.
  assert ((17 <? Z.to_nat size)%nat = true) as Hlt by (apply Nat.ltb_lt; lia). rewrite !Hlt. destruct payload as [p|].
  - set (copy := Nat.min (length p - off) (Z.to_nat size - 17)). cbv zeta.
    assert ((if (0 <? copy)%nat then sub off copy p else []) = sub off copy p) as ->
      by (destruct (Nat.ltb_spec 0 copy); [done|]; by replace copy with 0%nat by lia).
    assert (length (sub off copy p) = copy) as Hc by (unfold sub; rewrite length_take, length_drop; lia).
    destruct (if (copy <? Z.to_nat size - 17)%nat then _ else _) as [noise rng1] eqn:Hn.
    assert (length noise = Z.to_nat size - 17 - copy)%nat as Hnl.
    { destruct (Nat.ltb_spec copy (Z.to_nat size - 17)); [|injection Hn as <- _; cbn; lia].
      pose proof (rand_bytes_length (Z.to_nat size - 17 - copy) rng) as Hl. rewrite Hn in Hl. exact Hl. }
    pose proof (rand_bytes_length 16 rng1) as Ht. destruct (rand_bytes 16 rng1) as [tag rng2]. cbn [fst] in Ht.
    split; [rewrite !length_app, Hc, Hnl, Ht; cbn [length]; lia|]. split; [done|]. exists noise.
    replace (off + copy - off)%nat with copy by lia. split.
    + unfold cert_part. rewrite !length_app, Hc, Hnl, Ht. cbn [length]. rewrite (assoc_L (++)). apply take_app_length'.
      rewrite length_app, Hc, Hnl. lia.
    + intros Hlt'. destruct noise; [done|]. cbn in Hnl. lia.
  - pose proof (rand_bytes_length (Z.to_nat size - 17) rng) as Hl. destruct (rand_bytes _ rng) as [body rng1].
    pose proof (rand_bytes_length 16 rng1) as Ht. destruct (rand_bytes 16 rng1) as [tag rng2]. cbn [fst] in *.
    split; [|done]. rewrite !length_app, Hl, Ht. cbn [length]. lia.
Qed.

Lemma app_data_spec sizes payload off rng :
  Forall size_ok sizes ->
  exists bodies, (app_data_records sizes payload off rng).1 = render_records (app_records bodies) /\
    (fun b => Z.of_nat (length b)) <$> bodies = sizes /\
    match payload with
    | Some p => Z.of_nat (length p - off) <= app_data_body_capacity sizes ->
        exists noise, concat (cert_part <$> bodies) = drop off p ++ noise
    | None => True
    end.
Proof.
  intros Hs. revert off rng. induction Hs as [|size sizes Hsz Hs IH]; intros off rng.
  { exists []. split; [done|]. split; [done|]. destruct payload as [p|]; [|done]. cbn. intros Hc. exists [].
    by rewrite drop_ge by lia. }
  cbn [app_data_records]. pose proof (app_record_spec size payload off rng Hsz) as Hr.
  destruct (app_record_body (Z.to_nat size) payload off rng) as [[body off'] rng1]. destruct Hr as [Hl Hp].
  destruct (IH off' rng1) as (bodies & Hb & Hsizes & Hcarry). destruct (app_data_records sizes payload off' rng1) as [rest rng2].
  exists (body :: bodies). cbn [fst] in *. split; [|split].
  - unfold app_records. rewrite fmap_cons, render_cons, Hl. by rewrite Hb.
  - rewrite fmap_cons. by rewrite Hl, Hsizes.
  - destruct payload as [p|]; [|done]. destruct Hp as (Hoff & noise & Hpart & Hnoise). intros Hcap.
    assert (app_data_body_capacity (size :: sizes) = size - 17 + app_data_body_capacity sizes) as Hcons.
    { change (size :: sizes) with ([size] ++ sizes). by rewrite capacity_app, capacity_one. }
    unfold size_ok in Hsz. pose proof (capacity_nonneg sizes). destruct Hcarry as [noise' Hrest]; [lia|].
    rewrite fmap_cons. cbn [concat]. rewrite Hpart, Hrest. unfold sub.
    destruct (decide (off' < length p)%nat) as [Hlt|Hge].
    + rewrite (Hnoise Hlt), app_nil_r. exists noise'. rewrite (assoc_L (++)). f_equal.
      replace off' with (off + (off' - off))%nat at 2 by lia. rewrite <- drop_drop. apply take_drop.
    + exists (noise ++ noise'). rewrite (drop_ge p off') by lia. rewrite take_ge by (rewrite length_drop; lia).
      cbn [app]. by rewrite <- (assoc_L (++)).
Qed.

Lemma tickets_spec sizes rng :
  exists bodies, (emulated_tickets sizes rng).1 = render_records (app_records bodies) /\ length <$> bodies = sizes.
Proof.
  revert rng. induction sizes as [|size sizes IH]; intros rng; [by exists []|]. cbn [emulated_tickets].
  pose proof (rand_bytes_length size rng) as Hl. destruct (rand_bytes size rng) as [body rng1]. cbn [fst] in Hl.
  destruct (IH rng1) as (bodies & Hb & Hs). destruct (emulated_tickets sizes rng1) as [rest rng2]. cbn [fst] in Hb.
  exists (body :: bodies). unfold app_records. rewrite !fmap_cons, render_cons, Hl. cbn [fst]. by rewrite Hb, Hs.
Qed.

(** The records of the flight; [random] is the field the digest goes to. *)
Definition emulated_records (random : list Z) (cached : CachedTlsData) (sid cipher : list Z) (ks : ServerHelloKeyShare)
    (bodies tickets : list (list Z)) : list (Z * list Z) :=
  (TLS_RECORD_HANDSHAKE, emulated_message random cached sid cipher ks) :: (TLS_RECORD_CHANGE_CIPHER, [1]) ::
  app_records bodies ++ app_records tickets.

Lemma emulated_mid cached sid cipher ks bodies tickets :
  exists pre post, length pre = 11%nat /\ forall random, length random = 32%nat ->
    render_records (emulated_records random cached sid cipher ks bodies tickets) = pre ++ random ++ post.
Proof.
  set (n := length (emulated_message (replicate 32 0) cached sid cipher ks)).
  assert (forall random, length random = 32%nat -> length (emulated_message random cached sid cipher ks) = n) as Hn.
  { intros random Hr. unfold n, emulated_message. rewrite !length_app, Hr, length_replicate. done. }
  unfold emulated_message in Hn. set (ext := build_profiled_server_hello_extensions cached ks) in *.
  set (m := to_be 4 (Z.of_nat (2 + 32 + 1 + length sid + 2 + 1 + 2 + length ext))) in *.
  exists ([TLS_RECORD_HANDSHAKE] ++ TLS_VERSION ++ be16 (Z.of_nat n) ++ [0x02] ++ drop 1 m ++ pair_bytes (psh_version (server_hello_template cached))).
  eexists. split.
  { rewrite !length_app, length_be16, length_drop. unfold m. rewrite length_to_be. done. }
  intros random Hr. unfold emulated_records. rewrite render_cons. unfold emulated_message. fold ext. fold m. rewrite Hn by done.
  rewrite <- !(assoc_L (++)). reflexivity.
Qed.

(** The emulated answer is a sequence of records, proves the secret, and carries the whole certificate where one is sent. *)
Lemma build_emulated_spec secret client_digest sid cached full compact version cipher ks n rng :
  exists response rng' bodies tickets,
    build_emulated_server_hello secret client_digest sid cached full compact version cipher ks n rng = Got (response, rng') /\
    digest_of response = sha256_hmac secret (client_digest ++ zeroed response) /\
    response = render_records (emulated_records (digest_of response) cached sid cipher ks bodies tickets) /\
    Forall (fun b => size_ok (Z.of_nat (length b))) bodies /\
    match select_payload cached full compact version with
    | Some p => exists noise, concat (cert_part <$> bodies) = p ++ noise
    | None => True
    end.
Proof.
  unfold build_emulated_server_hello. cbv zeta.
  destruct (if is_raw _ then _ else _) as [sizes rng1] eqn:Hsz.
  assert (Forall size_ok sizes) as Hok.
  { destruct (is_raw _).
    - injection Hsz as <- _. apply Forall_fmap, list.Forall_forall. intros x _. apply clamp_size_ok.
    - pose proof (jitter_sizes_ok (emulated_app_data_sizes cached) rng) as Hj. by rewrite Hsz in Hj. }
  set (payload := select_payload _ _ _ _).
  set (sizes' := match payload with Some p => ensure_payload_capacity sizes (length p) | None => sizes end).
  assert (Forall size_ok sizes' /\ match payload with Some p => Z.of_nat (length p) <= app_data_body_capacity sizes' | None => True end) as [Hok' Hcap].
  { unfold sizes'. destruct payload as [p|]; [|done]. by apply ensure_capacity_spec. }
  destruct (app_data_spec sizes' payload 0 rng1 Hok') as (bodies & Hb & Hsizes & Hcarry).
  destruct (app_data_records sizes' payload 0 rng1) as [app_data rng2]. cbn [fst] in Hb. subst app_data.
  destruct (emulated_ticket_record_sizes cached n rng2) as [tsizes rng3].
  destruct (tickets_spec tsizes rng3) as (tickets & Ht & _). destruct (emulated_tickets tsizes rng3) as [tk rng4]. cbn [fst] in Ht. subst tk.
  match goal with |- context [copy_at _ (sha256_hmac _ (_ ++ ?l)) _] => set (resp := l) end.
  assert (resp = render_records (emulated_records (replicate 32 0) cached sid cipher ks bodies tickets)) as Hresp.
  { unfold resp, emulated_records. rewrite !render_cons, render_app. cbn [emulated_change_cipher_spec_count replicate concat].
    rewrite <- !(assoc_L (++)). reflexivity. }
  destruct (emulated_mid cached sid cipher ks bodies tickets) as (pre & post & Hpre & Hmid). rewrite Hresp, Hmid by done.
  destruct (sha256_hmac_ok secret (client_digest ++ pre ++ replicate 32 0 ++ post)) as [Hd _]. rewrite copy_at_mid by done.
  do 2 eexists. exists bodies, tickets. split; [reflexivity|]. rewrite digest_mid, zeroed_mid by done. rewrite Hmid by done.
  split; [done|]. split; [done|]. split.
  - rewrite <- Hsizes in Hok'. exact (proj1 (Forall_fmap _ _ _) Hok').
  - destruct payload as [p|]; [|done]. rewrite drop_0 in Hcarry. apply Hcarry. rewrite Nat.sub_0_r. exact Hcap.
Qed.

End flight.

(** * The cache *)

Definition FULL_CERT_SENT_SWEEP_INTERVAL_SECS : Z := 30.
Definition FULL_CERT_SENT_MAX_IPS : Z := 65536.
Definition FULL_CERT_SENT_SHARDS : nat := 64.

Record TlsFrontCache := mkFrontCache {
  fc_memory : gmap (list Z) CachedTlsData;
  fc_default : CachedTlsData;
  full_cert_sent_shards : list (gmap IpAddr Z);
  full_cert_sent_last_sweep_epoch_secs : Z;
  FULL_CERT_SENT_IPS_GAUGE : Z;
  FULL_CERT_SENT_CAP_DROPS : Z;
}.

Definition default_cached (default_len : Z) : CachedTlsData :=
  mkCached (mkParsedHello (0x03, 0x03) (replicate 32 0) [] (0x13, 0x01) 0 []) None None [default_len] default_len
    (mkBehavior 1 [] [] SourceDefault 0) [100; 101; 102; 97; 117; 108; 116].

Definition front_cache_new (domains : list (list Z)) (default_len gauge drops : Z) : TlsFrontCache :=
  let d := default_cached default_len in
  mkFrontCache (list_to_map ((fun domain => (domain, d)) <$> domains)) d (replicate FULL_CERT_SENT_SHARDS ∅) 0 gauge drops.

Definition cache_get (sni : list Z) (c : TlsFrontCache) : CachedTlsData := default (fc_default c) (fc_memory c !! sni).

Definition cache_set (domain : list Z) (data : CachedTlsData) (c : TlsFrontCache) : TlsFrontCache :=
  mkFrontCache (<[domain := data]> (fc_memory c)) (fc_default c) (full_cert_sent_shards c)
    (full_cert_sent_last_sweep_epoch_secs c) (FULL_CERT_SENT_IPS_GAUGE c) (FULL_CERT_SENT_CAP_DROPS c).

Definition with_budget (shards : list (gmap IpAddr Z)) (sweep gauge drops : Z) (c : TlsFrontCache) : TlsFrontCache :=
  mkFrontCache (fc_memory c) (fc_default c) shards sweep gauge drops.

Section budget.
Context (ip_hash : IpAddr -> Z).

Definition full_cert_sent_shard_index (client_ip : IpAddr) : nat :=
  Z.to_nat (ip_hash client_ip mod Z.of_nat FULL_CERT_SENT_SHARDS).

(** Each shard in turn: the entries that are younger than [ttl], and the gauge
    without those dropped. *)
Fixpoint sweep_full_cert_sent_shards (now ttl : Z) (shards : list (gmap IpAddr Z)) (gauge : Z) : list (gmap IpAddr Z) * Z :=
  match shards with
  | [] => ([], gauge)
  | shard :: shards =>
      let kept := filter (fun e => duration_since now e.2 < ttl) shard in
      let '(rest, gauge) := sweep_full_cert_sent_shards now ttl shards
        (sat_sub gauge (sat_sub (Z.of_nat (size shard)) (Z.of_nat (size kept)))) in
      (kept :: rest, gauge)
  end.

Definition take_full_cert_budget_for_ip (client_ip : IpAddr) (ttl now now_epoch_secs : Z) (c : TlsFrontCache)
    : bool * TlsFrontCache :=
  if ttl =? 0 then (true, c)
  else
    let last_sweep := full_cert_sent_last_sweep_epoch_secs c in
    let should_sweep := FULL_CERT_SENT_SWEEP_INTERVAL_SECS <=? sat_sub now_epoch_secs last_sweep in
    let '(shards, gauge) :=
      if should_sweep then sweep_full_cert_sent_shards now ttl (full_cert_sent_shards c) (FULL_CERT_SENT_IPS_GAUGE c)
      else (full_cert_sent_shards c, FULL_CERT_SENT_IPS_GAUGE c) in
    let sweep := if should_sweep then now_epoch_secs else last_sweep in
    let idx := full_cert_sent_shard_index client_ip in
    let guard := default ∅ (shards !! idx) in
    match guard !! client_ip with
    | Some seen_at =>
        if ttl <=? duration_since now seen_at then
          (true, with_budget (<[idx := <[client_ip := now]> guard]> shards) sweep gauge (FULL_CERT_SENT_CAP_DROPS c) c)
        else (false, with_budget shards sweep gauge (FULL_CERT_SENT_CAP_DROPS c) c)
    | None =>
        if FULL_CERT_SENT_MAX_IPS <=? gauge then
          (false, with_budget shards sweep gauge ((FULL_CERT_SENT_CAP_DROPS c + 1) mod 2 ^ 64) c)
        else
          (true, with_budget (<[idx := <[client_ip := now]> guard]> shards) sweep (gauge + 1) (FULL_CERT_SENT_CAP_DROPS c) c)
    end.

(** The full certificate went to [ip] at [seen], and the cache knows. *)
Definition sent_at (ip : IpAddr) (seen : Z) (c : TlsFrontCache) : Prop :=
  exists shard, full_cert_sent_shards c !! full_cert_sent_shard_index ip = Some shard /\ shard !! ip = Some seen.

Lemma shard_index_lt ip : (full_cert_sent_shard_index ip < FULL_CERT_SENT_SHARDS)%nat.
Proof. unfold full_cert_sent_shard_index. pose proof (Z.mod_pos_bound (ip_hash ip) (Z.of_nat FULL_CERT_SENT_SHARDS) ltac:(done)). lia. Qed.

Lemma sweep_lookup now ttl shards gauge idx :
  (sweep_full_cert_sent_shards now ttl shards gauge).1 !! idx
    = (fun shard => filter (fun e => duration_since now e.2 < ttl) shard) <$> shards !! idx.
Proof.
  revert idx gauge. induction shards as [|shard shards IH]; intros idx gauge; [done|]. cbn [sweep_full_cert_sent_shards].
  match goal with |- context [sweep_full_cert_sent_shards now ttl shards ?g] => specialize (IH (pred idx) g); destruct (sweep_full_cert_sent_shards now ttl shards g) end.
  destruct idx; [done|]. exact IH.
Qed.

Lemma sweep_length now ttl shards gauge : length (sweep_full_cert_sent_shards now ttl shards gauge).1 = length shards.
Proof.
  revert gauge. induction shards as [|shard shards IH]; intros gauge; [done|]. cbn [sweep_full_cert_sent_shards].
  match goal with |- context [sweep_full_cert_sent_shards now ttl shards ?g] => specialize (IH g); destruct (sweep_full_cert_sent_shards now ttl shards g) end.
  cbn in *. by rewrite IH.
Qed.

(** A full certificate is not sent twice to an address within [ttl], whatever
    other addresses ask for. *)
Lemma budget_spaced ip seen ttl other now epoch c :
  length (full_cert_sent_shards c) = FULL_CERT_SENT_SHARDS -> 0 < ttl -> sent_at ip seen c -> duration_since now seen < ttl ->
  let '(allowed, c') := take_full_cert_budget_for_ip other ttl now epoch c in
  sent_at ip seen c' /\ length (full_cert_sent_shards c') = FULL_CERT_SENT_SHARDS /\ (other = ip -> allowed = false).
Proof.
  intros Hlen Httl (shard & Hs & Hip) Hyoung. unfold take_full_cert_budget_for_ip. rewrite (proj2 (Z.eqb_neq ttl 0)) by lia.
  destruct (if _ <=? _ then sweep_full_cert_sent_shards _ _ _ _ else _) as [shards gauge] eqn:Hsw.
  assert (length shards = FULL_CERT_SENT_SHARDS /\ exists shard', shards !! full_cert_sent_shard_index ip = Some shard' /\ shard' !! ip = Some seen)
    as (Hl' & shard' & Hs' & Hip').
  { destruct (_ <=? _); [|injection Hsw as <- _; eauto].
    pose proof (sweep_lookup now ttl (full_cert_sent_shards c) (FULL_CERT_SENT_IPS_GAUGE c) (full_cert_sent_shard_index ip)) as Hk.
    pose proof (sweep_length now ttl (full_cert_sent_shards c) (FULL_CERT_SENT_IPS_GAUGE c)) as Hn. rewrite Hsw in Hk, Hn.
    cbn [fst] in Hk, Hn. split; [congruence|]. rewrite Hs in Hk. eexists. split; [exact Hk|]. by apply map_lookup_filter_Some. }
  set (idx := full_cert_sent_shard_index other).
  assert (forall g, other <> ip -> sent_at ip seen (with_budget (<[idx := <[other := now]> (default ∅ (shards !! idx))]> shards) (if FULL_CERT_SENT_SWEEP_INTERVAL_SECS <=? sat_sub epoch (full_cert_sent_last_sweep_epoch_secs c) then epoch else full_cert_sent_last_sweep_epoch_secs c) g (FULL_CERT_SENT_CAP_DROPS c) c)) as Hother.
  { intros g Hne. unfold sent_at. cbn [full_cert_sent_shards with_budget]. destruct (decide (idx = full_cert_sent_shard_index ip)) as [He|He].
    - rewrite He, Hs'. eexists. rewrite list_lookup_insert_eq; [|rewrite Hl'; apply shard_index_lt]. split; [done|].
      cbn. by rewrite lookup_insert_ne.
    - rewrite list_lookup_insert_ne by done. eauto. }
  destruct (decide (other = ip)) as [->|Hne].
  - unfold idx. rewrite Hs'. change (default ∅ (Some shard')) with shard'. rewrite Hip'. rewrite (proj2 (Z.leb_gt ttl _)) by lia.
    split; [by exists shard'|]. done.
  - destruct (default ∅ (shards !! idx) !! other) as [seen'|]; [destruct (ttl <=? duration_since now seen')|destruct (FULL_CERT_SENT_MAX_IPS <=? gauge)];
      ((split; [(by apply Hother) || (by exists shard')|]); (split; [|done]); cbn; by rewrite ?length_insert).
Qed.

End budget.
