(* ===== verification/TlsResponse.v ===== *)
(** Writing the answer of the TLS front: through the stream
    ([write_tls_response] of proxy/handshake/tls_handshake.rs), or in small
    segments on the socket itself (transport/socket/fragmented_send.rs).

    The system calls on the socket are a class with its laws.  [polls] bounds
    how often the socket may answer that it is not ready; [WriterCancelled]
    stands for a write that is still waiting then. *)

From stdpp Require Import base list gmap numbers.
From S2P Require Import Prelude Stream ClientWrite ClientWriteSpec.
Local Open Scope nat_scope.

(** * Sending in fragments *)

(** [libc::send] behind [writable] and [try_io]. *)
Inductive SendResult := SendBlocked | SendInterrupted | SendFailed (e : ErrorKind) | Sent (n : nat).

(** The calls on the file descriptor of a socket; [fd_open] is the duplication
    and its registration with the reactor. *)
Class TcpFd (W : Type) := {
  fd_open : W -> result ErrorKind unit * W;
  fd_get_maxseg : W -> result ErrorKind Z * W;
  fd_set_maxseg : Z -> W -> result ErrorKind unit * W;
  fd_nodelay : W -> result ErrorKind unit * W;
  fd_send : list Z -> W -> SendResult * W;
}.

(** What is sent on the descriptor joins what the stream was given, and
    options of the socket leave the bytes alone. *)
Record TcpFdSpec (W : Type) `{AsyncWrite W} `{TcpFd W} (spec : WriterSpec W) := mkFdSpec {
  fd_open_spec : forall w r w', writer_ok spec w -> fd_open w = (r, w') ->
    writer_ok spec w' /\ accepted spec w' = accepted spec w /\ (settled spec w -> settled spec w');
  fd_get_spec : forall w r w', writer_ok spec w -> fd_get_maxseg w = (r, w') ->
    writer_ok spec w' /\ accepted spec w' = accepted spec w /\ (settled spec w -> settled spec w');
  fd_set_spec : forall v w r w', writer_ok spec w -> fd_set_maxseg v w = (r, w') ->
    writer_ok spec w' /\ accepted spec w' = accepted spec w /\ (settled spec w -> settled spec w');
  fd_nodelay_spec : forall w r w', writer_ok spec w -> fd_nodelay w = (r, w') ->
    writer_ok spec w' /\ accepted spec w' = accepted spec w /\ (settled spec w -> settled spec w');
  fd_send_spec : forall data w r w', writer_ok spec w -> fd_send data w = (r, w') ->
    writer_ok spec w' /\ (settled spec w -> settled spec w') /\
    match r with
    | Sent n => n <= length data /\ accepted spec w' = accepted spec w ++ take n data
    | _ => accepted spec w' = accepted spec w
    end;
}.
Arguments fd_open_spec {W _ _ spec}.
Arguments fd_get_spec {W _ _ spec}.
Arguments fd_set_spec {W _ _ spec}.
Arguments fd_nodelay_spec {W _ _ spec}.
Arguments fd_send_spec {W _ _ spec}.

Definition InvalidInput : ErrorKind := Kind 22.
Definition EBADF : ErrorKind := Kind 9.

Record TcpMaxSegmentGuard := mkGuard { mg_original : Z; mg_changed : bool }.

Record TlsResponseWriteOptions := mkWriteOptions { socket_fd : option Z; fragment_size : option Z }.

Definition write_options_default : TlsResponseWriteOptions := mkWriteOptions None None.
Definition write_options_tcp (fd : Z) (size : option Z) : TlsResponseWriteOptions := mkWriteOptions ((fun _ => fd) <$> size) size.

Section send.
Context {W : Type} `{TcpFd W}.

Definition guard_install (requested : nat) (w : W) : result ErrorKind TcpMaxSegmentGuard * W :=
  if (2 ^ 31 - 1 <? Z.of_nat requested)%Z then (Err InvalidInput, w)
  else
    match fd_get_maxseg w with
    | (Err e, w) => (Err e, w)
    | (Ok original, w) =>
        let changed := (Z.of_nat requested <? original)%Z in
        if changed then
          match fd_set_maxseg (Z.of_nat requested) w with
          | (Err e, w) => (Err e, w)
          | (Ok _, w) => (Ok (mkGuard original changed), w)
          end
        else (Ok (mkGuard original changed), w)
    end.

(** [restore], and the drop of a guard that could not restore. *)
Definition guard_restore (g : TcpMaxSegmentGuard) (w : W) : result ErrorKind unit * W :=
  if mg_changed g then
    match fd_set_maxseg (mg_original g) w with
    | (Err e, w) => (Err e, (fd_set_maxseg (mg_original g) w).2)
    | (Ok _, w) => (Ok tt, w)
    end
  else (Ok tt, w).

(** The inner loop on one fragment until the socket is not ready: the bytes of
    the fragment still to send, none when it is done.  [n] more rounds; each
    one sends a byte. *)
Fixpoint send_fragment (n : nat) (fragment : list Z) (w : W) : result ErrorKind (list Z) * W :=
  match fragment, n with
  | [], _ => (Ok [], w)
  | _, O => (Ok fragment, w)
  | _, S n =>
      match fd_send fragment w with
      | (SendBlocked, w) | (SendInterrupted, w) => (Ok fragment, w)
      | (SendFailed e, w) => (Err e, w)
      | (Sent O, w) => (Err WriteZero, w)
      | (Sent k, w) =>
          match fd_nodelay w with
          | (Err e, w) => (Err e, w)
          | (Ok _, w) => send_fragment n (drop k fragment) w
          end
      end
  end.

Fixpoint send_whole_fragment (polls : nat) (fragment : list Z) (w : W) : result WriteError nat * W :=
  match polls with
  | O => (Err WriterCancelled, w)
  | S polls =>
      match send_fragment (length fragment) fragment w with
      | (Err e, w) => (Err (WriteIo e), w)
      | (Ok [], w) => (Ok (S polls), w)
      | (Ok rest, w) => send_whole_fragment polls rest w
      end
  end.

(** [for fragment in data.chunks(size)]: a chunk per round. *)
Fixpoint send_chunks (rounds polls size : nat) (data : list Z) (w : W) : result WriteError nat * W :=
  match rounds, data with
  | _, [] => (Ok polls, w)
  | O, _ => (Err WriterCancelled, w)
  | S rounds, _ =>
      match send_whole_fragment polls (take size data) w with
      | (Err e, w) => (Err e, w)
      | (Ok polls, w) => send_chunks rounds polls size (drop size data) w
      end
  end.

Definition send_tcp_fragmented_fd (polls : nat) (fd : Z) (data : list Z) (size : nat) (w : W) : result WriteError nat * W :=
  if size =? 0 then (Err (WriteIo InvalidInput), w)
  else if bool_decide (data = []) then (Ok polls, w)
  else if (fd <? 0)%Z then (Err (WriteIo EBADF), w)
  else
    match fd_open w with
    | (Err e, w) => (Err (WriteIo e), w)
    | (Ok _, w) =>
        match guard_install size w with
        | (Err e, w) => (Err (WriteIo e), w)
        | (Ok guard, w) =>
            match send_chunks (length data) polls size data w with
            | (Err WriterCancelled, w) => (Err WriterCancelled, w)
            | (send_result, w) =>
                match guard_restore guard w, send_result with
                | (_, w), Err e => (Err e, w)
                | (Err e, w), Ok _ => (Err (WriteIo e), w)
                | (Ok _, w), Ok polls => (Ok polls, w)
                end
            end
        end
    end.

Context `{AsyncWrite W}.

Definition write_tls_response (polls : nat) (options : TlsResponseWriteOptions) (response : list Z) (w : W)
    : result WriteError nat * W :=
  match socket_fd options, fragment_size options with
  | Some fd, Some size => send_tcp_fragmented_fd polls fd response (Z.to_nat size) w
  | _, _ =>
      match write_all_client_or_cancel polls response w with
      | (Ok polls, w) => flush_client_or_cancel polls w
      | (Err e, w) => (Err e, w)
      end
  end.

End send.

(** * What the socket did *)

(** An answer of the socket: it went on, was not ready, or failed. *)
Inductive SocketAnswer := Went | Stalled | Failed (e : ErrorKind).

Definition stalls (trace : list SocketAnswer) : nat :=
  length (filter (fun a => match a with Stalled => true | _ => false end = true) trace).

Lemma stalls_app a b : stalls (a ++ b) = stalls a + stalls b.
Proof. unfold stalls. by rewrite list.filter_app, length_app. Qed.

Definition answer_of {A} (r : result ErrorKind A) : SocketAnswer := match r with Ok _ => Went | Err e => Failed e end.
Definition write_answer (p : IoPoll nat) : SocketAnswer :=
  match p with Pending => Stalled | Ready (Ok 0) => Failed WriteZero | Ready r => answer_of r end.
Definition flush_answer (p : IoPoll unit) : SocketAnswer := match p with Pending => Stalled | Ready r => answer_of r end.
Definition send_answer (r : SendResult) : SocketAnswer :=
  match r with SendBlocked | SendInterrupted => Stalled | SendFailed e => Failed e | Sent 0 => Failed WriteZero | Sent _ => Went end.

Section run.
Context {W : Type} `{AsyncWrite W} `{TcpFd W}.

Inductive socket_call : SocketAnswer -> W -> W -> Prop :=
  | call_write buf p w w' : poll_write buf w = (p, w') -> socket_call (write_answer p) w w'
  | call_flush p w w' : poll_flush w = (p, w') -> socket_call (flush_answer p) w w'
  | call_send data r w w' : fd_send data w = (r, w') -> socket_call (send_answer r) w w'
  | call_open r w w' : fd_open w = (r, w') -> socket_call (answer_of r) w w'
  | call_get r w w' : fd_get_maxseg w = (r, w') -> socket_call (answer_of r) w w'
  | call_set v r w w' : fd_set_maxseg v w = (r, w') -> socket_call (answer_of r) w w'
  | call_nodelay r w w' : fd_nodelay w = (r, w') -> socket_call (answer_of r) w w'.

(** Calls one after another, with their answers. *)
Inductive socket_trace : list SocketAnswer -> W -> W -> Prop :=
  | trace_nil w : socket_trace [] w w
  | trace_cons a l w w1 w' : socket_call a w w1 -> socket_trace l w1 w' -> socket_trace (a :: l) w w'.

Lemma trace_one a w w' : socket_call a w w' -> socket_trace [a] w w'.
Proof. intros Hc. econstructor; [exact Hc|constructor]. Qed.

Lemma trace_app a b w w1 w' : socket_trace a w w1 -> socket_trace b w1 w' -> socket_trace (a ++ b) w w'.
Proof. induction 1 as [|x l w w2 w3 Hc _ IH]; [done|]. intros Hb. econstructor; [exact Hc|by apply IH]. Qed.

(** The outcome of a write that may see [polls] stalls: done with [spare] of
    them, or waiting after them, or failed with an error of the socket. *)
Definition write_outcome (polls : nat) (res : result WriteError nat) (w w' : W) : Prop :=
  exists trace, socket_trace trace w w' /\
    match res with
    | Ok spare => polls <= spare + S (stalls trace)
    | Err WriterCancelled => polls <= stalls trace
    | Err (WriteIo e) => Failed e ∈ trace
    | Err _ => False
    end.

Lemma write_all_poll_trace n bytes w res w' :
  length bytes <= n -> write_all_poll n bytes w = (res, w') ->
  exists trace, socket_trace trace w w' /\
    match res with Ok [] => True | Ok _ => 1 <= stalls trace | Err e => Failed e ∈ trace end.
Proof.
  revert bytes w. induction n as [|n IH]; intros [|b bytes] w Hn; cbn [write_all_poll].
  - intros [= <- <-]. exists []. split; [constructor|done].
  - cbn in Hn. lia.
  - intros [= <- <-]. exists []. split; [constructor|done].
  - destruct (poll_write (b :: bytes) w) as [p w1] eqn:Hp. pose proof (trace_one _ _ _ (call_write _ _ _ _ Hp)) as Hc.
    destruct p as [|[[|k]|e]]; try (intros [= <- <-]; eexists; split; [exact Hc|]; (exact (Nat.le_refl 1) || apply list_elem_of_here)).
    intros Hrun. apply IH in Hrun as (trace & Ht & Hres); [|rewrite length_drop; cbn [length] in *; lia].
    eexists. split; [by eapply trace_app|]. rewrite stalls_app. destruct res as [[|? ?]|e]; [done|lia|].
    apply elem_of_app. by right.
Qed.

Lemma write_all_outcome polls bytes w res w' :
  write_all_client_or_cancel polls bytes w = (res, w') -> write_outcome polls res w w'.
Proof.
  revert bytes w. induction polls as [|polls IH]; intros bytes w; cbn [write_all_client_or_cancel].
  { intros [= <- <-]. exists []. split; [constructor|cbn; lia]. }
  destruct (write_all_poll (length bytes) bytes w) as [r w1] eqn:Hp.
  apply write_all_poll_trace in Hp as (trace & Ht & Hr); [|lia]. destruct r as [[|b rest]|e].
  - intros [= <- <-]. exists trace. split; [done|lia].
  - intros Hrun. apply IH in Hrun as (trace2 & Ht2 & Hr2). exists (trace ++ trace2). split; [by eapply trace_app|].
    rewrite stalls_app. destruct res as [spare|[| | | |]]; try done; [lia|lia|]. apply elem_of_app. by right.
  - intros [= <- <-]. by exists trace.
Qed.

Lemma flush_outcome polls w res w' :
  flush_client_or_cancel polls w = (res, w') -> write_outcome polls res w w'.
Proof.
  revert w. induction polls as [|polls IH]; intros w; cbn [flush_client_or_cancel].
  { intros [= <- <-]. exists []. split; [constructor|cbn; lia]. }
  destruct (poll_flush w) as [p w1] eqn:Hp. pose proof (trace_one _ _ _ (call_flush _ _ _ Hp)) as Hc.
  destruct p as [|[u|e]].
  - intros Hrun. apply IH in Hrun as (trace & Ht & Hr). eexists. split; [by eapply trace_app|]. rewrite stalls_app.
    change (stalls [flush_answer Pending]) with 1. destruct res as [spare|[| | | |]]; try done; [lia|lia|]. apply elem_of_app. by right.
  - intros [= <- <-]. eexists. split; [exact Hc|]. lia.
  - intros [= <- <-]. eexists. split; [exact Hc|]. apply list_elem_of_here.
Qed.

Lemma send_fragment_trace n fragment w res w' :
  length fragment <= n -> send_fragment n fragment w = (res, w') ->
  exists trace, socket_trace trace w w' /\
    match res with Ok [] => True | Ok _ => 1 <= stalls trace | Err e => Failed e ∈ trace end.
Proof.
  revert fragment w. induction n as [|n IH]; intros [|b bytes] w Hn; cbn [send_fragment].
  - intros [= <- <-]. exists []. split; [constructor|done].
  - cbn in Hn. lia.
  - intros [= <- <-]. exists []. split; [constructor|done].
  - destruct (fd_send (b :: bytes) w) as [r w1] eqn:Hp. pose proof (trace_one _ _ _ (call_send _ _ _ _ Hp)) as Hc.
    destruct r as [| |e|[|k]]; try (intros [= <- <-]; eexists; split; [exact Hc|]; (exact (Nat.le_refl 1) || apply list_elem_of_here)).
    destruct (fd_nodelay w1) as [d w2] eqn:Hd. pose proof (trace_app _ _ _ _ _ Hc (trace_one _ _ _ (call_nodelay _ _ _ Hd))) as Hc2.
    destruct d as [u|e]; [|intros [= <- <-]; eexists; split; [exact Hc2|]; apply elem_of_app; right; apply list_elem_of_here].
    intros Hrun. apply IH in Hrun as (trace & Ht & Hres); [|rewrite length_drop; cbn [length] in *; lia].
    eexists. split; [by eapply trace_app|]. rewrite stalls_app. destruct res as [[|? ?]|e]; [done|lia|].
    apply elem_of_app. by right.
Qed.

(** Of a fragment that is sent no stall is lost: the outcome is exact. *)
Definition send_outcome (polls : nat) (res : result WriteError nat) (w w' : W) : Prop :=
  exists trace, socket_trace trace w w' /\
    match res with
    | Ok spare => polls <= spare + stalls trace
    | Err WriterCancelled => polls <= stalls trace
    | Err (WriteIo e) => Failed e ∈ trace
    | Err _ => False
    end.

Lemma send_outcome_app polls spare res trace w w1 w' :
  socket_trace trace w w1 -> polls <= spare + stalls trace -> send_outcome spare res w1 w' -> send_outcome polls res w w'.
Proof.
  intros Ht Hl (trace2 & Ht2 & Hr). exists (trace ++ trace2). split; [by eapply trace_app|]. rewrite stalls_app.
  destruct res as [n|[| | | |]]; try done; [lia|lia|]. apply elem_of_app. by right.
Qed.

Lemma send_whole_outcome polls fragment w res w' :
  send_whole_fragment polls fragment w = (res, w') -> send_outcome polls res w w'.
Proof.
  revert fragment w. induction polls as [|polls IH]; intros fragment w; cbn [send_whole_fragment].
  { intros [= <- <-]. exists []. split; [constructor|cbn; lia]. }
  destruct (send_fragment (length fragment) fragment w) as [r w1] eqn:Hp.
  apply send_fragment_trace in Hp as (trace & Ht & Hr); [|lia]. destruct r as [[|b rest]|e].
  - intros [= <- <-]. exists trace. split; [done|lia].
  - intros Hrun. eapply send_outcome_app; [exact Ht| |by eapply IH]. lia.
  - intros [= <- <-]. by exists trace.
Qed.

Lemma send_chunks_outcome rounds polls size data w res w' :
  0 < size -> length data <= rounds -> send_chunks rounds polls size data w = (res, w') -> send_outcome polls res w w'.
Proof.
  intros Hs. revert polls data w. induction rounds as [|rounds IH]; intros polls [|b data] w Hn; cbn [send_chunks].
  - intros [= <- <-]. exists []. split; [constructor|cbn; lia].
  - cbn in Hn. lia.
  - intros [= <- <-]. exists []. split; [constructor|cbn; lia].
  - destruct (send_whole_fragment polls (take size (b :: data)) w) as [r w1] eqn:Hp. apply send_whole_outcome in Hp.
    destruct r as [spare|e]; [|by intros [= <- <-]]. destruct Hp as (trace & Ht & Hl). intros Hrun.
    eapply send_outcome_app; [exact Ht|exact Hl|]. apply IH in Hrun; [done|]. rewrite length_drop. cbn [length] in *. lia.
Qed.

(** An error of the socket or of its options; [InvalidInput] and [EBADF] come
    from the checks before any call. *)
Definition answered_by (polls : nat) (res : result WriteError nat) (w w' : W) : Prop :=
  exists trace, socket_trace trace w w' /\
    match res with
    | Ok _ => True
    | Err WriterCancelled => polls <= S (stalls trace)
    | Err (WriteIo e) => Failed e ∈ trace \/ e = InvalidInput \/ e = EBADF
    | Err _ => False
    end.

Lemma guard_restore_trace g w r w' :
  guard_restore g w = (r, w') -> exists trace, socket_trace trace w w' /\ match r with Ok _ => True | Err e => Failed e ∈ trace end.
Proof.
  unfold guard_restore. destruct (mg_changed g); [|intros [= <- <-]; exists []; split; [constructor|done]].
  destruct (fd_set_maxseg (mg_original g) w) as [x w1] eqn:Hx. pose proof (trace_one _ _ _ (call_set _ _ _ _ Hx)) as Hc.
  destruct x as [u|e]; intros [= <- <-]; [by eexists|]. destruct (fd_set_maxseg (mg_original g) w1) as [y w2] eqn:Hy.
  eexists. split; [eapply trace_app; [exact Hc|]; by eapply trace_one, call_set|]. apply elem_of_app. left. apply list_elem_of_here.
Qed.

Lemma guard_install_trace n w r w' :
  guard_install n w = (r, w') ->
  exists trace, socket_trace trace w w' /\ match r with Ok _ => True | Err e => Failed e ∈ trace \/ e = InvalidInput end.
Proof.
  unfold guard_install. destruct (_ <? _)%Z; [intros [= <- <-]; exists []; split; [constructor|by right]|].
  destruct (fd_get_maxseg w) as [x w1] eqn:Hx. pose proof (trace_one _ _ _ (call_get _ _ _ Hx)) as Hc.
  destruct x as [original|e]; [|intros [= <- <-]; eexists; split; [exact Hc|]; left; apply list_elem_of_here].
  destruct (_ <? _)%Z; [|intros [= <- <-]; by eexists].
  destruct (fd_set_maxseg (Z.of_nat n) w1) as [y w2] eqn:Hy.
  pose proof (trace_app _ _ _ _ _ Hc (trace_one _ _ _ (call_set _ _ _ _ Hy))) as Hc2.
  destruct y as [u|e]; intros [= <- <-]; [by eexists|]. eexists. split; [exact Hc2|]. left. apply elem_of_app. right. apply list_elem_of_here.
Qed.

Lemma send_fragmented_answered polls fd data size w res w' :
  send_tcp_fragmented_fd polls fd data size w = (res, w') -> answered_by polls res w w'.
Proof.
  unfold send_tcp_fragmented_fd. assert (forall e, e = InvalidInput \/ e = EBADF -> answered_by polls (Err (WriteIo e)) w w) as Hpre.
  { intros e He. exists []. split; [constructor|by right]. }
  destruct (Nat.eqb_spec size 0); [intros [= <- <-]; apply Hpre; by left|].
  destruct (bool_decide _); [intros [= <- <-]; exists []; split; [constructor|done]|].
  destruct (_ <? _)%Z; [intros [= <- <-]; apply Hpre; by right|].
  destruct (fd_open w) as [o w1] eqn:Ho. pose proof (trace_one _ _ _ (call_open _ _ _ Ho)) as Hc.
  destruct o as [u|e]; [|intros [= <- <-]; eexists; split; [exact Hc|]; left; apply list_elem_of_here].
  destruct (guard_install size w1) as [g w2] eqn:Hg. apply guard_install_trace in Hg as (tg & Htg & Hg).
  pose proof (trace_app _ _ _ _ _ Hc Htg) as Hc2.
  destruct g as [guard|e]; [|intros [= <- <-]; eexists; split; [exact Hc2|]; destruct Hg; [left; apply elem_of_app; by right|by right; left]].
  destruct (send_chunks (length data) polls size data w2) as [r w3] eqn:Hs.
  apply send_chunks_outcome in Hs as (ts & Hts & Hr); [|lia|lia]. pose proof (trace_app _ _ _ _ _ Hc2 Hts) as Hc3.
  destruct (guard_restore guard w3) as [x w4] eqn:Hx. apply guard_restore_trace in Hx as (tx & Htx & Hx).
  pose proof (trace_app _ _ _ _ _ Hc3 Htx) as Hc4.
  destruct r as [spare|[| | | |]]; try done.
  - destruct x as [u'|e]; intros [= <- <-]; (eexists; split; [exact Hc4|]); [done|]. left. apply elem_of_app. by right.
  - intros [= <- <-]. eexists. split; [exact Hc3|]. rewrite stalls_app. lia.
  - intros Hrun. assert (res = Err (WriteIo kind) /\ w' = w4) as [-> ->] by (by destruct x; simplify_eq).
    eexists. split; [exact Hc4|]. left. apply elem_of_app. left. apply elem_of_app. by right.
Qed.

Lemma write_tls_response_answered polls options response w res w' :
  write_tls_response polls options response w = (res, w') -> answered_by polls res w w'.
Proof.
  unfold write_tls_response.
  assert (match write_all_client_or_cancel polls response w with
    | (Ok polls, w) => flush_client_or_cancel polls w | (Err e, w) => (Err e, w) end = (res, w') -> answered_by polls res w w') as Hplain.
  { destruct (write_all_client_or_cancel polls response w) as [r w1] eqn:Hp. apply write_all_outcome in Hp as (trace & Ht & Hr).
    destruct r as [spare|e]; [|intros [= <- <-]; exists trace; split; [done|]; destruct e; try done; [lia|by left]].
    intros Hf. apply flush_outcome in Hf as (trace2 & Ht2 & Hr2). exists (trace ++ trace2). split; [by eapply trace_app|].
    rewrite stalls_app. destruct res as [n|[| | | |]]; try done; [lia|]. left. apply elem_of_app. by right. }
  destruct (socket_fd options); [|done]. destruct (fragment_size options); [|done]. apply send_fragmented_answered.
Qed.

End run.

(** * What is on the wire *)

Section wire.
Context {W : Type} `{AsyncWrite W} `{TcpFd W} (spec : WriterSpec W) (fds : TcpFdSpec W spec).

Definition same_wire (w w' : W) : Prop :=
  writer_ok spec w' /\ accepted spec w' = accepted spec w /\ (settled spec w -> settled spec w').

Lemma same_wire_trans w w1 w' : same_wire w w1 -> same_wire w1 w' -> same_wire w w'.
Proof. intros (? & ? & ?) (? & ? & ?). split; [done|]. split; [congruence|auto]. Qed.

(** [sent] went out between the two states. *)
Definition wire_app (sent : list Z) (w w' : W) : Prop :=
  writer_ok spec w' /\ accepted spec w' = accepted spec w ++ sent /\ (settled spec w -> settled spec w').

Lemma wire_app_trans a b w w1 w' : wire_app a w w1 -> wire_app b w1 w' -> wire_app (a ++ b) w w'.
Proof. intros (? & Ha & ?) (? & Hb & ?). split; [done|]. split; [rewrite Hb, Ha; by rewrite (assoc_L (++))|auto]. Qed.

Lemma same_wire_app w w' : same_wire w w' <-> wire_app [] w w'.
Proof. unfold same_wire, wire_app. by rewrite app_nil_r. Qed.

Lemma send_fragment_wire n fragment w rest w' :
  writer_ok spec w -> send_fragment n fragment w = (Ok rest, w') ->
  exists sent, fragment = sent ++ rest /\ wire_app sent w w'.
Proof.
  revert fragment w. induction n as [|n IH]; intros [|b bytes] w Hw; cbn [send_fragment];
    try (intros [= <- <-]; exists []; split; [done|]; by apply same_wire_app).
  destruct (fd_send (b :: bytes) w) as [r w1] eqn:Hp. pose proof (fd_send_spec fds _ _ _ _ Hw Hp) as (Hw1 & Hset & Hs).
  destruct r as [| |e|[|k]]; try done; try (intros [= <- <-]; exists []; split; [done|]; by apply same_wire_app).
  destruct Hs as [Hk Ha]. destruct (fd_nodelay w1) as [d w2] eqn:Hd. pose proof (fd_nodelay_spec fds _ _ _ Hw1 Hd) as Hsame.
  destruct d as [u|e]; [|done]. intros Hrun. apply IH in Hrun as (sent & Hrest & Hwire); [|apply Hsame].
  exists (take (S k) (b :: bytes) ++ sent). rewrite <- (assoc_L (++)), <- Hrest, take_drop. split; [done|].
  eapply wire_app_trans; [by split|]. change sent with ([] ++ sent). eapply wire_app_trans; [by apply same_wire_app|done].
Qed.

Lemma send_whole_wire polls fragment w spare w' :
  writer_ok spec w -> send_whole_fragment polls fragment w = (Ok spare, w') -> wire_app fragment w w'.
Proof.
  revert fragment w. induction polls as [|polls IH]; intros fragment w Hw; cbn [send_whole_fragment]; [done|].
  destruct (send_fragment (length fragment) fragment w) as [r w1] eqn:Hp. destruct r as [rest|]; [|done].
  apply send_fragment_wire in Hp as (sent & -> & Hwire); [|done]. destruct rest as [|b rest].
  - intros [= <- <-]. by rewrite app_nil_r.
  - intros Hrun. apply IH in Hrun; [|apply Hwire]. by eapply wire_app_trans.
Qed.

Lemma send_chunks_wire rounds polls size data w spare w' :
  writer_ok spec w -> send_chunks rounds polls size data w = (Ok spare, w') -> wire_app data w w'.
Proof.
  revert polls data w. induction rounds as [|rounds IH]; intros polls [|b data] w Hw; cbn [send_chunks]; try done;
    try (intros [= <- <-]; by apply same_wire_app).
  destruct (send_whole_fragment polls (take size (b :: data)) w) as [r w1] eqn:Hp. destruct r as [l|]; [|done].
  apply send_whole_wire in Hp; [|done]. intros Hrun. apply IH in Hrun; [|apply Hp].
  rewrite <- (take_drop size (b :: data)). by eapply wire_app_trans.
Qed.

Lemma guard_install_wire n w g w' : writer_ok spec w -> guard_install n w = (Ok g, w') -> same_wire w w'.
Proof.
  intros Hw. unfold guard_install. destruct (_ <? _)%Z; [done|]. destruct (fd_get_maxseg w) as [x w1] eqn:Hx.
  pose proof (fd_get_spec fds _ _ _ Hw Hx) as Hs. destruct x as [original|e]; [|done]. destruct (_ <? _)%Z; [|by intros [= <- <-]].
  destruct (fd_set_maxseg (Z.of_nat n) w1) as [y w2] eqn:Hy. pose proof (fd_set_spec fds _ _ _ _ (proj1 Hs) Hy) as Hs2.
  destruct y as [u|e]; intros [= <- <-]. by eapply same_wire_trans.
Qed.

Lemma guard_restore_wire g w u w' : writer_ok spec w -> guard_restore g w = (Ok u, w') -> same_wire w w'.
Proof.
  intros Hw. unfold guard_restore. destruct (mg_changed g); [|by intros [= <- <-]].
  destruct (fd_set_maxseg (mg_original g) w) as [x w1] eqn:Hx. pose proof (fd_set_spec fds _ _ _ _ Hw Hx) as Hs.
  destruct x; intros [= <- <-]. done.
Qed.

Lemma flush_reaches polls w spare w' :
  writer_ok spec w -> flush_client_or_cancel polls w = (Ok spare, w') ->
  writer_ok spec w' /\ accepted spec w' = accepted spec w /\ settled spec w'.
Proof.
  revert w. induction polls as [|polls IH]; intros w Hw; cbn [flush_client_or_cancel]; [done|].
  destruct (poll_flush w) as [p w1] eqn:Hp. pose proof (poll_flush_spec spec _ _ _ Hw Hp) as Hs.
  destruct p as [|[u|e]]; [|by intros [= <- <-]|done]. destruct Hs as [Hw1 Ha]. intros Hrun. apply IH in Hrun; [|done]. by rewrite <- Ha.
Qed.

(** A finished answer is on the wire in full. *)
Lemma write_tls_response_wire polls options response w spare w' :
  writer_ok spec w -> settled spec w -> write_tls_response polls options response w = (Ok spare, w') ->
  writer_ok spec w' /\ accepted spec w' = accepted spec w ++ response /\ settled spec w'.
Proof.
  intros Hw Hset. unfold write_tls_response.
  assert (match write_all_client_or_cancel polls response w with
    | (Ok polls, w) => flush_client_or_cancel polls w | (Err e, w) => (Err e, w) end = (Ok spare, w') ->
    writer_ok spec w' /\ accepted spec w' = accepted spec w ++ response /\ settled spec w') as Hplain.
  { destruct (write_all_client_or_cancel polls response w) as [r w1] eqn:Hp. pose proof (write_all_spec spec _ _ _ _ _ Hw Hp) as Hs.
    destruct r as [n|e]; [|done]. destruct Hs as [Hw1 Ha]. intros Hf. apply flush_reaches in Hf as (? & Hacc & ?); [|done].
    by rewrite Hacc, Ha. }
  destruct (socket_fd options) as [fd|]; [|done]. destruct (fragment_size options) as [size|]; [|done].
  unfold send_tcp_fragmented_fd. destruct (_ =? 0); [done|].
  case_bool_decide as Hnil; [intros [= <- <-]; subst; by rewrite app_nil_r|]. destruct (_ <? _)%Z; [done|].
  destruct (fd_open w) as [o w1] eqn:Ho. pose proof (fd_open_spec fds _ _ _ Hw Ho) as Hs1. destruct o as [u|e]; [|done].
  destruct (guard_install (Z.to_nat size) w1) as [g w2] eqn:Hg. destruct g as [guard|e]; [|done].
  apply guard_install_wire in Hg; [|apply Hs1]. destruct (send_chunks _ _ _ _ w2) as [r w3] eqn:Hs.
  destruct r as [l|[| | | |]]; try (by destruct (guard_restore guard w3) as [[] ?]). apply send_chunks_wire in Hs; [|apply Hg].
  destruct (guard_restore guard w3) as [x w4] eqn:Hx. destruct x as [u'|e]; [|done]. apply guard_restore_wire in Hx; [|apply Hs].
  intros [= _ <-]. assert (wire_app ([] ++ [] ++ response ++ []) w w4) as (? & Hacc & Hse).
  { eapply wire_app_trans; [by apply same_wire_app|]. eapply wire_app_trans; [by apply same_wire_app|].
    eapply wire_app_trans; [done|by apply same_wire_app]. }
  cbn [app] in Hacc. rewrite app_nil_r in Hacc. auto.
Qed.

End wire.
