(* ===== verification/TlsAuth.v ===== *)
(** Authentication of a client behind the TLS front
    ([proxy/handshake/tls_auth.rs], [proxy/handshake/tls_validation.rs],
    [proxy/handshake/tls_handshake.rs]): the policy on names and protocols, the
    search for the user, the replay check and the answer, which is the generic
    one or, with a front cache, that of the imitated site.

    [polls] bounds how often the socket may answer that it is not ready. *)

From stdpp Require Import base list gmap numbers.
From S2P Require Import Net TrafficLimiter Limiter Prelude Aes Random RpcWire Tls TlsServer Replay AuthProbe Stream TlsStream CryptoStream ClientWrite AuthScan Obfuscation MtprotoAuth TlsEmulator TlsResponse.
Local Open Scope nat_scope.

Definition TLS_DIGEST_HALF_LEN : nat := 16.
Definition TLS_ALERT_UNRECOGNIZED_NAME : list Z := [0x15; 0x03; 0x03; 0x00; 0x02; 0x02; 0x70]%Z.

(** * One secret *)

Record ParsedTlsAuthMaterial := mkParsed {
  pm_digest : list Z;
  pm_session_id : list Z;
  pm_session_id_len : nat;
  pm_now : Z;
  pm_ignore_time_skew : bool;
  pm_boot_time_cap_secs : Z;
}.

Record TlsCandidateValidation := mkTlsCandidate {
  tc_digest : list Z;
  tc_session_id : list Z;
  tc_session_id_len : nat;
}.

Definition parse_tls_auth_material (clock : option Z) (handshake : list Z) (ignore_time_skew : bool)
    (replay_window_secs : Z) : option ParsedTlsAuthMaterial :=
  if length handshake <? TLS_DIGEST_POS + TLS_DIGEST_LEN + 1 then None
  else
    let digest := sub TLS_DIGEST_POS TLS_DIGEST_LEN handshake in
    let session_id_len_pos := TLS_DIGEST_POS + TLS_DIGEST_LEN in
    match handshake !! session_id_len_pos with
    | None => None
    | Some b =>
        let session_id_len := Z.to_nat b in
        if 32 <? session_id_len then None
        else
          let session_id_start := session_id_len_pos + 1 in
          if length handshake <? session_id_start + session_id_len then None
          else
            let session_id := sub session_id_start session_id_len handshake ++ replicate (32 - session_id_len) 0%Z in
            match (if negb ignore_time_skew then system_time_to_unix_secs clock else Some 0%Z) with
            | None => None
            | Some now =>
                Some (mkParsed digest session_id session_id_len now ignore_time_skew
                        (boot_time_cap ignore_time_skew replay_window_secs))
            end
    end.

Section candidate.
Context `{HmacSha256}.

Definition compute_tls_hmac_zeroed_digest (secret handshake : list Z) : list Z :=
  sha256_hmac secret
    (take TLS_DIGEST_POS handshake ++ replicate TLS_DIGEST_LEN 0%Z ++ drop (TLS_DIGEST_POS + TLS_DIGEST_LEN) handshake).

Definition validate_tls_secret_candidate (parsed : ParsedTlsAuthMaterial) (handshake secret : list Z)
    : option TlsCandidateValidation :=
  let computed := compute_tls_hmac_zeroed_digest secret handshake in
  if negb (bool_decide (take 28 (pm_digest parsed) = take 28 computed)) then None
  else
    let timestamp := of_le (xor_bytes (sub 28 4 (pm_digest parsed)) (sub 28 4 computed)) in
    let accepted := mkTlsCandidate (pm_digest parsed) (pm_session_id parsed) (pm_session_id_len parsed) in
    if negb (pm_ignore_time_skew parsed) then
      let is_boot_time := ((0 <? pm_boot_time_cap_secs parsed) && (timestamp <? pm_boot_time_cap_secs parsed))%Z in
      if negb is_boot_time then
        let time_diff := (pm_now parsed - timestamp)%Z in
        if negb ((TIME_SKEW_MIN <=? time_diff) && (time_diff <=? TIME_SKEW_MAX))%Z then None else Some accepted
      else Some accepted
    else Some accepted.

End candidate.

(** * The search *)

Record TlsClientValidation := mkTlsClient {
  tcv_digest : list Z;
  tcv_session_id : list Z;
  tcv_session_id_len : nat;
  tcv_user : list Z;
  tcv_secret : list Z;
  tcv_user_id : option Z;
}.

Section validation.
Context {N : Type} `{IpNetwork N}.
Context `{HmacSha256} `{Hashing} `{HexDecode}.
Context (iter : gmap IpAddr AuthProbeState -> list (IpAddr * AuthProbeState)) (eviction_hash : IpAddr -> Z -> Z).

(** The deny list, after either branch. *)
Definition tls_deny (peer : SocketAddr) (cfg : HsConfig N) (t : Instants) (v : TlsClientValidation) (s : AuthState)
    : option TlsClientValidation * bool * AuthState :=
  if is_user_source_ip_denied cfg (tcv_user v) (sa_ip peer) then
    (None, true, record_failure iter eviction_hash (sa_ip peer) (at_failure t) s)
  else (Some v, false, s).

(** [None] on the outside is a panic of the parser. *)
Definition validate_tls_client (handshake : list Z) (peer : SocketAddr) (cfg : HsConfig N) (clock : option Z)
    (t : Instants) (preferred_user_hint client_sni : option (list Z)) (s : AuthState)
    : option (option TlsClientValidation * bool * AuthState) :=
  let ip := sa_ip peer in
  let fail s := (None, true, record_failure iter eviction_hash ip (at_failure t) s) in
  match cfg_runtime_user_auth cfg with
  | Some snapshot =>
      match parse_tls_auth_material clock handshake (cfg_ignore_time_skew cfg) (cfg_replay_window_secs cfg) with
      | None => Some (fail s)
      | Some parsed =>
          let sticky_ip_hint := sticky_hint_get_by_ip ip s in
          let preferred_user_id := preferred_user_hint ≫= (fun user => user_id_by_name user snapshot) in
          let sticky_sni_hint := client_sni ≫= (fun sni => sticky_hint_get_by_sni sni s) in
          let sticky_prefix_hint := sticky_hint_get_by_ip_prefix ip s in
          let sni_ids := client_sni ≫= (fun sni => sni_candidates sni snapshot) in
          let sni_initial_ids := client_sni ≫= (fun sni => sni_initial_candidates sni snapshot) in
          let nonempty (o : option (list Z)) := match o with Some (_ :: _) => true | _ => false end in
          let has_hint := bool_decide (is_Some sticky_ip_hint) || bool_decide (is_Some preferred_user_id)
            || bool_decide (is_Some sticky_sni_hint) || bool_decide (is_Some sticky_prefix_hint)
            || nonempty sni_ids || nonempty sni_initial_ids in
          let '(overload, p) := auth_probe_saturation_is_throttled_in (at_scan t) (probe s) in
          let s := with_probe (fun _ => p) s in
          let candidate_budget := budget_for_validation (length (entries snapshot)) overload has_hint in
          let '(_, scan) := tls_scan (validate_tls_secret_candidate parsed handshake) snapshot candidate_budget
            sticky_ip_hint preferred_user_id sticky_sni_hint sticky_prefix_hint sni_ids sni_initial_ids (recent_users s) in
          let s := count_checks (validation_checks scan) (budget_exhausted scan) s in
          match matched scan with
          | None =>
              Some (fail (with_probe (auth_probe_note_expensive_invalid_scan_in (at_failure t)
                (Z.of_nat (validation_checks scan)) overload) s))
          | Some (user_id, entry, c) =>
              Some (tls_deny peer cfg t (mkTlsClient (tc_digest c) (tc_session_id c) (tc_session_id_len c)
                (ue_user entry) (ue_secret entry) (Some user_id)) s)
          end
      end
  | None =>
      let '(secrets, s) := decode_user_secrets_in (cfg_users cfg) preferred_user_hint s in
      match validate_tls_handshake_with_replay_window clock handshake secrets (cfg_ignore_time_skew cfg)
              (cfg_replay_window_secs cfg) with
      | Reject => Some (fail s)
      | Got v =>
          match user_secret_hex secrets (tv_user v) with
          | Some secret =>
              if negb (length secret =? ACCESS_SECRET_BYTES) then Some (None, true, s)
              else if 32 <? length (tv_session_id v) then Some (None, true, s)
              else
                Some (tls_deny peer cfg t (mkTlsClient (tv_digest v)
                  (tv_session_id v ++ replicate (32 - length (tv_session_id v)) 0%Z) (length (tv_session_id v))
                  (tv_user v) secret None) s)
          | None => Some (None, true, s)
          end
      | _ => None
      end
  end.

End validation.

(** * The handler *)

(** [str::eq_ignore_ascii_case]. *)
Definition eq_ignore_ascii_case (a b : list Z) : bool :=
  bool_decide (to_ascii_lowercase <$> a = to_ascii_lowercase <$> b).

Definition find_matching_tls_domain {N} (cfg : HsConfig N) (sni : list Z) : option (list Z) :=
  if eq_ignore_ascii_case (cfg_tls_domain cfg) sni then Some (cfg_tls_domain cfg)
  else head (filter (fun domain => eq_ignore_ascii_case domain sni = true) (cfg_tls_domains cfg)).

Definition ALPN_H2 : list Z := [0x68; 0x32]%Z.
Definition ALPN_HTTP11 : list Z := [0x68; 0x74; 0x74; 0x70; 0x2f; 0x31; 0x2e; 0x31]%Z.

(** [None] is the refusal of a list without a supported protocol. *)
Definition select_alpn (alpn_enforce : bool) (alpn_list : list (list Z)) : option (option (list Z)) :=
  if alpn_enforce then
    if bool_decide (ALPN_H2 ∈ alpn_list) then Some (Some ALPN_H2)
    else if bool_decide (ALPN_HTTP11 ∈ alpn_list) then Some (Some ALPN_HTTP11)
    else if negb (bool_decide (alpn_list = [])) then None
    else Some None
  else Some None.

Definition record_profile_of (p : TlsFingerprintProfile) : TlsRecordProfile :=
  match p with FpChrome => Chrome | FpFirefox => Firefox | FpCompat => Compat | FpLegacy => Legacy end.

Section handler.
Context {L : Type} `{LruCache L} (instant_min : Z) (hash : list Z -> Z).
Context {N : Type} `{IpNetwork N}.
Context {G : Type} `{StdRng G} `{StreamKey} `{HmacSha256} `{X25519Fn} `{Checksums} `{Hashing} `{HexDecode}.
Context (iter : gmap IpAddr AuthProbeState -> list (IpAddr * AuthProbeState)) (eviction_hash : IpAddr -> Z -> Z).
Context (ip_hash : IpAddr -> Z) {R W : Type} `{AsyncWrite W} `{TcpFd W}.

(** The instants a run reads besides those of [Instants]. *)
Record TlsInstants := mkTlsInstants { ti : Instants; at_warn : Z; at_add : Z; at_budget : Z; budget_epoch_secs : Z }.

(** How a run ends: with its result, whether it was delayed, the state it
    leaves, the stream and the cache; with a panic; or still waiting for the
    socket after the polls given. *)
Inductive TlsRun :=
  | TlsPanics
  | TlsWaiting (w : W)
  | TlsDone (res : HandshakeResult (FakeTlsReader R * FakeTlsWriter W * list Z)) (delayed : bool) (s : AuthState)
      (rc : ReplayChecker L) (rng : SecureRandomInner G) (w : W) (cache : option TlsFrontCache).

(** The unknown-name policy; [None] goes on. *)
Definition unknown_sni (polls : nat) (peer : SocketAddr) (cfg : HsConfig N) (t : TlsInstants) (s : AuthState)
    (rc : ReplayChecker L) (rng : SecureRandomInner G) (w : W) (cache : option TlsFrontCache) : option TlsRun :=
  match cfg_unknown_sni_action cfg with
  | SniAccept => None
  | action =>
      let s := record_failure iter eviction_hash (sa_ip peer) (at_failure (ti t)) s in
      let delayed := match action with SniRejectHandshake => false | _ => true end in
      let s := with_probe (fun p => (should_emit_unknown_sni_warn_in (at_warn t) p).2) s in
      match action with
      | SniRejectHandshake =>
          match write_all_client_or_cancel polls TLS_ALERT_UNRECOGNIZED_NAME w with
          | (Err WriterCancelled, w) => Some (TlsWaiting w)
          | (Err _, w) => Some (TlsDone (HsErr UnknownTlsSni) delayed s rc rng w cache)
          | (Ok polls, w) =>
              match flush_client_or_cancel polls w with
              | (Err WriterCancelled, w) => Some (TlsWaiting w)
              | (_, w) => Some (TlsDone (HsErr UnknownTlsSni) delayed s rc rng w cache)
              end
          end
      | SniDrop => Some (TlsDone (HsErr UnknownTlsSni) delayed s rc rng w cache)
      | _ => Some (TlsDone BadClient delayed s rc rng w cache)
      end
  end.

(** [cached_entry]: what the cache has of the name. *)
Definition cached_entry_of (cfg : HsConfig N) (matched_tls_domain : option (list Z)) (cache : option TlsFrontCache)
    : option CachedTlsData :=
  if cfg_tls_emulation cfg then
    match cache with
    | Some c => Some (cache_get (default (cfg_tls_domain cfg) matched_tls_domain) c)
    | None => None
    end
  else None.

Definition preferred_cipher_of (cached_entry : option CachedTlsData) : list Z :=
  match cached_entry with
  | Some entry =>
      let suite := psh_cipher_suite (server_hello_template entry) in
      if bool_decide (suite = (0, 0)%Z) then [0x13; 0x01]%Z else pair_bytes suite
  | None => [0x13; 0x01]%Z
  end.

(** [use_full_cert_payload], where there is an entry. *)
Definition full_cert_of (peer : SocketAddr) (cfg : HsConfig N) (t : TlsInstants) (version : ClientHelloTlsVersion)
    (cache : option TlsFrontCache) : bool * option TlsFrontCache :=
  if cfg_serverhello_compact cfg && match version with Tls12 => true | Tls13 => false end then
    match cache with
    | Some c =>
        let '(full, c) := take_full_cert_budget_for_ip ip_hash (sa_ip peer) (secs (cfg_tls_full_cert_ttl_secs cfg))
                            (at_budget t) (budget_epoch_secs t) c in
        (full, Some c)
    | None => (true, None)
    end
  else (true, cache).

(** The answer to a validated client, from the cache or the generic one. *)
Definition build_response (cfg : HsConfig N) (version : ClientHelloTlsVersion) (v : TlsClientValidation)
    (cached_entry : option CachedTlsData) (full : bool) (selected_cipher_suite : list Z)
    (server_key_share : ServerHelloKeyShare) (rng : SecureRandomInner G) : parse (list Z * SecureRandomInner G) :=
  let session_id := take (tcv_session_id_len v) (tcv_session_id v) in
  match cached_entry with
  | Some entry =>
      build_emulated_server_hello (tcv_secret v) (tcv_digest v) session_id entry full (cfg_serverhello_compact cfg) version
        selected_cipher_suite server_key_share (cfg_tls_new_session_tickets cfg) rng
  | None =>
      build_server_hello_with_cipher (tcv_secret v) (tcv_digest v) session_id (cfg_fake_cert_len cfg) selected_cipher_suite
        server_key_share (cfg_tls_new_session_tickets cfg) rng
  end.

(** What follows a validated client. *)
Definition tls_answer (polls : nat) (options : TlsResponseWriteOptions) (handshake : list Z) (reader : R)
    (peer : SocketAddr) (cfg : HsConfig N) (t : TlsInstants) (client_sni matched_tls_domain : option (list Z))
    (version : ClientHelloTlsVersion) (v : TlsClientValidation) (s : AuthState)
    (rc : ReplayChecker L) (rng : SecureRandomInner G) (w : W) (cache : option TlsFrontCache) : TlsRun :=
  let fail s rc rng := TlsDone BadClient true (record_failure iter eviction_hash (sa_ip peer) (at_failure (ti t)) s) rc rng w cache in
  let digest_half := take TLS_DIGEST_HALF_LEN (tcv_digest v) in
  match check_only_internal instant_min hash TlsDigest digest_half (at_replay (ti t)) rc with
  | None => TlsPanics
  | Some (true, rc) => fail s rc rng
  | Some (false, rc) =>
      let cached_entry := cached_entry_of cfg matched_tls_domain cache in
      match build_server_hello_key_share handshake (cached_entry ≫= profiled_server_hello_key_share_group) rng with
      | Reject => fail s rc rng
      | Got (server_key_share, rng) =>
          match select_server_hello_cipher_suite handshake (preferred_cipher_of cached_entry) with
          | Reject => fail s rc rng
          | Got selected_cipher_suite =>
              let '(full, cache) :=
                match cached_entry with Some _ => full_cert_of peer cfg t version cache | None => (true, cache) end in
              match add_only instant_min hash TlsDigest digest_half (at_add t) rc with
              | None => TlsPanics
              | Some rc =>
                  match build_response cfg version v cached_entry full selected_cipher_suite server_key_share rng with
                  | Got (response, rng) =>
                      match write_tls_response polls options response w with
                      | (Err WriterCancelled, w) => TlsWaiting w
                      | (Err (WriteIo e), w) => TlsDone (HsErr (HsIo e)) true s rc rng w cache
                      | (Err _, _) => TlsPanics
                      | (Ok _, w) =>
                          let s := with_probe (auth_probe_record_success_in (sa_ip peer)) s in
                          let s :=
                            match tcv_user_id v with
                            | Some user_id =>
                                record_recent_user_success_in user_id
                                  (sticky_hint_record_success_in (sa_ip peer) user_id client_sni s)
                            | None => s
                            end in
                          let record_profile :=
                            default Chrome (record_profile_of <$>
                              (matched_tls_domain ≫= (fun domain => cfg_tls_fingerprints cfg !! domain))) in
                          let '(jitter_seed_bytes, rng) := rand_bytes 8 rng in
                          TlsDone (Success (tls_reader_new reader,
                                            tls_writer_with_profile w record_profile (of_le jitter_seed_bytes),
                                            tcv_user v)) true s rc rng w cache
                      end
                  | _ => TlsPanics
                  end
              end
          | _ => TlsPanics
          end
      | _ => TlsPanics
      end
  end.

(** After the parsers: the policies on protocols and names, then the search. *)
Definition tls_policies (polls : nat) (options : TlsResponseWriteOptions) (handshake : list Z) (reader : R)
    (peer : SocketAddr) (cfg : HsConfig N) (clock : option Z) (t : TlsInstants) (client_sni : option (list Z))
    (alpn_list : list (list Z)) (version : ClientHelloTlsVersion) (s : AuthState)
    (rc : ReplayChecker L) (rng : SecureRandomInner G) (w : W) (cache : option TlsFrontCache) : TlsRun :=
  let preferred_user_hint :=
    client_sni ≫= (fun sni => if bool_decide (sni ∈ (cfg_users cfg).*1) then Some sni else None) in
  let matched_tls_domain := client_sni ≫= find_matching_tls_domain cfg in
  match select_alpn (cfg_alpn_enforce cfg) alpn_list with
  | None => TlsDone BadClient true s rc rng w cache
  | Some _ =>
      let unknown := bool_decide (is_Some client_sni) && negb (bool_decide (is_Some matched_tls_domain))
        && negb (bool_decide (is_Some preferred_user_hint)) in
      match (if unknown then unknown_sni polls peer cfg t s rc rng w cache else None) with
      | Some run => run
      | None =>
          match validate_tls_client iter eviction_hash handshake peer cfg clock (ti t) preferred_user_hint client_sni s with
          | None => TlsPanics
          | Some (None, delayed, s) => TlsDone BadClient delayed s rc rng w cache
          | Some (Some v, _, s) =>
              tls_answer polls options handshake reader peer cfg t client_sni matched_tls_domain version v s rc rng w cache
          end
      end
  end.

Definition handle_tls_handshake (polls : nat) (options : TlsResponseWriteOptions) (handshake : list Z) (reader : R)
    (peer : SocketAddr) (cfg : HsConfig N) (clock : option Z) (t : TlsInstants) (s : AuthState)
    (rc : ReplayChecker L) (rng : SecureRandomInner G) (w : W) (cache : option TlsFrontCache) : TlsRun :=
  let ip := sa_ip peer in
  let '(throttled, p) := auth_probe_should_apply_preauth_throttle_in ip (at_throttle (ti t)) (probe s) in
  let s := with_probe (fun _ => p) s in
  if (throttled : bool) then TlsDone BadClient true s rc rng w cache
  else if length handshake <? TLS_DIGEST_POS + TLS_DIGEST_LEN + 1 then
    TlsDone BadClient true (record_failure iter eviction_hash ip (at_failure (ti t)) s) rc rng w cache
  else
    match extract_sni_from_client_hello handshake,
          (if cfg_alpn_enforce cfg then extract_alpn_from_client_hello handshake else Reject),
          detect_client_hello_tls_version handshake with
    | Panic, _, _ | OutOfFuel, _, _ | _, Panic, _ | _, OutOfFuel, _ | _, _, Panic | _, _, OutOfFuel => TlsPanics
    | sni, alpn, version =>
        tls_policies polls options handshake reader peer cfg clock t
          (match sni with Got sni => Some sni | _ => None end) (match alpn with Got l => l | _ => [] end)
          (match version with Got v => v | _ => Tls13 end) s rc rng w cache
    end.

End handler.
