(* ===== verification/TlsAuthSpec.v ===== *)
(** What the authentication behind the TLS front promises: which clients the
    search accepts, in both of its forms, and what the handler's answer is. *)

From stdpp Require Import base list gmap numbers.
From S2P Require Import Net TrafficLimiter Limiter Prelude Aes Random RpcWire Tls TlsServer Replay AuthProbe Stream TlsStream CryptoStream ClientWrite AuthScan Obfuscation MtprotoAuth TlsAuth.
Local Open Scope nat_scope.

(** * Decoded secrets *)

Section decoded.
Context `{HexDecode}.

Definition well_formed (users : list (list Z * list Z)) (x : list Z * list Z) : Prop :=
  exists hx, (x.1, hx) ∈ users /\ hex_decode hx = Some x.2 /\ length x.2 = ACCESS_SECRET_BYTES.

Lemma warn_probe name reason s : probe (warn_invalid_secret_once_in name reason s) = probe s.
Proof. unfold warn_invalid_secret_once_in. by destruct (_ && _). Qed.

Lemma decode_user_secret_spec name hx s :
  let '(o, s') := decode_user_secret name hx s in
  probe s' = probe s /\ forall bytes, o = Some bytes <-> hex_decode hx = Some bytes /\ length bytes = ACCESS_SECRET_BYTES.
Proof.
  unfold decode_user_secret. destruct (hex_decode hx) as [bytes|].
  - destruct (Nat.eqb_spec (length bytes) ACCESS_SECRET_BYTES); (split; [done || apply warn_probe|]); intros b; split;
      try done; intros; destruct_and?; simplify_eq; try done.
  - split; [apply warn_probe|]. intros b. split; [done|]. by intros [? _].
Qed.

(** Every user but the preferred one, in order. *)
Lemma decode_loop_spec preferred users s :
  let '(secrets, s') := decode_loop preferred users s in
  probe s' = probe s /\
  secrets = omap (fun x => if bool_decide (preferred = Some x.1) then None
    else match hex_decode x.2 with
         | Some bytes => if length bytes =? ACCESS_SECRET_BYTES then Some (x.1, bytes) else None
         | None => None
         end) users.
Proof.
  revert s. induction users as [|[name hx] users IH]; intros s; cbn [decode_loop omap list_omap fst snd]; [done|].
  destruct (bool_decide (preferred = Some name)); [apply IH|].
  pose proof (decode_user_secret_spec name hx s) as Hd. unfold decode_user_secret in *.
  destruct (hex_decode hx) as [bytes|]; [destruct (length bytes =? ACCESS_SECRET_BYTES)|];
    match goal with |- context [decode_loop preferred users ?st] => specialize (IH st); destruct (decode_loop preferred users st) end;
    destruct IH as [Hp ->]; split; try done; by rewrite Hp, ?warn_probe.
Qed.

Lemma user_secret_hex_elem users name hx : user_secret_hex users name = Some hx -> (name, hx) ∈ users.
Proof.
  unfold user_secret_hex. intros ([n x] & Hh & Hx)%fmap_Some. cbn in *. subst.
  apply head_Some_elem_of, list_elem_of_filter in Hh as [Hn Hin]. cbn in Hn. by subst.
Qed.

Lemma decode_all_spec users preferred s :
  NoDup users.*1 ->
  let '(secrets, s') := decode_user_secrets_in users preferred s in
  probe s' = probe s /\ NoDup secrets.*1 /\ forall x, x ∈ secrets -> well_formed users x.
Proof.
  intros Hnd. unfold decode_user_secrets_in.
  assert (exists first s1, (match preferred with
    | Some preferred => match user_secret_hex users preferred with
        | Some secret_hex => let '(bytes, s) := decode_user_secret preferred secret_hex s in
            (match bytes with Some bytes => [(preferred, bytes)] | None => [] end, s)
        | None => ([], s) end
    | None => ([], s) end) = (first, s1) /\ probe s1 = probe s /\
    (first = [] \/ exists p bytes, first = [(p, bytes)] /\ preferred = Some p /\ well_formed users (p, bytes)))
    as (first & s1 & -> & Hp1 & Hfirst).
  { destruct preferred as [p|]; [|by eexists _, _; eauto].
    destruct (user_secret_hex users p) as [hx|] eqn:Hx; [|by eexists _, _; eauto].
    apply user_secret_hex_elem in Hx. pose proof (decode_user_secret_spec p hx s) as Hd.
    destruct (decode_user_secret p hx s) as [[bytes|] s1]; destruct Hd as [Hp Hb]; eexists _, _; (split; [done|]);
      (split; [done|]); [|by left].
    right. exists p, bytes. split_and!; try done. exists hx. split; [done|]. by apply Hb. }
  pose proof (decode_loop_spec preferred users s1) as Hl. destruct (decode_loop preferred users s1) as [rest s2].
  destruct Hl as [Hp2 ->]. set (f := fun x : list Z * list Z => _). split; [by rewrite Hp2|].
  assert (forall x, x ∈ omap f users -> preferred <> Some x.1 /\ well_formed users x) as Hrest.
  { intros x ([n hx] & Hin & Hf)%list_elem_of_omap. unfold f in Hf. cbn in Hf.
    destruct (bool_decide_reflect (preferred = Some n)); [done|].
    destruct (hex_decode hx) as [bytes|] eqn:Hd; [|done].
    destruct (Nat.eqb_spec (length bytes) ACCESS_SECRET_BYTES); [|done]. simplify_eq. split; [done|]. by exists hx. }
  split.
  - rewrite fmap_app. apply list.NoDup_app. split_and!.
    + destruct Hfirst as [->|(p & b & -> & _)]; cbn; [constructor|]. apply NoDup_singleton.
    + intros n Hn ([? b] & -> & Hin)%list_elem_of_fmap. cbn in *. destruct (Hrest _ Hin) as [Hne _].
      destruct Hfirst as [->|(p & b' & -> & Hp & _)]; [by apply not_elem_of_nil in Hn|].
      cbn in Hn. apply list_elem_of_singleton in Hn. subst. by destruct Hne.
    + clear -Hnd. induction users as [|x users IH]; cbn; [constructor|]. cbn in Hnd. apply list.NoDup_cons in Hnd as [Hx Hnd].
      specialize (IH Hnd). destruct (f x) as [y|] eqn:Hf; [|done]. cbn. constructor; [|done].
      intros (z & Hz & (x' & Hin & Hf')%list_elem_of_omap)%list_elem_of_fmap. apply Hx.
      assert (forall a b, f a = Some b -> b.1 = a.1) as Hname.
      { intros a b. unfold f. repeat case_match; intros; by simplify_eq. }
      rewrite <- (Hname _ _ Hf), Hz, (Hname _ _ Hf'). by apply list_elem_of_fmap_2.
  - intros x [Hin|Hin]%elem_of_app; [|by apply Hrest].
    destruct Hfirst as [->|(p & b & -> & _ & Hw)]; [by apply not_elem_of_nil in Hin|].
    apply list_elem_of_singleton in Hin. by subst.
Qed.

Lemma user_secret_hex_unique users name hx :
  NoDup users.*1 -> (name, hx) ∈ users -> user_secret_hex users name = Some hx.
Proof.
  intros Hnd Hin. unfold user_secret_hex. induction users as [|[n y] users IH]; [by apply not_elem_of_nil in Hin|].
  cbn in Hnd. apply list.NoDup_cons in Hnd as [Hn Hnd]. destruct (decide (n = name)) as [->|Hx].
  - rewrite filter_cons_True by done. cbn. apply elem_of_cons in Hin as [[= <-]|Hin]; [done|].
    destruct Hn. by apply (list_elem_of_fmap_2 fst) in Hin.
  - rewrite filter_cons_False by done. apply IH; [done|]. by apply elem_of_cons in Hin as [[= <- _]|Hin].
Qed.

(** No user is left out. *)
Lemma decode_complete users preferred s x :
  NoDup users.*1 -> well_formed users x -> x ∈ (decode_user_secrets_in users preferred s).1.
Proof.
  intros Hnd (hx & Hin & Hd & Hl). destruct x as [name bytes]. cbn in *. unfold decode_user_secrets_in.
  destruct (decide (preferred = Some name)) as [->|Hne].
  - rewrite (user_secret_hex_unique _ _ _ Hnd Hin).
    pose proof (decode_user_secret_spec name hx s) as Hs. destruct (decode_user_secret name hx s) as [o s1].
    destruct Hs as [_ Ho]. assert (o = Some bytes) as -> by (by apply Ho).
    destruct (decode_loop _ _ s1) as [rest s2]. cbn. apply list_elem_of_here.
  - match goal with |- context [let '(first, s) := ?m in _] => destruct m as [first s1] end.
    pose proof (decode_loop_spec preferred users s1) as Hs. destruct (decode_loop preferred users s1) as [rest s2].
    destruct Hs as [_ ->]. cbn [fst]. apply elem_of_app. right. apply list_elem_of_omap.
    exists (name, hx). split; [done|]. cbn. rewrite bool_decide_eq_false_2 by done.
    by rewrite Hd, (proj2 (Nat.eqb_eq _ _) Hl).
Qed.

End decoded.

(** * One secret *)

Section candidates.
Context `{HmacSha256Laws}.

(** The material the search works from, for a hello with session id [sid]. *)
Definition material (h sid : list Z) (now : Z) (ig : bool) (window : Z) : ParsedTlsAuthMaterial :=
  mkParsed (digest_of h) (sid ++ replicate (32 - length sid) 0%Z) (length sid) now ig (boot_time_cap ig window).

Definition clock_now (clock : option Z) (ig : bool) : option Z := if ig then Some 0%Z else system_time_to_unix_secs clock.

Lemma parse_material_spec clock h ig window pm :
  bytes_ok h ->
  parse_tls_auth_material clock h ig window = Some pm <->
  exists now sid, clock_now clock ig = Some now /\ hello_shape h sid /\ pm = material h sid now ig window.
Proof.
  intros Hok. unfold parse_tls_auth_material, hello_shape, clock_now, material.
  unfold TLS_DIGEST_POS, TLS_DIGEST_LEN. change (11 + 32 + 1) with 44. change (11 + 32) with 43.
  destruct (Nat.ltb_spec (length h) 44) as [Hl|Hl].
  { split; [done|]. intros (now & sid & _ & (n & _ & _ & ? & _) & _). lia. }
  destruct (lookup_lt_is_Some_2 h 43 ltac:(lia)) as [b Hb]. rewrite Hb.
  assert (is_byte b) as Bb by (by eapply Forall_lookup_1 in Hok). unfold is_byte in Bb.
  assert (forall n, Some b = Some (Z.of_nat n) -> n = Z.to_nat b) as Hn by (intros n [= ->]; lia).
  destruct (Nat.ltb_spec 32 (Z.to_nat b)) as [H32|H32].
  { split; [done|]. intros (now & sid & _ & (n & ->%Hn & ? & _) & _). lia. }
  destruct (Nat.ltb_spec (length h) (44 + Z.to_nat b)) as [Hs|Hs].
  { split; [done|]. intros (now & sid & _ & (n & ->%Hn & ? & ? & _) & _). lia. }
  assert (length (sub 44 (Z.to_nat b) h) = Z.to_nat b) as Hsl by (apply length_sub; lia).
  replace (if negb ig then system_time_to_unix_secs clock else Some 0%Z)
    with (if ig then Some 0%Z else system_time_to_unix_secs clock) by (by destruct ig).
  destruct (if ig then Some 0%Z else system_time_to_unix_secs clock) as [now|].
  2:{ split; [done|]. by intros (now & sid & ? & _). }
  split.
  - intros [= <-]. exists now, (sub 44 (Z.to_nat b) h). split; [done|].
    rewrite Hsl. split; [|done]. exists (Z.to_nat b). rewrite Z2Nat.id by lia. split_and!; try done; lia.
  - intros (now' & sid & [= <-] & (n & ->%Hn & _ & _ & ->) & ->). by rewrite Hsl.
Qed.

Lemma candidate_check h sid now ig window secret :
  length (digest_of h) = 32 ->
  validate_tls_secret_candidate (material h sid now ig window) h secret =
  match check_secret (zeroed h) (digest_of h) secret ig now (boot_time_cap ig window) with
  | Some _ => Some (mkTlsCandidate (digest_of h) (sid ++ replicate (32 - length sid) 0%Z) (length sid))
  | None => None
  end.
Proof.
  intros Hd. unfold validate_tls_secret_candidate, check_secret, compute_tls_hmac_zeroed_digest, material.
  cbn [pm_digest pm_session_id pm_session_id_len pm_now pm_ignore_time_skew pm_boot_time_cap_secs].
  fold (zeroed h). destruct (sha256_hmac_ok secret (zeroed h)) as [Hc _].
  assert (forall l, length l = 32 -> sub 28 4 l = drop 28 l) as Hsub.
  { intros l Hl. unfold sub. apply take_ge. rewrite length_drop. lia. }
  rewrite !Hsub by done. destruct (negb (bool_decide _)); [done|].
  destruct ig; cbn [negb]; [done|]. destruct (_ && _)%Z; cbn [negb]; [done|]. by destruct (_ && _)%Z.
Qed.

Lemma hello_digest_ok h sid : bytes_ok h -> hello_shape h sid -> length (digest_of h) = 32 /\ bytes_ok (digest_of h).
Proof.
  intros Hok (n & _ & _ & Hlen & _). unfold digest_of, TLS_DIGEST_POS, TLS_DIGEST_LEN.
  split; [apply length_sub; lia|]. unfold sub. by apply Forall_take, Forall_drop.
Qed.

(** A candidate is validated exactly when its secret signed the hello at an
    accepted time. *)
Lemma candidate_authentic h sid now ig window secret c :
  hello_shape h sid -> bytes_ok h ->
  validate_tls_secret_candidate (material h sid now ig window) h secret = Some c <->
  c = mkTlsCandidate (digest_of h) (sid ++ replicate (32 - length sid) 0%Z) (length sid) /\
  exists ts, authentic h secret ig now (boot_time_cap ig window) ts.
Proof.
  intros Hs Hok. destruct (hello_digest_ok h sid Hok Hs) as [Hl Hb].
  rewrite candidate_check by done.
  destruct (check_secret _ _ _ _ _ _) as [ts|] eqn:Hc.
  - apply check_secret_spec in Hc; [|done..]. split; [intros [= <-]; split; [done|]; by exists ts|]. by intros [-> _].
  - split; [done|]. intros [_ [ts Ha]]. apply (check_secret_spec _ _ _ _ _ _ _ Hl Hb) in Ha. congruence.
Qed.

Lemma check_secrets_none msg digest secrets ig now cap :
  check_secrets msg digest secrets ig now cap None = None ->
  Forall (fun p : list Z * list Z => check_secret msg digest p.2 ig now cap = None) secrets.
Proof.
  induction secrets as [|[u secret] secrets IH]; cbn [check_secrets]; [constructor|].
  destruct (check_secret msg digest secret ig now cap) as [ts|] eqn:Hc; [by rewrite check_secrets_found|].
  intros Hn. constructor; [done|by apply IH].
Qed.

Lemma hello_shape_dec h : bytes_ok h -> (exists sid, hello_shape h sid) \/ (forall sid, ~ hello_shape h sid).
Proof.
  intros Hok. destruct (parse_tls_auth_material None h true 0) as [pm|] eqn:Hp.
  - apply parse_material_spec in Hp as (now & sid & _ & Hs & _); [|done]. left. by exists sid.
  - right. intros sid Hs.
    assert (parse_tls_auth_material None h true 0 = Some (material h sid 0 true 0)) as Hx; [|congruence].
    apply parse_material_spec; [done|]. by exists 0%Z, sid.
Qed.

(** A hello is refused for its shape or because nobody signed it. *)
Lemma reject_reason h secrets ig now cap :
  bytes_ok h -> validate_tls_handshake_at_time_with_boot_cap h secrets ig now cap = Reject ->
  (forall sid, ~ hello_shape h sid) \/ Forall (fun p : list Z * list Z => forall ts, ~ authentic h p.2 ig now cap ts) secrets.
Proof.
  intros Hok Hrej.
  destruct (check_secrets (zeroed h) (digest_of h) secrets ig now cap None) as [[u ts]|] eqn:Hc.
  - left. intros sid Hs. pose proof (proj2 (validate_spec h secrets ig now cap (mkValidation u sid (digest_of h) ts) Hok)
      (conj Hs (conj eq_refl Hc))) as Hgot. congruence.
  - destruct (hello_shape_dec h Hok) as [[sid Hs]|Hs]; [right|by left].
    destruct (hello_digest_ok h sid Hok Hs) as [Hl Hb].
    apply check_secrets_none in Hc. eapply Forall_impl; [|exact Hc]. cbv beta. intros p Hp ts Ha.
    apply (check_secret_spec _ _ _ _ _ _ _ Hl Hb) in Ha. congruence.
Qed.

End candidates.

(** * The search *)

Section search.
Context {N : Type} `{IpNetwork N} `{HmacSha256Laws} `{Hashing} `{HexDecode}.
Context (iter : gmap IpAddr AuthProbeState -> list (IpAddr * AuthProbeState)) (eviction_hash : IpAddr -> Z -> Z).
Context (peer : SocketAddr) (cfg : HsConfig N) (clock : option Z) (t : Instants).

(** The users a configuration has, whichever way they are looked up. *)
Definition configured (user secret : list Z) : Prop :=
  match cfg_runtime_user_auth cfg with
  | Some snapshot => mkEntry user secret ∈ entries snapshot
  | None => well_formed (cfg_users cfg) (user, secret)
  end.

(** The secret signed the hello at a time accepted now. *)
Definition signed_by (h secret : list Z) : Prop :=
  exists now ts, clock_now clock (cfg_ignore_time_skew cfg) = Some now /\
    authentic h secret (cfg_ignore_time_skew cfg) now
      (boot_time_cap (cfg_ignore_time_skew cfg) (cfg_replay_window_secs cfg)) ts.

(** What a validation says of the hello. *)
Definition validates (h : list Z) (v : TlsClientValidation) : Prop :=
  hello_shape h (take (tcv_session_id_len v) (tcv_session_id v)) /\ tcv_digest v = digest_of h /\
  signed_by h (tcv_secret v) /\ configured (tcv_user v) (tcv_secret v).

Lemma take_session_id (sid : list Z) n : take (length sid) (sid ++ replicate n 0%Z) = sid.
Proof. apply take_app_length. Qed.

Lemma tls_deny_some v s v' d s' :
  tls_deny iter eviction_hash peer cfg t v s = (Some v', d, s') ->
  v' = v /\ d = false /\ s' = s /\ is_user_source_ip_denied cfg (tcv_user v) (sa_ip peer) = false.
Proof. unfold tls_deny. destruct (is_user_source_ip_denied _ _ _) eqn:Hd; intros; by simplify_eq. Qed.

(** Whatever the load: a validated client has the secret of a configured user
    that may connect from there. *)
Lemma validate_tls_client_sound h preferred sni s v d s' :
  bytes_ok h -> NoDup (cfg_users cfg).*1 ->
  validate_tls_client iter eviction_hash h peer cfg clock t preferred sni s = Some (Some v, d, s') ->
  validates h v /\ is_user_source_ip_denied cfg (tcv_user v) (sa_ip peer) = false /\
  auth_probe (probe s') = auth_probe (probe s).
Proof.
  intros Hok Hnd. unfold validate_tls_client, validates, signed_by, configured.
  destruct (cfg_runtime_user_auth cfg) as [snapshot|].
  - destruct (parse_tls_auth_material _ _ _ _) as [pm|] eqn:Hp; [|done].
    apply parse_material_spec in Hp as (now & sid & Hnow & Hshape & ->); [|done].
    set (h1 := sticky_hint_get_by_ip _ s). set (h2 := preferred ≫= _). set (h3 := sni ≫= _).
    set (h4 := sticky_hint_get_by_ip_prefix _ s). set (l1 := sni ≫= _). set (l2 := sni ≫= _).
    pose proof (saturation_query_table (at_scan t) (probe s)) as Hsat.
    destruct (auth_probe_saturation_is_throttled_in (at_scan t) (probe s)) as [ov p].
    set (s2 := with_probe _ s). set (bud := budget_for_validation _ _ _).
    set (validate := validate_tls_secret_candidate _ h).
    pose proof (try_loop_sound validate snapshot bud (order snapshot [h1; h2; h3; h4] [default [] l1; default [] l2; recent_users s2])
      scan_start (failed_start validate snapshot bud)) as Hsound.
    rewrite <- tls_scan_order in Hsound.
    destruct (tls_scan validate snapshot bud h1 h2 h3 h4 l1 l2 (recent_users s2)) as [hit scan].
    destruct Hsound as [_ Hsound]. destruct (matched scan) as [[[id entry] c]|]; [|done].
    destruct hit; [|by destruct Hsound]. destruct Hsound as [Hfm _]. symmetry in Hfm.
    apply first_match_member in Hfm as (_ & He & Hv).
    apply candidate_authentic in Hv as [-> [ts Ha]]; [|done|done].
    intros [= Hdeny]. apply tls_deny_some in Hdeny as (-> & -> & -> & Hden). cbn [tcv_digest tcv_session_id tcv_session_id_len
      tcv_user tcv_secret tc_digest tc_session_id tc_session_id_len] in *.
    rewrite take_session_id. split_and!; try done; [by exists now, ts|].
    unfold entry_by_id in He. destruct (id <? 0)%Z; [done|]. apply list_elem_of_lookup_2 in He. by destruct entry.
  - pose proof (decode_all_spec (cfg_users cfg) preferred s Hnd) as Hdec.
    destruct (decode_user_secrets_in (cfg_users cfg) preferred s) as [secrets s1]. destruct Hdec as (Hp & Hn & Hw).
    destruct (validate_tls_handshake_with_replay_window _ _ _ _ _) as [tv| | |] eqn:Hval; try done.
    unfold validate_tls_handshake_with_replay_window in Hval.
    destruct (if cfg_ignore_time_skew cfg then Some 0%Z else system_time_to_unix_secs clock) as [now|] eqn:Hnow; [|done].
    apply validate_spec in Hval as (Hshape & Hdig & Hcheck); [|done].
    apply check_secrets_spec in Hcheck as (pre & secret & post & -> & Hc & _).
    assert ((tv_user tv, secret) ∈ pre ++ (tv_user tv, secret) :: post) as Hin
      by (apply elem_of_app; right; apply list_elem_of_here).
    rewrite (user_secret_hex_unique _ _ _ Hn Hin).
    destruct (negb (length secret =? ACCESS_SECRET_BYTES)); [done|].
    destruct (32 <? length (tv_session_id tv)); [done|].
    intros [= Hdeny]. apply tls_deny_some in Hdeny as (-> & -> & -> & Hden).
    cbn [tcv_digest tcv_session_id tcv_session_id_len tcv_user tcv_secret] in *.
    rewrite take_session_id. split_and!; try done; [| |by rewrite Hp].
    + exists now. eexists. split; [done|]. apply check_secret_spec in Hc; [exact Hc|..]; by eapply hello_digest_ok.
    + by apply Hw.
Qed.

(** The names a hello suggests are few enough to be remembered. *)
Definition suggestions_fit (sni : option (list Z)) : Prop :=
  match cfg_runtime_user_auth cfg with
  | Some snapshot =>
      length (default [] (sni ≫= (fun sni => sni_candidates sni snapshot))) +
      length (default [] (sni ≫= (fun sni => sni_initial_candidates sni snapshot))) <= 28 /\
      (Z.of_nat (length (entries snapshot)) <= 2 ^ 32)%Z
  | None => True
  end.

Definition calm (s : AuthState) : Prop := (auth_probe_saturation_is_throttled_in (at_scan t) (probe s)).1 = false.

Lemma tls_order_exact {V} (validate : list Z -> option V) snapshot bud h1 h2 h3 h4 l1 l2 s :
  bud = length (entries snapshot) -> length (default [] l1) + length (default [] l2) <= 28 ->
  let '(_, scan) := tls_scan validate snapshot bud h1 h2 h3 h4 l1 l2 (recent_users s) in
  matched scan = first_match validate snapshot (order snapshot [h1; h2; h3; h4] [default [] l1; default [] l2; recent_users s]).
Proof.
  intros Hb Hfit. rewrite tls_scan_order. unfold order. rewrite (assoc_L (++)).
  set (pre := omap id _ ++ concat _).
  pose proof (try_loop_exact validate snapshot bud pre Hb) as Hex.
  destruct (try_loop _ _ _ _ _) as [hit scan]. apply Hex. unfold pre. rewrite length_app. cbn [concat].
  rewrite !length_app. cbn [length]. pose proof (recent_users_length s).
  assert (length (omap id [h1; h2; h3; h4]) <= 4) by (by destruct h1, h2, h3, h4; cbn; lia).
  unfold RECENT_USER_RING_SCAN_LIMIT, CANDIDATE_HINT_TRACK_CAP in *. lia.
Qed.

Lemma tls_deny_none v s d s' :
  tls_deny iter eviction_hash peer cfg t v s = (None, d, s') ->
  d = true /\ is_user_source_ip_denied cfg (tcv_user v) (sa_ip peer) = true.
Proof. unfold tls_deny. destruct (is_user_source_ip_denied _ _ _) eqn:Hd; intros; by simplify_eq. Qed.

(** In calm conditions a refusal has a reason. *)
Lemma validate_tls_client_refused h preferred sni s d s' :
  bytes_ok h -> NoDup (cfg_users cfg).*1 -> calm s -> suggestions_fit sni ->
  validate_tls_client iter eviction_hash h peer cfg clock t preferred sni s = Some (None, d, s') ->
  d = true /\
  ((forall sid, ~ hello_shape h sid) \/ (forall user secret, configured user secret -> ~ signed_by h secret) \/
   exists v, validates h v /\ is_user_source_ip_denied cfg (tcv_user v) (sa_ip peer) = true).
Proof.
  intros Hok Hnd Hcalm Hfit. unfold validate_tls_client, validates, configured, suggestions_fit, calm in *.
  destruct (cfg_runtime_user_auth cfg) as [snapshot|].
  - destruct (parse_tls_auth_material _ _ _ _) as [pm|] eqn:Hp.
    2:{ intros [= <- <-]. split; [done|].
        destruct (clock_now clock (cfg_ignore_time_skew cfg)) as [now|] eqn:Hnow.
        - left. intros sid Hs. assert (parse_tls_auth_material clock h (cfg_ignore_time_skew cfg) (cfg_replay_window_secs cfg) =
            Some (material h sid now (cfg_ignore_time_skew cfg) (cfg_replay_window_secs cfg))) as Hx; [|congruence].
          apply parse_material_spec; [done|]. by exists now, sid.
        - right; left. intros user secret _ (now & ts & ? & _). congruence. }
    apply parse_material_spec in Hp as (now & sid & Hnow & Hshape & ->); [|done].
    set (h1 := sticky_hint_get_by_ip _ s). set (h2 := preferred ≫= _). set (h3 := sni ≫= _).
    set (h4 := sticky_hint_get_by_ip_prefix _ s). set (l1 := sni ≫= (fun sni => sni_candidates sni snapshot)) in *.
    set (l2 := sni ≫= (fun sni => sni_initial_candidates sni snapshot)) in *.
    destruct (auth_probe_saturation_is_throttled_in (at_scan t) (probe s)) as [ov p]. cbn [fst] in Hcalm. subst ov.
    set (s2 := with_probe _ s). set (bud := budget_for_validation _ _ _).
    set (validate := validate_tls_secret_candidate _ h).
    assert (bud = length (entries snapshot)) as Hb.
    { unfold bud, budget_for_validation. destruct (Nat.eqb_spec (length (entries snapshot)) 0); [lia|done]. }
    destruct Hfit as [Hfit Hlen].
    pose proof (tls_order_exact validate snapshot bud h1 h2 h3 h4 l1 l2 s2 Hb Hfit) as Hexact.
    destruct (tls_scan validate snapshot bud h1 h2 h3 h4 l1 l2 (recent_users s2)) as [hit scan].
    rewrite Hexact. destruct (first_match _ _ _) as [[[id entry] c]|] eqn:Hf.
    + apply first_match_member in Hf as (_ & He & Hv).
      apply candidate_authentic in Hv as [-> [ts Ha]]; [|done|done].
      intros [= Hdeny]. apply tls_deny_none in Hdeny as [-> Hden]. split; [done|]. right; right.
      eexists. split; [|exact Hden]. cbn [tcv_digest tcv_session_id tcv_session_id_len
        tcv_user tcv_secret tc_digest tc_session_id tc_session_id_len] in *.
      rewrite take_session_id. split_and!; try done; [by exists now, ts|].
      unfold entry_by_id in He. destruct (id <? 0)%Z; [done|]. apply list_elem_of_lookup_2 in He. by destruct entry.
    + intros [= <- <-]. split; [done|]. right; left. unfold order in Hf. rewrite (assoc_L (++)) in Hf.
      apply first_match_none in Hf; [|done]. rewrite list.Forall_forall in Hf.
      intros user secret Hin (now' & ts & Hnow' & Ha). specialize (Hf _ Hin). cbn in Hf. simplify_eq.
      assert (validate secret = Some (mkTlsCandidate (digest_of h) (sid ++ replicate (32 - length sid) 0%Z) (length sid))) as Hx.
      { apply candidate_authentic; [done|done|]. split; [done|]. by exists ts. }
      congruence.
  - pose proof (decode_all_spec (cfg_users cfg) preferred s Hnd) as Hdec.
    pose proof (fun x => decode_complete (cfg_users cfg) preferred s x Hnd) as Hall.
    destruct (decode_user_secrets_in (cfg_users cfg) preferred s) as [secrets s1]. destruct Hdec as (Hp & Hn & Hw).
    destruct (clock_now clock (cfg_ignore_time_skew cfg)) as [now|] eqn:Hnow; unfold clock_now in Hnow;
      unfold validate_tls_handshake_with_replay_window; rewrite Hnow.
    2:{ intros [= <- <-]. split; [done|]. right; left. intros user secret _ (now & ts & Hnow' & _). unfold clock_now in Hnow'. congruence. }
    destruct (validate_tls_handshake_at_time_with_boot_cap _ _ _ _ _) as [tv| | |] eqn:Hval; try done.
    + apply validate_spec in Hval as (Hshape & Hdig & Hcheck); [|done].
      apply check_secrets_spec in Hcheck as (pre & secret & post & -> & Hc & _).
      assert ((tv_user tv, secret) ∈ pre ++ (tv_user tv, secret) :: post) as Hin
        by (apply elem_of_app; right; apply list_elem_of_here).
      rewrite (user_secret_hex_unique _ _ _ Hn Hin). destruct (Hw _ Hin) as (hx & Hhx & Hdx & Hl). cbn [fst snd] in *.
      rewrite Hl, Nat.eqb_refl. cbn [negb].
      assert (length (tv_session_id tv) <= 32) as Hsl.
      { destruct Hshape as (n & _ & Hn32 & Hlen & ->). rewrite length_sub; lia. }
      rewrite (proj2 (Nat.ltb_ge _ _) Hsl). intros [= Hdeny]. apply tls_deny_none in Hdeny as [-> Hden].
      split; [done|]. right; right. eexists. split; [|exact Hden]. cbn [tcv_digest tcv_session_id tcv_session_id_len tcv_user tcv_secret].
      rewrite take_session_id. split_and!; try done; [|by exists hx].
      exists now, (tv_timestamp tv). split; [done|]. apply check_secret_spec in Hc; [exact Hc|..]; by eapply hello_digest_ok.
    + intros [= <- <-]. split; [done|]. destruct (reject_reason h secrets _ now _ Hok Hval) as [Hs|Hnone]; [by left|].
      right; left. intros user secret Hconf (now' & ts & Hnow' & Ha). unfold clock_now in Hnow'. simplify_eq.
      rewrite list.Forall_forall in Hnone. by apply (Hnone (user, secret) (Hall _ Hconf) ts).
Qed.

End search.

(** * The two ways of looking users up *)

Section lookups.
Context {N : Type} `{IpNetwork N} `{HmacSha256Laws} `{Hashing} `{HexDecode}.
Context (iter : gmap IpAddr AuthProbeState -> list (IpAddr * AuthProbeState)) (eviction_hash : IpAddr -> Z -> Z).
Context (peer : SocketAddr) (cfg : HsConfig N) (clock : option Z) (t : Instants).

(** The same configuration, with a snapshot or without. *)
Definition with_snapshot (o : option UserAuthSnapshot) : HsConfig N :=
  mkHsConfig N (cfg_users cfg) o (cfg_user_source_deny cfg) (cfg_ignore_time_skew cfg) (cfg_replay_window_secs cfg) (cfg_modes cfg)
    (cfg_crypto_pending_buffer cfg) (cfg_tls_domain cfg) (cfg_tls_domains cfg) (cfg_alpn_enforce cfg) (cfg_unknown_sni_action cfg)
    (cfg_fake_cert_len cfg) (cfg_tls_new_session_tickets cfg) (cfg_tls_fingerprints cfg) (cfg_tls_emulation cfg)
    (cfg_serverhello_compact cfg) (cfg_tls_full_cert_ttl_secs cfg).

(** The snapshot is none, or the one made of the users. *)
Definition snapshot_current (o : option UserAuthSnapshot) : Prop :=
  forall snapshot, o = Some snapshot -> from_users (cfg_users cfg) = Ok snapshot.

Lemma configured_current o user secret :
  NoDup (cfg_users cfg).*1 -> snapshot_current o ->
  configured (with_snapshot o) user secret <-> well_formed (cfg_users cfg) (user, secret).
Proof.
  intros Hnd Hcur. unfold configured, with_snapshot. cbn. destruct o as [snapshot|]; [|done].
  pose proof (from_users_spec (cfg_users cfg) Hnd) as Hs. rewrite (Hcur snapshot eq_refl) in Hs. pose proof (so_entries _ _ Hs) as He.
  split.
  - intros [i Hi]%list_elem_of_lookup. destruct (Forall2_lookup_r _ _ _ _ _ He Hi) as ([u hx] & Hu & Hue & Hd & Hl).
    cbn in *. subst. exists hx. split_and!; try done. by eapply list_elem_of_lookup_2.
  - intros (hx & [i Hi]%list_elem_of_lookup & Hd & Hl). destruct (Forall2_lookup_l _ _ _ _ _ He Hi) as ([u sec] & Hu & Hue & Hd' & _).
    cbn in *. simplify_eq. by eapply list_elem_of_lookup_2.
Qed.

(** A configured user whose secret signed the hello [h]. *)
Definition signer (h user secret : list Z) : Prop :=
  well_formed (cfg_users cfg) (user, secret) /\ signed_by cfg clock h secret.

(** Who a validation says the client is. *)
Definition client_of (v : TlsClientValidation) : list Z * list Z * list Z * list Z :=
  (tcv_user v, tcv_secret v, tcv_digest v, take (tcv_session_id_len v) (tcv_session_id v)).

(** The answer a search owes. *)
Definition search_verdict (h : list Z) (found : option TlsClientValidation) (delayed : bool) : Prop :=
  match found with
  | Some v =>
      signer h (tcv_user v) (tcv_secret v) /\ is_user_source_ip_denied cfg (tcv_user v) (sa_ip peer) = false /\
      tcv_digest v = digest_of h /\ hello_shape h (take (tcv_session_id_len v) (tcv_session_id v)) /\ delayed = false
  | None =>
      delayed = true /\
      ((forall sid, ~ hello_shape h sid) \/ (forall user secret, ~ signer h user secret) \/
       exists user secret, signer h user secret /\ is_user_source_ip_denied cfg user (sa_ip peer) = true)
  end.

Lemma validate_not_delayed cfg' h preferred sni s v d s' :
  validate_tls_client iter eviction_hash h peer cfg' clock t preferred sni s = Some (Some v, d, s') -> d = false.
Proof.
  unfold validate_tls_client, tls_deny. intros Hrun. repeat case_match; simplify_eq; done.
Qed.

Lemma search_verdict_ok o h preferred sni s found d s' :
  bytes_ok h -> NoDup (cfg_users cfg).*1 -> snapshot_current o -> calm t s -> suggestions_fit (with_snapshot o) sni ->
  validate_tls_client iter eviction_hash h peer (with_snapshot o) clock t preferred sni s = Some (found, d, s') ->
  search_verdict h found d.
Proof.
  intros Hok Hnd Hcur Hcalm Hfit Hrun. pose proof (fun u k => configured_current o u k Hnd Hcur) as Hconf. destruct found as [v|].
  - pose proof (validate_not_delayed _ _ _ _ _ _ _ _ Hrun) as ->.
    apply validate_tls_client_sound in Hrun as ((Hshape & Hdig & Hsig & Hc) & Hden & _); [|done|done].
    split_and!; try done. split; [by apply Hconf|done].
  - apply validate_tls_client_refused in Hrun as (-> & Hwhy); [|done..]. split; [done|].
    destruct Hwhy as [?|[Hnone|(v & (_ & _ & Hsig & Hc) & Hden)]]; [by left| |].
    + right; left. intros user secret [Hw Hsig]. by apply (Hnone user secret); [apply Hconf|].
    + right; right. exists (tcv_user v), (tcv_secret v). split; [|done]. split; [by apply Hconf|done].
Qed.

Lemma signer_secret h user secret secret' :
  NoDup (cfg_users cfg).*1 -> signer h user secret -> signer h user secret' -> secret = secret'.
Proof.
  intros Hnd [(hx & Hin & Hd & _) _] [(hx' & Hin' & Hd' & _) _]. cbn in *.
  apply (user_secret_hex_unique _ _ _ Hnd) in Hin, Hin'. congruence.
Qed.

(** Two searches that owe the same answer agree on the client, if only one
    user can have sent the hello. *)
Lemma verdicts_agree h found found' d d' :
  NoDup (cfg_users cfg).*1 ->
  (forall user secret user' secret', signer h user secret -> signer h user' secret' -> user = user') ->
  search_verdict h found d -> search_verdict h found' d' -> client_of <$> found = client_of <$> found' /\ d = d'.
Proof.
  intros Hnd Hone.
  assert (forall v dv dn, search_verdict h (Some v) dv -> search_verdict h None dn -> False) as Hx.
  { intros v dv dn (Hsig & Hden & _ & Hsh & _) (_ & [Hs|[Hn|(u & k & Hu & Hd)]]); [by eapply Hs|by eapply Hn|].
    rewrite (Hone _ _ _ _ Hsig Hu) in Hden. congruence. }
  destruct found as [v|], found' as [v'|]; intros Hv1 Hv2; [|by edestruct Hx|by edestruct Hx|by destruct Hv1 as [-> _], Hv2 as [-> _]].
  destruct Hv1 as (Hsig & _ & Hdig & Hsh & ->), Hv2 as (Hsig' & _ & Hdig' & Hsh' & ->). split; [|done].
  pose proof (Hone _ _ _ _ Hsig Hsig') as Hu. rewrite <- Hu in Hsig'. pose proof (signer_secret _ _ _ _ Hnd Hsig Hsig') as Hk.
  destruct Hsh as (n & Hn & _ & _ & Hs), Hsh' as (n' & Hn' & _ & _ & Hs'). simplify_eq.
  cbn. unfold client_of. by rewrite Hu, Hk, Hdig, Hdig', Hs, Hs'.
Qed.

End lookups.
