(* ===== verification/TlsFlowSpec.v ===== *)
(** The handler behind the TLS front as a whole: it never panics, every end of
    a run is accounted for, and what it sends to an accepted client proves that
    the proxy has the client's secret. *)

From stdpp Require Import base list gmap numbers.
From S2P Require Import Net TrafficLimiter Limiter Prelude Aes Random RpcWire Tls TlsServer Replay ReplayRun AuthProbe Stream TlsStream CryptoStream ClientWrite ClientWriteSpec AuthScan Obfuscation MtprotoAuth TlsEmulator TlsResponse TlsAuth TlsAuthSpec.
Local Open Scope nat_scope.

(** * The pieces of the answer *)

Lemma tls13_suite_shape c : is_tls13_cipher_suite c = true -> length c = 2 /\ c <> [0; 0]%Z.
Proof.
  unfold is_tls13_cipher_suite. rewrite !orb_true_iff, !bool_decide_eq_true. by intros [[-> | ->] | ->].
Qed.

Section pieces.
Context {G : Type} `{StdRngLaws G} `{StreamKey} `{X25519Laws}.

Lemma key_share_for_group h group (rng : SecureRandomInner G) :
  safe (build_server_hello_key_share_for_group h group rng) /\
  forall ks rng', build_server_hello_key_share_for_group h group rng = Got (ks, rng') -> key_share_fits ks.
Proof.
  unfold build_server_hello_key_share_for_group. destruct (client_hello_key_share_group_len group) as [n|]; [|done].
  pose proof (key_share_group_entry_safe h group n) as Hs.
  destruct (client_hello_key_share_group_entry h group n) as [k| | |]; cbn [parse_bind]; try done.
  unfold gen_fake_x25519mlkem768_server_key_share, gen_fake_x25519_key, gen_x25519_key_pair, key_share_fits.
  destruct (group =? X25519MLKEM768)%Z; [|destruct (group =? X25519)%Z; [|done]].
  - pose proof (rand_bytes_length MLKEM768_SERVER_CIPHERTEXT_LEN rng) as Hl.
    destruct (rand_bytes MLKEM768_SERVER_CIPHERTEXT_LEN rng) as [ct rng1]. cbn [fst] in Hl.
    destruct (rand_bytes X25519_KEY_SHARE_LEN rng1) as [sc rng2]. split; [done|]. intros ks r [= <- <-]. cbn [ks_key_exchange].
    rewrite length_app, Hl, (x25519_ok sc). unfold MLKEM768_SERVER_CIPHERTEXT_LEN. lia.
  - destruct (rand_bytes X25519_KEY_SHARE_LEN rng) as [sc rng1]. split; [done|]. intros ks r [= <- <-]. cbn [ks_key_exchange].
    rewrite (x25519_ok sc). lia.
Qed.

Lemma key_share_spec h preferred (rng : SecureRandomInner G) :
  safe (build_server_hello_key_share h preferred rng) /\
  forall ks rng', build_server_hello_key_share h preferred rng = Got (ks, rng') -> key_share_fits ks.
Proof.
  unfold build_server_hello_key_share. induction (server_hello_key_share_candidate_order preferred) as [|g gs IH]; [done|].
  cbn [first_key_share]. pose proof (key_share_for_group h g rng) as [Hs Hf].
  destruct (build_server_hello_key_share_for_group h g rng) as [[ks r]| | |]; try done.
Qed.

End pieces.

Lemma validate_at_time_safe `{HmacSha256} h secrets ig now cap :
  bytes_ok h -> safe (validate_tls_handshake_at_time_with_boot_cap h secrets ig now cap).
Proof.
  intros Hok. unfold validate_tls_handshake_at_time_with_boot_cap, TLS_DIGEST_POS, TLS_DIGEST_LEN. cbv zeta.
  change (11 + 32 + 1) with 44. change (11 + 32) with 43.
  destruct (Nat.leb_spec 44 (length h)) as [Hl|Hl]; cbn [guard_ok]; [|done].
  unfold slice at 1. rewrite decide_True by lia. cbn [parse_bind].
  unfold len8, get. destruct (lookup_lt_is_Some_2 h 43 ltac:(lia)) as [b Hb]. rewrite Hb. cbn [parse_bind].
  destruct (Nat.leb_spec (Z.to_nat b) 32) as [H32|H32]; cbn [guard_ok]; [|done].
  destruct (Nat.leb_spec (44 + Z.to_nat b) (length h)) as [Hs|Hs]; cbn [guard_ok]; [|done].
  unfold slice at 1. rewrite decide_True by lia. cbn [parse_bind].
  unfold copy_at. rewrite length_replicate. rewrite (proj2 (Nat.leb_le _ _)) by lia. cbn [parse_bind].
  by destruct (check_secrets _ _ _ _ _ _ _) as [[? ?]|].
Qed.

(** * The handler *)

Section flow.
Context {L : Type} `{LruCacheLaws L} (instant_min : Z) (hash : list Z -> Z).
Context {N : Type} `{IpNetwork N}.
Context {G : Type} `{StdRngLaws G} `{StreamKey} `{HmacSha256Laws} `{X25519Laws} `{Checksums} `{Hashing} `{HexDecode}.
Context (iter : gmap IpAddr AuthProbeState -> list (IpAddr * AuthProbeState)) (eviction_hash : IpAddr -> Z -> Z).
Context (iter_ok : forall m, iter m ≡ₚ map_to_list m).
Context (ip_hash : IpAddr -> Z) {R W : Type} `{AsyncWrite W} `{TcpFd W} (spec : WriterSpec W) (fds : TcpFdSpec W spec).
Context (reader : R) (peer : SocketAddr) (cfg : HsConfig N) (clock : option Z) (t : TlsInstants).

(** The proof the proxy gives of knowing the secret, on the wire in full. *)
Definition answered (h : list Z) (v : TlsClientValidation) (w w' : W) : Prop :=
  exists response, accepted spec w' = accepted spec w ++ response /\ settled spec w' /\ writer_ok spec w' /\
    digest_of response = sha256_hmac (tcv_secret v) (digest_of h ++ zeroed response).

(** The digest was new and is remembered. *)
Definition digest_taken (h : list Z) (rc rc' : ReplayChecker L) : Prop :=
  exists rc1, check_only_internal instant_min hash TlsDigest (take TLS_DIGEST_HALF_LEN (digest_of h))
      (at_replay (ti t)) rc = Some (false, rc1) /\
    add_only instant_min hash TlsDigest (take TLS_DIGEST_HALF_LEN (digest_of h)) (at_add t) rc1 = Some rc'.

Definition throttled (s : AuthState) : bool :=
  (auth_probe_should_apply_preauth_throttle_in (sa_ip peer) (at_throttle (ti t)) (probe s)).1.

(** Protocols are enforced and the hello lists none the proxy speaks. *)
Definition alpn_refused (h : list Z) : Prop :=
  cfg_alpn_enforce cfg = true /\
  exists l, extract_alpn_from_client_hello h = Got l /\ l <> [] /\ (ALPN_H2 ∉ l) /\ (ALPN_HTTP11 ∉ l).

Definition counted (s s' : AuthState) : Prop := failure_counted (sa_ip peer) (at_failure (ti t)) s s'.

(** The alert is on the wire, or the socket failed. *)
Definition alert_given (w w' : W) : Prop :=
  (accepted spec w' = accepted spec w ++ TLS_ALERT_UNRECOGNIZED_NAME /\ settled spec w') \/
  exists trace e, socket_trace trace w w' /\ Failed e ∈ trace.

(** How a run on a hello ends, where the socket may answer [polls] times that
    it is not ready. *)
Definition tls_ends (polls : nat) (h : list Z) (s : AuthState) (rc : ReplayChecker L) (w : W) (cache : option TlsFrontCache)
    (run : @TlsRun L G R W) : Prop :=
  match run with
  | TlsPanics => False
  | TlsWaiting w' => exists trace, socket_trace trace w w' /\ polls <= S (stalls trace)
  | TlsDone (Success (r, fw, user)) delayed s' rc' rng' w' cache' =>
      delayed = true /\ r = tls_reader_new reader /\
      (exists profile seed, fw = tls_writer_with_profile w' profile seed) /\
      (exists v, validates cfg clock h v /\ tcv_user v = user /\
         is_user_source_ip_denied cfg user (sa_ip peer) = false /\ answered h v w w') /\
      digest_taken h rc rc' /\ forall now, live_streak (sa_ip peer) now s' = 0%Z
  | TlsDone BadClient delayed s' rc' rng' w' cache' =>
      delayed = true /\ w' = w /\ cache' = cache /\ (throttled s = true \/ alpn_refused h \/ counted s s')
  | TlsDone (HsErr UnknownTlsSni) delayed s' rc' rng' w' cache' =>
      counted s s' /\ cache' = cache /\
      match cfg_unknown_sni_action cfg with
      | SniDrop => delayed = true /\ w' = w
      | SniRejectHandshake => delayed = false /\ alert_given w w'
      | _ => False
      end
  | TlsDone (HsErr (HsIo e)) delayed s' rc' rng' w' cache' =>
      delayed = true /\ digest_taken h rc rc' /\
      (exists v, validates cfg clock h v /\ is_user_source_ip_denied cfg (tcv_user v) (sa_ip peer) = false) /\
      exists trace, socket_trace trace w w' /\ (Failed e ∈ trace \/ e = InvalidInput \/ e = EBADF)
  end.

Lemma check_only_some cap data now (rc : ReplayChecker L) :
  checker_inv cap rc ->
  exists found rc', check_only_internal instant_min hash TlsDigest data now rc = Some (found, rc') /\ checker_inv cap rc'.
Proof.
  intros Hc. destruct (exec_op_steps instant_min hash cap (OpCheck TlsDigest data now) rc Hc) as (rc' & Hop & Hst).
  cbn [exec_op] in Hop. apply fmap_Some in Hop as ([found rc1] & Hx & ->). exists found, rc1. split; [done|].
  by eapply steps_inv.
Qed.

Lemma add_only_some cap data now (rc : ReplayChecker L) :
  checker_inv cap rc -> exists rc', add_only instant_min hash TlsDigest data now rc = Some rc'.
Proof.
  intros Hc. destruct (exec_op_steps instant_min hash cap (OpAdd TlsDigest data now) rc Hc) as (rc' & Hop & _). by exists rc'.
Qed.

Notation streaks := (same_streaks (sa_ip peer) (at_failure (ti t))).

(** Either builder proves the secret, whatever the cache holds. *)
Lemma build_response_proves h v entry full version cipher ks (rng : SecureRandomInner G) :
  validates cfg clock h v -> length cipher = 2 -> cipher <> [0; 0]%Z -> key_share_fits ks ->
  exists response rng', build_response cfg version v entry full cipher ks rng = Got (response, rng') /\
    digest_of response = sha256_hmac (tcv_secret v) (digest_of h ++ zeroed response).
Proof.
  intros (Hshape & Hdig & _ & _) Hc Hz Hfit. unfold build_response. rewrite Hdig. destruct entry as [entry|].
  - destruct (build_emulated_spec (tcv_secret v) (digest_of h) (take (tcv_session_id_len v) (tcv_session_id v)) entry full
      (cfg_serverhello_compact cfg) version cipher ks (cfg_tls_new_session_tickets cfg) rng) as (response & rng' & _ & _ & Hb & Hp & _).
    by exists response, rng'.
  - assert (length (take (tcv_session_id_len v) (tcv_session_id v)) <= 32) as Hsid.
    { destruct Hshape as (n & _ & Hn & Hlen & ->). rewrite length_sub; lia. }
    destruct (build_server_hello_spec (tcv_secret v) (digest_of h) _ (cfg_fake_cert_len cfg) cipher ks
      (cfg_tls_new_session_tickets cfg) rng Hsid Hc Hz Hfit) as (response & rng' & _ & _ & Hb & Hp & _).
    by exists response, rng'.
Qed.

Lemma tls_answer_ends cap polls options h sni domain version v s0 s rc rng w cache :
  checker_inv cap rc -> writer_ok spec w -> settled spec w -> streaks s0 s -> table_ok (probe s0) -> validates cfg clock h v ->
  is_user_source_ip_denied cfg (tcv_user v) (sa_ip peer) = false ->
  tls_ends polls h s0 rc w cache
    (tls_answer instant_min hash iter eviction_hash ip_hash polls options h reader peer cfg t sni domain version v s rc rng w cache).
Proof.
  intros Hrc Hw Hset Hst Htab Hv Hden. pose proof Hv as (_ & Hdig & _ & _). unfold tls_answer. rewrite Hdig.
  pose proof (record_failure_counted iter eviction_hash iter_ok _ _ s0 s Hst Htab) as Hcount.
  assert (forall rc' rng, tls_ends polls h s0 rc w cache (TlsDone BadClient true
    (record_failure iter eviction_hash (sa_ip peer) (at_failure (ti t)) s) rc' rng w cache)) as Hfail.
  { intros rc' rng'. split_and!; try done. by right; right. }
  destruct (check_only_some cap (take TLS_DIGEST_HALF_LEN (digest_of h)) (at_replay (ti t)) rc Hrc) as (found & rc1 & Hco & Hrc1).
  rewrite Hco. destruct found; [apply Hfail|]. cbv zeta. set (entry := cached_entry_of cfg domain cache).
  pose proof (key_share_spec h (entry ≫= profiled_server_hello_key_share_group) rng) as [Hks Hfit].
  destruct (build_server_hello_key_share h _ rng) as [[ks rng1]| | |]; [|apply Hfail|done|done]. specialize (Hfit ks rng1 eq_refl).
  pose proof (select_cipher_safe h (preferred_cipher_of entry)) as Hcs. pose proof (select_cipher_tls13 h (preferred_cipher_of entry)) as Htls.
  destruct (select_server_hello_cipher_suite h (preferred_cipher_of entry)) as [cipher| | |]; [|apply Hfail|done|done].
  destruct (tls13_suite_shape cipher (Htls cipher eq_refl)) as [Hcl Hcz].
  destruct (match entry with Some _ => full_cert_of _ _ _ _ _ _ | None => _ end) as [full cache'].
  destruct (add_only_some cap (take TLS_DIGEST_HALF_LEN (digest_of h)) (at_add t) rc1 Hrc1) as [rc2 Hadd]. rewrite Hadd.
  destruct (build_response_proves h v entry full version cipher ks rng1 Hv Hcl Hcz Hfit) as (response & rng2 & -> & Hproof).
  destruct (write_tls_response polls options response w) as [res w'] eqn:Hwr.
  pose proof (write_tls_response_answered _ _ _ _ _ _ Hwr) as (trace & Htr & Hans).
  assert (digest_taken h rc rc2) as Hdt by (by exists rc1).
  destruct res as [n|[| | | |]]; try done; [|by exists trace|split_and!; try done; [by exists v|by exists trace]].
  apply (write_tls_response_wire spec fds) in Hwr as (Hok' & Hacc & Hset'); [|done|done]. destruct (rand_bytes 8 rng2) as [seed rng3].
  split; [done|]. split; [done|]. split; [by do 2 eexists|]. split; [|split; [done|]].
  - exists v. split_and!; try done. by exists response.
  - intros now. unfold live_streak.
    destruct (tcv_user_id v) as [id|]; [unfold record_recent_user_success_in; destruct (bool_decide _)|]; cbn;
      by rewrite lookup_delete_eq.
Qed.

Lemma validate_tls_client_some h preferred sni s :
  bytes_ok h -> exists r d s', validate_tls_client iter eviction_hash h peer cfg clock (ti t) preferred sni s = Some (r, d, s').
Proof.
  intros Hok. unfold validate_tls_client. destruct (cfg_runtime_user_auth cfg) as [snapshot|].
  - destruct (parse_tls_auth_material _ _ _ _); [|by do 3 eexists].
    destruct (auth_probe_saturation_is_throttled_in _ _) as [ov pr].
    destruct (tls_scan _ _ _ _ _ _ _ _ _ _) as [hit scan]. destruct (matched scan) as [[[id e] c]|]; [|by do 3 eexists].
    destruct (tls_deny _ _ _ _ _ _ _) as [[r d] s']. by do 3 eexists.
  - destruct (decode_user_secrets_in _ _ _) as [secrets s1]. unfold validate_tls_handshake_with_replay_window.
    destruct (if cfg_ignore_time_skew cfg then Some 0%Z else system_time_to_unix_secs clock) as [now|]; [|by do 3 eexists].
    pose proof (validate_at_time_safe h secrets (cfg_ignore_time_skew cfg) now
      (boot_time_cap (cfg_ignore_time_skew cfg) (cfg_replay_window_secs cfg)) Hok) as Hs.
    destruct (validate_tls_handshake_at_time_with_boot_cap _ _ _ _ _) as [v| | |]; try done; [|by do 3 eexists].
    destruct (user_secret_hex secrets (tv_user v)) as [secret|]; [|by do 3 eexists].
    destruct (negb _); [by do 3 eexists|]. destruct (32 <? _); [by do 3 eexists|].
    destruct (tls_deny _ _ _ _ _ _ _) as [[r d] s']. by do 3 eexists.
Qed.

Lemma tls_deny_counted v s0 s d s' :
  streaks s0 s -> table_ok (probe s0) -> tls_deny iter eviction_hash peer cfg (ti t) v s = (None, d, s') ->
  d = true /\ counted s0 s'.
Proof.
  intros Hst Htab. unfold tls_deny. destruct (is_user_source_ip_denied _ _ _); [|done]. intros [= <- <-].
  split; [done|]. by apply record_failure_counted.
Qed.

(** Refusals of the search are delayed and counted. *)
Lemma validate_tls_client_counted h preferred sni s0 s d s' :
  bytes_ok h -> NoDup (cfg_users cfg).*1 -> streaks s0 s -> table_ok (probe s0) ->
  validate_tls_client iter eviction_hash h peer cfg clock (ti t) preferred sni s = Some (None, d, s') ->
  d = true /\ counted s0 s'.
Proof.
  intros Hok Hnd Hst Htab.
  assert (forall s1 (d0 : bool) s2, streaks s0 s1 ->
    Some (None : option TlsClientValidation, true, record_failure iter eviction_hash (sa_ip peer) (at_failure (ti t)) s1)
      = Some (None, d0, s2) ->
    d0 = true /\ counted s0 s2) as Hfail.
  { intros s1 d0 s2 Hs1 [= <- <-]. split; [done|]. by apply record_failure_counted. }
  unfold validate_tls_client. destruct (cfg_runtime_user_auth cfg) as [snapshot|].
  - destruct (parse_tls_auth_material _ _ _ _) as [pm|]; [|intros Hx; by eapply Hfail].
    pose proof (saturation_query_table (at_scan (ti t)) (probe s)) as Hsat.
    destruct (auth_probe_saturation_is_throttled_in _ _) as [ov pr]. cbn [snd] in Hsat.
    destruct (tls_scan _ _ _ _ _ _ _ _ _ _) as [hit scan].
    assert (streaks s0 (count_checks (validation_checks scan) (budget_exhausted scan) (with_probe (fun _ => pr) s))) as Hs1.
    { eapply same_streaks_trans; [exact Hst|]. by apply same_streaks_table. }
    destruct (matched scan) as [[[id e] c]|]; [intros [= Hx]; by eapply tls_deny_counted|].
    intros Hx. eapply Hfail; [|exact Hx]. by apply note_expensive_streaks.
  - pose proof (decode_all_spec (cfg_users cfg) preferred s Hnd) as Hdec.
    destruct (decode_user_secrets_in _ _ _) as [secrets s1]. destruct Hdec as (Hp & Hn & Hw).
    assert (streaks s0 s1) as Hs1.
    { eapply same_streaks_trans; [exact Hst|]. apply same_streaks_table. by rewrite Hp. }
    destruct (validate_tls_handshake_with_replay_window _ _ _ _ _) as [v| | |] eqn:Hval; try done;
      [|intros Hx; by eapply Hfail].
    unfold validate_tls_handshake_with_replay_window in Hval.
    destruct (if cfg_ignore_time_skew cfg then Some 0%Z else system_time_to_unix_secs clock) as [now|]; [|done].
    apply validate_spec in Hval as (Hshape & Hdig & Hcheck); [|done].
    apply check_secrets_spec in Hcheck as (pre & secret & post & -> & Hc & _).
    assert ((tv_user v, secret) ∈ pre ++ (tv_user v, secret) :: post) as Hin
      by (apply elem_of_app; right; apply list_elem_of_here).
    rewrite (user_secret_hex_unique _ _ _ Hn Hin). destruct (Hw _ Hin) as (hx & Hhx & Hdx & Hl). cbn [fst snd] in *.
    rewrite Hl, Nat.eqb_refl. cbn [negb].
    assert (length (tv_session_id v) <= 32) as Hsl.
    { destruct Hshape as (n & _ & Hn32 & Hlen & ->). rewrite length_sub; lia. }
    rewrite (proj2 (Nat.ltb_ge _ _) Hsl). intros [= Hx]. by eapply tls_deny_counted.
Qed.

Lemma unknown_sni_ends polls h s0 s rc rng w cache run :
  streaks s0 s -> table_ok (probe s0) -> writer_ok spec w ->
  unknown_sni iter eviction_hash polls peer cfg t s rc rng w cache = Some run -> tls_ends polls h s0 rc w cache run.
Proof.
  intros Hst Htab Hw. unfold unknown_sni.
  assert (counted s0 (with_probe (fun p => (should_emit_unknown_sni_warn_in (at_warn t) p).2)
    (record_failure iter eviction_hash (sa_ip peer) (at_failure (ti t)) s))) as Hcount.
  { destruct (record_failure_counted iter eviction_hash iter_ok _ _ s0 s Hst Htab) as (e & He & Hrest).
    exists e. split; [|done]. rewrite <- He. cbn. unfold should_emit_unknown_sni_warn_in.
    destruct (unknown_sni_warn_next_allowed _); [destruct (_ <? _)%Z|]; done. }
  destruct (cfg_unknown_sni_action cfg) eqn:Hact; intros Hrun; simplify_eq; cbn [tls_ends]; rewrite ?Hact; try done.
  - split_and!; try done. by right; right.
  - destruct (write_all_client_or_cancel _ _ _) as [r w1] eqn:Hwr. pose proof (write_all_outcome _ _ _ _ _ Hwr) as (trace & Htr & Ho).
    pose proof (write_all_spec spec _ _ _ _ _ Hw Hwr) as Hs. destruct r as [n|[| | | |]]; simplify_eq; cbn [tls_ends]; rewrite ?Hact; try done.
    2: { exists trace. split; [done|lia]. }
    2: { split_and!; try done. right. by exists trace, kind. }
    destruct Hs as [Hw1 Ha]. destruct (flush_client_or_cancel n w1) as [r w2] eqn:Hfl.
    pose proof (flush_outcome _ _ _ _ Hfl) as (trace2 & Htr2 & Ho2). pose proof (trace_app _ _ _ _ _ Htr Htr2) as Htr3.
    destruct r as [m|[| | | |]]; simplify_eq; cbn [tls_ends]; rewrite ?Hact; try done.
    + apply (flush_reaches spec) in Hfl as (? & Hacc & ?); [|done]. split_and!; try done. left. by rewrite Hacc, Ha.
    + eexists. split; [exact Htr3|]. rewrite stalls_app. lia.
    + split_and!; try done. right. do 2 eexists. split; [exact Htr3|]. apply elem_of_app. by right.
Qed.

Lemma tls_policies_end cap polls options h sni alpn version s0 s rc rng w cache :
  bytes_ok h -> NoDup (cfg_users cfg).*1 -> checker_inv cap rc -> writer_ok spec w -> settled spec w ->
  table_ok (probe s0) -> streaks s0 s ->
  (alpn = [] \/ extract_alpn_from_client_hello h = Got alpn) ->
  tls_ends polls h s0 rc w cache
    (tls_policies instant_min hash iter eviction_hash ip_hash polls options h reader peer cfg clock t sni alpn version s rc rng w cache).
Proof.
  intros Hok Hnd Hrc Hw Hset Htab Hst Hl. unfold tls_policies. destruct (select_alpn (cfg_alpn_enforce cfg) alpn) eqn:Hsel.
  2:{ split_and!; try done. right; left. unfold select_alpn in Hsel. unfold alpn_refused.
      destruct (cfg_alpn_enforce cfg); [|done]. split; [done|]. exists alpn.
      case_bool_decide; [done|]. case_bool_decide; [done|]. case_bool_decide; [done|]. by destruct Hl. }
  cbv zeta. destruct (if _ && _ && _ then _ else _) as [run|] eqn:Hun.
  { destruct (_ && _ && _); [|done]. by eapply unknown_sni_ends. }
  match goal with |- context [validate_tls_client _ _ _ _ _ _ _ ?p ?q _] =>
    destruct (validate_tls_client_some h p q s Hok) as (r & d & s2 & Hval); rewrite Hval end.
  destruct r as [v|].
  - apply validate_tls_client_sound in Hval as (Hv & Hden & Htbl); [|done|done]. eapply tls_answer_ends; try done.
    eapply same_streaks_trans; [exact Hst|]. by apply same_streaks_table.
  - apply (validate_tls_client_counted _ _ _ s0) in Hval as [-> Hcount]; [|done..]. split_and!; try done. by right; right.
Qed.

(** Every run ends in one of the ways above. *)
Lemma handle_tls_ends cap polls options h s rc rng w cache :
  bytes_ok h -> NoDup (cfg_users cfg).*1 -> checker_inv cap rc -> writer_ok spec w -> settled spec w ->
  table_ok (probe s) -> (at_throttle (ti t) <= at_failure (ti t))%Z ->
  tls_ends polls h s rc w cache
    (handle_tls_handshake instant_min hash iter eviction_hash ip_hash polls options h reader peer cfg clock t s rc rng w cache).
Proof.
  intros Hok Hnd Hrc Hw Hset Htab Ht. unfold handle_tls_handshake.
  pose proof (preauth_streaks (sa_ip peer) (at_throttle (ti t)) (at_failure (ti t)) s Ht) as Hst.
  destruct (auth_probe_should_apply_preauth_throttle_in _ _ _) as [thr p] eqn:Hthr. cbn [snd] in Hst.
  destruct thr; [split_and!; try done; left; unfold throttled; by rewrite Hthr|].
  destruct (length h <? _).
  { split_and!; try done. right; right. by apply record_failure_counted. }
  pose proof (extract_sni_safe h) as Hsni. pose proof (detect_version_safe h) as Hver. pose proof (extract_alpn_safe h) as Halpn.
  destruct (extract_sni_from_client_hello h) as [sni| | |]; try done; destruct (cfg_alpn_enforce cfg);
    try (destruct (extract_alpn_from_client_hello h) as [l| | |] eqn:Hal; try done);
    destruct (detect_client_hello_tls_version h) as [v| | |]; try done;
    eapply tls_policies_end; try done; (by left) || (by right).
Qed.

End flow.
