(* ===== verification/HandshakeProps.v ===== *)
(** Properties of the authentication of clients and of the handshake with a
    datacenter. *)

From stdpp Require Import base list gmap numbers.
From S2P Require Import Net TrafficLimiter Limiter Prelude Aes Random RpcWire Tls TlsServer TlsHello Replay ReplayRun AuthProbe Stream TlsStream CryptoStream ClientWrite ClientWriteSpec AuthScan Obfuscation MtprotoAuth TlsEmulator TlsResponse TlsAuth TlsAuthSpec TlsFlowSpec.
Local Open Scope Z_scope.

(** * Instances used by the examples *)

#[local] Instance hs_lru : LruCache (nat * gmap (list Z) Z) := {
  lru_new n := (n, ∅);
  lru_peek k l := l.2 !! k;
  lru_get k l := (l.2 !! k, l);
  lru_put k v l := (l.1, <[k := v]> (if (size l.2 <? l.1)%nat then l.2 else ∅));
  lru_pop k l := (l.1, delete k l.2);
  lru_clear l := (l.1, ∅);
  lru_len l := size l.2;
}.

#[local] Instance hs_lru_laws : LruCacheLaws (nat * gmap (list Z) Z).
Proof.
  refine {| lru_view l := l.2; lru_cap l := l.1 |}; try done.
  intros k v [n m] Hlt%Nat.ltb_lt. cbn [fst snd] in Hlt. unfold lru_put, hs_lru. cbn [fst snd]. by rewrite Hlt.
Defined.

(** Networks with a mask of whole octets. *)
#[local] Instance hs_network : IpNetwork (list Z) := {
  net_new ip _ := match ip with IpV4 o | IpV6 o => Some o end;
  net_network o := IpV4 o;
  net_contains ip o := match ip with IpV4 a | IpV6 a => bool_decide (take (length o) a = o) end;
  net_prefix o := 8 * Z.of_nat (length o);
  net_is_v4 _ := true;
  net_to_string o := o;
}.

#[local] Instance hs_keys : StreamKey := fun key iv n => (foldr Z.add 0 key + iv + Z.of_nat n * 37) mod 256.

Definition mix (seed : Z) (data : list Z) : Z := foldl (fun acc b => (acc * 31 + b) mod 65521) seed data.
#[local] Instance hs_sha : Sha256 := fun data => let m := mix 1 data in (fun i => (m + 37 * Z.of_nat i) mod 256) <$> seq 0 32.
#[local] Instance hs_hmac : HmacSha256 := fun key data => let m := mix 7 (key ++ data) in (fun i => (m + 37 * Z.of_nat i) mod 256) <$> seq 0 32.
#[local] Instance hs_hmac_laws : HmacSha256Laws.
Proof.
  intros key data. unfold sha256_hmac, hs_hmac. split; [by rewrite length_fmap, length_seq|].
  apply Forall_fmap, list.Forall_forall. intros i _. unfold is_byte. cbn. apply Z.mod_pos_bound. lia.
Defined.
#[local] Instance hs_x25519 : X25519Fn := fun _ _ => replicate 32 9.
#[local] Instance hs_x25519_laws : X25519Laws.
Proof. by intros ? ?. Defined.
#[local] Instance hs_hashing : Hashing := foldr (fun b acc => b + 257 * acc) 0.
(** Secrets are written as they are. *)
#[local] Instance hs_hex : HexDecode := Some.

#[local] Instance hs_rng : StdRng nat := {
  rng_fill_bytes n r := ((fun i => Z.of_nat (i + r) mod 256) <$> seq 0 n, S r);
  rng_random_range max r := (Nat.modulo r max, S r);
  rng_random_range_incl max r := (Nat.modulo r (S max), S r);
}.
#[local] Instance hs_rng_laws : StdRngLaws nat.
Proof.
  split.
  - intros n r. cbn. split; [by rewrite length_fmap, length_seq|].
    apply Forall_fmap, list.Forall_forall. intros i _. unfold is_byte. cbn. apply Z.mod_pos_bound. lia.
  - intros max r Hm. cbn. apply Nat.mod_upper_bound. lia.
  - intros max r. cbn. pose proof (Nat.mod_upper_bound r (S max) ltac:(lia)). lia.
Defined.

Definition hs_hash (key : list Z) : Z := foldr Z.add 0 key.

(** * MTProto *)

(** C5: A client is authenticated exactly by the secret of a configured user.
    When the peer is not throttled and the proxy not overloaded, the handler
    returns; it refuses the client, with a delay and one more failure counted
    against it, if no configured secret decrypts the handshake to an enabled
    tag; otherwise some user whose secret does is found, and that user's session
    starts, with the ciphers of that secret and a clean record, unless the deny
    list refuses the address or the replay checker has seen the key material. *)
Theorem mtproto_auth_exact {L} `{LruCacheLaws L} {N} `{IpNetwork N} `{StreamKey} `{Sha256} `{Hashing} `{HexDecode} {R W}
    instant_min hash iter eviction_hash (reader : R) (writer : W) peer (cfg : HsConfig N) is_tls t
    h preferred snapshot cap s (rc : ReplayChecker L) :
  (forall m, iter m ≡ₚ map_to_list m) ->
  cfg_runtime_user_auth cfg = Some snapshot -> Z.of_nat (length (entries snapshot)) <= 2 ^ 32 ->
  at_throttle t <= at_failure t -> table_ok (probe s) -> checker_inv cap rc ->
  not_throttled peer t s -> overloaded peer t s = false ->
  exists res delayed s' rc',
    handle_mtproto_handshake instant_min hash iter eviction_hash h reader writer peer cfg is_tls preferred t s rc
      = Some (res, delayed, s', rc') /\
    let validate := validate_mtproto h (cfg_modes cfg) is_tls in
    ((Forall (fun e => validate (ue_secret e) = None) (entries snapshot) /\
      refused peer t res delayed s s' /\ rc' = rc) \/
     exists entry v, entry ∈ entries snapshot /\ validate (ue_secret entry) = Some v /\
       verdict_on instant_min hash reader writer peer cfg is_tls t h (ue_user entry) v res delayed s s' rc rc').
Proof.
  intros Hiter Hcfg Hlen Ht Htab Hrc Hthr Hcalm.
  destruct (handle_mtproto_total instant_min hash iter eviction_hash reader writer peer cfg is_tls t cap h preferred s rc Hrc)
    as (res & delayed & s' & rc' & Hrun).
  exists res, delayed, s', rc'. split; [done|].
  destruct (handle_mtproto_verdict instant_min hash iter eviction_hash Hiter reader writer peer cfg is_tls t
    h preferred snapshot s rc res delayed s' rc' Hcfg Hlen Ht Htab Hthr Hrun) as [(Hr & Hrc' & Hn)|Hv]; [left|by right].
  auto.
Qed.

(** Two users, one of them refused from 10.0.0.0/8. *)
Definition hs_users : list (list Z * list Z) := [([97], replicate 16 5); ([98], replicate 16 6)].
Definition hs_snapshot : UserAuthSnapshot :=
  match from_users hs_users with Ok s => s | Err _ => mkSnapshot [] ∅ ∅ ∅ end.
Definition hs_cfg (snapshot : option UserAuthSnapshot) : HsConfig (list Z) :=
  mkHsConfig (list Z) hs_users snapshot {[ [97] := [[10]] ]} false 600 (mkModes true true true) 4096
    [101; 46; 99] [] false SniMask 100 2 ∅ true false 90.
Definition hs_peer : SocketAddr := mkSocketAddr (IpV4 [10; 1; 2; 3]) 4000.
Definition hs_times : Instants := mkInstants (5 * NANOS) (5 * NANOS) (6 * NANOS) (6 * NANOS).
Definition hs_nonce : list Z := (fun i => Z.of_nat (3 * i + 1)) <$> seq 0 64.
Definition hs_client : list Z * AesCtr * AesCtr := client_connect (replicate 16 6) Secure (-2) hs_nonce.
Definition hs_checker : ReplayChecker (nat * gmap (list Z) Z) := checker_new 128 (60 * NANOS).

Lemma hs_entries : entries hs_snapshot = [mkEntry [97] (replicate 16 5); mkEntry [98] (replicate 16 6)].
Proof. by vm_compute. Qed.

Lemma auth_new_ok : table_ok (probe auth_new).
Proof. by vm_compute. Qed.

Lemma mtproto_auth_exact_witness :
  exists res delayed s' rc',
    handle_mtproto_handshake 0 hs_hash map_to_list (fun _ _ => 3) hs_client.1.1 tt tt hs_peer
      (hs_cfg (Some hs_snapshot)) false None hs_times auth_new hs_checker = Some (res, delayed, s', rc').
Proof.
  destruct (mtproto_auth_exact 0 hs_hash map_to_list (fun _ _ => 3) tt tt hs_peer (hs_cfg (Some hs_snapshot)) false hs_times
    hs_client.1.1 None hs_snapshot (shard_capacity 128) auth_new hs_checker (fun m => reflexivity _) eq_refl)
    as (res & delayed & s' & rc' & Hrun & _).
  - vm_compute. discriminate.
  - vm_compute. discriminate.
  - exact auth_new_ok.
  - apply checker_new_inv.
  - vm_compute. reflexivity.
  - vm_compute. reflexivity.
  - exists res, delayed, s', rc'. exact Hrun.
Defined.

(** C9: The proxy and a genuine client agree.  A client that connects with a
    configured secret, whatever its random bytes, framing and datacenter, is
    admitted as that user; the proxy reads the framing and the datacenter the
    client meant, and its two streams hold the client's own two ciphers in the
    state they have after the handshake, so that what either side encrypts next
    the other decrypts.  The client must not be throttled, denied or replayed,
    the proxy not overloaded, and no other configured secret may happen to
    decrypt the same bytes to an enabled tag. *)
Theorem mtproto_client_admitted {L} `{LruCache L} {N} `{IpNetwork N} `{StreamKey} `{Sha256} `{Hashing} `{HexDecode} {R W}
    instant_min hash iter eviction_hash (reader : R) (writer : W) peer (cfg : HsConfig N) is_tls t
    preferred snapshot s (rc rc' : ReplayChecker L) entry tag dc nonce wire enc dec :
  cfg_runtime_user_auth cfg = Some snapshot -> Z.of_nat (length (entries snapshot)) <= 2 ^ 32 ->
  not_throttled peer t s -> overloaded peer t s = false ->
  entry ∈ entries snapshot -> length nonce = HANDSHAKE_LEN -> - 2 ^ 15 <= dc < 2 ^ 15 ->
  mode_enabled_for_proto (cfg_modes cfg) tag is_tls = true ->
  client_connect (ue_secret entry) tag dc nonce = (wire, enc, dec) ->
  Forall (fun e => e = entry \/ validate_mtproto wire (cfg_modes cfg) is_tls (ue_secret e) = None) (entries snapshot) ->
  is_user_source_ip_denied cfg (ue_user entry) (sa_ip peer) = false ->
  check_and_add_internal instant_min hash Handshake (prekey_iv wire) (at_replay t) rc = Some (false, rc') ->
  exists ok s',
    handle_mtproto_handshake instant_min hash iter eviction_hash wire reader writer peer cfg is_tls preferred t s rc
      = Some (Success (crypto_reader_new reader enc, crypto_writer_new writer dec (cfg_crypto_pending_buffer cfg), ok),
              false, s', rc') /\
    hs_user ok = ue_user entry /\ hs_proto_tag ok = tag /\ hs_dc_idx ok = dc /\
    aes_ctr_new (hs_enc_key ok) (hs_enc_iv ok) = dec.
Proof.
  intros Hcfg Hlen Hthr Hcalm Hin Hnonce Hdc Hmode Hclient Honly Hden Hrep.
  destruct (validate_client _ _ _ _ _ _ _ _ _ Hnonce Hdc Hmode Hclient) as (v & Hv & Htag & Hidx & Hdec & Henc & Hkey).
  rewrite (handle_mtproto_eq instant_min hash iter eviction_hash reader writer peer cfg is_tls t wire preferred snapshot s rc Hcfg Hthr).
  rewrite (search_exact peer cfg is_tls t wire preferred snapshot s Hcalm).
  destruct (first_match _ _ _) as [[[id e] v']|] eqn:Hf.
  - apply first_match_member in Hf as (_ & He & Hv').
    assert (e ∈ entries snapshot) as Hein.
    { unfold entry_by_id in He. destruct (id <? 0); [done|]. by eapply list_elem_of_lookup_2. }
    rewrite list.Forall_forall in Honly. destruct (Honly e Hein) as [->|Hnone]; [|congruence].
    assert (v' = v) as -> by congruence. unfold mtproto_admit, check_and_add_handshake. rewrite Hden, Hrep, Hdec, Henc.
    eexists _, _. split; [reflexivity|]. done.
  - unfold order in Hf. rewrite (assoc_L (++)) in Hf. apply first_match_none in Hf; [|done].
    rewrite list.Forall_forall in Hf. specialize (Hf entry Hin). cbv beta in Hf. congruence.
Qed.

Lemma mtproto_client_admitted_witness :
  exists ok s' rc',
    handle_mtproto_handshake 0 hs_hash map_to_list (fun _ _ => 3) hs_client.1.1 tt tt hs_peer
      (hs_cfg (Some hs_snapshot)) false None hs_times auth_new hs_checker
      = Some (Success (crypto_reader_new tt hs_client.1.2, crypto_writer_new tt hs_client.2 4096, ok), false, s', rc') /\
    hs_user ok = [98] /\ hs_proto_tag ok = Secure /\ hs_dc_idx ok = -2.
Proof.
  assert (fst <$> check_and_add_internal 0 hs_hash Handshake (prekey_iv hs_client.1.1) (6 * NANOS) hs_checker = Some false)
    as Hnew by (vm_compute; reflexivity).
  destruct (check_and_add_internal 0 hs_hash Handshake (prekey_iv hs_client.1.1) (6 * NANOS) hs_checker)
    as [[[] rc']|] eqn:Hrc; try discriminate Hnew.
  destruct (mtproto_client_admitted 0 hs_hash map_to_list (fun _ _ => 3) tt tt hs_peer (hs_cfg (Some hs_snapshot)) false
    hs_times None hs_snapshot auth_new hs_checker rc'
    (mkEntry [98] (replicate 16 6)) Secure (-2) hs_nonce hs_client.1.1 hs_client.1.2 hs_client.2 eq_refl)
    as (ok & s' & Hrun & Hu & Ht & Hd & _).
  - vm_compute. discriminate.
  - vm_compute. reflexivity.
  - vm_compute. reflexivity.
  - rewrite hs_entries. right. left.
  - vm_compute. reflexivity.
  - vm_compute. split; [discriminate|reflexivity].
  - vm_compute. reflexivity.
  - vm_compute. reflexivity.
  - rewrite hs_entries. constructor; [right; vm_compute; reflexivity|]. constructor; [left; reflexivity|]. constructor.
  - vm_compute. reflexivity.
  - exact Hrc.
  - exists ok, s', rc'. split; [exact Hrun|]. split; [exact Hu|]. split; [exact Ht|exact Hd].
Defined.

(** C14: No session is started twice from one handshake.  After a handshake has
    been admitted, no handshake with the same key material is admitted within
    the replay window, for any peer, configuration, state and secret, as long as
    the uses of the checker in between add fewer keys to the shard of this key
    than the shard holds.  The window is not empty, and all times in it are far
    enough from the start of the clock for the window to be subtracted. *)
Theorem mtproto_no_replay {L} `{LruCacheLaws L} {N} `{IpNetwork N} `{StreamKey} `{Sha256} `{Hashing} `{HexDecode} {R W}
    instant_min hash iter eviction_hash (reader reader2 : R) (writer writer2 : W) peer peer2 (cfg cfg2 : HsConfig N)
    is_tls is_tls2 t t2 h h2 preferred preferred2 s s2 total window before ops (rc rc1 rc2 : ReplayChecker L) a delayed s' :
  exec_ops instant_min hash before (checker_new total window) = Some rc -> window <> 0 ->
  handle_mtproto_handshake instant_min hash iter eviction_hash h reader writer peer cfg is_tls preferred t s rc
    = Some (Success a, delayed, s', rc1) ->
  Forall (fun op => in_window instant_min window (at_replay t) (op_time op)) ops ->
  in_window instant_min window (at_replay t) (at_replay t2) ->
  (additions hash Handshake (idx_of hash (prekey_iv h)) ops < shard_capacity total)%nat ->
  exec_ops instant_min hash ops rc1 = Some rc2 -> prekey_iv h2 = prekey_iv h ->
  forall a2 delayed2 s2' rc',
    handle_mtproto_handshake instant_min hash iter eviction_hash h2 reader2 writer2 peer2 cfg2 is_tls2 preferred2 t2 s2 rc2
      <> Some (Success a2, delayed2, s2', rc').
Proof.
  intros Hbefore Hw Hfirst Hops Hnow Hroom Hbetween Hsame a2 delayed2 s2' rc' Hsecond.
  apply handle_success_checks in Hfirst, Hsecond. rewrite Hsame in Hsecond.
  destruct (exec_ops_inv instant_min hash _ _ _ _ (checker_new_inv total window) Hbefore) as [Hc [_ Hcfg]].
  assert (window_of Handshake rc = window) as Hwin by (by rewrite Hcfg).
  rewrite <- Hwin in Hw, Hops, Hnow.
  destruct (check_and_add_new instant_min hash _ _ _ _ _ _ Hc Hw Hfirst) as (Hc1 & Hw1 & sh & Hs & Hh).
  rewrite <- Hw1 in Hw, Hops, Hnow.
  destruct (run_holds instant_min hash _ ops rc1 Handshake _ sh _ _ 0 Hc1 Hw Hops Hroom Hs Hh)
    as (rc2' & sh2 & Hrun & Hc2 & Hw2 & Hs2 & Hh2).
  rewrite Hbetween in Hrun. injection Hrun as <-. rewrite <- Hw2 in Hw, Hnow.
  destruct (check_and_add_answer instant_min hash _ Handshake (prekey_iv h) (at_replay t2) rc2 sh2 Hc2 Hw Hs2) as [Hans _].
  rewrite Hsecond in Hans. cbn in Hans. rewrite bool_decide_eq_true_2 in Hans; [done|].
  eapply holds_elem, holds_drop_old; [by apply in_window_cutoff|done].
Qed.

(** The same bytes from another address, twenty seconds later. *)
Lemma mtproto_no_replay_witness :
  exists a d s' rc1,
    handle_mtproto_handshake 0 hs_hash map_to_list (fun _ _ => 3) hs_client.1.1 tt tt hs_peer (hs_cfg (Some hs_snapshot))
      false None (mkInstants (95 * NANOS) (95 * NANOS) (96 * NANOS) (96 * NANOS)) auth_new hs_checker
      = Some (Success a, d, s', rc1) /\
    forall a2 d2 s2 rc2,
      handle_mtproto_handshake 0 hs_hash map_to_list (fun _ _ => 3) hs_client.1.1 tt tt (mkSocketAddr (IpV4 [9; 9; 9; 9]) 5)
        (hs_cfg None) false None (mkInstants (115 * NANOS) (115 * NANOS) (116 * NANOS) (116 * NANOS)) auth_new rc1
      <> Some (Success a2, d2, s2, rc2).
Proof.
  match goal with |- exists a d s' rc1, ?run = _ /\ _ =>
    assert (match run with Some (Success _, _, _, _) => true | _ => false end = true) as Hok by (vm_compute; reflexivity);
    destruct run as [[[[[a| |e] d] s'] rc1]|] eqn:Hfirst; try discriminate Hok end.
  exists a, d, s', rc1. split; [reflexivity|]. clear Hok.
  refine (mtproto_no_replay 0 hs_hash map_to_list (fun _ _ => 3) tt tt tt tt hs_peer (mkSocketAddr (IpV4 [9; 9; 9; 9]) 5)
    (hs_cfg (Some hs_snapshot)) (hs_cfg None) false false _ _ hs_client.1.1 hs_client.1.1 None None auth_new auth_new
    128 (60 * NANOS) [] [] hs_checker rc1 rc1 a d s' eq_refl _ Hfirst _ _ _ eq_refl eq_refl).
  - vm_compute. discriminate.
  - constructor.
  - split; vm_compute; discriminate.
  - vm_compute. lia.
Defined.

(** * The handshake with a datacenter *)

(** C28: A datacenter understands the proxy.  The loop returns the first random
    value that passes the test, or none was drawn; the 64 bytes sent start with
    none of the reserved patterns; a datacenter that takes the key material as
    it stands reads the framing and the index the client asked for, and holds
    the two ciphers the proxy goes on with; and in fast mode what it encrypts is
    already encrypted for the client. *)
Theorem dc_nonce_accepted {G} `{StdRngLaws G} `{StreamKey} fuel tag dc key iv fast (rng : SecureRandomInner G) :
  - 2 ^ 15 <= dc < 2 ^ 15 -> length key = KEY_LEN -> 0 <= iv < 2 ^ 128 ->
  match generate_tg_nonce fuel tag dc key iv fast rng with
  | None => Forall (fun nonce => is_valid_nonce nonce = false) (draws fuel rng)
  | Some (tn, _) =>
      let '(wire, enc, dec) := encrypt_tg_nonce_with_ciphers (tn_nonce tn) in
      dc_accept wire = (Some tag, dc, enc, dec) /\ length wire = HANDSHAKE_LEN /\ is_valid_nonce wire = true /\
      enc = mkAesCtr (tn_enc_key tn) (tn_enc_iv tn) HANDSHAKE_LEN /\ dec = aes_ctr_new (tn_dec_key tn) (tn_dec_iv tn) /\
      (fast = true -> dec = aes_ctr_new key iv)
  end.
Proof.
  intros Hdc Hkey Hiv. rewrite generate_tg_nonce_eq. pose proof (generate_nonce_first fuel rng) as Hfirst.
  destruct (generate_nonce fuel rng) as [[nonce rng']|] eqn:Hg; [|done].
  apply generate_nonce_ok in Hg as [Hl Hv].
  pose proof (dc_accept_nonce tag dc key iv fast nonce Hl Hdc Hkey) as Hdc'. cbv zeta in Hdc'.
  destruct (encrypt_tg_nonce_with_ciphers _) as [[wire enc] dec]. destruct Hdc' as (Ha & Hlen & Hpre & He & Hd).
  split_and!; try done; [by rewrite (is_valid_nonce_prefix _ _ Hpre)|].
  intros ->. destruct (fast_mode_shares tag dc key iv nonce Hl Hkey Hiv) as [Hk Hi]. by rewrite Hd, Hk, Hi.
Qed.

Lemma dc_nonce_accepted_witness :
  match generate_tg_nonce 3 Intermediate 4 (replicate 32 8) 77 true (mkRandom 0%nat (aes_ctr_new [1] 9) [] 0%nat) with
  | None => Forall (fun nonce => is_valid_nonce nonce = false) (draws 3 (mkRandom 0%nat (aes_ctr_new [1] 9) [] 0%nat))
  | Some (tn, _) =>
      let '(wire, enc, dec) := encrypt_tg_nonce_with_ciphers (tn_nonce tn) in
      dc_accept wire = (Some Intermediate, 4, enc, dec) /\ length wire = HANDSHAKE_LEN /\ is_valid_nonce wire = true /\
      enc = mkAesCtr (tn_enc_key tn) (tn_enc_iv tn) HANDSHAKE_LEN /\ dec = aes_ctr_new (tn_dec_key tn) (tn_dec_iv tn) /\
      (true = true -> dec = aes_ctr_new (replicate 32 8) 77)
  end.
Proof. apply (dc_nonce_accepted 3 Intermediate 4 (replicate 32 8) 77 true); vm_compute; (reflexivity || (split; (discriminate || reflexivity))). Defined.

(** * The TLS front *)

(** C10: Both ways of looking users up accept the same clients.  Take a snapshot
    made of the configured users, a proxy that is not saturated, and a hello
    whose name suggests at most 28 users.  Then the search through the snapshot
    and the search through the secrets decoded on the spot both return.  Each
    accepts a client only if a configured secret signed its hello, at an accepted
    time, and its address is not denied to that user; and refuses it, with a
    delay, only if the hello is malformed, if no configured secret signed it, or
    if the address is denied to a user whose secret did.  If no two users can
    have signed the hello, the two searches give the same answer: the same user,
    secret, digest and session id, or a refusal. *)
Theorem tls_search_exact {N} `{IpNetwork N} `{HmacSha256Laws} `{Hashing} `{HexDecode} iter eviction_hash
    h peer (cfg : HsConfig N) clock (t : TlsInstants) preferred sni snapshot s :
  bytes_ok h -> NoDup (cfg_users cfg).*1 -> from_users (cfg_users cfg) = Ok snapshot ->
  calm (ti t) s -> suggestions_fit (with_snapshot cfg (Some snapshot)) sni ->
  exists found d s1 found' d' s1',
    validate_tls_client iter eviction_hash h peer (with_snapshot cfg (Some snapshot)) clock (ti t) preferred sni s
      = Some (found, d, s1) /\
    validate_tls_client iter eviction_hash h peer (with_snapshot cfg None) clock (ti t) preferred sni s
      = Some (found', d', s1') /\
    search_verdict peer cfg clock h found d /\ search_verdict peer cfg clock h found' d' /\
    ((forall user secret user' secret', signer cfg clock h user secret -> signer cfg clock h user' secret' -> user = user') ->
     client_of <$> found = client_of <$> found' /\ d = d').
Proof.
  intros Hok Hnd Hsnap Hcalm Hfit.
  destruct (validate_tls_client_some iter eviction_hash peer (with_snapshot cfg (Some snapshot)) clock t h preferred sni s Hok)
    as (found & d & s1 & Hrun).
  destruct (validate_tls_client_some iter eviction_hash peer (with_snapshot cfg None) clock t h preferred sni s Hok)
    as (found' & d' & s1' & Hrun').
  assert (search_verdict peer cfg clock h found d) as Hv by (eapply search_verdict_ok; try done; intros ? [= <-]; done).
  assert (search_verdict peer cfg clock h found' d') as Hv' by (by eapply (search_verdict_ok _ _ _ _ _ _ None)).
  exists found, d, s1, found', d', s1'. split_and!; try done. intros Hone. by eapply verdicts_agree.
Qed.

(** A hello for "e.c", signed at time 1000 with a secret. *)
Definition hs_hello : Hello := {|
  hl_version := 0x0303;
  hl_random := replicate 32 0;
  hl_session_id := replicate 32 5;
  hl_suites := [[0x13; 0x03]; [0x13; 0x01]];
  hl_compression := [0];
  hl_extensions := [(0, vec16 (encode_names [(0, [101; 46; 99])]));
    (EXT_SUPPORTED_VERSIONS, Z.of_nat (2 * length [0x0304]) :: encode_versions [0x0304]);
    (EXT_KEY_SHARE, vec16 (encode_tlvs [(X25519, replicate 32 7)]))];
|}.
Definition hs_signed (secret : list Z) : list Z :=
  let h := encode_hello hs_hello in
  take 11 h ++ xor_bytes (sha256_hmac secret h) (stamp 1000) ++ drop 43 h.
Definition hs_tls_times : TlsInstants := mkTlsInstants hs_times (6 * NANOS) (6 * NANOS) (6 * NANOS) 1060.

Lemma hs_signed_ok : bytes_ok (hs_signed (replicate 16 6)).
Proof. by apply (bool_decide_eq_true_1 (bytes_ok (hs_signed (replicate 16 6)))); vm_compute. Qed.

Lemma hs_users_nodup : NoDup hs_users.*1.
Proof. by apply (bool_decide_eq_true_1 (NoDup hs_users.*1)); vm_compute. Qed.

(** Of the two secrets only the second signed the hello. *)
Lemma hs_signers user secret user' secret' :
  signer (hs_cfg None) (Some 1060) (hs_signed (replicate 16 6)) user secret ->
  signer (hs_cfg None) (Some 1060) (hs_signed (replicate 16 6)) user' secret' -> user = user'.
Proof.
  assert (forall u k, signer (hs_cfg None) (Some 1060) (hs_signed (replicate 16 6)) u k -> u = [98]) as Hone; [|by intros ->%Hone ->%Hone].
  intros u k [(hx & Hin & [= ->] & _) (now & ts & _ & Ha)]. cbn in *.
  apply elem_of_cons in Hin as [[= -> ->]|Hin]; [exfalso|by apply list_elem_of_singleton in Hin as [= ->]].
  destruct Ha as (_ & Hdig & _). apply (f_equal (fun l => l !! 0%nat)) in Hdig. vm_compute in Hdig. discriminate Hdig.
Qed.

Lemma tls_search_exact_witness :
  exists found d s1 found' d' s1',
    validate_tls_client map_to_list (fun _ _ => 3) (hs_signed (replicate 16 6)) hs_peer (hs_cfg (Some hs_snapshot))
      (Some 1060) hs_times None (Some [101; 46; 99]) auth_new = Some (found, d, s1) /\
    validate_tls_client map_to_list (fun _ _ => 3) (hs_signed (replicate 16 6)) hs_peer (hs_cfg None)
      (Some 1060) hs_times None (Some [101; 46; 99]) auth_new = Some (found', d', s1') /\
    client_of <$> found = client_of <$> found'.
Proof.
  destruct (tls_search_exact map_to_list (fun _ _ => 3) (hs_signed (replicate 16 6)) hs_peer (hs_cfg None)
    (Some 1060) hs_tls_times None (Some [101; 46; 99]) hs_snapshot auth_new hs_signed_ok hs_users_nodup)
    as (f & d & s1 & f' & d' & s1' & Hrun & Hrun' & _ & _ & Hsame).
  - vm_compute. reflexivity.
  - vm_compute. reflexivity.
  - vm_compute. split; [lia|discriminate].
  - exists f, d, s1, f', d', s1'. split; [exact Hrun|]. split; [exact Hrun'|]. apply Hsame.
    exact hs_signers.
Defined.

(** C6: Every run of the TLS front is accounted for, with the answer taken from
    the front's cache or made up, and written in one piece or in fragments.  It
    never panics, on any bytes.  An accepted client is a configured user whose
    secret signed the hello and who may connect from there; the digest was new
    and is remembered; the answer is on the wire in full and proves that the
    proxy has the same secret; and the stream goes on as records above it.  A
    refused client has received nothing and was delayed, and the failure is
    counted against its address unless the address was throttled already or only
    the protocol list was refused.  An unknown name is dropped after the delay or
    rejected without it, as configured; a rejected client is sent the alert unless
    the socket fails.  A run ends with an error only after such a client was
    validated and its digest remembered, when the socket failed or could not be
    written in fragments; and it is still waiting only if the socket was not
    ready as often as the bound allows. *)
Theorem tls_front_accounted {L} `{LruCacheLaws L} {N} `{IpNetwork N} {G} `{StdRngLaws G} `{StreamKey} `{HmacSha256Laws}
    `{X25519Laws} `{Checksums} `{Hashing} `{HexDecode} {R W} `{AsyncWrite W} `{TcpFd W} (spec : WriterSpec W) instant_min hash
    iter eviction_hash ip_hash cap polls options h (reader : R) peer (cfg : HsConfig N) clock t s (rc : ReplayChecker L)
    (rng : SecureRandomInner G) (w : W) cache :
  TcpFdSpec W spec -> (forall m, iter m ≡ₚ map_to_list m) ->
  bytes_ok h -> NoDup (cfg_users cfg).*1 -> checker_inv cap rc -> writer_ok spec w -> settled spec w ->
  table_ok (probe s) -> at_throttle (ti t) <= at_failure (ti t) ->
  tls_ends instant_min hash spec reader peer cfg clock t polls h s rc w cache
    (handle_tls_handshake instant_min hash iter eviction_hash ip_hash polls options h reader peer cfg clock t s rc rng w cache).
Proof. intros Hfd Hiter. by apply handle_tls_ends. Qed.

Definition hs_random : SecureRandomInner nat := mkRandom 0%nat (aes_ctr_new [1] 9) [] 0%nat.

#[local] Instance hs_checksums : Checksums := {| crc32 l := mix 3 l; crc32c l := mix 5 l |}.
(** A descriptor that sends what the socket accepts. *)
#[local] Instance hs_fd : TcpFd WriteSocket := {
  fd_open w := (Ok tt, w);
  fd_get_maxseg w := (Ok 1460, w);
  fd_set_maxseg _ w := (Ok tt, w);
  fd_nodelay w := (Ok tt, w);
  fd_send data w :=
    match wr_script w with
    | WPending :: s => (SendBlocked, mkWriteSocket s (wr_log w))
    | WError e :: s => (SendFailed e, mkWriteSocket s (wr_log w))
    | WAccept n :: s => (Sent (Nat.min n (length data)), mkWriteSocket s (wr_log w ++ take n data))
    | [] => (Sent (length data), mkWriteSocket [] (wr_log w ++ data))
    end;
}.

Lemma hs_fd_spec : TcpFdSpec WriteSocket socket_writer_spec.
Proof.
  split; try (intros; simplify_eq/=; done).
  intros data w r w' _. cbn. destruct (wr_script w) as [|[|e|n] s]; intros [= <- <-]; cbn; try done.
  - split_and!; try done. by rewrite firstn_all.
  - split_and!; try done; [lia|]. f_equal. destruct (decide (n <= length data)%nat); [by rewrite Nat.min_l|].
    rewrite Nat.min_r, firstn_all, take_ge by lia. done.
Qed.

(** A cache with a profile for the domain, with its certificate and records. *)
Definition hs_cached : CachedTlsData :=
  mkCached (mkParsedHello (0x03, 0x03) (replicate 32 1) [] (0x13, 0x03) 0 []) None
    (Some (mkCertPayload [replicate 40 3] (replicate 60 4))) [300; 200] 500 (mkBehavior 1 [300; 200] [] SourceMerged 127) [101; 46; 99].
Definition hs_cache : TlsFrontCache := cache_set [101; 46; 99] hs_cached (front_cache_new [] 2048 0 0).
Definition hs_socket : WriteSocket := mkWriteSocket [WPending; WAccept 30; WPending] [].
Definition hs_front_run :=
  handle_tls_handshake 0 hs_hash map_to_list (fun _ _ => 3) (fun _ => 5) 8 (write_options_tcp 7 (Some 100)) (hs_signed (replicate 16 6))
    tt hs_peer (hs_cfg (Some hs_snapshot)) (Some 1060) hs_tls_times auth_new hs_checker hs_random hs_socket (Some hs_cache).

Lemma tls_front_accounted_witness :
  tls_ends 0 hs_hash socket_writer_spec tt hs_peer (hs_cfg (Some hs_snapshot)) (Some 1060) hs_tls_times 8
    (hs_signed (replicate 16 6)) auth_new hs_checker hs_socket (Some hs_cache) hs_front_run /\
  match hs_front_run with TlsDone (Success (_, _, user)) _ _ _ _ _ _ => user = [98] | _ => False end.
Proof.
  split.
  - apply (tls_front_accounted socket_writer_spec 0 hs_hash map_to_list (fun _ _ => 3) (fun _ => 5) (shard_capacity 128)).
    + exact hs_fd_spec.
    + reflexivity.
    + exact hs_signed_ok.
    + exact hs_users_nodup.
    + apply checker_new_inv.
    + exact I.
    + exact I.
    + exact auth_new_ok.
    + vm_compute. discriminate.
  - vm_compute. reflexivity.
Defined.

(** * Work and memory *)

Lemma mtproto_admit_counts {L} `{LruCache L} {N} `{IpNetwork N} `{Hashing} {R W}
    instant_min hash iter eviction_hash h (reader : R) (writer : W) peer (cfg : HsConfig N) is_tls t user user_id v s
    (rc : ReplayChecker L) res delayed s' rc' :
  mtproto_admit instant_min hash iter eviction_hash h reader writer peer cfg is_tls t user user_id v s rc
    = Some (res, delayed, s', rc') ->
  auth_expensive_checks_total s' = auth_expensive_checks_total s.
Proof.
  unfold mtproto_admit. destruct (is_user_source_ip_denied _ _ _); [by intros [= _ _ <- _]|].
  destruct (check_and_add_handshake _ _ _ _ _) as [[[] ?]|]; intros [= _ _ <- _]; [done|].
  destruct user_id; [|done]. unfold record_recent_user_success_in. by destruct (bool_decide _).
Qed.

(** C36: The work a stranger can cause is bounded.  Whatever 64 bytes arrive, a
    handshake tries at most as many secrets as there are users, at most 16 while
    the proxy is saturated, and none for a throttled address; the counter grows
    by exactly the number tried. *)
Theorem mtproto_work_bounded {L} `{LruCacheLaws L} {N} `{IpNetwork N} `{StreamKey} `{Sha256} `{Hashing} `{HexDecode} {R W}
    instant_min hash iter eviction_hash (reader : R) (writer : W) peer (cfg : HsConfig N) is_tls t
    h preferred snapshot cap s (rc : ReplayChecker L) :
  cfg_runtime_user_auth cfg = Some snapshot -> checker_inv cap rc -> 0 <= auth_expensive_checks_total s < 2 ^ 64 ->
  exists res delayed s' rc' checks,
    handle_mtproto_handshake instant_min hash iter eviction_hash h reader writer peer cfg is_tls preferred t s rc
      = Some (res, delayed, s', rc') /\
    auth_expensive_checks_total s' = (auth_expensive_checks_total s + Z.of_nat checks) mod 2 ^ 64 /\
    (checks <= length (entries snapshot))%nat /\
    (overloaded peer t s = true -> (checks <= OVERLOAD_CANDIDATE_BUDGET_HINTED)%nat) /\
    (~ not_throttled peer t s -> checks = 0%nat /\ res = BadClient).
Proof.
  intros Hcfg Hrc Hrange.
  destruct (handle_mtproto_total instant_min hash iter eviction_hash reader writer peer cfg is_tls t cap h preferred s rc Hrc)
    as (res & delayed & s' & rc' & Hrun).
  exists res, delayed, s', rc'.
  assert (Decision (not_throttled peer t s)) as Hdec by (unfold not_throttled; apply _).
  destruct Hdec as [Hthr|Hthr].
  - exists (validation_checks (search peer cfg is_tls t h preferred snapshot s).2). split; [done|].
    rewrite (handle_mtproto_eq instant_min hash iter eviction_hash reader writer peer cfg is_tls t h preferred snapshot s rc Hcfg Hthr) in Hrun.
    pose proof (try_loop_sound (validate_mtproto h (cfg_modes cfg) is_tls) snapshot (budget peer t preferred snapshot s)
      (order snapshot (hints peer preferred snapshot s) [recent_users s]) scan_start (failed_start _ _ _)) as Hb.
    fold (search peer cfg is_tls t h preferred snapshot s) in Hb.
    destruct (search peer cfg is_tls t h preferred snapshot s) as [hit scan]. destruct Hb as [Hb _]. cbn [snd] in *.
    split.
    { destruct (matched scan) as [[[id e] v]|]; [by rewrite (mtproto_admit_counts _ _ _ _ _ _ _ _ _ _ _ _ _ _ _ _ _ _ _ _ Hrun)|].
      by injection Hrun as _ _ <- _. }
    revert Hb. unfold budget, budget_for_validation.
    destruct (Nat.eqb_spec (length (entries snapshot)) 0); [intros; repeat split; (lia || done)|].
    destruct (overloaded peer t s); cbn [negb]; [|intros; repeat split; (lia || done)].
    unfold OVERLOAD_CANDIDATE_BUDGET_HINTED, OVERLOAD_CANDIDATE_BUDGET_UNHINTED. destruct (existsb _ _); repeat split; (lia || done).
  - exists 0%nat. split; [done|]. revert Hrun. unfold not_throttled in Hthr. unfold handle_mtproto_handshake.
    destruct (auth_probe_should_apply_preauth_throttle_in _ _ _) as [[] p1]; [|by destruct Hthr].
    intros [= <- _ <- _]. split; [cbn; rewrite Z.add_0_r, Z.mod_small; done|]. repeat split; lia.
Qed.

Lemma mtproto_work_bounded_witness :
  exists res delayed s' rc' checks,
    handle_mtproto_handshake 0 hs_hash map_to_list (fun _ _ => 3) hs_nonce tt tt hs_peer
      (hs_cfg (Some hs_snapshot)) false None hs_times auth_new hs_checker = Some (res, delayed, s', rc') /\
    auth_expensive_checks_total s' = Z.of_nat checks mod 2 ^ 64 /\ (checks <= 2)%nat.
Proof.
  destruct (mtproto_work_bounded 0 hs_hash map_to_list (fun _ _ => 3) tt tt hs_peer (hs_cfg (Some hs_snapshot)) false hs_times
    hs_nonce None hs_snapshot (shard_capacity 128) auth_new hs_checker eq_refl)
    as (res & delayed & s' & rc' & checks & Hrun & Hc & Hn & _).
  - apply checker_new_inv.
  - split; [vm_compute; discriminate|vm_compute; reflexivity].
  - exists res, delayed, s', rc', checks. split; [exact Hrun|]. split; [exact Hc|exact Hn].
Defined.

(** C37: Regular users are served under attack.  A client whose address is
    remembered for a user, and which proves that user's secret, is admitted as
    that user after a single check, also while the proxy is saturated and would
    try few secrets for a stranger, unless the address is throttled or denied to
    the user or the handshake is a replay. *)
Theorem sticky_user_survives_overload {L} `{LruCache L} {N} `{IpNetwork N} `{StreamKey} `{Sha256} `{Hashing} `{HexDecode} {R W}
    instant_min hash iter eviction_hash (reader : R) (writer : W) peer (cfg : HsConfig N) is_tls t
    h preferred snapshot s (rc rc' : ReplayChecker L) user_id entry v :
  cfg_runtime_user_auth cfg = Some snapshot -> not_throttled peer t s ->
  sticky_hint_get_by_ip (sa_ip peer) s = Some user_id -> entry_by_id user_id snapshot = Some entry ->
  validate_mtproto h (cfg_modes cfg) is_tls (ue_secret entry) = Some v ->
  is_user_source_ip_denied cfg (ue_user entry) (sa_ip peer) = false ->
  check_and_add_internal instant_min hash Handshake (prekey_iv h) (at_replay t) rc = Some (false, rc') ->
  exists session s',
    handle_mtproto_handshake instant_min hash iter eviction_hash h reader writer peer cfg is_tls preferred t s rc
      = Some (Success session, false, s', rc') /\
    hs_user session.2 = ue_user entry /\
    auth_expensive_checks_total s' = (auth_expensive_checks_total s + 1) mod 2 ^ 64 /\
    sticky_hint_get_by_ip (sa_ip peer) s' = Some user_id.
Proof.
  intros Hcfg Hthr Hid He Hv Hden Hrep.
  rewrite (handle_mtproto_eq instant_min hash iter eviction_hash reader writer peer cfg is_tls t h preferred snapshot s rc Hcfg Hthr).
  rewrite (search_sticky peer cfg is_tls t h preferred snapshot s user_id entry v Hid He Hv).
  cbn [matched validation_checks budget_exhausted]. unfold mtproto_admit, check_and_add_handshake. rewrite Hden, Hrep.
  eexists _, _. split; [reflexivity|]. unfold record_recent_user_success_in, sticky_hint_get_by_ip.
  destruct (bool_decide _); (split; [done|]; split; [done|]); cbn; unfold hint_insert; by rewrite lookup_insert_eq.
Qed.

(** A saturated proxy that remembers user 1 for the address. *)
Definition hs_saturated : AuthState :=
  mkAuth (mkShared ∅ (Some (mkProbe 10 (9 * NANOS) (4 * NANOS))) None) ∅ {[ sa_ip hs_peer := 1 ]} ∅ ∅ (replicate 64 0) 0 0 0.

Lemma sticky_user_survives_overload_witness :
  overloaded hs_peer hs_times hs_saturated = true /\
  exists session s' rc',
    handle_mtproto_handshake 0 hs_hash map_to_list (fun _ _ => 3) hs_client.1.1 tt tt hs_peer
      (hs_cfg (Some hs_snapshot)) false None hs_times hs_saturated hs_checker = Some (Success session, false, s', rc') /\
    hs_user session.2 = [98].
Proof.
  split; [vm_compute; reflexivity|].
  assert (fst <$> check_and_add_internal 0 hs_hash Handshake (prekey_iv hs_client.1.1) (6 * NANOS) hs_checker = Some false)
    as Hnew by (vm_compute; reflexivity).
  destruct (check_and_add_internal 0 hs_hash Handshake (prekey_iv hs_client.1.1) (6 * NANOS) hs_checker)
    as [[[] rc']|] eqn:Hrc; try discriminate Hnew.
  assert (is_Some (validate_mtproto hs_client.1.1 (mkModes true true true) false (replicate 16 6))) as [v Hv]
    by (apply (bool_decide_eq_true_1 (is_Some _)); vm_compute; reflexivity).
  destruct (sticky_user_survives_overload 0 hs_hash map_to_list (fun _ _ => 3) tt tt hs_peer (hs_cfg (Some hs_snapshot)) false
    hs_times hs_client.1.1 None hs_snapshot hs_saturated hs_checker rc' 1 (mkEntry [98] (replicate 16 6)) v eq_refl)
    as (session & s' & Hrun & Hu & _).
  - vm_compute. reflexivity.
  - vm_compute. reflexivity.
  - vm_compute. reflexivity.
  - exact Hv.
  - vm_compute. reflexivity.
  - exact Hrc.
  - exists session, s', rc'. split; [exact Hrun|exact Hu].
Defined.

(** The ring of atomics is a list of recent successes.  After any sequence
    of recorded users, however often it has gone round, the ids read back from
    the ring are the latest 32 recorded, newest first. *)
Theorem recent_users_refine (ids : list Z) :
  Forall (fun id => 0 <= id < 2 ^ 32 - 1) ids ->
  recent_users (foldl (fun s id => record_recent_user_success_in id s) auth_new ids)
    = take RECENT_USER_RING_SCAN_LIMIT (reverse ids).
Proof.
  intros Hids. apply recent_users_history; [|by apply Forall_reverse].
  clear Hids. induction ids as [|id ids IH] using rev_ind; [apply ring_holds_new|].
  rewrite foldl_app, reverse_app. cbn. by apply ring_holds_record.
Qed.

Lemma recent_users_refine_witness :
  recent_users (foldl (fun s id => record_recent_user_success_in id s) auth_new (Z.of_nat <$> seq 0 100))
    = Z.of_nat <$> reverse (seq 68 32).
Proof.
  rewrite (recent_users_refine (Z.of_nat <$> seq 0 100)).
  - vm_compute. reflexivity.
  - apply Forall_fmap, list.Forall_forall. intros i Hi%elem_of_seq. cbn beta. unfold compose. lia.
Defined.

(** * Where the search falls short *)

(** A hundred users whose names start with one letter and one whose name does
    not: the hello of the last one, for a domain with that letter, is refused
    through the snapshot although nothing is throttled or saturated, and is
    accepted without the snapshot. *)
Definition crowded_users : list (list Z * list Z) :=
  ((fun i => ([101; Z.of_nat i], replicate 16 (Z.of_nat i))) <$> seq 0 100) ++ [([122], replicate 16 200)].
Definition crowded_cfg (snapshot : option UserAuthSnapshot) : HsConfig (list Z) :=
  mkHsConfig (list Z) crowded_users snapshot ∅ false 600 (mkModes true true true) 4096 [101; 46; 99] [] false SniMask 100 2 ∅ true false 90.
Definition crowded_run (snapshot : option UserAuthSnapshot) : option (option (list Z) * Z) :=
  match validate_tls_client map_to_list (fun _ _ => 3) (hs_signed (replicate 16 200)) hs_peer (crowded_cfg snapshot)
    (Some 1060) hs_times None (Some [101; 46; 99]) auth_new with
  | Some (found, _, s) => Some (tcv_user <$> found, auth_expensive_checks_total s)
  | None => None
  end.

Lemma crowded_initial_refused :
  match from_users crowded_users with
  | Ok snapshot =>
      overloaded hs_peer hs_times auth_new = false /\
      crowded_run (Some snapshot) = Some (None, 101) /\
      option_map fst (crowded_run None) = Some (Some [122])
  | Err _ => False
  end.
Proof. vm_compute. repeat split. Qed.

(** Two handshakes with one digest, each looking before either has added: both
    find it new, and both go on. *)
Definition digest_race (digest : list Z) : option (bool * bool * bool) :=
  '(seen_a, rc) ← check_only_internal 0 hs_hash TlsDigest digest (295 * NANOS) hs_checker;
  '(seen_b, rc) ← check_only_internal 0 hs_hash TlsDigest digest (295 * NANOS) rc;
  rc ← add_only 0 hs_hash TlsDigest digest (296 * NANOS) rc;
  rc ← add_only 0 hs_hash TlsDigest digest (296 * NANOS) rc;
  '(seen_c, _) ← check_only_internal 0 hs_hash TlsDigest digest (297 * NANOS) rc;
  Some (seen_a, seen_b, seen_c).

Lemma tls_digest_race : digest_race (replicate 16 3) = Some (false, false, true).
Proof. by vm_compute. Qed.
