(* ===== verification/IpTracker.v ===== *)
(** The limits on the number of addresses and connections of a user:
    ip_tracker.rs with ip_tracker/admission.rs, cleanup.rs and snapshot.rs, the
    connection counter of stats/users.rs and the reservations of
    proxy/client.rs.

    A function holds the lock of one shard or of one queue while it works on it:
    each such section is a definition of its own, and the async functions are
    their composition.  Poisoned locks are recovered from and treated like
    others.  User names are byte strings, instants are nanoseconds. *)

From stdpp Require Import base list gmap numbers.
From S2P Require Import Net Prelude AuthProbe.
Local Open Scope Z_scope.

Definition CLEANUP_DRAIN_BATCH_LIMIT : nat := 1024.
Definition MAX_ACTIVE_IP_ENTRIES : Z := 131072.
Definition MAX_RECENT_IP_ENTRIES : Z := 262144.
Definition USER_IP_TRACKER_SHARDS : nat := 64.
Definition USER_IP_TRACKER_SHARD_MASK : Z := 63.
Definition COMPACT_INTERVAL_SECS : Z := 60.

Inductive UserMaxUniqueIpsMode := ActiveWindow | TimeWindow | Combined.

Definition mode_to_u8 (mode : UserMaxUniqueIpsMode) : Z :=
  match mode with ActiveWindow => 0 | TimeWindow => 1 | Combined => 2 end.
Definition mode_from_u8 (raw : Z) : UserMaxUniqueIpsMode :=
  if raw =? 1 then TimeWindow else if raw =? 2 then Combined else ActiveWindow.

(** The order in which a [HashMap] is iterated, and the hash of a name. *)
Class HashIter := hash_iter : forall K `{Countable K} A, gmap K A -> list (K * A).
Class HashIterLaws `{HashIter} := hash_iter_perm : forall K `{Countable K} A (m : gmap K A), hash_iter K A m ≡ₚ map_to_list m.
Class StrHash := str_hash : list Z -> Z.

Notation UserIps := (gmap (list Z) (gmap IpAddr Z)).

Record UserIpShard := mkIpShard {
  active_ips : UserIps;
  recent_ips : UserIps;
}.

Record UserIpTracker := mkIpTracker {
  ip_shards : list UserIpShard;
  active_entry_count : Z;
  recent_entry_count : Z;
  active_cap_rejects : Z;
  recent_cap_rejects : Z;
  cleanup_deferred_releases : Z;
  max_ips : gmap (list Z) Z;
  default_max_ips : Z;
  limit_mode : Z;
  limit_window_secs : Z;
  last_compact_epoch_secs : Z;
  cleanup_queue_len : Z;
  cleanup_shards : list UserIps;
}.

Definition ip_tracker_new : UserIpTracker :=
  mkIpTracker (replicate USER_IP_TRACKER_SHARDS (mkIpShard ∅ ∅)) 0 0 0 0 0 ∅ 0 (mode_to_u8 ActiveWindow) 30 0 0
    (replicate USER_IP_TRACKER_SHARDS ∅).

(** ** Access to the parts *)

Definition ip_shard (idx : nat) (t : UserIpTracker) : UserIpShard := default (mkIpShard ∅ ∅) (ip_shards t !! idx).
Definition cleanup_queue (idx : nat) (t : UserIpTracker) : UserIps := default ∅ (cleanup_shards t !! idx).

Definition with_entries (active recent : Z) (t : UserIpTracker) : UserIpTracker :=
  mkIpTracker (ip_shards t) active recent (active_cap_rejects t) (recent_cap_rejects t) (cleanup_deferred_releases t)
    (max_ips t) (default_max_ips t) (limit_mode t) (limit_window_secs t) (last_compact_epoch_secs t)
    (cleanup_queue_len t) (cleanup_shards t).
Definition with_ip_shard (idx : nat) (sh : UserIpShard) (t : UserIpTracker) : UserIpTracker :=
  mkIpTracker (<[idx := sh]> (ip_shards t)) (active_entry_count t) (recent_entry_count t) (active_cap_rejects t)
    (recent_cap_rejects t) (cleanup_deferred_releases t)
    (max_ips t) (default_max_ips t) (limit_mode t) (limit_window_secs t) (last_compact_epoch_secs t)
    (cleanup_queue_len t) (cleanup_shards t).
Definition with_queue (idx : nat) (queue : UserIps) (len deferred : Z) (t : UserIpTracker) : UserIpTracker :=
  mkIpTracker (ip_shards t) (active_entry_count t) (recent_entry_count t) (active_cap_rejects t) (recent_cap_rejects t)
    deferred (max_ips t) (default_max_ips t) (limit_mode t) (limit_window_secs t) (last_compact_epoch_secs t)
    len (<[idx := queue]> (cleanup_shards t)).
Definition with_queue_len (len : Z) (t : UserIpTracker) : UserIpTracker :=
  mkIpTracker (ip_shards t) (active_entry_count t) (recent_entry_count t) (active_cap_rejects t) (recent_cap_rejects t)
    (cleanup_deferred_releases t) (max_ips t) (default_max_ips t) (limit_mode t) (limit_window_secs t) (last_compact_epoch_secs t)
    len (cleanup_shards t).
Definition count_rejects (active recent : Z) (t : UserIpTracker) : UserIpTracker :=
  mkIpTracker (ip_shards t) (active_entry_count t) (recent_entry_count t) ((active_cap_rejects t + active) mod 2 ^ 64)
    ((recent_cap_rejects t + recent) mod 2 ^ 64) (cleanup_deferred_releases t)
    (max_ips t) (default_max_ips t) (limit_mode t) (limit_window_secs t) (last_compact_epoch_secs t)
    (cleanup_queue_len t) (cleanup_shards t).
Definition with_policy (limits : gmap (list Z) Z) (default_limit mode window_secs : Z) (t : UserIpTracker) : UserIpTracker :=
  mkIpTracker (ip_shards t) (active_entry_count t) (recent_entry_count t) (active_cap_rejects t) (recent_cap_rejects t)
    (cleanup_deferred_releases t) limits default_limit mode window_secs (last_compact_epoch_secs t)
    (cleanup_queue_len t) (cleanup_shards t).
Definition with_last_compact (epoch_secs : Z) (t : UserIpTracker) : UserIpTracker :=
  mkIpTracker (ip_shards t) (active_entry_count t) (recent_entry_count t) (active_cap_rejects t) (recent_cap_rejects t)
    (cleanup_deferred_releases t) (max_ips t) (default_max_ips t) (limit_mode t) (limit_window_secs t) epoch_secs
    (cleanup_queue_len t) (cleanup_shards t).

(** ** Policy *)

Definition set_limit_policy (mode : UserMaxUniqueIpsMode) (window_secs : Z) (t : UserIpTracker) : UserIpTracker :=
  with_policy (max_ips t) (default_max_ips t) (mode_to_u8 mode) (Z.max window_secs 1) t.
Definition set_user_limit (username : list Z) (limit : Z) (t : UserIpTracker) : UserIpTracker :=
  with_policy (<[username := limit]> (max_ips t)) (default_max_ips t) (limit_mode t) (limit_window_secs t) t.
Definition remove_user_limit (username : list Z) (t : UserIpTracker) : UserIpTracker :=
  with_policy (delete username (max_ips t)) (default_max_ips t) (limit_mode t) (limit_window_secs t) t.
Definition load_limits (default_limit : Z) (limits : gmap (list Z) Z) (t : UserIpTracker) : UserIpTracker :=
  with_policy limits default_limit (limit_mode t) (limit_window_secs t) t.

Definition limit_window (t : UserIpTracker) : Z := secs (Z.max (limit_window_secs t) 1).

Definition user_limit (username : list Z) (t : UserIpTracker) : option Z :=
  match max_ips t !! username with
  | Some limit => if 0 <? limit then Some limit else if 0 <? default_max_ips t then Some (default_max_ips t) else None
  | None => if 0 <? default_max_ips t then Some (default_max_ips t) else None
  end.

Definition decrement_counter (counter amount : Z) : Z :=
  if amount =? 0 then counter else sat_sub counter amount.
Definition try_increment_counter (counter cap : Z) : option Z :=
  if counter <? cap then Some (counter + 1) else None.

(** ** Sections under the lock of a shard *)

(** [user_recent.retain(..)], with the number of entries removed. *)
Definition prune_recent (user_recent : gmap IpAddr Z) (now window : Z) : gmap IpAddr Z * Z :=
  if (size user_recent =? 0)%nat then (user_recent, 0)
  else
    let kept := filter (fun e => duration_since now e.2 <= window) user_recent in
    (kept, sat_sub (Z.of_nat (size user_recent)) (Z.of_nat (size kept))).

(** The new table and the number of entries removed. *)
Definition apply_active_cleanup (active : UserIps) (user : list Z) (ip : IpAddr) (pending_count : Z) : UserIps * Z :=
  if pending_count =? 0 then (active, 0)
  else
    match active !! user with
    | None => (active, 0)
    | Some user_ips =>
        let '(user_ips, removed) :=
          match user_ips !! ip with
          | Some count =>
              if pending_count <? count then (<[ip := count - pending_count]> user_ips, 0) else (delete ip user_ips, 1)
          | None => (user_ips, 0)
          end in
        (if (size user_ips =? 0)%nat then delete user active else <[user := user_ips]> active, removed)
    end.

Inductive IpReject :=
  | RecentCapReached
  | ActiveCapReached
  | IpLimitReached (active_len recent_len limit : Z) (mode : UserMaxUniqueIpsMode)
  | EntryUnavailable.

Section tracker.
Context `{HashIter} `{StrHash}.

Definition shard_idx (username : list Z) : nat := Z.to_nat (Z.land (str_hash username) USER_IP_TRACKER_SHARD_MASK).

(** The part of [check_and_add] under the lock, with the policy read before.
    The entries of the user have just been made, so that the branches for a
    missing table of the user and for an address inserted twice are left out. *)
Definition admit_ip (limit : option Z) (mode : UserMaxUniqueIpsMode) (window now : Z) (username : list Z) (ip : IpAddr)
    (t : UserIpTracker) : result IpReject unit * UserIpTracker :=
  let idx := shard_idx username in
  let shard := ip_shard idx t in
  let user_active := default ∅ (active_ips shard !! username) in
  let active_contains_ip := bool_decide (is_Some (user_active !! ip)) in
  let active_len := Z.of_nat (size user_active) in
  let '(user_recent, pruned_recent_entries) := prune_recent (default ∅ (recent_ips shard !! username)) now window in
  let active := <[username := user_active]> (active_ips shard) in
  let recent := <[username := user_recent]> (recent_ips shard) in
  let recent_contains_ip := bool_decide (is_Some (user_recent !! ip)) in
  let recent_len := Z.of_nat (size user_recent) in
  let t := with_ip_shard idx (mkIpShard active recent)
             (with_entries (active_entry_count t) (decrement_counter (recent_entry_count t) pruned_recent_entries) t) in
  let recent_seen := <[username := <[ip := now]> user_recent]> recent in
  if active_contains_ip then
    match (if recent_contains_ip then Some (recent_entry_count t)
           else try_increment_counter (recent_entry_count t) MAX_RECENT_IP_ENTRIES) with
    | None => (Err RecentCapReached, count_rejects 0 1 t)
    | Some recent_entries =>
        let t := with_entries (active_entry_count t) recent_entries t in
        match user_active !! ip with
        | None => (Err EntryUnavailable, t)
        | Some count =>
            (Ok tt, with_ip_shard idx
              (mkIpShard (<[username := <[ip := sat_add 64 count 1]> user_active]> active) recent_seen) t)
        end
    end
  else
    let is_new_ip := negb recent_contains_ip in
    let denied :=
      match limit with
      | Some limit =>
          let active_limit_reached := limit <=? active_len in
          let recent_limit_reached := (limit <=? recent_len) && is_new_ip in
          let deny :=
            match mode with
            | ActiveWindow => active_limit_reached
            | TimeWindow => recent_limit_reached
            | Combined => active_limit_reached || recent_limit_reached
            end in
          if deny then Some (IpLimitReached active_len recent_len limit mode) else None
      | None => None
      end in
    match denied with
    | Some reason => (Err reason, t)
    | None =>
        match try_increment_counter (active_entry_count t) MAX_ACTIVE_IP_ENTRIES with
        | None => (Err ActiveCapReached, count_rejects 1 0 t)
        | Some active_entries =>
            match (if is_new_ip then try_increment_counter (recent_entry_count t) MAX_RECENT_IP_ENTRIES
                   else Some (recent_entry_count t)) with
            | None =>
                (Err RecentCapReached,
                 count_rejects 0 1 (with_entries (decrement_counter active_entries 1) (recent_entry_count t) t))
            | Some recent_entries =>
                (Ok tt, with_ip_shard idx (mkIpShard (<[username := <[ip := 1]> user_active]> active) recent_seen)
                  (with_entries active_entries recent_entries t))
            end
        end
    end.

(** The part of [remove_ip] under the lock. *)
Definition release_ip (username : list Z) (ip : IpAddr) (t : UserIpTracker) : UserIpTracker :=
  let idx := shard_idx username in
  let shard := ip_shard idx t in
  match active_ips shard !! username with
  | None => with_entries (decrement_counter (active_entry_count t) 0) (recent_entry_count t) t
  | Some user_ips =>
      let '(user_ips, removed_active_entries) :=
        match user_ips !! ip with
        | Some count => if 1 <? count then (<[ip := count - 1]> user_ips, 0) else (delete ip user_ips, 1)
        | None => (user_ips, 0)
        end in
      let active :=
        if (size user_ips =? 0)%nat then delete username (active_ips shard)
        else <[username := user_ips]> (active_ips shard) in
      with_entries (decrement_counter (active_entry_count t) removed_active_entries) (recent_entry_count t)
        (with_ip_shard idx (mkIpShard active (recent_ips shard)) t)
  end.

(** What was taken from a queue is applied under the lock of the shard. *)
Fixpoint active_cleanups (to_remove : list (list Z * IpAddr * Z)) (active : UserIps) (removed : Z) : UserIps * Z :=
  match to_remove with
  | [] => (active, removed)
  | (user, ip, pending_count) :: to_remove =>
      let '(active, n) := apply_active_cleanup active user ip pending_count in
      active_cleanups to_remove active (sat_add 64 removed n)
  end.

Definition apply_cleanups (idx : nat) (to_remove : list (list Z * IpAddr * Z)) (t : UserIpTracker) : UserIpTracker :=
  let shard := ip_shard idx t in
  let '(active, removed_active_entries) := active_cleanups to_remove (active_ips shard) 0 in
  with_entries (decrement_counter (active_entry_count t) removed_active_entries) (recent_entry_count t)
    (with_ip_shard idx (mkIpShard active (recent_ips shard)) t).

(** ** Sections under the lock of a cleanup queue *)

Definition enqueue_cleanup (user : list Z) (ip : IpAddr) (t : UserIpTracker) : UserIpTracker :=
  let idx := shard_idx user in
  let queue := cleanup_queue idx t in
  let user_queue := default ∅ (queue !! user) in
  let count := default 0 (user_queue !! ip) in
  with_queue idx (<[user := <[ip := sat_add 64 count 1]> user_queue]> queue)
    (if count =? 0 then (cleanup_queue_len t + 1) mod 2 ^ 64 else cleanup_queue_len t)
    ((cleanup_deferred_releases t + 1) mod 2 ^ 64) t.

(** What [drain_cleanup_for_user] does under the lock; the entries are taken off
    [cleanup_queue_len] when the lock has been released. *)
Definition take_user_cleanups (user : list Z) (t : UserIpTracker) : list (list Z * IpAddr * Z) * UserIpTracker :=
  let idx := shard_idx user in
  let queue := cleanup_queue idx t in
  ((fun e => (user, e.1, e.2)) <$> hash_iter IpAddr Z (default ∅ (queue !! user)),
   with_queue idx (delete user queue) (cleanup_queue_len t) (cleanup_deferred_releases t) t).

Definition uncount_cleanups (removed : Z) (t : UserIpTracker) : UserIpTracker :=
  with_queue_len ((cleanup_queue_len t - removed) mod 2 ^ 64) t.

Definition pop_one_cleanup (queue : UserIps) : option (list Z * IpAddr * Z * UserIps) :=
  match hash_iter (list Z) (gmap IpAddr Z) queue with
  | [] => None
  | (user, _) :: _ =>
      match queue !! user with
      | None => None
      | Some user_queue =>
          match hash_iter IpAddr Z user_queue with
          | [] => None
          | (ip, _) :: _ =>
              match user_queue !! ip with
              | None => None
              | Some count =>
                  let rest := delete ip user_queue in
                  Some (user, ip, count,
                    if (size rest =? 0)%nat then delete user queue else <[user := rest]> queue)
              end
          end
      end
  end.

Fixpoint pop_cleanups (rounds : nat) (queue : UserIps) (len : Z) (drained : gmap (list Z * IpAddr) Z)
    : UserIps * Z * gmap (list Z * IpAddr) Z :=
  match rounds with
  | O => (queue, len, drained)
  | S rounds =>
      match pop_one_cleanup queue with
      | None => (queue, len, drained)
      | Some (user, ip, count, queue) =>
          pop_cleanups rounds queue ((len - 1) mod 2 ^ 64) (<[(user, ip) := count]> drained)
      end
  end.

Definition take_shard_cleanups (idx : nat) (t : UserIpTracker) : list (list Z * IpAddr * Z) * UserIpTracker :=
  let '(queue, len, drained) := pop_cleanups CLEANUP_DRAIN_BATCH_LIMIT (cleanup_queue idx t) (cleanup_queue_len t) ∅ in
  ((fun e => (e.1.1, e.1.2, e.2)) <$> hash_iter (list Z * IpAddr) Z drained,
   with_queue idx queue len (cleanup_deferred_releases t) t).

(** ** The async functions *)

Definition drain_cleanup_for_user (user : list Z) (t : UserIpTracker) : UserIpTracker :=
  if cleanup_queue_len t =? 0 then t
  else
    match take_user_cleanups user t with
    | ([], t) => t
    | (to_remove, t) =>
        apply_cleanups (shard_idx user) to_remove (uncount_cleanups (Z.of_nat (length to_remove)) t)
    end.

Definition drain_cleanup_shard (idx : nat) (t : UserIpTracker) : UserIpTracker :=
  match take_shard_cleanups idx t with
  | ([], t) => t
  | (to_remove, t) => apply_cleanups idx to_remove t
  end.

Definition drain_cleanup_queue (t : UserIpTracker) : UserIpTracker :=
  if cleanup_queue_len t =? 0 then t
  else foldl (fun t idx => drain_cleanup_shard idx t) t (seq 0 USER_IP_TRACKER_SHARDS).

Definition compact_user (sh : UserIpShard) (user : list Z) : UserIpShard :=
  let active_empty := match active_ips sh !! user with Some ips => (size ips =? 0)%nat | None => true end in
  let recent_empty := match recent_ips sh !! user with Some ips => (size ips =? 0)%nat | None => true end in
  if active_empty && recent_empty then mkIpShard (delete user (active_ips sh)) (delete user (recent_ips sh)) else sh.

Definition compact_shard (window now : Z) (idx : nat) (t : UserIpTracker) : UserIpTracker :=
  let sh := ip_shard idx t in
  let pruned_recent_entries :=
    foldl (fun n e => sat_add 64 n (prune_recent e.2 now window).2) 0 (hash_iter (list Z) (gmap IpAddr Z) (recent_ips sh)) in
  let sh := mkIpShard (active_ips sh) ((fun ips => (prune_recent ips now window).1) <$> recent_ips sh) in
  let users := (hash_iter (list Z) (gmap IpAddr Z) (active_ips sh)).*1 ++
    filter (fun user => active_ips sh !! user = None) (hash_iter (list Z) (gmap IpAddr Z) (recent_ips sh)).*1 in
  with_ip_shard idx (foldl compact_user sh users)
    (with_entries (active_entry_count t) (decrement_counter (recent_entry_count t) pruned_recent_entries) t).

Definition maybe_compact_empty_users (now now_epoch_secs : Z) (t : UserIpTracker) : UserIpTracker :=
  if sat_sub now_epoch_secs (last_compact_epoch_secs t) <? COMPACT_INTERVAL_SECS then t
  else
    let window := limit_window t in
    foldl (fun t idx => compact_shard window now idx t) (with_last_compact now_epoch_secs t) (seq 0 USER_IP_TRACKER_SHARDS).

(** [now_compact] is the instant of the compaction, [now] that of the admission. *)
Definition check_and_add (now_epoch_secs now_compact now : Z) (username : list Z) (ip : IpAddr) (t : UserIpTracker)
    : result IpReject unit * UserIpTracker :=
  let t := drain_cleanup_for_user username t in
  let t := maybe_compact_empty_users now_compact now_epoch_secs t in
  admit_ip (user_limit username t) (mode_from_u8 (limit_mode t)) (limit_window t) now username ip t.

Definition remove_ip (now now_epoch_secs : Z) (username : list Z) (ip : IpAddr) (t : UserIpTracker) : UserIpTracker :=
  release_ip username ip (maybe_compact_empty_users now now_epoch_secs t).

(** One turn of [run_periodic_maintenance]. *)
Definition periodic_maintenance (now now_epoch_secs : Z) (t : UserIpTracker) : UserIpTracker :=
  maybe_compact_empty_users now now_epoch_secs (drain_cleanup_queue t).

Definition clear_user_ips (username : list Z) (t : UserIpTracker) : UserIpTracker :=
  let idx := shard_idx username in
  let sh := ip_shard idx t in
  let removed m := match m !! username with Some ips => Z.of_nat (size (ips : gmap IpAddr Z)) | None => 0 end in
  with_entries (decrement_counter (active_entry_count t) (removed (active_ips sh)))
    (decrement_counter (recent_entry_count t) (removed (recent_ips sh)))
    (with_ip_shard idx (mkIpShard (delete username (active_ips sh)) (delete username (recent_ips sh))) t).

Definition clear_all (t : UserIpTracker) : UserIpTracker :=
  mkIpTracker ((fun _ => mkIpShard ∅ ∅) <$> ip_shards t) 0 0 (active_cap_rejects t) (recent_cap_rejects t)
    (cleanup_deferred_releases t) (max_ips t) (default_max_ips t) (limit_mode t) (limit_window_secs t)
    (last_compact_epoch_secs t) 0 ((fun _ => ∅) <$> cleanup_shards t).

(** ** Reading *)

Definition get_active_ip_count (username : list Z) (t : UserIpTracker) : Z * UserIpTracker :=
  let t := drain_cleanup_queue t in
  (match active_ips (ip_shard (shard_idx username) t) !! username with
   | Some ips => Z.of_nat (size ips)
   | None => 0
   end, t).

Definition is_ip_active (username : list Z) (ip : IpAddr) (t : UserIpTracker) : bool * UserIpTracker :=
  let t := drain_cleanup_queue t in
  (match active_ips (ip_shard (shard_idx username) t) !! username with
   | Some ips => bool_decide (is_Some (ips !! ip))
   | None => false
   end, t).

(** ** Connections and reservations *)

(** The counters of current connections, with the switch of the per-user
    telemetry; its other counters are left out.  The loops around a
    compare-exchange are one access. *)
Record ConnStats := mkConnStats { telemetry_user_enabled : bool; curr_connects : gmap (list Z) Z }.

Definition try_acquire_user_curr_connects (user : list Z) (limit : option Z) (s : ConnStats) : bool * ConnStats :=
  if negb (telemetry_user_enabled s) then (true, s)
  else
    let current := default 0 (curr_connects s !! user) in
    let full := match limit with Some max => max <=? current | None => false end in
    let stored := if full then current else sat_add 64 current 1 in
    (negb full, mkConnStats (telemetry_user_enabled s) (<[user := stored]> (curr_connects s))).

Definition decrement_user_curr_connects (user : list Z) (s : ConnStats) : ConnStats :=
  match curr_connects s !! user with
  | Some current => mkConnStats (telemetry_user_enabled s) (<[user := sat_sub current 1]> (curr_connects s))
  | None => s
  end.

(** What the configuration says about a user. *)
Record UserAccess := mkUserAccess {
  ua_expiration : option Z;
  ua_data_quota : option Z;
  ua_max_tcp_conns : option Z;
  ua_max_tcp_conns_global_each : Z;
}.

Inductive AcquireError := UserExpired | DataQuotaExceeded | ConnectionLimitExceeded.

Record Limits := mkLimits { ip_tracker : UserIpTracker; conn_stats : ConnStats }.

Definition tcp_conn_limit (a : UserAccess) : option Z :=
  let global := if 0 <? ua_max_tcp_conns_global_each a then Some (ua_max_tcp_conns_global_each a) else None in
  match ua_max_tcp_conns a with
  | Some limit => if 0 <? limit then Some limit else global
  | None => global
  end.

Definition acquire_user_connection_reservation (a : UserAccess) (utc_now quota_used now_epoch_secs now_compact now : Z)
    (user : list Z) (ip : IpAddr) (l : Limits) : result AcquireError unit * Limits :=
  if match ua_expiration a with Some expiration => expiration <? utc_now | None => false end then (Err UserExpired, l)
  else if match ua_data_quota a with Some quota => quota <=? quota_used | None => false end then (Err DataQuotaExceeded, l)
  else
    let '(acquired, stats) := try_acquire_user_curr_connects user (tcp_conn_limit a) (conn_stats l) in
    if negb acquired then (Err ConnectionLimitExceeded, mkLimits (ip_tracker l) stats)
    else
      match check_and_add now_epoch_secs now_compact now user ip (ip_tracker l) with
      | (Ok _, t) => (Ok tt, mkLimits t stats)
      | (Err _, t) => (Err ConnectionLimitExceeded, mkLimits t (decrement_user_curr_connects user stats))
      end.

(** [UserConnectionReservation::release] of an active reservation. *)
Definition release_reservation (now now_epoch_secs : Z) (user : list Z) (ip : IpAddr) (l : Limits) : Limits :=
  mkLimits (remove_ip now now_epoch_secs user ip (ip_tracker l)) (decrement_user_curr_connects user (conn_stats l)).

(** The [Drop] of a reservation that was not released. *)
Definition drop_reservation (user : list Z) (ip : IpAddr) (l : Limits) : Limits :=
  mkLimits (enqueue_cleanup user ip (ip_tracker l)) (decrement_user_curr_connects user (conn_stats l)).

End tracker.
