(* ===== verification/IpTrackerInv.v ===== *)
(** The tables and counters of the address tracker agree with the sessions
    that hold an entry, section by section. *)

From stdpp Require Import base list gmap numbers.
From S2P Require Import Net Prelude AuthProbe IpTracker.
Local Open Scope Z_scope.

(** * Sums *)

Section total.
Context {A : Type}.
Implicit Types (f g : A -> Z) (l : list A).

Definition total f l : Z := foldr (fun x acc => f x + acc) 0 l.

Lemma total_cons f x l : total f (x :: l) = f x + total f l.
Proof. done. Qed.

Lemma total_insert f l i x y : l !! i = Some y -> total f (<[i := x]> l) = total f l - f y + f x.
Proof.
  revert i. induction l as [|z l IH]; intros [|i] Hi; [done|done| |].
  - injection Hi as ->. cbn. lia.
  - change (f z + total f (<[i := x]> l) = f z + total f l - f y + f x). rewrite (IH i Hi). lia.
Qed.

Lemma shards_total_app f l1 l2 : total f (l1 ++ l2) = total f l1 + total f l2.
Proof. unfold total. induction l1 as [|x l1 IH]; cbn; [lia|]. rewrite IH. lia. Qed.

Lemma total_perm f l1 l2 : l1 ≡ₚ l2 -> total f l1 = total f l2.
Proof. unfold total. induction 1; cbn in *; lia. Qed.

Lemma total_ext f g l : (forall x, x ∈ l -> f x = g x) -> total f l = total g l.
Proof.
  induction l as [|x l IH]; intros Hf; [done|].
  rewrite !total_cons, (Hf x) by left. rewrite IH; [done|]. intros y Hy. apply Hf. by right.
Qed.

Lemma total_nonneg f l : (forall x, x ∈ l -> 0 <= f x) -> 0 <= total f l.
Proof.
  induction l as [|x l IH]; intros Hf; [done|].
  rewrite total_cons. specialize (Hf x (list_elem_of_here _ _)) as Hx. enough (0 <= total f l) by lia. apply IH. intros y Hy. apply Hf. by right.
Qed.

Lemma total_elem_le f l x : (forall x, x ∈ l -> 0 <= f x) -> x ∈ l -> f x <= total f l.
Proof.
  intros Hf. induction l as [|y l IH]; [by intros ?%not_elem_of_nil|]. intros [->|Hx]%elem_of_cons; rewrite total_cons.
  - enough (0 <= total f l) by lia. apply total_nonneg. intros z Hz. apply Hf. by right.
  - specialize (Hf y (list_elem_of_here _ _)) as Hy. enough (f x <= total f l) by lia. apply IH; [|done]. intros z Hz. apply Hf. by right.
Qed.

Lemma total_map_to_list {K} `{Countable K} {V} (g : K * V -> Z) (m : gmap K V) :
  foldr (fun x acc => g x + acc) 0 (map_to_list m) = map_sum (fun (k : K) (v : V) => g (k, v)) m.
Proof. unfold map_sum. rewrite map_fold_foldr. induction (map_to_list m) as [|[k v] l IH]; cbn; [done|]. by rewrite IH. Qed.

(** A saturating sum that stays in range. *)
Lemma foldl_sat f l acc :
  (forall x, x ∈ l -> 0 <= f x) -> 0 <= acc -> acc + total f l <= umax 64 ->
  foldl (fun n x => sat_add 64 n (f x)) acc l = acc + total f l.
Proof.
  revert acc. induction l as [|x l IH]; intros acc Hf Ha Hb; [cbn; lia|].
  rewrite total_cons in *. cbn [foldl].
  specialize (Hf x (list_elem_of_here _ _)) as Hx.
  assert (0 <= total f l) by (apply total_nonneg; intros y Hy; apply Hf; by right).
  rewrite sat_add_exact by lia. rewrite IH; [lia| |lia|lia]. intros y Hy. apply Hf. by right.
Qed.
End total.

Lemma total_fmap {A B} (h : A -> B) (f : B -> Z) (l : list A) : total f (h <$> l) = total (fun x => f (h x)) l.
Proof. unfold total. induction l as [|x l IH]; cbn; [done|]. by rewrite IH. Qed.

Lemma map_sum_at {K} `{Countable K} (k0 : K) (m : gmap K Z) :
  map_sum (fun k v => if decide (k = k0) then v else 0) m = default 0 (m !! k0).
Proof.
  assert (forall m : gmap K Z, m !! k0 = None -> map_sum (fun k v => if decide (k = k0) then v else 0) m = 0) as Hnone.
  { intros m' Hm'. rewrite (map_sum_ext _ (fun _ _ => 0)).
    - induction m' as [|k v m' Hk IH] using map_ind; [done|]. rewrite map_sum_insert_new by done.
      apply lookup_insert_None in Hm' as [Hm' _]. by rewrite (IH Hm').
    - intros k v Hk. destruct (decide (k = k0)) as [->|]; [congruence|done]. }
  destruct (m !! k0) as [v|] eqn:Hm; [|by apply Hnone]. cbn.
  rewrite <- (insert_delete_id m k0 v Hm), map_sum_insert_new by apply lookup_delete_eq.
  rewrite Hnone by apply lookup_delete_eq. rewrite decide_True by done. lia.
Qed.

(** * Tables of users and addresses *)

Definition ips_of (m : UserIps) (u : list Z) : gmap IpAddr Z := default ∅ (m !! u).
Definition count_in (m : UserIps) (u : list Z) (ip : IpAddr) : Z := default 0 (ips_of m u !! ip).
Definition entries (m : UserIps) : Z := map_sum (fun _ ips => Z.of_nat (size ips)) m.
Definition pos (m : UserIps) : Prop := forall u ip c, ips_of m u !! ip = Some c -> 1 <= c.

Lemma ips_of_insert m u ips u' : ips_of (<[u := ips]> m) u' = if decide (u = u') then ips else ips_of m u'.
Proof. unfold ips_of. rewrite lookup_insert. by destruct (decide (u = u')). Qed.

Lemma ips_of_delete m u u' : ips_of (delete u m) u' = if decide (u = u') then ∅ else ips_of m u'.
Proof. unfold ips_of. rewrite lookup_delete. by destruct (decide (u = u')). Qed.

Lemma entries_nonneg m : 0 <= entries m.
Proof. apply map_sum_nonneg. intros. lia. Qed.

Lemma entries_delete m u : entries (delete u m) = entries m - Z.of_nat (size (ips_of m u)).
Proof.
  unfold entries, ips_of. destruct (m !! u) as [ips|] eqn:Hu; cbn; [by rewrite (map_sum_delete _ _ _ _ Hu)|].
  rewrite delete_id by done. rewrite map_size_empty. lia.
Qed.

Lemma entries_insert m u ips : entries (<[u := ips]> m) = entries m - Z.of_nat (size (ips_of m u)) + Z.of_nat (size ips).
Proof.
  unfold entries, ips_of. destruct (m !! u) as [ips'|] eqn:Hu; cbn; [by rewrite (map_sum_insert _ _ _ _ _ Hu)|].
  rewrite map_sum_insert_new by done. rewrite map_size_empty. lia.
Qed.

Lemma size_ips_le m u : Z.of_nat (size (ips_of m u)) <= entries m.
Proof. pose proof (entries_delete m u). pose proof (entries_nonneg (delete u m)). lia. Qed.

Lemma pos_count m u ip : pos m -> 0 <= count_in m u ip.
Proof. intros Hp. unfold count_in. destruct (ips_of m u !! ip) as [c|] eqn:Hc; cbn; [|done]. specialize (Hp _ _ _ Hc). lia. Qed.

Lemma pos_present m u ip : pos m -> is_Some (ips_of m u !! ip) <-> 1 <= count_in m u ip.
Proof.
  intros Hp. unfold count_in. destruct (ips_of m u !! ip) as [c|] eqn:Hc; cbn.
  - split; [intros _; by apply (Hp _ _ _ Hc)|by eauto].
  - split; [by intros [? ?]|lia].
Qed.

(** The table of a user is kept or, when it is empty, dropped. *)
Definition put_ips (u : list Z) (ips : gmap IpAddr Z) (m : UserIps) : UserIps :=
  if (size ips =? 0)%nat then delete u m else <[u := ips]> m.

Lemma ips_of_put m u ips u' : ips_of (put_ips u ips m) u' = if decide (u = u') then ips else ips_of m u'.
Proof.
  unfold put_ips. destruct (Nat.eqb_spec (size ips) 0) as [He|He]; [|apply ips_of_insert].
  rewrite ips_of_delete. destruct (decide (u = u')); [|done]. symmetry. by apply map_size_empty_inv.
Qed.

Lemma entries_put m u ips : entries (put_ips u ips m) = entries m - Z.of_nat (size (ips_of m u)) + Z.of_nat (size ips).
Proof.
  unfold put_ips. destruct (Nat.eqb_spec (size ips) 0) as [He|He]; [|apply entries_insert]. rewrite entries_delete. lia.
Qed.

(** One entry of a table is taken down by [c]. *)
Definition take_down (ip : IpAddr) (c : Z) (ips : gmap IpAddr Z) : gmap IpAddr Z * Z :=
  match ips !! ip with
  | Some count => if c <? count then (<[ip := count - c]> ips, 0) else (delete ip ips, 1)
  | None => (ips, 0)
  end.

Lemma take_down_spec ip c ips :
  (forall ip c, ips !! ip = Some c -> 1 <= c) -> 1 <= c ->
  let '(ips', removed) := take_down ip c ips in
  (forall ip' c', ips' !! ip' = Some c' -> 1 <= c') /\
  (forall ip', default 0 (ips' !! ip') = if decide (ip = ip') then Z.max 0 (default 0 (ips !! ip) - c) else default 0 (ips !! ip')) /\
  Z.of_nat (size ips') = Z.of_nat (size ips) - removed /\ 0 <= removed.
Proof.
  intros Hp Hc. unfold take_down. destruct (ips !! ip) as [count|] eqn:Hi.
  2: { split; [done|]. split; [|lia]. intros ip'. case_decide; [subst ip'; rewrite Hi; cbn; lia|done]. }
  destruct (Z.ltb_spec c count) as [Hlt|Hge].
  - split; [|split; [|split; [|done]]].
    + intros ip' c'. rewrite lookup_insert. destruct (decide (ip = ip')); [intros [= <-]; lia|apply Hp].
    + intros ip'. rewrite lookup_insert. destruct (decide (ip = ip')) as [<-|]; [cbn; lia|done].
    + rewrite map_size_insert_Some by eauto. lia.
  - split; [|split; [|split; [|lia]]].
    + intros ip' c'. rewrite lookup_delete. destruct (decide (ip = ip')); [done|apply Hp].
    + intros ip'. rewrite lookup_delete. destruct (decide (ip = ip')) as [<-|]; [cbn; lia|done].
    + rewrite map_size_delete_Some by eauto. assert (size ips <> 0%nat).
      { intros He%map_size_empty_inv. by rewrite He, lookup_empty in Hi. } lia.
Qed.

Lemma apply_active_cleanup_eq active u ip c :
  1 <= c -> is_Some (active !! u) ->
  apply_active_cleanup active u ip c =
  (put_ips u (take_down ip c (ips_of active u)).1 active, (take_down ip c (ips_of active u)).2).
Proof.
  intros Hc [ips Hu]. unfold apply_active_cleanup, ips_of, take_down. rewrite Hu. cbn.
  destruct (Z.eqb_spec c 0); [lia|]. destruct (ips !! ip) as [count|]; [|done]. by destruct (c <? count).
Qed.

Lemma apply_active_cleanup_spec active u ip c :
  pos active -> 1 <= c ->
  let '(active', removed) := apply_active_cleanup active u ip c in
  pos active' /\
  (forall u' ip', count_in active' u' ip' =
    if decide ((u, ip) = (u', ip')) then Z.max 0 (count_in active u ip - c) else count_in active u' ip') /\
  entries active' = entries active - removed /\ 0 <= removed.
Proof.
  intros Hp Hc. destruct (active !! u) as [ips0|] eqn:Hu.
  - rewrite apply_active_cleanup_eq by (eauto || lia).
    pose proof (take_down_spec ip c (ips_of active u) (Hp u) Hc) as Ht.
    destruct (take_down ip c (ips_of active u)) as [ips removed]. destruct Ht as (Hp' & Hd & Hs & Hr). cbn.
    split; [|split; [|split; [|done]]].
    + intros u' ip' c'. rewrite ips_of_put. destruct (decide (u = u')); [apply Hp'|apply Hp].
    + intros u' ip'. unfold count_in. rewrite ips_of_put. destruct (decide (u = u')) as [<-|Hne].
      * rewrite Hd. repeat case_decide; congruence.
      * by rewrite (decide_False (P := (u, ip) = (u', ip'))) by congruence.
    + rewrite entries_put. lia.
  - unfold apply_active_cleanup. destruct (Z.eqb_spec c 0); [lia|]. rewrite Hu. split; [done|]. split; [|lia].
    intros u' ip'. case_decide as Hd; [|done]. injection Hd as <- <-. unfold count_in, ips_of. rewrite Hu. cbn. rewrite lookup_empty. cbn. lia.
Qed.

(** * Batches of releases *)

Notation Batch := (list (list Z * IpAddr * Z)).

(** What a batch takes off an entry. *)
Definition batch_at (l : Batch) (u : list Z) (ip : IpAddr) : Z := total (fun e => if decide (e.1 = (u, ip)) then e.2 else 0) l.

Lemma batch_at_nonneg l u ip : Forall (fun e => 1 <= e.2) l -> 0 <= batch_at l u ip.
Proof. intros Hl. apply total_nonneg. intros e He. rewrite list.Forall_forall in Hl. specialize (Hl e He). cbv beta in Hl. case_decide; lia. Qed.

Lemma active_cleanups_spec l active removed :
  Forall (fun e => 1 <= e.2) l -> pos active -> 0 <= removed -> removed + entries active <= umax 64 ->
  let '(active', removed') := active_cleanups l active removed in
  pos active' /\ (forall u ip, count_in active' u ip = Z.max 0 (count_in active u ip - batch_at l u ip)) /\
  removed' + entries active' = removed + entries active /\ removed <= removed'.
Proof.
  revert active removed. induction l as [|[[u ip] c] l IH]; intros active removed Hl Hp Hr Hs; cbn [active_cleanups].
  { split; [done|]. split; [|lia]. intros u ip. pose proof (pos_count _ u ip Hp). cbn. lia. }
  apply list.Forall_cons in Hl as [Hc Hl]. cbn in Hc.
  assert (forall u' ip', batch_at ((u, ip, c) :: l) u' ip' = (if decide ((u, ip) = (u', ip')) then c else 0) + batch_at l u' ip') as Hcons by done.
  pose proof (apply_active_cleanup_spec active u ip c Hp Hc) as H.
  destruct (apply_active_cleanup active u ip c) as [active1 n]. destruct H as (Hp1 & Hc1 & He1 & Hn).
  pose proof (entries_nonneg active1). rewrite sat_add_exact by lia.
  specialize (IH active1 (removed + n) Hl Hp1). destruct (active_cleanups l active1 (removed + n)) as [active' removed'].
  destruct IH as (Hp' & Hc' & He' & Hr'); [lia|lia|].
  split; [done|]. split; [|lia]. intros u' ip'. rewrite Hc', Hc1, Hcons. pose proof (batch_at_nonneg l u' ip' Hl).
  case_decide as Hd; [injection Hd as <- <-|]; lia.
Qed.

(** * The invariant *)

Section tracked.
Context `{HashIterLaws} `{StrHash}.

Lemma shard_idx_lt u : (shard_idx u < USER_IP_TRACKER_SHARDS)%nat.
Proof.
  unfold shard_idx, USER_IP_TRACKER_SHARD_MASK. change 63 with (Z.ones 6). rewrite Z.land_ones by lia.
  pose proof (Z.mod_pos_bound (str_hash u) (2 ^ 6) ltac:(lia)). unfold USER_IP_TRACKER_SHARDS. lia.
Qed.

Notation active_at t u := (active_ips (ip_shard (shard_idx u) t)).
Notation queue_at t u := (cleanup_queue (shard_idx u) t).

(** [owed u ip] releases of an entry are still to come from sessions and batches
    under way, for the users whose addresses have not been [cleared];
    [uncounted] entries have left a queue and are not yet taken off the count of
    queued entries; [n] bounds the numbers. *)
Record tracked_but (cleared : gset (list Z)) (uncounted n : Z) (owed : list Z -> IpAddr -> Z) (t : UserIpTracker) : Prop := {
  tk_shards : length (ip_shards t) = USER_IP_TRACKER_SHARDS;
  tk_queues : length (cleanup_shards t) = USER_IP_TRACKER_SHARDS;
  tk_pos : forall idx, pos (active_ips (ip_shard idx t));
  tk_queue_pos : forall idx, pos (cleanup_queue idx t);
  tk_home : forall idx u, is_Some (cleanup_queue idx t !! u) -> shard_idx u = idx;
  tk_balance : forall u ip, u ∉ cleared -> count_in (active_at t u) u ip = owed u ip + count_in (queue_at t u) u ip;
  tk_owed : forall u ip, 0 <= owed u ip;
  tk_bound : forall u ip, count_in (active_at t u) u ip <= n;
  tk_active : active_entry_count t = total (fun sh => entries (active_ips sh)) (ip_shards t);
  tk_recent : recent_entry_count t = total (fun sh => entries (recent_ips sh)) (ip_shards t);
  tk_queue_len : cleanup_queue_len t = total entries (cleanup_shards t) + uncounted;
  tk_uncounted : 0 <= uncounted;
  tk_active_le : active_entry_count t <= Z.min n MAX_ACTIVE_IP_ENTRIES;
  tk_recent_le : recent_entry_count t <= Z.min n MAX_RECENT_IP_ENTRIES;
  tk_queue_le : cleanup_queue_len t <= n;
}.
#[global] Arguments tk_shards {cleared uncounted n owed t}.
#[global] Arguments tk_queues {cleared uncounted n owed t}.
#[global] Arguments tk_pos {cleared uncounted n owed t}.
#[global] Arguments tk_queue_pos {cleared uncounted n owed t}.
#[global] Arguments tk_home {cleared uncounted n owed t}.
#[global] Arguments tk_balance {cleared uncounted n owed t}.
#[global] Arguments tk_owed {cleared uncounted n owed t}.
#[global] Arguments tk_bound {cleared uncounted n owed t}.
#[global] Arguments tk_active {cleared uncounted n owed t}.
#[global] Arguments tk_recent {cleared uncounted n owed t}.
#[global] Arguments tk_queue_len {cleared uncounted n owed t}.
#[global] Arguments tk_uncounted {cleared uncounted n owed t}.
#[global] Arguments tk_active_le {cleared uncounted n owed t}.
#[global] Arguments tk_recent_le {cleared uncounted n owed t}.
#[global] Arguments tk_queue_le {cleared uncounted n owed t}.

Context {C : gset (list Z)} {pend : Z}.
Notation tracked := (tracked_but C pend).

Lemma tracked_ext n owed owed' t : (forall u ip, owed u ip = owed' u ip) -> tracked n owed t -> tracked n owed' t.
Proof.
  intros Heq [? ? ? ? ? Hb Ho ? ? ? ? ? ? ? ?]. split; try done.
  - intros u ip. rewrite <- Heq. apply Hb.
  - intros u ip. rewrite <- Heq. apply Ho.
Qed.

Lemma total_replicate_0 {A} (f : A -> Z) k x : f x = 0 -> total f (replicate k x) = 0.
Proof. intros Hf. induction k as [|k IH]; [done|]. cbn [replicate]. by rewrite total_cons, Hf, IH. Qed.

Lemma ip_shard_new idx : ip_shard idx ip_tracker_new = mkIpShard ∅ ∅.
Proof.
  unfold ip_shard. destruct (ip_shards ip_tracker_new !! idx) eqn:Hi; [|done].
  by apply lookup_replicate in Hi as [-> _].
Qed.

Lemma cleanup_queue_new idx : cleanup_queue idx ip_tracker_new = ∅.
Proof.
  unfold cleanup_queue. destruct (cleanup_shards ip_tracker_new !! idx) eqn:Hi; [|done].
  by apply lookup_replicate in Hi as [-> _].
Qed.

Lemma pos_empty : pos ∅.
Proof. intros u ip c. unfold ips_of. rewrite lookup_empty. cbn. by rewrite lookup_empty. Qed.

Lemma tracked_new n : 0 <= n -> tracked_but ∅ 0 n (fun _ _ => 0) ip_tracker_new.
Proof.
  intros Hn. assert (forall u ip, count_in ∅ u ip = 0) as Hc by done.
  split; try done; try (intros; rewrite ?ip_shard_new, ?cleanup_queue_new; cbn; rewrite ?Hc; (apply pos_empty || lia)).
  - intros idx u. rewrite cleanup_queue_new, lookup_empty. by intros [? ?].
  - cbn. unfold MAX_ACTIVE_IP_ENTRIES. lia.
  - cbn. unfold MAX_RECENT_IP_ENTRIES. lia.
Qed.

(** [clear_all] leaves the counts of a new tracker, whatever was open. *)
Lemma clear_all_tracked n owed t : 0 <= n -> tracked n owed t -> tracked_but ∅ 0 n (fun _ _ => 0) (clear_all t).
Proof.
  intros Hn Ht.
  assert (ip_shards (clear_all t) = ip_shards ip_tracker_new) as Hs.
  { cbn [clear_all ip_shards]. rewrite (const_fmap _ _ (mkIpShard ∅ ∅)) by done. by rewrite (tk_shards Ht). }
  assert (cleanup_shards (clear_all t) = cleanup_shards ip_tracker_new) as Hq.
  { cbn [clear_all cleanup_shards]. rewrite (const_fmap _ _ ∅) by done. by rewrite (tk_queues Ht). }
  destruct (tracked_new n Hn). split; rewrite ?Hs, ?Hq; try done; unfold ip_shard, cleanup_queue, active_at, queue_at in *; by rewrite ?Hs, ?Hq.
Qed.

Lemma ip_shard_with idx sh t j :
  (idx < length (ip_shards t))%nat -> ip_shard j (with_ip_shard idx sh t) = if decide (idx = j) then sh else ip_shard j t.
Proof. intros Hi. unfold ip_shard. cbn. rewrite list_lookup_insert. repeat case_decide; [done|lia|lia|done]. Qed.

Lemma cleanup_queue_with idx q len d t j :
  (idx < length (cleanup_shards t))%nat ->
  cleanup_queue j (with_queue idx q len d t) = if decide (idx = j) then q else cleanup_queue j t.
Proof. intros Hi. unfold cleanup_queue. cbn. rewrite list_lookup_insert. repeat case_decide; [done|lia|lia|done]. Qed.

Lemma total_with {A} (f : A -> Z) (l : list A) idx (x d : A) :
  (idx < length l)%nat -> total f (<[idx := x]> l) = total f l - f (default d (l !! idx)) + f x.
Proof. intros [y Hy]%lookup_lt_is_Some. rewrite (total_insert f l idx x y Hy), Hy. done. Qed.

(** A section on one shard that changes the active table of [idx] and leaves the
    queues alone. *)
Lemma tracked_shard C' n n' owed owed' t idx active recent active_entries recent_entries :
  tracked n owed t -> C ⊆ C' -> n <= n' -> (idx < USER_IP_TRACKER_SHARDS)%nat -> pos active ->
  (forall u ip, shard_idx u = idx -> u ∉ C' -> count_in active u ip - owed' u ip = count_in (active_ips (ip_shard idx t)) u ip - owed u ip) ->
  (forall u ip, shard_idx u <> idx -> owed' u ip = owed u ip) -> (forall u ip, 0 <= owed' u ip) ->
  (forall u ip, shard_idx u = idx -> count_in active u ip <= n') ->
  active_entries = active_entry_count t - entries (active_ips (ip_shard idx t)) + entries active ->
  recent_entries = recent_entry_count t - entries (recent_ips (ip_shard idx t)) + entries recent ->
  active_entries <= Z.min n' MAX_ACTIVE_IP_ENTRIES -> recent_entries <= Z.min n' MAX_RECENT_IP_ENTRIES ->
  tracked_but C' pend n' owed' (with_ip_shard idx (mkIpShard active recent) (with_entries active_entries recent_entries t)).
Proof.
  intros [Hs Hq Hp Hqp Hh Hb Ho Hbd Ha Hr Hl Hk Hale Hrle Hqle] HC Hn Hi Hpos Hchange Hother Howed Hbound -> -> Hale' Hrle'.
  assert (idx < length (ip_shards (with_entries 0 0 t)))%nat as Hi' by (cbn; lia).
  assert (forall j, ip_shard j (with_ip_shard idx (mkIpShard active recent) (with_entries (active_entry_count t -
    entries (active_ips (ip_shard idx t)) + entries active) (recent_entry_count t - entries (recent_ips (ip_shard idx t)) + entries recent) t))
    = if decide (idx = j) then mkIpShard active recent else ip_shard j t) as Hsh by (intros j; by rewrite ip_shard_with).
  split; try done.
  - cbn. by rewrite length_insert.
  - intros j. rewrite Hsh. case_decide; [done|apply Hp].
  - intros u ip Hu. rewrite Hsh. change (cleanup_queue _ _) with (cleanup_queue (shard_idx u) t). specialize (Hb u ip ltac:(set_solver)).
    case_decide as Hd; [|rewrite Hother by congruence; exact Hb].
    specialize (Hchange u ip (eq_sym Hd) Hu). rewrite <- Hd in Hb. cbn. subst idx. lia.
  - intros u ip. rewrite Hsh. case_decide; [by apply Hbound|]. specialize (Hbd u ip). lia.
  - cbn [ip_shards with_ip_shard with_entries active_entry_count]. rewrite (total_with _ _ _ _ (mkIpShard ∅ ∅)) by lia. rewrite Ha. unfold ip_shard. cbn. lia.
  - cbn [ip_shards with_ip_shard with_entries recent_entry_count]. rewrite (total_with _ _ _ _ (mkIpShard ∅ ∅)) by lia. rewrite Hr. unfold ip_shard. cbn. lia.
  - cbn. lia.
Qed.

(** ** Admission *)

Definition recent_now (now window : Z) (ips : gmap IpAddr Z) : gmap IpAddr Z :=
  filter (fun e => duration_since now e.2 <= window) ips.

Lemma prune_recent_eq ips now window :
  prune_recent ips now window =
  (recent_now now window ips, Z.of_nat (size ips) - Z.of_nat (size (recent_now now window ips))) /\
  (size (recent_now now window ips) <= size ips)%nat.
Proof.
  assert (size (recent_now now window ips) <= size ips)%nat as Hle by (apply map_subseteq_size, map_filter_subseteq).
  split; [|done]. unfold prune_recent. fold (recent_now now window ips).
  destruct (Nat.eqb_spec (size ips) 0) as [He|He]; [|by rewrite sat_sub_exact by lia].
  apply map_size_empty_inv in He as ->. unfold recent_now. by rewrite map_filter_empty.
Qed.

Lemma decrement_counter_exact counter amount : 0 <= amount <= counter -> decrement_counter counter amount = counter - amount.
Proof. intros Ha. unfold decrement_counter. destruct (Z.eqb_spec amount 0); [lia|]. apply sat_sub_exact. lia. Qed.

Lemma with_shard_twice idx sh1 sh2 a1 r1 a2 r2 t :
  with_ip_shard idx sh2 (with_entries a2 r2 (with_ip_shard idx sh1 (with_entries a1 r1 t)))
  = with_ip_shard idx sh2 (with_entries a2 r2 t).
Proof. unfold with_ip_shard, with_entries. cbn. by rewrite list_insert_insert_eq. Qed.

Lemma tracked_rejects n owed a r t : tracked n owed t -> tracked n owed (count_rejects a r t).
Proof. intros []. by split. Qed.

Definition owed_add (owed : list Z -> IpAddr -> Z) (u : list Z) (ip : IpAddr) (c : Z) (u' : list Z) (ip' : IpAddr) : Z :=
  owed u' ip' + if decide ((u, ip) = (u', ip')) then c else 0.

Lemma count_in_put m u ips u' ip' :
  count_in (<[u := ips]> m) u' ip' = if decide (u = u') then default 0 (ips !! ip') else count_in m u' ip'.
Proof. unfold count_in. rewrite ips_of_insert. by case_decide. Qed.

(** The shard after the entries of [u] have been made and pruned. *)
Definition admit_base (window now : Z) (u : list Z) (t : UserIpTracker) : UserIpTracker :=
  let sh := ip_shard (shard_idx u) t in
  let R := ips_of (recent_ips sh) u in
  with_ip_shard (shard_idx u) (mkIpShard (<[u := ips_of (active_ips sh) u]> (active_ips sh)) (<[u := recent_now now window R]> (recent_ips sh)))
    (with_entries (active_entry_count t)
      (recent_entry_count t - (Z.of_nat (size R) - Z.of_nat (size (recent_now now window R)))) t).

(** The shard after [ip] has been let in with [c] sessions. *)
Definition admit_done (window now : Z) (u : list Z) (ip : IpAddr) (c active_entries recent_entries : Z) (t : UserIpTracker) : UserIpTracker :=
  let sh := ip_shard (shard_idx u) t in
  let A := ips_of (active_ips sh) u in
  let R := ips_of (recent_ips sh) u in
  with_ip_shard (shard_idx u) (mkIpShard (<[u := <[ip := c]> A]> (active_ips sh)) (<[u := <[ip := now]> (recent_now now window R)]> (recent_ips sh)))
    (with_entries active_entries recent_entries t).

(** The decision on a new address. *)
Definition ip_denied (limit : option Z) (mode : UserMaxUniqueIpsMode) (A R : gmap IpAddr Z) (ip : IpAddr) : option IpReject :=
  limit ≫= fun limit =>
    let active_reached := limit <=? Z.of_nat (size A) in
    let recent_reached := (limit <=? Z.of_nat (size R)) && bool_decide (R !! ip = None) in
    if match mode with ActiveWindow => active_reached | TimeWindow => recent_reached | Combined => active_reached || recent_reached end
    then Some (IpLimitReached (Z.of_nat (size A)) (Z.of_nat (size R)) limit mode) else None.

Lemma recent_counted n owed t idx u : tracked n owed t -> (idx < USER_IP_TRACKER_SHARDS)%nat ->
  Z.of_nat (size (ips_of (recent_ips (ip_shard idx t)) u)) <= recent_entry_count t.
Proof.
  intros Ht Hi. rewrite (tk_recent Ht). etrans; [apply size_ips_le|].
  apply (total_elem_le (fun sh => entries (recent_ips sh)) (ip_shards t)); [intros; apply entries_nonneg|].
  rewrite <- (tk_shards Ht) in Hi. apply lookup_lt_is_Some in Hi as [sh Hsh].
  unfold ip_shard. rewrite Hsh. by eapply list_elem_of_lookup_2.
Qed.

Lemma active_counted n owed t idx : tracked n owed t -> (idx < USER_IP_TRACKER_SHARDS)%nat ->
  entries (active_ips (ip_shard idx t)) <= active_entry_count t.
Proof.
  intros Ht Hi. rewrite (tk_active Ht).
  apply (total_elem_le (fun sh => entries (active_ips sh)) (ip_shards t)); [intros; apply entries_nonneg|].
  rewrite <- (tk_shards Ht) in Hi. apply lookup_lt_is_Some in Hi as [sh Hsh].
  unfold ip_shard. rewrite Hsh. by eapply list_elem_of_lookup_2.
Qed.

(** [admit_ip] case by case. *)
Lemma admit_ip_eq n owed limit mode window now u ip t :
  tracked n owed t ->
  let sh := ip_shard (shard_idx u) t in
  let A := ips_of (active_ips sh) u in
  let R0 := ips_of (recent_ips sh) u in
  let R := recent_now now window R0 in
  let recents := recent_entry_count t - (Z.of_nat (size R0) - Z.of_nat (size R)) in
  let grown := if bool_decide (is_Some (R !! ip)) then Some recents else try_increment_counter recents MAX_RECENT_IP_ENTRIES in
  let base := admit_base window now u t in
  admit_ip limit mode window now u ip t =
  match A !! ip with
  | Some c =>
      match grown with
      | Some recents => (Ok tt, admit_done window now u ip (sat_add 64 c 1) (active_entry_count t) recents t)
      | None => (Err RecentCapReached, count_rejects 0 1 base)
      end
  | None =>
      match ip_denied limit mode A R ip with
      | Some reason => (Err reason, base)
      | None =>
          if MAX_ACTIVE_IP_ENTRIES <=? active_entry_count t then (Err ActiveCapReached, count_rejects 1 0 base)
          else match grown with
               | Some recents => (Ok tt, admit_done window now u ip 1 (active_entry_count t + 1) recents t)
               | None => (Err RecentCapReached, count_rejects 0 1 base)
               end
      end
  end.
Proof.
  intros Ht. cbv zeta. pose proof (recent_counted _ _ _ _ u Ht (shard_idx_lt u)) as Hrc.
  pose proof (active_counted _ _ _ _ Ht (shard_idx_lt u)) as Hac. pose proof (entries_nonneg (active_ips (ip_shard (shard_idx u) t))).
  unfold admit_ip. fold (ips_of (recent_ips (ip_shard (shard_idx u) t)) u) (ips_of (active_ips (ip_shard (shard_idx u) t)) u).
  destruct (prune_recent_eq (ips_of (recent_ips (ip_shard (shard_idx u) t)) u) now window) as [-> Hle].
  set (A := ips_of (active_ips _) u) in *. set (R0 := ips_of (recent_ips _) u) in *. set (R := recent_now now window R0) in *.
  rewrite decrement_counter_exact by lia. cbn [active_entry_count recent_entry_count with_entries with_ip_shard].
  fold (admit_base window now u t). set (recents := recent_entry_count t - _).
  assert (bool_decide (R !! ip = None) = negb (bool_decide (is_Some (R !! ip)))) as Hnew by (by destruct (R !! ip)).
  assert (forall m a r, with_ip_shard (shard_idx u) (mkIpShard (<[u := m]> (<[u := A]> (active_ips (ip_shard (shard_idx u) t))))
    (<[u := <[ip := now]> R]> (<[u := R]> (recent_ips (ip_shard (shard_idx u) t))))) (with_entries a r (admit_base window now u t))
    = with_ip_shard (shard_idx u) (mkIpShard (<[u := m]> (active_ips (ip_shard (shard_idx u) t)))
    (<[u := <[ip := now]> R]> (recent_ips (ip_shard (shard_idx u) t)))) (with_entries a r t)) as Hdone.
  { intros m a r. unfold admit_base. rewrite with_shard_twice. by rewrite !insert_insert_eq. }
  destruct (A !! ip) as [c|] eqn:Hc; cbn [bool_decide].
  - rewrite bool_decide_eq_true_2 by eauto. destruct (bool_decide (is_Some (R !! ip))).
    + by rewrite Hdone.
    + destruct (try_increment_counter recents MAX_RECENT_IP_ENTRIES); [by rewrite Hdone|done].
  - rewrite bool_decide_eq_false_2 by (by intros [? ?]). unfold ip_denied.
    destruct limit as [limit|]; cbn [mbind option_bind]; rewrite ?Hnew.
    + match goal with |- match (if ?b then _ else _) with _ => _ end = _ => destruct b; [done|] end.
      unfold try_increment_counter at 1. rewrite Z.leb_antisym. destruct (active_entry_count t <? _); [|done]. cbn [negb].
      destruct (bool_decide (is_Some (R !! ip))); cbn [negb]; [by rewrite Hdone|].
      destruct (try_increment_counter recents _); [by rewrite Hdone|].
      rewrite decrement_counter_exact by lia. replace (active_entry_count t + 1 - 1) with (active_entry_count t) by lia. done.
    + unfold try_increment_counter at 1. rewrite Z.leb_antisym. destruct (active_entry_count t <? _); [|done]. cbn [negb].
      destruct (bool_decide (is_Some (R !! ip))); cbn [negb]; [by rewrite Hdone|].
      destruct (try_increment_counter recents _); [by rewrite Hdone|].
      rewrite decrement_counter_exact by lia. replace (active_entry_count t + 1 - 1) with (active_entry_count t) by lia. done.
Qed.

Lemma owed_add_other owed u ip c u' ip' : shard_idx u' <> shard_idx u -> owed_add owed u ip c u' ip' = owed u' ip'.
Proof. intros Hne. unfold owed_add. rewrite decide_False by congruence. lia. Qed.

Lemma size_insert_ips (ips : gmap IpAddr Z) (ip : IpAddr) (c : Z) :
  Z.of_nat (size (<[ip := c]> ips)) = Z.of_nat (size ips) + if bool_decide (is_Some (ips !! ip)) then 0 else 1.
Proof.
  destruct (ips !! ip) as [c'|] eqn:Hi.
  - rewrite map_size_insert_Some by eauto. cbn. lia.
  - rewrite map_size_insert_None by done. cbn. lia.
Qed.

Lemma tracked_base n owed window now u t : tracked n owed t -> tracked n owed (admit_base window now u t).
Proof.
  intros Ht. pose proof (recent_counted _ _ _ _ u Ht (shard_idx_lt u)) as Hrc. unfold admit_base.
  destruct (prune_recent_eq (ips_of (recent_ips (ip_shard (shard_idx u) t)) u) now window) as [_ Hle].
  pose proof (tk_active_le Ht). pose proof (tk_recent_le Ht).
  apply (tracked_shard C n n owed owed); try done; try lia.
  - apply shard_idx_lt.
  - intros u' ip' c. rewrite ips_of_insert. case_decide; [subst|]; apply (tk_pos Ht).
  - intros u' ip' Hu _. rewrite count_in_put. case_decide; subst; done.
  - apply (tk_owed Ht).
  - intros u' ip' Hu. rewrite count_in_put. pose proof (tk_bound Ht u' ip') as Hb. rewrite Hu in Hb. case_decide; subst; done.
  - rewrite entries_insert. lia.
  - rewrite entries_insert. lia.
Qed.

Lemma tracked_done n owed window now u ip c active_entries recent_entries t :
  tracked n owed t ->
  let A := ips_of (active_ips (ip_shard (shard_idx u) t)) u in
  let R0 := ips_of (recent_ips (ip_shard (shard_idx u) t)) u in
  let R := recent_now now window R0 in
  c = default 0 (A !! ip) + 1 ->
  active_entries = active_entry_count t + (if bool_decide (is_Some (A !! ip)) then 0 else 1) ->
  recent_entries = recent_entry_count t - (Z.of_nat (size R0) - Z.of_nat (size R)) + (if bool_decide (is_Some (R !! ip)) then 0 else 1) ->
  active_entries <= MAX_ACTIVE_IP_ENTRIES -> recent_entries <= MAX_RECENT_IP_ENTRIES ->
  tracked (n + 1) (owed_add owed u ip 1) (admit_done window now u ip c active_entries recent_entries t).
Proof.
  intros Ht A R0 R -> Ha Hr Hamax Hrmax. unfold admit_done. fold A R0 R.
  destruct (prune_recent_eq R0 now window) as [_ Hle]. fold R in Hle.
  pose proof (tk_active_le Ht). pose proof (tk_recent_le Ht).
  pose proof (pos_count _ u ip (tk_pos Ht (shard_idx u))) as Hc. unfold count_in in Hc. fold A in Hc.
  apply (tracked_shard C n (n + 1) owed (owed_add owed u ip 1)); try done; try lia.
  - apply shard_idx_lt.
  - intros u' ip' c'. rewrite ips_of_insert. case_decide; [subst u'|apply (tk_pos Ht)].
    rewrite lookup_insert. case_decide; [intros [= <-]; lia|apply (tk_pos Ht)].
  - intros u' ip' Hu _. rewrite count_in_put. unfold owed_add. destruct (decide (u = u')) as [<-|Hne].
    + rewrite lookup_insert. unfold count_in. fold A. destruct (decide (ip = ip')) as [<-|Hne].
      * rewrite decide_True by done. cbn. lia.
      * rewrite decide_False by congruence. lia.
    + rewrite decide_False by congruence. lia.
  - intros u' ip'. apply owed_add_other.
  - intros u' ip'. unfold owed_add. pose proof (tk_owed Ht u' ip'). case_decide; lia.
  - intros u' ip' Hu. rewrite count_in_put. pose proof (tk_bound Ht u' ip') as Hb. rewrite Hu in Hb.
    destruct (decide (u = u')) as [<-|Hne]; [|lia]. unfold count_in in Hb. fold A in Hb. rewrite lookup_insert. case_decide; [subst ip'; cbn|]; lia.
  - rewrite entries_insert, size_insert_ips. fold A. lia.
  - rewrite entries_insert, size_insert_ips. fold R0. lia.
  - destruct (bool_decide (is_Some (A !! ip))); lia.
  - destruct (bool_decide (is_Some (R !! ip))); lia.
Qed.

Lemma admit_tracked n owed limit mode window now u ip t :
  tracked n owed t -> n < umax 64 ->
  match admit_ip limit mode window now u ip t with
  | (Ok _, t') => tracked (n + 1) (owed_add owed u ip 1) t'
  | (Err _, t') => tracked n owed t'
  end.
Proof.
  intros Ht Hn. rewrite (admit_ip_eq n owed) by done. cbv zeta.
  pose proof (tracked_base _ _ window now u _ Ht) as Hbase.
  pose proof (tk_bound Ht u ip) as Hb. unfold count_in in Hb.
  pose proof (tk_active_le Ht) as Hale. pose proof (tk_recent_le Ht) as Hrle.
  destruct (prune_recent_eq (ips_of (recent_ips (ip_shard (shard_idx u) t)) u) now window) as [_ Hle].
  unfold try_increment_counter.
  destruct (ips_of (active_ips (ip_shard (shard_idx u) t)) u !! ip) as [c|] eqn:Hc; cbn in Hb.
  - rewrite sat_add_exact by lia. destruct (bool_decide (is_Some (recent_now _ _ _ !! ip))) eqn:Hr.
    + apply tracked_done; rewrite ?Hc, ?Hr; cbn; lia || done.
    + destruct (Z.ltb_spec (recent_entry_count t - (Z.of_nat (size (ips_of (recent_ips (ip_shard (shard_idx u) t)) u))
        - Z.of_nat (size (recent_now now window (ips_of (recent_ips (ip_shard (shard_idx u) t)) u))))) MAX_RECENT_IP_ENTRIES);
        [|by apply tracked_rejects]. apply tracked_done; rewrite ?Hc, ?Hr; cbn; lia || done.
  - destruct (ip_denied _ _ _ _ _); [done|].
    destruct (Z.leb_spec MAX_ACTIVE_IP_ENTRIES (active_entry_count t)); [by apply tracked_rejects|].
    destruct (bool_decide (is_Some (recent_now _ _ _ !! ip))) eqn:Hr.
    + apply tracked_done; rewrite ?Hc, ?Hr; cbn; lia || done.
    + destruct (Z.ltb_spec (recent_entry_count t - (Z.of_nat (size (ips_of (recent_ips (ip_shard (shard_idx u) t)) u))
        - Z.of_nat (size (recent_now now window (ips_of (recent_ips (ip_shard (shard_idx u) t)) u))))) MAX_RECENT_IP_ENTRIES);
        [|by apply tracked_rejects]. apply tracked_done; rewrite ?Hc, ?Hr; cbn; lia || done.
Qed.

(** ** Releases *)

Lemma apply_tracked n owed idx l t :
  tracked n owed t -> (idx < USER_IP_TRACKER_SHARDS)%nat -> Forall (fun e => 1 <= e.2 /\ shard_idx e.1.1 = idx) l ->
  (forall u ip, batch_at l u ip <= owed u ip) ->
  tracked n (fun u ip => owed u ip - batch_at l u ip) (apply_cleanups idx l t).
Proof.
  intros Ht Hi Hl Hle. unfold apply_cleanups.
  assert (forall u ip, shard_idx u <> idx -> batch_at l u ip = 0) as Hother.
  { intros u ip Hu. unfold batch_at. rewrite (total_ext _ (fun _ => 0)); [clear; by induction l|].
    intros [[u' ip'] c] He. rewrite list.Forall_forall in Hl. specialize (Hl _ He) as [_ Hh]. cbn in *.
    rewrite decide_False by congruence. done. }
  assert (Forall (fun e => 1 <= e.2) l) as Hpos by (eapply list.Forall_impl; [exact Hl|]; by intros e [? _]).
  assert (forall u ip, u ∉ C -> shard_idx u = idx -> batch_at l u ip <= count_in (active_ips (ip_shard idx t)) u ip) as Hcount.
  { intros u ip Hu <-. rewrite (tk_balance Ht) by done. specialize (Hle u ip).
    pose proof (pos_count _ u ip (tk_queue_pos Ht (shard_idx u))). lia. }
  pose proof (active_counted _ _ _ _ Ht Hi) as Hac. pose proof (tk_active_le Ht) as Hale.
  pose proof (entries_nonneg (active_ips (ip_shard idx t))). pose proof (tk_recent_le Ht).
  assert (0 + entries (active_ips (ip_shard idx t)) <= umax 64) as Hmax by (unfold MAX_ACTIVE_IP_ENTRIES, umax in *; lia).
  pose proof (active_cleanups_spec l (active_ips (ip_shard idx t)) 0 Hpos (tk_pos Ht idx) ltac:(lia) Hmax) as Hloop.
  destruct (active_cleanups l (active_ips (ip_shard idx t)) 0) as [active removed]. destruct Hloop as (Hp & Hc & He & Hr).
  pose proof (entries_nonneg active). rewrite decrement_counter_exact by lia.
  change (with_entries ?a ?r (with_ip_shard ?i ?sh t)) with (with_ip_shard i sh (with_entries a r t)).
  apply (tracked_shard C n n owed); try done; try lia.
  - intros u ip Hu Hn. rewrite Hc. specialize (Hcount u ip Hn Hu). lia.
  - intros u ip Hne. rewrite Hother by done. lia.
  - intros u ip. specialize (Hle u ip). lia.
  - intros u ip Hu. rewrite Hc. pose proof (tk_bound Ht u ip) as Hb. rewrite Hu in Hb.
    pose proof (batch_at_nonneg l u ip Hpos). pose proof (pos_count _ u ip (tk_pos Ht idx)). lia.
Qed.

(** The entries of a user are dropped; what was owed for them no longer counts. *)
Lemma clear_tracked n owed u t : tracked n owed t -> tracked_but ({[u]} ∪ C) pend n owed (clear_user_ips u t).
Proof.
  intros Ht. unfold clear_user_ips. pose proof (active_counted _ _ _ _ Ht (shard_idx_lt u)) as Hac.
  pose proof (recent_counted _ _ _ _ u Ht (shard_idx_lt u)) as Hrc. pose proof (tk_active_le Ht). pose proof (tk_recent_le Ht).
  set (sh := ip_shard (shard_idx u) t) in *. pose proof (size_ips_le (active_ips sh) u).
  assert (forall m : UserIps, match m !! u with Some ips => Z.of_nat (size (ips : gmap IpAddr Z)) | None => 0 end = Z.of_nat (size (ips_of m u))) as Hm.
  { intros m. unfold ips_of. destruct (m !! u); [done|]. cbn. by rewrite map_size_empty. }
  rewrite !Hm, !decrement_counter_exact by lia.
  change (with_entries ?a ?r (with_ip_shard ?i ?sh t)) with (with_ip_shard i sh (with_entries a r t)).
  apply (tracked_shard ({[u]} ∪ C) n n owed owed); fold sh; try done; try lia.
  - set_solver.
  - apply shard_idx_lt.
  - intros u' ip c. rewrite ips_of_delete. case_decide; [by rewrite lookup_empty|apply (tk_pos Ht)].
  - intros u' ip _ Hu'. unfold count_in. rewrite ips_of_delete, decide_False by set_solver. done.
  - apply (tk_owed Ht).
  - intros u' ip Hu. pose proof (tk_bound Ht u' ip) as Hb. rewrite Hu in Hb. fold sh in Hb.
    unfold count_in in *. rewrite ips_of_delete. case_decide; [|done].
    rewrite lookup_empty. cbn. pose proof (pos_count _ u' ip (tk_pos Ht (shard_idx u))) as Hp. fold sh in Hp. unfold count_in in Hp. lia.
  - rewrite entries_delete. lia.
  - rewrite entries_delete. lia.
Qed.

Lemma release_eq u ip t :
  length (ip_shards t) = USER_IP_TRACKER_SHARDS -> (forall idx, pos (active_ips (ip_shard idx t))) ->
  release_ip u ip t = apply_cleanups (shard_idx u) [(u, ip, 1)] t.
Proof.
  intros Hl Hp. unfold release_ip, apply_cleanups. cbn [active_cleanups].
  destruct (active_ips (ip_shard (shard_idx u) t) !! u) as [ips|] eqn:Hu.
  - rewrite apply_active_cleanup_eq by (eauto || lia). unfold ips_of at 1 2. rewrite Hu. cbn [default from_option id].
    unfold take_down. destruct (ips !! ip) as [c|]; [destruct (1 <? c)|]; done.
  - unfold apply_active_cleanup. cbn [Z.eqb]. rewrite Hu. cbn [sat_add].
    pose proof (shard_idx_lt u) as Hlt. rewrite <- Hl in Hlt. apply lookup_lt_is_Some in Hlt as [sh Hsh].
    unfold with_entries, with_ip_shard, ip_shard. cbn. rewrite Hsh. cbn. destruct sh as [a r]. cbn.
    by rewrite (list_insert_id _ _ _ Hsh).
Qed.

Lemma batch_at_one u ip c u' ip' : batch_at [(u, ip, c)] u' ip' = if decide ((u, ip) = (u', ip')) then c else 0.
Proof. unfold batch_at. cbn. lia. Qed.

Lemma release_tracked n owed u ip t :
  tracked n owed t -> 1 <= owed u ip -> tracked n (owed_add owed u ip (-1)) (release_ip u ip t).
Proof.
  intros Ht Ho. rewrite release_eq by apply Ht.
  eapply tracked_ext; [|apply (apply_tracked n owed); [done|apply shard_idx_lt| |]].
  - intros u' ip'. cbv beta. rewrite batch_at_one. unfold owed_add. case_decide; lia.
  - constructor; [done|constructor].
  - intros u' ip'. rewrite batch_at_one. pose proof (tk_owed Ht u' ip'). case_decide; [simplify_eq|]; lia.
Qed.

(** ** The cleanup queues *)

Lemma tracked_queue pend' n n' owed owed' t idx q len d :
  tracked n owed t -> n <= n' -> (idx < USER_IP_TRACKER_SHARDS)%nat -> pos q ->
  (forall u, is_Some (q !! u) -> shard_idx u = idx) ->
  (forall u ip, shard_idx u = idx -> u ∉ C -> owed' u ip + count_in q u ip = owed u ip + count_in (cleanup_queue idx t) u ip) ->
  (forall u ip, shard_idx u <> idx -> owed' u ip = owed u ip) -> (forall u ip, 0 <= owed' u ip) ->
  len = cleanup_queue_len t - entries (cleanup_queue idx t) + entries q + (pend' - pend) -> 0 <= pend' -> len <= n' ->
  tracked_but C pend' n' owed' (with_queue idx q len d t).
Proof.
  intros [Hs Hq Hp Hqp Hh Hb Ho Hbd Ha Hr Hl Hk Hale Hrle Hqle] Hn Hi Hpos Hhome Hchange Hother Howed -> Hpend Hlen.
  assert (forall j, cleanup_queue j (with_queue idx q (cleanup_queue_len t - entries (cleanup_queue idx t) + entries q + (pend' - pend)) d t)
    = if decide (idx = j) then q else cleanup_queue j t) as Hsh by (intros j; rewrite cleanup_queue_with by lia; done).
  split; try done; try (cbn; lia).
  - cbn. by rewrite length_insert.
  - intros j. rewrite Hsh. case_decide; [done|apply Hqp].
  - intros j u. rewrite Hsh. case_decide; [subst; apply Hhome|apply Hh].
  - intros u ip Hu. rewrite Hsh. change (ip_shard _ (with_queue _ _ _ _ _)) with (ip_shard (shard_idx u) t). rewrite Hb by done.
    case_decide as Hd; [|rewrite Hother by congruence; done]. specialize (Hchange u ip (eq_sym Hd) Hu). subst idx. lia.
  - intros u ip. specialize (Hbd u ip). change (ip_shard _ (with_queue _ _ _ _ _)) with (ip_shard (shard_idx u) t). lia.
  - cbn [cleanup_shards with_queue cleanup_queue_len]. rewrite (total_with _ _ _ _ ∅) by lia. rewrite Hl. unfold cleanup_queue. lia.
Qed.

Lemma queue_counted n owed t idx : tracked n owed t -> (idx < USER_IP_TRACKER_SHARDS)%nat ->
  entries (cleanup_queue idx t) <= cleanup_queue_len t.
Proof.
  intros Ht Hi. rewrite (tk_queue_len Ht). pose proof (tk_uncounted Ht).
  enough (entries (cleanup_queue idx t) <= total entries (cleanup_shards t)) by lia.
  apply (total_elem_le entries (cleanup_shards t)); [intros; apply entries_nonneg|].
  rewrite <- (tk_queues Ht) in Hi. apply lookup_lt_is_Some in Hi as [q Hq].
  unfold cleanup_queue. rewrite Hq. by eapply list_elem_of_lookup_2.
Qed.

Lemma enqueue_tracked n owed u ip t :
  tracked n owed t -> n < umax 64 -> 1 <= owed u ip -> tracked (n + 1) (owed_add owed u ip (-1)) (enqueue_cleanup u ip t).
Proof.
  intros Ht Hn Ho. unfold enqueue_cleanup. fold (ips_of (cleanup_queue (shard_idx u) t) u).
  set (Q := ips_of (cleanup_queue (shard_idx u) t) u).
  pose proof (tk_queue_pos Ht (shard_idx u)) as Hqp. pose proof (pos_count _ u ip Hqp) as Hc.
  pose proof (tk_balance Ht u ip) as Hb. pose proof (tk_bound Ht u ip) as Hbd.
  unfold count_in at 2 in Hb. unfold count_in in Hc. fold Q in Hb, Hc.
  pose proof (queue_counted _ _ _ _ Ht (shard_idx_lt u)) as Hqc. pose proof (entries_nonneg (cleanup_queue (shard_idx u) t)).
  pose proof (tk_queue_le Ht). pose proof (tk_uncounted Ht).
  assert (1 <= sat_add 64 (default 0 (Q !! ip)) 1) as Hsat by (unfold sat_add; lia).
  assert (u ∉ C -> sat_add 64 (default 0 (Q !! ip)) 1 = default 0 (Q !! ip) + 1) as Hexact by (intros Hu; specialize (Hb Hu); apply sat_add_exact; lia).
  unfold umax in Hn. apply (tracked_queue pend n (n + 1) owed (owed_add owed u ip (-1))); try done; try lia.
  - apply shard_idx_lt.
  - intros u' ip' c. rewrite ips_of_insert. case_decide; [subst u'|apply Hqp].
    rewrite lookup_insert. case_decide; [by intros [= <-]|apply Hqp].
  - intros u' Hu'. destruct (decide (u = u')) as [<-|Hne]; [done|]. rewrite lookup_insert_ne in Hu' by done.
    by apply (tk_home Ht).
  - intros u' ip' Hu Hn'. rewrite count_in_put. unfold owed_add. destruct (decide (u = u')) as [<-|Hne].
    + rewrite lookup_insert. unfold count_in. fold Q. destruct (decide (ip = ip')) as [<-|Hne].
      * rewrite decide_True by done. cbn [default from_option id]. rewrite Hexact by done. lia.
      * rewrite decide_False by congruence. lia.
    + rewrite decide_False by congruence. lia.
  - intros u' ip'. apply owed_add_other.
  - intros u' ip'. unfold owed_add. pose proof (tk_owed Ht u' ip'). case_decide; simplify_eq; lia.
  - rewrite entries_insert, size_insert_ips. fold Q. destruct (Q !! ip) as [c|] eqn:HQ; cbn.
    + specialize (Hqp u ip c HQ). destruct (Z.eqb_spec c 0); lia.
    + rewrite Z.mod_small; lia.
  - destruct (_ =? 0); [rewrite Z.mod_small|]; lia.
Qed.

Lemma batch_of_user u (ips : gmap IpAddr Z) u' ip' :
  batch_at ((fun e => (u, e.1, e.2)) <$> hash_iter IpAddr Z ips) u' ip' = if decide (u = u') then default 0 (ips !! ip') else 0.
Proof.
  unfold batch_at. rewrite total_fmap, (total_perm _ _ _ (hash_iter_perm _ _ ips)). cbn [fst snd]. unfold total.
  rewrite total_map_to_list. cbn [fst snd]. rewrite <- (map_sum_at ip' ips). case_decide as Hd.
  - apply map_sum_ext. intros ip c _. repeat case_decide; congruence.
  - rewrite (map_sum_ext _ (fun _ _ => 0)).
    + induction ips as [|ip c ips Hi IH] using map_ind; [done|]. by rewrite map_sum_insert_new.
    + intros ip c _. rewrite decide_False by congruence. done.
Qed.

Lemma batch_of_pairs (m : gmap (list Z * IpAddr) Z) u ip :
  batch_at ((fun e => (e.1.1, e.1.2, e.2)) <$> hash_iter (list Z * IpAddr) Z m) u ip = default 0 (m !! (u, ip)).
Proof.
  unfold batch_at. rewrite total_fmap, (total_perm _ _ _ (hash_iter_perm _ _ m)). cbn [fst snd]. unfold total.
  rewrite total_map_to_list. cbn [fst snd]. rewrite <- (map_sum_at (u, ip) m). apply map_sum_ext. intros [u' ip'] c _. done.
Qed.

Lemma length_hash_iter (ips : gmap IpAddr Z) : length (hash_iter IpAddr Z ips) = size ips.
Proof. by rewrite (hash_iter_perm _ _ ips), length_map_to_list. Qed.

(** What is taken from the queue of a user is counted until [uncount_cleanups]. *)
Lemma take_user_tracked n owed u t :
  tracked n owed t ->
  let '(l, t') := take_user_cleanups u t in
  tracked_but C (pend + Z.of_nat (length l)) n (fun u' ip' => owed u' ip' + batch_at l u' ip') t' /\
  Forall (fun e => 1 <= e.2 /\ shard_idx e.1.1 = shard_idx u) l /\
  (forall ip, count_in (cleanup_queue (shard_idx u) t') u ip = 0) /\ ip_shards t' = ip_shards t.
Proof.
  intros Ht. unfold take_user_cleanups. pose proof (tk_queue_le Ht). pose proof (tk_uncounted Ht).
  pose proof (tk_queue_pos Ht (shard_idx u)) as Hqp. fold (ips_of (cleanup_queue (shard_idx u) t) u). set (Q := ips_of _ u) in *.
  rewrite length_fmap, length_hash_iter. split; [|split; [|split; [|done]]].
  - apply (tracked_queue (pend + Z.of_nat (size Q)) n n owed); try done; try lia.
    + apply shard_idx_lt.
    + intros u' ip' c. rewrite ips_of_delete. case_decide; [by rewrite lookup_empty|apply Hqp].
    + intros u' Hu'. destruct (decide (u = u')) as [<-|Hne]; [done|]. rewrite lookup_delete_ne in Hu' by done. by apply (tk_home Ht).
    + intros u' ip' Hu _. rewrite batch_of_user. unfold count_in. rewrite ips_of_delete. destruct (decide (u = u')) as [<-|Hne].
      * rewrite lookup_empty. fold Q. cbn. lia.
      * lia.
    + intros u' ip' Hu. rewrite batch_of_user, decide_False by congruence. lia.
    + intros u' ip'. rewrite batch_of_user. pose proof (tk_owed Ht u' ip').
      pose proof (pos_count _ u ip' Hqp) as Hc. unfold count_in in Hc. fold Q in Hc. case_decide; lia.
    + rewrite entries_delete. fold Q. lia.
  - apply Forall_fmap, list.Forall_forall. intros [ip c] He. rewrite (hash_iter_perm _ _ Q) in He.
    apply elem_of_map_to_list in He. split; [by apply (Hqp u ip)|done].
  - intros ip. rewrite cleanup_queue_with, decide_True by (done || rewrite (tk_queues Ht); apply shard_idx_lt).
    unfold count_in. rewrite ips_of_delete, decide_True by done. by rewrite lookup_empty.
Qed.

Lemma uncount_tracked n owed m t :
  tracked n owed t -> n < umax 64 -> 0 <= m <= pend -> tracked_but C (pend - m) n owed (uncount_cleanups m t).
Proof.
  intros [? ? ? ? ? ? ? ? ? ? Hl ? ? ? Hle] Hn Hm. unfold umax in Hn.
  assert (0 <= total entries (cleanup_shards t)) by (apply total_nonneg; intros; apply entries_nonneg).
  assert ((cleanup_queue_len t - m) mod 2 ^ 64 = cleanup_queue_len t - m) as Hmod by (apply Z.mod_small; lia).
  unfold uncount_cleanups. rewrite Hmod. split; try done; cbn [with_queue_len cleanup_queue_len cleanup_shards]; lia.
Qed.
End tracked.
