(* ===== verification/IpTrackerRun.v ===== *)
(** Runs of the address tracker: the sections of concurrent calls in any order,
    and the calls of sessions one after the other. *)

From stdpp Require Import base list gmap numbers.
From S2P Require Import Net Prelude AuthProbe IpTracker IpTrackerInv.
Local Open Scope Z_scope.

Section run.
Context `{HashIterLaws} `{StrHash}.

(** * Draining a whole shard *)

Lemma pop_one_spec q u ip c q' :
  pop_one_cleanup q = Some (u, ip, c, q') ->
  ips_of q u !! ip = Some c /\ is_Some (q !! u) /\ q' = put_ips u (delete ip (ips_of q u)) q.
Proof.
  unfold pop_one_cleanup. destruct (hash_iter (list Z) (gmap IpAddr Z) q) as [|[u1 m] l]; [done|].
  destruct (q !! u1) as [Q|] eqn:HQ; [|done]. destruct (hash_iter IpAddr Z Q) as [|[ip1 c1] l1]; [done|].
  destruct (Q !! ip1) as [c2|] eqn:Hc; [|done]. intros [= <- <- <- <-]. unfold ips_of. rewrite HQ. cbn. eauto.
Qed.

Lemma pop_cleanups_spec rounds q len drained q' len' drained' :
  pop_cleanups rounds q len drained = (q', len', drained') ->
  pos q -> entries q <= len < 2 ^ 64 -> (forall u ip c, drained !! (u, ip) = Some c -> ips_of q u !! ip = None) ->
  pos q' /\ (forall u, is_Some (q' !! u) -> is_Some (q !! u)) /\
  (forall u ip, count_in q' u ip + default 0 (drained' !! (u, ip)) = count_in q u ip + default 0 (drained !! (u, ip))) /\
  (len' - entries q' = len - entries q /\ len' <= len) /\
  (forall u ip c, drained' !! (u, ip) = Some c -> drained !! (u, ip) = Some c \/ (1 <= c /\ is_Some (q !! u))).
Proof.
  revert q len drained. induction rounds as [|rounds IH]; intros q len drained; cbn [pop_cleanups].
  { intros [= <- <- <-] Hp Hlen Hd. split; [done|]. split; [done|]. split; [done|]. split; [lia|]. eauto. }
  destruct (pop_one_cleanup q) as [[[[u ip] c] q1]|] eqn:Hpop; 
    [|intros [= <- <- <-] Hp Hlen Hd; split; [done|]; split; [done|]; split; [done|]; split; [lia|]; by eauto].
  apply pop_one_spec in Hpop as (Hc & Hu & ->). intros Hrun Hp Hlen Hd.
  set (Q := ips_of q u) in *. set (q1 := put_ips u (delete ip Q) q) in *.
  assert (forall u', ips_of q1 u' = if decide (u = u') then delete ip Q else ips_of q u') as Hq1 by apply ips_of_put.
  assert (entries q1 = entries q - 1) as He1.
  { unfold q1. rewrite entries_put. fold Q. rewrite map_size_delete_Some by eauto.
    assert (size Q <> 0%nat) by (intros HQ%map_size_empty_inv; by rewrite HQ, lookup_empty in Hc). lia. }
  pose proof (entries_nonneg q1). rewrite Z.mod_small in Hrun by lia.
  assert (forall u' ip', count_in q1 u' ip' = count_in q u' ip' - if decide ((u, ip) = (u', ip')) then c else 0) as Hcount.
  { intros u' ip'. unfold count_in. rewrite Hq1. destruct (decide (u = u')) as [<-|]; [|rewrite decide_False by congruence; lia].
    fold Q. rewrite lookup_delete. destruct (decide (ip = ip')) as [<-|].
    - rewrite decide_True by done. rewrite Hc. cbn. lia.
    - rewrite decide_False by congruence. lia. }
  apply IH in Hrun as (Hp' & Hsub & Hsum & Hl' & Hdom); [| |lia|].
  - split; [done|]. split.
    { intros u' Hu'. apply Hsub in Hu'. unfold q1, put_ips in Hu'. destruct (decide (u = u')) as [<-|Hne]; [done|].
      destruct (_ =? _)%nat; [by rewrite lookup_delete_ne in Hu'|by rewrite lookup_insert_ne in Hu']. }
    split; [|split; [lia|]].
    + intros u' ip'. rewrite Hsum, Hcount, lookup_insert. case_decide as Hd1; [|lia]. injection Hd1 as <- <-.
      assert (drained !! (u, ip) = None) as ->; [|cbn; lia].
      destruct (drained !! (u, ip)) as [c'|] eqn:Hd'; [|done]. apply Hd in Hd'. fold Q in Hd'. congruence.
    + intros u' ip' c' Hc'. apply Hdom in Hc' as [Hc'|[? Hu']].
      * rewrite lookup_insert in Hc'. case_decide as Hd1; [|by left]. injection Hd1 as <- <-. injection Hc' as <-.
        right. split; [by apply (Hp u ip)|done].
      * right. split; [done|]. unfold q1, put_ips in Hu'. destruct (decide (u = u')) as [<-|Hne]; [done|].
        destruct (_ =? _)%nat; [by rewrite lookup_delete_ne in Hu'|by rewrite lookup_insert_ne in Hu'].
  - intros u' ip' c'. rewrite Hq1. case_decide; [subst u'|apply Hp]. rewrite lookup_delete. case_decide; [done|apply Hp].
  - intros u' ip' c'. rewrite lookup_insert, Hq1. destruct (decide ((u, ip) = (u', ip'))) as [[= <- <-]|Hne].
    + intros _. rewrite decide_True by done. apply lookup_delete_eq.
    + intros Hc'%Hd. case_decide; [subst u'|done]. rewrite lookup_delete. by case_decide.
Qed.

Lemma take_shard_tracked {C pend} n owed idx t :
  tracked_but C pend n owed t -> n < umax 64 -> (idx < USER_IP_TRACKER_SHARDS)%nat ->
  let '(l, t') := take_shard_cleanups idx t in
  tracked_but C pend n (fun u ip => owed u ip + batch_at l u ip) t' /\
  Forall (fun e => 1 <= e.2 /\ shard_idx e.1.1 = idx) l /\ ip_shards t' = ip_shards t.
Proof.
  intros Ht Hn Hi. unfold take_shard_cleanups. pose proof (queue_counted _ _ _ _ Ht Hi) as Hqc. pose proof (tk_queue_le Ht).
  destruct (pop_cleanups _ _ _ _) as [[q len] drained] eqn:Hpop. unfold umax in Hn.
  apply pop_cleanups_spec in Hpop as (Hp & Hsub & Hsum & Hlen & Hdom);
    [|apply (tk_queue_pos Ht)|lia|by intros u ip c; rewrite lookup_empty].
  assert (forall u ip c, drained !! (u, ip) = Some c -> 1 <= c /\ shard_idx u = idx) as Hhome.
  { intros u ip c Hc. apply Hdom in Hc as [Hc|[Hc Hu]]; [by rewrite lookup_empty in Hc|]. split; [done|]. by apply (tk_home Ht). }
  assert (forall u ip, 0 <= default 0 (drained !! (u, ip))) as Hnn.
  { intros u ip. destruct (drained !! (u, ip)) as [c|] eqn:Hc; cbn; [|done]. apply Hhome in Hc as [? _]. lia. }
  split; [|split; [|done]].
  - pose proof (tk_uncounted Ht). apply (tracked_queue (pend := pend) pend n n owed); try done; try lia.
    + intros u Hu. apply (tk_home Ht). by apply Hsub.
    + intros u ip Hu _. rewrite batch_of_pairs. specialize (Hsum u ip). rewrite lookup_empty in Hsum. cbn in Hsum. lia.
    + intros u ip Hu. rewrite batch_of_pairs. destruct (drained !! (u, ip)) as [c|] eqn:Hc; cbn; [|lia]. apply Hhome in Hc as [_ ?]. done.
    + intros u ip. rewrite batch_of_pairs. pose proof (tk_owed Ht u ip). specialize (Hnn u ip). lia.
  - apply Forall_fmap, list.Forall_forall. intros [[u ip] c] He. rewrite (hash_iter_perm _ _ drained) in He.
    apply elem_of_map_to_list in He. cbn. by apply Hhome in He.
Qed.

(** * Compaction *)

Lemma compact_user_same sh u :
  (forall u', ips_of (active_ips (compact_user sh u)) u' = ips_of (active_ips sh) u') /\
  (forall u', ips_of (recent_ips (compact_user sh u)) u' = ips_of (recent_ips sh) u') /\
  entries (active_ips (compact_user sh u)) = entries (active_ips sh) /\
  entries (recent_ips (compact_user sh u)) = entries (recent_ips sh).
Proof.
  unfold compact_user.
  assert (forall m : UserIps, match m !! u with Some ips => (size ips =? 0)%nat | None => true end = (size (ips_of m u) =? 0)%nat) as Hm.
  { intros m. unfold ips_of. destruct (m !! u); [done|]. cbn. by rewrite map_size_empty. }
  rewrite !Hm. destruct (Nat.eqb_spec (size (ips_of (active_ips sh) u)) 0) as [Ha|]; [|done].
  destruct (Nat.eqb_spec (size (ips_of (recent_ips sh) u)) 0) as [Hr|]; [|done]. cbn [andb active_ips recent_ips].
  split; [|split; [|split]].
  - intros u'. rewrite ips_of_delete. case_decide; [subst u'|done]. symmetry. by apply map_size_empty_inv.
  - intros u'. rewrite ips_of_delete. case_decide; [subst u'|done]. symmetry. by apply map_size_empty_inv.
  - rewrite entries_delete. lia.
  - rewrite entries_delete. lia.
Qed.

Lemma compact_users_same users sh :
  (forall u, ips_of (active_ips (foldl compact_user sh users)) u = ips_of (active_ips sh) u) /\
  (forall u, ips_of (recent_ips (foldl compact_user sh users)) u = ips_of (recent_ips sh) u) /\
  entries (active_ips (foldl compact_user sh users)) = entries (active_ips sh) /\
  entries (recent_ips (foldl compact_user sh users)) = entries (recent_ips sh).
Proof.
  revert sh. induction users as [|u users IH]; intros sh; [done|]. cbn [foldl].
  destruct (IH (compact_user sh u)) as (Ha & Hr & Hea & Her), (compact_user_same sh u) as (Ha1 & Hr1 & Hea1 & Her1).
  split; [intros; by rewrite Ha|]. split; [intros; by rewrite Hr|]. split; congruence.
Qed.

Lemma entries_fmap (f : gmap IpAddr Z -> gmap IpAddr Z) (m : UserIps) :
  entries (f <$> m) = map_sum (fun _ ips => Z.of_nat (size (f ips))) m.
Proof.
  unfold entries. induction m as [|u ips m Hu IH] using map_ind; [done|].
  rewrite fmap_insert, !map_sum_insert_new, IH; [done|done|]. by rewrite lookup_fmap, Hu.
Qed.

Lemma ips_of_fmap (f : gmap IpAddr Z -> gmap IpAddr Z) (m : UserIps) u : f ∅ = ∅ -> ips_of (f <$> m) u = f (ips_of m u).
Proof. intros Hf. unfold ips_of. rewrite lookup_fmap. by destruct (m !! u). Qed.

Lemma pruned_total m now window :
  total (fun e => (prune_recent e.2 now window).2) (hash_iter (list Z) (gmap IpAddr Z) m)
  = entries m - entries (recent_now now window <$> m).
Proof.
  rewrite (total_perm _ _ _ (hash_iter_perm _ _ m)). unfold total. rewrite total_map_to_list, entries_fmap. unfold entries. cbn [snd].
  rewrite (map_sum_ext _ (fun _ ips => Z.of_nat (size ips) - Z.of_nat (size (recent_now now window ips)))).
  - induction m as [|u ips m Hu IH] using map_ind; [done|]. rewrite !map_sum_insert_new by done. lia.
  - intros u ips _. by destruct (prune_recent_eq ips now window) as [-> _].
Qed.

Lemma compact_tracked {C pend} n owed window now idx t :
  tracked_but C pend n owed t -> (idx < USER_IP_TRACKER_SHARDS)%nat ->
  tracked_but C pend n owed (compact_shard window now idx t) /\
  (forall j u, ips_of (active_ips (ip_shard j (compact_shard window now idx t))) u = ips_of (active_ips (ip_shard j t)) u) /\
  (forall j u, ips_of (recent_ips (ip_shard j (compact_shard window now idx t))) u =
    if decide (idx = j) then recent_now now window (ips_of (recent_ips (ip_shard j t)) u) else ips_of (recent_ips (ip_shard j t)) u).
Proof.
  intros Ht Hi. unfold compact_shard. set (sh := ip_shard idx t).
  pose proof (tk_active_le Ht). pose proof (tk_recent_le Ht) as Hrle.
  assert (entries (recent_ips sh) <= recent_entry_count t) as Hrc.
  { rewrite (tk_recent Ht). apply (total_elem_le (fun sh => entries (recent_ips sh)) (ip_shards t)); [intros; apply entries_nonneg|].
    rewrite <- (tk_shards Ht) in Hi. apply lookup_lt_is_Some in Hi as [sh' Hsh']. unfold sh, ip_shard. rewrite Hsh'.
    by eapply list_elem_of_lookup_2. }
  assert (((fun ips => (prune_recent ips now window).1) <$> recent_ips sh) = (recent_now now window <$> recent_ips sh)) as Hpr.
  { apply map_fmap_ext. intros u ips _. by destruct (prune_recent_eq ips now window) as [-> _]. }
  rewrite Hpr. pose proof (pruned_total (recent_ips sh) now window) as Hpt.
  pose proof (entries_nonneg (recent_now now window <$> recent_ips sh)) as Hnn.
  assert (0 <= total (fun e => (prune_recent e.2 now window).2) (hash_iter (list Z) (gmap IpAddr Z) (recent_ips sh))) as Hpn.
  { apply total_nonneg. intros [u ips] _. cbn [snd]. destruct (prune_recent_eq ips now window) as [-> ?]. cbn. lia. }
  rewrite (foldl_sat (fun e => (prune_recent e.2 now window).2)); [| |lia|].
  2: { intros [u ips] _. cbn [snd]. destruct (prune_recent_eq ips now window) as [-> ?]. cbn. lia. }
  2: { unfold umax, MAX_RECENT_IP_ENTRIES in *. lia. }
  rewrite Hpt, decrement_counter_exact by lia.
  set (sh1 := mkIpShard (active_ips sh) (recent_now now window <$> recent_ips sh)).
  set (users := _ ++ _). destruct (compact_users_same users sh1) as (Ha & Hr & Hea & Her).
  destruct (foldl compact_user sh1 users) as [a r]. cbn [active_ips recent_ips] in *.
  assert (forall j, ip_shard j (with_ip_shard idx (mkIpShard a r) (with_entries (active_entry_count t) (recent_entry_count t -
    (0 + (entries (recent_ips sh) - entries (recent_now now window <$> recent_ips sh)))) t))
    = if decide (idx = j) then mkIpShard a r else ip_shard j t) as Hsh.
  { intros j. rewrite ip_shard_with; [done|]. cbn. rewrite (tk_shards Ht). done. }
  split; [|split].
  - apply (tracked_shard (C := C) C n n owed owed); try done; try lia.
    + intros u ip c. rewrite Ha. apply (tk_pos Ht).
    + intros u ip _ _. unfold count_in. by rewrite Ha.
    + apply (tk_owed Ht).
    + intros u ip Hu. unfold count_in. rewrite Ha. pose proof (tk_bound Ht u ip) as Hb. rewrite Hu in Hb. exact Hb.
    + rewrite Hea. fold sh. cbn. lia.
    + rewrite Her. fold sh. cbn. lia.
  - intros j u. rewrite Hsh. case_decide; [|done]. subst j. apply Ha.
  - intros j u. rewrite Hsh. case_decide; [|done]. subst j. cbn [recent_ips]. rewrite Hr. apply ips_of_fmap. apply map_filter_empty.
Qed.

(** * Sections of concurrent calls in any order *)

Notation Session := (list Z * IpAddr)%type.

Definition occurs (p : Session) (l : list Session) : Z := total (fun q => if decide (q = p) then 1 else 0) l.
Definition sessions_of (u : list Z) (l : list Session) : Z := total (fun q => if decide (q.1 = u) then 1 else 0) l.
Definition open_ips (u : list Z) (l : list Session) : gset IpAddr := list_to_set (snd <$> filter (fun q => q.1 = u) l).

Fixpoint remove_one (p : Session) (l : list Session) : list Session :=
  match l with
  | [] => []
  | q :: l => if decide (q = p) then l else q :: remove_one p l
  end.

Lemma total_remove_one f p l : p ∈ l -> total f (remove_one p l) = total f l - f p.
Proof.
  induction l as [|q l IH]; [by intros ?%not_elem_of_nil|]. intros Hp. cbn [remove_one]. case_decide as Hq.
  - subst q. rewrite total_cons. lia.
  - apply elem_of_cons in Hp as [->|Hp]; [done|]. rewrite !total_cons, (IH Hp). lia.
Qed.

Lemma occurs_elem p l : p ∈ l <-> 1 <= occurs p l.
Proof.
  unfold occurs. split.
  - intros Hp. etrans; [|apply (total_elem_le _ l p); [intros q _; by case_decide|done]]. cbv beta. by rewrite decide_True.
  - induction l as [|q l IH]; [cbn; lia|]. rewrite total_cons. case_decide as Hq; [subst; intros _; left|]. intros Hl. right. apply IH. lia.
Qed.

Lemma occurs_nonneg p l : 0 <= occurs p l.
Proof. apply total_nonneg. intros q _. by case_decide. Qed.

Lemma open_ips_elem u ip l : ip ∈ open_ips u l <-> 1 <= occurs (u, ip) l.
Proof.
  rewrite <- occurs_elem. unfold open_ips. rewrite elem_of_list_to_set, list_elem_of_fmap. split.
  - intros ([u' ip'] & -> & [Hu Hin]%list_elem_of_filter). cbn in *. by subst u'.
  - intros Hin. exists (u, ip). split; [done|]. by apply list_elem_of_filter.
Qed.

(** A batch that a call has taken from a queue and not applied yet; [fl_uncounted]
    of its entries are still to be taken off the count of queued entries. *)
Record Flight := mkFlight { fl_shard : nat; fl_batch : Batch; fl_uncounted : Z }.

(** The tracker, the sessions that hold an entry, the batches under way, and the
    users whose addresses have been cleared. *)
Record IpSystem := mkIpSystem {
  sy_tracker : UserIpTracker;
  sy_open : list Session;
  sy_flight : list Flight;
  sy_cleared : gset (list Z);
}.

Definition ip_system_new : IpSystem := mkIpSystem ip_tracker_new [] [] ∅.

Inductive IpStep :=
  | StAdmit (limit : option Z) (mode : UserMaxUniqueIpsMode) (window now : Z) (u : list Z) (ip : IpAddr)
  | StRelease (u : list Z) (ip : IpAddr)
  | StDrop (u : list Z) (ip : IpAddr)
  | StTakeUser (u : list Z)
  | StUncount (k : nat)
  | StTakeShard (idx : nat)
  | StApply (k : nat)
  | StCompact (window now : Z) (idx : nat)
  | StClear (u : list Z)
  | StPolicy (limits : gmap (list Z) Z) (default_limit mode window_secs : Z).

(** A step is what a call does under one lock, or one access to the count of
    queued entries outside of one.  A session ends once, by a release or by a
    drop; calls read the policy and whether anything is queued before they take a
    lock, so that the policy of an admission is arbitrary and a queue may be
    taken at any time.  [clear_all] is called by tests only. *)
Definition ip_step (st : IpStep) (s : IpSystem) : IpSystem :=
  let t := sy_tracker s in
  let with_tracker t := mkIpSystem t (sy_open s) (sy_flight s) (sy_cleared s) in
  let hold f t :=
    mkIpSystem t (sy_open s) (match fl_batch f with [] => sy_flight s | _ => f :: sy_flight s end) (sy_cleared s) in
  match st with
  | StAdmit limit mode window now u ip =>
      match admit_ip limit mode window now u ip t with
      | (Ok _, t) => mkIpSystem t ((u, ip) :: sy_open s) (sy_flight s) (sy_cleared s)
      | (Err _, t) => with_tracker t
      end
  | StRelease u ip =>
      if decide ((u, ip) ∈ sy_open s)
      then mkIpSystem (release_ip u ip t) (remove_one (u, ip) (sy_open s)) (sy_flight s) (sy_cleared s) else s
  | StDrop u ip =>
      if decide ((u, ip) ∈ sy_open s)
      then mkIpSystem (enqueue_cleanup u ip t) (remove_one (u, ip) (sy_open s)) (sy_flight s) (sy_cleared s) else s
  | StTakeUser u => let '(l, t) := take_user_cleanups u t in hold (mkFlight (shard_idx u) l (Z.of_nat (length l))) t
  | StUncount k =>
      match sy_flight s !! k with
      | Some f => mkIpSystem (uncount_cleanups (fl_uncounted f) t) (sy_open s)
          (<[k := mkFlight (fl_shard f) (fl_batch f) 0]> (sy_flight s)) (sy_cleared s)
      | None => s
      end
  | StTakeShard idx =>
      if decide (idx < USER_IP_TRACKER_SHARDS)%nat then let '(l, t) := take_shard_cleanups idx t in hold (mkFlight idx l 0) t else s
  | StApply k =>
      match sy_flight s !! k with
      | Some f =>
          if fl_uncounted f =? 0
          then mkIpSystem (apply_cleanups (fl_shard f) (fl_batch f) t) (sy_open s) (delete k (sy_flight s)) (sy_cleared s) else s
      | None => s
      end
  | StCompact window now idx =>
      if decide (idx < USER_IP_TRACKER_SHARDS)%nat then with_tracker (compact_shard window now idx t) else s
  | StClear u => mkIpSystem (clear_user_ips u t) (sy_open s) (sy_flight s) ({[u]} ∪ sy_cleared s)
  | StPolicy limits default_limit mode window_secs => with_tracker (with_policy limits default_limit mode window_secs t)
  end.

Definition ip_exec (steps : list IpStep) (s : IpSystem) : IpSystem := foldl (fun s st => ip_step st s) s steps.

Definition flight_at (fl : list Flight) (u : list Z) (ip : IpAddr) : Z := total (fun f => batch_at (fl_batch f) u ip) fl.
Definition uncounted (fl : list Flight) : Z := total fl_uncounted fl.
Definition system_owed (s : IpSystem) (u : list Z) (ip : IpAddr) : Z := occurs (u, ip) (sy_open s) + flight_at (sy_flight s) u ip.

Definition flight_ok (f : Flight) : Prop :=
  (fl_shard f < USER_IP_TRACKER_SHARDS)%nat /\ 0 <= fl_uncounted f /\
  Forall (fun e => 1 <= e.2 /\ shard_idx e.1.1 = fl_shard f) (fl_batch f).

Definition system_ok (n : Z) (s : IpSystem) : Prop :=
  tracked_but (sy_cleared s) (uncounted (sy_flight s)) n (system_owed s) (sy_tracker s) /\ Forall flight_ok (sy_flight s).

Definition active_count (t : UserIpTracker) (u : list Z) (ip : IpAddr) : Z := count_in (active_ips (ip_shard (shard_idx u) t)) u ip.

Lemma tracked_mono {C pend} n n' owed t : n <= n' -> tracked_but C pend n owed t -> tracked_but C pend n' owed t.
Proof. intros Hn [? ? ? ? ? ? ? Hb ? ? ? ? ? ? ?]. split; try done; try lia. intros u ip. specialize (Hb u ip). lia. Qed.

Lemma flight_ok_nonneg f u ip : flight_ok f -> 0 <= batch_at (fl_batch f) u ip.
Proof. intros (_ & _ & Hb). apply batch_at_nonneg. eapply list.Forall_impl; [exact Hb|]. by intros e [? _]. Qed.

Lemma total_delete {A} (f : A -> Z) (l : list A) k x : l !! k = Some x -> total f (delete k l) = total f l - f x.
Proof.
  revert k. induction l as [|y l IH]; intros [|k] Hk; [done|done| |].
  - injection Hk as ->. change (delete 0%nat (x :: l)) with l. rewrite total_cons. lia.
  - change (delete (S k) (y :: l)) with (y :: delete k l). rewrite !total_cons, (IH k Hk). lia.
Qed.

Lemma flight_at_le fl f u ip : Forall flight_ok fl -> f ∈ fl -> batch_at (fl_batch f) u ip <= flight_at fl u ip.
Proof.
  intros Hf Hin. apply (total_elem_le (fun f => batch_at (fl_batch f) u ip) fl f); [|done].
  intros g Hg. apply flight_ok_nonneg. rewrite list.Forall_forall in Hf. by apply Hf.
Qed.

Lemma flight_at_nonneg fl u ip : Forall flight_ok fl -> 0 <= flight_at fl u ip.
Proof. intros Hf. apply total_nonneg. intros f Hin. apply flight_ok_nonneg. rewrite list.Forall_forall in Hf. by apply Hf. Qed.

Lemma uncounted_le fl f : Forall flight_ok fl -> f ∈ fl -> fl_uncounted f <= uncounted fl.
Proof.
  intros Hf Hin. apply (total_elem_le fl_uncounted fl f); [|done]. intros g Hg. rewrite list.Forall_forall in Hf. by apply Hf.
Qed.

(** A batch is taken from a queue. *)
Lemma hold_ok n s t f :
  Forall flight_ok (sy_flight s) -> flight_ok f -> (fl_batch f = [] -> fl_uncounted f = 0) ->
  tracked_but (sy_cleared s) (uncounted (sy_flight s) + fl_uncounted f) n (fun u ip => system_owed s u ip + batch_at (fl_batch f) u ip) t ->
  system_ok n (mkIpSystem t (sy_open s) (match fl_batch f with [] => sy_flight s | _ => f :: sy_flight s end) (sy_cleared s)).
Proof.
  intros Hf Hb Hz Ht. unfold system_ok. cbn [sy_cleared sy_flight sy_tracker]. destruct (fl_batch f) as [|e l] eqn:Hl.
  - specialize (Hz eq_refl). split; [|done]. rewrite Hz, Z.add_0_r in Ht. eapply tracked_ext; [|exact Ht]. intros u ip.
    unfold system_owed. change (batch_at [] u ip) with 0. cbn [sy_open sy_flight]. lia.
  - split; [|by constructor]. unfold uncounted at 1. rewrite total_cons. fold (uncounted (sy_flight s)). rewrite Z.add_comm.
    eapply tracked_ext; [|exact Ht]. intros u ip. unfold system_owed, flight_at. cbn [sy_open sy_flight]. rewrite total_cons, Hl. lia.
Qed.

Lemma uncount_ok n s k f :
  system_ok n s -> n < umax 64 -> sy_flight s !! k = Some f ->
  system_ok n (mkIpSystem (uncount_cleanups (fl_uncounted f) (sy_tracker s)) (sy_open s)
    (<[k := mkFlight (fl_shard f) (fl_batch f) 0]> (sy_flight s)) (sy_cleared s)).
Proof.
  intros [Ht Hf] Hn Hk. pose proof (Forall_lookup_1 _ _ _ _ Hf Hk) as (Hi & Hu & Hb). pose proof (list_elem_of_lookup_2 _ _ _ Hk) as Hin.
  pose proof (uncounted_le _ _ Hf Hin) as Hle. split; cbn [sy_cleared sy_flight sy_tracker].
  - unfold uncounted. rewrite (total_insert _ _ _ _ _ Hk). cbn [fl_uncounted]. fold (uncounted (sy_flight s)). rewrite Z.add_0_r.
    eapply tracked_ext; [|apply uncount_tracked; [exact Ht|done|lia]]. intros u ip. unfold system_owed, flight_at.
    cbn [sy_open sy_flight]. rewrite (total_insert _ _ _ _ _ Hk). cbn [fl_batch]. lia.
  - by apply Forall_insert.
Qed.

Lemma apply_owed n s k f t :
  tracked_but (sy_cleared s) (uncounted (sy_flight s)) n (system_owed s) t -> Forall flight_ok (sy_flight s) ->
  sy_flight s !! k = Some f -> fl_uncounted f = 0 ->
  system_ok n (mkIpSystem (apply_cleanups (fl_shard f) (fl_batch f) t) (sy_open s) (delete k (sy_flight s)) (sy_cleared s)).
Proof.
  intros Ht Hf Hk Hz. pose proof (Forall_lookup_1 _ _ _ _ Hf Hk) as (Hi & _ & Hl). pose proof (list_elem_of_lookup_2 _ _ _ Hk) as Hin.
  split; cbn [sy_cleared sy_flight sy_tracker].
  - unfold uncounted. rewrite (total_delete _ _ _ _ Hk), Hz, Z.sub_0_r. fold (uncounted (sy_flight s)).
    eapply tracked_ext; [|apply (apply_tracked n (system_owed s)); [done|done|done|]].
    + intros u ip. cbv beta. unfold system_owed, flight_at. cbn [sy_open sy_flight]. rewrite (total_delete _ _ _ _ Hk). lia.
    + intros u ip. unfold system_owed. pose proof (occurs_nonneg (u, ip) (sy_open s)). pose proof (flight_at_le _ _ u ip Hf Hin). lia.
  - by apply Forall_delete.
Qed.

Lemma step_ok n st s : system_ok n s -> n < umax 64 -> system_ok (n + 1) (ip_step st s).
Proof.
  intros Hok Hn. pose proof Hok as [Ht Hf].
  assert (forall s', system_ok n s' -> system_ok (n + 1) s') as Hmono by (intros s' [? ?]; split; [eapply tracked_mono; [|done]; lia|done]).
  assert (forall u ip, (u, ip) ∈ sy_open s -> 1 <= system_owed s u ip) as Howed.
  { intros u ip Hin%occurs_elem. unfold system_owed. pose proof (flight_at_nonneg _ u ip Hf). lia. }
  assert (forall u ip t, (u, ip) ∈ sy_open s ->
    tracked_but (sy_cleared s) (uncounted (sy_flight s)) (n + 1) (owed_add (system_owed s) u ip (-1)) t ->
    system_ok (n + 1) (mkIpSystem t (remove_one (u, ip) (sy_open s)) (sy_flight s) (sy_cleared s))) as Hend.
  { intros u ip t Hin Ht'. split; [|done]. eapply tracked_ext; [|exact Ht']. intros u' ip'. unfold owed_add, system_owed, occurs. cbn [sy_open sy_flight].
    rewrite total_remove_one by done. repeat case_decide; try lia; congruence. }
  destruct st as [limit mode window now u ip|u ip|u ip|u|k|idx|k|window now idx|u|limits dl mode ws]; cbn [ip_step].
  - pose proof (admit_tracked n _ limit mode window now u ip _ Ht Hn) as Ha.
    destruct (admit_ip _ _ _ _ _ _ _) as [[[]|e] t]; [|by apply Hmono].
    split; [|done]. eapply tracked_ext; [|exact Ha]. intros u' ip'. unfold owed_add, system_owed, occurs. cbn [sy_open sy_flight].
    rewrite total_cons. lia.
  - case_decide as Hin; [|by apply Hmono]. apply Hend; [done|]. eapply tracked_mono; [|apply release_tracked; [done|by apply Howed]]. lia.
  - case_decide as Hin; [|by apply Hmono]. apply Hend; [done|]. apply enqueue_tracked; [done|done|by apply Howed].
  - pose proof (take_user_tracked n _ u _ Ht) as Hu. destruct (take_user_cleanups u _) as [l t].
    destruct Hu as (Ht' & Hl & _). apply Hmono. apply (hold_ok n s t (mkFlight (shard_idx u) l (Z.of_nat (length l)))); try done.
    + split; [apply shard_idx_lt|]. split; [cbn; lia|done].
    + cbn. by intros ->.
  - destruct (sy_flight s !! k) as [f|] eqn:Hk; apply Hmono; [by apply uncount_ok|done].
  - case_decide as Hi; [|by apply Hmono]. pose proof (take_shard_tracked n _ idx _ Ht Hn Hi) as Hu.
    destruct (take_shard_cleanups idx _) as [l t]. destruct Hu as (Ht' & Hl & _). apply Hmono. apply (hold_ok n s t (mkFlight idx l 0)); try done.
    cbn [fl_uncounted fl_batch]. by rewrite Z.add_0_r.
  - destruct (sy_flight s !! k) as [f|] eqn:Hk; [|by apply Hmono]. destruct (Z.eqb_spec (fl_uncounted f) 0); apply Hmono; [by apply apply_owed|done].
  - case_decide as Hi; [|by apply Hmono]. apply Hmono. split; [|done]. by apply compact_tracked.
  - apply Hmono. split; [|done]. cbn [sy_cleared sy_flight sy_tracker]. by apply clear_tracked.
  - apply Hmono. split; [|done]. by destruct Ht.
Qed.

Lemma exec_ok steps : Z.of_nat (length steps) <= umax 64 -> system_ok (Z.of_nat (length steps)) (ip_exec steps ip_system_new).
Proof.
  induction steps as [|st steps IH] using rev_ind; intros Hn.
  - split; [|constructor]. eapply tracked_ext; [|apply tracked_new; done]. done.
  - unfold ip_exec. rewrite foldl_app. rewrite length_app in *. cbn in *.
    replace (Z.of_nat (length steps + 1)) with (Z.of_nat (length steps) + 1) in * by lia. apply step_ok; [apply IH|]; lia.
Qed.

(** ** The limit *)

Definition active_of (t : UserIpTracker) (u : list Z) : gmap IpAddr Z := ips_of (active_ips (ip_shard (shard_idx u) t)) u.

Lemma size_le_present (m m' : gmap IpAddr Z) : (forall ip, is_Some (m' !! ip) -> is_Some (m !! ip)) -> (size m' <= size m)%nat.
Proof.
  intros Hs. rewrite <- !size_dom. apply subseteq_size. intros ip. rewrite !elem_of_dom. apply Hs.
Qed.

Lemma size_le_counts n s n' s' u :
  system_ok n s -> system_ok n' s' -> (forall ip, active_count (sy_tracker s') u ip <= active_count (sy_tracker s) u ip) ->
  (size (active_of (sy_tracker s') u) <= size (active_of (sy_tracker s) u))%nat.
Proof.
  intros [Ht _] [Ht' _] Hc. apply size_le_present. intros ip. unfold active_of.
  rewrite (pos_present _ _ _ (tk_pos Ht' _)), (pos_present _ _ _ (tk_pos Ht _)).
  specialize (Hc ip). unfold active_count in Hc. lia.
Qed.

Lemma apply_queue idx l t j : cleanup_queue j (apply_cleanups idx l t) = cleanup_queue j t.
Proof. unfold apply_cleanups. by destruct (active_cleanups _ _ _). Qed.

Lemma apply_shrinks {C pend} n owed idx l t u ip :
  tracked_but C pend n owed t -> (idx < USER_IP_TRACKER_SHARDS)%nat -> Forall (fun e => 1 <= e.2) l ->
  active_count (apply_cleanups idx l t) u ip <= active_count t u ip.
Proof.
  intros Ht Hi Hl. unfold apply_cleanups, active_count. pose proof (active_counted _ _ _ _ Ht Hi). pose proof (tk_active_le Ht).
  pose proof (entries_nonneg (active_ips (ip_shard idx t))).
  pose proof (active_cleanups_spec l (active_ips (ip_shard idx t)) 0 Hl (tk_pos Ht idx) ltac:(lia)
    ltac:(unfold MAX_ACTIVE_IP_ENTRIES, umax in *; lia)) as Hc.
  destruct (active_cleanups _ _ _) as [active removed]. destruct Hc as (_ & Hc & _).
  change (ip_shard ?j (with_entries _ _ ?t')) with (ip_shard j t'). rewrite ip_shard_with by (rewrite (tk_shards Ht); done).
  case_decide as Hd; [|done]. subst idx. cbn [active_ips]. rewrite Hc. pose proof (batch_at_nonneg l u ip Hl).
  pose proof (pos_count _ u ip (tk_pos Ht (shard_idx u))). lia.
Qed.

Lemma clear_shrinks {C pend} n owed u' t u ip :
  tracked_but C pend n owed t -> active_count (clear_user_ips u' t) u ip <= active_count t u ip.
Proof.
  intros Ht. unfold clear_user_ips, active_count. change (ip_shard ?j (with_entries _ _ ?t')) with (ip_shard j t').
  rewrite ip_shard_with by (rewrite (tk_shards Ht); apply shard_idx_lt). case_decide as Hd; [|done]. cbn [active_ips].
  rewrite Hd. pose proof (pos_count _ u ip (tk_pos Ht (shard_idx u))) as Hp. unfold count_in in *. rewrite ips_of_delete.
  case_decide; [|done]. rewrite lookup_empty. done.
Qed.

(** Only an admission adds to the entries of a user. *)
Lemma step_shrinks n st s u ip :
  system_ok n s -> match st with StAdmit _ _ _ _ _ _ => False | _ => True end ->
  active_count (sy_tracker (ip_step st s)) u ip <= active_count (sy_tracker s) u ip.
Proof.
  intros [Ht Hf] Hst. destruct st as [| u1 ip1|u1 ip1|u1|k|idx|k|window now idx|u1|limits dl mode ws]; [done|..]; cbn [ip_step] in *.
  - case_decide as Hin; [|done]. cbn [sy_tracker]. rewrite release_eq by apply Ht. eapply apply_shrinks; [exact Ht|apply shard_idx_lt|].
    by repeat constructor.
  - case_decide as Hin; done.
  - done.
  - by destruct (sy_flight s !! k).
  - case_decide; [|done]. unfold take_shard_cleanups. by destruct (pop_cleanups _ _ _ _) as [[??]?].
  - destruct (sy_flight s !! k) as [f|] eqn:Hk; [|done]. destruct (fl_uncounted f =? 0); [|done]. cbn [sy_tracker].
    pose proof (Forall_lookup_1 _ _ _ _ Hf Hk) as (Hi & _ & Hb). eapply apply_shrinks; [exact Ht|done|].
    eapply list.Forall_impl; [exact Hb|]. by intros e [? _].
  - case_decide; [|done]. cbn [sy_tracker]. unfold active_count, count_in.
    destruct (compact_tracked _ _ window now idx _ Ht ltac:(done)) as (_ & -> & _). done.
  - cbn [sy_tracker]. by eapply clear_shrinks.
  - done.
Qed.

Lemma ip_shard_done window now u ip c a r t j :
  (shard_idx u < length (ip_shards t))%nat ->
  ip_shard j (admit_done window now u ip c a r t) = if decide (shard_idx u = j) then
    mkIpShard (<[u := <[ip := c]> (active_of t u)]> (active_ips (ip_shard (shard_idx u) t)))
      (<[u := <[ip := now]> (recent_now now window (ips_of (recent_ips (ip_shard (shard_idx u) t)) u))]> (recent_ips (ip_shard (shard_idx u) t)))
    else ip_shard j t.
Proof. intros Hl. unfold admit_done. rewrite ip_shard_with by done. done. Qed.

Lemma ip_shard_base window now u t j :
  (shard_idx u < length (ip_shards t))%nat ->
  ip_shard j (admit_base window now u t) = if decide (shard_idx u = j) then
    mkIpShard (<[u := active_of t u]> (active_ips (ip_shard (shard_idx u) t)))
      (<[u := recent_now now window (ips_of (recent_ips (ip_shard (shard_idx u) t)) u)]> (recent_ips (ip_shard (shard_idx u) t)))
    else ip_shard j t.
Proof. intros Hl. unfold admit_base. rewrite ip_shard_with by done. done. Qed.

Lemma active_of_done window now u ip c a r t u' :
  (shard_idx u < length (ip_shards t))%nat ->
  active_of (admit_done window now u ip c a r t) u' = if decide (u = u') then <[ip := c]> (active_of t u) else active_of t u'.
Proof.
  intros Hl. unfold active_of at 1. rewrite ip_shard_done by done. destruct (decide (shard_idx u = shard_idx u')) as [He|Hne].
  - cbn [active_ips]. rewrite ips_of_insert. case_decide; [done|]. unfold active_of. by rewrite He.
  - rewrite decide_False by congruence. done.
Qed.

Lemma active_of_base window now u t u' :
  (shard_idx u < length (ip_shards t))%nat -> active_of (admit_base window now u t) u' = active_of t u'.
Proof.
  intros Hl. unfold active_of at 1. rewrite ip_shard_base by done. destruct (decide (shard_idx u = shard_idx u')) as [He|Hne]; [|done].
  cbn [active_ips]. rewrite ips_of_insert. case_decide; [by subst u'|]. unfold active_of. by rewrite He.
Qed.

(** An admission keeps to a limit on active addresses. *)
Lemma admit_limited {C pend} n owed limit mode window now u ip t u' L :
  tracked_but C pend n owed t -> (u = u' -> (exists l, limit = Some l /\ l <= L) /\ mode <> TimeWindow) ->
  Z.of_nat (size (active_of t u')) <= L ->
  Z.of_nat (size (active_of (admit_ip limit mode window now u ip t).2 u')) <= L.
Proof.
  intros Ht Hlim HL. assert (shard_idx u < length (ip_shards t))%nat as Hlt by (rewrite (tk_shards Ht); apply shard_idx_lt).
  rewrite (admit_ip_eq n owed) by done. cbv zeta. fold (active_of t u).
  assert (Z.of_nat (size (active_of (admit_base window now u t) u')) <= L) as Hbase by (by rewrite active_of_base).
  destruct (active_of t u !! ip) as [c|] eqn:Hc.
  - match goal with |- context [match ?g with Some _ => _ | None => _ end] => destruct g end; cbn [snd]; [|exact Hbase].
    rewrite active_of_done by done. case_decide; [subst u'|done]. rewrite map_size_insert_Some by eauto. done.
  - destruct (ip_denied _ _ _ _ _) eqn:Hd; [exact Hbase|]. destruct (_ <=? _); [exact Hbase|].
    match goal with |- context [match ?g with Some _ => _ | None => _ end] => destruct g end; cbn [snd]; [|exact Hbase].
    rewrite active_of_done by done. case_decide as Hu; [subst u'|done]. rewrite map_size_insert_None by done.
    destruct (Hlim eq_refl) as [(l & -> & Hl) Hm]. unfold ip_denied in Hd. cbn [mbind option_bind] in Hd.
    destruct (Z.leb_spec l (Z.of_nat (size (active_of t u)))) as [Hle|Hgt]; [|lia]. by destruct mode.
Qed.

Definition step_limited (u : list Z) (L : Z) (st : IpStep) : Prop :=
  match st with
  | StAdmit limit mode _ _ u' _ => u' = u -> (exists l, limit = Some l /\ l <= L) /\ mode <> TimeWindow
  | _ => True
  end.

Lemma exec_limited u L steps :
  Z.of_nat (length steps) <= umax 64 -> 0 <= L -> Forall (step_limited u L) steps ->
  Z.of_nat (size (active_of (sy_tracker (ip_exec steps ip_system_new)) u)) <= L.
Proof.
  intros Hn HL. induction steps as [|st steps IH] using rev_ind; intros Hs.
  { cbn [ip_exec foldl ip_system_new sy_tracker]. unfold active_of, ips_of. rewrite ip_shard_new. cbn [active_ips].
    rewrite lookup_empty. cbn [default from_option]. rewrite map_size_empty. lia. }
  apply Forall_app in Hs as [Hs [Hst _]%list.Forall_cons]. rewrite length_app in Hn. cbn in Hn.
  specialize (IH ltac:(lia) Hs). pose proof (exec_ok steps ltac:(lia)) as Hok.
  unfold ip_exec in *. rewrite foldl_app. cbn [foldl]. set (s := foldl _ _ _) in *.
  destruct st as [limit mode window now u' ip| | | | | | | | |];
    try (etrans; [|exact IH]; apply inj_le; eapply size_le_counts; [exact Hok|eapply step_ok; [exact Hok|lia]|];
         intros ip'; eapply step_shrinks; [exact Hok|exact I]).
  pose proof (admit_limited _ _ limit mode window now u' ip _ u L (proj1 Hok) Hst IH) as Ha. cbn [ip_step].
  destruct (admit_ip _ _ _ _ _ _ _) as [[r|e] t1]; exact Ha.
Qed.
End run.
