(* ===== verification/IpLimits.v ===== *)
(** The limits of a user as sessions see them: the reservations of
    proxy/client.rs over the tracker and the connection counter, against a list
    of the open sessions and the time of the last admission of each address. *)

From stdpp Require Import base list gmap numbers.
From S2P Require Import Net Prelude AuthProbe IpTracker IpTrackerInv IpTrackerRun.
Local Open Scope Z_scope.

Section limits.
Context `{HashIterLaws} `{StrHash}.

(** Between calls nothing is under way, and no address has been cleared. *)
Notation tracked := (tracked_but ∅ 0).

(** * What the calls do to the tables *)

Definition recents_of (t : UserIpTracker) (u : list Z) : gmap IpAddr Z := ips_of (recent_ips (ip_shard (shard_idx u) t)) u.
Definition policy_of (t : UserIpTracker) : gmap (list Z) Z * Z * Z * Z :=
  (max_ips t, default_max_ips t, limit_mode t, limit_window_secs t).

Lemma recent_now_later now now' w m : now <= now' -> recent_now now' w (recent_now now w m) = recent_now now' w m.
Proof.
  intros Hle. apply map_eq. intros ip. apply option_eq. intros s. unfold recent_now. rewrite !map_lookup_filter_Some. cbn.
  unfold duration_since. split; [by intros [[? ?] ?]|]. intros [? ?]. repeat split; (done || lia).
Qed.

Lemma recent_now_insert now w m ip : 0 <= w -> recent_now now w (<[ip := now]> m) = <[ip := now]> (recent_now now w m).
Proof. intros Hw. apply map_filter_insert_True. cbn. unfold duration_since. lia. Qed.

Lemma apply_recents idx l t u : length (ip_shards t) = USER_IP_TRACKER_SHARDS -> (idx < USER_IP_TRACKER_SHARDS)%nat ->
  recents_of (apply_cleanups idx l t) u = recents_of t u.
Proof.
  intros Hl Hi. unfold apply_cleanups. destruct (active_cleanups _ _ _) as [active removed]. unfold recents_of.
  change (ip_shard ?j (with_entries _ _ ?t')) with (ip_shard j t'). rewrite ip_shard_with by (rewrite Hl; done).
  case_decide; [by subst idx|done].
Qed.

Lemma apply_policy idx l t : policy_of (apply_cleanups idx l t) = policy_of t.
Proof. unfold apply_cleanups. by destruct (active_cleanups _ _ _). Qed.

(** Applying a batch at once leaves what is owed as it was. *)
Lemma drain_batch_ok n owed idx l t t' :
  tracked n owed t -> tracked n (fun u ip => owed u ip + batch_at l u ip) t' -> (idx < USER_IP_TRACKER_SHARDS)%nat ->
  Forall (fun e => 1 <= e.2 /\ shard_idx e.1.1 = idx) l -> ip_shards t' = ip_shards t -> policy_of t' = policy_of t ->
  let t2 := match l with [] => t' | _ => apply_cleanups idx l t' end in
  tracked n owed t2 /\ (forall u, recents_of t2 u = recents_of t u) /\ policy_of t2 = policy_of t /\
  (forall j, cleanup_queue j t2 = cleanup_queue j t').
Proof.
  intros Ht Ht' Hi Hl Hsh Hpol.
  assert (forall u, recents_of t' u = recents_of t u) as Hrec by (intros u; unfold recents_of, ip_shard; by rewrite Hsh).
  destruct l as [|e l]; cbv zeta.
  - split; [eapply tracked_ext; [|exact Ht']; intros; cbn; lia|]. done.
  - split; [|split; [|split]].
    + eapply tracked_ext; [|apply (apply_tracked n); [exact Ht'|done|exact Hl|]].
      * intros u ip. cbv beta. lia.
      * intros u ip. cbv beta. pose proof (tk_owed Ht u ip). lia.
    + intros u. rewrite apply_recents by (apply Ht' || done). apply Hrec.
    + by rewrite apply_policy.
    + intros j. apply apply_queue.
Qed.

Lemma drain_user_spec n owed u t :
  tracked n owed t -> n < umax 64 ->
  let t' := drain_cleanup_for_user u t in
  tracked n owed t' /\ (forall ip, active_count t' u ip = owed u ip) /\
  (forall u', recents_of t' u' = recents_of t u') /\ policy_of t' = policy_of t.
Proof.
  intros Ht Hn. unfold drain_cleanup_for_user. destruct (Z.eqb_spec (cleanup_queue_len t) 0) as [Hz|Hz].
  { split; [done|]. split; [|done]. intros ip. unfold active_count. rewrite (tk_balance Ht) by set_solver.
    pose proof (queue_counted _ _ _ _ Ht (shard_idx_lt u)). pose proof (size_ips_le (cleanup_queue (shard_idx u) t) u).
    unfold count_in. assert (size (ips_of (cleanup_queue (shard_idx u) t) u) = 0%nat) as ->%map_size_empty_inv by lia.
    rewrite lookup_empty. cbn. lia. }
  pose proof (take_user_tracked n owed u t Ht) as Hu. assert (policy_of (take_user_cleanups u t).2 = policy_of t) as Hpol by done.
  destruct (take_user_cleanups u t) as [l t1]. destruct Hu as (Ht1 & Hl & Hq & Hsh).
  assert (tracked n (fun u ip => owed u ip + batch_at l u ip) (uncount_cleanups (Z.of_nat (length l)) t1)) as Ht1'.
  { pose proof (uncount_tracked n _ (Z.of_nat (length l)) t1 Ht1 Hn ltac:(lia)) as Hu.
    by replace (0 + Z.of_nat (length l) - Z.of_nat (length l)) with 0 in Hu by lia. }
  destruct (drain_batch_ok n owed (shard_idx u) l t _ Ht Ht1' (shard_idx_lt u) Hl Hsh Hpol) as (Ht2 & Hrec & Hpol2 & Hq2).
  destruct l as [|e l].
  - split; [|split; [|done]].
    + eapply tracked_ext; [|exact Ht1]. intros u' ip. cbv beta. change (batch_at [] u' ip) with 0. lia.
    + intros ip. unfold active_count. rewrite (tk_balance Ht1) by set_solver. rewrite Hq. change (batch_at [] u ip) with 0. lia.
  - split; [done|]. split; [|done]. intros ip. unfold active_count. rewrite (tk_balance Ht2) by set_solver. rewrite Hq2.
    change (cleanup_queue ?j (uncount_cleanups _ t1)) with (cleanup_queue j t1). rewrite Hq. lia.
Qed.

Lemma drain_shard_spec n owed idx t :
  tracked n owed t -> n < umax 64 -> (idx < USER_IP_TRACKER_SHARDS)%nat ->
  let t' := drain_cleanup_shard idx t in
  tracked n owed t' /\ (forall u', recents_of t' u' = recents_of t u') /\ policy_of t' = policy_of t.
Proof.
  intros Ht Hn Hi. unfold drain_cleanup_shard. pose proof (take_shard_tracked n owed idx t Ht Hn Hi) as Hu.
  assert (policy_of (take_shard_cleanups idx t).2 = policy_of t) as Hpol
    by (unfold take_shard_cleanups; by destruct (pop_cleanups _ _ _ _) as [[??]?]).
  destruct (take_shard_cleanups idx t) as [l t1]. destruct Hu as (Ht1 & Hl & Hsh).
  destruct (drain_batch_ok n owed idx l t t1 Ht Ht1 Hi Hl Hsh Hpol) as (Ht2 & Hrec & Hpol2 & _). by destruct l.
Qed.

Lemma drain_queue_spec n owed t :
  tracked n owed t -> n < umax 64 ->
  let t' := drain_cleanup_queue t in
  tracked n owed t' /\ (forall u', recents_of t' u' = recents_of t u') /\ policy_of t' = policy_of t.
Proof.
  intros Ht Hn. unfold drain_cleanup_queue. destruct (cleanup_queue_len t =? 0); [done|].
  assert (Forall (fun idx => idx < USER_IP_TRACKER_SHARDS)%nat (seq 0 USER_IP_TRACKER_SHARDS)) as Hi
    by (apply Forall_seq; lia).
  revert t Ht Hi. induction (seq 0 USER_IP_TRACKER_SHARDS) as [|idx l IH]; intros t Ht Hi; [done|]. cbn [foldl].
  apply list.Forall_cons in Hi as [Hi Hl]. destruct (drain_shard_spec n owed idx t Ht Hn Hi) as (Ht1 & Hr1 & Hp1).
  destruct (IH _ Ht1 Hl) as (Ht2 & Hr2 & Hp2). split; [done|]. split; [intros u'; by rewrite Hr2|congruence].
Qed.

Lemma compact_all_spec n owed now epoch t :
  tracked n owed t ->
  let t' := maybe_compact_empty_users now epoch t in
  tracked n owed t' /\ (forall u, active_of t' u = active_of t u) /\
  (forall u, recent_now now (limit_window t) (recents_of t' u) = recent_now now (limit_window t) (recents_of t u)) /\
  policy_of t' = policy_of t.
Proof.
  intros Ht. unfold maybe_compact_empty_users. destruct (_ <? _); [done|]. cbv zeta. set (w := limit_window t).
  assert (Forall (fun idx => idx < USER_IP_TRACKER_SHARDS)%nat (seq 0 USER_IP_TRACKER_SHARDS)) as Hi
    by (apply Forall_seq; lia).
  assert (tracked n owed (with_last_compact epoch t)) as Ht0 by (by destruct Ht). clearbody w.
  change (active_of t) with (active_of (with_last_compact epoch t)). change (recents_of t) with (recents_of (with_last_compact epoch t)).
  change (policy_of t) with (policy_of (with_last_compact epoch t)). generalize dependent (with_last_compact epoch t).
  induction (seq 0 USER_IP_TRACKER_SHARDS) as [|idx l IH]; intros t1 Ht1; [done|]. cbn [foldl].
  apply list.Forall_cons in Hi as [Hi Hl]. destruct (compact_tracked n owed w now idx t1 Ht1 Hi) as (Ht2 & Ha2 & Hr2).
  destruct (IH Hl _ Ht2) as (Ht3 & Ha3 & Hr3 & Hp3). split; [done|]. split; [|split].
  - intros u. rewrite Ha3. apply Ha2.
  - intros u. rewrite Hr3. unfold recents_of at 1. rewrite Hr2. case_decide; [|done]. by apply recent_now_later.
  - rewrite Hp3. done.
Qed.

Lemma recents_of_done window now u ip c a r t u' :
  (shard_idx u < length (ip_shards t))%nat ->
  recents_of (admit_done window now u ip c a r t) u' =
  if decide (u = u') then <[ip := now]> (recent_now now window (recents_of t u)) else recents_of t u'.
Proof.
  intros Hl. unfold recents_of at 1. rewrite ip_shard_done by done. destruct (decide (shard_idx u = shard_idx u')) as [He|Hne].
  - cbn [recent_ips]. rewrite ips_of_insert. case_decide; [done|]. unfold recents_of. by rewrite He.
  - rewrite decide_False by congruence. done.
Qed.

Lemma recents_of_base window now u t u' :
  (shard_idx u < length (ip_shards t))%nat ->
  recents_of (admit_base window now u t) u' = if decide (u = u') then recent_now now window (recents_of t u) else recents_of t u'.
Proof.
  intros Hl. unfold recents_of at 1. rewrite ip_shard_base by done. destruct (decide (shard_idx u = shard_idx u')) as [He|Hne].
  - cbn [recent_ips]. rewrite ips_of_insert. case_decide; [done|]. unfold recents_of. by rewrite He.
  - rewrite decide_False by congruence. done.
Qed.

Lemma limit_window_pos t : 0 <= limit_window t.
Proof. unfold limit_window, secs. lia. Qed.

(** The decision on any address. *)
Definition ip_allowed (limit : option Z) (mode : UserMaxUniqueIpsMode) (A R : gmap IpAddr Z) (ip : IpAddr) : bool :=
  bool_decide (is_Some (A !! ip)) || match ip_denied limit mode A R ip with Some _ => false | None => true end.

Lemma admit_spec n owed limit mode now u ip t :
  tracked n owed t -> n < MAX_ACTIVE_IP_ENTRIES ->
  let w := limit_window t in
  let ok := ip_allowed limit mode (active_of t u) (recent_now now w (recents_of t u)) ip in
  exists r t', admit_ip limit mode w now u ip t = (r, t') /\ policy_of t' = policy_of t /\
  (if ok then r = Ok tt /\ tracked (n + 1) (owed_add owed u ip 1) t' else (exists e, r = Err e) /\ tracked n owed t') /\
  forall u', recent_now now w (recents_of t' u') =
    recent_now now w (if ok && bool_decide (u = u') then <[ip := now]> (recents_of t u') else recents_of t u').
Proof.
  intros Ht Hn w ok. assert (shard_idx u < length (ip_shards t))%nat as Hlt by (rewrite (tk_shards Ht); apply shard_idx_lt).
  assert (n < umax 64) as Hn' by (unfold umax, MAX_ACTIVE_IP_ENTRIES in *; lia).
  pose proof (limit_window_pos t) as Hw. fold w in Hw.
  pose proof (admit_tracked n owed limit mode w now u ip t Ht Hn') as Hk.
  pose proof (tk_active_le Ht). pose proof (tk_recent_le Ht).
  destruct (prune_recent_eq (recents_of t u) now w) as [_ Hle].
  rewrite (admit_ip_eq n owed) in * by done. cbv zeta in *. fold (active_of t u) (recents_of t u) in *.
  set (R := recent_now now w (recents_of t u)) in *. set (recents := recent_entry_count t - _) in *.
  assert (exists recents', (if bool_decide (is_Some (R !! ip)) then Some recents else try_increment_counter recents MAX_RECENT_IP_ENTRIES)
    = Some recents') as [recents' Hgrow].
  { destruct (bool_decide _); [by eexists|]. unfold try_increment_counter, MAX_RECENT_IP_ENTRIES, MAX_ACTIVE_IP_ENTRIES in *.
    destruct (Z.ltb_spec recents 262144); [by eexists|lia]. }
  rewrite Hgrow in *. rewrite (proj2 (Z.leb_gt MAX_ACTIVE_IP_ENTRIES (active_entry_count t))) in * by lia.
  assert (forall u', recent_now now w (recents_of (admit_base w now u t) u') = recent_now now w (recents_of t u')) as Hbase.
  { intros u'. rewrite recents_of_base by done. case_decide; [subst u'|done]. by apply recent_now_later. }
  assert (forall c a r u', recent_now now w (recents_of (admit_done w now u ip c a r t) u') =
    recent_now now w (if true && bool_decide (u = u') then <[ip := now]> (recents_of t u') else recents_of t u')) as Hdone.
  { intros c a r u'. rewrite recents_of_done by done. cbn [andb].
    destruct (decide (u = u')) as [<-|Hne]; [rewrite bool_decide_eq_true_2 by done|by rewrite bool_decide_eq_false_2].
    rewrite !recent_now_insert by done. fold R. f_equal. by apply recent_now_later. }
  unfold ok, ip_allowed. fold R. destruct (active_of t u !! ip) as [c|]; cbn [bool_decide orb].
  - eexists _, _. split; [reflexivity|]. split; [done|]. by split.
  - destruct (ip_denied limit mode (active_of t u) R ip) as [e|]; (eexists _, _; split; [reflexivity|]; split; [done|]); cbn.
    + split; [split; [by eexists|done]|]. apply Hbase.
    + split; [done|]. apply Hdone.
Qed.

Lemma policy_window t t' : policy_of t' = policy_of t -> limit_window t' = limit_window t.
Proof. unfold policy_of, limit_window. by intros [= _ _ _ ->]. Qed.

Lemma policy_limit t t' u : policy_of t' = policy_of t -> user_limit u t' = user_limit u t /\ limit_mode t' = limit_mode t.
Proof. unfold policy_of, user_limit. by intros [= -> -> -> _]. Qed.

Lemma check_spec n owed epoch now_compact now u ip t :
  tracked n owed t -> n < MAX_ACTIVE_IP_ENTRIES -> now_compact <= now ->
  let w := limit_window t in
  exists A r t', (forall ip, is_Some (A !! ip) <-> 1 <= owed u ip) /\
  check_and_add epoch now_compact now u ip t = (r, t') /\ policy_of t' = policy_of t /\
  let ok := ip_allowed (user_limit u t) (mode_from_u8 (limit_mode t)) A (recent_now now w (recents_of t u)) ip in
  (if ok then r = Ok tt /\ tracked (n + 1) (owed_add owed u ip 1) t' else (exists e, r = Err e) /\ tracked n owed t') /\
  forall u', recent_now now w (recents_of t' u') =
    recent_now now w (if ok && bool_decide (u = u') then <[ip := now]> (recents_of t u') else recents_of t u').
Proof.
  intros Ht Hn Hnow w. assert (n < umax 64) as Hn' by (unfold umax, MAX_ACTIVE_IP_ENTRIES in *; lia).
  destruct (drain_user_spec n owed u t Ht Hn') as (Ht1 & Hc1 & Hr1 & Hp1).
  destruct (compact_all_spec n owed now_compact epoch _ Ht1) as (Ht2 & Ha2 & Hr2 & Hp2).
  unfold check_and_add. set (t1 := drain_cleanup_for_user u t) in *. set (t2 := maybe_compact_empty_users now_compact epoch t1) in *.
  assert (policy_of t2 = policy_of t) as Hp by congruence.
  pose proof (policy_window _ _ Hp) as Hw2. fold w in Hw2. pose proof (policy_window _ _ Hp1) as Hw1. fold w in Hw1. rewrite Hw1 in Hr2.
  destruct (policy_limit _ _ u Hp) as [-> ->].
  assert (forall u', recent_now now w (recents_of t2 u') = recent_now now w (recents_of t u')) as Hr.
  { intros u'. rewrite <- (recent_now_later now_compact now w (recents_of t2 u') Hnow), Hr2, recent_now_later by done. by rewrite Hr1. }
  destruct (admit_spec n owed (user_limit u t) (mode_from_u8 (limit_mode t)) now u ip t2 Ht2 Hn) as (r & t' & Hrun & Hpol & Hres & Hrec).
  rewrite Hw2 in *. rewrite Hr in *. exists (active_of t2 u), r, t'. split; [|split; [done|]; split; [congruence|]; split; [done|]].
  - intros ip'. rewrite Ha2. unfold active_of. rewrite (pos_present _ _ _ (tk_pos Ht1 _)). fold (active_count t1 u ip'). by rewrite Hc1.
  - intros u'. rewrite Hrec. destruct (_ && _); [|apply Hr].
    rewrite !recent_now_insert by (subst w; apply limit_window_pos). by rewrite Hr.
Qed.

(** * Sessions *)

Notation Session := (list Z * IpAddr)%type.

Inductive SessionOp :=
  | OpAcquire (a : UserAccess) (utc_now quota_used epoch now_compact now : Z) (u : list Z) (ip : IpAddr)
  | OpRelease (epoch now : Z) (u : list Z) (ip : IpAddr)
  | OpDrop (u : list Z) (ip : IpAddr)
  | OpMaintain (epoch now : Z).

(** The proxy with the reservations that are held; one that is not held cannot
    be given back. *)
Record Held := mkHeld { hd_limits : Limits; hd_open : list Session }.

Definition session_step (op : SessionOp) (h : Held) : option (result AcquireError unit) * Held :=
  let l := hd_limits h in
  match op with
  | OpAcquire a utc_now quota_used epoch now_compact now u ip =>
      let '(r, l) := acquire_user_connection_reservation a utc_now quota_used epoch now_compact now u ip l in
      (Some r, mkHeld l (match r with Ok _ => (u, ip) :: hd_open h | Err _ => hd_open h end))
  | OpRelease epoch now u ip =>
      if decide ((u, ip) ∈ hd_open h) then (None, mkHeld (release_reservation now epoch u ip l) (remove_one (u, ip) (hd_open h)))
      else (None, h)
  | OpDrop u ip =>
      if decide ((u, ip) ∈ hd_open h) then (None, mkHeld (drop_reservation u ip l) (remove_one (u, ip) (hd_open h)))
      else (None, h)
  | OpMaintain epoch now => (None, mkHeld (mkLimits (periodic_maintenance now epoch (ip_tracker l)) (conn_stats l)) (hd_open h))
  end.

(** * The specification *)

(** The open sessions, and when each address was last let in. *)
Record Ideal := mkIdeal { id_open : list Session; id_last : UserIps }.

(** The policy as it is documented: the address counts as active already, or
    there is room for another one; and the same within the window. *)
Definition documented_allows (limit : option Z) (mode : UserMaxUniqueIpsMode) (w now : Z) (u : list Z) (ip : IpAddr) (i : Ideal) : bool :=
  let A := open_ips u (id_open i) in
  let R := recent_now now w (ips_of (id_last i) u) in
  match limit with
  | None => true
  | Some limit =>
      let active_ok := bool_decide (ip ∈ A) || (Z.of_nat (size A) <? limit) in
      let recent_ok := bool_decide (is_Some (R !! ip)) || (Z.of_nat (size R) <? limit) in
      match mode with ActiveWindow => active_ok | TimeWindow => recent_ok | Combined => active_ok && recent_ok end
  end.

(** The code lets an address in again as long as it is connected, also when its
    time in the window is over and the window is full. *)
Definition ideal_allows (limit : option Z) (mode : UserMaxUniqueIpsMode) (w now : Z) (u : list Z) (ip : IpAddr) (i : Ideal) : bool :=
  bool_decide (ip ∈ open_ips u (id_open i)) || documented_allows limit mode w now u ip i.

Lemma ideal_documented limit mode w now u ip i :
  ideal_allows limit mode w now u ip i = documented_allows limit mode w now u ip i \/
  (ideal_allows limit mode w now u ip i = true /\ mode <> ActiveWindow /\ ip ∈ open_ips u (id_open i) /\
   exists l, limit = Some l /\ l <= Z.of_nat (size (recent_now now w (ips_of (id_last i) u))) /\
     recent_now now w (ips_of (id_last i) u) !! ip = None).
Proof.
  unfold ideal_allows. destruct (documented_allows _ _ _ _ _ _ _) eqn:Hd; [left; by rewrite orb_true_r|].
  destruct (bool_decide_reflect (ip ∈ open_ips u (id_open i))) as [Hin|]; [|by left]. right. split; [done|].
  unfold documented_allows in Hd. rewrite (bool_decide_eq_true_2 _ Hin) in Hd. destruct limit as [l|]; [|done].
  set (R := recent_now _ _ _) in *. cbn [orb andb] in Hd.
  assert (mode <> ActiveWindow /\ (bool_decide (is_Some (R !! ip)) || (Z.of_nat (size R) <? l)) = false) as [Hm Hr] by (by destruct mode).
  apply orb_false_iff in Hr as [Hn Hl]. apply Z.ltb_ge in Hl. split; [done|]. split; [done|]. exists l. split; [done|]. split; [done|].
  by destruct (R !! ip).
Qed.

(** The connections of a user are counted only with the telemetry of users on. *)
Definition ideal_acquire (telemetry : bool) (limit : option Z) (mode : UserMaxUniqueIpsMode) (w : Z) (a : UserAccess)
    (utc_now quota_used now : Z) (u : list Z) (ip : IpAddr) (i : Ideal) : result AcquireError unit :=
  if match ua_expiration a with Some e => e <? utc_now | None => false end then Err UserExpired
  else if match ua_data_quota a with Some q => q <=? quota_used | None => false end then Err DataQuotaExceeded
  else if telemetry && match tcp_conn_limit a with Some max => max <=? sessions_of u (id_open i) | None => false end
  then Err ConnectionLimitExceeded
  else if ideal_allows limit mode w now u ip i then Ok tt else Err ConnectionLimitExceeded.

Definition ideal_step (telemetry : bool) (limit_of : list Z -> option Z) (mode : UserMaxUniqueIpsMode) (w : Z) (op : SessionOp) (i : Ideal)
    : option (result AcquireError unit) * Ideal :=
  match op with
  | OpAcquire a utc_now quota_used _ _ now u ip =>
      let r := ideal_acquire telemetry (limit_of u) mode w a utc_now quota_used now u ip i in
      (Some r, match r with
               | Ok _ => mkIdeal ((u, ip) :: id_open i) (<[u := <[ip := now]> (ips_of (id_last i) u)]> (id_last i))
               | Err _ => i
               end)
  | OpRelease _ _ u ip | OpDrop u ip =>
      (None, if decide ((u, ip) ∈ id_open i) then mkIdeal (remove_one (u, ip) (id_open i)) (id_last i) else i)
  | OpMaintain _ _ => (None, i)
  end.

Fixpoint answers {S} (step : SessionOp -> S -> option (result AcquireError unit) * S) (ops : list SessionOp) (s : S)
    : list (option (result AcquireError unit)) :=
  match ops with
  | [] => []
  | op :: ops => let '(r, s) := step op s in r :: answers step ops s
  end.

(** Instants do not go back. *)
Fixpoint in_order (now : Z) (ops : list SessionOp) : Prop :=
  match ops with
  | [] => True
  | OpAcquire _ _ _ _ now_compact now' _ _ :: ops => now <= now_compact /\ now_compact <= now' /\ in_order now' ops
  | OpRelease _ now' _ _ :: ops | OpMaintain _ now' :: ops => now <= now' /\ in_order now' ops
  | OpDrop _ _ :: ops => in_order now ops
  end.

(** * The refinement *)

Section refinement.
Context (telemetry : bool) (P : gmap (list Z) Z * Z * Z * Z) (limit_of : list Z -> option Z) (mode : UserMaxUniqueIpsMode) (w : Z).
Context (policy_ok : forall t, policy_of t = P -> limit_window t = w /\ mode_from_u8 (limit_mode t) = mode /\ forall u, user_limit u t = limit_of u).

(** The counters say how many sessions each user has, if they are kept. *)
Definition conns_ok (st : ConnStats) (open : list Session) : Prop :=
  telemetry_user_enabled st = telemetry /\
  if telemetry then forall u, default 0 (curr_connects st !! u) = sessions_of u open else curr_connects st = ∅.

Record refines (n now : Z) (h : Held) (i : Ideal) : Prop := {
  rf_open : hd_open h = id_open i;
  rf_tracked : tracked n (fun u ip => occurs (u, ip) (id_open i)) (ip_tracker (hd_limits h));
  rf_conns : conns_ok (conn_stats (hd_limits h)) (id_open i);
  rf_policy : policy_of (ip_tracker (hd_limits h)) = P;
  rf_recent : forall u, recent_now now w (recents_of (ip_tracker (hd_limits h)) u) = recent_now now w (ips_of (id_last i) u);
  rf_sessions : Z.of_nat (length (id_open i)) <= n;
}.

Lemma sessions_le u l : 0 <= sessions_of u l <= Z.of_nat (length l).
Proof. unfold sessions_of. induction l as [|q l IH]; [done|]. rewrite total_cons. cbn [length]. case_decide; lia. Qed.

Lemma length_remove_one p l : (length (remove_one p l) <= length l)%nat.
Proof. induction l as [|q l IH]; [done|]. cbn. case_decide; cbn; lia. Qed.

Lemma refines_later n now now' h i : now <= now' -> refines n now h i -> refines n now' h i.
Proof.
  intros Hle [? ? ? ? Hr ?]. split; try done. intros u.
  rewrite <- (recent_now_later now now' w (recents_of _ u) Hle), Hr. by apply recent_now_later.
Qed.

(** The same decision from the tables and from the sessions. *)
Lemma allowed_ideal (A : gmap IpAddr Z) now u ip i :
  (forall ip, is_Some (A !! ip) <-> 1 <= occurs (u, ip) (id_open i)) ->
  ip_allowed (limit_of u) mode A (recent_now now w (ips_of (id_last i) u)) ip = ideal_allows (limit_of u) mode w now u ip i.
Proof.
  intros HA. assert (dom A = open_ips u (id_open i)) as Hdom.
  { apply set_eq. intros ip'. by rewrite elem_of_dom, HA, open_ips_elem. }
  unfold ip_allowed, ideal_allows, documented_allows, ip_denied. rewrite <- Hdom, size_dom.
  assert (bool_decide (is_Some (A !! ip)) = bool_decide (ip ∈ dom A)) as -> by (apply bool_decide_ext; by rewrite elem_of_dom).
  destruct (bool_decide (ip ∈ dom A)); [done|]. cbn [orb].
  destruct (limit_of u) as [limit|]; [|done]. cbn [mbind option_bind]. set (R := recent_now _ _ _).
  rewrite (Z.leb_antisym (Z.of_nat (size A)) limit), (Z.leb_antisym (Z.of_nat (size R)) limit).
  assert (bool_decide (R !! ip = None) = negb (bool_decide (is_Some (R !! ip)))) as -> by (by destruct (R !! ip)).
  destruct mode; destruct (_ <? limit), (Z.of_nat (size R) <? limit), (bool_decide (is_Some (R !! ip))); done.
Qed.

Lemma one_session u ip open : (u, ip) ∈ open -> 1 <= sessions_of u open.
Proof.
  intros Hin. unfold sessions_of. etrans; [|apply (total_elem_le _ _ (u, ip)); [intros q _; by case_decide|done]]. cbn. by rewrite decide_True.
Qed.

(** A session that ends is taken off the count. *)
Lemma conns_end u ip st open : conns_ok st open -> (u, ip) ∈ open -> conns_ok (decrement_user_curr_connects u st) (remove_one (u, ip) open).
Proof.
  intros [Htel Hc] Hin. unfold conns_ok, decrement_user_curr_connects. destruct telemetry; [|by rewrite Hc, lookup_empty].
  pose proof (one_session u ip open Hin) as Hpos. rewrite <- Hc in Hpos.
  destruct (curr_connects st !! u) as [c|] eqn:Hu; [|cbn in Hpos; lia]. cbn in Hpos. split; [done|]. intros u'.
  unfold sessions_of. rewrite total_remove_one by done. fold (sessions_of u' open). rewrite <- Hc. cbn [curr_connects fst].
  rewrite lookup_insert. case_decide; [subst u'; rewrite Hu; cbn; rewrite sat_sub_exact by lia; done|lia].
Qed.

(** A new session is counted, or refused if there are too many. *)
Lemma conns_acquire u ip limit st open :
  conns_ok st open -> Z.of_nat (length open) < umax 64 ->
  let full := telemetry && match limit with Some max => max <=? sessions_of u open | None => false end in
  exists st', try_acquire_user_curr_connects u limit st = (negb full, st') /\ conns_ok st' (if full then open else (u, ip) :: open).
Proof.
  intros [Htel Hc] Hlen full. unfold try_acquire_user_curr_connects, conns_ok. rewrite Htel. subst full.
  destruct telemetry; cbn [negb andb]; [|by exists st]. rewrite Hc. eexists. split; [reflexivity|]. cbn. split; [done|].
  pose proof (sessions_le u open). intros u'. rewrite lookup_insert.
  match goal with |- context [if ?f then open else _] => destruct f end.
  - case_decide; [subst u'; cbn|rewrite Hc]; lia.
  - rewrite sat_add_exact by lia. unfold sessions_of. rewrite total_cons. fold (sessions_of u open) (sessions_of u' open). cbn [fst].
    case_decide; [subst u'; cbn|rewrite Hc]; lia.
Qed.

(** A session ends. *)
Lemma refines_end n n' now h i u ip t :
  refines n now h i -> n <= n' -> (u, ip) ∈ id_open i ->
  tracked n' (owed_add (fun u ip => occurs (u, ip) (id_open i)) u ip (-1)) t -> policy_of t = P ->
  (forall u, recent_now now w (recents_of t u) = recent_now now w (recents_of (ip_tracker (hd_limits h)) u)) ->
  refines n' now (mkHeld (mkLimits t (decrement_user_curr_connects u (conn_stats (hd_limits h)))) (remove_one (u, ip) (id_open i)))
    (mkIdeal (remove_one (u, ip) (id_open i)) (id_last i)).
Proof.
  intros [Ho Ht Hc Hp Hr Hs] Hn Hin Ht' Hp' Hr'.
  split; cbn [hd_open hd_limits ip_tracker conn_stats id_open id_last]; try done.
  - eapply tracked_ext; [|exact Ht']. intros u' ip'. unfold owed_add, occurs. rewrite total_remove_one by done.
    repeat case_decide; try lia; congruence.
  - by apply conns_end.
  - intros u'. by rewrite Hr', Hr.
  - pose proof (length_remove_one (u, ip) (id_open i)). lia.
Qed.

Lemma refines_mono n n' now h i : n <= n' -> refines n now h i -> refines n' now h i.
Proof. intros Hn [? Ht ? ? ? ?]. split; try done; [|lia]. eapply tracked_mono; [|done]. done. Qed.

(** Other counts of the connections that say the same. *)
Lemma refines_stats n now h i st :
  refines n now h i -> conns_ok st (id_open i) -> refines n now (mkHeld (mkLimits (ip_tracker (hd_limits h)) st) (hd_open h)) i.
Proof. by intros [] ?. Qed.

Lemma acquire_refines n now a utc_now quota_used epoch now_compact now' u ip h i :
  refines n now h i -> n < MAX_ACTIVE_IP_ENTRIES -> now <= now_compact -> now_compact <= now' ->
  let op := OpAcquire a utc_now quota_used epoch now_compact now' u ip in
  exists r h' i', session_step op h = (r, h') /\ ideal_step telemetry limit_of mode w op i = (r, i') /\ refines (n + 1) now' h' i'.
Proof.
  intros Hrf Hn Hc Hc'. cbn [session_step ideal_step]. unfold acquire_user_connection_reservation, ideal_acquire.
  apply (refines_later n now now') in Hrf; [|lia].
  assert (refines (n + 1) now' h i) as Hsame by (eapply refines_mono; [|done]; lia). destruct h as [[t st] open]. cbn [hd_limits hd_open ip_tracker conn_stats] in *.
  destruct (match ua_expiration a with Some e => _ | None => _ end); [by eexists _, _, _|].
  destruct (match ua_data_quota a with Some q => _ | None => _ end); [by eexists _, _, _|].
  pose proof (rf_conns _ _ _ _ Hrf) as Hconns. pose proof (rf_sessions _ _ _ _ Hrf) as Hs.
  pose proof (rf_open _ _ _ _ Hrf) as Hopen. cbn [hd_limits conn_stats hd_open] in *.
  destruct (conns_acquire u ip (tcp_conn_limit a) st (id_open i) Hconns) as (st' & Hst' & Hst''); [unfold umax, MAX_ACTIVE_IP_ENTRIES in *; lia|].
  rewrite Hst'. destruct (telemetry && match tcp_conn_limit a with Some max => _ | None => _ end); cbn [negb].
  { eexists _, _, _. split; [reflexivity|]. split; [reflexivity|]. by apply (refines_stats _ _ _ _ st') in Hsame. }
  destruct (policy_ok t (rf_policy _ _ _ _ Hrf)) as (Hw & Hm & Hl). pose proof (rf_tracked _ _ _ _ Hrf) as Ht. cbn [hd_limits ip_tracker] in Ht.
  destruct (check_spec n _ epoch now_compact now' u ip t Ht Hn Hc') as (A & r & t' & HA & Hrun & Hpol & Hres & Hrec).
  rewrite Hw, Hm, Hl in *. pose proof (rf_recent _ _ _ _ Hrf u) as Hru. cbn [hd_limits ip_tracker] in Hru. rewrite Hru in *.
  rewrite (allowed_ideal A now' u ip i HA) in *. rewrite Hrun. destruct (ideal_allows (limit_of u) mode w now' u ip i).
  - destruct Hres as [-> Ht']. eexists _, _, _. split; [reflexivity|]. split; [reflexivity|].
    split; cbn [hd_open hd_limits ip_tracker conn_stats id_open id_last]; try done.
    + by rewrite Hopen.
    + eapply tracked_ext; [|exact Ht']. intros u' ip'. unfold owed_add, occurs. rewrite total_cons. lia.
    + rewrite Hpol. apply (rf_policy _ _ _ _ Hrf).
    + intros u'. rewrite Hrec. cbn [andb]. rewrite ips_of_insert. pose proof (rf_recent _ _ _ _ Hrf u') as Hru'. cbn [hd_limits ip_tracker] in Hru'.
      destruct (decide (u = u')) as [<-|Hne]; [rewrite bool_decide_eq_true_2 by done|by rewrite bool_decide_eq_false_2].
      assert (0 <= w) by (rewrite <- Hw; apply limit_window_pos). rewrite !recent_now_insert by done. by rewrite Hru.
    + cbn [length]. lia.
  - destruct Hres as [[e ->] Ht']. eexists _, _, _. split; [reflexivity|]. split; [reflexivity|].
    split; cbn [hd_open hd_limits ip_tracker conn_stats id_open id_last]; try done.
    + eapply tracked_mono; [|exact Ht']. lia.
    + apply (conns_end u ip) in Hst''; [|left]. cbn [remove_one] in Hst''. by rewrite decide_True in Hst''.
    + rewrite Hpol. apply (rf_policy _ _ _ _ Hrf).
    + intros u'. rewrite Hrec. cbn [andb]. apply (rf_recent _ _ _ _ Hrf).
    + lia.
Qed.

Lemma release_recents u ip t u' : length (ip_shards t) = USER_IP_TRACKER_SHARDS -> (forall idx, pos (active_ips (ip_shard idx t))) ->
  recents_of (release_ip u ip t) u' = recents_of t u' /\ policy_of (release_ip u ip t) = policy_of t.
Proof. intros Hl Hp. rewrite release_eq by done. split; [apply apply_recents; [done|apply shard_idx_lt]|apply apply_policy]. Qed.

Lemma step_refines n now op ops h i :
  refines n now h i -> n < MAX_ACTIVE_IP_ENTRIES -> in_order now (op :: ops) ->
  exists r h' i' now', session_step op h = (r, h') /\ ideal_step telemetry limit_of mode w op i = (r, i') /\
    refines (n + 1) now' h' i' /\ in_order now' ops.
Proof.
  intros Hrf Hn Hord. assert (n < umax 64) as Hn' by (unfold umax, MAX_ACTIVE_IP_ENTRIES in *; lia).
  pose proof (rf_open _ _ _ _ Hrf) as Hopen. pose proof (rf_tracked _ _ _ _ Hrf) as Ht. pose proof (rf_policy _ _ _ _ Hrf) as Hpol.
  destruct (policy_ok _ Hpol) as (Hw & _ & _).
  destruct op as [a utc q epoch nc now' u ip|epoch now' u ip|u ip|epoch now']; cbn [in_order] in Hord.
  - destruct Hord as (H1' & H2' & Hord). destruct (acquire_refines n now a utc q epoch nc now' u ip h i Hrf Hn H1' H2') as (r & h' & i' & ? & ? & ?).
    by exists r, h', i', now'.
  - destruct Hord as [Hle Hord]. apply (refines_later n now now' _ _ Hle) in Hrf. cbn [session_step ideal_step]. rewrite Hopen.
    case_decide as Hin.
    2: { eexists _, _, _, now'. split; [done|]. split; [done|]. split; [eapply refines_mono; [|done]; lia|done]. }
    eexists _, _, _, now'. split; [reflexivity|]. split; [reflexivity|]. split; [|done]. unfold release_reservation, remove_ip.
    destruct (compact_all_spec n _ now' epoch _ Ht) as (Ht1 & _ & Hr1 & Hp1). rewrite Hw in Hr1.
    set (t1 := maybe_compact_empty_users now' epoch _) in *.
    pose proof (fun u' => release_recents u ip t1 u' (tk_shards Ht1) (tk_pos Ht1)) as Hrel.
    apply (refines_end n (n + 1)); [done|lia|done| | |].
    + eapply tracked_mono; [|apply release_tracked; [done|by apply occurs_elem]]. lia.
    + rewrite (proj2 (Hrel u)). congruence.
    + intros u'. rewrite (proj1 (Hrel u')). apply Hr1.
  - cbn [session_step ideal_step]. rewrite Hopen. case_decide as Hin.
    2: { eexists _, _, _, now. split; [done|]. split; [done|]. split; [eapply refines_mono; [|done]; lia|done]. }
    eexists _, _, _, now. split; [reflexivity|]. split; [reflexivity|]. split; [|done]. unfold drop_reservation.
    apply (refines_end n (n + 1)); [done|lia|done| |done|done].
    apply enqueue_tracked; [done|done|by apply occurs_elem].
  - destruct Hord as [Hle Hord]. apply (refines_later n now now' _ _ Hle) in Hrf. cbn [session_step ideal_step].
    eexists _, _, _, now'. split; [reflexivity|]. split; [reflexivity|]. split; [|done]. unfold periodic_maintenance.
    destruct (drain_queue_spec n _ _ Ht Hn') as (Ht1 & Hr1 & Hp1).
    destruct (compact_all_spec n _ now' epoch _ Ht1) as (Ht2 & _ & Hr2 & Hp2). rewrite (policy_window _ _ Hp1), Hw in Hr2.
    apply (refines_mono n); [lia|]. destruct Hrf as [? ? ? ? Hr ?].
    split; cbn [hd_open hd_limits ip_tracker conn_stats]; try done; [congruence|].
    intros u. by rewrite Hr2, Hr1.
Qed.

Lemma answers_refine ops : forall n now h i,
  refines n now h i -> n + Z.of_nat (length ops) <= MAX_ACTIVE_IP_ENTRIES -> in_order now ops ->
  answers session_step ops h = answers (ideal_step telemetry limit_of mode w) ops i.
Proof.
  induction ops as [|op ops IH]; intros n now h i Hrf Hn Hord; [done|]. cbn [length] in Hn.
  destruct (step_refines n now op ops h i Hrf ltac:(lia) Hord) as (r & h' & i' & now' & Hs & Hi & Hrf' & Hord').
  cbn [answers]. rewrite Hs, Hi. f_equal. eapply IH; [exact Hrf'|lia|exact Hord'].
Qed.

Lemma refines_new t0 : policy_of t0 = P -> tracked 0 (fun _ _ => 0) t0 -> (forall u, recents_of t0 u = ∅) ->
  forall now, refines 0 now (mkHeld (mkLimits t0 (mkConnStats telemetry ∅)) []) (mkIdeal [] ∅).
Proof.
  intros Hp Ht Hr now. split; try done.
  { split; [done|]. by destruct telemetry. }
  intros u. cbn. rewrite Hr. unfold ips_of. by rewrite lookup_empty.
Qed.
End refinement.
End limits.
