(* ===== verification/IpProps.v ===== *)
(** Properties of the limits on the addresses and connections of a user. *)

From stdpp Require Import base list gmap numbers.
From S2P Require Import Net Prelude AuthProbe IpTracker IpTrackerInv IpTrackerRun IpLimits.
Local Open Scope Z_scope.

(** Iteration in the order of the map and a small hash, for the examples. *)
#[local] Instance demo_iter : HashIter := fun K _ _ A m => map_to_list m.
#[local] Instance demo_iter_laws : HashIterLaws.
Proof. by intros K ? ? A m. Defined.
#[local] Instance demo_hash : StrHash := foldr Z.add 0.

Definition demo_user : list Z := [117].
Definition ip_a : IpAddr := IpV4 [10; 0; 0; 1].
Definition ip_b : IpAddr := IpV4 [10; 0; 0; 2].
Definition ip_c : IpAddr := IpV4 [10; 0; 0; 3].

(** C19: The tracker counts exactly the sessions.  The steps are what concurrent
    calls do under one lock, clearing the addresses of a user included, and the
    separate subtraction from the count of queued entries; they run in any order,
    with batches of releases taken from a queue and not yet applied.  At every
    point the counts of active and of recent entries are the numbers of entries
    in the tables, and never above their caps; the count of queued entries is the
    number of entries in the queues and of those taken out but not yet
    subtracted; and for every user whose addresses have not been cleared, the
    count of an address is the number of its open sessions and of its releases
    still queued or under way. *)
Theorem ip_tracker_exact `{HashIterLaws} `{StrHash} steps :
  Z.of_nat (length steps) <= umax 64 ->
  let s := ip_exec steps ip_system_new in
  let t := sy_tracker s in
  (forall u ip, u ∉ sy_cleared s -> active_count t u ip =
    occurs (u, ip) (sy_open s) + count_in (cleanup_queue (shard_idx u) t) u ip + flight_at (sy_flight s) u ip) /\
  active_entry_count t = total (fun sh => entries (active_ips sh)) (ip_shards t) /\
  recent_entry_count t = total (fun sh => entries (recent_ips sh)) (ip_shards t) /\
  cleanup_queue_len t = total entries (cleanup_shards t) + uncounted (sy_flight s) /\
  active_entry_count t <= MAX_ACTIVE_IP_ENTRIES /\ recent_entry_count t <= MAX_RECENT_IP_ENTRIES.
Proof.
  intros Hn. cbv zeta. destruct (exec_ok steps Hn) as [[? ? ? ? ? Hb ? ? Ha Hr Hq ? Hale Hrle ?] _].
  split; [|split; [done|]; split; [done|]; split; [done|]; lia].
  intros u ip Hu. unfold active_count. rewrite Hb by done. unfold system_owed. lia.
Qed.

(** A release overtaken by an admission: the batch is applied last, after the
    addresses of another user have been cleared. *)
Definition demo_steps : list IpStep :=
  [StAdmit (Some 1) ActiveWindow 30 5 demo_user ip_a; StDrop demo_user ip_a; StTakeUser demo_user;
   StAdmit (Some 1) ActiveWindow 30 6 demo_user ip_a; StClear [98]; StUncount 0;
   StAdmit (Some 1) ActiveWindow 30 7 demo_user ip_b; StCompact 30 8 53; StApply 0].

Lemma ip_tracker_exact_witness :
  sy_open (ip_exec demo_steps ip_system_new) = [(demo_user, ip_a)] /\
  active_count (sy_tracker (ip_exec demo_steps ip_system_new)) demo_user ip_a = 1.
Proof.
  split; [vm_compute; reflexivity|].
  rewrite (proj1 (ip_tracker_exact demo_steps ltac:(vm_compute; discriminate))).
  - vm_compute. reflexivity.
  - apply (bool_decide_eq_true_1 (demo_user ∉ sy_cleared (ip_exec demo_steps ip_system_new))). vm_compute. reflexivity.
Defined.

(** C15: A user never has more addresses than allowed.  If the limit read by every
    admission of a user is at most [L], and the mode counts active addresses,
    then at any point of any interleaving of the steps above the table has at
    most [L] addresses of the user; and unless the addresses of this user have
    been cleared on the way, the open sessions of the user come from at most [L]
    addresses. *)
Theorem unique_ips_limited `{HashIterLaws} `{StrHash} u L steps :
  Z.of_nat (length steps) <= umax 64 -> 0 <= L -> Forall (step_limited u L) steps ->
  let s := ip_exec steps ip_system_new in
  Z.of_nat (size (active_of (sy_tracker s) u)) <= L /\
  (u ∉ sy_cleared s -> Z.of_nat (size (open_ips u (sy_open s))) <= L).
Proof.
  intros Hn HL Hs. cbv zeta. pose proof (exec_limited u L steps Hn HL Hs) as Hle. split; [done|]. intros Hu.
  etrans; [|exact Hle]. apply inj_le. rewrite <- size_dom. apply subseteq_size.
  destruct (exec_ok steps Hn) as [Ht Hf]. intros ip Hip%open_ips_elem. apply elem_of_dom. unfold active_of.
  rewrite (pos_present _ _ _ (tk_pos Ht _)), (tk_balance Ht) by done.
  pose proof (pos_count _ u ip (tk_queue_pos Ht (shard_idx u))). unfold system_owed. pose proof (flight_at_nonneg _ u ip Hf). lia.
Qed.

Lemma unique_ips_limited_witness :
  Z.of_nat (size (open_ips demo_user (sy_open (ip_exec demo_steps ip_system_new)))) <= 1.
Proof.
  refine (proj2 (unique_ips_limited demo_user 1 demo_steps _ _ _) _).
  - vm_compute. discriminate.
  - lia.
  - assert (forall ip now, step_limited demo_user 1 (StAdmit (Some 1) ActiveWindow 30 now demo_user ip)) as Hs
      by (intros ip now _; split; [exists 1; split; [reflexivity|lia]|discriminate]).
    unfold demo_steps. repeat (constructor; [first [apply Hs|exact I]|]). constructor.
  - apply (bool_decide_eq_true_1 (demo_user ∉ sy_cleared (ip_exec demo_steps ip_system_new))). vm_compute. reflexivity.
Defined.

(** The tracker of a new proxy with its policy. *)
Definition configured_tracker (default_limit : Z) (limits : gmap (list Z) Z) (mode : UserMaxUniqueIpsMode) (window_secs : Z) : UserIpTracker :=
  set_limit_policy mode window_secs (load_limits default_limit limits ip_tracker_new).

(** The limit of a user: the user's own, or else the one for all. *)
Definition limit_for (default_limit : Z) (limits : gmap (list Z) Z) (u : list Z) : option Z :=
  let all := if 0 <? default_limit then Some default_limit else None in
  match limits !! u with Some limit => if 0 <? limit then Some limit else all | None => all end.

(** C20: Reservations are answered from the open sessions alone.  For sessions that
    come and go one call after the other, by orderly releases and by drops that
    are only queued, with maintenance anywhere in between, every reservation gets
    the answer it would get from a plain list of the open sessions and the time
    of the last admission of each address: refused if the user has expired, has
    used up the quota, has as many connections as allowed while the telemetry of
    users is on, or if the limit on addresses does not allow the address.  That
    limit is the documented one with one exemption: in the modes that count the
    window, an address that is still connected, but was last let in before the
    window, is let in although the window is full. *)
Theorem user_limits_refine `{HashIterLaws} `{StrHash} telemetry default_limit limits mode window_secs start ops :
  Z.of_nat (length ops) <= MAX_ACTIVE_IP_ENTRIES -> in_order start ops ->
  let w := secs (Z.max window_secs 1) in
  answers session_step ops (mkHeld (mkLimits (configured_tracker default_limit limits mode window_secs) (mkConnStats telemetry ∅)) [])
  = answers (ideal_step telemetry (limit_for default_limit limits) mode w) ops (mkIdeal [] ∅) /\
  forall now u ip i, let limit := limit_for default_limit limits u in
    let R := recent_now now w (ips_of (id_last i) u) in
    ideal_allows limit mode w now u ip i = documented_allows limit mode w now u ip i \/
    (ideal_allows limit mode w now u ip i = true /\ mode <> ActiveWindow /\ ip ∈ open_ips u (id_open i) /\
     exists l, limit = Some l /\ l <= Z.of_nat (size R) /\ R !! ip = None).
Proof.
  intros Hn Hord. cbv zeta. split; [|intros; apply ideal_documented]. set (t0 := configured_tracker default_limit limits mode window_secs).
  assert (forall t, policy_of t = policy_of t0 -> limit_window t = secs (Z.max window_secs 1) /\ mode_from_u8 (limit_mode t) = mode /\
    forall u, user_limit u t = limit_for default_limit limits u) as Hpol.
  { intros t Hp. split; [|split].
    - rewrite (policy_window _ _ Hp). unfold limit_window, t0, configured_tracker. cbn. f_equal. lia.
    - rewrite (proj2 (policy_limit _ _ [] Hp)). by destruct mode.
    - intros u. by rewrite (proj1 (policy_limit _ _ u Hp)). }
  apply (answers_refine telemetry (policy_of t0) (limit_for default_limit limits) mode _ Hpol ops 0 start); [|lia|done].
  apply refines_new; [done| |].
  - destruct (tracked_new 0 ltac:(lia)) as [? ? ? ? ? ? ? ? ? ? ? ? ? ? ?]. by split.
  - intros u. unfold recents_of, ips_of, t0. change (ip_shard ?j (configured_tracker _ _ _ _)) with (ip_shard j ip_tracker_new).
    rewrite ip_shard_new. cbn [recent_ips]. by rewrite lookup_empty.
Qed.

Definition open_access : UserAccess := mkUserAccess None None (Some 2) 0.
(** Two addresses and two connections at most; a dropped session makes room. *)
Definition demo_ops : list SessionOp :=
  [OpAcquire open_access 0 0 100 1 1 demo_user ip_a; OpAcquire open_access 0 0 100 2 2 demo_user ip_b;
   OpAcquire open_access 0 0 100 3 3 demo_user ip_a; OpDrop demo_user ip_b; OpAcquire open_access 0 0 200 4 5 demo_user ip_c;
   OpMaintain 300 6; OpRelease 300 7 demo_user ip_a].

Lemma user_limits_refine_witness :
  answers session_step demo_ops (mkHeld (mkLimits (configured_tracker 2 ∅ ActiveWindow 30) (mkConnStats true ∅)) [])
  = [Some (Ok tt); Some (Ok tt); Some (Err ConnectionLimitExceeded); None; Some (Ok tt); None; None].
Proof.
  rewrite (proj1 (user_limits_refine true 2 ∅ ActiveWindow 30 0 demo_ops ltac:(vm_compute; discriminate) ltac:(cbn; lia))).
  vm_compute. reflexivity.
Defined.

(** * Where the limits fall short *)

Definition held_after (mode : UserMaxUniqueIpsMode) (limit : Z) (telemetry : bool) (ops : list SessionOp) : Held :=
  foldl (fun h op => (session_step op h).2)
    (mkHeld (mkLimits (configured_tracker limit ∅ mode 30) (mkConnStats telemetry ∅)) []) ops.

(** An address that stays connected longer than the window is let in again when
    others have filled the window: three addresses within thirty seconds where
    two are allowed. *)
Definition long_lived_ops : list SessionOp :=
  [OpAcquire open_access 0 0 0 0 0 demo_user ip_a;
   OpAcquire open_access 0 0 0 (secs 100) (secs 100) demo_user ip_b; OpRelease 0 (secs 101) demo_user ip_b;
   OpAcquire open_access 0 0 0 (secs 102) (secs 102) demo_user ip_c; OpRelease 0 (secs 103) demo_user ip_c;
   OpAcquire open_access 0 0 0 (secs 104) (secs 104) demo_user ip_a].

Lemma window_limit_exceeded :
  size (recent_now (secs 104) (secs 30) (recents_of (ip_tracker (hd_limits (held_after Combined 2 true long_lived_ops))) demo_user)) = 3%nat /\
  answers session_step long_lived_ops (mkHeld (mkLimits (configured_tracker 2 ∅ Combined 30) (mkConnStats true ∅)) [])
  = [Some (Ok tt); Some (Ok tt); None; Some (Ok tt); None; Some (Ok tt)].
Proof. by vm_compute. Qed.

(** Clearing the addresses of a user while a session is open: its release takes
    away the entry of a later session, and a second address gets in where one is
    allowed. *)
Lemma cleared_user_undercounts :
  let try_admit now ip t := (admit_ip (Some 1) ActiveWindow (secs 30) now demo_user ip t) in
  let t1 := (try_admit 1 ip_a ip_tracker_new).2 in
  let '(second, t2) := try_admit 2 ip_a (clear_user_ips demo_user t1) in
  let '(other, t3) := try_admit 3 ip_b (release_ip demo_user ip_a t2) in
  second = Ok tt /\ other = Ok tt.
Proof. by vm_compute. Qed.

(** Without the telemetry of users the limit on connections is not enforced. *)
Lemma telemetry_off_unlimited :
  sessions_of demo_user (hd_open (held_after ActiveWindow 0 false
    (replicate 3 (OpAcquire open_access 0 0 0 1 1 demo_user ip_a)))) = 3 /\
  tcp_conn_limit open_access = Some 2.
Proof. by vm_compute. Qed.
