(* ===== verification/ProxyProps.v ===== *)
(** Properties of the PROXY protocol header: what is built is read back, and
    reading is bounded. *)

From stdpp Require Import base list numbers.
From S2P Require Import Net Prelude ProxyProtocol.
Local Open Scope Z_scope.

(** * Text *)

Lemma utf8_ascii l : Forall (fun c => 0 <= c < 0x80) l -> utf8_decode l = Some l.
Proof.
  induction 1 as [|c l Hc _ IH]; [done|]. cbn [utf8_decode]. rewrite (proj2 (Z.ltb_lt c 0x80)) by lia. by rewrite IH.
Qed.

Lemma split_word word text rest :
  Forall (fun c => is_whitespace c = false) text -> split_words word (text ++ rest) = split_words (word ++ text) rest.
Proof.
  revert word. induction text as [|c text IH]; intros word Ht; [by rewrite app_nil_r|].
  apply list.Forall_cons in Ht as [Hc Ht]. cbn [app split_words]. rewrite Hc, IH by done. by rewrite <- (assoc_L (++)).
Qed.

Lemma split_join words :
  Forall (fun w => w <> [] /\ Forall (fun c => is_whitespace c = false) w) words -> split_whitespace (join 32 words) = words.
Proof.
  unfold split_whitespace. induction words as [|w words IH]; intros Hw; [done|]. apply list.Forall_cons in Hw as [[Hne Hw] Hws].
  destruct words as [|w2 words].
  - cbn [join]. rewrite <- (app_nil_r w) at 1. rewrite split_word by done. cbn. by destruct w.
  - change (join 32 (w :: w2 :: words)) with (w ++ 32 :: join 32 (w2 :: words)). rewrite split_word by done. cbn [split_words is_whitespace].
    change (is_whitespace 32) with true. cbn iota. rewrite (IH Hws). by destruct w.
Qed.

(** * Numbers *)

Definition digits_value (radix : Z) (text : list Z) (value : Z) : Z :=
  foldl (fun v c => v * radix + default 0 (to_digit radix c)) value text.

(** The digits of addresses: decimal digits and the letters a to f. *)
Definition is_hex (c : Z) : bool := between 48 57 c || between 97 102 c.

Lemma digit_char radix d : 0 <= d < radix -> radix <= 16 ->
  to_digit radix (if d <? 10 then 48 + d else 87 + d) = Some d /\ is_hex (if d <? 10 then 48 + d else 87 + d) = true.
Proof.
  intros Hd Hr. unfold to_digit, is_hex, between. destruct (Z.ltb_spec d 10).
  - rewrite (proj2 (Z.leb_le 48 (48 + d))), (proj2 (Z.leb_le (48 + d) 57)) by lia. cbn [andb orb].
    rewrite (proj2 (Z.ltb_lt (48 + d - 48) radix)) by lia. split; [f_equal; lia|done].
  - rewrite (proj2 (Z.leb_gt (87 + d) 57)), andb_false_r by lia.
    rewrite (proj2 (Z.leb_le 97 (87 + d))), (proj2 (Z.leb_le (87 + d) 122)), (proj2 (Z.leb_le (87 + d) 102)) by lia. cbn [andb orb].
    rewrite (proj2 (Z.ltb_lt (87 + d - 87) radix)) by lia. split; [f_equal; lia|done].
Qed.

Lemma print_digits_spec radix fuel n text :
  2 <= radix <= 16 -> 0 <= n < radix ^ Z.of_nat fuel -> (0 < fuel)%nat ->
  exists ds, print_digits fuel radix n text = ds ++ text /\ Forall (fun c => is_Some (to_digit radix c) /\ is_hex c = true) ds /\
  digits_value radix ds 0 = n /\ ds <> [] /\
  (forall k, (0 < k)%nat -> n < radix ^ Z.of_nat k -> (length ds <= k)%nat) /\ (head ds = Some 48 -> n = 0 /\ length ds = 1%nat).
Proof.
  intros Hr. revert n text. induction fuel as [|fuel IH]; intros n text Hn Hf; [lia|]. cbn [print_digits].
  pose proof (Z.mod_pos_bound n radix ltac:(lia)) as Hm. pose proof (Z.div_mod n radix ltac:(lia)) as Hdm.
  destruct (digit_char radix (n mod radix) Hm ltac:(lia)) as [Hd Hx].
  assert ((if n mod radix <? 10 then 48 + n mod radix else 87 + n mod radix) = 48 -> n mod radix = 0) as H48 by (destruct (Z.ltb_spec (n mod radix) 10); lia).
  set (d := if n mod radix <? 10 then _ else _) in *.
  destruct (Z.eqb_spec (n / radix) 0) as [Hz|Hz].
  - exists [d]. split; [done|]. split; [by constructor; [eauto|]|]. split; [cbn; rewrite Hd; cbn; lia|]. split; [done|]. split.
    + intros k Hk _. cbn. lia.
    + intros [= Hh]. cbn. split; [|done]. rewrite (H48 Hh) in Hdm. lia.
  - rewrite Nat2Z.inj_succ, Z.pow_succ_r in Hn by lia.
    assert (0 < fuel)%nat as Hf'.
    { destruct fuel; [|lia]. rewrite Z.mul_1_r in Hn. by rewrite Z.div_small in Hz by lia. }
    destruct (IH (n / radix) (d :: text)) as (ds & Hp & Hds & Hv & Hne & Hlen & Hh); [|lia|].
    { split; [apply Z.div_pos; lia|]. apply Z.div_lt_upper_bound; lia. }
    exists (ds ++ [d]). split; [by rewrite Hp, <- (assoc_L (++))|]. split; [apply Forall_app; split; [done|by constructor; [eauto|]]|].
    split; [unfold digits_value in *; rewrite foldl_app, Hv; cbn; rewrite Hd; cbn; lia|]. split; [by destruct ds|]. split.
    + intros k Hk Hnk. rewrite length_app. cbn. destruct k as [|k]; [lia|]. rewrite Nat2Z.inj_succ, Z.pow_succ_r in Hnk by lia.
      assert (0 < k)%nat as Hk'. { destruct k; [|lia]. rewrite Z.mul_1_r in Hnk. by rewrite Z.div_small in Hz by lia. }
      specialize (Hlen k Hk' ltac:(apply Z.div_lt_upper_bound; lia)). lia.
    + destruct ds as [|c ds]; [done|]. cbn. intros Hc. destruct (Hh Hc). lia.
Qed.

(** What may follow a number. *)
Definition stops (radix : Z) (rest : list Z) : Prop := match rest with c :: _ => to_digit radix c = None | [] => True end.

Lemma read_digits_value radix max text rest value count :
  Forall (fun c => is_Some (to_digit radix c) /\ is_hex c = true) text -> stops radix rest -> (count + length text <= max)%nat ->
  read_digits radix max (text ++ rest) value count = Some (digits_value radix text value, (count + length text)%nat, rest).
Proof.
  intros Hd Hr. revert value count. induction Hd as [|c text [[d Hc] _] Hd IH]; intros value count Hl.
  - cbn [app length]. rewrite Nat.add_0_r. destruct rest as [|c rest]; [done|]. cbn [read_digits]. by rewrite Hr.
  - cbn [app read_digits length] in *. rewrite Hc. rewrite (proj2 (Nat.ltb_ge max (count + 1))) by lia.
    rewrite IH by lia. cbn. rewrite Hc. do 2 f_equal. f_equal. lia.
Qed.

Lemma read_octet n rest : 0 <= n < 256 -> stops 10 rest -> read_number 10 3 false 255 (print_dec n ++ rest) = Some (n, rest).
Proof.
  intros Hn Hr. unfold print_dec. destruct (print_digits_spec 10 5 n [] ltac:(lia) ltac:(cbn; lia) ltac:(lia)) as (ds & -> & Hd & Hv & Hne & Hl & Hz).
  rewrite app_nil_r. specialize (Hl 3%nat ltac:(lia) ltac:(cbn; lia)).
  unfold read_number. rewrite read_digits_value by (done || lia). rewrite Hv. cbn [Nat.add].
  destruct ds as [|c text] eqn:He; [done|]. cbn [app head length negb andb Nat.eqb].
  rewrite (proj2 (Z.leb_le n 255)) by lia. case_bool_decide as Hh; cbn [andb]; [|done].
  destruct (Hz Hh) as [_ Hone]. cbn [length] in Hone. by rewrite (proj2 (Nat.ltb_ge 1 (S (length text)))) by lia.
Qed.

Lemma read_group n rest : 0 <= n < 65536 -> stops 16 rest -> read_number 16 4 true 65535 (print_hex n ++ rest) = Some (n, rest).
Proof.
  intros Hn Hr. unfold print_hex. destruct (print_digits_spec 16 5 n [] ltac:(lia) ltac:(cbn; lia) ltac:(lia)) as (ds & -> & Hd & Hv & Hne & Hl & _).
  rewrite app_nil_r. specialize (Hl 4%nat ltac:(lia) ltac:(cbn; lia)).
  unfold read_number. rewrite read_digits_value by (done || lia). rewrite Hv. cbn [Nat.add negb andb].
  rewrite (proj2 (Z.leb_le n 65535)) by lia. by destruct ds.
Qed.

Lemma parse_print_u16 n : 0 <= n < 65536 -> parse_u16 (print_dec n) = Some n.
Proof.
  intros Hn. unfold print_dec. destruct (print_digits_spec 10 5 n [] ltac:(lia) ltac:(cbn; lia) ltac:(lia)) as (ds & -> & Hd & Hv & Hne & _).
  rewrite app_nil_r. unfold parse_u16.
  assert (match ds with 43 :: (_ :: _) as rest => tail rest | _ => ds end = ds) as ->.
  { destruct ds as [|c text]; [done|]. apply list.Forall_cons in Hd as [[_ Hc] _]. unfold is_hex, between in Hc.
    destruct (Z.eq_dec c 43) as [->|Hne']; [done|]. destruct c as [|c|c]; try done. repeat (destruct c as [c|c|]; try done). }
  rewrite <- (app_nil_r ds) at 2. rewrite read_digits_value by (done || lia). rewrite Hv. cbn [Nat.add].
  destruct ds; [done|]. cbn. rewrite (proj2 (Z.ltb_ge 65535 n)) by lia. done.
Qed.

(** * Addresses *)

Lemma read_print_ipv4 o rest : ip_ok (IpV4 o) -> stops 10 rest -> read_ipv4_addr (print_ipv4 o ++ rest) = Some (o, rest).
Proof.
  intros [Hl Hb] Hr. destruct o as [|a [|b [|c [|d [|]]]]]; try done. unfold bytes_ok in Hb. rewrite !list.Forall_cons in Hb.
  destruct Hb as (Ha & Hb & Hc & Hd & _). unfold is_byte in *. unfold read_ipv4_addr, print_ipv4. cbn [fmap list_fmap join].
  repeat (rewrite <- (assoc_L (++)); cbn [app]). cbn [read_octets read_separator app].
  rewrite read_octet by (done || lia). cbn [Z.eqb Pos.eqb]. rewrite read_octet by (done || lia). cbn [Z.eqb Pos.eqb].
  rewrite read_octet by (done || lia). cbn [Z.eqb Pos.eqb]. by rewrite read_octet by (done || lia).
Qed.

Lemma read_digits_suffix radix max text value count v c rest :
  read_digits radix max text value count = Some (v, c, rest) -> rest `suffix_of` text.
Proof.
  revert value count. induction text as [|x text IH]; intros value count; cbn [read_digits]; [by intros [= _ _ <-]|].
  destruct (to_digit radix x); [|by intros [= _ _ <-]]. destruct (_ <? _)%nat; [done|]. intros Hs%IH. by apply suffix_cons_r.
Qed.

(** Text without a dot is no IPv4 address. *)
Lemma no_dot_no_ipv4 text : 46 ∉ text -> read_ipv4_addr text = None.
Proof.
  intros Hdot. unfold read_ipv4_addr. cbn [read_octets read_separator].
  destruct (read_number 10 3 false 255 text) as [[n rest]|] eqn:Hn; [|done].
  assert (rest `suffix_of` text) as [pre ->].
  { unfold read_number in Hn. destruct (read_digits 10 3 text 0 0) as [[[v c] r]|] eqn:Hd; [|done]. apply read_digits_suffix in Hd.
    destruct (c =? 0)%nat; [done|]. destruct (_ && _); [done|]. destruct (v <=? 255); [|done]. by injection Hn as _ <-. }
  destruct rest as [|x rest]; [done|]. destruct (Z.eqb_spec x 46) as [->|]; [|done].
  exfalso. apply Hdot. apply elem_of_app. right. left.
Qed.

Lemma print_hex_spec n : 0 <= n < 65536 -> Forall (fun c => is_hex c = true) (print_hex n).
Proof.
  intros Hn. unfold print_hex. destruct (print_digits_spec 16 5 n [] ltac:(lia) ltac:(cbn; lia) ltac:(lia)) as (ds & -> & Hd & _).
  rewrite app_nil_r. eapply list.Forall_impl; [exact Hd|]. by intros c [_ Hc].
Qed.

Lemma hex_no_dot text : Forall (fun c => is_hex c = true) text -> 46 ∉ text.
Proof. intros Ht Hin. rewrite list.Forall_forall in Ht. by specialize (Ht 46 Hin). Qed.

Lemma join_cons sep w ws : join sep (w :: ws) = w ++ concat (cons sep <$> ws).
Proof.
  revert w. induction ws as [|w2 ws IH]; intros w; [cbn; by rewrite app_nil_r|].
  change (join sep (w :: w2 :: ws)) with (w ++ sep :: join sep (w2 :: ws)). by rewrite IH.
Qed.

(** What ends a sequence of groups: nothing, or "::". *)
Definition groups_end (rest : list Z) : Prop := match rest with [] => True | a :: b :: _ => a = 58 /\ b = 58 | _ => False end.

Lemma groups_end_stops rest : groups_end rest -> stops 16 rest.
Proof. destruct rest as [|a [|b rest]]; [done|done|]. by intros [-> ->]. Qed.

Lemma read_groups_end k index groups rest : groups_end rest -> read_groups k index groups rest = (groups, false, rest).
Proof.
  destruct k as [|k]; [done|]. destruct rest as [|a [|b rest]]; [|done|intros [-> ->]]; intros; cbn [read_groups].
  - by destruct index, (1 <=? k)%nat.
  - destruct index; cbn [read_separator]; by destruct (1 <=? k)%nat.
Qed.

Lemma read_groups_one k index groups g more :
  0 <= g < 65536 -> 46 ∉ more -> stops 16 more ->
  read_groups (S k) index groups (match index with O => [] | S _ => [58] end ++ print_hex g ++ more) = read_groups k (S index) (groups ++ [g]) more.
Proof.
  intros Hg Hdot Hstop. assert (read_ipv4_addr (print_hex g ++ more) = None) as Hno.
  { apply no_dot_no_ipv4. intros [Hin|Hin]%elem_of_app; [|done]. by apply (hex_no_dot _ (print_hex_spec g Hg)). }
  destruct index as [|index]; cbn [app read_groups read_separator Z.eqb Pos.eqb]; rewrite Hno, read_group by done; by destruct (1 <=? k)%nat.
Qed.

Lemma more_groups gs rest :
  Forall (fun g => 0 <= g < 65536) gs -> groups_end rest -> 46 ∉ rest ->
  let more := concat (cons 58 <$> (print_hex <$> gs)) ++ rest in (46 ∉ more) /\ stops 16 more.
Proof.
  intros Hgs Hend Hdot. split; [|by destruct gs; [apply groups_end_stops|]]. induction Hgs as [|g gs Hg Hgs IH]; [done|].
  cbn [fmap list_fmap concat app]. rewrite <- (assoc_L (++)). intros [?|[Hin|Hin]%elem_of_app]%elem_of_cons; [done| |done].
  by apply (hex_no_dot _ (print_hex_spec g Hg)).
Qed.

Lemma read_groups_next k index groups gs rest :
  Forall (fun g => 0 <= g < 65536) gs -> (length gs <= k)%nat -> groups_end rest -> 46 ∉ rest ->
  read_groups k (S index) groups (concat (cons 58 <$> (print_hex <$> gs)) ++ rest) = (groups ++ gs, false, rest).
Proof.
  intros Hg. revert k index groups. induction Hg as [|g gs Hg Hgs IH]; intros k index groups Hk Hend Hdot.
  { rewrite app_nil_r. by apply read_groups_end. }
  cbn [length] in Hk. destruct k as [|k]; [lia|]. cbn [fmap list_fmap concat app]. rewrite <- (assoc_L (++)).
  destruct (more_groups gs rest Hgs Hend Hdot) as [Hdot' Hstop].
  etrans; [exact (read_groups_one k (S index) groups g _ Hg Hdot' Hstop)|]. rewrite IH by (done || lia). by rewrite <- (assoc_L (++)).
Qed.

Lemma read_groups_join k groups gs rest :
  Forall (fun g => 0 <= g < 65536) gs -> (length gs <= k)%nat -> groups_end rest -> 46 ∉ rest ->
  read_groups k 0 groups (join 58 (print_hex <$> gs) ++ rest) = (groups ++ gs, false, rest).
Proof.
  intros Hg Hk Hend Hdot. destruct gs as [|g gs].
  { rewrite app_nil_r. by apply read_groups_end. }
  apply list.Forall_cons in Hg as [Hg Hgs]. cbn [length] in Hk. destruct k as [|k]; [lia|].
  cbn [fmap list_fmap]. rewrite join_cons, <- (assoc_L (++)). destruct (more_groups gs rest Hgs Hend Hdot) as [Hdot' Hstop].
  etrans; [exact (read_groups_one k 0 groups g _ Hg Hdot' Hstop)|]. rewrite read_groups_next by (done || lia). by rewrite <- (assoc_L (++)).
Qed.

(** ** Runs of zero groups *)

Definition zero_run (F : list Z) (r : nat * nat) : Prop :=
  (r.1 + r.2 <= length F)%nat /\ forall j, (r.1 <= j < r.1 + r.2)%nat -> F !! j = Some 0.

Lemma longest_zeros_run F groups index current longest :
  drop index F = groups -> zero_run F longest -> (current.2 = 0%nat \/ ((current.1 + current.2)%nat = index /\ zero_run F current)) ->
  zero_run F (longest_zeros groups index current longest).
Proof.
  revert index current longest. induction groups as [|g groups IH]; intros index current longest Hdrop Hl Hc; [done|].
  assert (F !! index = Some g) as Hg by (rewrite <- (Nat.add_0_r index), <- lookup_drop, Hdrop; done).
  assert (drop (S index) F = groups) as Hnext by (replace (S index) with (index + 1)%nat by lia; by rewrite <- drop_drop, Hdrop).
  cbn [longest_zeros]. destruct (Z.eqb_spec g 0) as [->|Hne]; [|apply IH; [done|done|by left]].
  set (current' := if (current.2 =? 0)%nat then _ else _).
  assert ((current'.1 + current'.2)%nat = S index /\ zero_run F current') as [Hi Hrun].
  { apply lookup_lt_Some in Hg as Hlt. unfold current'. destruct (Nat.eqb_spec current.2 0) as [Hz|Hz]; cbn [fst snd].
    - split; [lia|]. split; [cbn; lia|]. cbn. intros j Hj. by replace j with index by lia.
    - destruct Hc as [?|[Hci [Hcl Hcz]]]; [done|]. split; [lia|]. split; [cbn; lia|]. cbn. intros j Hj.
      destruct (decide (j = index)) as [->|]; [done|]. apply Hcz. lia. }
  apply IH; [done| |by right]. by destruct (_ <? _)%nat.
Qed.

Lemma zero_run_split F start len : zero_run F (start, len) -> take start F ++ replicate len 0 ++ drop (start + len) F = F.
Proof.
  intros [Hle Hz]. cbn in *. rewrite <- (take_drop start F) at 3. f_equal. rewrite <- (take_drop len (drop start F)), drop_drop. f_equal.
  apply replicate_as_Forall. split; [rewrite length_take, length_drop; lia|].
  apply Forall_lookup. intros i x Hx. apply lookup_take_Some in Hx as [Hx Hi]. rewrite lookup_drop in Hx. rewrite Hz in Hx by lia. congruence.
Qed.

Lemma bytes_pair a b : is_byte a -> is_byte b -> bytes_ok [a; b].
Proof. intros Ha Hb. constructor; [done|]. constructor; [done|]. constructor. Qed.

Lemma groups_of_spec n o : length o = (2 * n)%nat -> bytes_ok o ->
  concat (to_be 2 <$> groups_of o) = o /\ length (groups_of o) = n /\ Forall (fun g => 0 <= g < 65536) (groups_of o).
Proof.
  revert o. induction n as [|n IH]; intros o Hl Hb; [by destruct o|]. destruct o as [|a [|b o]]; [done|cbn in Hl; lia|].
  unfold bytes_ok in Hb. rewrite !list.Forall_cons in Hb. destruct Hb as (Ha & Hb & Ho). cbn in Hl.
  destruct (IH o ltac:(lia) Ho) as (Hc & Hn & Hg). cbn [groups_of fmap list_fmap concat length]. rewrite Hc, Hn.
  pose proof (bytes_pair a b Ha Hb) as Hab.
  split; [|split; [done|]].
  - assert (to_be 2 (of_be [a; b]) = [a; b]) as ->; [|done]. unfold to_be, of_be.
    pose proof (to_le_of_le (reverse [a; b]) ltac:(by apply Forall_reverse)) as Hle. cbn [length reverse] in Hle.
    change (length (reverse [a; b])) with 2%nat in Hle. rewrite Hle. apply reverse_involutive.
  - constructor; [|done]. pose proof (of_be_bounds [a; b] Hab) as Hbd. cbn [length] in Hbd. change (256 ^ Z.of_nat 2) with 65536 in Hbd. lia.
Qed.

Lemma print_groups_no_dot gs : Forall (fun g => 0 <= g < 65536) gs -> 46 ∉ join 58 (print_hex <$> gs).
Proof.
  intros Hg. destruct gs as [|g gs]; [apply not_elem_of_nil|]. apply list.Forall_cons in Hg as [Hg Hgs]. cbn [fmap list_fmap]. rewrite join_cons.
  destruct (more_groups gs [] Hgs I (not_elem_of_nil _)) as [Hmore _]. rewrite app_nil_r in Hmore.
  intros [Hin|Hin]%elem_of_app; [|done]. by apply (hex_no_dot _ (print_hex_spec g Hg)).
Qed.

Lemma parse_print_ipv6 o : ip_ok (IpV6 o) -> parse_ip (print_ipv6 o) = Some (IpV6 o).
Proof.
  intros [Hl Hb]. unfold print_ipv6, to_ipv4_mapped. case_bool_decide as Hmap.
  - assert (ip_ok (IpV4 (drop 12 o))) as Hv4 by (split; [by rewrite length_drop, Hl|by apply Forall_drop]).
    unfold parse_ip. cbn [app]. change (read_ipv4_addr (58 :: ?t)) with (@None (list Z * list Z)). cbn iota.
    unfold read_ipv6_addr. rewrite read_groups_end by done. cbn [length Nat.eqb Z.eqb Pos.eqb andb Nat.sub].
    pose proof (read_print_ipv4 (drop 12 o) [] Hv4 I) as Hread. rewrite app_nil_r in Hread.
    change (read_groups 7 0 [] (102 :: 102 :: 102 :: 102 :: 58 :: print_ipv4 (drop 12 o))) with (read_groups 6 1 [65535] (58 :: print_ipv4 (drop 12 o))).
    cbn [read_groups read_separator Nat.leb Z.eqb Pos.eqb]. rewrite Hread. cbn [app length Nat.sub replicate].
    do 2 f_equal. rewrite <- (take_drop 12 o) at 3. rewrite Hmap.
    destruct Hv4 as [Hl4 Hb4]. destruct (drop 12 o) as [|a [|b [|c [|d [|]]]]]; try done.
    assert (forall x y, is_byte x -> is_byte y -> to_be 2 (of_be [x; y]) = [x; y]) as H2.
    { intros x y Hx Hy. destruct (groups_of_spec 1 [x; y] eq_refl (bytes_pair x y Hx Hy)) as [Hg _].
      cbn [groups_of fmap list_fmap concat] in Hg. by rewrite app_nil_r in Hg. }
    unfold bytes_ok in Hb4. rewrite !list.Forall_cons in Hb4. destruct Hb4 as (Ha & Hb' & Hc & Hd & _).
    cbn [fmap list_fmap concat take drop]. by rewrite !H2.
  - destruct (groups_of_spec 8 o Hl Hb) as (Hc & Hn & Hg). set (F := groups_of o) in *.
    destruct (longest_zeros F 0 (0, 0)%nat (0, 0)%nat) as [start len] eqn:Hlz.
    assert (zero_run F (start, len)) as Hrun.
    { rewrite <- Hlz. apply longest_zeros_run; [done| |by left]. split; [cbn; lia|cbn; lia]. }
    unfold parse_ip. destruct (Nat.ltb_spec 1 len) as [Hlen|Hlen].
    + assert (Forall (fun g => 0 <= g < 65536) (take start F) /\ Forall (fun g => 0 <= g < 65536) (drop (start + len) F)) as [Hg1 Hg2]
        by (split; [by apply Forall_take|by apply Forall_drop]).
      pose proof (print_groups_no_dot _ Hg1) as Hd1. pose proof (print_groups_no_dot _ Hg2) as Hd2.
      assert (46 ∉ [58; 58] ++ join 58 (print_hex <$> drop (start + len) F)) as Hd.
      { intros [Hin|Hin]%elem_of_app; [|done]. by repeat (apply elem_of_cons in Hin as [?|Hin]; [done|]); apply not_elem_of_nil in Hin. }
      destruct Hrun as [Hle Hz]. cbn [fst snd] in Hle. rewrite no_dot_no_ipv4 by (by intros [?|?]%elem_of_app).
      unfold read_ipv6_addr. rewrite read_groups_join by (done || rewrite length_take; lia). cbn [app].
      rewrite length_take. rewrite (proj2 (Nat.eqb_neq (start `min` length F) 8)) by lia. cbn [Z.eqb Pos.eqb andb].
      pose proof (read_groups_join (7 - start `min` length F) [] (drop (start + len) F) [] Hg2) as Hr.
      rewrite app_nil_r in Hr. rewrite Hr; [|rewrite length_drop; lia|done|apply not_elem_of_nil]. cbn [app].
      rewrite length_drop. replace (8 - start `min` length F - (length F - (start + len)))%nat with len by lia.
      rewrite zero_run_split by done. by rewrite Hc.
    + pose proof (print_groups_no_dot F Hg) as Hd. rewrite no_dot_no_ipv4 by done. unfold read_ipv6_addr.
      pose proof (read_groups_join 8 [] F [] Hg ltac:(lia) I (not_elem_of_nil _)) as Hr. rewrite app_nil_r in Hr. rewrite Hr. cbn [app].
      rewrite Hn. cbn [Nat.eqb]. by rewrite Hc.
Qed.

Lemma parse_print_ip ip : ip_ok ip -> parse_ip (print_ip ip) = Some ip.
Proof.
  intros Hok. destruct ip as [o|o]; [|by apply parse_print_ipv6]. unfold parse_ip. cbn [print_ip].
  pose proof (read_print_ipv4 o [] Hok I) as Hr. rewrite app_nil_r in Hr. by rewrite Hr.
Qed.

(** ** The words of a line *)

Definition is_addr (c : Z) : bool := is_hex c || (c =? 46) || (c =? 58).

Lemma addr_char c : is_addr c = true -> is_whitespace c = false /\ 0 <= c < 0x80 /\ c <> 13.
Proof.
  unfold is_addr, is_hex, is_whitespace, between. rewrite !orb_true_iff, !andb_true_iff, !Z.leb_le, !Z.eqb_eq. intros Hc.
  split; [|lia]. rewrite !orb_false_iff, !andb_false_iff, !Z.leb_gt, !Z.eqb_neq. lia.
Qed.

Lemma hex_addr text : Forall (fun c => is_hex c = true) text -> Forall (fun c => is_addr c = true) text.
Proof. intros Ht. eapply list.Forall_impl; [exact Ht|]. intros c Hc. unfold is_addr. by rewrite Hc. Qed.

Lemma join_spec sep words n :
  is_addr sep = true -> Forall (fun w => Forall (fun c => is_addr c = true) w /\ (length w <= n)%nat) words ->
  Forall (fun c => is_addr c = true) (join sep words) /\ (length (join sep words) <= length words * S n)%nat.
Proof.
  intros Hs Hw. destruct Hw as [|w words [Hw Hn] Hws]; [cbn; split; [constructor|lia]|]. rewrite join_cons.
  assert (Forall (fun c => is_addr c = true) (concat (cons sep <$> words)) /\ (length (concat (cons sep <$> words)) <= length words * S n)%nat) as [Hc Hl].
  { induction Hws as [|v words [Hv Hvn] Hws IH]; [cbn; split; [constructor|lia]|]. cbn [fmap list_fmap concat app length]. destruct IH as [Hc Hl].
    split; [constructor; [done|by apply Forall_app]|]. rewrite length_app. lia. }
  split; [by apply Forall_app|]. rewrite length_app. cbn [length]. lia.
Qed.

Lemma print_dec_word n : 0 <= n < 65536 -> Forall (fun c => is_addr c = true) (print_dec n) /\ (length (print_dec n) <= 5)%nat /\ print_dec n <> [].
Proof.
  intros Hn. unfold print_dec. destruct (print_digits_spec 10 5 n [] ltac:(lia) ltac:(cbn; lia) ltac:(lia)) as (ds & -> & Hd & _ & Hne & Hl & _).
  rewrite app_nil_r. split; [|split; [apply Hl; cbn; lia|done]]. apply hex_addr. eapply list.Forall_impl; [exact Hd|]. by intros c [_ Hc].
Qed.

Lemma print_hex_word n : 0 <= n < 65536 -> Forall (fun c => is_addr c = true) (print_hex n) /\ (length (print_hex n) <= 4)%nat.
Proof.
  intros Hn. split; [by apply hex_addr, print_hex_spec|]. unfold print_hex.
  destruct (print_digits_spec 16 5 n [] ltac:(lia) ltac:(cbn; lia) ltac:(lia)) as (ds & -> & _ & _ & _ & Hl & _).
  rewrite app_nil_r. apply Hl; cbn; lia.
Qed.

Lemma print_ipv4_word o : ip_ok (IpV4 o) -> Forall (fun c => is_addr c = true) (print_ipv4 o) /\ (length (print_ipv4 o) <= 24)%nat.
Proof.
  intros [Hl Hb]. destruct (join_spec 46 (print_dec <$> o) 5 eq_refl) as [Hc Hn].
  - apply Forall_fmap. eapply list.Forall_impl; [exact Hb|]. intros x Hx. unfold is_byte in Hx.
    destruct (print_dec_word x ltac:(lia)) as (? & ? & _). done.
  - split; [done|]. rewrite length_fmap, Hl in Hn. exact Hn.
Qed.

Lemma print_groups_word gs : Forall (fun g => 0 <= g < 65536) gs ->
  Forall (fun c => is_addr c = true) (join 58 (print_hex <$> gs)) /\ (length (join 58 (print_hex <$> gs)) <= length gs * 5)%nat.
Proof.
  intros Hg. destruct (join_spec 58 (print_hex <$> gs) 4 eq_refl) as [Hc Hn].
  - apply Forall_fmap. eapply list.Forall_impl; [exact Hg|]. intros x Hx. by apply print_hex_word.
  - by rewrite length_fmap in Hn.
Qed.

Lemma print_ip_word ip : ip_ok ip ->
  Forall (fun c => is_addr c = true) (print_ip ip) /\ (length (print_ip ip) <= 42)%nat /\ print_ip ip <> [].
Proof.
  intros Hok. assert (print_ip ip <> []) as Hne by (intros He; pose proof (parse_print_ip ip Hok) as Hp; by rewrite He in Hp).
  enough (Forall (fun c => is_addr c = true) (print_ip ip) /\ (length (print_ip ip) <= 42)%nat) as [? ?] by done.
  destruct ip as [o|o]; [destruct (print_ipv4_word o Hok); split; [done|cbn; lia]|]. destruct Hok as [Hl Hb]. cbn [print_ip]. unfold print_ipv6, to_ipv4_mapped.
  case_bool_decide.
  - destruct (print_ipv4_word (drop 12 o)) as [Hc Hn]; [split; [by rewrite length_drop, Hl|by apply Forall_drop]|].
    split; [apply Forall_app; split; [by repeat constructor|done]|]. rewrite length_app. cbn [length]. lia.
  - destruct (groups_of_spec 8 o Hl Hb) as (_ & Hn & Hg). destruct (longest_zeros _ _ _ _) as [start len].
    destruct (Nat.ltb_spec 1 len).
    + destruct (print_groups_word (take start (groups_of o)) ltac:(by apply Forall_take)) as [Hc1 Hl1].
      destruct (print_groups_word (drop (start + len) (groups_of o)) ltac:(by apply Forall_drop)) as [Hc2 Hl2].
      split; [apply Forall_app; split; [done|]; apply Forall_app; split; [by repeat constructor|done]|].
      rewrite !length_app. cbn [length]. rewrite length_take in Hl1. rewrite length_drop in Hl2. lia.
    + destruct (print_groups_word (groups_of o) Hg) as [Hc Hn']. split; [done|]. lia.
Qed.

(** * Lines *)

Lemma ends_with_crlf_two l a b : ends_with_crlf (l ++ [a; b]) = bool_decide ([a; b] = CRLF).
Proof. unfold ends_with_crlf. rewrite length_app. cbn [length]. rewrite Nat.add_sub, drop_app_length. done. Qed.

Lemma ends_with_crlf_no_cr l b : 13 ∉ l -> ends_with_crlf (l ++ [b]) = false.
Proof.
  intros Hcr. destruct l as [|x l _] using rev_ind; [by apply bool_decide_eq_false_2|].
  rewrite <- (assoc_L (++)). cbn [app]. rewrite ends_with_crlf_two.
  apply bool_decide_eq_false_2. intros [= -> ->]. apply Hcr, elem_of_app. right. left.
Qed.

Lemma read_line_spec line body rest :
  13 ∉ line -> 13 ∉ body -> (length line + length body <= 255)%nat ->
  read_line line (body ++ CRLF ++ rest) = (Some (line ++ body ++ CRLF), rest).
Proof.
  revert line. induction body as [|b body IH]; intros line Hline Hbody Hlen.
  - cbn [app CRLF read_line]. rewrite ends_with_crlf_no_cr by done. cbn [length] in Hlen.
    rewrite (proj2 (Nat.ltb_ge 256 (length (line ++ [13])))) by (rewrite length_app; cbn; lia).
    rewrite <- (assoc_L (++)). cbn [app]. by rewrite ends_with_crlf_two.
  - cbn [app read_line]. rewrite ends_with_crlf_no_cr by done. cbn [length] in Hlen.
    rewrite (proj2 (Nat.ltb_ge 256 (length (line ++ [b])))) by (rewrite length_app; cbn; lia).
    rewrite IH; [by rewrite <- (assoc_L (++))| | |rewrite length_app; cbn; lia].
    + intros [?|Hb%list_elem_of_singleton]%elem_of_app; [done|]. apply Hbody. subst b. left.
    + intros Hin. apply Hbody. by right.
Qed.

Lemma parse_v1_text d body rest :
  Forall (fun c => 0 <= c < 0x80 /\ c <> 13) body -> (length body <= 249)%nat ->
  parse_proxy_protocol d (PROXY_V1_SIGNATURE ++ body ++ CRLF ++ rest) = (parse_v1_line d body, rest).
Proof.
  intros Hb Hl. unfold parse_proxy_protocol. unfold read_exact at 1.
  rewrite (proj2 (Nat.leb_le PROXY_V1_MIN_LEN _)) by (rewrite length_app; cbn; unfold PROXY_V1_MIN_LEN; lia).
  change PROXY_V1_MIN_LEN with (length PROXY_V1_SIGNATURE). rewrite take_app_length, drop_app_length, bool_decide_eq_true_2 by done.
  unfold parse_v1. rewrite read_line_spec; [|by apply (bool_decide_unpack (13 ∉ PROXY_V1_SIGNATURE))| |cbn; lia].
  2: { intros Hin. rewrite list.Forall_forall in Hb. by destruct (Hb 13 Hin). }
  assert (sub PROXY_V1_MIN_LEN (length (PROXY_V1_SIGNATURE ++ body ++ CRLF) - 2 - PROXY_V1_MIN_LEN) (PROXY_V1_SIGNATURE ++ body ++ CRLF) = body) as ->.
  { unfold sub. change PROXY_V1_MIN_LEN with (length PROXY_V1_SIGNATURE). rewrite drop_app_length, !length_app.
    replace (_ + _ - 2 - _)%nat with (length body) by (cbn; lia). apply take_app_length. }
  rewrite utf8_ascii; [done|]. eapply list.Forall_impl; [exact Hb|]. by intros c [? _].
Qed.

(** ** The built headers *)

Definition info_of (src dst : SocketAddr) (version : Z) : ProxyProtocolInfo := mkInfo src (Some dst) version.

Lemma word_spaceless w : Forall (fun c => is_addr c = true) w -> Forall (fun c => is_whitespace c = false) w.
Proof. intros Hw. eapply list.Forall_impl; [exact Hw|]. intros c Hc. by apply addr_char. Qed.

Lemma join_space (P : Z -> Prop) words : P 32 -> Forall (Forall P) words -> Forall P (join 32 words).
Proof.
  intros Hs Hw. destruct Hw as [|w words Hw Hws]; [constructor|]. rewrite join_cons. apply Forall_app. split; [done|].
  induction Hws as [|v words Hv Hws IH]; [constructor|]. cbn. constructor; [done|]. by apply Forall_app.
Qed.

Lemma parse_v1_words d family src dst rest :
  family = TCP4 \/ family = TCP6 -> addr_ok src -> addr_ok dst ->
  parse_proxy_protocol d (v1_build (mkV1 family (Some src) (Some dst)) ++ rest) = (Some (info_of src dst 1), rest).
Proof.
  destruct src as [sip sport], dst as [dip dport]. intros Hf [Hsip Hsport] [Hdip Hdport]. cbn [sa_ip sa_port] in *.
  destruct (print_ip_word sip Hsip) as (Hs & Hsl & Hsn). destruct (print_ip_word dip Hdip) as (Hd & Hdl & Hdn).
  destruct (print_dec_word sport ltac:(lia)) as (Hp & Hpl & Hpn). destruct (print_dec_word dport ltac:(lia)) as (Hq & Hql & Hqn).
  unfold v1_build. cbn [v1_family v1_src v1_dst sa_ip sa_port].
  set (words := [family; print_ip sip; print_ip dip; print_dec sport; print_dec dport]).
  rewrite <- (assoc_L (++)), <- (assoc_L (++)), parse_v1_text.
  - unfold parse_v1_line. rewrite split_join.
    + unfold words. rewrite bool_decide_eq_true_2 by done. cbn [length Nat.leb andb].
      by rewrite !parse_print_ip, !parse_print_u16 by (done || lia).
    + unfold words. apply list.Forall_cons. split; [by destruct Hf as [-> | ->]; (split; [done|repeat constructor])|].
      repeat apply list.Forall_cons_2; try apply list.Forall_nil_2; (split; [done|by apply word_spaceless]).
  - apply join_space; [lia|]. unfold words. apply list.Forall_cons. split; [by destruct Hf as [-> | ->]; repeat constructor|].
    repeat apply list.Forall_cons_2; try apply list.Forall_nil_2; (eapply list.Forall_impl; [eassumption|]); intros c Hc; by apply addr_char.
  - unfold words. rewrite join_cons. cbn [fmap list_fmap concat]. rewrite !length_app. cbn [length].
    assert (length family = 4%nat) as -> by (by destruct Hf as [-> | ->]). cbn [length]. rewrite ?length_app. cbn [length]. lia.
Qed.

Lemma parse_v2_header d more data rest :
  length more = 4%nat -> parse_proxy_protocol d (PROXY_V2_SIGNATURE ++ more ++ data ++ rest) = parse_v2 d (PROXY_V2_SIGNATURE ++ more) (data ++ rest).
Proof. intros Hm. by do 5 (destruct more as [|? more]; [try done|try done]). Qed.

Lemma read_exact_app data rest : read_exact (length data) (data ++ rest) = (Some data, rest).
Proof.
  unfold read_exact. rewrite (proj2 (Nat.leb_le _ _)) by (rewrite length_app; lia). by rewrite take_app_length, drop_app_length.
Qed.

Lemma parse_v2_proxied d header data rest :
  of_be (sub 12 1 header) = 0x21 -> of_be (sub 14 2 header) = Z.of_nat (length data) -> (0 < length data <= PROXY_V2_MAX_ADDR_LEN)%nat ->
  parse_v2 d header (data ++ rest) = (parse_v2_addrs d (Z.shiftr (of_be (sub 13 1 header)) 4) data, rest).
Proof.
  intros Hc Hl Hb. unfold parse_v2. rewrite Hc, Hl, Nat2Z.id. change (negb (Z.shiftr 0x21 4 =? 2)) with false. cbn iota.
  rewrite (proj2 (Nat.ltb_ge _ _)), (proj2 (Nat.ltb_lt 0 _)) by lia. by rewrite read_exact_app.
Qed.

Lemma v2_fields n (src dst sp dp : list Z) : length src = n -> length dst = n -> length sp = 2%nat -> length dp = 2%nat ->
  let data := src ++ dst ++ sp ++ dp in
  sub 0 n data = src /\ sub n n data = dst /\ sub (n + n) 2 data = sp /\ sub (n + n + 2) 2 data = dp.
Proof.
  intros Hs Hd Hp Hq data. unfold data. split; [by rewrite sub_hit|]. rewrite !(sub_skip _ _ src) by lia. rewrite Hs.
  replace (n - n)%nat with 0%nat by lia. split; [by rewrite sub_hit|]. rewrite !(sub_skip _ _ dst) by lia. rewrite Hd.
  replace (n + n - n - n)%nat with 0%nat by lia. split; [by rewrite sub_hit|]. rewrite (sub_skip _ _ sp) by lia. rewrite Hp.
  replace (n + n + 2 - n - n - 2)%nat with 0%nat by lia. by rewrite sub_all.
Qed.

Lemma parse_v2_inet d src dst sport dport :
  length src = 4%nat -> length dst = 4%nat -> 0 <= sport < 65536 -> 0 <= dport < 65536 ->
  parse_v2_addrs d INET (src ++ dst ++ to_be 2 sport ++ to_be 2 dport) =
  Some (info_of (mkSocketAddr (IpV4 src) sport) (mkSocketAddr (IpV4 dst) dport) 2).
Proof.
  intros Hs Hd Hp Hq. destruct (v2_fields 4 src dst (to_be 2 sport) (to_be 2 dport) Hs Hd (length_to_be _ _) (length_to_be _ _)) as (H1 & H2 & H3 & H4).
  unfold parse_v2_addrs. cbn [Nat.add] in *. rewrite H1, H2, H3, H4, !length_app, !length_to_be, Hs, Hd, !of_be_to_be by done. done.
Qed.

Lemma parse_v2_inet6 d src dst sport dport :
  length src = 16%nat -> length dst = 16%nat -> 0 <= sport < 65536 -> 0 <= dport < 65536 ->
  parse_v2_addrs d INET6 (src ++ dst ++ to_be 2 sport ++ to_be 2 dport) =
  Some (info_of (mkSocketAddr (IpV6 src) sport) (mkSocketAddr (IpV6 dst) dport) 2).
Proof.
  intros Hs Hd Hp Hq. destruct (v2_fields 16 src dst (to_be 2 sport) (to_be 2 dport) Hs Hd (length_to_be _ _) (length_to_be _ _)) as (H1 & H2 & H3 & H4).
  unfold parse_v2_addrs. cbn [Nat.add] in *. rewrite H1, H2, H3, H4, !length_app, !length_to_be, Hs, Hd, !of_be_to_be by done. done.
Qed.

Definition same_family (a b : IpAddr) : bool :=
  match a, b with IpV4 _, IpV4 _ | IpV6 _, IpV6 _ => true | _, _ => false end.

Lemma parse_v2_built d src dst rest : addr_ok src -> addr_ok dst ->
  parse_proxy_protocol d (v2_build (v2_with_addrs src dst) ++ rest) =
  (Some (if same_family (sa_ip src) (sa_ip dst) then info_of src dst 2 else mkInfo d None 2), rest).
Proof.
  destruct src as [[s|s] sport], dst as [[t|t] dport]; intros [[Hs _] Hp] [[Ht _] Hq]; cbn [sa_ip sa_port] in *; [| by cbn | by cbn |].
  - cbn [v2_build v2_with_addrs v2_src v2_dst same_family]. set (data := s ++ t ++ to_be 2 sport ++ to_be 2 dport).
    assert (length data = 12%nat) as Hl by (unfold data; rewrite !length_app, !length_to_be; lia).
    replace (_ ++ rest) with (PROXY_V2_SIGNATURE ++ [0x21; 0x11; 0; 12] ++ data ++ rest) by reflexivity.
    rewrite parse_v2_header, parse_v2_proxied by (done || rewrite ?Hl; done || cbn; unfold PROXY_V2_MAX_ADDR_LEN; lia).
    unfold data. by rewrite (parse_v2_inet d) by done.
  - cbn [v2_build v2_with_addrs v2_src v2_dst same_family]. set (data := s ++ t ++ to_be 2 sport ++ to_be 2 dport).
    assert (length data = 36%nat) as Hl by (unfold data; rewrite !length_app, !length_to_be; lia).
    replace (_ ++ rest) with (PROXY_V2_SIGNATURE ++ [0x21; 0x21; 0; 36] ++ data ++ rest) by reflexivity.
    rewrite parse_v2_header, parse_v2_proxied by (done || rewrite ?Hl; done || cbn; unfold PROXY_V2_MAX_ADDR_LEN; lia).
    unfold data. by rewrite (parse_v2_inet6 d) by done.
Qed.

(** * What is taken from the stream *)

Definition takes (bound : nat) (reader : list Z) (r : option ProxyProtocolInfo * list Z) : Prop :=
  exists taken, reader = taken ++ r.2 /\ (length taken <= bound)%nat.

Lemma takes_more n bound (start reader : list Z) r : takes bound reader r -> length start = n -> takes (n + bound) (start ++ reader) r.
Proof. intros (taken & -> & Hl) Hn. exists (start ++ taken). rewrite length_app. split; [by rewrite (assoc_L (++))|lia]. Qed.

Lemma read_exact_cases n reader :
  (exists data rest, read_exact n reader = (Some data, rest) /\ reader = data ++ rest /\ length data = n) \/
  (read_exact n reader = (None, []) /\ (length reader < n)%nat).
Proof.
  unfold read_exact. destruct (Nat.leb_spec n (length reader)); [left|by right].
  exists (take n reader), (drop n reader). by rewrite take_drop, length_take_le by lia.
Qed.

Lemma read_line_takes line reader : (length line <= 256)%nat ->
  exists taken, reader = taken ++ (read_line line reader).2 /\ (length line + length taken <= 257)%nat.
Proof.
  revert line. induction reader as [|b reader IH]; intros line Hl; [exists []; split; [done|cbn; lia]|]. cbn [read_line].
  destruct (ends_with_crlf (line ++ [b])); [exists [b]; split; [done|cbn; lia]|].
  destruct (Nat.ltb_spec 256 (length (line ++ [b]))); [exists [b]; split; [done|cbn; lia]|].
  destruct (IH (line ++ [b]) ltac:(lia)) as (taken & He & Ht). exists (b :: taken). cbn [app length]. rewrite <- He.
  rewrite length_app in Ht. cbn [length] in Ht. split; [done|lia].
Qed.

Lemma parse_v1_takes d reader : takes 251 reader (parse_v1 d reader).
Proof.
  destruct (read_line_takes PROXY_V1_SIGNATURE reader ltac:(cbn; lia)) as (taken & He & Ht). exists taken.
  split; [|cbn in Ht; lia]. unfold parse_v1. destruct (read_line _ reader) as [[line|] rest]; [|done]. by destruct (utf8_decode _).
Qed.

Lemma parse_v2_takes d header reader : takes PROXY_V2_MAX_ADDR_LEN reader (parse_v2 d header reader).
Proof.
  assert (forall x, takes PROXY_V2_MAX_ADDR_LEN reader (x, reader)) as Hnone by (intros x; exists []; split; [done|cbn; lia]).
  unfold parse_v2. destruct (negb _); [done|]. destruct (Nat.ltb_spec PROXY_V2_MAX_ADDR_LEN (Z.to_nat (of_be (sub 14 2 header)))); [done|].
  destruct (Nat.ltb_spec 0 (Z.to_nat (of_be (sub 14 2 header)))); [|by destruct (_ =? 0); [|destruct (negb _)]].
  destruct (read_exact_cases (Z.to_nat (of_be (sub 14 2 header))) reader) as [(data & rest & -> & -> & Hl)|[-> Hl]].
  - destruct (_ =? 0); [|destruct (negb _)]; exists data; (split; [done|lia]).
  - exists reader. rewrite app_nil_r. split; [done|lia].
Qed.

Lemma parse_takes d reader : takes 257 reader (parse_proxy_protocol d reader).
Proof.
  unfold parse_proxy_protocol. destruct (read_exact_cases PROXY_V1_MIN_LEN reader) as [(start & more & -> & -> & Hs)|[-> Hl]].
  2: { exists reader. rewrite app_nil_r. split; [done|unfold PROXY_V1_MIN_LEN in Hl; lia]. }
  destruct (bool_decide _).
  { destruct (takes_more 6 251 start more _ (parse_v1_takes d more) Hs) as (t & He & Ht). by exists t. }
  destruct (read_exact_cases (PROXY_V2_MIN_LEN - PROXY_V1_MIN_LEN) more) as [(next & rest & -> & -> & Hn)|[-> Hl]].
  2: { exists (start ++ more). rewrite app_nil_r, length_app. split; [done|]. unfold PROXY_V2_MIN_LEN, PROXY_V1_MIN_LEN in *. lia. }
  assert (length (start ++ next) = PROXY_V2_MIN_LEN) as Hh by (rewrite length_app; unfold PROXY_V2_MIN_LEN, PROXY_V1_MIN_LEN in *; lia).
  rewrite (assoc_L (++)). destruct (bool_decide _).
  - destruct (takes_more _ _ _ rest _ (parse_v2_takes d (start ++ next) rest) Hh) as (t & He & Ht). exists t.
    split; [done|]. unfold PROXY_V2_MIN_LEN, PROXY_V2_MAX_ADDR_LEN in Ht. lia.
  - exists (start ++ next). split; [done|]. rewrite Hh. unfold PROXY_V2_MIN_LEN. lia.
Qed.

(** ** Parsed addresses are addresses *)

Lemma to_digit_nonneg radix c d : 2 <= radix -> to_digit radix c = Some d -> 0 <= d.
Proof.
  intros Hr. unfold to_digit, between.
  repeat match goal with |- context [(?a <=? ?b) && (?c <=? ?e)] => destruct (Z.leb_spec a b), (Z.leb_spec c e); cbn [andb] end;
    match goal with |- context [?a <? radix] => destruct (Z.ltb_spec a radix) end; intros [= <-]; lia.
Qed.

Lemma read_digits_nonneg radix k text value count v c rest :
  2 <= radix -> 0 <= value -> read_digits radix k text value count = Some (v, c, rest) -> 0 <= v.
Proof.
  intros Hr. revert value count. induction text as [|ch text IH]; intros value count Hv; cbn [read_digits]; [by intros [= <- _ _]|].
  destruct (to_digit radix ch) as [d|] eqn:Hd; [|by intros [= <- _ _]]. apply to_digit_nonneg in Hd; [|done].
  destruct (k <? count + 1)%nat; [done|]. apply IH. nia.
Qed.

Lemma read_number_range radix k z max text v rest : 2 <= radix -> read_number radix k z max text = Some (v, rest) -> 0 <= v <= max.
Proof.
  intros Hr. unfold read_number. destruct (read_digits radix k text 0 0) as [[[x c] r]|] eqn:Hd; [|done].
  apply read_digits_nonneg in Hd; [|done|lia]. destruct (c =? 0)%nat; [done|]. destruct (_ && _ && _); [done|].
  destruct (Z.leb_spec x max); [|done]. by intros [= <- _].
Qed.

Lemma read_separator_range {A} (P : A -> Prop) sep index inner text v rest :
  (forall t a r, inner t = Some (a, r) -> P a) -> read_separator sep index inner text = Some (v, rest) -> P v.
Proof. intros Hp. destruct index; cbn; [apply Hp|]. destruct text as [|c text]; [done|]. destruct (c =? sep); [apply Hp|done]. Qed.

Lemma read_octets_ok k index octets text o rest :
  bytes_ok octets -> read_octets k index octets text = Some (o, rest) -> length o = (length octets + k)%nat /\ bytes_ok o.
Proof.
  revert index octets text. induction k as [|k IH]; intros index octets text Hb; cbn [read_octets]; [intros [= -> _]; split; [lia|done]|].
  destruct (read_separator _ _ _ text) as [[x text']|] eqn:Hx; [|done]. intros He.
  apply (read_separator_range (fun x => 0 <= x <= 255)) in Hx; [|by intros t a r; apply read_number_range].
  apply IH in He; [|apply Forall_app; split; [done|repeat constructor; unfold is_byte; lia]]. rewrite length_app in He. cbn [length] in He.
  destruct He. split; [lia|done].
Qed.

Lemma read_ipv4_ok text o rest : read_ipv4_addr text = Some (o, rest) -> ip_ok (IpV4 o).
Proof. apply (read_octets_ok 4 0 []). constructor. Qed.

Definition groups_ok (gs : list Z) : Prop := Forall (fun g => 0 <= g < 65536) gs.

Lemma read_groups_ok k index groups text gs v4 rest :
  groups_ok groups -> read_groups k index groups text = (gs, v4, rest) -> groups_ok gs /\ (length gs <= length groups + k)%nat.
Proof.
  revert index groups text. induction k as [|k IH]; intros index groups text Hg; cbn [read_groups]; [intros [= <- _ _]; split; [done|lia]|].
  destruct (if (1 <=? k)%nat then _ else _) as [[o text']|] eqn:Hv.
  - intros [= <- _ _]. destruct (Nat.leb_spec 1 k); [|done].
    apply (read_separator_range (fun o => ip_ok (IpV4 o))) in Hv as [Ho Hb]; [|by intros t a r; apply read_ipv4_ok].
    rewrite length_app. cbn [length]. split; [|lia]. apply Forall_app. split; [done|].
    destruct o as [|a [|b [|c [|d [|]]]]]; try done. unfold bytes_ok in Hb. rewrite !list.Forall_cons in Hb. cbn [take drop].
    destruct Hb as (Ha & Hb & Hc & Hd & _). unfold is_byte in *. repeat constructor; rewrite of_be_2; lia.
  - clear Hv. destruct (read_separator 58 index _ text) as [[g text']|] eqn:Hx; [|intros [= <- _ _]; split; [done|lia]].
    apply (read_separator_range (fun x => 0 <= x <= 65535)) in Hx; [|by intros t a r; apply read_number_range].
    intros He. apply IH in He as [Ho Hl]; [|apply Forall_app; split; [done|repeat constructor; lia]].
    rewrite length_app in Hl. cbn [length] in Hl. split; [done|lia].
Qed.

Lemma group_octets gs : (length (concat (to_be 2 <$> gs)) = 2 * length gs)%nat /\ bytes_ok (concat (to_be 2 <$> gs)).
Proof.
  induction gs as [|g gs [Hl Hb]]; [by split; [|constructor]|]. rewrite fmap_cons. cbn [concat length]. rewrite length_app, length_to_be, Hl.
  split; [lia|]. apply Forall_app. split; [apply to_be_bytes_ok|done].
Qed.

Lemma read_ipv6_ok text o rest : read_ipv6_addr text = Some (o, rest) -> ip_ok (IpV6 o).
Proof.
  unfold read_ipv6_addr. destruct (read_groups 8 0 [] text) as [[hd v4] text'] eqn:Hh.
  apply read_groups_ok in Hh as [_ Hl]; [|constructor]. cbn [length Nat.add] in Hl.
  destruct (Nat.eqb_spec (length hd) 8) as [H8|H8].
  - intros [= <- _]. cbn [ip_ok]. destruct (group_octets hd) as [-> ?]. by rewrite H8.
  - destruct v4; [done|]. destruct text' as [|a [|b text']]; [done|done|]. destruct (_ && _); [|done].
    destruct (read_groups (7 - length hd) 0 [] text') as [[tl w4] text''] eqn:Ht. apply read_groups_ok in Ht as [_ Ht]; [|constructor].
    cbn [length Nat.add] in Ht. intros [= <- _]. cbn [ip_ok]. destruct (group_octets (hd ++ replicate (8 - length hd - length tl) 0 ++ tl)) as [-> ?].
    rewrite !length_app, length_replicate. split; [lia|done].
Qed.

Lemma parse_ip_ok text ip : parse_ip text = Some ip -> ip_ok ip.
Proof.
  unfold parse_ip. destruct (read_ipv4_addr text) as [[o [|]]|] eqn:H4; [|done|].
  - intros [= <-]. by apply read_ipv4_ok in H4.
  - destruct (read_ipv6_addr text) as [[o [|]]|] eqn:H6; [|done|done]. intros [= <-]. by apply read_ipv6_ok in H6.
Qed.

Lemma parse_u16_ok text v : parse_u16 text = Some v -> 0 <= v < 2 ^ 16.
Proof.
  unfold parse_u16. set (digits := match text with 43 :: (_ :: _) as rest => tail rest | _ => text end). clearbody digits.
  destruct (read_digits 10 (length digits) digits 0 0) as [[[x c] r]|] eqn:Hd; [|done]. apply read_digits_nonneg in Hd; [|lia|lia].
  destruct (_ || _) eqn:Ho; [done|]. apply orb_false_iff in Ho as [_ Ho%Z.ltb_ge]. intros [= <-]. lia.
Qed.

Definition info_ok (info : ProxyProtocolInfo) : Prop := addr_ok (src_addr info) /\ from_option addr_ok True (dst_addr info).

(** Either both addresses come from the header, or the peer stands and there is no destination. *)
Definition trusted (d : SocketAddr) (version : Z) (r : option ProxyProtocolInfo) : Prop :=
  forall info, r = Some info -> pp_version info = version /\ (dst_addr info = None -> src_addr info = d) /\ (addr_ok d -> info_ok info).

Lemma trusted_peer d version : trusted d version (Some (mkInfo d None version)).
Proof. by intros info [= <-]. Qed.

Lemma trusted_none d version : trusted d version None.
Proof. by intros info. Qed.

Lemma trusted_addrs d version src dst : addr_ok src -> addr_ok dst -> trusted d version (Some (mkInfo src (Some dst) version)).
Proof. by intros Hs Hd info [= <-]. Qed.

Lemma parse_v1_trusted d reader : trusted d 1 (parse_v1 d reader).1.
Proof.
  unfold parse_v1. destruct (read_line _ _) as [[line|] rest]; [|apply trusted_none]. destruct (utf8_decode _) as [text|]; [|apply trusted_none].
  cbn [fst]. unfold parse_v1_line. destruct (split_whitespace text) as [|kind args]; [apply trusted_none|]. destruct (_ && _).
  - destruct args as [|src [|dst [|sport [|dport args]]]]; try apply trusted_none.
    destruct (parse_ip src) eqn:H1; [|apply trusted_none]. destruct (parse_ip dst) eqn:H2; [|apply trusted_none].
    destruct (parse_u16 sport) eqn:H3; [|apply trusted_none]. destruct (parse_u16 dport) eqn:H4; [|apply trusted_none].
    apply trusted_addrs; (split; [by eapply parse_ip_ok|by eapply parse_u16_ok]).
  - destruct (bool_decide _); [apply trusted_peer|apply trusted_none].
Qed.

Lemma v2_field_ok off n data : bytes_ok data -> (off + n <= length data)%nat -> length (sub off n data) = n /\ bytes_ok (sub off n data).
Proof.
  intros Hb Hl. unfold sub. rewrite length_take, length_drop. split; [lia|]. by apply Forall_take, Forall_drop.
Qed.

Lemma v2_port_ok off data : bytes_ok data -> (off + 2 <= length data)%nat -> 0 <= of_be (sub off 2 data) < 2 ^ 16.
Proof.
  intros Hb Hl. destruct (v2_field_ok off 2 data Hb Hl) as [Hn Ho]. pose proof (of_be_bounds _ Ho) as Hr. by rewrite Hn in Hr.
Qed.

Lemma parse_v2_addrs_trusted d family data : bytes_ok data -> trusted d 2 (parse_v2_addrs d family data).
Proof.
  intros Hb. unfold parse_v2_addrs.
  destruct (Nat.leb_spec 12 (length data)), (Nat.leb_spec 36 (length data)), (family =? INET), (family =? INET6), (family =? UNSPEC);
    cbn [andb]; try apply trusted_none; try apply trusted_peer;
    apply trusted_addrs; (split; [apply v2_field_ok; [done|lia]|apply v2_port_ok; [done|cbn; lia]]).
Qed.

Lemma parse_v2_trusted d header reader : bytes_ok reader -> trusted d 2 (parse_v2 d header reader).1.
Proof.
  intros Hb. unfold parse_v2. destruct (negb _); [apply trusted_none|]. destruct (_ <? _)%nat; [apply trusted_none|].
  assert (forall data, bytes_ok data -> forall rest : list Z, trusted d 2 (if Z.land (of_be (sub 12 1 header)) 15 =? 0 then (Some (mkInfo d None 2), rest)
    else if negb (Z.land (of_be (sub 12 1 header)) 15 =? 1) then (None, rest)
    else (parse_v2_addrs d (Z.shiftr (of_be (sub 13 1 header)) 4) data, rest)).1) as Hdone.
  { intros data Hd rest. destruct (_ =? 0); [apply trusted_peer|]. destruct (negb _); [apply trusted_none|by apply parse_v2_addrs_trusted]. }
  destruct (0 <? _)%nat; [|apply Hdone; constructor].
  destruct (read_exact_cases (Z.to_nat (of_be (sub 14 2 header))) reader) as [(data & rest & -> & -> & Hl)|[-> _]]; [|apply trusted_none].
  apply Hdone. by apply Forall_app in Hb as [? _].
Qed.

(** * Properties *)

(** C33: PROXY protocol headers read back: what the version 1 and version 2 builders write for any pair of socket
    addresses is parsed to exactly these addresses, and no byte after the header is taken: the client's own traffic
    starts where the header ends.  Addresses of different families have no version 2 form and are sent, like a header
    without addresses, as a local connection, for which the parser keeps the peer's address. *)
Theorem proxy_protocol_roundtrip (d src dst : SocketAddr) (rest : list Z) :
  addr_ok src -> addr_ok dst ->
  parse_proxy_protocol d (v1_build (v1_tcp4 src dst) ++ rest) = (Some (mkInfo src (Some dst) 1), rest) /\
  parse_proxy_protocol d (v1_build (v1_tcp6 src dst) ++ rest) = (Some (mkInfo src (Some dst) 1), rest) /\
  parse_proxy_protocol d (v2_build (v2_with_addrs src dst) ++ rest) =
    (Some (if same_family (sa_ip src) (sa_ip dst) then mkInfo src (Some dst) 2 else mkInfo d None 2), rest) /\
  parse_proxy_protocol d (v1_build v1_new ++ rest) = (Some (mkInfo d None 1), rest) /\
  parse_proxy_protocol d (v2_build v2_new ++ rest) = (Some (mkInfo d None 2), rest).
Proof.
  intros Hs Hd. split; [apply parse_v1_words; auto|]. split; [apply parse_v1_words; auto|].
  split; [by apply parse_v2_built|]. split; [|done].
  by apply (parse_v1_text d UNKNOWN rest); [repeat constructor|cbn; lia].
Qed.

Definition demo_src : SocketAddr := mkSocketAddr (IpV6 [32; 1; 13; 184; 0; 0; 0; 0; 0; 0; 0; 0; 0; 0; 0; 7]) 50123.
Definition demo_dst : SocketAddr := mkSocketAddr (IpV6 (replicate 10 0 ++ [255; 255; 10; 0; 0; 1])) 443.
Definition demo_peer : SocketAddr := mkSocketAddr (IpV4 [127; 0; 0; 1]) 9000.

Lemma proxy_protocol_roundtrip_witness :
  print_ip (sa_ip demo_src) = [50; 48; 48; 49; 58; 100; 98; 56; 58; 58; 55] /\
  parse_proxy_protocol demo_peer (v2_build (v2_with_addrs demo_src demo_dst) ++ [22; 3; 1]) = (Some (mkInfo demo_src (Some demo_dst) 2), [22; 3; 1]).
Proof.
  split; [vm_compute; reflexivity|]. apply (proxy_protocol_roundtrip demo_peer demo_src demo_dst [22; 3; 1]).
  all: split; [split; [reflexivity|repeat constructor; vm_compute; congruence]|vm_compute; split; congruence].
Defined.

(** C39: whatever the stream holds, the parser takes a prefix of at most 257 bytes of it and leaves the rest; on success
    the version is 1 or 2, the client's address is that of the peer unless the header gives both a source and a
    destination, and every address it reports has the octets and the port of a socket address. *)
Theorem proxy_protocol_bounded (d : SocketAddr) (reader : list Z) :
  bytes_ok reader ->
  takes 257 reader (parse_proxy_protocol d reader) /\
  (trusted d 1 (parse_proxy_protocol d reader).1 \/ trusted d 2 (parse_proxy_protocol d reader).1).
Proof.
  intros Hb. split; [apply parse_takes|]. unfold parse_proxy_protocol.
  destruct (read_exact_cases PROXY_V1_MIN_LEN reader) as [(start & more & -> & -> & Hs)|[-> Hl]]; [|left; apply trusted_none].
  apply Forall_app in Hb as [_ Hb]. destruct (bool_decide _); [left; apply parse_v1_trusted|right].
  destruct (read_exact_cases (PROXY_V2_MIN_LEN - PROXY_V1_MIN_LEN) more) as [(next & rest & -> & -> & Hn)|[-> Hl]]; [|apply trusted_none].
  apply Forall_app in Hb as [_ Hb]. destruct (bool_decide _); [by apply parse_v2_trusted|apply trusted_none].
Qed.

Lemma proxy_protocol_bounded_witness :
  (parse_proxy_protocol demo_peer (v1_build (v1_tcp4 demo_peer demo_peer) ++ [239; 239])).1 <> None /\
  takes 257 (v1_build (v1_tcp4 demo_peer demo_peer) ++ [239; 239]) (parse_proxy_protocol demo_peer (v1_build (v1_tcp4 demo_peer demo_peer) ++ [239; 239])).
Proof.
  split; [vm_compute; congruence|]. apply (proxy_protocol_bounded demo_peer).
  vm_compute. repeat constructor; congruence.
Defined.

(** The comment of the reader gives 107 bytes as the most a version 1 line may have; a line of 257 bytes is accepted. *)
Lemma v1_long_line_accepted :
  let line := PROXY_V1_SIGNATURE ++ UNKNOWN ++ replicate 242 32 ++ CRLF in
  length line = 257%nat /\ parse_proxy_protocol demo_peer line = (Some (mkInfo demo_peer None 1), []).
Proof. split; vm_compute; reflexivity. Qed.
